(* ===== verification/_CoqProject ===== *)
-Q . S2P
Prelude.v
FreeQueue.v
FreeQueueSpec.v
FreeQueueRefine.v
Request.v
BlockHash.v
BlockHashSpec.v
BlockPool.v
BlockPoolInv.v
BlockPoolSpec.v
BlockPoolOps.v
BlockPoolProps.v
PoolTheorems.v
KVCacheSpec.v
SingleType.v
CacheHit.v
CacheHitSpec.v
CacheHitTheorems.v
SingleTypeSpec.v
SingleTypeOps.v
SingleTypeTheorems.v
Admission.v
OrderedDict.v
PyNumber.v
Heapq.v
RequestQueue.v
RequestQueueSpec.v
SchedUtils.v
SchedUtilsSpec.v
SchedPrefill.v
EncoderCache.v
EncoderCacheSpec.v
SchedEncoder.v
SchedEncoderSpec.v
EncoderTheorems.v
Coordinator.v
CoordinatorLookup.v
CoordinatorInv.v
CoordinatorTheorems.v
PartialCache.v
PartialCacheSpec.v
KVManager.v
CoordinatorAdmission.v
KVManagerSpec.v
KVReady.v
KVManagerRuns.v
Offload.v
OffloadSpec.v
OffloadArc.v
OffloadManager.v
OffloadManagerSpec.v
OffloadTheorems.v
MixedPrefill.v
SchedInterface.v
Sched.v
Schedule.v
SchedUpdate.v
SchedInv.v
ScheduleInv.v
ScheduleRunning.v
ScheduleWaiting.v
ScheduleSpec.v
SchedUpdateSpec.v
SchedLife.v
KVTables.v
SchedTheorems.v
LayerSpec.v
Grouping.v
PageSize.v
Sizing.v
GroupingSpec.v
SizingSpec.v
SizingTheorems.v
Ngram.v
Detok.v
DetokSpec.v
OutputProc.v
OutputSpec.v
OutputSteps.v
OutputTheorems.v
