(* ===== verification/Prelude.v ===== *)
(** * Verification of the scheduling core of 1Cat-vLLM

    1Cat-vLLM serves language models.  An engine process keeps the requests, decides at
    every step which of them compute how many tokens, and hands out the blocks of the
    KV cache; worker processes run the model on the GPUs.  This library models the part
    of the engine that decides: the scheduler and what it calls and the sizing of the KV
    cache, under [src/vllm/v1/core], the CPU offloading manager under
    [src/vllm/v1/kv_offload/cpu], the request object, the n-gram draft proposer, and the way
    back: the detokenizers and the output processor under [src/vllm/v1/engine], which turn
    what the engine produces into what clients get.  It is a shallow embedding: one
    definition per method, with the source's names, composed the way the code composes
    them.

    ** How the code is embedded

    A method is a function in the state-and-exception monad [M] of this file: it returns
    ([Ret]) or raises ([Raise]), and the state it leaves is kept in both cases.  Python
    integers are [Z] ([nat] where the code only counts or indexes upwards), floats are
    [SpecFloat] binary64 values (PyNumber.v), slices and negative indices follow Python
    ([py_slice], [py_get]).  Objects that are shared and mutated (KV-cache blocks,
    requests) live in a store and are referred to by identity; a component that contains
    another runs its methods with [zoom].  A loop whose end is not structural has fuel,
    and runs out of it with the exception [OutOfFuel]; the theorems that a method
    returns, or raises only given exceptions, rule that out.  The bounds: the length of
    the list for the sift loops of [heapq] and the walks of the free queue, the hit
    length for the fixed-point lookup, the number of running requests for preemption,
    the lengths of the queues and the running list for the loops of [schedule], twice
    the context for the n-gram search (each round advances the position or shortens the
    match), the configured length for the binary search of the longest model length, two
    calls deep for aborting the children of a request.

    Weakest preconditions [wp] (the method returns, with a postcondition) and [wpe] (a
    postcondition for each way out) carry the proofs; [wp_step] and [wpe_step] apply their
    rules.

    Code outside the repository is a parameter: the hash functions, the grammar
    engine's answers, the workers' answers, the tokenizer libraries, the iteration order of
    Python sets.

    ** The parts

    - Free block queue ([kv_cache_utils.py]): FreeQueue.v models the intrusive doubly
      linked list over the heap of blocks, FreeQueueSpec.v proves each operation against
      the list it represents, FreeQueueRefine.v the refinement for sequences of
      operations.
    - Requests and block hashes ([request.py], [kv_cache_utils.py]): Request.v and
      BlockHash.v; BlockHashSpec.v proves that a request's hashes are always the chain
      of its full blocks, that equal hashes mean equal prefixes under a collision-free
      hash, and exhibits two ways in which the extra keys of different requests
      coincide.
    - Block pool ([block_pool.py]): BlockPool.v; BlockPoolInv.v, BlockPoolSpec.v, BlockPoolOps.v and
      BlockPoolProps.v hold the
      invariant (free lists = blocks without references, map = hashed blocks) and the
      effect of every operation; PoolTheorems.v states them over all call sequences.
    - Managers of one group ([single_type_kv_cache_manager.py]): KVCacheSpec.v,
      SingleType.v and CacheHit.v model every manager class and its prefix-cache lookup;
      CacheHitSpec.v and CacheHitTheorems.v prove which prefix is found, SingleTypeSpec.v,
      SingleTypeOps.v and SingleTypeTheorems.v the conservation of references,
      Admission.v the prediction of demand and the caps of windowed classes.
    - Coordinators ([kv_cache_coordinator.py]): Coordinator.v; CoordinatorLookup.v the
      convergence of the hybrid lookup, CoordinatorInv.v conservation over all groups,
      CoordinatorAdmission.v that the predicted blocks suffice, CoordinatorTheorems.v
      the retention setting and two runs that show limits.
    - Partial prefix cache ([partial_prefix_cache.py]): PartialCache.v,
      PartialCacheSpec.v.
    - KV-cache manager ([kv_cache_manager.py]): KVManager.v; KVManagerSpec.v states
      admission exactly, KVManagerRuns.v a run that raises, KVReady.v that without
      prefix caching, over full-attention groups, nothing raises, KVTables.v which
      requests hold blocks.
    - KV-cache sizing ([kv_cache_interface.py], [kv_cache_utils.py]): LayerSpec.v models the
      bytes of a page and of a request for every class of spec and the merging of specs,
      Grouping.v and PageSize.v the grouping of layers and the equal pages, Sizing.v the
      blocks and tensors of each worker, the longest model length and
      [get_kv_cache_configs].  GroupingSpec.v proves that the groups partition the layers,
      SizingSpec.v that the length is the longest that fits, SizingTheorems.v that the
      planned tensors fit and hold a request of that length.
    - Queues ([request_queue.py]): OrderedDict.v and Heapq.v model the library's
      containers, RequestQueue.v the two policies as instances of a type class,
      RequestQueueSpec.v their refinement of an ordered list.
    - Decisions inside a step ([sched/utils.py], [sched/scheduler.py],
      [sched/mixed_prefill.py]): SchedUtils.v and SchedUtilsSpec.v (stop conditions),
      SchedPrefill.v (chunk sizes), MixedPrefill.v (the controller of mixed steps, with
      its float arithmetic).
    - Encoder cache ([encoder_cache_manager.py]): EncoderCache.v, EncoderCacheSpec.v;
      SchedEncoder.v, SchedEncoderSpec.v and EncoderTheorems.v its use by the
      scheduler.
    - Scheduler ([sched/scheduler.py], [sched/async_scheduler.py]): SchedInterface.v
      holds what the scheduler asks of its components as type classes with laws
      ([KVCacheLaws], [QueueLaws]), Sched.v the state, Schedule.v the step, SchedUpdate.v the
      processing of its output.  SchedInv.v is the invariant and its frame
      rules; ScheduleInv.v, ScheduleRunning.v, ScheduleWaiting.v, ScheduleSpec.v,
      SchedUpdateSpec.v and SchedLife.v prove that every operation keeps it.  SchedLife.v
      ends with the step relation of an engine driving the scheduler, SchedTheorems.v has
      concrete schedulers and what holds in every reachable state.
    - CPU offloading ([kv_offload/cpu]): Offload.v (LRU and ARC policies),
      OffloadSpec.v and OffloadArc.v (they meet [CachePolicyLaws]), OffloadManager.v and
      OffloadManagerSpec.v (block accounting against the laws), OffloadTheorems.v
      (transfers in flight are never overwritten).
    - N-gram proposer ([spec_decode/ngram_proposer.py]): Ngram.v, with the equivalence
      of the one-pass search and a direct one.
    - Detokenizer ([engine/detokenizer.py], [tokenizers/detokenizer_utils.py]): Detok.v;
      DetokSpec.v proves that searching the end of the text for stop strings finds what
      a search of all of it finds, and that the pieces handed out are never taken back
      ([StreamLaws], of which every detokenizer is an instance).
    - Output processor ([engine/output_processor.py], [engine/parallel_sampling.py],
      [outputs.py]): OutputProc.v; OutputSpec.v the collectors, the parents, the output of
      one request and the invariant of the tables, OutputSteps.v that every operation
      keeps it, OutputTheorems.v runs in which requests are added, served, aborted and
      fetched in any order, and five closed runs that go wrong.

    ** How they interact

    The scheduler calls the KV-cache manager, which calls a coordinator, which calls its
    managers; these share the block pool, whose free lists are free block queues.
    References are what ties the layers together: a block's count is the number of
    table entries that name it, in every manager and every coordinator, also after an
    exception.  The scheduler's proofs use only the laws of SchedInterface.v, of which
    the manager of KVManager.v is an instance (KVTables.v); [kv_ready] of these laws is
    the states in which the cache does not raise, for this manager [uncached]
    (KVReady.v).  [EngineCoreOutput] of SchedUpdate.v, which [update_from_output] makes, is
    what the output processor takes; its proofs use only [StreamLaws] of a detokenizer.

    ** What the theorems show

    Each claim is a theorem with a doc comment numbered C<n>; a theorem with hypotheses
    is applied to a concrete input by the lemma named [<theorem>_witness].  The groups:
    invariants of the stores over all call sequences (pool, managers, coordinator,
    partial cache, encoder cache, offloading, scheduler); refinements and equivalences
    (free queue, request queues, chunked prefill, n-gram search, stop strings); what
    clients get (whole texts and tokens, all completions); exact answers of
    lookups and admission; termination of the loops; bounds on tokens, blocks and
    memory; and closed runs in which the code does something it does not mean to.

    ** Not modelled

    Of the modelled files: log output, statistics, metrics and event annotations, KV
    and encoder connectors, DDTree drafts, streaming sessions, routed experts, and the
    KV-cache layouts of the DeepSeek V4, GLM-5.3 and Qwen4Exp families (the functions they
    share answer [None] for them); the per-group composition of the offloading manager,
    its factory and its workers; log probabilities, KV-transfer parameters and tracing of
    the output processor, whose streaming inputs are modelled but not among the runs
    of OutputTheorems.v; the token list that a cumulative output shares with its
    detokenizer is a copy in the model.  The runs of the output processor take checked
    requests, whose children are registered in one go, and abort internal ids one at a
    time.  The runs of the scheduler are those of a synchronous engine, with one step
    outstanding at a time; that a step never raises is proved for text requests without
    an adapter limit, over a KV cache without prefix caching and for full-attention groups; with partial
    prefix caching it does not hold (a hit can be released by the step that uses it,
    KVManagerRuns.v).
    The rest of the repository is left aside: tensor code (models, sampling,
    attention, draft models), bindings to kernels, process and network code, servers,
    configuration tables, and the text and media preprocessing around third-party
    libraries. *)

From Stdlib Require Import ZArith Lia Bool.
From stdpp Require Export base tactics numbers list gmap sets strings.
#[export] Set Default Goal Selector "!".
#[export] Set Warnings "-clear-no-such-hyp".

(** ** Python exceptions and the state-and-exception monad

    A Python method that reads and writes object state is a function from the
    state to an outcome and a state.  The state is kept when an exception is
    raised, so that "raises before changing anything" can be stated. *)

Inductive exn : Set :=
  | AssertionError
  | ValueError
  | RuntimeError
  | KeyError
  | IndexError
  | AttributeError
  | TypeError
  | StopIteration
  | NotImplementedError
  | OverflowError
  | ZeroDivisionError
  | OutOfFuel.
(* [OutOfFuel] is not a Python exception: it marks a loop of the model that
   exhausted its fuel, and every loop is proved not to. *)

Inductive outcome (A : Type) : Type :=
  | Ret (a : A)
  | Raise (e : exn).
Arguments Ret {A} a.
Arguments Raise {A} e.

#[export] Instance exn_eq_dec : EqDecision exn.
Proof. solve_decision. Defined.

Definition obind {A B} (f : A → outcome B) (o : outcome A) : outcome B :=
  match o with Ret a => f a | Raise e => Raise e end.

Definition M (S A : Type) : Type := S → outcome A * S.

#[export] Instance M_ret {S} : MRet (M S) := λ A a s, (Ret a, s).
#[export] Instance M_bind {S} : MBind (M S) := λ A B f m s,
  match m s with
  | (Ret a, s') => f a s'
  | (Raise e, s') => (Raise e, s')
  end.

Definition raise {S A} (e : exn) : M S A := λ s, (Raise e, s).
Definition get {S} : M S S := λ s, (Ret s, s).
Definition gets {S A} (f : S → A) : M S A := λ s, (Ret (f s), s).
Definition put {S} (s' : S) : M S unit := λ _, (Ret tt, s').
Definition modify {S} (f : S → S) : M S unit := λ s, (Ret tt, f s).
Definition py_assert {S} (b : bool) : M S unit :=
  if b then mret tt else raise AssertionError.
Definition when {S} (b : bool) (m : M S unit) : M S unit :=
  if b then m else mret tt.
Definition of_option {S A} (e : exn) (o : option A) : M S A :=
  match o with Some a => mret a | None => raise e end.
Definition of_outcome {S A} (o : outcome A) : M S A :=
  match o with Ret a => mret a | Raise e => raise e end.

(** [for x in l: body x] *)
Fixpoint foreach {S A} (l : list A) (body : A → M S unit) : M S unit :=
  match l with
  | [] => mret tt
  | x :: l' => body x ;; foreach l' body
  end.

(** [[f x for x in l]] with effects *)
Fixpoint mapM_list {S A B} (f : A → M S B) (l : list A) : M S (list B) :=
  match l with
  | [] => mret []
  | x :: l' => y ← f x; ys ← mapM_list f l'; mret (y :: ys)
  end.

(** A loop with an accumulator. *)
Fixpoint foldM {S A B} (f : B → A → M S B) (l : list A) (b : B) : M S B :=
  match l with
  | [] => mret b
  | x :: l' => b' ← f b x; foldM f l' b'
  end.

(** An operation of a component [T] stored inside a larger state [S]. *)
Definition zoom {S T A} (proj : S → T) (upd : T → S → S) (m : M T A) : M S A :=
  λ s, let '(o, t) := m (proj s) in (o, upd t s).

(** ** Weakest preconditions: normal termination with a postcondition *)

Definition wp {S A} (m : M S A) (s : S) (Q : A → S → Prop) : Prop :=
  match m s with
  | (Ret a, s') => Q a s'
  | (Raise _, _) => False
  end.

Lemma wp_elim {S A} (m : M S A) s Q :
  wp m s Q → ∃ a s', m s = (Ret a, s') ∧ Q a s'.
Proof. unfold wp. destruct (m s) as [[a|e] s'] eqn:E; naive_solver. Qed.

Lemma wp_intro {S A} (m : M S A) s Q a s' :
  m s = (Ret a, s') → Q a s' → wp m s Q.
Proof. unfold wp. by intros ->. Qed.

Lemma run_eq {S A} (m : M S A) s a : (m s).1 = Ret a → m s = (Ret a, (m s).2).
Proof. destruct (m s). simpl. by intros ->. Qed.

Lemma wp_returns {S A} (m : M S A) s (Q : A → S → Prop) a s' : wp m s Q → m s = (Ret a, s') → Q a s'.
Proof. unfold wp. intros H E. by rewrite E in H. Qed.

Lemma wp_mono {S A} (m : M S A) s (Q Q' : A → S → Prop) :
  wp m s Q → (∀ a s', Q a s' → Q' a s') → wp m s Q'.
Proof. unfold wp. destruct (m s) as [[a|e] s']; naive_solver. Qed.

Lemma wp_bind {S A B} (m : M S A) (f : A → M S B) s Q :
  wp m s (λ a s', wp (f a) s' Q) → wp (m ≫= f) s Q.
Proof. unfold wp, mbind, M_bind. destruct (m s) as [[a|e] s']; done. Qed.

Lemma wp_bind_inv {S A B} (m : M S A) (f : A → M S B) s Q :
  wp (m ≫= f) s Q → wp m s (λ a s', wp (f a) s' Q).
Proof. unfold wp, mbind, M_bind. by destruct (m s) as [[a|e] s']. Qed.

Lemma wp_ret {S A} (a : A) (s : S) (Q : A → S → Prop) : Q a s → wp (mret a) s Q.
Proof. done. Qed.

Lemma wp_get {S} (s : S) Q : Q s s → wp get s Q.
Proof. done. Qed.

Lemma wp_gets {S A} (f : S → A) (s : S) (Q : A → S → Prop) :
  Q (f s) s → wp (gets f) s Q.
Proof. done. Qed.

Lemma wp_put {S} (s s' : S) (Q : unit → S → Prop) : Q tt s' → wp (put s') s Q.
Proof. done. Qed.

Lemma wp_modify {S} (f : S → S) (s : S) (Q : unit → S → Prop) :
  Q tt (f s) → wp (modify f) s Q.
Proof. done. Qed.

Lemma wp_assert {S} b (s : S) (Q : unit → S → Prop) :
  b = true → Q tt s → wp (py_assert b) s Q.
Proof. by intros ->. Qed.

Lemma wp_of_option {S A} e (o : option A) a (s : S) (Q : A → S → Prop) :
  o = Some a → Q a s → wp (of_option e o) s Q.
Proof. by intros ->. Qed.

Lemma wp_when {S} b (m : M S unit) s Q :
  (b = true → wp m s Q) → (b = false → Q tt s) → wp (when b m) s Q.
Proof. destruct b; intros Ht Hf; [by apply Ht|by apply Hf]. Qed.

(** The loop rule: an invariant indexed by the elements already visited. *)
Lemma wp_foreach_gen {S A} (I : list A → S → Prop) (body : A → M S unit) l :
  ∀ done s,
  I done s →
  (∀ pre x post s, l = pre ++ x :: post → I (done ++ pre) s →
     wp (body x) s (λ _ s', I (done ++ pre ++ [x]) s')) →
  wp (foreach l body) s (λ _ s', I (done ++ l) s').
Proof.
  induction l as [|x l IH]; intros dn s HI Hstep; simpl.
  { apply wp_ret. by rewrite app_nil_r. }
  apply wp_bind. eapply wp_mono.
  { apply (Hstep [] x l); [done|]. by rewrite app_nil_r. }
  intros [] s' HI'. simpl in HI'.
  replace (dn ++ x :: l) with ((dn ++ [x]) ++ l) by by rewrite <-(assoc_L (++)).
  apply IH; [done|].
  intros pre y post s'' -> HI''. rewrite <-(assoc_L (++)) in HI''.
  specialize (Hstep (x :: pre) y post s'' eq_refl HI'').
  by rewrite <-(assoc_L (++)).
Qed.

Lemma wp_foreach {S A} (I : list A → S → Prop) (body : A → M S unit) l s :
  I [] s →
  (∀ pre x post s, l = pre ++ x :: post → I pre s →
     wp (body x) s (λ _ s', I (pre ++ [x]) s')) →
  wp (foreach l body) s (λ _ s', I l s').
Proof. intros. by apply (wp_foreach_gen I body l [] s). Qed.

Lemma wp_foldM {S A B} (I : list A → B → S → Prop) (f : B → A → M S B) l b s :
  I [] b s →
  (∀ pre x post b s, l = pre ++ x :: post → I pre b s →
     wp (f b x) s (λ b' s', I (pre ++ [x]) b' s')) →
  wp (foldM f l b) s (λ b' s', I l b' s').
Proof.
  intros H0 Hstep.
  cut (∀ post pre b s, l = pre ++ post → I pre b s →
         wp (foldM f post b) s (λ b' s', I l b' s')).
  { intros Hc. by apply (Hc l []). }
  induction post as [|x post IH]; intros pre b' s' Hl HI; simpl.
  { apply wp_ret. by rewrite Hl, app_nil_r. }
  apply wp_bind. eapply wp_mono; [by eapply Hstep|].
  intros b'' s'' HI'. apply (IH (pre ++ [x])); [|done].
  by rewrite <-(assoc_L (++)).
Qed.

Lemma wp_zoom {S T A} (proj : S → T) upd (m : M T A) s Q :
  wp m (proj s) (λ a t, Q a (upd t s)) → wp (zoom proj upd m) s Q.
Proof. unfold wp, zoom. destruct (m (proj s)) as [[a|e] t]; done. Qed.

Ltac wp_step :=
  lazymatch goal with
  | |- wp (_ ≫= _) _ _ => apply wp_bind
  | |- wp (mret _) _ _ => apply wp_ret
  | |- wp get _ _ => apply wp_get
  | |- wp (gets _) _ _ => apply wp_gets
  | |- wp (put _) _ _ => apply wp_put
  | |- wp (modify _) _ _ => apply wp_modify
  | |- wp (zoom _ _ _) _ _ => apply wp_zoom
  end.
Ltac wp_steps := repeat (wp_step; cbn beta).

(** Unfold the monad of a straight-line method. *)
Ltac run_method :=
  unfold mbind, M_bind, mret, M_ret, get, gets, put, modify; cbn beta iota.

(** Raising: the exception and the state it leaves. *)
Definition raises {S A} (m : M S A) (s : S) (e : exn) (Q : S → Prop) : Prop :=
  match m s with
  | (Raise e', s') => e' = e ∧ Q s'
  | (Ret _, _) => False
  end.

(** [wp] extended to the exceptional outcome: the result satisfies [Q], or the
    exception and the state it leaves satisfy [E]. *)
Definition wpe {S A} (m : M S A) (s : S) (Q : A → S → Prop) (E : exn → S → Prop) : Prop :=
  match m s with
  | (Ret a, s') => Q a s'
  | (Raise e, s') => E e s'
  end.

Lemma wp_wpe {S A} (m : M S A) s Q E : wp m s Q → wpe m s Q E.
Proof. unfold wp, wpe. by destruct (m s) as [[a|e] s']. Qed.

Lemma wpe_mono {S A} (m : M S A) s (Q Q' : A → S → Prop) (E E' : exn → S → Prop) :
  wpe m s Q E → (∀ a s', Q a s' → Q' a s') → (∀ e s', E e s' → E' e s') → wpe m s Q' E'.
Proof. unfold wpe. destruct (m s) as [[a|e] s']; naive_solver. Qed.

Lemma wpe_bind {S A B} (m : M S A) (f : A → M S B) s Q E :
  wpe m s (λ a s', wpe (f a) s' Q E) E → wpe (m ≫= f) s Q E.
Proof. unfold wpe, mbind, M_bind. destruct (m s) as [[a|e] s']; done. Qed.

Lemma wpe_ret {S A} (a : A) (s : S) (Q : A → S → Prop) E : Q a s → wpe (mret a) s Q E.
Proof. done. Qed.

Lemma wpe_raise {S A} e (s : S) (Q : A → S → Prop) (E : exn → S → Prop) :
  E e s → wpe (raise e) s Q E.
Proof. done. Qed.

Lemma wpe_get {S} (s : S) Q E : Q s s → wpe get s Q E.
Proof. done. Qed.

Lemma wpe_put {S} (s s' : S) (Q : unit → S → Prop) E : Q tt s' → wpe (put s') s Q E.
Proof. done. Qed.

Lemma wpe_modify {S} (f : S → S) (s : S) (Q : unit → S → Prop) E :
  Q tt (f s) → wpe (modify f) s Q E.
Proof. done. Qed.

Lemma wpe_assert {S} b (s : S) (Q : unit → S → Prop) (E : exn → S → Prop) :
  (b = true → Q tt s) → (b = false → E AssertionError s) → wpe (py_assert b) s Q E.
Proof. destruct b; intros H1 H2; [by apply H1|by apply H2]. Qed.

Lemma wpe_when {S} b (m : M S unit) s Q E :
  (b = true → wpe m s Q E) → (b = false → Q tt s) → wpe (when b m) s Q E.
Proof. destruct b; intros Ht Hf; [by apply Ht|by apply Hf]. Qed.

Lemma wpe_of_option {S A} e (o : option A) (s : S) (Q : A → S → Prop) (E : exn → S → Prop) :
  (∀ a, o = Some a → Q a s) → (o = None → E e s) → wpe (of_option e o) s Q E.
Proof. destruct o; intros H1 H2; [by apply H1|by apply H2]. Qed.

Lemma wpe_zoom {S T A} (proj : S → T) upd (m : M T A) s Q E :
  wpe m (proj s) (λ a t, Q a (upd t s)) (λ e t, E e (upd t s)) → wpe (zoom proj upd m) s Q E.
Proof. unfold wpe, zoom. destruct (m (proj s)) as [[a|e] t]; done. Qed.

Ltac wpe_step :=
  lazymatch goal with
  | |- wpe (_ ≫= _) _ _ _ => apply wpe_bind
  | |- wpe (mret _) _ _ _ => apply wpe_ret
  | |- wpe (raise _) _ _ _ => apply wpe_raise
  | |- wpe get _ _ _ => apply wpe_get
  | |- wpe (put _) _ _ _ => apply wpe_put
  | |- wpe (modify _) _ _ _ => apply wpe_modify
  | |- wpe (zoom _ _ _) _ _ _ => apply wpe_zoom
  end.
Ltac wpe_steps := repeat (wpe_step; cbn beta).

(** ** Lists of pairs *)

(** Distinct keys and one key per value: the values are distinct. *)
Lemma NoDup_snd {A B} (l : list (A * B)) :
  NoDup l.*1 → (∀ k k' v, (k, v) ∈ l → (k', v) ∈ l → k = k') → NoDup l.*2.
Proof.
  induction l as [|[k v] l IH]; intros Hnd Hinj; [constructor|]. csimpl in *. apply NoDup_cons in Hnd as [Hk Hnd].
  constructor.
  - intros ([k' v'] & E & Hin)%list_elem_of_fmap. simpl in E. subst v'. apply Hk.
    rewrite (Hinj k k' v); [by apply (list_elem_of_fmap_2 fst _ _ Hin)|by left|by right].
  - apply IH; [done|]. intros k1 k2 i H1 H2. apply (Hinj k1 k2 i); by right.
Qed.

(** ** Integers *)

(** [vllm.utils.math_utils.cdiv]: Python's [//] is [Z.div] on non-zero
    divisors, for both signs. *)
Definition cdiv (a b : Z) : Z := - (a / (- b)).
Definition round_up (x y : Z) : Z := (x + y - 1) / y * y.
Definition round_down (x y : Z) : Z := x / y * y.

Lemma cdiv_spec a b : (0 < b)%Z → (b * (cdiv a b - 1) < a ≤ b * cdiv a b)%Z.
Proof.
  intros Hb. unfold cdiv.
  pose proof (Z.div_mod a (-b) ltac:(lia)).
  pose proof (Z.mod_neg_bound a (-b) ltac:(lia)). nia.
Qed.

Lemma cdiv_nonneg a b : (0 < b)%Z → (0 ≤ a)%Z → (0 ≤ cdiv a b)%Z.
Proof. intros Hb Ha. pose proof (cdiv_spec a b Hb). nia. Qed.

Lemma cdiv_le_iff a b n : (0 < b)%Z → (cdiv a b ≤ n ↔ a ≤ b * n)%Z.
Proof. intros Hb. pose proof (cdiv_spec a b Hb). split; nia. Qed.

Lemma cdiv_mono a a' b : (0 < b)%Z → (a ≤ a')%Z → (cdiv a b ≤ cdiv a' b)%Z.
Proof.
  intros Hb Ha. apply cdiv_le_iff; [done|].
  pose proof (cdiv_spec a' b Hb). lia.
Qed.

(** ** Python sequences

    [py_slice l a b] is [l[a:b]] and [py_get l i] is [l[i]], negative
    positions counted from the end. *)

Definition zlen {A} (l : list A) : Z := Z.of_nat (length l).

Definition clip_index (n i : Z) : Z :=
  if (i <? 0)%Z then Z.max 0 (i + n) else Z.min i n.

Definition py_slice {A} (l : list A) (a b : Z) : list A :=
  let a' := clip_index (zlen l) a in
  let b' := clip_index (zlen l) b in
  take (Z.to_nat (b' - a')) (drop (Z.to_nat a') l).

Definition py_from {A} (l : list A) (a : Z) : list A :=
  drop (Z.to_nat (clip_index (zlen l) a)) l.

Definition py_get {A} (l : list A) (i : Z) : option A :=
  if (i <? - zlen l)%Z then None
  else if (i <? 0)%Z then l !! Z.to_nat (i + zlen l)
  else l !! Z.to_nat i.

Lemma zlen_nonneg {A} (l : list A) : (0 ≤ zlen l)%Z.
Proof. unfold zlen. lia. Qed.

Lemma zlen_nil {A} : zlen (@nil A) = 0%Z.
Proof. done. Qed.

Lemma zlen_cons {A} (x : A) l : zlen (x :: l) = (zlen l + 1)%Z.
Proof. unfold zlen. simpl. lia. Qed.

Lemma zlen_app {A} (l l' : list A) : zlen (l ++ l') = (zlen l + zlen l')%Z.
Proof. unfold zlen. rewrite length_app. lia. Qed.

Lemma py_slice_nonneg {A} (l : list A) a b :
  (0 ≤ a)%Z → (0 ≤ b)%Z →
  py_slice l a b = take (Z.to_nat b - Z.to_nat a) (drop (Z.to_nat a) l).
Proof.
  intros Ha Hb. unfold py_slice, clip_index, zlen.
  rewrite !(proj2 (Z.ltb_ge _ _)) by lia.
  destruct (decide (Z.to_nat a < length l)) as [Hlt|Hge].
  - replace (Z.to_nat (a `min` Z.of_nat (length l))) with (Z.to_nat a) by lia.
    destruct (decide (Z.to_nat b <= length l)).
    + f_equal. lia.
    + rewrite !take_ge; rewrite ?length_drop; [done|lia|lia].
  - rewrite !drop_ge by lia. by rewrite !take_nil.
Qed.

Lemma py_from_nonneg {A} (l : list A) a :
  (0 ≤ a)%Z → py_from l a = drop (Z.to_nat a) l.
Proof.
  intros Ha. unfold py_from, clip_index, zlen.
  rewrite (proj2 (Z.ltb_ge _ _)) by lia.
  destruct (decide (Z.to_nat a < length l)).
  - f_equal. lia.
  - by rewrite !drop_ge by lia.
Qed.

Lemma py_get_nonneg {A} (l : list A) i :
  (0 ≤ i)%Z → py_get l i = l !! Z.to_nat i.
Proof.
  intros Hi. unfold py_get. pose proof (zlen_nonneg l).
  by rewrite !(proj2 (Z.ltb_ge _ _)) by lia.
Qed.

Lemma last_split {A} (l : list A) x : last l = Some x → l = removelast l ++ [x].
Proof.
  destruct l as [|y l' _] using rev_ind; [done|]. rewrite last_snoc, removelast_last. by intros [= ->].
Qed.

Lemma default_last_elem {A} (x : A) l : default x (last l) ∈ x :: l.
Proof.
  destruct (last l) eqn:E; simpl; [|set_solver].
  apply last_Some_elem_of in E. set_solver.
Qed.

Lemma filter_true {A} (P : A → Prop) `{∀ x, Decision (P x)} (l : list A) :
  (∀ x, x ∈ l → P x) → filter P l = l.
Proof.
  induction l as [|x l IH]; intros HP; [done|].
  rewrite filter_cons_True by (apply HP; set_solver). f_equal. apply IH. set_solver.
Qed.

Lemma filter_false {A} (P : A → Prop) `{∀ x, Decision (P x)} (l : list A) :
  (∀ x, x ∈ l → ¬ P x) → filter P l = [].
Proof.
  induction l as [|x l IH]; intros HP; [done|].
  rewrite filter_cons_False by (apply HP; set_solver). apply IH. set_solver.
Qed.

Lemma filter_one {A} (P : A → Prop) `{∀ x, Decision (P x)} (x : A) :
  filter P [x] = if decide (P x) then [x] else [].
Proof. done. Qed.

(** ** Sums *)

Definition zsum (l : list Z) : Z := foldr Z.add 0%Z l.

Lemma zsum_cons n l : zsum (n :: l) = (n + zsum l)%Z.
Proof. done. Qed.

Lemma zsum_app l l' : zsum (l ++ l') = (zsum l + zsum l')%Z.
Proof. induction l as [|x l IH]; simpl; lia. Qed.

#[export] Instance zsum_perm : Proper ((≡ₚ) ==> (=)) zsum.
Proof. intros l l' H. induction H; simpl in *; lia. Qed.

Lemma zsum_nonneg l : Forall (λ n, 0 ≤ n)%Z l → (0 ≤ zsum l)%Z.
Proof. induction 1; simpl; lia. Qed.

Create HintDb vllm.
#[export] Hint Resolve zlen_nonneg cdiv_nonneg : vllm.
Create Rewrite HintDb vllm_len.
#[export] Hint Rewrite @zlen_nil @zlen_cons @zlen_app : vllm_len.
