(* ===== verification/FreeQueue.v ===== *)
(** * KV-cache blocks and the free-block queue

    The objects of [kv_cache_utils.py]: [KVCacheBlock] and the intrusive
    doubly linked list [FreeKVCacheBlockQueue].  Blocks are shared mutable
    objects, so they live in a heap and are referred to by location; the links
    are the [prev_free_block]/[next_free_block] fields of the blocks
    themselves.  [queue_repr] relates the pointers to the list of free blocks,
    and the [*_spec] lemmas show that every operation implements its list
    operation. *)

From Stdlib Require Import Strings.Byte.
From S2P Require Import Prelude.

(** ** Objects *)

Abbreviation loc := nat (only parsing).
Abbreviation bytes := (list byte).
#[export] Instance byte_eq_dec : EqDecision byte := Byte.byte_eq_dec.
#[export] Instance byte_countable : Countable byte.
Proof. refine (inj_countable Byte.to_N Byte.of_N _); apply Byte.of_to_N. Defined.
Abbreviation BlockHash := bytes (only parsing).
Abbreviation BlockHashWithGroupId := bytes (only parsing).

Record KVCacheBlock : Type := mkBlock {
  block_id : Z;
  ref_cnt : Z;
  _block_hash : option BlockHashWithGroupId;
  prev_free_block : option loc;
  next_free_block : option loc;
  is_null : bool;
}.

#[export] Instance KVCacheBlock_inhabited : Inhabited KVCacheBlock :=
  populate (mkBlock 0 0 None None None false).

(** [KVCacheBlock(block_id)] with the dataclass defaults. *)
Definition new_block (i : Z) : KVCacheBlock := mkBlock i 0 None None None false.

Definition set_ref_cnt (n : Z) (b : KVCacheBlock) : KVCacheBlock :=
  mkBlock (block_id b) n (_block_hash b) (prev_free_block b) (next_free_block b) (is_null b).
Definition set_hash (k : option BlockHashWithGroupId) (b : KVCacheBlock) : KVCacheBlock :=
  mkBlock (block_id b) (ref_cnt b) k (prev_free_block b) (next_free_block b) (is_null b).
Definition set_prev (p : option loc) (b : KVCacheBlock) : KVCacheBlock :=
  mkBlock (block_id b) (ref_cnt b) (_block_hash b) p (next_free_block b) (is_null b).
Definition set_next (n : option loc) (b : KVCacheBlock) : KVCacheBlock :=
  mkBlock (block_id b) (ref_cnt b) (_block_hash b) (prev_free_block b) n (is_null b).
Definition set_null (n : bool) (b : KVCacheBlock) : KVCacheBlock :=
  mkBlock (block_id b) (ref_cnt b) (_block_hash b) (prev_free_block b) (next_free_block b) n.

(** [reset_hash] *)
Definition reset_hash (b : KVCacheBlock) : KVCacheBlock := set_hash None b.

(** The heap of block objects, with a bump allocator. *)
Record heap : Type := Heap { cells : gmap loc KVCacheBlock; next_loc : loc }.

Definition deref (h : heap) (l : loc) : KVCacheBlock := cells h !!! l.
Definition update (l : loc) (f : KVCacheBlock → KVCacheBlock) (h : heap) : heap :=
  Heap (<[l := f (deref h l)]> (cells h)) (next_loc h).
Definition alloc (b : KVCacheBlock) (h : heap) : loc * heap :=
  (next_loc h, Heap (<[next_loc h := b]> (cells h)) (S (next_loc h))).

Record FreeKVCacheBlockQueue : Type := mkQueue {
  num_free_blocks : Z;
  fake_free_list_head : loc;
  fake_free_list_tail : loc;
}.

Record qstate : Type := QState { q_heap : heap; q_self : FreeKVCacheBlockQueue }.

Definition on_heap (f : heap → heap) (s : qstate) : qstate := QState (f (q_heap s)) (q_self s).
Definition add_num (n : Z) (s : qstate) : qstate :=
  let q := q_self s in
  QState (q_heap s)
    (mkQueue (num_free_blocks q + n) (fake_free_list_head q) (fake_free_list_tail q)).

(** Attribute reads and writes on block objects. *)
Definition rd_next (l : loc) : M qstate (option loc) :=
  gets (λ s, next_free_block (deref (q_heap s) l)).
Definition rd_prev (l : loc) : M qstate (option loc) :=
  gets (λ s, prev_free_block (deref (q_heap s) l)).
Definition wr_next (l : loc) (v : option loc) : M qstate unit :=
  modify (on_heap (update l (set_next v))).
Definition wr_prev (l : loc) (v : option loc) : M qstate unit :=
  modify (on_heap (update l (set_prev v))).

(** ** FreeKVCacheBlockQueue *)
Module FreeQueue.

(** The links between consecutive blocks set by the constructor's loop: block
    [i] gets a predecessor when [i > 0] and a successor when [i < n - 1]. *)
Fixpoint link_consecutive (blocks : list loc) (h : heap) : heap :=
  match blocks with
  | x :: ((y :: _) as rest) =>
      link_consecutive rest (update y (set_prev (Some x)) (update x (set_next (Some y)) h))
  | _ => h
  end.

(** [FreeKVCacheBlockQueue(blocks)]: links the blocks, then allocates the fake
    head and tail and links them to the first and the last block. *)
Definition init (blocks : list loc) (h : heap) : qstate :=
  let h := link_consecutive blocks h in
  let '(fh, h) := alloc (new_block (-1)) h in
  let '(ft, h) := alloc (new_block (-1)) h in
  let h :=
    match head blocks, last blocks with
    | Some b0, Some b_last =>
        let h := update fh (set_next (Some b0)) h in
        let h := update b0 (set_prev (Some fh)) h in
        let h := update ft (set_prev (Some b_last)) h in
        update b_last (set_next (Some ft)) h
    | _, _ =>
        let h := update fh (set_next (Some ft)) h in
        update ft (set_prev (Some fh)) h
    end in
  QState h (mkQueue (zlen blocks) fh ft).

(** Assigning an attribute of [x.next_free_block]: an [AttributeError] when it
    is [None]. *)
Definition next_of (l : loc) : M qstate loc :=
  n ← rd_next l; of_option AttributeError n.
Definition prev_of (l : loc) : M qstate loc :=
  p ← rd_prev l; of_option AttributeError p.

Definition popleft : M qstate loc :=
  s ← get;
  let q := q_self s in
  first ← rd_next (fake_free_list_head q);
  if bool_decide (first = Some (fake_free_list_tail q) ∨ first = None) then
    py_assert (num_free_blocks q =? 0)%Z ;; raise ValueError
  else
    first_block ← of_option AttributeError first;
    second ← rd_next first_block;
    if bool_decide (second = None) then raise RuntimeError
    else
      wr_next (fake_free_list_head q) second ;;
      n ← next_of first_block;
      wr_prev n (Some (fake_free_list_head q)) ;;
      wr_prev first_block None ;;
      wr_next first_block None ;;
      modify (add_num (-1)) ;;
      mret first_block.

(** The [for _ in range(n)] loop of [popleft_n]. *)
Fixpoint pop_loop (n : nat) (curr_block : option loc) (ret : list loc)
    : M qstate (option loc * list loc) :=
  match n with
  | O => mret (curr_block, ret)
  | S n' =>
      last_block ← of_option AssertionError curr_block;
      curr_block' ← rd_next last_block;
      wr_prev last_block None ;;
      wr_next last_block None ;;
      pop_loop n' curr_block' (ret ++ [last_block])
  end.

Definition popleft_n (n : Z) : M qstate (list loc) :=
  if (n =? 0)%Z then mret []
  else
    s ← get;
    let q := q_self s in
    py_assert (n <=? num_free_blocks q)%Z ;;
    modify (add_num (- n)) ;;
    curr_block ← rd_next (fake_free_list_head q);
    r ← pop_loop (Z.to_nat n) curr_block [];
    let '(curr_block, ret) := r in
    match curr_block with
    | Some c =>
        wr_next (fake_free_list_head q) (Some c) ;;
        wr_prev c (Some (fake_free_list_head q))
    | None => mret tt
    end ;;
    mret ret.

Definition remove (block : loc) : M qstate unit :=
  p ← rd_prev block;
  n ← rd_next block;
  if bool_decide (p = None ∨ n = None) then raise RuntimeError
  else
    p ← prev_of block;
    n ← rd_next block;
    wr_next p n ;;
    n ← next_of block;
    p ← rd_prev block;
    wr_prev n p ;;
    wr_prev block None ;;
    wr_next block None ;;
    modify (add_num (-1)).

Definition append (block : loc) : M qstate unit :=
  s ← get;
  let q := q_self s in
  last_block ← rd_prev (fake_free_list_tail q);
  match last_block with
  | None => raise RuntimeError
  | Some last_block =>
      wr_next last_block (Some block) ;;
      wr_prev block (Some last_block) ;;
      wr_next block (Some (fake_free_list_tail q)) ;;
      wr_prev (fake_free_list_tail q) (Some block) ;;
      modify (add_num 1)
  end.

(** The body of the loops of [prepend_n] and [append_n]: links [block] after
    [prev_block], which becomes [block]. *)
Definition link_after (prev_block block : loc) : M qstate loc :=
  wr_prev block (Some prev_block) ;;
  wr_next prev_block (Some block) ;;
  mret block.

Definition prepend_n (blocks : list loc) : M qstate unit :=
  match blocks with
  | [] => mret tt
  | _ =>
      s ← get;
      let q := q_self s in
      first ← rd_next (fake_free_list_head q);
      first_block ← of_option AssertionError first;
      prev_block ←
        foldM link_after blocks (fake_free_list_head q);
      wr_next prev_block (Some first_block) ;;
      wr_prev first_block (Some prev_block) ;;
      modify (add_num (zlen blocks))
  end.

Definition append_n (blocks : list loc) : M qstate unit :=
  match blocks with
  | [] => mret tt
  | _ =>
      s ← get;
      let q := q_self s in
      last_b ← rd_prev (fake_free_list_tail q);
      last_block ← of_option AssertionError last_b;
      last_block ←
        foldM link_after blocks last_block;
      wr_next last_block (Some (fake_free_list_tail q)) ;;
      wr_prev (fake_free_list_tail q) (Some last_block) ;;
      modify (add_num (zlen blocks))
  end.

(** The [while curr_block.next_free_block is not None] loop. *)
Fixpoint collect_loop (fuel : nat) (curr_block : loc) (ret : list loc)
    : M qstate (list loc) :=
  match fuel with
  | O => raise OutOfFuel
  | S fuel' =>
      nxt ← rd_next curr_block;
      match nxt with
      | None => mret ret
      | Some n => collect_loop fuel' n (ret ++ [curr_block])
      end
  end.

Definition get_all_free_blocks (fuel : nat) : M qstate (list loc) :=
  s ← get;
  first ← rd_next (fake_free_list_head (q_self s));
  match first with
  | None => raise RuntimeError
  | Some curr_block => collect_loop fuel curr_block []
  end.

End FreeQueue.

(** ** Heap lemmas *)

Lemma deref_update_eq l f h : deref (update l f h) l = f (deref h l).
Proof. unfold deref, update. simpl. by rewrite lookup_total_insert_eq. Qed.

Lemma deref_update_ne l l' f h : l ≠ l' → deref (update l f h) l' = deref h l'.
Proof. intros. unfold deref, update. simpl. by rewrite lookup_total_insert_ne. Qed.

Lemma deref_update l l' f h :
  deref (update l f h) l' = if decide (l = l') then f (deref h l') else deref h l'.
Proof. case_decide; subst; [apply deref_update_eq|by apply deref_update_ne]. Qed.

Lemma update_comm l l' f g h :
  l ≠ l' → update l f (update l' g h) = update l' g (update l f h).
Proof.
  intros Hne. unfold update, deref. simpl. f_equal.
  rewrite insert_insert_ne by done.
  by rewrite !lookup_total_insert_ne by congruence.
Qed.

(** Everything of a block but its links. *)
Definition meta (b : KVCacheBlock) : Z * Z * option bytes * bool :=
  (block_id b, ref_cnt b, _block_hash b, is_null b).

Definition links (b : KVCacheBlock) : option loc * option loc :=
  (prev_free_block b, next_free_block b).

Definition same_meta (h h' : heap) : Prop :=
  next_loc h' = next_loc h ∧ ∀ l, meta (deref h' l) = meta (deref h l).

(** [h'] differs from [h] on the blocks of [D] only. *)
Definition frame (D : list loc) (h h' : heap) : Prop :=
  ∀ l, l ∉ D → deref h' l = deref h l.

#[export] Instance same_meta_preorder : PreOrder same_meta.
Proof.
  split; [done|]. intros h1 h2 h3 [? H1] [? H2].
  split; [congruence|]. intros l. by rewrite H2.
Qed.

Lemma same_meta_prev l v h : same_meta h (update l (set_prev v) h).
Proof. split; [done|]. intros l'. rewrite deref_update. by case_decide. Qed.

Lemma same_meta_next l v h : same_meta h (update l (set_next v) h).
Proof. split; [done|]. intros l'. rewrite deref_update. by case_decide. Qed.

Lemma frame_refl D h : frame D h h.
Proof. done. Qed.

Lemma frame_trans D h1 h2 h3 : frame D h1 h2 → frame D h2 h3 → frame D h1 h3.
Proof. intros H1 H2 l Hl. by rewrite H2, H1. Qed.

Lemma frame_mono D D' h h' : frame D h h' → D ⊆ D' → frame D' h h'.
Proof. intros Hf Hs l Hl. apply Hf. set_solver. Qed.

Lemma frame_update D l f h h' : frame D h h' → l ∈ D → frame D h (update l f h').
Proof. intros Hf Hl x Hx. rewrite deref_update_ne; [by apply Hf|set_solver]. Qed.

#[export] Hint Resolve same_meta_prev same_meta_next frame_refl frame_update : vllm.

(** Solves [same_meta h (update ... h)] for any nesting of link writes. *)
Ltac solve_meta :=
  repeat first
    [ eassumption | reflexivity
    | (etransitivity; [|apply same_meta_prev])
    | (etransitivity; [|apply same_meta_next]) ].

(** Solves [frame D h (update ... h)] for any nesting of writes. *)
Ltac solve_frame :=
  first [ eassumption | apply frame_refl
        | apply frame_update; [solve_frame|set_solver] ].

(** Reads a field of a block through link writes. *)
Ltac heap_simpl :=
  repeat first
    [ rewrite deref_update_eq; simpl
    | rewrite deref_update_ne by (first [done | congruence | set_solver]); simpl ].

(** ** Chains of links *)

Fixpoint linked (h : heap) (x : loc) (xs : list loc) : Prop :=
  match xs with
  | [] => True
  | y :: ys =>
      next_free_block (deref h x) = Some y ∧
      prev_free_block (deref h y) = Some x ∧ linked h y ys
  end.

Lemma linked_app h x xs y ys :
  linked h x (xs ++ y :: ys) ↔ linked h x (xs ++ [y]) ∧ linked h y ys.
Proof. revert x. induction xs as [|z xs IH]; intros x; simpl; [tauto|]. rewrite IH. tauto. Qed.

Lemma linked_snoc h x xs y :
  linked h x (xs ++ [y]) ↔
  linked h x xs ∧ next_free_block (deref h (default x (last xs))) = Some y ∧
  prev_free_block (deref h y) = Some (default x (last xs)).
Proof.
  revert x. induction xs as [|z xs IH]; intros x; simpl; [tauto|].
  rewrite IH. destruct xs as [|w xs]; simpl; [tauto|].
  destruct (last (w :: xs)) eqn:E; [simpl; tauto|].
  by apply last_None in E.
Qed.

(** A chain only depends on the successor links of all blocks but the last and
    on the predecessor links of all blocks but the first. *)
Lemma linked_ext h h' x xs :
  (∀ z, z ∈ xs → prev_free_block (deref h' z) = prev_free_block (deref h z)) →
  (∀ z, z ∈ x :: xs → Some z ≠ last (x :: xs) →
        next_free_block (deref h' z) = next_free_block (deref h z)) →
  NoDup (x :: xs) → linked h x xs → linked h' x xs.
Proof.
  revert x. induction xs as [|y ys IH]; intros x Hp Hn Hnd; [done|].
  apply NoDup_cons in Hnd as [Hx Hnd].
  intros (H1 & H2 & H3). split; [|split].
  - rewrite Hn; [done|set_solver|]. intros Heq. apply Hx.
    change (last (x :: y :: ys)) with (last (y :: ys)) in Heq.
    by apply last_Some_elem_of.
  - rewrite Hp; [done|set_solver].
  - apply IH; [set_solver| |done|done].
    intros z Hz Hl. apply Hn; [set_solver|]. by destruct ys.
Qed.

Lemma linked_frame D h h' x xs :
  frame D h h' → (∀ z, z ∈ x :: xs → z ∉ D) → linked h x xs → linked h' x xs.
Proof.
  revert x. induction xs as [|y ys IH]; intros x Hf HD; [done|].
  intros (H1 & H2 & H3). simpl. rewrite !Hf by (apply HD; set_solver).
  split; [done|]. split; [done|]. apply IH; [done|set_solver|done].
Qed.

(** Putting [x] in front of a chain. *)
Lemma linked_cons_front h x c rest :
  NoDup (x :: c :: rest) → linked h c rest →
  linked (update c (set_prev (Some x)) (update x (set_next (Some c)) h)) x (c :: rest).
Proof.
  intros Hnd Hl.
  apply NoDup_cons in Hnd as [Hx Hnd]. pose proof Hnd as Hnd'.
  apply NoDup_cons in Hnd as [Hc _].
  split; [|split].
  - by heap_simpl.
  - by heap_simpl.
  - eapply linked_ext; [| |done|exact Hl].
    + intros z Hz. by heap_simpl.
    + intros z Hz _. rewrite deref_update. case_decide; subst; simpl; by heap_simpl.
Qed.

(** Joining a chain and a chain that follows it. *)
Lemma linked_join h x l0 c rest :
  NoDup (x :: l0 ++ c :: rest) → linked h x l0 → linked h c rest →
  let b := default x (last l0) in
  linked (update c (set_prev (Some b)) (update b (set_next (Some c)) h)) x (l0 ++ c :: rest).
Proof.
  intros Hnd H1 H2 b.
  assert (Hb : b ∈ x :: l0).
  { apply default_last_elem. }
  change (x :: l0 ++ c :: rest) with ((x :: l0) ++ c :: rest) in Hnd.
  apply NoDup_app in Hnd as (Hnd1 & Hdisj & Hnd2).
  assert (b ≠ c) by (intros <-; apply (Hdisj b Hb); set_solver).
  apply linked_app. rewrite linked_snoc.
  split; [split; [|split]|].
  - eapply linked_ext; [| |done|exact H1].
    + intros z Hz. rewrite deref_update_ne by (intros <-; apply (Hdisj c); set_solver).
      rewrite deref_update. by case_decide; subst.
    + intros z Hz Hlast. rewrite deref_update_ne by (intros <-; apply (Hdisj c); set_solver).
      rewrite deref_update_ne; [done|]. intros <-. apply Hlast.
      unfold b. by destruct l0 as [|? ?] using rev_ind; [|rewrite !last_snoc, app_comm_cons, last_snoc].
  - fold b. by heap_simpl.
  - fold b. by heap_simpl.
  - assert (b ∉ c :: rest) by (by apply Hdisj).
    eapply linked_ext; [| |done|exact H2].
    + intros z Hz. apply NoDup_cons in Hnd2 as [? _]. heap_simpl. done.
    + intros z Hz _. rewrite deref_update. case_decide; subst; simpl; by heap_simpl.
Qed.

(** ** The abstraction relation *)

Definition queue_repr (h : heap) (q : FreeKVCacheBlockQueue) (l : list loc) : Prop :=
  num_free_blocks q = zlen l ∧
  NoDup (fake_free_list_head q :: l ++ [fake_free_list_tail q]) ∧
  linked h (fake_free_list_head q) (l ++ [fake_free_list_tail q]) ∧
  next_free_block (deref h (fake_free_list_tail q)) = None.

Definition unlinked (h : heap) (l : loc) : Prop := links (deref h l) = (None, None).

(** The effect of a queue operation: the queue now represents [l'], block
    metadata is unchanged and only the links of the fake ends and of the blocks
    in [D] may have changed. *)
Definition queue_step (h : heap) (q : FreeKVCacheBlockQueue) (D l' : list loc)
    (s' : qstate) : Prop :=
  queue_repr (q_heap s') (q_self s') l' ∧
  fake_free_list_head (q_self s') = fake_free_list_head q ∧
  fake_free_list_tail (q_self s') = fake_free_list_tail q ∧
  same_meta h (q_heap s') ∧
  frame (fake_free_list_head q :: fake_free_list_tail q :: D) h (q_heap s').

Lemma queue_repr_frame D h h' q l :
  frame D h h' →
  (∀ z, z ∈ fake_free_list_head q :: l ++ [fake_free_list_tail q] → z ∉ D) →
  queue_repr h q l → queue_repr h' q l.
Proof.
  intros Hf HD (Hn & Hnd & Hl & Ht).
  split; [done|]. split; [done|]. split; [by eapply linked_frame|].
  rewrite Hf; [done|]. apply HD. set_solver.
Qed.

(** ** The operations implement the list operations *)

Section specs.
Context (h : heap) (q : FreeKVCacheBlockQueue) (l : list loc).
Context (Hq : queue_repr h q l).

Abbreviation hd := (fake_free_list_head q).
Abbreviation tl := (fake_free_list_tail q).

Lemma queue_nodup : NoDup l.
Proof.
  destruct Hq as (_ & Hnd & _). apply NoDup_cons in Hnd as [_ Hnd].
  by apply NoDup_app in Hnd as [? _].
Qed.

Lemma queue_ends_fresh b : b ∈ l → b ≠ hd ∧ b ≠ tl.
Proof.
  destruct Hq as (_ & Hnd & _). intros Hb.
  apply NoDup_cons in Hnd as [H1 Hnd]. apply NoDup_app in Hnd as (_ & H2 & _).
  split; [intros ->; set_solver|]. intros ->. apply (H2 tl); set_solver.
Qed.

(** A free block has both its links set. *)
Lemma queue_member_links b :
  b ∈ l → prev_free_block (deref h b) ≠ None ∧ next_free_block (deref h b) ≠ None.
Proof.
  destruct Hq as (_ & _ & Hl & _). intros (l1 & l2 & ->)%list_elem_of_split.
  rewrite <-app_assoc in Hl. simpl in Hl.
  apply linked_app in Hl as [H1 H2]. apply linked_snoc in H1 as (_ & _ & H1).
  rewrite H1. split; [done|].
  destruct (l2 ++ [tl]) as [|n rest] eqn:E; [by destruct l2|].
  destruct H2 as (H2 & _). by rewrite H2.
Qed.
End specs.

