(* ===== verification/FreeQueueSpec.v ===== *)
(** * The free-block queue implements a list

    The specifications of the operations of [FreeQueue] against the abstraction
    relation [queue_repr]. *)

From S2P Require Import Prelude.
From S2P Require Import FreeQueue.

Module FreeQueueSpec.
Import FreeQueue.

Ltac q_step :=
  lazymatch goal with
  | |- wp (rd_next _) _ _ => apply wp_gets
  | |- wp (rd_prev _) _ _ => apply wp_gets
  | |- wp (wr_next _ _) _ _ => apply wp_modify
  | |- wp (wr_prev _ _) _ _ => apply wp_modify
  | |- _ => wp_step
  end.
Ltac q_steps :=
  repeat (q_step; cbn beta); unfold on_heap, add_num; cbn [q_heap q_self].

Lemma pop_loop_spec n c rest ret s :
  linked (q_heap s) c rest → NoDup (c :: rest) → n < length (c :: rest) →
  wp (pop_loop n (Some c) ret) s (λ r s',
    r = (head (drop n (c :: rest)), ret ++ take n (c :: rest)) ∧
    q_self s' = q_self s ∧
    same_meta (q_heap s) (q_heap s') ∧
    frame (take n (c :: rest)) (q_heap s) (q_heap s') ∧
    ∀ b, b ∈ take n (c :: rest) → unlinked (q_heap s') b).
Proof.
  revert c rest ret s. induction n as [|n IH]; intros c rest ret s Hl Hnd Hn.
  { simpl. apply wp_ret. rewrite app_nil_r. repeat split; try done. set_solver. }
  destruct rest as [|d rest]; [simpl in Hn; lia|].
  destruct Hl as (Hc & _ & Hl).
  pose proof (proj1 (NoDup_cons _ _) Hnd) as [Hcr Hnd'].
  cbn [pop_loop]. wp_step. apply (wp_of_option _ _ c); [done|].
  q_steps. rewrite Hc.
  set (h1 := update c (set_next None) (update c (set_prev None) (q_heap s))).
  assert (Hf1 : frame [c] (q_heap s) h1) by (unfold h1; solve_frame).
  assert (Hl1 : linked h1 d rest) by (eapply (linked_frame [c]); [done|set_solver|done]).
  eapply wp_mono; [apply (IH d rest (ret ++ [c]) (QState h1 (q_self s)) Hl1 Hnd'); simpl in *; lia|].
  intros r s' (-> & Hs & Hm & Hf & Hu). simpl in *.
  split; [by rewrite <-app_assoc|]. split; [done|].
  split; [etransitivity; [|exact Hm]; unfold h1; solve_meta|].
  split.
  { intros x Hx. rewrite Hf by set_solver. apply Hf1. set_solver. }
  intros b [->|Hb]%elem_of_cons; [|by apply Hu].
  unfold unlinked. rewrite Hf.
  - unfold h1. by heap_simpl.
  - intros Hin%elem_of_take. destruct Hin as (i & Hi & _).
    apply list_elem_of_lookup_2 in Hi. done.
Qed.

Lemma link_loop_spec x l0 blocks s :
  linked (q_heap s) x l0 → NoDup (x :: l0 ++ blocks) →
  wp (foldM link_after blocks (default x (last l0))) s (λ b s',
    b = default x (last (l0 ++ blocks)) ∧
    linked (q_heap s') x (l0 ++ blocks) ∧
    q_self s' = q_self s ∧
    same_meta (q_heap s) (q_heap s') ∧
    frame (default x (last l0) :: blocks) (q_heap s) (q_heap s')).
Proof.
  revert l0 s. induction blocks as [|c blocks IH]; intros l0 s Hl Hnd; simpl.
  { apply wp_ret. rewrite app_nil_r. by repeat split. }
  set (b := default x (last l0)).
  q_step. unfold link_after at 1. q_steps.
  assert (Hnd' : NoDup (x :: (l0 ++ [c]) ++ blocks)) by by rewrite <-app_assoc.
  assert (Hbc : b ≠ c).
  { intros Heq. assert (b ∈ x :: l0) as Hb by apply default_last_elem.
    change (x :: l0 ++ c :: blocks) with ((x :: l0) ++ c :: blocks) in Hnd.
    apply NoDup_app in Hnd as (_ & Hd & _). apply (Hd b Hb). set_solver. }
  set (h1 := update b (set_next (Some c)) (update c (set_prev (Some b)) (q_heap s))).
  assert (Hl1 : linked h1 x (l0 ++ [c])).
  { assert (h1 = update c (set_prev (Some b)) (update b (set_next (Some c)) (q_heap s))) as ->.
    { by apply update_comm. }
    apply (linked_join _ x l0 c []); [|done|done].
    rewrite app_comm_cons in Hnd'. by apply NoDup_app in Hnd' as [? _]. }
  eapply wp_mono.
  { assert (Hlast : default x (last (l0 ++ [c])) = c) by by rewrite last_snoc.
    rewrite <-Hlast at 1.
    apply (IH (l0 ++ [c]) (QState h1 (q_self s))); done. }
  intros b' s' (-> & Hl' & Hs & Hm & Hf). simpl in *.
  rewrite last_snoc in Hf. rewrite <-app_assoc in Hl' |- *. simpl in *.
  split; [done|]. split; [done|]. split; [done|].
  split; [etransitivity; [|exact Hm]; unfold h1; solve_meta|].
  intros z Hz. rewrite Hf by set_solver. unfold h1. heap_simpl. done.
Qed.

Section ops.
Context (h : heap) (q : FreeKVCacheBlockQueue) (l : list loc).
Context (Hq : queue_repr h q l).
Abbreviation hd := (fake_free_list_head q).
Abbreviation tl := (fake_free_list_tail q).

(** The first element of the chain after the fake head. *)
Lemma head_next : next_free_block (deref h hd) = head (l ++ [tl]).
Proof. destruct Hq as (_ & _ & Hl & _). destruct l; by destruct Hl as (? & _). Qed.

Lemma tail_prev : prev_free_block (deref h tl) = Some (default hd (last l)).
Proof. destruct Hq as (_ & _ & Hl & _). by apply linked_snoc in Hl as (_ & _ & ?). Qed.

Lemma popleft_empty : l = [] → raises popleft (QState h q) ValueError (λ s', s' = QState h q).
Proof.
  intros ->. destruct Hq as (Hn & _ & Hl & _).
  unfold raises, popleft, rd_next, gets, get, mbind, M_bind. simpl.
  destruct Hl as (-> & _). rewrite bool_decide_true by auto.
  rewrite Hn. done.
Qed.

(** Re-linking the fake head to the suffix [l'] of the chain. *)
Lemma requeue_suffix h' n l' :
  (num_free_blocks q + n)%Z = zlen l' →
  (∃ l0, l = l0 ++ l') →
  frame (hd :: l) h h' → same_meta h h' →
  (∀ b, b ∈ l' → deref h' b = deref h b) →
  ∀ c rest, l' ++ [tl] = c :: rest →
  queue_step h q l l'
    (QState (update c (set_prev (Some hd)) (update hd (set_next (Some c)) h'))
       (mkQueue (num_free_blocks q + n) hd tl)).
Proof.
  intros Hnum [l0 ->] Hf Hm Hsame c rest Hc.
  destruct Hq as (_ & Hnd & Hl & Htl). simpl.
  rewrite <-app_assoc, Hc in Hl, Hnd.
  assert (Hnd1 : NoDup (hd :: c :: rest)).
  { apply NoDup_cons in Hnd as [? Hnd]. apply NoDup_app in Hnd as (_ & _ & ?).
    apply NoDup_cons. split; [set_solver|done]. }
  assert (Htc : tl ∈ c :: rest) by (rewrite <-Hc; set_solver).
  assert (Htn : tl ∉ hd :: l0 ++ l').
  { intros [Heq|Hin]%elem_of_cons.
    - apply NoDup_cons in Hnd1 as [? _]. congruence.
    - apply NoDup_cons in Hnd as [_ Hnd]. rewrite <-Hc, app_assoc in Hnd.
      apply NoDup_app in Hnd as (_ & Hd & _). apply (Hd tl); set_solver. }
  assert (Hl' : linked h' c rest).
  { apply linked_app in Hl as [_ Hl].
    assert (Heq : ∀ z, z ∈ c :: rest → deref h' z = deref h z).
    { intros z Hz. rewrite <-Hc in Hz. apply elem_of_app in Hz as [Hz|Hz]; [by apply Hsame|].
      apply list_elem_of_singleton in Hz as ->. by apply Hf. }
    eapply linked_ext; [| |by apply NoDup_cons in Hnd1 as [_ ?]|exact Hl].
    - intros z Hz. rewrite Heq; [done|set_solver].
    - intros z Hz _. by rewrite Heq. }
  assert (Hhd : hd ≠ tl) by set_solver.
  split; [|split; [done|split; [done|split]]].
  - split; [done|]. simpl. rewrite Hc. split; [done|].
    split; [by apply linked_cons_front|].
    rewrite deref_update. assert (next_free_block (deref h' tl) = None) by by rewrite Hf.
    case_decide; simpl; by heap_simpl.
  - simpl. etransitivity; [exact Hm|]. solve_meta.
  - intros z Hz. simpl. assert (c ∈ tl :: l0 ++ l') as Hc'.
    { assert (c ∈ l' ++ [tl]) by (rewrite Hc; set_solver). set_solver. }
    rewrite !deref_update_ne by set_solver. apply Hf. set_solver.
Qed.

Lemma popleft_n_spec n :
  (0 ≤ n ≤ zlen l)%Z →
  wp (popleft_n n) (QState h q) (λ ret s',
    ret = take (Z.to_nat n) l ∧
    queue_step h q l (drop (Z.to_nat n) l) s' ∧
    ∀ b, b ∈ ret → unlinked (q_heap s') b).
Proof.
  intros Hn. unfold popleft_n. case_match eqn:Hn0.
  { apply Z.eqb_eq in Hn0 as ->. apply wp_ret. rewrite drop_0.
    split; [done|]. split; [|set_solver]. by repeat split; try apply Hq. }
  apply Z.eqb_neq in Hn0. pose proof Hq as (Hnum & Hnd & Hl & Htl).
  q_steps. apply wp_assert; [apply Z.leb_le; lia|]. q_steps.
  rewrite head_next.
  destruct (l ++ [tl]) as [|c rest] eqn:Ec; [by destruct l|]. simpl head.
  apply NoDup_cons in Hnd as [Hhd Hnd].
  assert (Hlen : length (c :: rest) = S (length l)) by (rewrite <-Ec, length_app; simpl; lia).
  assert (Hchain : linked h c rest) by by destruct Hl as (_ & _ & ?).
  eapply wp_mono.
  { apply pop_loop_spec; [exact Hchain|exact Hnd|]. unfold zlen in Hn. lia. }
  intros r s' (-> & Hs & Hm & Hf & Hu). cbn [q_heap q_self] in *.
  assert (Hlt : Z.to_nat n ≤ length l) by (unfold zlen in Hn; lia).
  assert (Htk : take (Z.to_nat n) (c :: rest) = take (Z.to_nat n) l)
    by (rewrite <-Ec, take_app_le by lia; done).
  assert (Hdr : drop (Z.to_nat n) (c :: rest) = drop (Z.to_nat n) l ++ [tl])
    by (rewrite <-Ec, drop_app_le by lia; done).
  rewrite Htk in *. rewrite Hdr in *.
  destruct (drop (Z.to_nat n) l ++ [tl]) as [|d drest] eqn:Ed; [by destruct (drop _ l)|].
  simpl head. q_steps. split; [done|].
  assert (Hndl : NoDup l) by (eapply queue_nodup; exact Hq).
  assert (Htl_l : ∀ b, b ∈ take (Z.to_nat n) l → b ∈ l)
    by (intros b [i [Hi _]]%elem_of_take; by eapply list_elem_of_lookup_2).
  assert (Hdisj : ∀ b, b ∈ take (Z.to_nat n) l → b ∉ drop (Z.to_nat n) l).
  { rewrite <-(take_drop (Z.to_nat n) l) in Hndl. by apply NoDup_app in Hndl as (_ & ? & _). }
  destruct s' as [h' q']. simpl in *. subst q'. split.
  - eapply requeue_suffix; [| | | | |exact Ed].
    + rewrite Hnum. unfold zlen. rewrite length_drop. unfold zlen in Hn. lia.
    + exists (take (Z.to_nat n) l). by rewrite take_drop.
    + eapply frame_mono; [done|]. set_solver.
    + done.
    + intros b Hb. apply Hf. intros Hb'. by apply (Hdisj b).
  - intros b Hb. assert (b ≠ d).
    { intros ->. assert (d ∈ drop (Z.to_nat n) l ++ [tl]) as Hd by (rewrite Ed; set_solver).
      apply elem_of_app in Hd as [Hd|Hd]; [by apply (Hdisj d)|].
      apply list_elem_of_singleton in Hd. eapply queue_ends_fresh in Hq as [_ ?]; eauto. }
    assert (b ≠ hd) by (eapply queue_ends_fresh in Hq as [? _]; eauto).
    unfold unlinked. heap_simpl. by apply Hu.
Qed.

Lemma popleft_spec b l' :
  l = b :: l' →
  wp popleft (QState h q) (λ r s',
    r = b ∧ queue_step h q l l' s' ∧ unlinked (q_heap s') b).
Proof.
  intros El. pose proof Hq as (Hnum & Hnd & Hl & Htl).
  destruct (queue_ends_fresh h q l Hq b) as [Hbh Hbt]; [set_solver|].
  unfold popleft. q_steps.
  assert (Hhn := head_next). rewrite El in Hhn, Hl, Hnd. simpl in Hhn. rewrite Hhn.
  rewrite bool_decide_false by (intros [?|?]; congruence).
  q_steps. apply (wp_of_option _ _ b); [done|]. q_steps.
  destruct (l' ++ [tl]) as [|n rest] eqn:En; [by destruct l'|].
  simpl in Hl, Hnd. rewrite En in Hl, Hnd. destruct Hl as (_ & _ & Hbn & Hnb & Hrest).
  rewrite Hbn. rewrite bool_decide_false by done.
  q_steps. unfold next_of. q_steps. heap_simpl. rewrite Hbn.
  eapply wp_of_option; [done|]. q_steps.
  assert (Hbnn : b ≠ n).
  { intros ->. apply NoDup_cons in Hnd as [_ Hnd]. apply NoDup_cons in Hnd as [? _]. set_solver. }
  split; [done|]. split.
  - set (h' := update b (set_next None) (update b (set_prev None) h)).
    assert (Hh : update b (set_next None) (update b (set_prev None)
        (update n (set_prev (Some hd)) (update hd (set_next (Some n)) h)))
      = update n (set_prev (Some hd)) (update hd (set_next (Some n)) h')).
    { unfold h'. rewrite (update_comm b n), (update_comm b hd) by done.
      by rewrite (update_comm b n), (update_comm b hd) by done. }
    rewrite Hh. eapply requeue_suffix; [| | | | |exact En].
    + rewrite Hnum, El, zlen_cons. lia.
    + by exists [b].
    + unfold h'. rewrite El. solve_frame.
    + unfold h'. solve_meta.
    + intros x Hx. unfold h'. assert (b ≠ x); [|by heap_simpl].
      intros ->. assert (x ∈ n :: rest) by (rewrite <-En; set_solver).
      apply NoDup_cons in Hnd as [_ Hnd]. by apply NoDup_cons in Hnd as [? _].
  - unfold unlinked. by heap_simpl.
Qed.

Lemma remove_spec l1 b l2 :
  l = l1 ++ b :: l2 →
  wp (remove b) (QState h q) (λ _ s',
    queue_step h q l (l1 ++ l2) s' ∧ unlinked (q_heap s') b).
Proof.
  intros El. pose proof Hq as (Hnum & Hnd & Hl & Htl).
  destruct (queue_ends_fresh h q l Hq b) as [Hbh Hbt]; [set_solver|].
  assert (Hhdtl : hd ≠ tl) by (apply NoDup_cons in Hnd as [? _]; set_solver).
  rewrite El, <-app_assoc in Hl, Hnd. simpl in Hl, Hnd.
  apply linked_app in Hl as [Hl1 Hl2]. apply linked_snoc in Hl1 as (Hl1 & Hpn & Hbp).
  set (p := default hd (last l1)) in *.
  destruct (l2 ++ [tl]) as [|n rest] eqn:En; [by destruct l2|].
  destruct Hl2 as (Hbn & Hnb & Hrest).
  assert (Hp : p ∈ hd :: l1).
  { apply default_last_elem. }
  rewrite app_comm_cons in Hnd. apply NoDup_app in Hnd as (Hnd1 & Hd & Hnd2).
  apply NoDup_cons in Hnd2 as [Hbnr Hnd2].
  assert (Hpb : p ≠ b) by (intros Heq; apply (Hd p Hp); set_solver).
  assert (Hbn' : b ≠ n) by set_solver.
  assert (Hpn' : p ≠ n) by (intros Heq; apply (Hd p Hp); set_solver).
  unfold remove. q_steps. rewrite Hbp, Hbn.
  rewrite bool_decide_false by (intros [?|?]; done).
  unfold prev_of, next_of. q_steps. rewrite Hbp. eapply wp_of_option; [done|]. q_steps.
  heap_simpl. rewrite Hbn. eapply wp_of_option; [done|]. q_steps. heap_simpl. rewrite Hbp.
  set (h1 := update n (set_prev (Some p)) (update p (set_next (Some n)) h)).
  set (h2 := update b (set_next None) (update b (set_prev None) h1)).
  assert (Hnd3 : NoDup ((hd :: l1) ++ n :: rest)).
  { apply NoDup_app. split; [done|]. split; [|done]. intros x Hx Hx'. apply (Hd x Hx). set_solver. }
  assert (Hlk : linked h1 hd (l1 ++ n :: rest)) by (by apply linked_join).
  split; [|unfold unlinked, h2; by heap_simpl].
  split; [|split; [done|split; [done|split]]]; cbn [q_heap q_self fake_free_list_head fake_free_list_tail].
  - split; [|split; [|split]]; simpl; rewrite <-?app_assoc, ?En.
    + rewrite Hnum, El, !zlen_app, zlen_cons. lia.
    + done.
    + eapply (linked_frame [b]); [|  |exact Hlk].
      * unfold h2. solve_frame.
      * intros z Hz Hzb%list_elem_of_singleton. subst z.
        rewrite app_comm_cons in Hz. apply elem_of_app in Hz as [Hz|Hz]; [|done].
        apply (Hd b Hz). set_solver.
    + unfold h2. heap_simpl. unfold h1. rewrite !deref_update.
      repeat case_decide; subst; simpl; try done.
      exfalso. assert (tl ∈ n :: rest) as Ht by (rewrite <-En; set_solver).
      apply (Hd tl); [congruence|]. set_solver.
  - unfold h2, h1. solve_meta.
  - unfold h2, h1. assert (n ∈ tl :: l) as Hn.
    { assert (n ∈ l2 ++ [tl]) by (rewrite En; set_solver). set_solver. }
    solve_frame.
Qed.

(** [remove] of a block that is in no free list raises and changes nothing. *)
Lemma remove_not_free b :
  unlinked h b → raises (remove b) (QState h q) RuntimeError (λ s', s' = QState h q).
Proof.
  unfold unlinked, links. intros [= H1 H2].
  unfold raises, remove, rd_prev, rd_next, gets, mbind, M_bind. simpl.
  rewrite H1. by rewrite bool_decide_true by auto.
Qed.

Lemma append_n_spec bs :
  NoDup bs → (∀ b, b ∈ bs → (b ∉ l) ∧ b ≠ hd ∧ b ≠ tl) →
  wp (append_n bs) (QState h q) (λ _ s', queue_step h q (l ++ bs) (l ++ bs) s').
Proof.
  intros Hbs Hfresh. pose proof Hq as (Hnum & Hnd & Hl & Htl).
  unfold append_n. destruct bs as [|b0 bs0] eqn:Ebs.
  { apply wp_ret. rewrite app_nil_r. by repeat split; try apply Hq. }
  rewrite <-Ebs in *. clear Ebs b0 bs0.
  apply linked_snoc in Hl as (Hl & Hln & Htp).
  assert (Hhd : hd ≠ tl) by (apply NoDup_cons in Hnd as [? _]; set_solver).
  rewrite app_comm_cons in Hnd. apply NoDup_app in Hnd as (Hnd1 & Hd & _).
  assert (Hnd' : NoDup (hd :: l ++ bs)).
  { rewrite app_comm_cons. apply NoDup_app. split; [done|]. split; [|done].
    intros x Hx Hxb. destruct (Hfresh x Hxb) as (? & ? & ?). set_solver. }
  q_steps. rewrite tail_prev. eapply wp_of_option; [done|]. q_steps.
  eapply wp_mono; [by apply link_loop_spec|].
  intros b s' (-> & Hl' & Hs & Hm & Hf). destruct s' as [h' q']. simpl in *. subst q'.
  q_steps.
  assert (Hlst := default_last_elem hd l).
  assert (Hlst' := default_last_elem hd (l ++ bs)).
  assert (Htn : tl ∉ hd :: l ++ bs).
  { intros Hin. rewrite app_comm_cons in Hin. apply elem_of_app in Hin as [Hin|Hin].
    - apply (Hd tl Hin). set_solver.
    - destruct (Hfresh tl Hin) as (? & ? & ?). done. }
  assert (Hnd'' : NoDup (hd :: (l ++ bs) ++ [tl])).
  { rewrite app_comm_cons. apply NoDup_app. split; [done|]. split; [set_solver|]. apply NoDup_singleton. }
  assert (Htl' : next_free_block (deref h' tl) = None) by (rewrite Hf; [done|set_solver]).
  split; [|split; [done|split; [done|split]]]; cbn [q_heap q_self fake_free_list_head fake_free_list_tail].
  - split; [|split; [|split]]; simpl.
    + by rewrite Hnum, zlen_app.
    + done.
    + by apply (linked_join h' hd (l ++ bs) tl []).
    + rewrite deref_update_eq. simpl. by heap_simpl.
  - etransitivity; [exact Hm|]. solve_meta.
  - eapply frame_mono in Hf; [solve_frame|]. set_solver.
Qed.

Lemma prepend_n_spec bs :
  NoDup bs → (∀ b, b ∈ bs → (b ∉ l) ∧ b ≠ hd ∧ b ≠ tl) →
  wp (prepend_n bs) (QState h q) (λ _ s', queue_step h q (l ++ bs) (bs ++ l) s').
Proof.
  intros Hbs Hfresh. pose proof Hq as (Hnum & Hnd & Hl & Htl).
  unfold prepend_n. destruct bs as [|b0 bs0] eqn:Ebs.
  { apply wp_ret. rewrite app_nil_r. by repeat split; try apply Hq. }
  rewrite <-Ebs in *. clear Ebs b0 bs0.
  q_steps. rewrite head_next.
  destruct (l ++ [tl]) as [|c rest] eqn:Ec; [by destruct l|]. simpl head.
  eapply wp_of_option; [done|]. q_steps.
  assert (Hcr : ∀ x, x ∈ c :: rest ↔ x ∈ l ∨ x = tl) by (intros x; rewrite <-Ec; set_solver).
  apply NoDup_cons in Hnd as [Hhd Hnd].
  assert (Hnd' : NoDup (hd :: bs ++ c :: rest)).
  { apply NoDup_cons. split.
    - intros [Hin|Hin]%elem_of_app; [|done]. by destruct (Hfresh hd Hin) as (? & ? & ?).
    - apply NoDup_app. split; [done|]. split; [|done].
      intros x Hx [?| ->]%Hcr; destruct (Hfresh _ Hx) as (? & ? & ?); done. }
  eapply wp_mono.
  { apply (link_loop_spec hd [] bs (QState h q)); [done|].
    rewrite app_comm_cons in Hnd'. by apply NoDup_app in Hnd' as [? _]. }
  intros b s' (-> & Hl' & Hs & Hm & Hf). destruct s' as [h' q']. simpl in *. subst q'.
  q_steps.
  assert (Hlc : linked h' c rest).
  { eapply linked_frame; [exact Hf| |by destruct Hl as (_ & _ & ?)].
    intros z Hz [->|Hzb]%elem_of_cons; [done|].
    apply Hcr in Hz. destruct (Hfresh z Hzb) as (? & ? & ?). by destruct Hz. }
  set (b := default hd (last bs)).
  assert (Hb : b ∈ hd :: bs).
  { apply default_last_elem. }
  assert (Hbt : b ≠ tl).
  { intros Heq. rewrite Heq in Hb. apply elem_of_cons in Hb as [Hb|Hb].
    - apply Hhd. rewrite <-Hb. apply Hcr. by right.
    - by destruct (Hfresh tl Hb) as (? & ? & ?). }
  assert (Htl' : next_free_block (deref h' tl) = None).
  { rewrite Hf; [done|]. intros [Heq|Hin]%elem_of_cons.
    - apply Hhd. rewrite <-Heq. apply Hcr. by right.
    - by destruct (Hfresh tl Hin) as (? & ? & ?). }
  split; [|split; [done|split; [done|split]]]; cbn [q_heap q_self fake_free_list_head fake_free_list_tail].
  - split; [|split; [|split]]; cbn [num_free_blocks fake_free_list_head fake_free_list_tail]; rewrite <-?app_assoc, ?Ec.
    + rewrite Hnum, zlen_app. lia.
    + done.
    + by apply linked_join.
    + rewrite deref_update. case_decide; simpl; heap_simpl; done.
  - etransitivity; [exact Hm|]. solve_meta.
  - assert (c ∈ tl :: l) by (assert (c ∈ c :: rest) as Hc by set_solver; apply Hcr in Hc; set_solver).
    eapply frame_mono in Hf; [solve_frame|]. set_solver.
Qed.

Lemma get_all_free_blocks_spec fuel :
  length l < fuel →
  wp (get_all_free_blocks fuel) (QState h q) (λ r s', r = l ∧ s' = QState h q).
Proof.
  intros Hfuel. pose proof Hq as (Hnum & Hnd & Hl & Htl).
  unfold get_all_free_blocks. q_steps. rewrite head_next.
  destruct (l ++ [tl]) as [|c rest] eqn:Ec; [by destruct l|]. simpl head.
  destruct Hl as (_ & _ & Hl). revert Hl Ec Hfuel. clear Hnum Hnd. clear Hq.
  cut (∀ ret c rest fuel, linked h c rest → l ++ [tl] = c :: rest → length l < fuel →
         wp (collect_loop fuel c ret) (QState h q) (λ r s', r = ret ++ l ∧ s' = QState h q)).
  { intros Hc ???. by eapply (Hc []). }
  clear c rest fuel. induction l as [|x l' IH]; intros ret c rest [|fuel] Hl Ec Hf;
    try (simpl in *; lia); simpl in *; simplify_eq; q_steps.
  - rewrite Htl. apply wp_ret. by rewrite app_nil_r.
  - destruct (l' ++ [tl]) as [|d rest] eqn:Ed; [by destruct l'|].
    destruct Hl as (-> & _ & Hl). eapply wp_mono; [eapply IH; [exact Hl|done|lia]|].
    intros r s' [-> ->]. by rewrite <-app_assoc.
Qed.

Lemma append_spec b :
  b ∉ l → b ≠ hd → b ≠ tl →
  wp (append b) (QState h q) (λ _ s', queue_step h q (b :: l) (l ++ [b]) s').
Proof.
  intros Hbl Hbh Hbt. pose proof Hq as (Hnum & Hnd & Hl & Htl).
  unfold append. q_steps. rewrite tail_prev. q_steps.
  apply linked_snoc in Hl as (Hl & _ & _). set (x := default hd (last l)).
  assert (Hx : x ∈ hd :: l) by apply default_last_elem.
  assert (Hhd : hd ≠ tl) by (apply NoDup_cons in Hnd as [? _]; set_solver).
  rewrite app_comm_cons in Hnd. apply NoDup_app in Hnd as (Hnd1 & Hd & _).
  assert (Hxt : x ≠ tl) by (intros Heq; apply (Hd x Hx); set_solver).
  assert (Hxb : x ≠ b) by (intros Heq; set_solver).
  assert (Hnd2 : NoDup (hd :: l ++ [b])).
  { rewrite app_comm_cons. apply NoDup_app. split; [done|]. split; [set_solver|apply NoDup_singleton]. }
  assert (Hnd3 : NoDup (hd :: (l ++ [b]) ++ [tl])).
  { rewrite app_comm_cons. apply NoDup_app. split; [done|].
    split; [|apply NoDup_singleton]. intros y Hy ->%list_elem_of_singleton.
    rewrite app_comm_cons in Hy. apply elem_of_app in Hy as [Hy|Hy]; [|set_solver].
    apply (Hd tl Hy). set_solver. }
  assert (H1 := linked_join h hd l b [] Hnd2 Hl I). simpl in H1. fold x in H1.
  assert (H2 := linked_join _ hd (l ++ [b]) tl [] Hnd3 H1 I). rewrite last_snoc in H2. simpl in H2.
  split; [|split; [done|split; [done|split]]]; cbn [q_heap q_self fake_free_list_head fake_free_list_tail].
  - split; [|split; [done|split; [done|]]]; simpl.
    + rewrite Hnum, zlen_app. done.
    + rewrite deref_update_eq. simpl. by heap_simpl.
  - solve_meta.
  - solve_frame.
Qed.
End ops.

(** ** Construction *)

Lemma link_consecutive_spec blocks h :
  NoDup blocks →
  match blocks with [] => True | x :: rest => linked (link_consecutive blocks h) x rest end ∧
  same_meta h (link_consecutive blocks h) ∧ frame blocks h (link_consecutive blocks h).
Proof.
  revert h. induction blocks as [|x [|y rest] IH]; intros h Hnd; [done|done|].
  apply NoDup_cons in Hnd as [Hx Hnd].
  set (h1 := update y (set_prev (Some x)) (update x (set_next (Some y)) h)).
  destruct (IH h1 Hnd) as (Hl & Hm & Hf).
  change (link_consecutive (x :: y :: rest) h) with (link_consecutive (y :: rest) h1).
  split; [|split].
  - split; [|split; [|exact Hl]].
    + rewrite Hf by done. unfold h1. heap_simpl. done.
    + assert (Hk : ∀ bs z v h0, NoDup (z :: bs) → prev_free_block (deref h0 z) = v →
                 prev_free_block (deref (link_consecutive (z :: bs) h0) z) = v).
      { clear. intros [|w bs] z v h0 Hnd Hv; [done|].
        assert (Hzw : z ≠ w) by (apply NoDup_cons in Hnd as [? _]; set_solver).
        change (link_consecutive (z :: w :: bs) h0) with
          (link_consecutive (w :: bs) (update w (set_prev (Some z)) (update z (set_next (Some w)) h0))).
        assert (Hfr : ∀ cs h1, frame cs h1 (link_consecutive cs h1)).
        { clear. induction cs as [|a [|b cs] IH]; intros h1; [done|done|].
          change (link_consecutive (a :: b :: cs) h1) with
            (link_consecutive (b :: cs) (update b (set_prev (Some a)) (update a (set_next (Some b)) h1))).
          eapply frame_trans; [|eapply frame_mono; [apply IH|set_solver]]. solve_frame. }
        rewrite Hfr by (by apply NoDup_cons in Hnd as [? _]). by heap_simpl. }
      apply Hk; [done|]. unfold h1. by heap_simpl.
  - etransitivity; [|exact Hm]. unfold h1. solve_meta.
  - eapply frame_trans; [|eapply frame_mono; [exact Hf|set_solver]]. unfold h1. solve_frame.
Qed.

Lemma deref_alloc_ne b h l : l ≠ next_loc h → deref (alloc b h).2 l = deref h l.
Proof. intros. unfold deref, alloc. simpl. by rewrite lookup_total_insert_ne. Qed.

Lemma deref_alloc_eq b h : deref (alloc b h).2 (next_loc h) = b.
Proof. unfold deref, alloc. simpl. by rewrite lookup_total_insert_eq. Qed.

Lemma init_spec blocks h :
  NoDup blocks → (∀ b, b ∈ blocks → b < next_loc h) →
  let s := init blocks h in
  queue_repr (q_heap s) (q_self s) blocks ∧
  fake_free_list_head (q_self s) = next_loc h ∧
  fake_free_list_tail (q_self s) = S (next_loc h) ∧
  next_loc (q_heap s) = S (S (next_loc h)) ∧
  (∀ l, l < next_loc h → meta (deref (q_heap s) l) = meta (deref h l)) ∧
  (∀ l, l < next_loc h → l ∉ blocks → deref (q_heap s) l = deref h l).
Proof.
  intros Hnd Hlt. destruct (link_consecutive_spec blocks h Hnd) as (Hl & Hm & Hf).
  unfold init. set (h1 := link_consecutive blocks h) in *.
  assert (Hn1 : next_loc h1 = next_loc h) by apply Hm.
  destruct (alloc (new_block (-1)) h1) as [fh h2] eqn:E2.
  destruct (alloc (new_block (-1)) h2) as [ft h3] eqn:E3.
  assert (fh = next_loc h ∧ ft = S (next_loc h) ∧ next_loc h3 = S (S (next_loc h))) as (-> & -> & Hn3).
  { unfold alloc in *. simplify_eq. simpl. rewrite Hn1. done. }
  set (fh := next_loc h) in *. set (ft := S fh) in *.
  assert (Hh3 : ∀ l, l < next_loc h → deref h3 l = deref h1 l).
  { intros l Hl'. replace h3 with (alloc (new_block (-1)) h2).2 by by rewrite E3.
    rewrite deref_alloc_ne; replace h2 with (alloc (new_block (-1)) h1).2 by (by rewrite E2).
    - rewrite deref_alloc_ne; [done|lia].
    - simpl. lia. }
  assert (Hft : deref h3 ft = new_block (-1)).
  { replace h3 with (alloc (new_block (-1)) h2).2 by by rewrite E3.
    replace ft with (next_loc h2); [by rewrite deref_alloc_eq|].
    replace h2 with (alloc (new_block (-1)) h1).2 by (by rewrite E2). simpl. unfold ft, fh. lia. }
  assert (Hfresh : ∀ b, b ∈ blocks → b ≠ fh ∧ b ≠ ft) by (intros b Hb; specialize (Hlt b Hb); unfold ft, fh; lia).
  assert (Hft' : fh ≠ ft) by (unfold ft; lia).
  assert (Hndq : NoDup (fh :: blocks ++ [ft])).
  { apply NoDup_cons. split; [|apply NoDup_app; split; [done|split; [|apply NoDup_singleton]]].
    - intros [Hin|Hin]%elem_of_app; [by destruct (Hfresh fh Hin)|set_solver].
    - intros b Hb. destruct (Hfresh b Hb). set_solver. }
  destruct blocks as [|b0 rest].
  { simpl. repeat split; try done.
    - by heap_simpl.
    - by heap_simpl.
    - heap_simpl. by rewrite Hft.
    - intros l Hl'. rewrite !deref_update_ne by (unfold ft, fh; lia). by rewrite Hh3, (proj2 Hm).
    - intros l Hl' _. rewrite !deref_update_ne by (unfold ft, fh; lia). by rewrite Hh3, Hf by set_solver. }
  assert (exists lst, last (b0 :: rest) = Some lst) as [lst Elst].
  { destruct (last (b0 :: rest)) eqn:E; [by eauto|]. by apply last_None in E. }
  cbn [hd_error]. rewrite Elst. cbn [q_heap q_self fake_free_list_head fake_free_list_tail].
  assert (Hlst : lst ∈ b0 :: rest) by by apply last_Some_elem_of.
  destruct (Hfresh b0) as [Hb0h Hb0t]; [set_solver|]. destruct (Hfresh lst Hlst) as [Hlh Hlt'].
  assert (Hl3 : linked h3 b0 rest).
  { eapply linked_ext; [| |by apply Hnd|exact Hl]; intros z Hz; intros; (rewrite Hh3; [done|apply Hlt; set_solver]). }
  assert (Hlc : linked (update b0 (set_prev (Some fh)) (update fh (set_next (Some b0)) h3)) fh (b0 :: rest)).
  { apply linked_cons_front; [|done]. rewrite app_comm_cons in Hndq. by apply NoDup_app in Hndq as [? _]. }
  assert (Hj := linked_join _ fh (b0 :: rest) ft [] Hndq Hlc I). rewrite Elst in Hj. simpl in Hj.
  set (h4 := update b0 (set_prev (Some fh)) (update fh (set_next (Some b0)) h3)) in *.
  assert (Hcomm : update lst (set_next (Some ft)) (update ft (set_prev (Some lst)) h4)
                = update ft (set_prev (Some lst)) (update lst (set_next (Some ft)) h4)) by by apply update_comm.
  rewrite Hcomm. split; [split; [done|split; [done|split; [done|]]]|].
  { simpl. heap_simpl. unfold h4. heap_simpl. by rewrite Hft. }
  split; [done|]. split; [done|]. split; [done|]. split.
  - intros l Hl'. trans (meta (deref h3 l)); [|by rewrite Hh3, (proj2 Hm)].
    assert (same_meta h3 (update ft (set_prev (Some lst)) (update lst (set_next (Some ft)) h4))) as [_ Hmm]
      by (unfold h4; solve_meta). apply Hmm.
  - intros l Hl' Hnl. rewrite !deref_update_ne by (first [unfold ft, fh; lia | intros <-; done]).
    unfold h4. rewrite !deref_update_ne by (first [unfold ft, fh; lia | intros <-; set_solver]).
    by rewrite Hh3, Hf.
Qed.

End FreeQueueSpec.
