(* ===== verification/FreeQueueRefine.v ===== *)
(** * The free-block queue refines a list

    Sequences of queue operations and the list operations they implement. *)

From S2P Require Import Prelude.
From S2P Require Import FreeQueue.
From S2P Require Import FreeQueueSpec.

(** ** Refinement: any sequence of operations behaves like a list *)

Import FreeQueue FreeQueueSpec.

Inductive queue_op : Type :=
  | OpPopleft
  | OpPopleftN (n : Z)
  | OpRemove (b : loc)
  | OpAppend (b : loc)
  | OpAppendN (bs : list loc)
  | OpPrependN (bs : list loc).

Definition run_op (o : queue_op) : M qstate (list loc) :=
  match o with
  | OpPopleft => b ← popleft; mret [b]
  | OpPopleftN n => popleft_n n
  | OpRemove b => remove b ;; mret []
  | OpAppend b => append b ;; mret []
  | OpAppendN bs => append_n bs ;; mret []
  | OpPrependN bs => prepend_n bs ;; mret []
  end.

(** The same operation on the list of free blocks. *)
Definition abs_op (o : queue_op) (l : list loc) : outcome (list loc) * list loc :=
  match o with
  | OpPopleft => match l with [] => (Raise ValueError, []) | b :: l' => (Ret [b], l') end
  | OpPopleftN n =>
      if (n <=? zlen l)%Z then (Ret (take (Z.to_nat n) l), drop (Z.to_nat n) l)
      else (Raise AssertionError, l)
  | OpRemove b => if decide (b ∈ l) then (Ret [], filter (.≠ b) l) else (Raise RuntimeError, l)
  | OpAppend b => (Ret [], l ++ [b])
  | OpAppendN bs => (Ret [], l ++ bs)
  | OpPrependN bs => (Ret [], bs ++ l)
  end.

(** What the callers keep to: blocks of the pool, added only when not free. *)
Definition op_ok (univ l : list loc) (o : queue_op) : Prop :=
  match o with
  | OpPopleft => True
  | OpPopleftN n => (0 ≤ n)%Z
  | OpRemove b => b ∈ univ
  | OpAppend b => b ∈ univ ∧ b ∉ l
  | OpAppendN bs | OpPrependN bs => NoDup bs ∧ ∀ b, b ∈ bs → b ∈ univ ∧ b ∉ l
  end.

(** The queue represents [l]; the other blocks of the pool have no links. *)
Definition represents (univ : list loc) (s : qstate) (l : list loc) : Prop :=
  queue_repr (q_heap s) (q_self s) l ∧ l ⊆ univ ∧
  (fake_free_list_head (q_self s) ∉ univ) ∧ (fake_free_list_tail (q_self s) ∉ univ) ∧
  ∀ b, b ∈ univ → b ∉ l → unlinked (q_heap s) b.

Fixpoint run_ops (ops : list queue_op) (s : qstate) : list (outcome (list loc)) * qstate :=
  match ops with
  | [] => ([], s)
  | o :: ops' =>
      let '(r, s') := run_op o s in let '(rs, s'') := run_ops ops' s' in (r :: rs, s'')
  end.
Fixpoint abs_ops (ops : list queue_op) (l : list loc) : list (outcome (list loc)) * list loc :=
  match ops with
  | [] => ([], l)
  | o :: ops' =>
      let '(r, l') := abs_op o l in let '(rs, l'') := abs_ops ops' l' in (r :: rs, l'')
  end.
Fixpoint ops_ok (univ l : list loc) (ops : list queue_op) : Prop :=
  match ops with
  | [] => True
  | o :: ops' => op_ok univ l o ∧ ops_ok univ (abs_op o l).2 ops'
  end.

(** A step of the queue keeps the representation when the blocks it releases are
    unlinked. *)
Lemma represents_step univ h q l D l' s' :
  represents univ (QState h q) l → queue_step h q D l' s' → l' ⊆ univ →
  (∀ b, b ∈ D → b ∈ l ++ l') → (∀ b, b ∈ l → b ∉ l' → unlinked (q_heap s') b) →
  represents univ s' l'.
Proof.
  intros (Hq & Hl & Hhd & Htl & Hu) (Hq' & Hh & Ht & Hm & Hf) Hl' HD Hrel. simpl in *.
  split; [done|]. split; [done|]. rewrite Hh, Ht. split; [done|]. split; [done|].
  intros b Hb Hbl'. destruct (decide (b ∈ l)) as [Hbl|Hbl]; [by apply Hrel|].
  unfold unlinked. rewrite Hf; [by apply Hu|]. intros [->|[->|Hin]%elem_of_cons]%elem_of_cons; [done..|].
  apply HD, elem_of_app in Hin as [?|?]; done.
Qed.

Lemma wp_run {S A B} (m : M S A) (k : A → B) s (Q : A → S → Prop) :
  wp m s Q → ∃ a s', (a' ← m; mret (k a')) s = (Ret (k a), s') ∧ Q a s'.
Proof.
  intros (a & s' & E & HQ)%wp_elim. exists a, s'. unfold mbind, M_bind. by rewrite E.
Qed.

Lemma run_op_refines univ s l o :
  represents univ s l → op_ok univ l o →
  (run_op o s).1 = (abs_op o l).1 ∧ represents univ (run_op o s).2 (abs_op o l).2.
Proof.
  destruct s as [h q]. intros HR Hok. pose proof HR as (Hq & Hl & Hhd & Htl & Hu). simpl in *.
  assert (Hfresh : ∀ bs : list loc, (∀ b, b ∈ bs → b ∈ univ ∧ b ∉ l) →
    ∀ b, b ∈ bs → (b ∉ l) ∧ b ≠ fake_free_list_head q ∧ b ≠ fake_free_list_tail q)
    by (intros bs Hbs b Hb; destruct (Hbs b Hb); split; [done|split; congruence]).
  destruct o as [|n|b|b|bs|bs]; simpl in *.
  - destruct l as [|b l'] eqn:El.
    + assert (Hr := popleft_empty h q [] Hq eq_refl). unfold raises in Hr.
      unfold mbind, M_bind. destruct (popleft _) as [[r|e] s']; [done|].
      destruct Hr as [-> ->]. done.
    + destruct (wp_run _ (λ b, [b]) _ _ (popleft_spec h q _ Hq b l' eq_refl))
        as (r & s' & -> & -> & Hs & Hun). split; [done|]. simpl.
      eapply represents_step; [exact HR|exact Hs|set_solver|set_solver|]. set_solver.
  - destruct (Z.leb_spec n (zlen l)) as [Hn|Hn].
    + assert (Hw := popleft_n_spec h q l Hq n ltac:(lia)).
      apply wp_elim in Hw as (r & s' & -> & -> & Hs & Hun). split; [done|]. simpl.
      pose proof (take_drop (Z.to_nat n) l) as Htd.
      assert (Hin : ∀ b, b ∈ l ↔ b ∈ take (Z.to_nat n) l ∨ b ∈ drop (Z.to_nat n) l)
        by (intros b; rewrite <-elem_of_app, Htd; done).
      eapply represents_step; [exact HR|exact Hs| | |].
      * intros b Hb. apply Hl, Hin. by right.
      * set_solver.
      * intros b [Hb|Hb]%Hin Hnb; [by apply Hun|done].
    + unfold popleft_n. rewrite (proj2 (Z.eqb_neq n 0)) by (pose proof (zlen_nonneg l); lia).
      unfold get, py_assert, mbind, M_bind. simpl. destruct Hq as (Hnum & _).
      rewrite (proj2 (Z.leb_gt _ _)) by lia. done.
  - destruct (decide (b ∈ l)) as [Hb|Hb].
    + pose proof (queue_nodup _ _ _ Hq) as Hnd.
      apply list_elem_of_split in Hb as (l1 & l2 & ->).
      destruct (wp_run _ (λ _, @nil loc) _ _ (remove_spec h q _ Hq l1 b l2 eq_refl))
        as (r & s' & Hr & Hs & Hun). rewrite Hr. split; [done|]. simpl.
      assert (Hfil : filter (.≠ b) (l1 ++ b :: l2) = l1 ++ l2).
      { apply NoDup_app in Hnd as (_ & H1 & H2). apply NoDup_cons in H2 as [Hb2 _].
        rewrite filter_app, filter_cons_False by auto. rewrite !filter_true; [done| |].
        - by intros x Hx ->.
        - intros x Hx ->. apply (H1 b Hx). set_solver. }
      rewrite Hfil. eapply represents_step; [exact HR|exact Hs|set_solver|set_solver|].
      intros x Hx Hx'. assert (x = b) as -> by set_solver. done.
    + assert (Hr := remove_not_free h q b (Hu b Hok Hb)).
      unfold raises in Hr. unfold mbind, M_bind. destruct (remove b _) as [[r|e] s']; [done|].
      destruct Hr as [-> ->]. done.
  - destruct Hok as [Hb Hbl].
    destruct (wp_run _ (λ _, @nil loc) _ _ (append_spec h q l Hq b Hbl ltac:(congruence) ltac:(congruence)))
      as (r & s' & -> & Hs). split; [done|]. simpl.
    eapply represents_step; [exact HR|exact Hs|set_solver|set_solver|set_solver].
  - destruct Hok as [Hnd Hbs].
    destruct (wp_run _ (λ _, @nil loc) _ _ (append_n_spec h q l Hq bs Hnd (Hfresh bs Hbs)))
      as (r & s' & -> & Hs). split; [done|]. simpl.
    eapply represents_step; [exact HR|exact Hs|set_solver|set_solver|set_solver].
  - destruct Hok as [Hnd Hbs].
    destruct (wp_run _ (λ _, @nil loc) _ _ (prepend_n_spec h q l Hq bs Hnd (Hfresh bs Hbs)))
      as (r & s' & -> & Hs). split; [done|]. simpl.
    eapply represents_step; [exact HR|exact Hs|set_solver|set_solver|set_solver].
Qed.

(** C11: the free-block queue refines a list: whatever sequence of operations is
    run, including ones that raise ([popleft] of an empty queue, [popleft_n] of
    too many blocks, [remove] of a block that is not free), every call returns or
    raises what the list operation does, and afterwards the links represent the
    list, with every other block of the pool unlinked. *)
Theorem free_queue_refines_list univ s l ops :
  represents univ s l → ops_ok univ l ops →
  (run_ops ops s).1 = (abs_ops ops l).1 ∧ represents univ (run_ops ops s).2 (abs_ops ops l).2.
Proof.
  revert s l. induction ops as [|o ops IH]; intros s l HR Hok; [done|].
  destruct Hok as [Ho Hok]. destruct (run_op_refines univ s l o HR Ho) as [H1 H2].
  simpl. destruct (run_op o s) as [r s'] eqn:Er, (abs_op o l) as [r' l'] eqn:Ea. simpl in *. subst r'.
  destruct (IH s' l' H2 Hok) as [H3 H4].
  destruct (run_ops ops s') as [rs s''], (abs_ops ops l') as [rs' l'']. simpl in *. by subst.
Qed.

(** Three blocks at locations 0, 1, 2. *)
Definition demo_heap : heap := Heap (list_to_map [(0, new_block 0); (1, new_block 1); (2, new_block 2)]) 3.

Lemma demo_represents : represents [0; 1; 2] (init [0; 1; 2] demo_heap) [0; 1; 2].
Proof.
  destruct (FreeQueueSpec.init_spec [0; 1; 2] demo_heap) as (Hq & Hh & Ht & _).
  - apply (NoDup_seq 0 3).
  - intros b Hb. rewrite !elem_of_cons, elem_of_nil in Hb. cbn [next_loc demo_heap]. lia.
  - split; [exact Hq|]. split; [done|]. rewrite Hh, Ht. simpl.
    rewrite !elem_of_cons, !elem_of_nil. split; [lia|]. split; [lia|]. intros b. rewrite !elem_of_cons, !elem_of_nil. tauto.
Qed.

Lemma free_queue_refines_list_witness :
  let ops := [OpPopleft; OpRemove 2; OpRemove 2; OpPopleftN 2; OpAppendN [0; 2]; OpPrependN []] in
  (run_ops ops (init [0; 1; 2] demo_heap)).1 =
    [Ret [0]; Ret []; Raise RuntimeError; Raise AssertionError; Ret []; Ret []].
Proof.
  intros ops.
  destruct (free_queue_refines_list [0; 1; 2] (init [0; 1; 2] demo_heap) [0; 1; 2] ops) as [-> _].
  - apply demo_represents.
  - simpl. rewrite !elem_of_cons, !elem_of_nil. repeat (split; [lia|]).
    split; [|split; [|done]].
    + split; [rewrite NoDup_cons, list_elem_of_singleton; split; [lia|apply NoDup_singleton]|].
      intros b. change (filter (λ y, y ≠ 2) [1; 2]) with [1].
      rewrite !elem_of_cons, !elem_of_nil. lia.
    + split; [constructor|]. intros b. by rewrite elem_of_nil.
  - reflexivity.
Defined.
