(* ===== verification/Request.v ===== *)
(** * Requests

    [vllm/v1/request.py]: the request object, its status state machine's
    statuses and finish reasons, its construction, the token bookkeeping of
    [append_output_token_ids] and the scheduling order [__lt__].  The values a
    request carries that other components read (multi-modal features, LoRA
    request, prompt embeddings, sampling parameters) are records with the fields
    those components use. *)

From Stdlib Require Import Strings.Byte.
From S2P Require Import Prelude.
From S2P Require Import FreeQueue.
Local Open Scope Z_scope.

(** ** Statuses *)

Inductive RequestStatus : Set :=
  | WAITING
  | WAITING_FOR_STRUCTURED_OUTPUT_GRAMMAR
  | WAITING_FOR_REMOTE_KVS
  | WAITING_FOR_STREAMING_REQ
  | RUNNING
  | PREEMPTED
  | FINISHED_STOPPED
  | FINISHED_LENGTH_CAPPED
  | FINISHED_ABORTED
  | FINISHED_IGNORED
  | FINISHED_ERROR
  | FINISHED_REPETITION.

#[export] Instance RequestStatus_eq_dec : EqDecision RequestStatus.
Proof. solve_decision. Defined.

(** [enum.auto()] numbers the members from 1. *)
Definition status_value (s : RequestStatus) : Z :=
  match s with
  | WAITING => 1
  | WAITING_FOR_STRUCTURED_OUTPUT_GRAMMAR => 2
  | WAITING_FOR_REMOTE_KVS => 3
  | WAITING_FOR_STREAMING_REQ => 4
  | RUNNING => 5
  | PREEMPTED => 6
  | FINISHED_STOPPED => 7
  | FINISHED_LENGTH_CAPPED => 8
  | FINISHED_ABORTED => 9
  | FINISHED_IGNORED => 10
  | FINISHED_ERROR => 11
  | FINISHED_REPETITION => 12
  end.

Inductive FinishReason : Set := STOP | LENGTH | ABORT | ERROR | REPETITION.

(** [_FINISHED_REASON_MAP.get(status)] *)
Definition get_finished_reason (s : RequestStatus) : option FinishReason :=
  match s with
  | FINISHED_STOPPED => Some STOP
  | FINISHED_LENGTH_CAPPED => Some LENGTH
  | FINISHED_ABORTED => Some ABORT
  | FINISHED_IGNORED => Some LENGTH
  | FINISHED_ERROR => Some ERROR
  | WAITING_FOR_STREAMING_REQ => Some STOP
  | FINISHED_REPETITION => Some REPETITION
  | _ => None
  end.

Definition status_is_finished (s : RequestStatus) : bool :=
  status_value PREEMPTED <? status_value s.

(** ** Values carried by a request *)

(** [PlaceholderRange]: [is_embed] is the boolean mask, when there is one. *)
Record PlaceholderRange : Type := mkRange {
  offset : Z;
  length_ : Z;
  is_embed : option (list bool);
}.

(** [embeds_cumsum]: the running count of the positions that carry an
    embedding. *)
Fixpoint cumsum_from (acc : Z) (l : list bool) : list Z :=
  match l with
  | [] => []
  | b :: l' => let acc' := acc + Z.b2z b in acc' :: cumsum_from acc' l'
  end.
Definition embeds_cumsum (p : PlaceholderRange) : option (list Z) :=
  cumsum_from 0 <$> is_embed p.

Definition get_num_embeds (p : PlaceholderRange) : Z :=
  match embeds_cumsum p with
  | None => length_ p
  | Some c => default 0 (last c)
  end.

(** [get_embeds_indices_in_range]; an index outside the mask is an
    [IndexError]. *)
Definition get_embeds_indices_in_range (p : PlaceholderRange) (start_idx end_idx : Z)
    : option (Z * Z) :=
  match embeds_cumsum p with
  | None => Some (start_idx, end_idx)
  | Some c =>
      s ← (if 0 <? start_idx then py_get c (start_idx - 1) else Some 0);
      e ← (if 0 <? end_idx then py_get c (end_idx - 1) else Some 0);
      Some (s, e)
  end.

Record MultiModalFeatureSpec : Type := mkFeature {
  identifier : string;
  mm_position : PlaceholderRange;
}.

Record LoRARequest : Type := mkLoRA { lora_name : string; lora_int_id : Z }.

(** The prompt embeddings are a tensor: its length and the bytes of its rows
    [a:b] ([tensor_data] of the slice). *)
Record Tensor : Type := mkTensor {
  tensor_len : Z;
  tensor_rows : Z → Z → bytes;
}.

Record RepetitionDetectionParams : Type := mkRepetition {
  max_pattern_size : Z;
  min_pattern_size : Z;
  min_count : Z;
}.

(** [SamplingParams]: the fields the scheduling core reads.
    [has_structured_outputs] says that a structured-output constraint is set;
    [extra_boundaries] is [extra_args.get("prefix_cache_boundaries", ())]. *)
Record SamplingParams : Type := mkSampling {
  sp_max_tokens : option Z;
  min_tokens : Z;
  eos_token_id : option Z;
  stop_token_ids : list Z;
  repetition_detection : option RepetitionDetectionParams;
  has_structured_outputs : bool;
  sp_skip_reading_prefix_cache : option bool;
  extra_boundaries : list Z;
}.

Record PoolingParams : Type := mkPooling {
  pp_skip_reading_prefix_cache : option bool;
}.

Inductive StopReason : Set := StopToken (t : Z) | StopString (s : string).

(** ** The request object

    [req_args] holds the attributes fixed at construction, the other fields the
    mutable ones.  [req_obj] is the object's identity ([id(self)]).
    [arrival_time] is a finite float, an integral multiple of 2^-1074, kept as
    that multiple: the comparisons of [__lt__] are exact on it. *)
Record RequestArgs : Type := mkArgs {
  request_id : string;
  req_obj : Z;
  priority : Z;
  arrival_time : Z;
  sampling_params : option SamplingParams;
  pooling_params : option PoolingParams;
  prompt_token_ids : option (list Z);
  prompt_embeds : option Tensor;
  lora_request : option LoRARequest;
  cache_salt : option string;
  mm_features : list MultiModalFeatureSpec;
  max_tokens : Z;
  num_prompt_tokens : Z;
  prefix_cache_boundaries : list Z;
  cache_output_tokens : bool;
  skip_reading_prefix_cache : bool;
  resumable : bool;
}.

Record Request : Type := mkRequest {
  req_args :> RequestArgs;
  status : RequestStatus;
  stop_reason : option StopReason;
  _output_token_ids : list Z;
  _all_token_ids : list Z;
  spec_token_ids : list Z;
  num_computed_tokens : Z;
  num_output_placeholders : Z;
  num_in_flight_tokens : Z;
  num_preemptions : Z;
  shared_prefix_boundary : Z;
  block_hashes : list BlockHash;
  _prompt_embeds_per_block_hashes : gmap (Z * Z) bytes;
}.

Definition set_status (st : RequestStatus) (sr : option StopReason) (r : Request) : Request :=
  mkRequest (req_args r) st sr (_output_token_ids r) (_all_token_ids r)
    (spec_token_ids r) (num_computed_tokens r) (num_output_placeholders r)
    (num_in_flight_tokens r) (num_preemptions r) (shared_prefix_boundary r)
    (block_hashes r) (_prompt_embeds_per_block_hashes r).
Definition set_tokens (out all : list Z) (r : Request) : Request :=
  mkRequest (req_args r) (status r) (stop_reason r) out all
    (spec_token_ids r) (num_computed_tokens r) (num_output_placeholders r)
    (num_in_flight_tokens r) (num_preemptions r) (shared_prefix_boundary r)
    (block_hashes r) (_prompt_embeds_per_block_hashes r).
Definition set_block_hashes (hs : list BlockHash) (r : Request) : Request :=
  mkRequest (req_args r) (status r) (stop_reason r) (_output_token_ids r)
    (_all_token_ids r) (spec_token_ids r) (num_computed_tokens r)
    (num_output_placeholders r) (num_in_flight_tokens r) (num_preemptions r)
    (shared_prefix_boundary r) hs (_prompt_embeds_per_block_hashes r).
Definition set_embeds_hashes (m : gmap (Z * Z) bytes) (r : Request) : Request :=
  mkRequest (req_args r) (status r) (stop_reason r) (_output_token_ids r)
    (_all_token_ids r) (spec_token_ids r) (num_computed_tokens r)
    (num_output_placeholders r) (num_in_flight_tokens r) (num_preemptions r)
    (shared_prefix_boundary r) (block_hashes r) m.
Definition set_shared_prefix_boundary (z : Z) (r : Request) : Request :=
  mkRequest (req_args r) (status r) (stop_reason r) (_output_token_ids r)
    (_all_token_ids r) (spec_token_ids r) (num_computed_tokens r)
    (num_output_placeholders r) (num_in_flight_tokens r) (num_preemptions r)
    z (block_hashes r) (_prompt_embeds_per_block_hashes r).

Definition num_tokens (r : Request) : Z := zlen (_all_token_ids r).
Definition num_tokens_with_spec (r : Request) : Z :=
  zlen (_all_token_ids r) + zlen (spec_token_ids r).
Definition num_output_tokens (r : Request) : Z := zlen (_output_token_ids r).
Definition is_finished (r : Request) : bool := status_is_finished (status r).

(** [get_num_encoder_embeds]: the assertion does not exclude negative indices,
    which Python counts from the end. *)
Definition get_num_encoder_embeds {S} (r : Request) (input_id : Z) : M S Z :=
  py_assert (input_id <? zlen (mm_features r)) ;;
  f ← of_option IndexError (py_get (mm_features r) input_id);
  mret (get_num_embeds (mm_position f)).

(** ** Construction *)

Definition PREFIX_CACHE_BOUNDARY_ALIGNMENT : Z := 64.

(** [length_from_prompt_token_ids_or_embeds] *)
Definition length_from_prompt_token_ids_or_embeds
    (prompt_token_ids : option (list Z)) (prompt_embeds : option Tensor) : option Z :=
  match zlen <$> prompt_token_ids, tensor_len <$> prompt_embeds with
  | None, None => None
  | None, Some n => Some n
  | Some t, Some n => if n =? t then Some t else None
  | Some t, None => Some t
  end.

(** [tuple(sorted({...}))]: insertion into a sorted list without duplicates. *)
Fixpoint insert_sorted (x : Z) (l : list Z) : list Z :=
  match l with
  | [] => [x]
  | y :: l' =>
      if x =? y then l
      else if x <? y then x :: l
      else y :: insert_sorted x l'
  end.

Definition compute_prefix_cache_boundaries (prompt : option (list Z)) (bs : list Z) : list Z :=
  let align := PREFIX_CACHE_BOUNDARY_ALIGNMENT in
  foldr (λ b acc,
    if (align <=? b) && (b <? zlen (default [] prompt))
    then insert_sorted (b / align * align) acc
    else acc) [] bs.

Definition get_skip_reading_prefix_cache
    (sp : option SamplingParams) (pp : option PoolingParams) : bool :=
  match sp ≫= sp_skip_reading_prefix_cache, pp ≫= pp_skip_reading_prefix_cache with
  | Some b, _ => b
  | None, Some b => b
  | None, None => false
  end.

(** [update_block_hashes] with the hasher the request was built with; the hasher
    memoises the hashes of the prompt embeddings in the request. *)
Definition update_block_hashes (block_hasher : option (M Request (list BlockHash)))
    : M Request unit :=
  match block_hasher with
  | None => mret tt
  | Some f => hs ← f; modify (λ r, set_block_hashes (block_hashes r ++ hs) r)
  end.

(** [Request.__init__].  [reasoning_ended] is the tri-state argument. *)
Definition Request_init
    (request_id : string) (obj : Z) (prompt_token_ids : option (list Z))
    (sampling_params : option SamplingParams) (pooling_params : option PoolingParams)
    (arrival_time : Z) (prompt_embeds : option Tensor)
    (mm_features : list MultiModalFeatureSpec) (lora_request : option LoRARequest)
    (cache_salt : option string) (priority : Z)
    (block_hasher : option (M Request (list BlockHash)))
    (resumable : bool) (reasoning_ended : option bool) : outcome Request :=
  let structured :=
    match sampling_params with Some sp => has_structured_outputs sp | None => false end in
  let limits :=
    match pooling_params, sampling_params with
    | Some _, _ => Ret (WAITING, 1)
    | None, Some sp =>
        match sp_max_tokens sp with
        | None => Raise AssertionError
        | Some m =>
            Ret (if structured then WAITING_FOR_STRUCTURED_OUTPUT_GRAMMAR else WAITING, m)
        end
    | None, None => Raise ValueError
    end in
  match limits with
  | Raise e => Raise e
  | Ret (st, max_tokens) =>
      match length_from_prompt_token_ids_or_embeds prompt_token_ids prompt_embeds with
      | None => Raise ValueError
      | Some n =>
          let bs := match sampling_params with Some sp => extra_boundaries sp | None => [] end in
          let args := mkArgs request_id obj priority arrival_time sampling_params
            pooling_params prompt_token_ids prompt_embeds lora_request cache_salt
            mm_features max_tokens n
            (compute_prefix_cache_boundaries prompt_token_ids bs)
            (bool_decide (reasoning_ended ≠ Some false))
            (get_skip_reading_prefix_cache sampling_params pooling_params) resumable in
          let all :=
            match prompt_token_ids with
            | Some l => l
            | None => replicate (Z.to_nat n) 0
            end in
          let r := mkRequest args st None [] all [] 0 0 0 0 0 [] ∅ in
          match update_block_hashes block_hasher r with
          | (Ret _, r) => Ret r
          | (Raise e, _) => Raise e
          end
      end
  end.

(** [append_output_token_ids]; a single token is a one-element list. *)
Definition append_output_token_ids (block_hasher : option (M Request (list BlockHash)))
    (token_ids : list Z) : M Request unit :=
  modify (λ r, set_tokens (_output_token_ids r ++ token_ids) (_all_token_ids r ++ token_ids) r) ;;
  update_block_hashes block_hasher.

(** ** The scheduling order *)

Definition request_lt (a b : RequestArgs) : bool :=
  if negb (priority a =? priority b) then priority a <? priority b
  else if negb (arrival_time a =? arrival_time b) then arrival_time a <? arrival_time b
  else if negb (String.eqb (request_id a) (request_id b)) then
    String.ltb (request_id a) (request_id b)
  else req_obj a <? req_obj b.
