(* ===== verification/BlockHash.v ===== *)
(** * Block hashes

    [kv_cache_utils.py]: packing of a block hash with its KV-cache group id, the
    extra keys of a block, the chained hash of a block and the block hasher of a
    request, and the change of granularity [BlockHashListWithBlockSize].  The
    hash function, the seed hash and SHA-256 are parameters. *)

From Stdlib Require Import Strings.Byte.
From S2P Require Import Prelude.
From S2P Require Import FreeQueue.
From S2P Require Import Request.
Local Open Scope Z_scope.

(** ** Integers as big-endian bytes *)

Definition byte_of_Z (z : Z) : byte := default x00 (Byte.of_N (Z.to_N (z mod 256))).
Definition Z_of_byte (b : byte) : Z := Z.of_N (Byte.to_N b).

(** [n.to_bytes(k, "big", signed=False)] *)
Definition be_bytes (k : nat) (n : Z) : bytes :=
  (λ i, byte_of_Z (Z.shiftr n (8 * (Z.of_nat k - 1 - Z.of_nat i)))) <$> seq 0 k.
Definition to_bytes_big (k : nat) (n : Z) : outcome bytes :=
  if (n <? 0) || (2 ^ (8 * Z.of_nat k) <=? n) then Raise OverflowError
  else Ret (be_bytes k n).

(** [int.from_bytes(b, "big", signed=False)] *)
Definition int_from_bytes_big (b : bytes) : Z :=
  foldl (λ acc x, acc * 256 + Z_of_byte x) 0 b.

Definition make_block_hash_with_group_id (block_hash : BlockHash) (group_id : Z)
    : outcome BlockHashWithGroupId :=
  match to_bytes_big 4 group_id with
  | Ret g => Ret (block_hash ++ g)
  | Raise e => Raise e
  end.

(** [key[:-4]] and [key[-4:]] *)
Definition get_block_hash (key : BlockHashWithGroupId) : BlockHash :=
  take (length key - 4) key.
Definition get_group_id (key : BlockHashWithGroupId) : Z :=
  int_from_bytes_big (drop (length key - 4) key).

Inductive ExternalBlockHash : Type := HashBytes (b : bytes) | HashInt (z : Z).

Definition maybe_convert_block_hash (use_int_block_hashes : bool) (hash_bytes : BlockHash)
    : ExternalBlockHash :=
  if negb use_int_block_hashes then HashBytes hash_bytes
  else HashInt (Z.land (int_from_bytes_big hash_bytes) (Z.shiftl 1 64 - 1)).

(** ** Extra keys *)

Inductive extra_key : Type :=
  | KStr (s : string)
  | KMm (identifier : string) (rel_offset : Z)
  | KBytes (b : bytes).

Definition is_nil {A} (l : list A) : bool := match l with [] => true | _ => false end.

Definition need_extra_keys (request : RequestArgs) : bool :=
  negb (is_nil (mm_features request))
  || bool_decide (lora_request request ≠ None)
  || bool_decide (cache_salt request ≠ None).

(** The [while] loop of [_gen_mm_extra_hash_keys] on the features from
    [curr_mm_idx] on. *)
Fixpoint mm_keys_loop (start_token_idx end_token_idx : Z)
    (feats : list MultiModalFeatureSpec) (curr_mm_idx : Z) (extra_keys : list extra_key)
    : list extra_key * Z :=
  match feats with
  | [] => (extra_keys, curr_mm_idx)
  | f :: feats' =>
      let off := offset (mm_position f) in
      let len := length_ (mm_position f) in
      if off <? end_token_idx then
        if off + len <=? start_token_idx then
          mm_keys_loop start_token_idx end_token_idx feats' (curr_mm_idx + 1) extra_keys
        else
          let extra_keys := extra_keys ++ [KMm (identifier f) (off - start_token_idx)] in
          if off + len <=? end_token_idx then
            mm_keys_loop start_token_idx end_token_idx feats' (curr_mm_idx + 1) extra_keys
          else (extra_keys, curr_mm_idx)
      else (extra_keys, curr_mm_idx)
  end.

Definition _gen_mm_extra_hash_keys {S} (request : RequestArgs)
    (start_token_idx end_token_idx start_mm_idx : Z) : M S (list extra_key * Z) :=
  let feats := mm_features request in
  match last feats with
  | None => mret ([], start_mm_idx)
  | Some last_f =>
      let last_pos := mm_position last_f in
      if offset last_pos + length_ last_pos <=? start_token_idx then
        mret ([], start_mm_idx)
      else
        start_mm_idx ←
          (if start_mm_idx <? 0 then
             py_assert (- start_mm_idx <=? zlen feats) ;;
             mret (zlen feats + start_mm_idx)
           else mret start_mm_idx);
        mret (mm_keys_loop start_token_idx end_token_idx
                (drop (Z.to_nat start_mm_idx) feats) start_mm_idx [])
  end.

Definition _gen_lora_extra_hash_keys (request : RequestArgs) : list extra_key :=
  match lora_request request with
  | None => []
  | Some l => [KStr (lora_name l)]
  end.

Section hashing.
Context (sha256 : bytes → bytes).

Definition _gen_prompt_embeds_extra_hash_keys (start_token_idx end_token_idx : Z)
    : M Request (list extra_key) :=
  get ≫= λ r : Request,
  match prompt_embeds r with
  | None => mret []
  | Some t =>
      let block_range := (start_token_idx, end_token_idx) in
      match _prompt_embeds_per_block_hashes r !! block_range with
      | Some h => mret [KBytes h]
      | None =>
          let h := sha256 (tensor_rows t start_token_idx end_token_idx) in
          modify (λ r, set_embeds_hashes
            (<[block_range := h]> (_prompt_embeds_per_block_hashes r)) r) ;;
          mret [KBytes h]
      end
  end.

(** [if start_token_idx == 0 and request.cache_salt]: an empty salt is
    falsy. *)
Definition cache_salt_keys (request : RequestArgs) (start_token_idx : Z) : list extra_key :=
  match cache_salt request with
  | Some s =>
      if (start_token_idx =? 0) && negb (String.eqb s EmptyString) then [KStr s] else []
  | None => []
  end.

Definition generate_block_hash_extra_keys (start_token_idx end_token_idx start_mm_idx : Z)
    : M Request (option (list extra_key) * Z) :=
  get ≫= λ r : Request,
  mm ← _gen_mm_extra_hash_keys r start_token_idx end_token_idx start_mm_idx;
  let '(mm_extra_keys, new_start_mm_idx) := mm in
  let lora_extra_keys := _gen_lora_extra_hash_keys r in
  let salt_keys := cache_salt_keys r start_token_idx in
  prompt_embeds_keys ← _gen_prompt_embeds_extra_hash_keys start_token_idx end_token_idx;
  let extra_keys := lora_extra_keys ++ mm_extra_keys ++ salt_keys ++ prompt_embeds_keys in
  mret (if is_nil extra_keys then None else Some extra_keys, new_start_mm_idx).

(** ** Hashing *)

Context (hash_function : bytes * list Z * option (list extra_key) → bytes).
Context (NONE_HASH : BlockHash).

Definition hash_block_tokens (parent_block_hash : option BlockHash)
    (curr_block_token_ids : list Z) (extra_keys : option (list extra_key)) : BlockHash :=
  let parent :=
    match parent_block_hash with
    | None | Some [] => NONE_HASH
    | Some p => p
    end in
  hash_function (parent, curr_block_token_ids, extra_keys).

(** The [while True] loop of [request_block_hasher]. *)
Fixpoint hasher_loop (fuel : nat) (block_size num_tokens start_token_idx curr_mm_idx : Z)
    (prev : option BlockHash) (new_block_hashes : list BlockHash)
    : M Request (list BlockHash) :=
  match fuel with
  | O => raise OutOfFuel
  | S fuel' =>
      let end_token_idx := start_token_idx + block_size in
      if num_tokens <? end_token_idx then mret new_block_hashes
      else
        ek ← generate_block_hash_extra_keys start_token_idx end_token_idx curr_mm_idx;
        let '(extra_keys, curr_mm_idx) := ek in
        get ≫= λ r : Request,
        let block_tokens := py_slice (_all_token_ids r) start_token_idx end_token_idx in
        let block_hash := hash_block_tokens prev block_tokens extra_keys in
        hasher_loop fuel' block_size num_tokens (start_token_idx + block_size) curr_mm_idx
          (Some block_hash) (new_block_hashes ++ [block_hash])
  end.

(** [get_request_block_hasher(block_size, caching_hash_fn)(request)] *)
Definition request_block_hasher (block_size : Z) : M Request (list BlockHash) :=
  get ≫= λ r : Request,
  let start_token_idx := zlen (block_hashes r) * block_size in
  let n := num_tokens r in
  if n <? start_token_idx + block_size then mret []
  else
    let curr_mm_idx := if 0 <? start_token_idx then -1 else 0 in
    hasher_loop (S (Z.to_nat n)) block_size n start_token_idx curr_mm_idx
      (last (block_hashes r)) [].
End hashing.

(** ** BlockHashListWithBlockSize *)

Record BlockHashListWithBlockSize : Type := mkHashList {
  bl_block_hashes : list BlockHash;
  scale_factor : Z;
}.

Definition BlockHashListWithBlockSize_init (block_hashes : list BlockHash)
    (hash_block_size target_block_size : Z) : outcome BlockHashListWithBlockSize :=
  if target_block_size mod hash_block_size =? 0
  then Ret (mkHashList block_hashes (target_block_size / hash_block_size))
  else Raise AssertionError.

Definition bl_len (b : BlockHashListWithBlockSize) : Z :=
  zlen (bl_block_hashes b) / scale_factor b.

(** [_get_value_at] *)
Definition bl_get_value_at (b : BlockHashListWithBlockSize) (idx : Z) : BlockHash :=
  let base := idx * scale_factor b in
  let end_ := base + scale_factor b in
  concat (py_slice (bl_block_hashes b) base end_).

(** [__iter__] *)
Definition bl_iter (b : BlockHashListWithBlockSize) : list BlockHash :=
  (λ i, bl_get_value_at b (Z.of_nat i)) <$> seq 0 (Z.to_nat (bl_len b)).

(** The block-hash list of a group: [block_hashes] itself, or the view of it at
    another granularity. *)
Inductive BlockHashList : Type :=
  | Hashes (l : list BlockHash)
  | HashView (v : BlockHashListWithBlockSize).

Definition hl_len (l : BlockHashList) : Z :=
  match l with Hashes l => zlen l | HashView v => bl_len v end.
(** [block_hashes[i]] for [0 <= i] *)
Definition hl_get (l : BlockHashList) (i : Z) : option BlockHash :=
  match l with
  | Hashes l => py_get l i
  | HashView v => Some (bl_get_value_at v i)
  end.
Definition hl_list (l : BlockHashList) : list BlockHash :=
  match l with Hashes l => l | HashView v => bl_iter v end.
