(* ===== verification/BlockHashSpec.v ===== *)
(** * Correctness of block hashing

    Packing round trips; the multi-modal index carried by the hasher computes the
    declarative set of overlapping items; a request's block hashes are always the
    hash chain of its full blocks; and with a collision-free hash function equal
    hashes mean equal token prefixes and extra keys. *)

From Stdlib Require Import Strings.Byte Sorting.Sorted.
From S2P Require Import Prelude.
From S2P Require Import FreeQueue.
From S2P Require Import Request.
From S2P Require Import BlockHash.
Local Open Scope Z_scope.

(** ** Bytes *)

Lemma Z_of_byte_of_Z z : Z_of_byte (byte_of_Z z) = z mod 256.
Proof.
  unfold Z_of_byte, byte_of_Z.
  pose proof (Z.mod_pos_bound z 256 ltac:(lia)).
  destruct (Byte.of_N (Z.to_N (z mod 256))) as [b|] eqn:E; simpl.
  - apply Byte.to_of_N in E. rewrite E. lia.
  - apply Byte.of_N_None_iff in E. lia.
Qed.

Lemma Z_of_byte_bound b : 0 ≤ Z_of_byte b < 256.
Proof. unfold Z_of_byte. pose proof (Byte.to_N_bounded b). lia. Qed.

Lemma length_be_bytes k n : length (be_bytes k n) = k.
Proof. unfold be_bytes. by rewrite length_fmap, length_seq. Qed.

Lemma from_be_bytes n : 0 ≤ n < 2 ^ 32 → int_from_bytes_big (be_bytes 4 n) = n.
Proof.
  intros Hn. change (2 ^ 32) with 4294967296 in Hn.
  change (be_bytes 4 n) with
    [byte_of_Z (Z.shiftr n 24); byte_of_Z (Z.shiftr n 16);
     byte_of_Z (Z.shiftr n 8); byte_of_Z (Z.shiftr n 0)].
  unfold int_from_bytes_big. cbn [foldl].
  rewrite !Z_of_byte_of_Z, !Z.shiftr_div_pow2 by lia.
  change (2 ^ 24) with 16777216. change (2 ^ 16) with 65536.
  change (2 ^ 8) with 256. change (2 ^ 0) with 1. rewrite Z.div_1_r.
  pose proof (Z.div_mod n 16777216 ltac:(lia)). pose proof (Z.mod_pos_bound n 16777216 ltac:(lia)).
  assert (0 ≤ n / 16777216 < 256) by lia.
  rewrite (Z.mod_small (n / 16777216)) by lia.
  replace (n / 16777216) with (n / 65536 / 256) by (rewrite Z.div_div by lia; done).
  replace (n / 65536) with (n / 256 / 256) by (rewrite Z.div_div by lia; done).
  pose proof (Z.div_mod n 256 ltac:(lia)).
  pose proof (Z.div_mod (n / 256) 256 ltac:(lia)).
  pose proof (Z.div_mod (n / 256 / 256) 256 ltac:(lia)). lia.
Qed.

Lemma make_block_hash_ok h g :
  0 ≤ g < 2 ^ 32 → make_block_hash_with_group_id h g = Ret (h ++ be_bytes 4 g).
Proof.
  intros Hg. unfold make_block_hash_with_group_id, to_bytes_big.
  change (2 ^ (8 * Z.of_nat 4)) with (2 ^ 32).
  rewrite (proj2 (Z.ltb_ge _ _)) by lia. rewrite (proj2 (Z.leb_gt _ _)) by lia. done.
Qed.

Lemma get_block_hash_pack h g : get_block_hash (h ++ be_bytes 4 g) = h.
Proof.
  unfold get_block_hash. rewrite length_app, length_be_bytes.
  rewrite Nat.add_sub. by rewrite take_app_length.
Qed.

Lemma get_group_id_pack h g : 0 ≤ g < 2 ^ 32 → get_group_id (h ++ be_bytes 4 g) = g.
Proof.
  intros Hg. unfold get_group_id. rewrite length_app, length_be_bytes.
  rewrite Nat.add_sub, drop_app_length. by apply from_be_bytes.
Qed.

(** Two packed keys are equal exactly when hash and group are. *)
Lemma pack_inj h h' g g' :
  0 ≤ g < 2 ^ 32 → 0 ≤ g' < 2 ^ 32 →
  h ++ be_bytes 4 g = h' ++ be_bytes 4 g' → h = h' ∧ g = g'.
Proof.
  intros Hg Hg' E. split.
  - rewrite <-(get_block_hash_pack h g), E. apply get_block_hash_pack.
  - rewrite <-(get_group_id_pack h g), E by done. by apply get_group_id_pack.
Qed.

(** ** Multi-modal keys *)

Definition mm_end (f : MultiModalFeatureSpec) : Z :=
  offset (mm_position f) + length_ (mm_position f).

(** The items that overlap the block [s, e), with their offsets relative to its
    start: what the extra keys of a block are meant to be. *)
Definition mm_keys_ref (feats : list MultiModalFeatureSpec) (s e : Z) : list extra_key :=
  flat_map (λ f,
    if (offset (mm_position f) <? e) && (s <? mm_end f)
    then [KMm (identifier f) (offset (mm_position f) - s)] else []) feats.

(** Items in prompt order, not overlapping, none empty. *)
Definition mm_ordered (feats : list MultiModalFeatureSpec) : Prop :=
  StronglySorted (λ f g, mm_end f ≤ offset (mm_position g)) feats ∧
  Forall (λ f, 0 < length_ (mm_position f)) feats.

Definition mm_done (s : Z) (feats : list MultiModalFeatureSpec) : Prop :=
  Forall (λ f, mm_end f ≤ s) feats.

Lemma mm_keys_ref_app l1 l2 s e :
  mm_keys_ref (l1 ++ l2) s e = mm_keys_ref l1 s e ++ mm_keys_ref l2 s e.
Proof. apply flat_map_app. Qed.

Lemma mm_keys_ref_done l s e : mm_done s l → mm_keys_ref l s e = [].
Proof.
  induction 1 as [|f l Hf _ IH]; simpl; [done|].
  rewrite IH, (proj2 (Z.ltb_ge s (mm_end f))) by done. by rewrite andb_false_r.
Qed.

Lemma mm_keys_ref_future l s e :
  Forall (λ f, e ≤ offset (mm_position f)) l → mm_keys_ref l s e = [].
Proof.
  induction 1 as [|f l Hf _ IH]; simpl; [done|].
  by rewrite IH, (proj2 (Z.ltb_ge _ e)) by done.
Qed.

Lemma mm_keys_loop_spec s e feats idx acc :
  mm_ordered feats → s < e →
  ∃ n : nat, mm_keys_loop s e feats idx acc = (acc ++ mm_keys_ref feats s e, idx + Z.of_nat n) ∧
    (n ≤ length feats)%nat ∧ mm_done e (take n feats).
Proof.
  intros [Hs Hp] Hse. revert idx acc.
  induction feats as [|f feats IH]; intros idx acc.
  { exists 0%nat. cbn. rewrite app_nil_r, Z.add_0_r. by repeat split; [|constructor]. }
  apply StronglySorted_inv in Hs as [Hs Hf]. apply Forall_cons in Hp as [Hpf Hp].
  specialize (IH Hs Hp). cbn [mm_keys_loop mm_keys_ref flat_map]. fold (mm_keys_ref feats s e).
  fold (mm_end f). destruct (Z.ltb_spec (offset (mm_position f)) e) as [He|He]; simpl.
  - destruct (Z.leb_spec (mm_end f) s) as [Hd|Hd].
    + rewrite (proj2 (Z.ltb_ge s (mm_end f))) by done.
      destruct (IH (idx + 1) acc) as (n & -> & Hn & Hdn). exists (S n).
      split; [f_equal; lia|]. split; [lia|]. simpl. constructor; [lia|done].
    + rewrite (proj2 (Z.ltb_lt s (mm_end f))) by done.
      destruct (Z.leb_spec (mm_end f) e) as [Hd'|Hd'].
      * destruct (IH (idx + 1) (acc ++ [KMm (identifier f) (offset (mm_position f) - s)]))
          as (n & -> & Hn & Hdn).
        exists (S n). rewrite <-app_assoc. split; [f_equal; lia|]. split; [lia|].
        by constructor.
      * exists 0%nat. rewrite mm_keys_ref_future, Z.add_0_r.
        { split; [done|]. split; [lia|constructor]. }
        eapply Forall_impl; [exact Hf|]. simpl. lia.
  - exists 0%nat. rewrite mm_keys_ref_future, app_nil_r, Z.add_0_r.
    { split; [done|]. split; [lia|constructor]. }
    eapply Forall_impl; [exact Hf|]. simpl. intros g Hg. unfold mm_end in Hg. lia.
Qed.

(** The index the hasher carries is right at position [s]: the items it skips
    end before [s].  [-1] stands for the last item. *)
Definition mm_idx_ok (feats : list MultiModalFeatureSpec) (idx s : Z) : Prop :=
  (0 ≤ idx ≤ zlen feats ∧ mm_done s (take (Z.to_nat idx) feats)) ∨
  (idx = -1 ∧ mm_done s (take (length feats - 1) feats)).

Lemma mm_done_mono s e l : s ≤ e → mm_done s l → mm_done e l.
Proof. intros Hse Hd. eapply Forall_impl; [exact Hd|]. simpl. lia. Qed.

Lemma mm_ordered_drop n l : mm_ordered l → mm_ordered (drop n l).
Proof.
  intros [Hs Hp]. split; [|by apply Forall_drop].
  revert n. induction Hs as [|f l Hs IH Hf]; intros n; [by rewrite drop_nil; constructor|].
  destruct n; simpl; [by constructor|]. apply IH. by apply Forall_cons in Hp as [_ ?].
Qed.

(** In an ordered list the last item ends last. *)
Lemma mm_last_end l f s : mm_ordered l → last l = Some f → mm_end f ≤ s → mm_done s l.
Proof.
  intros [Hs Hp] Hl Hf. induction Hs as [|g l Hs IH Hg]; [done|].
  apply Forall_cons in Hp as [Hpg Hp]. destruct l as [|g' l].
  { simpl in Hl. simplify_eq. by constructor. }
  change (last (g :: g' :: l)) with (last (g' :: l)) in Hl.
  assert (Hd : mm_done s (g' :: l)) by by apply IH.
  constructor; [|done]. apply Forall_cons in Hg as [Hg _]. apply Forall_cons in Hd as [Hd _].
  apply Forall_cons in Hp as [Hp _]. unfold mm_end in *. lia.
Qed.

Lemma gen_mm_from {S} (a : RequestArgs) s e idx (st : S) f :
  let feats := mm_features a in
  mm_ordered feats → s < e → last feats = Some f → s < mm_end f →
  (0 ≤ idx ≤ zlen feats ∧ mm_done s (take (Z.to_nat idx) feats)) →
  ∃ idx', mm_keys_loop s e (drop (Z.to_nat idx) feats) idx [] =
            (mm_keys_ref feats s e, idx') ∧ mm_idx_ok feats idx' e.
Proof.
  intros feats Ho Hse Hl Hf [Hi Hd].
  destruct (mm_keys_loop_spec s e (drop (Z.to_nat idx) feats) idx [])
    as (n & Hloop & Hn & Hdn); [by apply mm_ordered_drop|done|].
  exists (idx + Z.of_nat n). rewrite Hloop. split.
  - f_equal. rewrite <-(take_drop (Z.to_nat idx) feats) at 2.
    by rewrite mm_keys_ref_app, (mm_keys_ref_done (take _ _)).
  - left. rewrite length_drop in Hn. unfold zlen in *. split; [lia|].
    replace (Z.to_nat (idx + Z.of_nat n)) with (Z.to_nat idx + n)%nat by lia.
    rewrite <-take_take_drop. apply Forall_app. split; [|done].
    eapply mm_done_mono; [|done]. lia.
Qed.

Lemma gen_mm_spec {S} (a : RequestArgs) s e idx (st : S) :
  mm_ordered (mm_features a) → s < e → mm_idx_ok (mm_features a) idx s →
  wp (_gen_mm_extra_hash_keys a s e idx) st (λ r st',
    r.1 = mm_keys_ref (mm_features a) s e ∧ mm_idx_ok (mm_features a) r.2 e ∧ st' = st).
Proof.
  intros Ho Hse Hidx. unfold _gen_mm_extra_hash_keys.
  set (feats := mm_features a) in *.
  assert (Hmono : mm_idx_ok feats idx e).
  { destruct Hidx as [[? ?]|[? ?]]; [left|right]; (split; [done|]);
      (eapply mm_done_mono; [|done]; lia). }
  destruct (last feats) as [f|] eqn:Hl.
  2:{ apply last_None in Hl. rewrite Hl in *. by apply wp_ret. }
  fold (mm_end f). destruct (Z.leb_spec (mm_end f) s) as [Hf|Hf].
  { apply wp_ret. split; [|done]. simpl. rewrite mm_keys_ref_done; [done|].
    by eapply mm_last_end. }
  wp_step. destruct Hidx as [Hi|[-> Hd]].
  - rewrite (proj2 (Z.ltb_ge idx 0)) by lia. wp_steps.
    destruct (gen_mm_from (S:=S) a s e idx st f) as (idx' & Hk & Hok); [done..|].
    fold feats in Hk. by rewrite Hk.
  - assert (Hlen : 0 < zlen feats).
    { destruct feats; [done|]. rewrite zlen_cons. pose proof (zlen_nonneg feats). lia. }
    rewrite (proj2 (Z.ltb_lt (-1) 0)) by lia. wp_step.
    apply wp_assert; [apply Z.leb_le; lia|]. wp_steps.
    destruct (gen_mm_from (S:=S) a s e (zlen feats + -1) st f) as (idx' & Hk & Hok); [done..| |by fold feats in Hk; rewrite Hk].
    split; [fold feats; lia|]. fold feats. unfold zlen. by replace (Z.to_nat (Z.of_nat (length feats) + -1))
      with (length feats - 1)%nat by lia.
Qed.

(** ** The hash chain of a request *)

Section chain.
Context (sha256 : bytes → bytes).
Context (hash_function : bytes * list Z * option (list extra_key) → bytes).
Context (NONE_HASH : BlockHash).

Abbreviation hasher := (request_block_hasher sha256 hash_function NONE_HASH).

(** The extra keys of the block [s, e), declaratively. *)
Definition extra_keys_list (a : RequestArgs) (s e : Z) : list extra_key :=
  _gen_lora_extra_hash_keys a ++ mm_keys_ref (mm_features a) s e ++
  cache_salt_keys a s ++
  match prompt_embeds a with
  | None => []
  | Some t => [KBytes (sha256 (tensor_rows t s e))]
  end.
Definition extra_keys_ref (a : RequestArgs) (s e : Z) : option (list extra_key) :=
  if is_nil (extra_keys_list a s e) then None else Some (extra_keys_list a s e).

Definition block_tokens (toks : list Z) (bs : Z) (i : nat) : list Z :=
  py_slice toks (Z.of_nat i * bs) (Z.of_nat i * bs + bs).

(** The hash of block [i]: of its parent's hash, its tokens and its keys. *)
Fixpoint chain_hash (a : RequestArgs) (toks : list Z) (bs : Z) (i : nat) : BlockHash :=
  hash_block_tokens hash_function NONE_HASH
    (match i with O => None | S j => Some (chain_hash a toks bs j) end)
    (block_tokens toks bs i)
    (extra_keys_ref a (Z.of_nat i * bs) (Z.of_nat i * bs + bs)).

Definition hash_chain (a : RequestArgs) (toks : list Z) (bs : Z) (n : nat) : list BlockHash :=
  chain_hash a toks bs <$> seq 0 n.

Definition prev_hash (a : RequestArgs) (toks : list Z) (bs : Z) (i : nat) : option BlockHash :=
  match i with O => None | S j => Some (chain_hash a toks bs j) end.

Lemma chain_hash_unfold a toks bs i :
  chain_hash a toks bs i =
  hash_block_tokens hash_function NONE_HASH (prev_hash a toks bs i) (block_tokens toks bs i)
    (extra_keys_ref a (Z.of_nat i * bs) (Z.of_nat i * bs + bs)).
Proof. by destruct i. Qed.

Lemma length_hash_chain a toks bs n : length (hash_chain a toks bs n) = n.
Proof. unfold hash_chain. by rewrite length_fmap, length_seq. Qed.

Lemma lookup_hash_chain a toks bs n i :
  (i < n)%nat → hash_chain a toks bs n !! i = Some (chain_hash a toks bs i).
Proof. intros Hi. unfold hash_chain. by rewrite list_lookup_fmap, lookup_seq_lt by done. Qed.

Lemma last_hash_chain a toks bs n : last (hash_chain a toks bs n) = prev_hash a toks bs n.
Proof.
  destruct n; [done|]. unfold hash_chain.
  by rewrite seq_S, fmap_app, last_app.
Qed.

Lemma hash_chain_S a toks bs n :
  hash_chain a toks bs (S n) = hash_chain a toks bs n ++ [chain_hash a toks bs n].
Proof. unfold hash_chain. by rewrite seq_S, fmap_app. Qed.

(** The chain of the first blocks does not depend on later tokens. *)
Lemma chain_hash_app a toks toks' bs i :
  0 < bs → (Z.of_nat i + 1) * bs ≤ zlen toks →
  chain_hash a (toks ++ toks') bs i = chain_hash a toks bs i.
Proof.
  intros Hbs. induction i as [|i IH]; intros Hi; rewrite !chain_hash_unfold.
  all: assert (Hsl : ∀ j, (Z.of_nat j + 1) * bs ≤ zlen toks →
      block_tokens (toks ++ toks') bs j = block_tokens toks bs j).
  1, 3: intros j Hj; unfold block_tokens, zlen in *;
    rewrite !py_slice_nonneg by lia; rewrite drop_app_le by lia;
    rewrite take_app_le; [done|rewrite length_drop; lia].
  - rewrite Hsl by done. done.
  - rewrite Hsl by done. simpl prev_hash. rewrite IH by lia. done.
Qed.

Lemma hash_chain_app a toks toks' bs n :
  0 < bs → Z.of_nat n * bs ≤ zlen toks →
  hash_chain a (toks ++ toks') bs n = hash_chain a toks bs n.
Proof.
  intros Hbs Hn. unfold hash_chain. apply list_fmap_ext. intros j i Hj.
  apply lookup_seq in Hj as [-> Hj]. apply chain_hash_app; [done|]. simpl. nia.
Qed.

(** The memo of prompt-embedding hashes holds the hashes it stands for. *)
Definition memo_ok (r : Request) : Prop :=
  ∀ s e h, _prompt_embeds_per_block_hashes r !! (s, e) = Some h →
    ∃ t, prompt_embeds r = Some t ∧ h = sha256 (tensor_rows t s e).

(** [r'] differs from [r] in the memo only. *)
Definition memo_step (r r' : Request) : Prop :=
  (∃ m, r' = set_embeds_hashes m r) ∧ memo_ok r'.

Lemma memo_step_refl r : memo_ok r → memo_step r r.
Proof. intros. split; [|done]. exists (_prompt_embeds_per_block_hashes r). by destruct r. Qed.

Lemma memo_step_trans r1 r2 r3 : memo_step r1 r2 → memo_step r2 r3 → memo_step r1 r3.
Proof. intros [[m1 ->] _] [[m2 ->] ?]. split; [|done]. by exists m2. Qed.

Lemma embeds_keys_spec s e (r : Request) :
  memo_ok r →
  wp (_gen_prompt_embeds_extra_hash_keys sha256 s e) r (λ ks r',
    ks = match prompt_embeds r with
         | None => []
         | Some t => [KBytes (sha256 (tensor_rows t s e))]
         end ∧ memo_step r r').
Proof.
  intros Hm. unfold _gen_prompt_embeds_extra_hash_keys. wp_steps.
  destruct (prompt_embeds r) as [t|] eqn:Ht.
  2:{ apply wp_ret. split; [done|by apply memo_step_refl]. }
  destruct (_ !! (s, e)) as [h|] eqn:Hh.
  { apply wp_ret. split; [|by apply memo_step_refl].
    destruct (Hm s e h Hh) as (t' & Ht' & ->). congruence. }
  wp_steps. split; [done|]. split; [eexists; done|].
  intros s' e' h'. simpl. rewrite lookup_insert.
  case_decide; [|by apply Hm]. intros [= <-]. simplify_eq. eauto.
Qed.

Lemma generate_keys_spec s e idx (r : Request) :
  mm_ordered (mm_features r) → memo_ok r → s < e → mm_idx_ok (mm_features r) idx s →
  wp (generate_block_hash_extra_keys sha256 s e idx) r (λ k r',
    k.1 = extra_keys_ref r s e ∧ mm_idx_ok (mm_features r) k.2 e ∧ memo_step r r').
Proof.
  intros Ho Hm Hse Hi. unfold generate_block_hash_extra_keys. wp_steps.
  eapply wp_mono; [by apply (gen_mm_spec r s e idx r)|].
  intros [mm idx'] r' (Hmm & Hidx' & ->). simpl in Hmm, Hidx'. subst mm.
  wp_steps. eapply wp_mono; [by apply embeds_keys_spec|].
  intros ks r' [-> Hr']. wp_steps. by split.
Qed.

(** The hasher loop appends the chain from block [i] to the last full one. *)
Lemma hasher_loop_spec fuel bs i idx acc (r : Request) :
  0 < bs → mm_ordered (mm_features r) → memo_ok r →
  mm_idx_ok (mm_features r) idx (Z.of_nat i * bs) →
  (num_tokens r - Z.of_nat i * bs < Z.of_nat fuel) →
  Z.of_nat i * bs ≤ num_tokens r →
  acc = hash_chain r (_all_token_ids r) bs i →
  ∀ new,
  wp (hasher_loop sha256 hash_function NONE_HASH fuel bs (num_tokens r) (Z.of_nat i * bs) idx
        (prev_hash r (_all_token_ids r) bs i) new) r (λ hs r',
    ∃ more, hs = new ++ more ∧
      acc ++ more = hash_chain r (_all_token_ids r) bs (Z.to_nat (num_tokens r / bs)) ∧
      memo_step r r').
Proof.
  intros Hbs. revert i idx acc r. induction fuel as [|fuel IH];
    intros i idx acc r Ho Hm Hi Hfuel Hle -> new; [lia|].
  cbn [hasher_loop]. destruct (Z.ltb_spec (num_tokens r) (Z.of_nat i * bs + bs)) as [Hend|Hend].
  { apply wp_ret. exists []. rewrite !app_nil_r. split; [done|].
    split; [|by apply memo_step_refl].
    assert (num_tokens r / bs = Z.of_nat i) as ->; [|by rewrite Nat2Z.id].
    symmetry. apply (Z.div_unique _ _ _ (num_tokens r - Z.of_nat i * bs)); lia. }
  wp_step. eapply wp_mono; [apply generate_keys_spec; [done..|lia|done]|].
  intros [keys idx'] r' (Hk & Hi' & [[m ->] Hm']). simpl in Hk, Hi'. subst keys.
  wp_steps. cbn [_all_token_ids set_embeds_hashes].
  assert (HSi : Z.of_nat i * bs + bs = Z.of_nat (S i) * bs) by lia.
  rewrite HSi in Hi', Hend |- *.
  set (r1 := set_embeds_hashes m r).
  set (h := hash_block_tokens _ _ _ _ _).
  assert (Hh : h = chain_hash r (_all_token_ids r) bs i).
  { rewrite chain_hash_unfold. unfold h, block_tokens. by rewrite HSi. }
  rewrite Hh. eapply wp_mono.
  { apply (IH (S i) idx' (hash_chain r (_all_token_ids r) bs (S i)) r1);
      try done; change (num_tokens r1) with (num_tokens r); lia. }
  intros hs r2 (more & -> & Hmore & Hr2).
  exists (chain_hash r (_all_token_ids r) bs i :: more).
  split; [by rewrite <-app_assoc|]. split.
  - rewrite hash_chain_S, <-app_assoc in Hmore. exact Hmore.
  - eapply memo_step_trans; [|exact Hr2]. split; [by exists m|done].
Qed.

(** A request whose hashes are the chain of its first [k] blocks, with no
    unfinished multi-modal item but the last after block [k]. *)
Lemma hasher_spec bs (r : Request) k :
  0 < bs → mm_ordered (mm_features r) → memo_ok r →
  Z.of_nat k * bs ≤ num_tokens r →
  (k = 0%nat ∨ mm_done (Z.of_nat k * bs) (take (length (mm_features r) - 1) (mm_features r))) →
  block_hashes r = hash_chain r (_all_token_ids r) bs k →
  wp (hasher bs) r (λ hs r',
    block_hashes r ++ hs = hash_chain r (_all_token_ids r) bs (Z.to_nat (num_tokens r / bs)) ∧
    memo_step r r').
Proof.
  intros Hbs Ho Hm Hk Hmm Hbh. unfold request_block_hasher. wp_steps.
  assert (Hlen : zlen (block_hashes r) = Z.of_nat k)
    by (unfold zlen; by rewrite Hbh, length_hash_chain).
  rewrite Hlen. destruct (Z.ltb_spec (num_tokens r) (Z.of_nat k * bs + bs)) as [Hend|Hend].
  { apply wp_ret. rewrite app_nil_r. split; [|by apply memo_step_refl].
    assert (num_tokens r / bs = Z.of_nat k) as ->; [|by rewrite Nat2Z.id].
    symmetry. apply (Z.div_unique _ _ _ (num_tokens r - Z.of_nat k * bs)); lia. }
  replace (last (block_hashes r)) with (prev_hash r (_all_token_ids r) bs k)
    by (rewrite Hbh; symmetry; apply last_hash_chain).
  eapply wp_mono.
  { apply (hasher_loop_spec _ bs k _ (block_hashes r)); try done.
    - destruct (Z.ltb_spec 0 (Z.of_nat k * bs)); [right|left].
      + split; [done|]. destruct Hmm as [->|?]; [lia|done].
      + simpl. split; [pose proof (zlen_nonneg (mm_features r)); lia|constructor].
    - unfold num_tokens, zlen in *. lia. }
  intros hs r' (more & -> & Hmore & Hr'). by rewrite app_nil_l.
Qed.
End chain.

(** ** Properties *)

(** C16: packing a block hash with a group id is invertible for every group id
    that fits four bytes, and raises [OverflowError] for every other. *)
Theorem group_key_roundtrip (h : BlockHash) (g : Z) :
  if decide (0 ≤ g < 2 ^ 32) then
    ∃ k, make_block_hash_with_group_id h g = Ret k ∧
         get_block_hash k = h ∧ get_group_id k = g ∧ length k = (length h + 4)%nat
  else make_block_hash_with_group_id h g = Raise OverflowError.
Proof.
  case_decide as Hg.
  - exists (h ++ be_bytes 4 g). split; [by apply make_block_hash_ok|].
    split; [apply get_block_hash_pack|]. split; [by apply get_group_id_pack|].
    by rewrite length_app, length_be_bytes.
  - unfold make_block_hash_with_group_id, to_bytes_big.
    change (2 ^ (8 * Z.of_nat 4)) with (2 ^ 32).
    destruct (Z.ltb_spec g 0); [done|].
    by rewrite (proj2 (Z.leb_le _ _)) by lia.
Qed.

Section properties.
Context (sha256 : bytes → bytes).
Context (hash_function : bytes * list Z * option (list extra_key) → bytes).
Context (NONE_HASH : BlockHash).

Abbreviation hasher := (request_block_hasher sha256 hash_function NONE_HASH).
Abbreviation chain := (hash_chain sha256 hash_function NONE_HASH).

(** What the engine relies on: a request's hashes are the chain of its full
    blocks. *)
Definition hashes_current (bs : Z) (r : Request) : Prop :=
  block_hashes r = chain r (_all_token_ids r) bs (Z.to_nat (num_tokens r / bs)) ∧
  memo_ok sha256 r.

Lemma update_hashes_spec bs (r : Request) k :
  0 < bs → mm_ordered (mm_features r) → memo_ok sha256 r →
  Z.of_nat k * bs ≤ num_tokens r →
  (k = 0%nat ∨ mm_done (Z.of_nat k * bs) (take (length (mm_features r) - 1) (mm_features r))) →
  block_hashes r = chain r (_all_token_ids r) bs k →
  wp (update_block_hashes (Some (hasher bs))) r (λ _ r',
    hashes_current bs r' ∧ req_args r' = req_args r ∧
    _all_token_ids r' = _all_token_ids r ∧ _output_token_ids r' = _output_token_ids r).
Proof.
  intros Hbs Ho Hm Hk Hmm Hbh. unfold update_block_hashes. wp_step.
  eapply wp_mono; [by eapply hasher_spec|].
  intros hs r' [Hhs [[m ->] Hm']]. wp_steps. split; [split; [exact Hhs|exact Hm']|done].
Qed.

(** C15: take a request whose multi-modal inputs are ordered and do not overlap, which
    is shorter than a block or has every multi-modal input but the last end before its
    last full block does, and whose hashes are current.  Appending output tokens leaves
    its block hashes equal to the hash chain of all its full blocks, so they do not
    depend on how its tokens arrived.  The condition on [mm_features] is the one the
    hasher's shortcut [curr_mm_idx = -1] needs; without it a hash can be off the chain
    ([last_mm_input_shortcut_collision]). *)
Theorem append_output_token_ids_chain bs token_ids (r : Request) :
  0 < bs → mm_ordered (mm_features r) →
  (num_tokens r < bs ∨
   mm_done (num_tokens r / bs * bs) (take (length (mm_features r) - 1) (mm_features r))) →
  hashes_current bs r →
  wp (append_output_token_ids (Some (hasher bs)) token_ids) r (λ _ r',
    hashes_current bs r' ∧ req_args r' = req_args r ∧
    _all_token_ids r' = _all_token_ids r ++ token_ids ∧
    _output_token_ids r' = _output_token_ids r ++ token_ids).
Proof.
  intros Hbs Ho Hmm [Hbh Hm]. unfold append_output_token_ids. wp_steps.
  pose proof (zlen_nonneg (_all_token_ids r)) as Hn. fold (num_tokens r) in Hn.
  pose proof (Z.div_pos (num_tokens r) bs ltac:(lia) Hbs).
  pose proof (Z.mul_div_le (num_tokens r) bs Hbs).
  set (r1 := set_tokens _ _ r).
  assert (Hn1 : num_tokens r1 = num_tokens r + zlen token_ids) by (unfold num_tokens; apply zlen_app).
  pose proof (zlen_nonneg token_ids).
  eapply wp_mono.
  { eapply (update_hashes_spec bs r1 (Z.to_nat (num_tokens r / bs))); try done.
    - lia.
    - rewrite Z2Nat.id by done.
      destruct Hmm as [Hlt|Hd]; [left; rewrite Z.div_small by lia; done|by right].
    - simpl. rewrite Hbh. symmetry. apply hash_chain_app; [done|].
      fold (num_tokens r). lia. }
  intros [] r' (Hc & Ha & Hall & Hout). rewrite Ha, Hall, Hout. done.
Qed.

(** a request built with a block hasher has the hash chain of its prompt's
    full blocks, whatever multi-modal items the prompt contains. *)
Theorem Request_init_chain bs rid obj toks sp pp arr emb mm lora salt prio res re :
  0 < bs → mm_ordered mm → (∀ t, emb = Some t → 0 ≤ tensor_len t) →
  (pp ≠ None ∨ ∃ p, sp = Some p ∧ sp_max_tokens p ≠ None) →
  length_from_prompt_token_ids_or_embeds toks emb ≠ None →
  ∃ r, Request_init rid obj toks sp pp arr emb mm lora salt prio (Some (hasher bs)) res re = Ret r ∧
    hashes_current bs r ∧ num_tokens r = num_prompt_tokens r ∧ _output_token_ids r = [] ∧
    is_finished r = false.
Proof.
  intros Hbs Ho Hemb Hlim Hlen. unfold Request_init.
  set (limits := match pp with Some _ => _ | None => _ end).
  assert (∃ st m, limits = Ret (st, m) ∧ status_is_finished st = false) as (st & m & -> & Hst).
  { unfold limits. destruct pp as [p|]; [by eexists _, _|].
    destruct Hlim as [?|(p & -> & Hp)]; [done|]. destruct (sp_max_tokens p); [|done].
    destruct (has_structured_outputs p); by eexists _, _. }
  destruct (length_from_prompt_token_ids_or_embeds toks emb) as [n|] eqn:En; [|done].
  set (r0 := mkRequest _ _ _ _ _ _ _ _ _ _ _ _ _).
  assert (Hn : num_tokens r0 = n).
  { unfold num_tokens, r0. simpl. destruct toks as [l|].
    - unfold length_from_prompt_token_ids_or_embeds in En. simpl in En.
      destruct emb; simpl in En; [by case_match; simplify_eq|by simplify_eq].
    - unfold length_from_prompt_token_ids_or_embeds in En.
      destruct emb as [t|]; [|done]. simpl in En. simplify_eq.
      unfold zlen. rewrite length_replicate. specialize (Hemb t eq_refl). lia. }
  assert (Hw : wp (update_block_hashes (Some (hasher bs))) r0 (λ _ r',
    hashes_current bs r' ∧ req_args r' = req_args r0 ∧
    _all_token_ids r' = _all_token_ids r0 ∧ _output_token_ids r' = _output_token_ids r0)).
  { eapply (update_hashes_spec bs r0 0); try done; [|by left].
    apply zlen_nonneg. }
  assert (Hs0 : ∀ r', (update_block_hashes (Some (hasher bs)) r0).2 = r' → status r' = st).
  { intros r' <-. unfold update_block_hashes, mbind, M_bind.
    assert (Hh := hasher_spec sha256 hash_function NONE_HASH bs r0 0 Hbs Ho).
    unfold wp in Hh. destruct (hasher bs r0) as [[hs|e] r1]; simpl.
    - destruct Hh as [_ [[m1 ->] _]]; [done|apply zlen_nonneg|by left|done|]. done.
    - destruct Hh; [done|apply zlen_nonneg|by left|done]. }
  apply wp_elim in Hw as ([] & r' & Hr' & Hc & Ha & Hall & Hout). rewrite Hr' in *.
  exists r'. split; [done|]. split; [done|]. unfold is_finished.
  rewrite (Hs0 r' eq_refl), Ha. unfold num_tokens in *. by rewrite Hall, Hout.
Qed.

(** Equal hashes at position [i] of two chains: everything hashed into them is
    equal. *)
Lemma chain_hash_inj a1 a2 t1 t2 bs i :
  (∀ x y, hash_function x = hash_function y → x = y) →
  (∀ x, hash_function x ≠ NONE_HASH ∧ hash_function x ≠ []) →
  chain_hash sha256 hash_function NONE_HASH a1 t1 bs i =
  chain_hash sha256 hash_function NONE_HASH a2 t2 bs i →
  ∀ j, (j ≤ i)%nat →
    block_tokens t1 bs j = block_tokens t2 bs j ∧
    extra_keys_ref sha256 a1 (Z.of_nat j * bs) (Z.of_nat j * bs + bs) =
    extra_keys_ref sha256 a2 (Z.of_nat j * bs) (Z.of_nat j * bs + bs).
Proof.
  intros Hinj Hne.
  assert (Hsome : ∀ a t k toks keys,
    hash_block_tokens hash_function NONE_HASH
      (Some (chain_hash sha256 hash_function NONE_HASH a t bs k)) toks keys =
    hash_function (chain_hash sha256 hash_function NONE_HASH a t bs k, toks, keys)).
  { intros a t k toks keys. rewrite chain_hash_unfold.
    unfold hash_block_tokens at 2 3.
    destruct (hash_function _) eqn:Eh; [|done].
    by apply (proj2 (Hne _)) in Eh. }
  induction i as [|i IH]; rewrite !chain_hash_unfold; simpl prev_hash; intros E j Hj.
  { assert (j = 0%nat) as -> by lia. apply Hinj in E. by simplify_eq. }
  rewrite !Hsome in E. apply Hinj in E.
  destruct (decide (j = S i)) as [->|Hne']; [by simplify_eq|].
  apply IH; [by simplify_eq|lia].
Qed.

Lemma take_blocks (t1 t2 : list Z) bs i :
  0 < bs → (∀ j, (j ≤ i)%nat → block_tokens t1 bs j = block_tokens t2 bs j) →
  take (Z.to_nat ((Z.of_nat i + 1) * bs)) t1 = take (Z.to_nat ((Z.of_nat i + 1) * bs)) t2.
Proof.
  intros Hbs. assert (Hsplit : ∀ t k, take (Z.to_nat ((Z.of_nat k + 1) * bs)) t =
    take (Z.to_nat (Z.of_nat k * bs)) t ++ block_tokens t bs k).
  { intros t k. unfold block_tokens. rewrite py_slice_nonneg by lia.
    replace (Z.to_nat ((Z.of_nat k + 1) * bs)) with
      (Z.to_nat (Z.of_nat k * bs) + (Z.to_nat (Z.of_nat k * bs + bs) - Z.to_nat (Z.of_nat k * bs)))%nat by lia.
    by rewrite take_take_drop. }
  induction i as [|i IH]; intros H; rewrite !Hsplit.
  - rewrite H by lia. done.
  - rewrite (H (S i)) by lia. f_equal.
    replace (Z.of_nat (S i) * bs) with ((Z.of_nat i + 1) * bs) by lia. apply IH. auto with lia.
Qed.

(** C6: two requests are hashed from scratch (they carry no block hashes yet); the
    multi-modal inputs of each are ordered by position and do not overlap, and its memo
    of embedding hashes holds hashes of its own embeddings.  With a collision-free hash
    function, if the hasher gives both the same hash for block [i], then they have the
    same first [(i + 1) * bs] tokens and the same extra keys in each of these blocks:
    between such requests a prefix-cache hit never reuses a block of a different
    prefix.  Hashes that are extended later are those of C15, under its condition. *)
Theorem equal_hash_equal_prefix bs (r1 r2 r1' r2' : Request) hs1 hs2 i h :
  (∀ x y, hash_function x = hash_function y → x = y) →
  (∀ x, hash_function x ≠ NONE_HASH ∧ hash_function x ≠ []) →
  0 < bs →
  mm_ordered (mm_features r1) → block_hashes r1 = [] → memo_ok sha256 r1 →
  mm_ordered (mm_features r2) → block_hashes r2 = [] → memo_ok sha256 r2 →
  hasher bs r1 = (Ret hs1, r1') → hasher bs r2 = (Ret hs2, r2') →
  hs1 !! i = Some h → hs2 !! i = Some h →
  take (Z.to_nat ((Z.of_nat i + 1) * bs)) (_all_token_ids r1) =
  take (Z.to_nat ((Z.of_nat i + 1) * bs)) (_all_token_ids r2) ∧
  ∀ j, (j ≤ i)%nat →
    extra_keys_ref sha256 r1 (Z.of_nat j * bs) (Z.of_nat j * bs + bs) =
    extra_keys_ref sha256 r2 (Z.of_nat j * bs) (Z.of_nat j * bs + bs).
Proof.
  intros Hinj Hne Hbs Ho1 Hb1 Hm1 Ho2 Hb2 Hm2 Hr1 Hr2 Hh1 Hh2.
  assert (Hchain : ∀ (r r' : Request) hs, mm_ordered (mm_features r) → block_hashes r = [] →
      memo_ok sha256 r → hasher bs r = (Ret hs, r') → hs !! i = Some h →
      h = chain_hash sha256 hash_function NONE_HASH r (_all_token_ids r) bs i).
  { intros r r' hs Ho Hb Hm Hr Hh.
    assert (Hw := hasher_spec sha256 hash_function NONE_HASH bs r 0 Hbs Ho Hm
      (zlen_nonneg _) (or_introl eq_refl) Hb).
    unfold wp in Hw. rewrite Hr, Hb in Hw. destruct Hw as [Hw _]. simpl in Hw. subst hs.
    assert (i < Z.to_nat (num_tokens r / bs))%nat as Hi.
    { apply lookup_lt_Some in Hh. by rewrite length_hash_chain in Hh. }
    rewrite lookup_hash_chain in Hh by done. congruence. }
  assert (E := Hchain _ _ _ Ho1 Hb1 Hm1 Hr1 Hh1).
  rewrite (Hchain _ _ _ Ho2 Hb2 Hm2 Hr2 Hh2) in E. symmetry in E.
  assert (Hall := chain_hash_inj _ _ _ _ _ _ Hinj Hne E).
  split; [apply take_blocks; [done|]|]; intros j Hj; by apply Hall.
Qed.
End properties.

(** ** Concrete instances *)

(** A concrete collision-free hash function. *)
Section concrete_hash.
#[local] Instance extra_key_eq_dec : EqDecision extra_key.
Proof. solve_decision. Defined.
#[local] Instance extra_key_countable : Countable extra_key.
Proof.
  refine (inj_countable'
    (λ k, match k with
          | KStr s => inl s
          | KMm i o => inr (inl (i, o))
          | KBytes b => inr (inr b)
          end)
    (λ x, match x with
          | inl s => KStr s
          | inr (inl (i, o)) => KMm i o
          | inr (inr b) => KBytes b
          end) _).
  by intros [].
Defined.

Fixpoint positive_bytes (p : positive) : bytes :=
  match p with
  | xH => []
  | xO p => x00 :: positive_bytes p
  | xI p => x01 :: positive_bytes p
  end.

Lemma positive_bytes_inj p q : positive_bytes p = positive_bytes q → p = q.
Proof.
  revert q. induction p; intros [] E; simpl in E; simplify_eq; try done; f_equal; eauto.
Qed.

Definition toy_hash (x : bytes * list Z * option (list extra_key)) : bytes :=
  x01 :: positive_bytes (encode x).
Definition toy_seed : bytes := [x00].

Lemma toy_hash_inj x y : toy_hash x = toy_hash y → x = y.
Proof.
  unfold toy_hash. intros [= E]. apply positive_bytes_inj in E.
  by apply encode_inj in E.
Qed.

Lemma toy_hash_ne x : toy_hash x ≠ toy_seed ∧ toy_hash x ≠ [].
Proof. done. Qed.
End concrete_hash.

Definition toy_sampling : SamplingParams := mkSampling (Some 16) 0 None [] None false None [].
Definition toy_args (mm : list MultiModalFeatureSpec) (lora : option LoRARequest)
    (salt : option string) : RequestArgs :=
  mkArgs "req"%string 0 0 0 (Some toy_sampling) None None None lora salt mm 16 0 [] true false false.
Definition toy_request (mm : list MultiModalFeatureSpec) (lora : option LoRARequest)
    (salt : option string) (toks : list Z) : Request :=
  mkRequest (toy_args mm lora salt) WAITING None [] toks [] 0 0 0 0 0 [] ∅.

Lemma memo_ok_empty sha (r : Request) :
  _prompt_embeds_per_block_hashes r = ∅ → memo_ok sha r.
Proof. intros E s e h. by rewrite E, lookup_empty. Qed.

(** Two requests of different lengths that part after five tokens, in their third
    block. *)
Lemma equal_hash_equal_prefix_witness :
  let r1 := toy_request [] None (Some "tenant"%string) [1; 2; 3; 4; 5; 6] in
  let r2 := toy_request [] None (Some "tenant"%string) [1; 2; 3; 4; 5; 9; 7] in
  _all_token_ids r1 ≠ _all_token_ids r2 ∧
  take 4 (_all_token_ids r1) = take 4 (_all_token_ids r2) ∧
  ∀ j, (j ≤ 1)%nat →
    extra_keys_ref id r1 (Z.of_nat j * 2) (Z.of_nat j * 2 + 2) =
    extra_keys_ref id r2 (Z.of_nat j * 2) (Z.of_nat j * 2 + 2).
Proof.
  intros r1 r2. split; [done|].
  refine (equal_hash_equal_prefix id toy_hash toy_seed 2 r1 r2
    (request_block_hasher id toy_hash toy_seed 2 r1).2
    (request_block_hasher id toy_hash toy_seed 2 r2).2
    (hash_chain id toy_hash toy_seed r1 [1; 2; 3; 4; 5; 6] 2 3)
    (hash_chain id toy_hash toy_seed r2 [1; 2; 3; 4; 5; 9; 7] 2 3) 1
    (chain_hash id toy_hash toy_seed r1 [1; 2; 3; 4; 5; 6] 2 1)
    toy_hash_inj toy_hash_ne _ _ _ _ _ _ _ _ _ _ _).
  all: try first [lia | reflexivity | by split; constructor | by apply memo_ok_empty].
Defined.

Lemma Request_init_chain_witness :
  ∃ r, Request_init "a" 0 (Some [1; 2; 3; 4; 5]) (Some toy_sampling) None 0 None [] None None 0
         (Some (request_block_hasher id toy_hash toy_seed 2)) false None = Ret r ∧
    hashes_current id toy_hash toy_seed 2 r ∧ num_tokens r = num_prompt_tokens r ∧
    _output_token_ids r = [] ∧ is_finished r = false.
Proof.
  apply Request_init_chain.
  - lia.
  - by split; constructor.
  - done.
  - right. by exists toy_sampling.
  - done.
Defined.

Lemma append_output_token_ids_chain_witness :
  let r := toy_request [] None None [1] in
  wp (append_output_token_ids (Some (request_block_hasher id toy_hash toy_seed 2)) [2; 3]) r
    (λ _ r', hashes_current id toy_hash toy_seed 2 r' ∧ req_args r' = req_args r ∧
      _all_token_ids r' = _all_token_ids r ++ [2; 3] ∧
      _output_token_ids r' = _output_token_ids r ++ [2; 3]).
Proof.
  intros r. apply append_output_token_ids_chain.
  - lia.
  - by split; constructor.
  - by left.
  - split; [done|]. by apply memo_ok_empty.
Defined.

(** ** What the extra keys do not distinguish *)

(** the extra keys are not tagged with their origin: a request with LoRA
    adapter [s] and no salt and a base-model request with cache salt [s] have
    the same hash for their first block, whatever the hash function. *)
Theorem lora_name_salt_collision sha256 hash_function NONE_HASH (s : string) toks bs lid :
  s ≠ EmptyString → zlen toks = bs → 0 < bs →
  let with_lora := toy_request [] (Some (mkLoRA s lid)) None toks in
  let with_salt := toy_request [] None (Some s) toks in
  ∃ h, (request_block_hasher sha256 hash_function NONE_HASH bs with_lora).1 = Ret [h] ∧
       (request_block_hasher sha256 hash_function NONE_HASH bs with_salt).1 = Ret [h].
Proof.
  intros Hs Hlen Hbs w1 w2.
  assert (Hone : ∀ r : Request, _all_token_ids r = toks → mm_features r = [] →
     block_hashes r = [] → _prompt_embeds_per_block_hashes r = ∅ →
     (request_block_hasher sha256 hash_function NONE_HASH bs r).1 =
       Ret [chain_hash sha256 hash_function NONE_HASH r toks bs 0]).
  { intros r Ht Hm Hb Hme.
    assert (Hw := hasher_spec sha256 hash_function NONE_HASH bs r 0 Hbs).
    rewrite Hm, Ht, Hb in Hw. unfold num_tokens in Hw. rewrite Ht, Hlen, Z.div_same in Hw by lia.
    specialize (Hw ltac:(by split; constructor) ltac:(by apply memo_ok_empty) ltac:(lia)
      ltac:(by left) eq_refl).
    apply wp_elim in Hw as (hs & r' & -> & Hhs & _). simpl in Hhs. by subst hs. }
  eexists. split; [by apply Hone|]. rewrite (Hone w2) by done.
  do 2 f_equal. destruct s as [|c s]; done.
Qed.

Lemma lora_name_salt_collision_witness :
  ∃ h, (request_block_hasher id toy_hash toy_seed 2
          (toy_request [] (Some (mkLoRA "x" 1)) None [7; 8])).1 = Ret [h] ∧
       (request_block_hasher id toy_hash toy_seed 2
          (toy_request [] None (Some "x"%string) [7; 8])).1 = Ret [h].
Proof. by apply (lora_name_salt_collision id toy_hash toy_seed "x" [7; 8] 2 1). Defined.

Definition image (name : string) (off len : Z) : MultiModalFeatureSpec :=
  mkFeature name (mkRange off len None).

(** A prompt of six tokens with an image at 4 and one at 5, blocks of four
    tokens, then two generated tokens that complete the second block. *)
Definition two_images (first : string) : Request :=
  toy_request [image first 4 1; image "b" 5 1] None None [1; 2; 3; 4; 0; 0].

Definition hashes_after_decode sha256 hash_function NONE_HASH (r : Request) : list BlockHash :=
  block_hashes
    (append_output_token_ids (Some (request_block_hasher sha256 hash_function NONE_HASH 4)) [9; 9]
      (update_block_hashes (Some (request_block_hasher sha256 hash_function NONE_HASH 4)) r).2).2.

(** the hasher starts at the last multi-modal item when it continues after
    the first block ([curr_mm_idx = -1]), so an earlier item of a block that
    generated tokens complete is left out of that block's extra keys: two
    requests with different images get the same hash for the block that contains
    both images, for every hash function. *)
Theorem last_mm_input_shortcut_collision sha256 hash_function NONE_HASH :
  mm_ordered (mm_features (two_images "cat")) ∧
  mm_ordered (mm_features (two_images "dog")) ∧
  mm_keys_ref (mm_features (two_images "cat")) 4 8 ≠ mm_keys_ref (mm_features (two_images "dog")) 4 8 ∧
  length (hashes_after_decode sha256 hash_function NONE_HASH (two_images "cat")) = 2%nat ∧
  hashes_after_decode sha256 hash_function NONE_HASH (two_images "cat") =
  hashes_after_decode sha256 hash_function NONE_HASH (two_images "dog").
Proof.
  assert (Ho : ∀ s, mm_ordered (mm_features (two_images s))).
  { intros s. split; repeat constructor; unfold mm_end; simpl; lia. }
  split; [apply Ho|]. split; [apply Ho|]. split; [done|]. split; reflexivity.
Qed.

(** ** BlockHashListWithBlockSize *)

(** the view at a coarser granularity has one entry per [target] tokens,
    entry [i] is the concatenation of the hashes it covers, and, the hashes having
    one length, two entries are equal only if all hashes they cover are. *)
Theorem hash_view_spec (hs : list BlockHash) hash_bs k :
  0 < hash_bs → 0 < k →
  ∃ v, BlockHashListWithBlockSize_init hs hash_bs (k * hash_bs) = Ret v ∧
    bl_len v = zlen hs / k ∧ zlen (bl_iter v) = bl_len v ∧
    (∀ i : nat, Z.of_nat i < bl_len v →
      bl_iter v !! i = Some (concat (take (Z.to_nat k) (drop (i * Z.to_nat k) hs)))) ∧
    ∀ L hs' v', (0 < L)%nat → Forall (λ h, length h = L) hs → Forall (λ h, length h = L) hs' →
      BlockHashListWithBlockSize_init hs' hash_bs (k * hash_bs) = Ret v' →
      ∀ i : nat, Z.of_nat i < bl_len v → Z.of_nat i < bl_len v' →
        bl_iter v !! i = bl_iter v' !! i →
        take (Z.to_nat k) (drop (i * Z.to_nat k) hs) = take (Z.to_nat k) (drop (i * Z.to_nat k) hs').
Proof.
  intros Hbs Hk.
  assert (Hinit : ∀ l, BlockHashListWithBlockSize_init l hash_bs (k * hash_bs) = Ret (mkHashList l k)).
  { intros l. unfold BlockHashListWithBlockSize_init. rewrite Z.mod_mul, Z.div_mul by lia. done. }
  assert (Hget : ∀ l (i : nat), Z.of_nat i < bl_len (mkHashList l k) →
      bl_iter (mkHashList l k) !! i = Some (concat (take (Z.to_nat k) (drop (i * Z.to_nat k) l)))).
  { intros l i Hi. unfold bl_iter. rewrite list_lookup_fmap, lookup_seq_lt by lia. simpl.
    unfold bl_get_value_at. cbn [scale_factor bl_block_hashes].
    rewrite py_slice_nonneg by lia. do 3 f_equal; [lia|]. f_equal. lia. }
  exists (mkHashList hs k). split; [done|]. split; [done|]. split; [|split; [by apply Hget|]].
  { unfold bl_iter, zlen at 1. rewrite length_fmap, length_seq.
    unfold bl_len. cbn [bl_block_hashes scale_factor].
    pose proof (Z.div_pos (zlen hs) k (zlen_nonneg hs) Hk). lia. }
  intros L hs' v' HL Hf Hf' Hv' i Hi Hi' E. rewrite Hinit in Hv'. simplify_eq.
  rewrite !Hget in E by done. simplify_eq.
  assert (Hc : ∀ l l' : list bytes, Forall (λ h, length h = L) l → Forall (λ h, length h = L) l' →
      concat l = concat l' → l = l').
  { clear -HL. induction l as [|x l IH]; intros [|y l'] Hl Hl' E; try done; simpl in E.
    - apply Forall_cons in Hl' as [Hy _]. symmetry in E. apply app_eq_nil in E as [-> _]. simpl in *; lia.
    - apply Forall_cons in Hl as [Hx _]. apply app_eq_nil in E as [-> _]. simpl in *; lia.
    - apply Forall_cons in Hl as [Hx Hl]. apply Forall_cons in Hl' as [Hy Hl'].
      apply app_inj_1 in E as [-> E]; [|congruence]. f_equal. by apply IH. }
  apply Hc; [by apply Forall_take, Forall_drop..|done].
Qed.

Lemma hash_view_spec_witness :
  ∃ v, BlockHashListWithBlockSize_init [[x01]; [x02]; [x03]; [x04]; [x05]] 16 (2 * 16) = Ret v ∧
    bl_len v = zlen [[x01]; [x02]; [x03]; [x04]; [x05]] / 2 ∧ zlen (bl_iter v) = bl_len v.
Proof.
  destruct (hash_view_spec [[x01]; [x02]; [x03]; [x04]; [x05]] 16 2) as (v & H1 & H2 & H3 & _);
    [lia|lia|]. by exists v.
Defined.
