(* ===== verification/BlockPool.v ===== *)
(** * The block pool

    [vllm/v1/core/block_pool.py]: the prefix-cache map [BlockHashToBlockMap],
    the partitioned free queue and [BlockPool].  The pool owns the heap of block
    objects; requests are passed by value and handed back where the code memoises
    hashes in them. *)

From Stdlib Require Import Strings.Byte.
From S2P Require Import Prelude.
From S2P Require Import FreeQueue.
From S2P Require Import Request.
From S2P Require Import BlockHash.
Local Open Scope Z_scope.

(** ** BlockHashToBlockMap *)

(** Python dicts keyed by block id, in insertion order. *)
Abbreviation block_dict := (list (Z * loc)).

(** [d[k] = v] *)
Fixpoint dict_set (k : Z) (v : loc) (d : block_dict) : block_dict :=
  match d with
  | [] => [(k, v)]
  | (k', v') :: d' => if k =? k' then (k, v) :: d' else (k', v') :: dict_set k v d'
  end.

(** [d.pop(k, None)] *)
Fixpoint dict_pop (k : Z) (d : block_dict) : option loc * block_dict :=
  match d with
  | [] => (None, [])
  | (k', v') :: d' =>
      if k =? k' then (Some v', d')
      else let '(r, d'') := dict_pop k d' in (r, (k', v') :: d'')
  end.

Inductive cached_entry : Type :=
  | One (b : loc)
  | Many (d : block_dict).

Abbreviation BlockHashToBlockMap := (gmap bytes cached_entry).

Module HashMap.

Definition get_one_block (cache : BlockHashToBlockMap) (key : BlockHashWithGroupId)
    : outcome (option loc) :=
  match cache !! key with
  | None => Ret None
  | Some (One b) => Ret (Some b)
  | Some (Many []) => Raise StopIteration
  | Some (Many ((_, b) :: _)) => Ret (Some b)
  end.

Definition insert (h : heap) (key : BlockHashWithGroupId) (block : loc)
    (cache : BlockHashToBlockMap) : BlockHashToBlockMap :=
  match cache !! key with
  | None => <[key := One block]> cache
  | Some (One b) =>
      <[key := Many (dict_set (block_id (deref h block)) block
                       [(block_id (deref h b), b)])]> cache
  | Some (Many d) => <[key := Many (dict_set (block_id (deref h block)) block d)]> cache
  end.

Definition pop (h : heap) (key : BlockHashWithGroupId) (bid : Z)
    (cache : BlockHashToBlockMap) : option loc * BlockHashToBlockMap :=
  match cache !! key with
  | None => (None, cache)
  | Some (One b) =>
      if block_id (deref h b) =? bid then (Some b, delete key cache)
      else (None, <[key := One b]> (delete key cache))
  | Some (Many d) =>
      let '(r, d') := dict_pop bid d in
      (r, if 0 <? zlen d' then <[key := Many d']> (delete key cache) else delete key cache)
  end.

End HashMap.

(** ** Free queues: one, or one per partition *)

Inductive block_queue : Type :=
  | Single (q : FreeKVCacheBlockQueue)
  | Partitioned (state_blocks : Z) (state_group_ids : list Z)
      (state history : FreeKVCacheBlockQueue).

(** ** Events and metrics *)

Inductive KVCacheEvent : Type :=
  | BlockStored (ev_block_hashes : list ExternalBlockHash)
      (parent_block_hash : option ExternalBlockHash) (token_ids : list Z)
      (block_size : Z) (lora_id : option Z) (ev_lora_name : option string)
      (extra_keys : list (option (list extra_key))) (group_idx : Z)
  | BlockRemoved (ev_block_hashes : list ExternalBlockHash) (group_idx : Z)
  | AllBlocksCleared.

(** Calls of the metrics collector, recorded in order. *)
Inductive metrics_call : Type :=
  | on_block_allocated (b : loc)
  | on_block_accessed (b : loc)
  | on_block_evicted (b : loc)
  | metrics_reset.

(** ** The pool *)

Record BlockPool : Type := mkPool {
  num_gpu_blocks : Z;
  enable_caching : bool;
  hash_block_size : Z;
  enable_kv_cache_events : bool;
  blocks : list loc;
  null_block : loc;
  pool_heap : heap;
  free_block_queue : block_queue;
  cached_block_hash_to_block : BlockHashToBlockMap;
  kv_event_queue : list KVCacheEvent;
  metrics_collector : option (list metrics_call);
}.

Definition set_heap (h : heap) (p : BlockPool) : BlockPool :=
  mkPool (num_gpu_blocks p) (enable_caching p) (hash_block_size p)
    (enable_kv_cache_events p) (blocks p) (null_block p) h (free_block_queue p)
    (cached_block_hash_to_block p) (kv_event_queue p) (metrics_collector p).
Definition set_queue (q : block_queue) (p : BlockPool) : BlockPool :=
  mkPool (num_gpu_blocks p) (enable_caching p) (hash_block_size p)
    (enable_kv_cache_events p) (blocks p) (null_block p) (pool_heap p) q
    (cached_block_hash_to_block p) (kv_event_queue p) (metrics_collector p).
Definition set_cache (c : BlockHashToBlockMap) (p : BlockPool) : BlockPool :=
  mkPool (num_gpu_blocks p) (enable_caching p) (hash_block_size p)
    (enable_kv_cache_events p) (blocks p) (null_block p) (pool_heap p)
    (free_block_queue p) c (kv_event_queue p) (metrics_collector p).
Definition set_events (e : list KVCacheEvent) (p : BlockPool) : BlockPool :=
  mkPool (num_gpu_blocks p) (enable_caching p) (hash_block_size p)
    (enable_kv_cache_events p) (blocks p) (null_block p) (pool_heap p)
    (free_block_queue p) (cached_block_hash_to_block p) e (metrics_collector p).
Definition set_metrics (m : option (list metrics_call)) (p : BlockPool) : BlockPool :=
  mkPool (num_gpu_blocks p) (enable_caching p) (hash_block_size p)
    (enable_kv_cache_events p) (blocks p) (null_block p) (pool_heap p)
    (free_block_queue p) (cached_block_hash_to_block p) (kv_event_queue p) m.

Definition pool_block (p : BlockPool) (b : loc) : KVCacheBlock := deref (pool_heap p) b.

(** Attribute writes on a block. *)
Definition wr_block (b : loc) (f : KVCacheBlock → KVCacheBlock) : M BlockPool unit :=
  modify (λ p, set_heap (update b f (pool_heap p)) p).

(** [if self.metrics_collector: self.metrics_collector.<call>] *)
Definition metric (c : metrics_call) : M BlockPool unit :=
  modify (λ p, set_metrics ((λ l, l ++ [c]) <$> metrics_collector p) p).
(** [if self.enable_kv_cache_events: self.kv_event_queue.append(e)] *)
Definition emit (e : KVCacheEvent) : M BlockPool unit :=
  modify (λ p, if enable_kv_cache_events p then set_events (kv_event_queue p ++ [e]) p else p).

(** Calls of the methods of a free queue stored in the pool. *)
Definition on_single {A} (q : FreeKVCacheBlockQueue) (m : M qstate A) : M BlockPool A :=
  zoom (λ p, QState (pool_heap p) q)
    (λ s p, set_queue (Single (q_self s)) (set_heap (q_heap s) p)) m.
Definition on_state {A} n g (qs qh : FreeKVCacheBlockQueue) (m : M qstate A) : M BlockPool A :=
  zoom (λ p, QState (pool_heap p) qs)
    (λ s p, set_queue (Partitioned n g (q_self s) qh) (set_heap (q_heap s) p)) m.
Definition on_history {A} n g (qs qh : FreeKVCacheBlockQueue) (m : M qstate A) : M BlockPool A :=
  zoom (λ p, QState (pool_heap p) qh)
    (λ s p, set_queue (Partitioned n g qs (q_self s)) (set_heap (q_heap s) p)) m.

Module PartitionedQueue.

(** [_PartitionedBlockQueue.__init__] *)
Definition init (blocks : list loc) (state_blocks : Z) (state_group_ids : list Z)
    : M BlockPool unit :=
  modify (λ p,
    let s := FreeQueue.init (py_slice blocks 1 state_blocks) (pool_heap p) in
    let t := FreeQueue.init (py_from blocks state_blocks) (q_heap s) in
    set_queue (Partitioned state_blocks state_group_ids (q_self s) (q_self t))
      (set_heap (q_heap t) p)).

Definition num_free_blocks_ (state history : FreeKVCacheBlockQueue) : Z :=
  num_free_blocks state + num_free_blocks history.

Definition in_state (groups : list Z) (group_id : Z) : bool := bool_decide (group_id ∈ groups).

(** [for_group(group_id).popleft_n(n)] *)
Definition popleft_n n_state groups (qs qh : FreeKVCacheBlockQueue) (n : Z)
    (group_id : option Z) : M BlockPool (list loc) :=
  match group_id with
  | None => raise ValueError
  | Some g =>
      if in_state groups g then on_state n_state groups qs qh (FreeQueue.popleft_n n)
      else on_history n_state groups qs qh (FreeQueue.popleft_n n)
  end.

Definition remove n_state groups (qs qh : FreeKVCacheBlockQueue) (block : loc)
    : M BlockPool unit :=
  p ← get;
  if block_id (pool_block p block) <? n_state
  then on_state n_state groups qs qh (FreeQueue.remove block)
  else on_history n_state groups qs qh (FreeQueue.remove block).

Definition in_state_range (p : BlockPool) (n_state : Z) (b : loc) : bool :=
  block_id (pool_block p b) <? n_state.

Definition append_n n_state groups (qs qh : FreeKVCacheBlockQueue) (bs : list loc)
    : M BlockPool unit :=
  p ← get;
  on_state n_state groups qs qh
    (FreeQueue.append_n (filter (λ b, in_state_range p n_state b = true) bs)) ;;
  p' ← get;
  match free_block_queue p' with
  | Partitioned _ _ qs qh =>
      on_history n_state groups qs qh
        (FreeQueue.append_n (filter (λ b, in_state_range p n_state b = false) bs))
  | Single _ => raise AttributeError
  end.

Definition prepend_n n_state groups (qs qh : FreeKVCacheBlockQueue) (bs : list loc)
    : M BlockPool unit :=
  p ← get;
  on_state n_state groups qs qh
    (FreeQueue.prepend_n (filter (λ b, in_state_range p n_state b = true) bs)) ;;
  p' ← get;
  match free_block_queue p' with
  | Partitioned _ _ qs qh =>
      on_history n_state groups qs qh
        (FreeQueue.prepend_n (filter (λ b, in_state_range p n_state b = false) bs))
  | Single _ => raise AttributeError
  end.

(** [get_all_free_blocks] *)
Definition get_all_free_blocks n_state groups (qs qh : FreeKVCacheBlockQueue) (fuel : nat)
    : M BlockPool (list loc) :=
  a ← on_state n_state groups qs qh (FreeQueue.get_all_free_blocks fuel);
  b ← on_history n_state groups qs qh (FreeQueue.get_all_free_blocks fuel);
  mret (a ++ b).

End PartitionedQueue.

(** The methods of [self.free_block_queue], whichever class it is. *)
Definition fq_popleft_n (n : Z) (group_id : option Z) : M BlockPool (list loc) :=
  p ← get;
  match free_block_queue p with
  | Single q => on_single q (FreeQueue.popleft_n n)
  | Partitioned ns g qs qh => PartitionedQueue.popleft_n ns g qs qh n group_id
  end.
Definition fq_remove (b : loc) : M BlockPool unit :=
  p ← get;
  match free_block_queue p with
  | Single q => on_single q (FreeQueue.remove b)
  | Partitioned ns g qs qh => PartitionedQueue.remove ns g qs qh b
  end.
Definition fq_append_n (bs : list loc) : M BlockPool unit :=
  p ← get;
  match free_block_queue p with
  | Single q => on_single q (FreeQueue.append_n bs)
  | Partitioned ns g qs qh => PartitionedQueue.append_n ns g qs qh bs
  end.
Definition fq_prepend_n (bs : list loc) : M BlockPool unit :=
  p ← get;
  match free_block_queue p with
  | Single q => on_single q (FreeQueue.prepend_n bs)
  | Partitioned ns g qs qh => PartitionedQueue.prepend_n ns g qs qh bs
  end.

(** ** The operations of BlockPool *)
Module Pool.

(** [KVCacheBlock(idx) for idx in range(n)]: block [i] at location [i]. *)
Definition alloc_blocks (n : nat) : list loc * heap :=
  (seq 0 n,
   Heap (list_to_map ((λ i, (i, new_block (Z.of_nat i))) <$> seq 0 n)) n).

Definition init (num_gpu_blocks : Z) (enable_caching : bool) (hash_block_size : Z)
    (enable_kv_cache_events : bool) (collector : bool)
    (device_state_blocks : Z) (device_state_group_ids : list Z) : outcome BlockPool :=
  if negb (0 <? num_gpu_blocks) then Raise AssertionError
  else
    let '(bs, h) := alloc_blocks (Z.to_nat num_gpu_blocks) in
    match FreeQueue.popleft (FreeQueue.init bs h) with
    | (Raise e, _) => Raise e
    | (Ret null, s) =>
        let h := update null (set_null true) (q_heap s) in
        let p := mkPool num_gpu_blocks enable_caching hash_block_size enable_kv_cache_events
          bs null h (Single (q_self s)) ∅ [] (if collector then Some [] else None) in
        if negb (device_state_blocks =? 0) then
          if negb ((1 <? device_state_blocks) && (device_state_blocks <? num_gpu_blocks))
          then Raise ValueError
          else
            match PartitionedQueue.init bs device_state_blocks device_state_group_ids p with
            | (Ret _, p) => Ret p
            | (Raise e, _) => Raise e
            end
        else Ret p
    end.

Definition get_num_free_blocks (p : BlockPool) (kv_cache_group_id : option Z) : Z :=
  match free_block_queue p, kv_cache_group_id with
  | Partitioned _ groups qs qh, Some g =>
      if PartitionedQueue.in_state groups g then num_free_blocks qs else num_free_blocks qh
  | Partitioned _ _ qs qh, None => PartitionedQueue.num_free_blocks_ qs qh
  | Single q, _ => num_free_blocks q
  end.

(** The loop of [get_cached_block]. *)
Fixpoint get_cached_loop (p : BlockPool) (block_hash : BlockHash) (group_ids : list Z)
    (cached_blocks : list loc) : outcome (option (list loc)) :=
  match group_ids with
  | [] => Ret (Some cached_blocks)
  | g :: rest =>
      match make_block_hash_with_group_id block_hash g with
      | Raise e => Raise e
      | Ret key =>
          match HashMap.get_one_block (cached_block_hash_to_block p) key with
          | Raise e => Raise e
          | Ret None => Ret None
          | Ret (Some b) => get_cached_loop p block_hash rest (cached_blocks ++ [b])
          end
      end
  end.

Definition get_cached_block (block_hash : BlockHash) (kv_cache_group_ids : list Z)
    : M BlockPool (option (list loc)) :=
  λ p, (get_cached_loop p block_hash kv_cache_group_ids [], p).

(** [_maybe_evict_cached_block]; [use_int] is the environment's choice of
    integer hashes in events. *)
Definition _maybe_evict_cached_block (use_int : bool) (block : loc) : M BlockPool bool :=
  metric (on_block_evicted block) ;;
  p ← get;
  match _block_hash (pool_block p block) with
  | None => mret false
  | Some block_hash =>
      let '(r, cache) := HashMap.pop (pool_heap p) block_hash
        (block_id (pool_block p block)) (cached_block_hash_to_block p) in
      modify (set_cache cache) ;;
      match r with
      | None => mret false
      | Some _ =>
          wr_block block reset_hash ;;
          emit (BlockRemoved [maybe_convert_block_hash use_int (get_block_hash block_hash)]
                  (get_group_id block_hash)) ;;
          mret true
      end
  end.

Definition take_ref (block : loc) : M BlockPool unit :=
  p ← get;
  py_assert (ref_cnt (pool_block p block) =? 0) ;;
  wr_block block (λ b, set_ref_cnt (ref_cnt b + 1) b) ;;
  metric (on_block_allocated block).

Definition get_new_blocks (use_int : bool) (num_blocks : Z) (kv_cache_group_id : option Z)
    : M BlockPool (list loc) :=
  p ← get;
  if get_num_free_blocks p kv_cache_group_id <? num_blocks then raise ValueError
  else
    ret ← fq_popleft_n num_blocks kv_cache_group_id;
    (if enable_caching p then
       foreach ret (λ block, _maybe_evict_cached_block use_int block ;; take_ref block)
     else foreach ret take_ref) ;;
    mret ret.

Definition touch (bs : list loc) : M BlockPool unit :=
  foreach bs (λ block,
    p ← get;
    when ((ref_cnt (pool_block p block) =? 0) && negb (is_null (pool_block p block)))
      (fq_remove block) ;;
    wr_block block (λ b, set_ref_cnt (ref_cnt b + 1) b) ;;
    metric (on_block_accessed block)).

Definition free_blocks (ordered_blocks : list loc) (reuse_first : bool) : M BlockPool unit :=
  foreach ordered_blocks (λ block, wr_block block (λ b, set_ref_cnt (ref_cnt b - 1) b)) ;;
  p ← get;
  let freed_blocks :=
    filter (λ b, ref_cnt (pool_block p b) = 0 ∧ is_null (pool_block p b) = false) ordered_blocks in
  if enable_caching p then
    fq_prepend_n (filter (λ b, reuse_first = true ∨ _block_hash (pool_block p b) = None) freed_blocks) ;;
    fq_append_n (filter (λ b, reuse_first = false ∧ _block_hash (pool_block p b) ≠ None) freed_blocks)
  else fq_append_n freed_blocks.

(** [block_ids] is a set; its elements in the order the iteration visits
    them. *)
Definition evict_blocks (use_int : bool) (block_ids : list Z) : M BlockPool unit :=
  foreach block_ids (λ i,
    p ← get;
    py_assert (i <? zlen (blocks p)) ;;
    block ← of_option IndexError (py_get (blocks p) i);
    _maybe_evict_cached_block use_int block ;;
    mret tt).

Definition reset_prefix_cache : M BlockPool bool :=
  p ← get;
  let num_used_blocks := num_gpu_blocks p - get_num_free_blocks p None in
  if negb (num_used_blocks =? 1) then mret false
  else
    modify (set_cache ∅) ;;
    foreach (blocks p) (λ b, wr_block b reset_hash) ;;
    metric metrics_reset ;;
    emit AllBlocksCleared ;;
    mret true.

Definition can_allocate_group_blocks (p : BlockPool) (demand : gmap Z Z) : bool :=
  match free_block_queue p with
  | Single _ => true
  | Partitioned _ groups qs qh =>
      let state := map_fold (λ i n acc, if PartitionedQueue.in_state groups i then acc + n else acc) 0 demand in
      let history := map_fold (λ _ n acc, acc + n) 0 demand - state in
      (state <=? num_free_blocks qs) && (history <=? num_free_blocks qh)
  end.

Definition take_events : M BlockPool (list KVCacheEvent) :=
  p ← get;
  if negb (enable_kv_cache_events p) then mret []
  else modify (set_events []) ;; mret (kv_event_queue p).

(** *** cache_full_blocks *)

(** [block_hashes[i:]] *)
Definition hashes_from (hs : BlockHashList) (i : Z) : list BlockHash := py_from (hl_list hs) i.

(** The loop over the new full blocks: returns the indices of the cached ones. *)
Fixpoint cache_loop (kv_cache_group_id : Z) (block_mask : option (list bool))
    (num_cached_blocks : Z) (new_block_hashes : list BlockHash) (i : nat) (bs : list loc)
    (event_block_indices : list Z) : M BlockPool (list Z) :=
  match bs with
  | [] => mret event_block_indices
  | blk :: rest =>
      p ← get;
      masked ←
        (if is_null (pool_block p blk) then mret true
         else match block_mask with
              | None => mret false
              | Some m => b ← of_option IndexError (m !! i); mret (negb b)
              end);
      if masked : bool then
        cache_loop kv_cache_group_id block_mask num_cached_blocks new_block_hashes
          (S i) rest event_block_indices
      else
        py_assert (bool_decide (_block_hash (pool_block p blk) = None)) ;;
        block_hash ← of_option IndexError (new_block_hashes !! i);
        match make_block_hash_with_group_id block_hash kv_cache_group_id with
        | Raise e => raise e
        | Ret key =>
            wr_block blk (set_hash (Some key)) ;;
            p ← get;
            modify (set_cache (HashMap.insert (pool_heap p) key blk (cached_block_hash_to_block p))) ;;
            cache_loop kv_cache_group_id block_mask num_cached_blocks new_block_hashes
              (S i) rest (event_block_indices ++ [num_cached_blocks + Z.of_nat i])
        end
  end.

(** [groupby(enumerate(indices), lambda item: item[1] - item[0])]: maximal runs
    of consecutive indices. *)
Fixpoint runs_loop (run : list Z) (l : list Z) : list (list Z) :=
  match l with
  | [] => [run]
  | x :: l' =>
      match last run with
      | Some y => if x =? y + 1 then runs_loop (run ++ [x]) l' else run :: runs_loop [x] l'
      | None => runs_loop [x] l'
      end
  end.
Definition consecutive_runs (l : list Z) : list (list Z) :=
  match l with [] => [] | x :: l' => runs_loop [x] l' end.

Section cache_full_blocks.
Context (sha256 : bytes → bytes) (use_int : bool).

(** The extra keys of the blocks of a run, threading the request and the
    multi-modal index. *)
Fixpoint keys_of_run (block_size : Z) (indices : list Z) (curr_mm_idx : Z)
    (acc : list (option (list extra_key))) : M Request (list (option (list extra_key)) * Z) :=
  match indices with
  | [] => mret (acc, curr_mm_idx)
  | block_idx :: rest =>
      ek ← generate_block_hash_extra_keys sha256 (block_idx * block_size)
             ((block_idx + 1) * block_size) curr_mm_idx;
      let '(extra_keys, curr_mm_idx) := ek in
      keys_of_run block_size rest curr_mm_idx (acc ++ [extra_keys])
  end.

Definition external_hashes (hs : BlockHashList) (l : list Z) : option (list ExternalBlockHash) :=
  mapM (λ i, maybe_convert_block_hash use_int <$> hl_get hs i) l.

Definition stored_event (r : Request) (hs : BlockHashList) (block_size group : Z)
    (indices : list Z) (keys : list (option (list extra_key))) : option KVCacheEvent :=
  start ← head indices;
  end_ ← (Z.add 1) <$> last indices;
  parent ← (if 0 <? start
            then Some <$> (maybe_convert_block_hash use_int <$> hl_get hs (start - 1))
            else Some None);
  hashes ← external_hashes hs indices;
  Some (BlockStored hashes parent
          (py_slice (_all_token_ids r) (start * block_size) (end_ * block_size)) block_size
          (lora_int_id <$> lora_request r) (lora_name <$> lora_request r) keys group).

Fixpoint emit_runs (hs : BlockHashList) (block_size group : Z) (runs : list (list Z))
    (curr_mm_idx : Z) (r : Request) : M BlockPool Request :=
  match runs with
  | [] => mret r
  | indices :: rest =>
      match keys_of_run block_size indices curr_mm_idx [] r with
      | (Raise e, _) => raise e
      | (Ret (keys, curr_mm_idx), r) =>
          ev ← of_option IndexError (stored_event r hs block_size group indices keys);
          modify (λ p, set_events (kv_event_queue p ++ [ev]) p) ;;
          emit_runs hs block_size group rest curr_mm_idx r
      end
  end.

Definition cache_full_blocks (request : Request) (bs : list loc)
    (num_cached_blocks num_full_blocks block_size kv_cache_group_id : Z)
    (block_mask : option (list bool)) : M BlockPool Request :=
  p ← get;
  if num_full_blocks <=? num_cached_blocks then mret request
  else
    let new_full_blocks := py_slice bs num_cached_blocks num_full_blocks in
    py_assert (num_full_blocks <=? zlen (block_hashes request)) ;;
    py_assert (match block_mask with
               | None => true
               | Some m => zlen m =? zlen new_full_blocks
               end) ;;
    hs ← (if block_size =? hash_block_size p then mret (Hashes (block_hashes request))
          else match BlockHashListWithBlockSize_init (block_hashes request)
                       (hash_block_size p) block_size with
               | Ret v => mret (HashView v)
               | Raise e => raise e
               end);
    let new_block_hashes := hashes_from hs num_cached_blocks in
    indices ← cache_loop kv_cache_group_id block_mask num_cached_blocks new_block_hashes 0
                new_full_blocks [];
    if enable_kv_cache_events p && negb (is_nil indices) then
      emit_runs hs block_size kv_cache_group_id (consecutive_runs indices) 0 request
    else mret request.
End cache_full_blocks.

End Pool.
