(* ===== verification/BlockPoolInv.v ===== *)
(** * The prefix-cache map files exactly the hashed blocks

    The invariant of [BlockHashToBlockMap] and the effect of its operations. *)

From Stdlib Require Import Strings.Byte.
From S2P Require Import Prelude.
From S2P Require Import FreeQueue.
From S2P Require Import FreeQueueSpec.
From S2P Require Import Request.
From S2P Require Import BlockHash.
From S2P Require Import BlockPool.
Local Open Scope Z_scope.

(** ** The prefix-cache map *)

(** Block [b] is filed under [key]. *)
Definition holds (cache : BlockHashToBlockMap) (key : bytes) (b : loc) : Prop :=
  match cache !! key with
  | None => False
  | Some (One b') => b = b'
  | Some (Many d) => b ∈ d.*2
  end.

Definition dict_ok (h : heap) (d : block_dict) : Prop :=
  d ≠ [] ∧ NoDup d.*1 ∧ ∀ i b, (i, b) ∈ d → i = block_id (deref h b).

(** The map files exactly the hashed blocks, each under its hash. *)
Definition cache_ok (h : heap) (bs : list loc) (cache : BlockHashToBlockMap) : Prop :=
  (∀ key b, holds cache key b ↔ b ∈ bs ∧ _block_hash (deref h b) = Some key) ∧
  ∀ key d, cache !! key = Some (Many d) → dict_ok h d.

Definition ids_inj (h : heap) (bs : list loc) : Prop :=
  ∀ b b', b ∈ bs → b' ∈ bs → block_id (deref h b) = block_id (deref h b') → b = b'.

Lemma nodup_keys_cons (x : Z * loc) (d : block_dict) :
  NoDup (x :: d).*1 ↔ (x.1 ∉ d.*1) ∧ NoDup d.*1.
Proof. by rewrite fmap_cons, NoDup_cons. Qed.

Lemma dict_set_elem k v d x :
  NoDup d.*1 → x ∈ dict_set k v d ↔ x = (k, v) ∨ (x ∈ d ∧ x.1 ≠ k).
Proof.
  induction d as [|[k' v'] d IH]; intros Hnd; simpl; [set_solver|].
  apply nodup_keys_cons in Hnd as [Hk' Hnd]. destruct (Z.eqb_spec k k') as [->|Hne].
  - rewrite !elem_of_cons. split; [|naive_solver].
    intros [->|Hx]; [by left|]. right. split; [by right|].
    intros <-. apply Hk'. exact (list_elem_of_fmap_2 fst d x Hx).
  - rewrite !elem_of_cons, IH by done. naive_solver.
Qed.

Lemma dict_set_keys k v d : NoDup d.*1 → NoDup (dict_set k v d).*1.
Proof.
  induction d as [|[k' v'] d IH]; intros Hnd; simpl; [apply NoDup_singleton|].
  apply nodup_keys_cons in Hnd as [Hk' Hnd]. destruct (Z.eqb_spec k k') as [->|Hne]; simpl.
  - by apply NoDup_cons.
  - apply NoDup_cons. split; [|by apply IH].
    intros ([i x] & -> & Hx)%list_elem_of_fmap. apply dict_set_elem in Hx; [|done].
    simpl in *. destruct Hx as [[= -> ->]|[Hx _]]; [done|]. apply Hk'. exact (list_elem_of_fmap_2 fst _ (i, x) Hx).
Qed.

Lemma dict_pop_spec k d :
  NoDup d.*1 →
  (∀ v, (k, v) ∈ d → (dict_pop k d).1 = Some v) ∧
  (∀ x, x ∈ (dict_pop k d).2 ↔ x ∈ d ∧ x.1 ≠ k) ∧
  NoDup (dict_pop k d).2.*1.
Proof.
  induction d as [|[k' v'] d IH]; intros Hnd; simpl; [set_solver|].
  apply nodup_keys_cons in Hnd as [Hk' Hnd]. destruct (Z.eqb_spec k k') as [->|Hne]; simpl.
  - split; [|split; [|done]].
    + intros v [[= ->]|Hv]%elem_of_cons; [done|]. destruct Hk'.
      by apply (list_elem_of_fmap_2 fst _ (k', v)).
    + intros x. rewrite elem_of_cons. split; [|naive_solver].
      intros Hx. split; [by right|]. intros <-. apply Hk'. exact (list_elem_of_fmap_2 fst d x Hx).
  - destruct (IH Hnd) as (H1 & H2 & H3). destruct (dict_pop k d) as [r d'] eqn:E. simpl in *.
    split; [|split].
    + intros v [[= -> ->]|Hv]%elem_of_cons; [done|]. by apply H1.
    + intros x. rewrite !elem_of_cons, H2. naive_solver.
    + apply NoDup_cons. split; [|done]. intros ([i x] & -> & Hx)%list_elem_of_fmap.
      simpl in *. apply H2 in Hx as [Hx _]. apply Hk'. exact (list_elem_of_fmap_2 fst _ (i, x) Hx).
Qed.

Lemma get_one_block_spec h bs cache key :
  cache_ok h bs cache →
  ∃ r, HashMap.get_one_block cache key = Ret r ∧
    match r with Some b => holds cache key b | None => ∀ b, ¬ holds cache key b end.
Proof.
  intros [_ Hd]. unfold HashMap.get_one_block, holds. destruct (cache !! key) as [[b|d]|] eqn:E.
  - by exists (Some b).
  - destruct (Hd key d E) as (Hne & _). destruct d as [|[i b] d]; [done|].
    exists (Some b). split; [done|]. simpl. set_solver.
  - exists None. split; [done|]. by intros b Hb.
Qed.

(** Filing a block whose hash has just been set. *)
Lemma insert_spec h bs cache key b :
  cache_ok h bs cache → ids_inj h bs → b ∈ bs → _block_hash (deref h b) = None →
  let h' := update b (set_hash (Some key)) h in
  cache_ok h' bs (HashMap.insert h' key b cache).
Proof.
  intros [Hc Hd] Hinj Hb Hh h'.
  assert (Hid : ∀ x, block_id (deref h' x) = block_id (deref h x))
    by (intros x; unfold h'; rewrite deref_update; by case_decide).
  assert (Hhash : ∀ x, _block_hash (deref h' x) =
      if decide (b = x) then Some key else _block_hash (deref h x))
    by (intros x; unfold h'; rewrite deref_update; by case_decide).
  assert (Hnot : ∀ k, ¬ holds cache k b) by (intros k [_ Hk]%Hc; congruence).
  assert (Hother : ∀ e k x, k ≠ key → holds (<[key := e]> cache) k x ↔ holds cache k x).
  { intros e k x Hk. unfold holds. by rewrite lookup_insert_ne. }
  assert (Hdone : ∀ e,
    (∀ x, holds (<[key := e]> cache) key x ↔ holds cache key x ∨ x = b) →
    match e with Many d => dict_ok h' d | One _ => True end → cache_ok h' bs (<[key := e]> cache)).
  { intros e He Hde. split.
    - intros k x. rewrite Hhash. destruct (decide (k = key)) as [->|Hk].
      + rewrite He, Hc. case_decide; naive_solver.
      + rewrite Hother, Hc by done. case_decide; subst; [|done].
        split; [intros [_ ?]; congruence|intros [_ ?]; congruence].
    - intros k d. destruct (decide (k = key)) as [->|Hk].
      + rewrite lookup_insert_eq. intros [= ->]. exact Hde.
      + rewrite lookup_insert_ne by done. intros Hkd. apply Hd in Hkd as (? & ? & Hids).
        split; [done|]. split; [done|]. intros i x Hx. rewrite Hid. by apply Hids. }
  unfold HashMap.insert. destruct (cache !! key) as [[b0|d]|] eqn:E; apply Hdone.
  - assert (Hb0 : holds cache key b0) by (unfold holds; by rewrite E).
    assert (b0 ≠ b) by (intros ->; by apply (Hnot key)).
    assert (Hidne : block_id (deref h' b0) ≠ block_id (deref h' b)).
    { rewrite !Hid. intros Heq. apply Hinj in Heq; [done| |done]. by apply Hc in Hb0 as [? _]. }
    intros x. unfold holds. rewrite lookup_insert_eq, E.
    rewrite !Hid in *. simpl. rewrite (proj2 (Z.eqb_neq _ _)) by congruence. simpl. set_solver.
  - assert (Hb0 : holds cache key b0) by (unfold holds; by rewrite E).
    split; [simpl; by case_match|]. split; [apply dict_set_keys, NoDup_singleton|].
    intros i x Hx. apply dict_set_elem in Hx; [|apply NoDup_singleton].
    destruct Hx as [[= -> ->]|[Hx _]]; [done|]. set_solver.
  - destruct (Hd key d E) as (Hne & Hnd & Hids).
    assert (Hdid : ∀ i x, (i, x) ∈ d → i ≠ block_id (deref h' b)).
    { intros i x Hx ->. assert (Hhx : holds cache key x).
      { unfold holds. rewrite E. exact (list_elem_of_fmap_2 snd _ (_, x) Hx). }
      apply Hids in Hx. rewrite Hid in Hx. apply Hinj in Hx as ->; [|done|by apply Hc in Hhx as [? _]].
      by apply (Hnot key). }
    intros x. unfold holds. rewrite lookup_insert_eq, E. rewrite !list_elem_of_fmap. split.
    + intros ([i y] & -> & Hy). apply dict_set_elem in Hy; [|done]. simpl.
      destruct Hy as [[= -> ->]|[Hy _]]; [by right|]. left. by exists (i, y).
    + intros [([i y] & -> & Hy)| ->].
      * exists (i, y). split; [done|]. apply dict_set_elem; [done|]. right.
        split; [done|]. by eapply Hdid.
      * exists (block_id (deref h' b), b). split; [done|]. apply dict_set_elem; [done|]. by left.
  - destruct (Hd key d E) as (Hne & Hnd & Hids).
    split; [destruct d as [|[??] ?]; simpl; [done|by case_match]|].
    split; [by apply dict_set_keys|]. intros i x Hx. apply dict_set_elem in Hx; [|done].
    destruct Hx as [[= -> ->]|[Hx _]]; [done|]. rewrite Hid. by apply Hids.
  - intros x. unfold holds. rewrite lookup_insert_eq, E. naive_solver.
  - done.
Qed.

(** Popping a hashed block removes exactly it. *)
Lemma pop_spec h bs cache key b :
  cache_ok h bs cache → ids_inj h bs → b ∈ bs → _block_hash (deref h b) = Some key →
  ∃ cache', HashMap.pop h key (block_id (deref h b)) cache = (Some b, cache') ∧
    cache_ok (update b reset_hash h) bs cache'.
Proof.
  intros [Hc Hd] Hinj Hb Hh. set (h' := update b reset_hash h).
  assert (Hid : ∀ x, block_id (deref h' x) = block_id (deref h x))
    by (intros x; unfold h'; rewrite deref_update; by case_decide).
  assert (Hhash : ∀ x, _block_hash (deref h' x) =
      if decide (b = x) then None else _block_hash (deref h x))
    by (intros x; unfold h'; rewrite deref_update; by case_decide).
  assert (Hb' : holds cache key b) by by apply Hc.
  assert (Hdone : ∀ cache',
    (∀ k, k ≠ key → cache' !! k = cache !! k) →
    (∀ x, holds cache' key x ↔ holds cache key x ∧ x ≠ b) →
    (∀ d, cache' !! key = Some (Many d) → dict_ok h d) → cache_ok h' bs cache').
  { intros c' Ho Hk Hdk. split.
    - intros k x. rewrite Hhash. destruct (decide (k = key)) as [->|Hne].
      + rewrite Hk, Hc. case_decide; naive_solver.
      + transitivity (holds cache k x); [unfold holds; by rewrite Ho|]. rewrite Hc.
        case_decide; subst; [|done]. split; intros [_ ?]; congruence.
    - intros k d Hkd. assert (dict_ok h d) as (? & ? & Hids).
      { destruct (decide (k = key)) as [->|Hne]; [by apply Hdk|].
        rewrite Ho in Hkd by done. by eapply Hd. }
      split; [done|]. split; [done|]. intros i x Hx. rewrite Hid. by apply Hids. }
  unfold HashMap.pop. unfold holds in Hb'. destruct (cache !! key) as [[b0|d]|] eqn:E; [| |done].
  - subst b0. rewrite Z.eqb_refl. eexists. split; [done|]. apply Hdone.
    + intros k Hk. by rewrite lookup_delete_ne.
    + intros x. unfold holds. rewrite lookup_delete_eq, E. naive_solver.
    + intros d. by rewrite lookup_delete_eq.
  - destruct (Hd key d E) as (Hne & Hnd & Hids).
    apply list_elem_of_fmap in Hb' as ([i b'] & Hbb & Hin). simpl in Hbb. subst b'.
    pose proof (Hids i b Hin) as Hib. rewrite Hib in Hin.
    destruct (dict_pop_spec (block_id (deref h b)) d Hnd) as (H1 & H2 & H3).
    specialize (H1 b Hin). destruct (dict_pop (block_id (deref h b)) d) as [r d'] eqn:Ep.
    simpl in *. subst r. eexists. split; [done|].
    assert (Hx : ∀ x, x ∈ d'.*2 ↔ x ∈ d.*2 ∧ x ≠ b).
    { intros x. rewrite !list_elem_of_fmap. split.
      - intros ([j y] & -> & [Hy Hj]%H2). simpl in *. split; [by exists (j, y)|].
        intros ->. apply Hj. by apply Hids.
      - intros [([j y] & -> & Hy) Hyb]. exists (j, y). split; [done|]. apply H2.
        split; [done|]. simpl in *. intros ->. apply Hyb.
        assert (Heq := Hids _ _ Hy). symmetry in Heq. apply Hinj in Heq; [done| |done].
        assert (Hhy : holds cache key y).
        { unfold holds. rewrite E. exact (list_elem_of_fmap_2 snd _ (_, y) Hy). }
        by apply Hc in Hhy as [? _]. }
    destruct (Z.ltb_spec 0 (zlen d')) as [Hlen|Hlen]; apply Hdone.
    + intros k Hk. by rewrite lookup_insert_ne, lookup_delete_ne.
    + intros x. unfold holds. by rewrite lookup_insert_eq, E.
    + intros d0. rewrite lookup_insert_eq. intros [= <-].
      split; [intros ->; done|]. split; [done|]. intros j y [Hy _]%H2. by apply Hids.
    + intros k Hk. by rewrite lookup_delete_ne.
    + assert (d' = []) as -> by (destruct d'; [done|unfold zlen in Hlen; simpl in Hlen; lia]).
      intros x. unfold holds. rewrite lookup_delete_eq, E. rewrite <-Hx. set_solver.
    + intros d0. by rewrite lookup_delete_eq.
Qed.

(** The map depends on ids and hashes only. *)
Lemma cache_ok_meta h h' bs cache :
  (∀ b, block_id (deref h' b) = block_id (deref h b) ∧
        _block_hash (deref h' b) = _block_hash (deref h b)) →
  cache_ok h bs cache → cache_ok h' bs cache.
Proof.
  intros Hm [Hc Hd]. split.
  - intros k b. by rewrite (proj2 (Hm b)).
  - intros k d Hk. destruct (Hd k d Hk) as (? & ? & Hids). split; [done|]. split; [done|].
    intros i b Hb. rewrite (proj1 (Hm b)). by apply Hids.
Qed.

Local Close Scope Z_scope.

(** * Free queues inside the block pool

    The free lists of the pool, single or partitioned, and the effect of the
    queue methods on them. *)

Import FreeQueueSpec.
Local Open Scope Z_scope.

(** ** The free queue of the pool *)

Definition nodes (q : FreeKVCacheBlockQueue) (l : list loc) : list loc :=
  fake_free_list_head q :: fake_free_list_tail q :: l.

Definition fakes (bq : block_queue) : list loc :=
  match bq with
  | Single q => nodes q []
  | Partitioned _ _ qs qh => nodes qs [] ++ nodes qh []
  end.

(** The blocks of the state partition; a single queue has none. *)
Definition in_part (bq : block_queue) (h : heap) (b : loc) : bool :=
  match bq with
  | Single _ => false
  | Partitioned n _ _ _ => block_id (deref h b) <? n
  end.

(** The queue represents the free lists [st] (state partition) and [hi]. *)
Definition bq_repr (h : heap) (bq : block_queue) (st hi : list loc) : Prop :=
  match bq with
  | Single q => st = [] ∧ queue_repr h q hi
  | Partitioned _ _ qs qh =>
      queue_repr h qs st ∧ queue_repr h qh hi ∧
      (∀ x, x ∈ nodes qs st → x ∉ nodes qh hi) ∧
      (∀ b, b ∈ st → in_part bq h b = true) ∧ (∀ b, b ∈ hi → in_part bq h b = false)
  end.

Definition same_queue (bq bq' : block_queue) : Prop :=
  match bq, bq' with
  | Single q, Single q' => nodes q' [] = nodes q []
  | Partitioned n g qs qh, Partitioned n' g' qs' qh' =>
      n' = n ∧ g' = g ∧ nodes qs' [] = nodes qs [] ∧ nodes qh' [] = nodes qh []
  | _, _ => False
  end.

(** A step of the queue inside the pool: the free lists become [st'] and [hi'],
    and only links of blocks change. *)
Definition bq_step (p : BlockPool) (st' hi' : list loc) (p' : BlockPool) : Prop :=
  bq_repr (pool_heap p') (free_block_queue p') st' hi' ∧
  same_queue (free_block_queue p) (free_block_queue p') ∧
  same_meta (pool_heap p) (pool_heap p') ∧
  p' = set_queue (free_block_queue p') (set_heap (pool_heap p') p).

Lemma in_part_meta bq bq' h h' b :
  same_queue bq bq' → block_id (deref h' b) = block_id (deref h b) →
  in_part bq' h' b = in_part bq h b.
Proof. unfold same_queue, in_part. intros Hs ->. destruct bq, bq'; naive_solver. Qed.

Lemma same_meta_id h h' b : same_meta h h' → block_id (deref h' b) = block_id (deref h b).
Proof. intros [_ Hm]. specialize (Hm b). unfold meta in Hm. congruence. Qed.
Lemma same_meta_hash h h' b : same_meta h h' → _block_hash (deref h' b) = _block_hash (deref h b).
Proof. intros [_ Hm]. specialize (Hm b). unfold meta in Hm. congruence. Qed.
Lemma same_meta_ref h h' b : same_meta h h' → ref_cnt (deref h' b) = ref_cnt (deref h b).
Proof. intros [_ Hm]. specialize (Hm b). unfold meta in Hm. congruence. Qed.
Lemma same_meta_null h h' b : same_meta h h' → is_null (deref h' b) = is_null (deref h b).
Proof. intros [_ Hm]. specialize (Hm b). unfold meta in Hm. congruence. Qed.

(** Running a queue operation that takes [l] to [l'] and touches [D]. *)
Lemma wp_on_single {A} q (m : M qstate A) p (P : A → Prop) D hi hi' :
  free_block_queue p = Single q →
  wp m (QState (pool_heap p) q) (λ a s', P a ∧ queue_step (pool_heap p) q D hi' s') →
  bq_repr (pool_heap p) (Single q) [] hi →
  wp (on_single q m) p (λ a p', P a ∧ bq_step p [] hi' p').
Proof.
  intros Eq Hw _. unfold on_single. apply wp_zoom. eapply wp_mono; [exact Hw|].
  intros a s' [HP (Hr & Hh & Ht & Hm & _)]. split; [done|].
  split; [by split|]. split; [|by split].
  rewrite Eq. simpl. unfold nodes. by rewrite Hh, Ht.
Qed.

Lemma wp_on_state {A} n g qs qh (m : M qstate A) p (P : A → Prop) D st hi st' :
  free_block_queue p = Partitioned n g qs qh →
  bq_repr (pool_heap p) (free_block_queue p) st hi →
  wp m (QState (pool_heap p) qs) (λ a s', P a ∧ queue_step (pool_heap p) qs D st' s') →
  (∀ b, b ∈ D → b ∉ nodes qh hi) → (∀ b, b ∈ st' → b ∈ D) →
  (∀ b, b ∈ st' → in_part (free_block_queue p) (pool_heap p) b = true) →
  wp (on_state n g qs qh m) p (λ a p', P a ∧ bq_step p st' hi p').
Proof.
  intros Eq Hq Hw HD Hst HDp. rewrite Eq in Hq. destruct Hq as (Hqs & Hqh & Hdisj & Hps & Hph).
  unfold on_state. apply wp_zoom. eapply wp_mono; [exact Hw|].
  intros a s' [HP (Hr & Hh & Ht & Hm & Hf)]. split; [done|].
  assert (Hn : ∀ l, nodes (q_self s') l = nodes qs l) by (intros l; unfold nodes; by rewrite Hh, Ht).
  assert (Hfk : ∀ x, x ∈ nodes qs [] → x ∉ nodes qh hi).
  { intros x Hx. apply Hdisj. set_solver. }
  split; [|split; [|by split]].
  - split; [done|]. split; [|split; [|split]].
    + eapply queue_repr_frame; [exact Hf| |done].
      intros z Hz Hin. assert (z ∈ nodes qh hi) as Hz' by set_solver.
      assert (z ∈ nodes qs [] ++ D) as Hin' by set_solver.
      apply elem_of_app in Hin' as [?|?]; [by apply (Hfk z)|by apply (HD z)].
    + intros x Hx. rewrite Hn in Hx. assert (x ∈ nodes qs [] ++ st') as Hx' by set_solver.
      apply elem_of_app in Hx' as [?|?]; [by apply Hfk|]. auto.
    + intros b Hb. rewrite Eq in HDp. cbn [in_part pool_heap set_heap] in *.
      cbn. rewrite (same_meta_id _ _ _ Hm). auto.
    + intros b Hb. cbn in *. rewrite (same_meta_id _ _ _ Hm). auto.
  - rewrite Eq. simpl. by rewrite !Hn.
Qed.

Lemma wp_on_history {A} n g qs qh (m : M qstate A) p (P : A → Prop) D st hi hi' :
  free_block_queue p = Partitioned n g qs qh →
  bq_repr (pool_heap p) (free_block_queue p) st hi →
  wp m (QState (pool_heap p) qh) (λ a s', P a ∧ queue_step (pool_heap p) qh D hi' s') →
  (∀ b, b ∈ D → b ∉ nodes qs st) → (∀ b, b ∈ hi' → b ∈ D) →
  (∀ b, b ∈ hi' → in_part (free_block_queue p) (pool_heap p) b = false) →
  wp (on_history n g qs qh m) p (λ a p', P a ∧ bq_step p st hi' p').
Proof.
  intros Eq Hq Hw HD Hhi HDp. rewrite Eq in Hq. destruct Hq as (Hqs & Hqh & Hdisj & Hps & Hph).
  unfold on_history. apply wp_zoom. eapply wp_mono; [exact Hw|].
  intros a s' [HP (Hr & Hh & Ht & Hm & Hf)]. split; [done|].
  assert (Hn : ∀ l, nodes (q_self s') l = nodes qh l) by (intros l; unfold nodes; by rewrite Hh, Ht).
  assert (Hfk : ∀ x, x ∈ nodes qh [] → x ∉ nodes qs st).
  { intros x Hx Hx'. apply (Hdisj x Hx'). set_solver. }
  split; [|split; [|by split]].
  - split; [|split; [done|split; [|split]]].
    + eapply queue_repr_frame; [exact Hf| |done].
      intros z Hz Hin. assert (z ∈ nodes qs st) as Hz' by set_solver.
      assert (z ∈ nodes qh [] ++ D) as Hin' by set_solver.
      apply elem_of_app in Hin' as [?|?]; [by apply (Hfk z)|by apply (HD z)].
    + intros x Hx Hx'. rewrite Hn in Hx'. assert (x ∈ nodes qh [] ++ hi') as Hx2 by set_solver.
      apply elem_of_app in Hx2 as [?|?]; [by apply (Hfk x)|]. by apply (HD x); [apply Hhi|].
    + intros b Hb. cbn in *. rewrite (same_meta_id _ _ _ Hm). auto.
    + intros b Hb. rewrite Eq in HDp. cbn in *. rewrite (same_meta_id _ _ _ Hm). auto.
  - rewrite Eq. simpl. by rewrite !Hn.
Qed.

(** *** The methods of the pool's queue *)

Lemma bq_in_range h bq st hi b :
  bq_repr h bq st hi → b ∈ st ++ hi → b ∉ fakes bq.
Proof.
  destruct bq as [q|n g qs qh]; simpl.
  - intros [-> Hq] Hb. apply (queue_ends_fresh h q hi Hq) in Hb. set_solver.
  - intros (Hs & Hh & Hd & _) [Hb|Hb]%elem_of_app Hin.
    + pose proof (queue_ends_fresh _ _ _ Hs b Hb) as [??].
      apply (Hd b); unfold nodes in *; set_solver.
    + pose proof (queue_ends_fresh _ _ _ Hh b Hb) as [??].
      apply (Hd b); unfold nodes in *; set_solver.
Qed.

Lemma bq_nodup h bq st hi : bq_repr h bq st hi → NoDup (st ++ hi).
Proof.
  destruct bq as [q|n g qs qh]; simpl.
  - intros [-> Hq]. by eapply queue_nodup.
  - intros (Hs & Hh & Hd & _). apply NoDup_app. split; [by eapply queue_nodup|].
    split; [|by eapply queue_nodup]. intros x Hx Hx'. apply (Hd x); unfold nodes; set_solver.
Qed.

Lemma filter_remove (l1 l2 : list loc) b :
  NoDup (l1 ++ b :: l2) → filter (.≠ b) (l1 ++ b :: l2) = l1 ++ l2.
Proof.
  intros Hnd. apply NoDup_app in Hnd as (_ & H1 & H2). apply NoDup_cons in H2 as [Hb _].
  rewrite filter_app, filter_cons_False by auto.
  rewrite !filter_true; [done| |].
  - by intros x Hx ->.
  - intros x Hx ->. apply (H1 b Hx). set_solver.
Qed.

Lemma filter_absent (l : list loc) b : b ∉ l → filter (.≠ b) l = l.
Proof. intros Hb. apply filter_true. by intros x Hx ->. Qed.

Lemma fq_remove_spec p st hi b :
  bq_repr (pool_heap p) (free_block_queue p) st hi → b ∈ st ++ hi →
  wp (fq_remove b) p (λ _ p',
    bq_step p (filter (.≠ b) st) (filter (.≠ b) hi) p').
Proof.
  intros Hq Hb. pose proof (bq_nodup _ _ _ _ Hq) as Hnd.
  unfold fq_remove. wp_steps. destruct (free_block_queue p) as [q|n g qs qh] eqn:Eq.
  - pose proof Hq as [-> Hq']. simpl in Hb. apply list_elem_of_split in Hb as (l1 & l2 & ->).
    eapply wp_mono; [eapply (wp_on_single q _ p (λ _, True) _ _ (l1 ++ l2)); [exact Eq| |exact Hq]|].
    { eapply wp_mono; [by eapply remove_spec|]. intros a s' [Hs _]. by split; [|exact Hs]. }
    intros a p' [_ Hp']. simpl in Hnd. by rewrite filter_remove, filter_nil.
  - pose proof Hq as (Hs & Hh & Hd & Hps & Hph). unfold PartitionedQueue.remove. wp_steps.
    rewrite <-Eq in Hq. apply elem_of_app in Hb as [Hb|Hb].
    + specialize (Hps b Hb) as Hpb. simpl in Hpb. unfold pool_block. rewrite Hpb.
      apply NoDup_app in Hnd as (Hnd & Hdis & _).
      rewrite (filter_absent hi) by (by apply Hdis).
      apply list_elem_of_split in Hb as (l1 & l2 & ->).
      rewrite filter_remove by done.
      eapply wp_mono; [eapply (wp_on_state _ _ _ _ _ p (λ _, True) (l1 ++ b :: l2)); [exact Eq|exact Hq|..]|].
      * eapply wp_mono; [by eapply remove_spec|]. intros a s' [? _]. by split.
      * intros x Hx. apply Hd. unfold nodes. set_solver.
      * set_solver.
      * intros x Hx. rewrite Eq. apply Hps. set_solver.
      * by intros a p' [_ Hp'].
    + specialize (Hph b Hb) as Hpb. simpl in Hpb. unfold pool_block. rewrite Hpb.
      apply NoDup_app in Hnd as (_ & Hdis & Hnd).
      rewrite (filter_absent st) by (intros Hx; by apply (Hdis b)).
      apply list_elem_of_split in Hb as (l1 & l2 & ->).
      rewrite filter_remove by done.
      eapply wp_mono; [eapply (wp_on_history _ _ _ _ _ p (λ _, True) (l1 ++ b :: l2)); [exact Eq|exact Hq|..]|].
      * eapply wp_mono; [by eapply remove_spec|]. intros a s' [? _]. by split.
      * intros x Hx Hx'. apply (Hd x Hx'). unfold nodes. set_solver.
      * set_solver.
      * intros x Hx. rewrite Eq. apply Hph. set_solver.
      * by intros a p' [_ Hp'].
Qed.

(** Which free list a group allocates from: [true] is the state partition. *)
Definition alloc_part (bq : block_queue) (group_id : option Z) : option bool :=
  match bq, group_id with
  | Single _, _ => Some false
  | Partitioned _ g _ _, Some i => Some (PartitionedQueue.in_state g i)
  | Partitioned _ _ _ _, None => None
  end.

Lemma fq_popleft_n_spec p st hi n gid (part : bool) :
  bq_repr (pool_heap p) (free_block_queue p) st hi →
  alloc_part (free_block_queue p) gid = Some part →
  0 ≤ n ≤ zlen (if part then st else hi) →
  wp (fq_popleft_n n gid) p (λ ret p',
    ret = take (Z.to_nat n) (if part then st else hi) ∧
    bq_step p (if part then drop (Z.to_nat n) st else st)
      (if part then hi else drop (Z.to_nat n) hi) p').
Proof.
  intros Hq Hpart Hn. unfold fq_popleft_n. wp_steps.
  destruct (free_block_queue p) as [q|ns g qs qh] eqn:Eq.
  - simpl in Hpart. simplify_eq. pose proof Hq as [-> Hq'].
    eapply wp_mono; [eapply (wp_on_single q _ p (λ r, r = take (Z.to_nat n) hi)); [exact Eq| |exact Hq]|].
    { eapply wp_mono; [by eapply popleft_n_spec|]. intros a s' (Ha & Hs & _). by split. }
    done.
  - destruct gid as [i|]; [|done]. simpl in Hpart. simplify_eq.
    pose proof Hq as (Hs & Hh & Hd & Hps & Hph). unfold PartitionedQueue.popleft_n.
    rewrite <-Eq in Hq.
    assert (Hsub : ∀ (x : loc) l, x ∈ drop (Z.to_nat n) l → x ∈ l).
    { intros x l. rewrite <-(take_drop (Z.to_nat n) l) at 2. set_solver. }
    destruct (PartitionedQueue.in_state g i).
    + eapply wp_mono; [eapply (wp_on_state _ _ _ _ _ p (λ r, r = take (Z.to_nat n) st) st); [exact Eq|exact Hq|..]|].
      * eapply wp_mono; [by eapply popleft_n_spec|]. intros a s' (Ha & Hs' & _). by split.
      * intros x Hx. apply Hd. unfold nodes. set_solver.
      * eauto.
      * intros x Hx. rewrite Eq. eauto.
      * done.
    + eapply wp_mono; [eapply (wp_on_history _ _ _ _ _ p (λ r, r = take (Z.to_nat n) hi) hi); [exact Eq|exact Hq|..]|].
      * eapply wp_mono; [by eapply popleft_n_spec|]. intros a s' (Ha & Hs' & _). by split.
      * intros x Hx Hx'. apply (Hd x Hx'). unfold nodes. set_solver.
      * eauto.
      * intros x Hx. rewrite Eq. eauto.
      * done.
Qed.

(** Adding blocks at one end of a free list. *)
Lemma bq_fresh_single h q hi (bs : list loc) b :
  bq_repr h (Single q) [] hi → (b ∉ hi) → b ∉ fakes (Single q) → b ∈ bs →
  (b ∉ hi) ∧ b ≠ fake_free_list_head q ∧ b ≠ fake_free_list_tail q.
Proof. intros. unfold fakes, nodes in *. set_solver. Qed.

Definition part_filter (bq : block_queue) (h : heap) (b : bool) (bs : list loc) : list loc :=
  filter (λ x, in_part bq h x = b) bs.

Definition add_front (new old : list loc) : list loc := new ++ old.
Definition add_back (new old : list loc) : list loc := old ++ new.

Lemma part_filter_single q h bs :
  part_filter (Single q) h true bs = [] ∧ part_filter (Single q) h false bs = bs.
Proof. split; [apply filter_false|apply filter_true]; done. Qed.

Section add.
Context (op : list loc → M qstate unit) (pop : list loc → M BlockPool unit).
Context (add : list loc → list loc → list loc).
Context (Hadd : ∀ bs l x, x ∈ add bs l ↔ x ∈ bs ∨ x ∈ l) (Hnil : ∀ l, add [] l = l).
(** The specification of [append_n] and [prepend_n] on one queue. *)
Context (Hop : ∀ h q l bs, queue_repr h q l → NoDup bs →
  (∀ b, b ∈ bs → (b ∉ l) ∧ b ≠ fake_free_list_head q ∧ b ≠ fake_free_list_tail q) →
  wp (op bs) (QState h q) (λ _ s', queue_step h q (l ++ bs) (add bs l) s')).
Context (Hpop : ∀ bs, pop bs = (p ← get;
  match free_block_queue p with
  | Single q => on_single q (op bs)
  | Partitioned n g qs qh =>
      p ← get;
      on_state n g qs qh (op (filter (λ b, PartitionedQueue.in_state_range p n b = true) bs)) ;;
      p' ← get;
      match free_block_queue p' with
      | Partitioned _ _ qs qh =>
          on_history n g qs qh (op (filter (λ b, PartitionedQueue.in_state_range p n b = false) bs))
      | Single _ => raise AttributeError
      end
  end)).

Lemma fq_add_spec p st hi bs :
  bq_repr (pool_heap p) (free_block_queue p) st hi →
  NoDup bs → (∀ b, b ∈ bs → (b ∉ st ++ hi) ∧ b ∉ fakes (free_block_queue p)) →
  wp (pop bs) p (λ _ p',
    bq_step p
      (add (part_filter (free_block_queue p) (pool_heap p) true bs) st)
      (add (part_filter (free_block_queue p) (pool_heap p) false bs) hi) p').
Proof.
  intros Hq Hnd Hfresh. rewrite Hpop. wp_steps.
  destruct (free_block_queue p) as [q|n g qs qh] eqn:Eq.
  { pose proof Hq as [-> Hq']. destruct (part_filter_single q (pool_heap p) bs) as [-> ->].
    rewrite Hnil. eapply wp_mono; [eapply (wp_on_single q _ p (λ _, True)); [exact Eq| |exact Hq]|].
    - eapply wp_mono; [apply Hop; [exact Hq'|done|]|intros a s' Hs; by split; [|exact Hs]].
      intros b Hb. apply (bq_fresh_single (pool_heap p) q hi bs b); by try apply Hfresh.
    - intros a p' [_ (H1 & H2 & H3 & H4)]. by split. }
  wp_steps. set (fs := filter _ bs).
  assert (Hfs : fs = part_filter (Partitioned n g qs qh) (pool_heap p) true bs) by done.
  assert (Hfs_in : ∀ b, b ∈ fs → b ∈ bs ∧ in_part (Partitioned n g qs qh) (pool_heap p) b = true).
  { intros b. rewrite Hfs. unfold part_filter. rewrite list_elem_of_filter. tauto. }
  pose proof Hq as (Hs & Hh & Hd & Hps & Hph). rewrite <-Eq in Hq.
  assert (Hfr : ∀ b, b ∈ bs → (b ∉ st) ∧ (b ∉ hi) ∧ b ≠ fake_free_list_head qs ∧
    b ≠ fake_free_list_tail qs ∧ b ≠ fake_free_list_head qh ∧ b ≠ fake_free_list_tail qh).
  { intros b Hb. destruct (Hfresh b Hb) as [H1 H2]. unfold fakes, nodes in H2. set_solver. }
  eapply wp_mono.
  { eapply (wp_on_state _ _ _ _ _ p (λ _, True) (st ++ fs)); [exact Eq|exact Hq|..].
    - eapply wp_mono; [apply Hop; [exact Hs| |]|intros a s' Hs'; by split; [|exact Hs']].
      + by apply NoDup_filter.
      + intros b [Hb _]%Hfs_in. specialize (Hfr b Hb). tauto.
    - intros x [Hx|Hx]%elem_of_app; [apply Hd; unfold nodes; set_solver|].
      apply Hfs_in in Hx as [Hx _]. specialize (Hfr x Hx). unfold nodes. set_solver.
    - intros x. rewrite Hadd. set_solver.
    - intros x. rewrite Eq, Hadd. intros [Hx|Hx]; [by apply Hfs_in|by apply Hps]. }
  intros [] p1 [_ (Hq1 & Hsame & Hm1 & Hp1)]. wp_steps.
  rewrite Eq in Hsame. destruct (free_block_queue p1) as [|n' g' qs' qh'] eqn:Eq1; [done|].
  destruct Hsame as (-> & -> & Hns & Hnh). set (fh := filter _ bs).
  assert (Hfh_in : ∀ b, b ∈ fh → b ∈ bs ∧ in_part (Partitioned n g qs qh) (pool_heap p) b = false).
  { intros b. unfold fh. rewrite list_elem_of_filter. simpl. tauto. }
  pose proof Hq1 as (Hs1 & Hh1 & Hd1 & Hps1 & Hph1). rewrite <-Eq1 in Hq1.
  assert (Hnodes : ∀ b, b ∈ bs → b ∉ nodes qs' [] ++ nodes qh' []).
  { intros b Hb. rewrite Hns, Hnh. destruct (Hfresh b Hb) as [_ H2]. done. }
  eapply wp_mono.
  { eapply (wp_on_history _ _ _ _ _ p1 (λ _, True) (hi ++ fh)); [exact Eq1|exact Hq1|..].
    - eapply wp_mono; [apply Hop; [exact Hh1| |]|intros a s' Hs'; by split; [|exact Hs']].
      + by apply NoDup_filter.
      + intros b [Hb _]%Hfh_in. specialize (Hfr b Hb). specialize (Hnodes b Hb).
        unfold nodes in Hnodes. set_solver.
    - intros x [Hx|Hx]%elem_of_app Hx'.
      + apply (Hd1 x); [done|]. unfold nodes. set_solver.
      + pose proof Hx as [Hxb Hxp]%Hfh_in. unfold nodes in Hx'. rewrite !elem_of_cons, Hadd in Hx'.
        specialize (Hnodes x Hxb). unfold nodes in Hnodes.
        destruct Hx' as [?|[?|[Hx'|Hx']]]; [set_solver|set_solver| |by apply Hfr in Hxb as [? _]].
        apply Hfs_in in Hx' as [_ Hx']. congruence.
    - intros x. rewrite Hadd. set_solver.
    - intros x. rewrite Hadd. intros [Hx|Hx]; [|rewrite Eq1; by apply Hph1].
      apply Hfh_in in Hx as [_ Hx]. rewrite Eq1. simpl in *.
      by rewrite (same_meta_id _ _ _ Hm1). }
  intros [] p2 [_ (Hq2 & Hsame2 & Hm2 & Hp2)].
  split; [exact Hq2|]. split; [|split; [by etransitivity|]].
  - rewrite Eq. rewrite Eq1 in Hsame2. destruct (free_block_queue p2); [done|].
    simpl in *. destruct Hsame2 as (-> & -> & -> & ->). by rewrite Hns, Hnh.
  - rewrite Hp2 at 1. by rewrite Hp1.
Qed.
End add.

Lemma fq_append_n_spec p st hi bs :
  bq_repr (pool_heap p) (free_block_queue p) st hi →
  NoDup bs → (∀ b, b ∈ bs → (b ∉ st ++ hi) ∧ b ∉ fakes (free_block_queue p)) →
  wp (fq_append_n bs) p (λ _ p',
    bq_step p
      (st ++ part_filter (free_block_queue p) (pool_heap p) true bs)
      (hi ++ part_filter (free_block_queue p) (pool_heap p) false bs) p').
Proof.
  apply (fq_add_spec FreeQueue.append_n fq_append_n add_back).
  - intros. unfold add_back. set_solver.
  - intros. unfold add_back. by rewrite app_nil_r.
  - intros. by apply append_n_spec.
  - done.
Qed.

Lemma fq_prepend_n_spec p st hi bs :
  bq_repr (pool_heap p) (free_block_queue p) st hi →
  NoDup bs → (∀ b, b ∈ bs → (b ∉ st ++ hi) ∧ b ∉ fakes (free_block_queue p)) →
  wp (fq_prepend_n bs) p (λ _ p',
    bq_step p
      (part_filter (free_block_queue p) (pool_heap p) true bs ++ st)
      (part_filter (free_block_queue p) (pool_heap p) false bs ++ hi) p').
Proof.
  apply (fq_add_spec FreeQueue.prepend_n fq_prepend_n add_front).
  - intros. unfold add_front. set_solver.
  - done.
  - intros. by apply prepend_n_spec.
  - done.
Qed.

Lemma part_filter_meta bq bq' h h' v l :
  same_queue bq bq' → (∀ b, b ∈ l → block_id (deref h' b) = block_id (deref h b)) →
  part_filter bq' h' v l = part_filter bq h v l.
Proof.
  intros Hs Hid. unfold part_filter.
  induction l as [|x l IH]; [done|]. rewrite !filter_cons.
  rewrite IH by (intros; apply Hid; set_solver).
  by rewrite (in_part_meta bq _ h h' x Hs) by (apply Hid; set_solver).
Qed.

(** The two partitions of a list are the list. *)
Lemma part_filter_perm bq h l : part_filter bq h true l ++ part_filter bq h false l ≡ₚ l.
Proof.
  unfold part_filter. etransitivity; [|apply (filter_app_complement (λ x, in_part bq h x = true))].
  f_equiv. erewrite (list_filter_iff (λ x, in_part bq h x = false)); [done|].
  intros x. simpl. destruct (in_part bq h x); split; congruence.
Qed.

Lemma part_filter_elem bq h v l x : x ∈ part_filter bq h v l → x ∈ l.
Proof. unfold part_filter. rewrite list_elem_of_filter. tauto. Qed.
