(* ===== verification/BlockPoolSpec.v ===== *)
(** * Correctness of the block pool

    [pool_inv p st hi D]: the free lists [st] (state partition) and [hi] together
    with the blocks [D] in transit are exactly the non-null blocks whose
    reference count is zero, and the prefix-cache map files exactly the hashed
    blocks.  Between operations [D] is empty.  Every operation preserves the
    invariant; the theorems also give its effect on reference counts, hashes
    and free lists. *)

From Stdlib Require Import Strings.Byte.
From S2P Require Import Prelude.
From S2P Require Import FreeQueue.
From S2P Require Import FreeQueueSpec.
From S2P Require Import Request.
From S2P Require Import BlockHash.
From S2P Require Import BlockHashSpec.
From S2P Require Import BlockPool.
From S2P Require Import BlockPoolInv.
Import Pool.
Local Open Scope Z_scope.

Record pool_inv (p : BlockPool) (st hi D : list loc) : Prop := {
  pi_blocks : blocks p = seq 0 (Z.to_nat (num_gpu_blocks p));
  pi_pos : 0 < num_gpu_blocks p;
  pi_id : ∀ b, b ∈ blocks p → block_id (pool_block p b) = Z.of_nat b;
  pi_null : null_block p = 0%nat;
  pi_is_null : ∀ b, b ∈ blocks p → is_null (pool_block p b) = bool_decide (b = null_block p);
  pi_null_hash : _block_hash (pool_block p (null_block p)) = None;
  pi_queue : bq_repr (pool_heap p) (free_block_queue p) st hi;
  pi_fakes : ∀ b, b ∈ blocks p → b ∉ fakes (free_block_queue p);
  pi_free : ∀ b, b ∈ st ++ hi ++ D ↔
    b ∈ blocks p ∧ b ≠ null_block p ∧ ref_cnt (pool_block p b) = 0;
  pi_disj : NoDup (st ++ hi ++ D);
  pi_ref : ∀ b, b ∈ blocks p → b ≠ null_block p → 0 ≤ ref_cnt (pool_block p b);
  pi_cache : cache_ok (pool_heap p) (blocks p) (cached_block_hash_to_block p);
}.

(** The fields no operation changes. *)
Definition same_pool (p p' : BlockPool) : Prop :=
  num_gpu_blocks p' = num_gpu_blocks p ∧ enable_caching p' = enable_caching p ∧
  hash_block_size p' = hash_block_size p ∧ blocks p' = blocks p ∧
  null_block p' = null_block p ∧ enable_kv_cache_events p' = enable_kv_cache_events p ∧
  same_queue (free_block_queue p) (free_block_queue p').

#[export] Instance same_pool_preorder : PreOrder same_pool.
Proof.
  split.
  - intros p. repeat (split; [done|]). by destruct (free_block_queue p).
  - intros p1 p2 p3 (?&?&?&?&?&?&HQ1) (?&?&?&?&?&?&HQ2). repeat (split; [congruence|]).
    destruct (free_block_queue p1), (free_block_queue p2), (free_block_queue p3);
      try done; cbn [same_queue] in *; [congruence|].
    destruct_and!; subst. repeat split; congruence.
Qed.

Lemma pool_inv_ext p p' st hi D :
  pool_inv p st hi D →
  num_gpu_blocks p' = num_gpu_blocks p → blocks p' = blocks p →
  null_block p' = null_block p → pool_heap p' = pool_heap p →
  free_block_queue p' = free_block_queue p →
  cached_block_hash_to_block p' = cached_block_hash_to_block p → pool_inv p' st hi D.
Proof.
  intros [] E1 E2 E3 E4 E5 E6. unfold pool_block in *.
  constructor; unfold pool_block; rewrite ?E1, ?E2, ?E3, ?E4, ?E5, ?E6; done.
Qed.

Lemma pool_inv_ids p st hi D : pool_inv p st hi D → ids_inj (pool_heap p) (blocks p).
Proof.
  intros Hi b b' Hb Hb' E. pose proof (pi_id _ _ _ _ Hi) as Hid. unfold pool_block in Hid.
  rewrite !Hid in E by done. lia.
Qed.

Ltac pool_simpl :=
  cbn [pool_heap set_heap set_cache set_queue blocks null_block num_gpu_blocks
       free_block_queue cached_block_hash_to_block] in *.

(** ** Writes to blocks *)

Lemma queue_repr_links h h' q l :
  (∀ x, links (deref h' x) = links (deref h x)) → queue_repr h q l → queue_repr h' q l.
Proof.
  intros Hl (Hn & Hnd & Hlk & Ht). unfold links in Hl.
  assert (Hp : ∀ x, prev_free_block (deref h' x) = prev_free_block (deref h x))
    by (intros x; specialize (Hl x); congruence).
  assert (Hx : ∀ x, next_free_block (deref h' x) = next_free_block (deref h x))
    by (intros x; specialize (Hl x); congruence).
  split; [done|]. split; [done|]. split; [|by rewrite Hx].
  eapply linked_ext; [|..|exact Hlk]; [by intros; rewrite Hp|by intros; rewrite Hx|done].
Qed.

Lemma bq_repr_links h h' bq st hi :
  (∀ x, links (deref h' x) = links (deref h x) ∧ block_id (deref h' x) = block_id (deref h x)) →
  bq_repr h bq st hi → bq_repr h' bq st hi.
Proof.
  intros Hl. assert (Hl' : ∀ x, links (deref h' x) = links (deref h x)) by (intros; by apply Hl).
  destruct bq as [q|n g qs qh]; simpl.
  - intros [-> Hq]. split; [done|]. by eapply queue_repr_links.
  - intros (H1 & H2 & H3 & H4 & H5).
    split; [by eapply queue_repr_links|]. split; [by eapply queue_repr_links|].
    split; [done|]. split; intros b Hb; rewrite (proj2 (Hl b)); auto.
Qed.

(** A write that keeps a block's identity, links and nullness. *)
Definition keeps_links (f : KVCacheBlock → KVCacheBlock) : Prop :=
  ∀ b, links (f b) = links b ∧ block_id (f b) = block_id b ∧ is_null (f b) = is_null b.

Lemma deref_write_id f b h x :
  keeps_links f → block_id (deref (update b f h) x) = block_id (deref h x) ∧
    links (deref (update b f h) x) = links (deref h x) ∧
    is_null (deref (update b f h) x) = is_null (deref h x).
Proof. intros Hf. rewrite deref_update. case_decide; [|done]. split; [apply Hf|]. split; apply Hf. Qed.

(** A reference-count write moves the block into or out of the blocks in
    transit. *)
Lemma inv_write_ref p st hi D D' b n :
  pool_inv p st hi D → b ∈ blocks p →
  (b ≠ null_block p → 0 ≤ n) →
  (∀ x, x ∈ st ++ hi ++ D' ↔ x ∈ blocks p ∧ x ≠ null_block p ∧
     (if decide (b = x) then n else ref_cnt (pool_block p x)) = 0) →
  NoDup (st ++ hi ++ D') →
  pool_inv (set_heap (update b (set_ref_cnt n) (pool_heap p)) p) st hi D'.
Proof.
  intros Hi Hb Hn Hfree Hnd. assert (Hk : keeps_links (set_ref_cnt n)) by done.
  set (h' := update b (set_ref_cnt n) (pool_heap p)).
  assert (Hr : ∀ x, ref_cnt (deref h' x) = if decide (b = x) then n else ref_cnt (pool_block p x)).
  { intros x. unfold h', pool_block. rewrite deref_update. by case_decide. }
  assert (Hh : ∀ x, _block_hash (deref h' x) = _block_hash (deref (pool_heap p) x)).
  { intros x. unfold h'. rewrite deref_update. by case_decide. }
  pose proof (λ x, deref_write_id (set_ref_cnt n) b (pool_heap p) x Hk) as Hd. fold h' in Hd.
  destruct Hi. constructor; unfold pool_block in *; pool_simpl; fold h'; try done.
  - intros x Hx. rewrite (proj1 (Hd x)). auto.
  - intros x Hx. destruct (Hd x) as (_ & _ & ->). auto.
  - by rewrite Hh.
  - eapply bq_repr_links; [|done]. intros x. destruct (Hd x) as (-> & -> & _). done.
  - intros x. by rewrite Hfree, Hr.
  - intros x Hx Hxn. rewrite Hr. case_decide; subst; auto.
  - eapply cache_ok_meta; [|done]. intros x. split; [apply Hd|apply Hh].
Qed.

(** A hash write with the map updated accordingly. *)
Lemma inv_write_hash p st hi D b k cache :
  pool_inv p st hi D → b ∈ blocks p → (k ≠ None → b ≠ null_block p) →
  cache_ok (update b (set_hash k) (pool_heap p)) (blocks p) cache →
  pool_inv (set_cache cache (set_heap (update b (set_hash k) (pool_heap p)) p)) st hi D.
Proof.
  intros Hi Hb Hn Hc. assert (Hk : keeps_links (set_hash k)) by done.
  set (h' := update b (set_hash k) (pool_heap p)) in *.
  assert (Hr : ∀ x, ref_cnt (deref h' x) = ref_cnt (pool_block p x)).
  { intros x. unfold h', pool_block. rewrite deref_update. by case_decide. }
  pose proof (λ x, deref_write_id (set_hash k) b (pool_heap p) x Hk) as Hd. fold h' in Hd.
  destruct Hi. constructor; unfold pool_block in *; pool_simpl; fold h'; try done.
  - intros x Hx. rewrite (proj1 (Hd x)). auto.
  - intros x Hx. destruct (Hd x) as (_ & _ & ->). auto.
  - unfold h'. rewrite deref_update. case_decide; [|done]. subst b. simpl.
    destruct k; [|done]. by destruct Hn.
  - eapply bq_repr_links; [|done]. intros x. destruct (Hd x) as (-> & -> & _). done.
  - intros x. by rewrite Hr.
  - intros x Hx Hxn. rewrite Hr. auto.
Qed.

Lemma same_queue_fakes bq bq' : same_queue bq bq' → fakes bq' = fakes bq.
Proof.
  destruct bq, bq'; cbn [same_queue fakes]; try done.
  intros (_ & _ & -> & ->). done.
Qed.

(** A step of the queue. *)
Lemma inv_bq_step p p' st hi D st' hi' D' :
  pool_inv p st hi D → bq_step p st' hi' p' →
  st' ++ hi' ++ D' ≡ₚ st ++ hi ++ D →
  pool_inv p' st' hi' D' ∧ same_pool p p' ∧
  kv_event_queue p' = kv_event_queue p ∧ metrics_collector p' = metrics_collector p ∧
  (∀ b, meta (pool_block p' b) = meta (pool_block p b)).
Proof.
  intros Hi (Hq & Hs & Hm & Hp) Hperm.
  pose proof (same_queue_fakes _ _ Hs) as Hf.
  assert (Hb : blocks p' = blocks p ∧ null_block p' = null_block p ∧
    num_gpu_blocks p' = num_gpu_blocks p ∧ cached_block_hash_to_block p' = cached_block_hash_to_block p
    ∧ kv_event_queue p' = kv_event_queue p ∧ metrics_collector p' = metrics_collector p)
    by (rewrite Hp; done).
  destruct Hb as (Hb & Hnb & Hng & Hcc & Hev & Hmc).
  split; [|split; [|split; [done|split; [done|apply Hm]]]].
  - destruct Hi. constructor; unfold pool_block in *; rewrite ?Hb, ?Hnb, ?Hng, ?Hcc; try done.
    + intros x Hx. rewrite (same_meta_id _ _ _ Hm). auto.
    + intros x Hx. rewrite (same_meta_null _ _ _ Hm). auto.
    + by rewrite (same_meta_hash _ _ _ Hm).
    + intros x Hx. rewrite Hf. auto.
    + intros x. rewrite (same_meta_ref _ _ _ Hm), Hperm. auto.
    + by rewrite Hperm.
    + intros x. rewrite (same_meta_ref _ _ _ Hm). auto.
    + eapply cache_ok_meta; [|done]. intros x. split; [by apply same_meta_id|by apply same_meta_hash].
  - rewrite Hp. by repeat (split; [done|]).
Qed.

(** ** Effects of the primitive steps *)

Abbreviation ref p b := (ref_cnt (pool_block p b)).
Abbreviation hash p b := (_block_hash (pool_block p b)).

(** The observable effect of an operation: new reference counts and hashes, and
    the events it appended. *)
Definition effect (p p' : BlockPool) (rf : loc → Z) (hf : loc → option bytes)
    (ev : list KVCacheEvent) : Prop :=
  same_pool p p' ∧ (∀ b, ref p' b = rf b) ∧ (∀ b, hash p' b = hf b) ∧
  kv_event_queue p' = kv_event_queue p ++ ev.

Lemma wp_metric c p (Q : unit → BlockPool → Prop) :
  Q tt (set_metrics ((λ l, l ++ [c]) <$> metrics_collector p) p) → wp (metric c) p Q.
Proof. done. Qed.

Lemma inv_metrics p st hi D m : pool_inv p st hi D → pool_inv (set_metrics m p) st hi D.
Proof. intros H. by apply (pool_inv_ext p). Qed.
Lemma inv_events p st hi D e : pool_inv p st hi D → pool_inv (set_events e p) st hi D.
Proof. intros H. by apply (pool_inv_ext p). Qed.

(** The events of evicting [b]. *)
Definition removed_event (use_int : bool) (p : BlockPool) (b : loc) : list KVCacheEvent :=
  match hash p b with
  | Some k =>
      if enable_kv_cache_events p
      then [BlockRemoved [maybe_convert_block_hash use_int (get_block_hash k)] (get_group_id k)]
      else []
  | None => []
  end.

Lemma same_queue_refl bq : same_queue bq bq.
Proof. by destruct bq. Qed.
#[export] Hint Resolve same_queue_refl : vllm.

Lemma evict_spec use_int p st hi D b :
  pool_inv p st hi D → b ∈ blocks p →
  wp (_maybe_evict_cached_block use_int b) p (λ r p',
    pool_inv p' st hi D ∧ r = bool_decide (hash p b ≠ None) ∧
    effect p p' (λ x, ref p x) (λ x, if decide (b = x) then None else hash p x)
      (removed_event use_int p b)).
Proof.
  intros Hi Hb. unfold _maybe_evict_cached_block. wp_step. apply wp_metric. wp_steps.
  set (p1 := set_metrics _ p). assert (Hi1 : pool_inv p1 st hi D) by by apply inv_metrics.
  change (_block_hash (pool_block p1 b)) with (hash p b).
  destruct (hash p b) as [k|] eqn:Ek.
  2:{ apply wp_ret. split; [done|]. split; [done|].
      split; [repeat (split; [done|]); apply same_queue_refl|]. split; [done|]. split.
      - intros x. case_decide; [|done]. by subst.
      - unfold removed_event. rewrite Ek. by rewrite app_nil_r. }
  destruct (pop_spec (pool_heap p1) (blocks p1) (cached_block_hash_to_block p1) k b)
    as (cache' & Hpop & Hc); [apply Hi1|by eapply pool_inv_ids|done|done|].
  unfold pool_block at 1. rewrite Hpop. wp_step. apply wp_modify. wp_step.
  unfold wr_block. wp_step. wp_step. unfold emit. wp_step. wp_step.
  set (p2 := set_heap _ _).
  assert (Hi2 : pool_inv p2 st hi D) by (apply (inv_write_hash p1 st hi D b None); done).
  assert (Hh : ∀ x, hash p2 x = if decide (b = x) then None else hash p x).
  { intros x. unfold p2, pool_block. simpl. rewrite deref_update. by case_decide. }
  assert (Hr : ∀ x, ref p2 x = ref p x).
  { intros x. unfold p2, pool_block. simpl. rewrite deref_update. by case_decide. }
  change (enable_kv_cache_events p2) with (enable_kv_cache_events p).
  unfold removed_event. rewrite Ek.
  destruct (enable_kv_cache_events p) eqn:Ee; apply wp_ret.
  - split; [by apply inv_events|]. split; [done|].
    split; [repeat (split; [done|]); apply same_queue_refl|]. done.
  - split; [done|]. split; [done|].
    split; [repeat (split; [done|]); apply same_queue_refl|]. rewrite app_nil_r. done.
Qed.

Lemma take_ref_spec p st hi D b :
  pool_inv p st hi (b :: D) →
  wp (take_ref b) p (λ _ p',
    pool_inv p' st hi D ∧
    effect p p' (λ x, if decide (b = x) then 1 else ref p x) (λ x, hash p x) []).
Proof.
  intros Hi. assert (Hb : b ∈ blocks p ∧ b ≠ null_block p ∧ ref p b = 0)
    by (apply (pi_free _ _ _ _ Hi); set_solver).
  destruct Hb as (Hb & Hbn & Hb0). unfold take_ref. wp_steps.
  apply wp_assert; [by rewrite Hb0|]. unfold wr_block. wp_steps. apply wp_metric.
  assert (Hh : update b (λ b0, set_ref_cnt (ref_cnt b0 + 1) b0) (pool_heap p) =
               update b (set_ref_cnt 1) (pool_heap p)).
  { unfold update. unfold pool_block in Hb0. rewrite Hb0. done. }
  rewrite Hh. split.
  - apply inv_metrics. eapply (inv_write_ref p st hi (b :: D)); [done..|lia| |].
    + intros x. pose proof (pi_free _ _ _ _ Hi x) as Hx. pose proof (pi_disj _ _ _ _ Hi) as Hnd.
      rewrite app_assoc in Hnd. apply NoDup_app in Hnd as (_ & Hd & Hnd).
      apply NoDup_cons in Hnd as [HbD _]. case_decide as Hbx.
      * subst x. split; [|lia]. intros Hin. exfalso. rewrite app_assoc in Hin.
        apply elem_of_app in Hin as [Hin|Hin]; [|done]. apply (Hd b Hin). set_solver.
      * rewrite <-Hx. set_solver.
    + pose proof (pi_disj _ _ _ _ Hi) as Hnd. rewrite !NoDup_app in *.
      destruct Hnd as (? & ? & ? & ? & Hnd). apply NoDup_cons in Hnd as [_ ?]. set_solver.
  - split; [repeat (split; [done|]); apply same_queue_refl|].
    split; [|split; [|by rewrite app_nil_r]].
    + intros x. unfold pool_block. simpl. rewrite deref_update. by case_decide.
    + intros x. unfold pool_block. simpl. rewrite deref_update. by case_decide.
Qed.

Lemma effect_trans p1 p2 p3 rf hf ev rf' hf' ev' :
  effect p1 p2 rf hf ev → effect p2 p3 rf' hf' ev' → effect p1 p3 rf' hf' (ev ++ ev').
Proof.
  intros (S1 & R1 & H1 & E1) (S2 & R2 & H2 & E2).
  split; [by etransitivity|]. split; [done|]. split; [done|].
  by rewrite E2, E1, app_assoc.
Qed.

Lemma effect_ext p p' rf hf ev rf' hf' ev' :
  effect p p' rf hf ev → (∀ b, rf b = rf' b) → (∀ b, hf b = hf' b) → ev = ev' →
  effect p p' rf' hf' ev'.
Proof.
  intros (S1 & R1 & H1 & E1) Hr Hh ->. split; [done|].
  split; [intros b; by rewrite R1|]. split; [|done]. intros b; by rewrite H1.
Qed.

Lemma bq_step_effect p p' st hi D st' hi' D' :
  pool_inv p st hi D → bq_step p st' hi' p' → st' ++ hi' ++ D' ≡ₚ st ++ hi ++ D →
  pool_inv p' st' hi' D' ∧ effect p p' (λ x, ref p x) (λ x, hash p x) [].
Proof.
  intros Hi Hs Hp. destruct (inv_bq_step _ _ _ _ _ _ _ D' Hi Hs Hp) as (H1 & H2 & H3 & _ & H4).
  split; [done|]. split; [done|]. unfold meta in H4. split; [|split].
  - intros b. specialize (H4 b). congruence.
  - intros b. specialize (H4 b). congruence.
  - by rewrite H3, app_nil_r.
Qed.

(** ** get_new_blocks *)

Lemma get_num_free_blocks_spec p st hi D gid :
  pool_inv p st hi D →
  get_num_free_blocks p gid =
    match alloc_part (free_block_queue p) gid with
    | Some true => zlen st
    | Some false => zlen hi
    | None => zlen (st ++ hi)
    end.
Proof.
  intros Hi. pose proof (pi_queue _ _ _ _ Hi) as Hq. unfold get_num_free_blocks, alloc_part.
  destruct (free_block_queue p) as [q|n g qs qh]; simpl in Hq.
  - destruct Hq as [_ (Hn & _)]. done.
  - destruct Hq as ((Hn & _) & (Hn' & _) & _). destruct gid; [by case_match|].
    unfold PartitionedQueue.num_free_blocks_. rewrite zlen_app. congruence.
Qed.

Definition removed_events use_int p bs := concat (removed_event use_int p <$> bs).

(** The loop of [get_new_blocks] over the blocks popped from the free list. *)
Lemma claim_loop_spec use_int (evict : bool) p st hi ret :
  pool_inv p st hi ret →
  wp (foreach ret (λ b, (if evict then _maybe_evict_cached_block use_int b ;; mret tt else mret tt) ;;
                        take_ref b)) p (λ _ p',
    pool_inv p' st hi [] ∧
    effect p p' (λ x, if decide (x ∈ ret) then 1 else ref p x)
      (λ x, if decide (evict = true ∧ x ∈ ret) then None else hash p x)
      (if evict then removed_events use_int p ret else [])).
Proof.
  intros Hi. pose proof (pi_disj _ _ _ _ Hi) as Hnd.
  apply NoDup_app in Hnd as (_ & _ & Hnd). apply NoDup_app in Hnd as (_ & _ & Hnd).
  pose (I := λ (pre : list loc) p',
    pool_inv p' st hi (drop (length pre) ret) ∧
    effect p p' (λ x, if decide (x ∈ pre) then 1 else ref p x)
      (λ x, if decide (evict = true ∧ x ∈ pre) then None else hash p x)
      (if evict then removed_events use_int p pre else [])).
  eapply wp_mono; [apply (wp_foreach I)|].
  - split; [done|]. split; [reflexivity|]. split; [|split].
    + intros x. by rewrite decide_False by set_solver.
    + intros x. rewrite decide_False; [done|]. intros [_ Hx]. set_solver.
    + by case_match; rewrite app_nil_r.
  - intros pre b post p1 -> [Hi1 He1]. unfold I.
    rewrite drop_app_length in Hi1.
    assert (Hdr : drop (length (pre ++ [b])) (pre ++ b :: post) = post)
      by (rewrite length_app, <-drop_drop, drop_app_length; done).
    rewrite Hdr.
    assert (Hbp : b ∉ pre) by (apply NoDup_app in Hnd as (_ & Hd & _); intros Hp; apply (Hd b Hp); set_solver).
    assert (Hb : b ∈ blocks p1) by (apply (pi_free _ _ _ _ Hi1); set_solver).
    wp_step. set (ev := if evict then removed_event use_int p b else []).
    assert (Hev : wp (if evict then _maybe_evict_cached_block use_int b ;; mret tt else mret tt) p1
      (λ _ p2, pool_inv p2 st hi (b :: post) ∧
        effect p p2 (λ x, if decide (x ∈ pre) then 1 else ref p x)
          (λ x, if decide (evict = true ∧ x ∈ pre ++ [b]) then None else hash p x)
          ((if evict then removed_events use_int p pre else []) ++ ev))).
    { destruct evict.
      - wp_step. eapply wp_mono; [by apply evict_spec|].
        intros r p2 (Hi2 & _ & He2). wp_steps. split; [done|].
        pose proof He1 as ((_&_&_&_&_&Hee&_) & Hr1 & Hh1 & _).
        eapply effect_ext; [exact (effect_trans _ _ _ _ _ _ _ _ _ He1 He2)|..].
        + intros x. simpl. by rewrite Hr1.
        + intros x. simpl. rewrite Hh1. destruct (decide (b = x)) as [->|Hbx].
          * rewrite decide_True; [done|]. split; [done|set_solver].
          * apply decide_ext. set_solver.
        + f_equal. unfold ev, removed_event. rewrite Hh1, Hee.
          rewrite decide_False; [done|]. intros [_ ?]. done.
      - wp_step. split; [done|]. unfold ev. rewrite app_nil_r.
        eapply effect_ext; [exact He1|done| |done]. intros x. by rewrite !decide_False by naive_solver. }
    eapply wp_mono; [exact Hev|]. intros [] p2 [Hi2 He2].
    eapply wp_mono; [by apply take_ref_spec|]. intros [] p3 [Hi3 He3]. split; [done|].
    pose proof He2 as (_ & Hr2 & Hh2 & _).
    eapply effect_ext; [exact (effect_trans _ _ _ _ _ _ _ _ _ He2 He3)|..].
    + intros x. simpl. rewrite Hr2. repeat case_decide; subst; try done; set_solver.
    + intros x. simpl. by rewrite Hh2.
    + rewrite app_nil_r. unfold ev. destruct evict; [|done].
      unfold removed_events. rewrite fmap_app, concat_app. simpl. by rewrite app_nil_r.
  - intros [] p' [Hi' He']. rewrite drop_all in Hi'. by split.
Qed.

Lemma foreach_ext {S A} (f g : A → M S unit) l s :
  (∀ x s, f x s = g x s) → foreach l f s = foreach l g s.
Proof.
  intros Hfg. revert s. induction l as [|x l IH]; intros s; [done|]. simpl.
  unfold mbind, M_bind. rewrite Hfg. destruct (g x s) as [[[]|e] s']; auto.
Qed.

Lemma wp_eq {S A} (m m' : M S A) s Q : m' s = m s → wp m s Q → wp m' s Q.
Proof. unfold wp. by intros ->. Qed.

Lemma get_new_blocks_ok use_int p st hi n gid (part : bool) :
  pool_inv p st hi [] → alloc_part (free_block_queue p) gid = Some part →
  0 ≤ n ≤ zlen (if part then st else hi) →
  wp (get_new_blocks use_int n gid) p (λ ret p',
    ret = take (Z.to_nat n) (if part then st else hi) ∧
    pool_inv p' (if part then drop (Z.to_nat n) st else st)
      (if part then hi else drop (Z.to_nat n) hi) [] ∧
    effect p p' (λ x, if decide (x ∈ ret) then 1 else ref p x)
      (λ x, if decide (enable_caching p = true ∧ x ∈ ret) then None else hash p x)
      (if enable_caching p then removed_events use_int p ret else [])).
Proof.
  intros Hi Hpart Hn. unfold get_new_blocks. wp_step. apply wp_get.
  rewrite (get_num_free_blocks_spec p st hi [] gid Hi), Hpart.
  rewrite (proj2 (Z.ltb_ge _ n)) by (by destruct part; lia). wp_step.
  eapply wp_mono; [by eapply fq_popleft_n_spec; [apply Hi|..]|].
  intros ret p1 [Hret Hs].
  assert (Hperm : (if part then drop (Z.to_nat n) st else st) ++
    (if part then hi else drop (Z.to_nat n) hi) ++ ret ≡ₚ st ++ hi ++ []).
  { rewrite Hret, app_nil_r. destruct part.
    - rewrite <-(take_drop (Z.to_nat n) st) at 3. solve_Permutation.
    - rewrite <-(take_drop (Z.to_nat n) hi) at 3. solve_Permutation. }
  destruct (bq_step_effect _ _ _ _ _ _ _ _ Hi Hs Hperm) as [Hi1 He1].
  wp_step.
  assert (Hec : enable_caching p1 = enable_caching p) by apply He1.
  assert (Hw := claim_loop_spec use_int (enable_caching p) p1 _ _ ret Hi1).
  eapply wp_mono.
  { eapply wp_eq; [|exact Hw]. destruct (enable_caching p); apply foreach_ext; [|done].
    intros x s. unfold mbind, M_bind. by destruct (_maybe_evict_cached_block use_int x s) as [[?|?] ?]. }
  intros [] p2 [Hi2 He2]. wp_step. split; [done|]. split; [done|].
  pose proof He1 as ((_&_&_&_&_&Hee&_) & Hr1 & Hh1 & _).
  eapply effect_ext; [exact (effect_trans _ _ _ _ _ _ _ _ _ He1 He2)|..].
  - intros x. simpl. by rewrite Hr1.
  - intros x. simpl. by rewrite Hh1.
  - simpl. destruct (enable_caching p); [|done]. unfold removed_events. f_equal.
    apply list_fmap_ext. intros i x _. unfold removed_event. by rewrite Hh1, Hee.
Qed.

(** ** touch *)

Definition count (x : loc) (l : list loc) : Z := Z.of_nat (count_occ Nat.eq_dec l x).

Lemma count_snoc x l b : count x (l ++ [b]) = count x l + (if decide (b = x) then 1 else 0).
Proof.
  unfold count. rewrite count_occ_app. simpl.
  destruct (Nat.eq_dec b x), (decide (b = x)); try done; lia.
Qed.

Lemma count_not_in x l : x ∉ l → count x l = 0.
Proof.
  intros Hx. unfold count. rewrite (proj1 (count_occ_not_In Nat.eq_dec l x)); [done|].
  by rewrite <-list_elem_of_In.
Qed.

Lemma count_nonneg x l : 0 ≤ count x l.
Proof. unfold count. lia. Qed.

(** Writing a reference count: the effect. *)
Lemma write_ref_effect p b f :
  effect p (set_heap (update b (λ k, set_ref_cnt (f (ref_cnt k)) k) (pool_heap p)) p)
    (λ x, if decide (b = x) then f (ref p x) else ref p x) (λ x, hash p x) [].
Proof.
  split; [repeat (split; [done|]); apply same_queue_refl|].
  split; [|split; [|by rewrite app_nil_r]]; intros x; unfold pool_block; simpl;
    rewrite deref_update; by case_decide.
Qed.

Lemma update_ref_const p b f :
  update b (λ k, set_ref_cnt (f (ref_cnt k)) k) (pool_heap p) =
  update b (set_ref_cnt (f (ref p b))) (pool_heap p).
Proof. done. Qed.

Lemma effect_metrics p m : effect p (set_metrics m p) (λ x, ref p x) (λ x, hash p x) [].
Proof.
  split; [repeat (split; [done|]); apply same_queue_refl|]. by rewrite app_nil_r.
Qed.

Lemma filter_notin_snoc (l pre : list loc) b :
  filter (.≠ b) (filter (.∉ pre) l) = filter (.∉ pre ++ [b]) l.
Proof. rewrite list_filter_filter. apply list_filter_iff. set_solver. Qed.

Lemma filter_notin_skip (l pre : list loc) b :
  b ∉ filter (.∉ pre) l → filter (.∉ pre ++ [b]) l = filter (.∉ pre) l.
Proof. intros Hb. rewrite <-filter_notin_snoc. by apply filter_absent. Qed.

(** The second half of [touch]: the count goes up once the block is out of the
    free list. *)
Lemma touch_write_spec p st hi D b :
  pool_inv p st hi D → b ∈ blocks p →
  (∀ x, x ∈ D ↔ x = b ∧ b ≠ null_block p ∧ ref p b = 0) →
  0 ≤ ref p b ∨ b = null_block p → (b ∉ st ++ hi) →
  wp (wr_block b (λ b, set_ref_cnt (ref_cnt b + 1) b) ;; metric (on_block_accessed b)) p
    (λ _ p', pool_inv p' st hi [] ∧
      effect p p' (λ x, if decide (b = x) then ref p x + 1 else ref p x) (λ x, hash p x) []).
Proof.
  intros Hi1 Hb HD Hr Hbn. unfold wr_block. wp_steps. apply wp_metric. split.
  - apply inv_metrics. rewrite (update_ref_const p b (λ z, z + 1)).
    eapply (inv_write_ref p st hi D); [done|done| |  |].
    + intros. destruct Hr; [lia|done].
    + intros x. rewrite app_nil_r. pose proof (pi_free _ _ _ _ Hi1 x) as Hx.
      case_decide as Hbx; [subst x|].
      * split; [done|]. intros (? & ? & ?). destruct Hr; [lia|done].
      * rewrite <-Hx. rewrite (assoc_L (++)), (elem_of_app (st ++ hi)), HD. naive_solver.
    + pose proof (pi_disj _ _ _ _ Hi1) as Hnd. rewrite (assoc_L (++)) in Hnd.
      rewrite app_nil_r. by apply NoDup_app in Hnd as [? _].
  - eapply effect_ext; [eapply effect_trans; [apply (write_ref_effect p b (λ z, z + 1))|apply effect_metrics]|..].
    + intros x. unfold pool_block. simpl. rewrite deref_update. by case_decide.
    + intros x. unfold pool_block. simpl. rewrite deref_update. by case_decide.
    + done.
Qed.

Lemma touch_step_spec p st hi b :
  pool_inv p st hi [] → b ∈ blocks p →
  wp (p ← get;
      when ((ref_cnt (pool_block p b) =? 0) && negb (is_null (pool_block p b))) (fq_remove b) ;;
      wr_block b (λ b, set_ref_cnt (ref_cnt b + 1) b) ;;
      metric (on_block_accessed b)) p (λ _ p',
    pool_inv p' (filter (.≠ b) st) (filter (.≠ b) hi) [] ∧
    effect p p' (λ x, if decide (b = x) then ref p x + 1 else ref p x) (λ x, hash p x) []).
Proof.
  intros Hi Hb. wp_steps.
  apply wp_when.
  - intros [H0 Hn]%andb_true_iff. apply Z.eqb_eq in H0.
    rewrite (pi_is_null _ _ _ _ Hi b Hb) in Hn. apply negb_true_iff, bool_decide_eq_false in Hn.
    assert (Hin : b ∈ st ++ hi).
    { assert (b ∈ st ++ hi ++ []) by (by apply (pi_free _ _ _ _ Hi)). by rewrite app_nil_r in *. }
    eapply wp_mono; [apply fq_remove_spec; [apply Hi|done]|]. intros [] p1 Hs.
    assert (Hnd := bq_nodup _ _ _ _ (pi_queue _ _ _ _ Hi)).
    assert (Hperm : filter (.≠ b) st ++ filter (.≠ b) hi ++ [b] ≡ₚ st ++ hi ++ []).
    { rewrite (assoc_L (++)), <-filter_app, app_nil_r.
      apply list_elem_of_split in Hin as (l1 & l2 & E). rewrite E in *.
      rewrite filter_remove by done. solve_Permutation. }
    destruct (bq_step_effect _ _ _ _ _ _ _ _ Hi Hs Hperm) as [Hi1 He1].
    pose proof He1 as (Hs1 & Hr1 & Hh1 & _).
    pose proof Hs1 as (_ & _ & _ & Hbl & Hnl & _).
    eapply wp_mono; [eapply touch_write_spec; [exact Hi1|by rewrite Hbl|..]|].
    + intros x. rewrite list_elem_of_singleton, Hr1, Hnl. naive_solver.
    + left. rewrite Hr1. lia.
    + rewrite <-filter_app, list_elem_of_filter. by intros [? _].
    + intros [] p2 [Hi2 He2]. split; [done|].
      eapply effect_ext; [exact (effect_trans _ _ _ _ _ _ _ _ _ He1 He2)|..]; try done.
      intros x. simpl. by rewrite Hr1.
  - intros Hc. assert (Hr : b = null_block p ∨ ref p b ≠ 0).
    { apply andb_false_iff in Hc as [Hc|Hc]; [right; by apply Z.eqb_neq|left].
      rewrite (pi_is_null _ _ _ _ Hi b Hb) in Hc. by apply negb_false_iff, bool_decide_eq_true in Hc. }
    assert (Hnin : b ∉ st ++ hi).
    { intros Hin. assert (b ∈ st ++ hi ++ []) as Hf by by rewrite app_nil_r.
      apply (pi_free _ _ _ _ Hi) in Hf as (_ & ? & ?). by destruct Hr. }
    rewrite !filter_absent by (intros ?; apply Hnin, elem_of_app; auto).
    eapply (touch_write_spec p st hi []); [done|done| | |done].
    + intros x. split; [by intros ?%not_elem_of_nil|]. intros (_ & ? & ?). by destruct Hr.
    + destruct (decide (b = null_block p)); [by right|left]. by apply Hi.
Qed.

Lemma touch_ok p st hi bs :
  pool_inv p st hi [] → (∀ b, b ∈ bs → b ∈ blocks p) →
  wp (touch bs) p (λ _ p',
    pool_inv p' (filter (.∉ bs) st) (filter (.∉ bs) hi) [] ∧
    effect p p' (λ x, ref p x + count x bs) (λ x, hash p x) []).
Proof.
  intros Hi Hbs. unfold touch.
  eapply wp_mono; [apply (wp_foreach (λ pre p', pool_inv p' (filter (.∉ pre) st) (filter (.∉ pre) hi) [] ∧
    effect p p' (λ x, ref p x + count x pre) (λ x, hash p x) []))|done].
  - rewrite !filter_true by set_solver. split; [done|]. split; [reflexivity|].
    split; [intros x; by rewrite count_not_in, Z.add_0_r by set_solver|].
    split; [done|by rewrite app_nil_r].
  - intros pre b post p1 -> [Hi1 He1]. pose proof He1 as (Hs1 & Hr1 & Hh1 & _).
    eapply wp_mono; [apply touch_step_spec; [exact Hi1|]|].
    { destruct Hs1 as (_ & _ & _ & -> & _). apply Hbs. set_solver. }
    intros [] p2 [Hi2 He2]. rewrite !filter_notin_snoc in Hi2. split; [done|].
    eapply effect_ext; [exact (effect_trans _ _ _ _ _ _ _ _ _ He1 He2)|..].
    + intros x. simpl. rewrite Hr1, count_snoc. case_decide; lia.
    + done.
    + done.
Qed.
