(* ===== verification/BlockPoolOps.v ===== *)
(** * Freeing, caching and resetting the block pool

    The specifications of [free_blocks], [cache_full_blocks], [get_cached_block],
    [evict_blocks], [reset_prefix_cache] and the constructor, and the properties
    of the pool's operations. *)

From Stdlib Require Import Strings.Byte.
From S2P Require Import Prelude.
From S2P Require Import FreeQueue.
From S2P Require Import FreeQueueSpec.
From S2P Require Import Request.
From S2P Require Import BlockHash.
From S2P Require Import BlockHashSpec.
From S2P Require Import BlockPool.
From S2P Require Import BlockPoolInv.
From S2P Require Import BlockPoolSpec.

Import Pool.
Local Open Scope Z_scope.

(** ** free_blocks *)

(** Freeing gives up references the caller holds: a non-null block occurs once
    and has a positive count. *)
Definition freeable (p : BlockPool) (bs : list loc) : Prop :=
  NoDup (filter (.≠ null_block p) bs) ∧
  ∀ b, b ∈ bs → b ∈ blocks p ∧ (b ≠ null_block p → 0 < ref p b).

(** The blocks whose last reference is given up. *)
Definition freed (p : BlockPool) (bs : list loc) : list loc :=
  filter (λ b, b ≠ null_block p ∧ ref p b = 1) bs.

Definition freed_front (p : BlockPool) (bs : list loc) (reuse_first : bool) : list loc :=
  if enable_caching p then filter (λ b, reuse_first = true ∨ hash p b = None) (freed p bs) else [].
Definition freed_back (p : BlockPool) (bs : list loc) (reuse_first : bool) : list loc :=
  if enable_caching p then filter (λ b, reuse_first = false ∧ hash p b ≠ None) (freed p bs)
  else freed p bs.

Lemma decr_step_spec p st hi D b :
  pool_inv p st hi D → b ∈ blocks p → (b ≠ null_block p → 0 < ref p b) →
  wp (wr_block b (λ b, set_ref_cnt (ref_cnt b - 1) b)) p (λ _ p',
    pool_inv p' st hi (D ++ filter (λ b, b ≠ null_block p ∧ ref p b = 1) [b]) ∧
    effect p p' (λ x, if decide (b = x) then ref p x - 1 else ref p x) (λ x, hash p x) []).
Proof.
  intros Hi Hb Hr. unfold wr_block. wp_steps. split; [|apply (write_ref_effect p b (λ z, z - 1))].
  rewrite (update_ref_const p b (λ z, z - 1)). rewrite filter_one.
  pose proof (pi_free _ _ _ _ Hi) as Hfree. pose proof (pi_disj _ _ _ _ Hi) as Hnd.
  assert (Hnin : b ∉ st ++ hi ++ D) by (rewrite Hfree; intros (_ & Hn & H0); specialize (Hr Hn); lia).
  eapply (inv_write_ref p st hi D); [done|done|intros Hn; specialize (Hr Hn); lia|..].
  - intros x. rewrite !(assoc_L (++)), elem_of_app, <-(assoc_L (++)), Hfree.
    destruct (decide (b = x)) as [->|Hbx].
    + rewrite <-Hfree. case_decide as Hc.
      * rewrite list_elem_of_singleton. split; [|by right]. intros _. destruct Hc. split; [done|]. split; [done|lia].
      * split; [by intros [?|?%not_elem_of_nil]|]. intros (_ & Hn & H0). destruct Hc. split; [done|lia].
    + case_decide; [rewrite list_elem_of_singleton|rewrite elem_of_nil]; naive_solver.
  - rewrite !(assoc_L (++)), NoDup_app, <-(assoc_L (++)). split; [done|].
    case_decide; (split; [|first [apply NoDup_singleton|constructor]]).
    + intros x Hx ->%list_elem_of_singleton. done.
    + by intros x _ ?%not_elem_of_nil.
Qed.

Lemma decr_loop_spec p st hi bs :
  pool_inv p st hi [] → freeable p bs →
  wp (foreach bs (λ block, wr_block block (λ b, set_ref_cnt (ref_cnt b - 1) b))) p (λ _ p',
    pool_inv p' st hi (freed p bs) ∧
    effect p p' (λ x, ref p x - count x bs) (λ x, hash p x) []).
Proof.
  intros Hi [Hnd Hbs].
  eapply wp_mono; [apply (wp_foreach (λ pre p', pool_inv p' st hi (freed p pre) ∧
    effect p p' (λ x, ref p x - count x pre) (λ x, hash p x) []))|done].
  - split; [done|]. split; [reflexivity|].
    split; [intros x; by rewrite count_not_in, Z.sub_0_r by apply not_elem_of_nil|].
    split; [done|by rewrite app_nil_r].
  - intros pre b post p1 -> [Hi1 He1]. pose proof He1 as (Hs1 & Hr1 & Hh1 & _).
    pose proof Hs1 as (_ & _ & _ & Hbl & Hnl & _).
    destruct (Hbs b) as [Hb Hr]; [set_solver|].
    assert (Hrb : b ≠ null_block p → ref p1 b = ref p b).
    { intros Hn. rewrite Hr1, count_not_in; [lia|]. intros Hpre.
      rewrite filter_app, filter_cons_True in Hnd by done.
      apply NoDup_app in Hnd as (_ & Hd & _). apply (Hd b); [|set_solver].
      by apply list_elem_of_filter. }
    eapply wp_mono; [apply decr_step_spec; [exact Hi1|by rewrite Hbl|]|].
    { rewrite Hnl. intros Hn. rewrite Hrb by done. auto. }
    intros [] p2 [Hi2 He2]. split.
    + unfold freed in *. rewrite filter_app. rewrite Hnl in Hi2. rewrite !filter_one in *.
      erewrite (decide_ext (b ≠ null_block p ∧ ref p b = 1)); [exact Hi2|].
      split; intros [Hn H1]; specialize (Hrb Hn); (split; [done|lia]).
    + eapply effect_ext; [exact (effect_trans _ _ _ _ _ _ _ _ _ He1 He2)|..].
      * intros x. simpl. rewrite Hr1, count_snoc. case_decide; lia.
      * done.
      * done.
Qed.

Lemma freed_after p p1 st hi bs :
  pool_inv p st hi [] → freeable p bs →
  effect p p1 (λ x, ref p x - count x bs) (λ x, hash p x) [] →
  (∀ b, b ∈ bs → is_null (pool_block p1 b) = is_null (pool_block p b)) →
  filter (λ b, ref_cnt (pool_block p1 b) = 0 ∧ is_null (pool_block p1 b) = false) bs = freed p bs.
Proof.
  intros Hi [Hnd Hbs] (_ & Hr & _) Hnull. unfold freed.
  assert (Hiff : ∀ b, b ∈ bs → (ref p1 b = 0 ∧ is_null (pool_block p1 b) = false) ↔
    (b ≠ null_block p ∧ ref p b = 1)).
  { intros b Hb. rewrite Hnull, Hr by done. destruct (Hbs b Hb) as [Hbb Hpos].
    rewrite (pi_is_null _ _ _ _ Hi b Hbb), bool_decide_eq_false.
    assert (Hc : b ≠ null_block p → count b bs = 1).
    { intros Hn. apply list_elem_of_split in Hb as (l1 & l2 & ->).
      rewrite filter_app, filter_cons_True in Hnd by done.
      apply NoDup_app in Hnd as (_ & Hd & Hnd). apply NoDup_cons in Hnd as [Hl2 _].
      replace (l1 ++ b :: l2) with ((l1 ++ [b]) ++ l2) by by rewrite <-(assoc_L (++)).
      unfold count. rewrite !count_occ_app. simpl. destruct (Nat.eq_dec b b); [|done].
      assert (H1 : count b l1 = 0).
      { apply count_not_in. intros Hin. apply (Hd b); [by apply list_elem_of_filter|set_solver]. }
      assert (H2 : count b l2 = 0).
      { apply count_not_in. intros Hin. apply Hl2. by apply list_elem_of_filter. }
      unfold count in *. lia. }
    split; intros [? ?]; (split; [lia|]) || (split; [done|]); try rewrite Hc in * by done; try done; lia. }
  clear -Hiff. induction bs as [|b bs IH]; [done|].
  rewrite !filter_cons. rewrite IH by (intros; apply Hiff; set_solver).
  erewrite decide_ext; [done|]. apply Hiff. set_solver.
Qed.

Lemma free_blocks_ok p st hi bs reuse_first :
  pool_inv p st hi [] → freeable p bs →
  let bq := free_block_queue p in
  let front := freed_front p bs reuse_first in
  let back := freed_back p bs reuse_first in
  wp (free_blocks bs reuse_first) p (λ _ p',
    pool_inv p'
      (part_filter bq (pool_heap p) true front ++ st ++ part_filter bq (pool_heap p) true back)
      (part_filter bq (pool_heap p) false front ++ hi ++ part_filter bq (pool_heap p) false back) [] ∧
    effect p p' (λ x, ref p x - count x bs) (λ x, hash p x) []).
Proof.
  intros Hi Hf bq front back. unfold free_blocks. wp_step.
  eapply wp_mono; [by apply decr_loop_spec|]. intros [] p1 [Hi1 He1].
  pose proof He1 as ((Hng & Hec & _ & Hbl & Hnl & _ & Hsq) & Hr1 & Hh1 & _). wp_steps.
  assert (Hfreed : filter (λ b, ref_cnt (pool_block p1 b) = 0 ∧ is_null (pool_block p1 b) = false) bs
    = freed p bs).
  { apply (freed_after p p1 st hi bs Hi Hf He1). intros b Hb. destruct Hf as [_ Hf].
    rewrite (pi_is_null _ _ _ _ Hi1), (pi_is_null _ _ _ _ Hi), Hnl; [done|by apply Hf|].
    rewrite Hbl. by apply Hf. }
  rewrite Hfreed, Hec. pose proof (pi_disj _ _ _ _ Hi1) as Hnd.
  assert (Hids : ∀ b, b ∈ blocks p → block_id (pool_block p1 b) = block_id (pool_block p b)).
  { intros b Hb. rewrite (pi_id _ _ _ _ Hi1), (pi_id _ _ _ _ Hi) by by rewrite ?Hbl. done. }
  assert (Hfb : ∀ b, b ∈ freed p bs → b ∈ blocks p ∧ b ∉ st ++ hi).
  { intros b Hb. split.
    - apply list_elem_of_filter in Hb as [_ Hb]. by apply Hf.
    - rewrite (assoc_L (++)) in Hnd. apply NoDup_app in Hnd as (_ & Hd & _). intros Hin. by apply (Hd b). }
  assert (Hpart : ∀ p2 v l, same_queue bq (free_block_queue p2) →
    (∀ b, b ∈ l → block_id (pool_block p2 b) = block_id (pool_block p b)) →
    part_filter (free_block_queue p2) (pool_heap p2) v l = part_filter bq (pool_heap p) v l)
    by (intros; by apply part_filter_meta).
  assert (Hpf := part_filter_perm bq (pool_heap p)).
  unfold freed_front, freed_back in *. destruct (enable_caching p) eqn:Ecache.
  - (* prepend the scratch, append the cached *)
    assert (Hhash1 : ∀ b, hash p1 b = hash p b) by done.
    rewrite (list_filter_iff (λ b, reuse_first = true ∨ hash p1 b = None)
      (λ b, reuse_first = true ∨ hash p b = None)) by (intros; by rewrite Hhash1).
    fold front. wp_step.
    assert (Hfront : ∀ b, b ∈ front → b ∈ freed p bs) by (intros b; unfold front; rewrite list_elem_of_filter; tauto).
    assert (Hback : ∀ b, b ∈ back → b ∈ freed p bs) by (intros b; unfold back; rewrite list_elem_of_filter; tauto).
    assert (Hndf : NoDup (freed p bs)) by (rewrite !NoDup_app in Hnd; tauto).
    assert (Hfb_perm : front ++ back ≡ₚ freed p bs).
    { unfold front, back. etransitivity; [|apply (filter_app_complement (λ b, reuse_first = true ∨ hash p b = None))].
      f_equiv. erewrite list_filter_iff; [done|]. intros b. destruct reuse_first; naive_solver. }
    eapply wp_mono; [apply fq_prepend_n_spec; [apply Hi1|by apply NoDup_filter|]|].
    { intros b Hb%Hfront%Hfb. split; [tauto|]. apply Hi1. rewrite Hbl. tauto. }
    intros [] p2 Hs2. rewrite !(Hpart p1) in Hs2 by (first [exact Hsq|intros b Hb%Hfront%Hfb; apply Hids; tauto]).
    assert (Hperm2 : (part_filter bq (pool_heap p) true front ++ st) ++
      (part_filter bq (pool_heap p) false front ++ hi) ++ back ≡ₚ st ++ hi ++ freed p bs).
    { rewrite <-Hfb_perm. rewrite <-(Hpf front) at 3. solve_Permutation. }
    destruct (bq_step_effect _ _ _ _ _ _ _ _ Hi1 Hs2 Hperm2) as [Hi2 He2].
    pose proof He2 as ((_ & _ & _ & Hbl2 & _ & _ & Hsq2) & _ & Hh2 & _).
    rewrite (list_filter_iff (λ b, reuse_first = false ∧ hash p1 b ≠ None)
      (λ b, reuse_first = false ∧ hash p b ≠ None)) by (intros; by rewrite Hhash1).
    fold back. pose proof (pi_disj _ _ _ _ Hi2) as Hnd2. rewrite (assoc_L (++)) in Hnd2.
    apply NoDup_app in Hnd2 as (_ & Hd2 & Hndb).
    eapply wp_mono; [apply fq_append_n_spec; [apply Hi2|done|]|].
    { intros b Hb. split; [intros Hin; by apply (Hd2 b)|]. apply Hi2. rewrite Hbl2, Hbl. by apply Hback, Hfb in Hb as [? _]. }
    intros [] p3 Hs3.
    assert (Hsq3 : same_queue bq (free_block_queue p2)).
    { destruct (same_pool_preorder) as [_ Htr]. by apply (Htr p p1 p2); [apply He1|apply He2]. }
    rewrite !(Hpart p2) in Hs3 by (first [exact Hsq3|intros b Hb%Hback%Hfb;
      rewrite (pi_id _ _ _ _ Hi2), (pi_id _ _ _ _ Hi) by (rewrite ?Hbl2, ?Hbl; tauto); done]).
    assert (Hperm3 : ((part_filter bq (pool_heap p) true front ++ st) ++ part_filter bq (pool_heap p) true back) ++
      ((part_filter bq (pool_heap p) false front ++ hi) ++ part_filter bq (pool_heap p) false back) ++ [] ≡ₚ
      (part_filter bq (pool_heap p) true front ++ st) ++ (part_filter bq (pool_heap p) false front ++ hi) ++ back).
    { rewrite <-(Hpf back) at 3. solve_Permutation. }
    destruct (bq_step_effect _ _ _ _ _ _ _ _ Hi2 Hs3 Hperm3) as [Hi3 He3].
    rewrite <-!(assoc_L (++)) in Hi3. split; [done|].
    eapply effect_ext; [eapply effect_trans; [exact He1|eapply effect_trans; [exact He2|exact He3]]|..]; try done.
    + intros x. simpl. destruct He2 as (_ & Hr2 & _). by rewrite Hr2, Hr1.
    + intros x. simpl. by rewrite Hh2, Hh1.
  - assert (Hndf : NoDup (freed p bs)) by (rewrite !NoDup_app in Hnd; tauto).
    eapply wp_mono; [apply fq_append_n_spec; [apply Hi1|done|]|].
    { intros b Hb%Hfb. split; [tauto|]. apply Hi1. rewrite Hbl. tauto. }
    intros [] p2 Hs2. rewrite !(Hpart p1) in Hs2 by (first [exact Hsq|intros b Hb%Hfb; apply Hids; tauto]).
    assert (Hperm2 : (st ++ part_filter bq (pool_heap p) true (freed p bs)) ++
      (hi ++ part_filter bq (pool_heap p) false (freed p bs)) ++ [] ≡ₚ st ++ hi ++ freed p bs).
    { rewrite <-(Hpf (freed p bs)) at 3. solve_Permutation. }
    destruct (bq_step_effect _ _ _ _ _ _ _ _ Hi1 Hs2 Hperm2) as [Hi2 He2]. split; [done|].
    eapply effect_ext; [exact (effect_trans _ _ _ _ _ _ _ _ _ He1 He2)|..]; try done.
Qed.

(** * Caching full blocks

    The specification of [cache_full_blocks]: which blocks get a hash, which
    entries the prefix-cache map gains and which events are emitted. *)

Import Pool.
Local Open Scope Z_scope.

(** ** Runs of consecutive indices *)

Definition last_or {A} (d : A) (l : list A) : A := default d (last l).

Lemma runs_loop_concat l : ∀ run, run ≠ [] → concat (runs_loop run l) = run ++ l.
Proof.
  induction l as [|x l IH]; intros run Hr; simpl; [done|].
  destruct (last run) as [y|] eqn:El; [|by apply last_None in El].
  case_match; [|simpl; by rewrite IH].
  rewrite IH by (by destruct run). by rewrite <-(assoc_L (++)).
Qed.

Lemma runs_loop_nonempty l : ∀ run, run ≠ [] → Forall (.≠ []) (runs_loop run l).
Proof.
  induction l as [|x l IH]; intros run Hr; simpl; [by repeat constructor|].
  destruct (last run) eqn:El; [|by apply last_None in El].
  case_match; [by apply IH; destruct run|constructor; [done|by apply IH]].
Qed.

Lemma consecutive_runs_concat l : concat (consecutive_runs l) = l.
Proof. destruct l as [|x l]; [done|]. simpl. by rewrite runs_loop_concat. Qed.

Lemma consecutive_runs_nonempty l : Forall (.≠ []) (consecutive_runs l).
Proof. destruct l as [|x l]; [constructor|]. by apply runs_loop_nonempty. Qed.

(** Strictly increasing from [lo] on, below [hi]. *)
Fixpoint ascending (lo hi : Z) (l : list Z) : Prop :=
  match l with
  | [] => lo ≤ hi
  | x :: l' => lo ≤ x ∧ ascending (x + 1) hi l'
  end.

Lemma ascending_le lo hi l : ascending lo hi l → lo ≤ hi.
Proof. revert lo. induction l as [|x l IH]; intros lo; simpl; [done|]. intros [? H%IH]. lia. Qed.

Lemma ascending_app lo hi l1 l2 :
  ascending lo hi (l1 ++ l2) → ∃ mid, ascending lo mid l1 ∧ ascending mid hi l2.
Proof.
  revert lo. induction l1 as [|x l1 IH]; intros lo H; simpl in *.
  - exists lo. split; [simpl; lia|done].
  - destruct H as [Hx (mid & H1 & H2)%IH]. by exists mid.
Qed.

Lemma ascending_elem lo hi l x : ascending lo hi l → x ∈ l → lo ≤ x < hi.
Proof.
  revert lo. induction l as [|y l IH]; intros lo H Hx; [by apply not_elem_of_nil in Hx|].
  destruct H as [Hy H]. apply elem_of_cons in Hx as [->|Hx].
  - apply ascending_le in H. lia.
  - specialize (IH _ H Hx). lia.
Qed.

Lemma ascending_snoc lo hi l x : ascending lo hi l → hi ≤ x → ascending lo (x + 1) (l ++ [x]).
Proof.
  revert lo. induction l as [|y l IH]; intros lo H Hx; simpl in *; [lia|].
  destruct H as [? H]. split; [done|]. by apply IH.
Qed.

Lemma ascending_weaken lo hi hi' l : ascending lo hi l → hi ≤ hi' → ascending lo hi' l.
Proof.
  revert lo. induction l as [|y l IH]; intros lo H Hx; simpl in *; [lia|].
  destruct H as [? H]. split; [done|]. by apply IH.
Qed.

(** ** The loop over the new blocks *)

(** Block [blk] at position [i] of the new blocks gets a hash. *)
Definition cacheable (p : BlockPool) (block_mask : option (list bool)) (i : nat) (blk : loc) : Prop :=
  blk ≠ null_block p ∧ match block_mask with None => True | Some m => m !! i = Some true end.
#[export] Instance cacheable_dec p m i b : Decision (cacheable p m i b).
Proof. unfold cacheable. destruct m; apply _. Defined.

(** The positions that get a hash, counted from [nc]. *)
Fixpoint cached_indices (p : BlockPool) (block_mask : option (list bool)) (nc : Z) (i : nat)
    (bs : list loc) : list Z :=
  match bs with
  | [] => []
  | b :: bs' =>
      (if decide (cacheable p block_mask i b) then [nc + Z.of_nat i] else []) ++
      cached_indices p block_mask nc (S i) bs'
  end.

Lemma cached_indices_ascending p m nc i bs :
  ascending (nc + Z.of_nat i) (nc + Z.of_nat (i + length bs)) (cached_indices p m nc i bs).
Proof.
  revert i. induction bs as [|b bs IH]; intros i; simpl; [lia|].
  assert (Hw : ∀ lo hi l lo', ascending lo hi l → lo' ≤ lo → ascending lo' hi l).
  { intros lo hi l lo'. destruct l; simpl; [lia|]. intros [? ?] ?. split; [lia|done]. }
  specialize (IH (S i)). replace (i + S (length bs))%nat with (S i + length bs)%nat by lia.
  case_decide; simpl.
  - split; [done|]. by replace (nc + Z.of_nat i + 1) with (nc + Z.of_nat (S i)) by lia.
  - eapply Hw; [exact IH|lia].
Qed.

(** The hash block [x] ends up with. *)
Fixpoint hash_after (p : BlockPool) (g : Z) (block_mask : option (list bool))
    (nbh : list BlockHash) (i : nat) (bs : list loc) (x : loc) : option bytes :=
  match bs with
  | [] => hash p x
  | b :: bs' =>
      if decide (b = x ∧ cacheable p block_mask i b)
      then Some (default [] (nbh !! i) ++ be_bytes 4 g)
      else hash_after p g block_mask nbh (S i) bs' x
  end.

(** The new blocks are in the pool, distinct where they are not null, and not yet
    hashed; the mask and the hashes cover them. *)
Definition cache_pre (p : BlockPool) (block_mask : option (list bool)) (nbh : list BlockHash)
    (i : nat) (bs : list loc) : Prop :=
  NoDup (filter (.≠ null_block p) bs) ∧
  (∀ b, b ∈ bs → b ∈ blocks p) ∧
  (∀ j b, bs !! j = Some b → cacheable p block_mask (i + j) b → hash p b = None) ∧
  (i + length bs ≤ length nbh)%nat ∧
  (∀ m, block_mask = Some m → length m = (i + length bs)%nat).

Lemma cached_indices_ext p p' m nc i bs :
  null_block p' = null_block p → cached_indices p' m nc i bs = cached_indices p m nc i bs.
Proof.
  intros Hn. revert i. induction bs as [|b bs IH]; intros i; simpl; [done|].
  rewrite IH. f_equal. apply decide_ext. unfold cacheable. by rewrite Hn.
Qed.

Lemma hash_after_ext p p' g m nbh i bs x :
  null_block p' = null_block p → (hash p' x = hash p x) →
  hash_after p' g m nbh i bs x = hash_after p g m nbh i bs x.
Proof.
  intros Hn Hx. revert i. induction bs as [|b bs IH]; intros i; simpl; [done|].
  rewrite IH. apply decide_ext. unfold cacheable. by rewrite Hn.
Qed.

Lemma hash_after_absent p g m nbh i bs x :
  (x ∉ filter (.≠ null_block p) bs) → hash_after p g m nbh i bs x = hash p x.
Proof.
  revert i. induction bs as [|b bs IH]; intros i Hx; simpl; [done|].
  rewrite decide_False; [apply IH|].
  - rewrite filter_cons in Hx. case_decide; set_solver.
  - intros [-> [Hb _]]. rewrite filter_cons_True in Hx by done. set_solver.
Qed.

Lemma cache_loop_spec p st hi D g m nc nbh i bs acc :
  pool_inv p st hi D → 0 ≤ g < 2 ^ 32 → cache_pre p m nbh i bs →
  wp (cache_loop g m nc nbh i bs acc) p (λ r p',
    r = acc ++ cached_indices p m nc i bs ∧ pool_inv p' st hi D ∧
    effect p p' (λ x, ref p x) (hash_after p g m nbh i bs) []).
Proof.
  intros Hi Hg. revert p i acc Hi. induction bs as [|b bs IH]; intros p i acc Hi Hpre.
  { simpl. apply wp_ret. rewrite app_nil_r. split; [done|]. split; [done|].
    split; [reflexivity|]. by rewrite app_nil_r. }
  destruct Hpre as (Hnd & Hin & Hnone & Hlen & Hm).
  assert (Hb : b ∈ blocks p) by (apply Hin; set_solver).
  simpl length in *. cbn [cache_loop cached_indices hash_after]. wp_step. apply wp_get.
  rewrite (pi_is_null _ _ _ _ Hi b Hb). wp_step.
  set (skip := bool_decide (¬ cacheable p m i b)).
  apply (wp_mono _ _ (λ r p', r = skip ∧ p' = p)).
  { unfold skip. case_bool_decide as Hbn.
    - apply wp_ret. split; [|done]. symmetry. apply bool_decide_eq_true_2.
      unfold cacheable. naive_solver.
    - destruct m as [m|].
      + destruct (lookup_lt_is_Some_2 m i) as [v Hv]; [rewrite (Hm m eq_refl); lia|].
        wp_step. eapply wp_of_option; [exact Hv|]. wp_step. split; [|done]. symmetry.
        destruct v; [apply bool_decide_eq_false_2|apply bool_decide_eq_true_2];
          unfold cacheable; naive_solver.
      + apply wp_ret. split; [|done]. symmetry. apply bool_decide_eq_false_2.
        unfold cacheable. naive_solver. }
  intros r p' [-> ->]. unfold skip. case_bool_decide as Hc.
  - rewrite (decide_False (P:=cacheable p m i b)) by done.
    assert (Hpre' : cache_pre p m nbh (S i) bs).
    { split; [|split; [|split; [|split; [lia|]]]].
      - rewrite filter_cons in Hnd. case_decide; [by apply NoDup_cons in Hnd as [_ ?]|done].
      - intros x Hx. apply Hin. set_solver.
      - intros j x Hj Hcx. apply (Hnone (S j) x Hj). by rewrite Nat.add_succ_r.
      - intros m' Hm'. rewrite (Hm m' Hm'). lia. }
    eapply wp_mono; [by apply IH|]. intros r p' (-> & Hi' & He'). split; [done|]. split; [done|].
    eapply effect_ext; [exact He'|done| |done]. intros x. simpl.
    rewrite decide_False; [done|]. naive_solver.
  - pose proof Hc as [Hbn _].
    rewrite (decide_True (P:=cacheable p m i b)) by done.
    assert (Hnb : hash p b = None) by (apply (Hnone 0%nat); [done|by rewrite Nat.add_0_r]).
    wp_step. apply wp_assert; [by apply bool_decide_true|].
    destruct (lookup_lt_is_Some_2 nbh i) as [h Hh]; [lia|].
    wp_step. eapply wp_of_option; [exact Hh|]. rewrite (make_block_hash_ok h g Hg).
    unfold wr_block. wp_steps. set (key := h ++ be_bytes 4 g).
    assert (Hcache := insert_spec (pool_heap p) (blocks p) (cached_block_hash_to_block p) key b
      (pi_cache _ _ _ _ Hi) (pool_inv_ids _ _ _ _ Hi) Hb Hnb).
    assert (Hi1 := inv_write_hash p st hi D b (Some key) _ Hi Hb (λ _, Hbn) Hcache).
    match type of Hi1 with pool_inv ?q _ _ _ => set (p1 := q) in * end.
    change (set_cache _ _) with p1.
    assert (Hh1 : ∀ x, hash p1 x = if decide (b = x) then Some key else hash p x).
    { intros x. unfold p1, pool_block. simpl. rewrite deref_update. by case_decide. }
    assert (He1 : effect p p1 (λ x, ref p x) (λ x, if decide (b = x) then Some key else hash p x) []).
    { split; [repeat (split; [done|]); apply same_queue_refl|]. split; [|split; [done|by rewrite app_nil_r]].
      intros x. unfold p1, pool_block. simpl. rewrite deref_update. by case_decide. }
    rewrite filter_cons_True in Hnd by done. apply NoDup_cons in Hnd as [Hbnin Hnd].
    assert (Hpre' : cache_pre p1 m nbh (S i) bs).
    { split; [done|]. split; [|split; [|split; [lia|]]].
      - intros x Hx. apply Hin. set_solver.
      - intros j x Hj Hcx. rewrite Hh1. rewrite decide_False.
        + apply (Hnone (S j) x Hj). by rewrite Nat.add_succ_r.
        + intros ->. apply Hbnin, list_elem_of_filter. split; [done|]. by eapply list_elem_of_lookup_2.
      - intros m' Hm'. rewrite (Hm m' Hm'). lia. }
    eapply wp_mono; [by apply IH|]. intros r p' (-> & Hi' & He').
    split; [by rewrite <-(assoc_L (++)), (cached_indices_ext p p1)|]. split; [done|].
    eapply effect_ext; [exact (effect_trans _ _ _ _ _ _ _ _ _ He1 He')|..].
    + intros x. simpl. apply He1.
    + intros x. simpl. rewrite Hh. simpl. fold key. destruct (decide (b = x)) as [<-|Hbx].
      * rewrite (decide_True (P:=b = b ∧ _)) by done.
        rewrite hash_after_absent by done. rewrite Hh1. by rewrite decide_True.
      * rewrite (decide_False (P:=b = x ∧ _)) by naive_solver.
        apply hash_after_ext; [done|]. rewrite Hh1. by rewrite decide_False.
    + done.
Qed.

(** ** Events *)

Section events.
Context (sha256 : bytes → bytes) (use_int : bool).

Definition hash_at (hs : BlockHashList) (i : Z) : BlockHash := default [] (hl_get hs i).

(** The event for a run of consecutive blocks: their hashes, the hash of the
    block before, and the tokens and extra keys of the range. *)
Definition run_event (r : Request) (hs : BlockHashList) (bs g : Z) (run : list Z) : KVCacheEvent :=
  let start := default 0 (head run) in
  let end_ := 1 + default 0 (last run) in
  BlockStored ((λ i, maybe_convert_block_hash use_int (hash_at hs i)) <$> run)
    (if 0 <? start then Some (maybe_convert_block_hash use_int (hash_at hs (start - 1))) else None)
    (py_slice (_all_token_ids r) (start * bs) (end_ * bs)) bs
    (lora_int_id <$> lora_request r) (lora_name <$> lora_request r)
    ((λ i, extra_keys_ref sha256 r (i * bs) ((i + 1) * bs)) <$> run) g.

Definition hl_covers (hs : BlockHashList) (n : Z) : Prop :=
  ∀ i, 0 ≤ i < n → ∃ h, hl_get hs i = Some h.

Lemma mapM_hashes hs n l :
  hl_covers hs n → (∀ i, i ∈ l → 0 ≤ i < n) →
  external_hashes use_int hs l = Some ((λ i, maybe_convert_block_hash use_int (hash_at hs i)) <$> l).
Proof.
  intros Hc. unfold external_hashes, hash_at. induction l as [|i l IH]; intros Hl; [done|].
  simpl. destruct (Hc i) as [h Hh]; [apply Hl; set_solver|]. rewrite Hh. simpl.
  rewrite IH by set_solver. done.
Qed.

Lemma stored_event_spec (r : Request) hs n bs g lo hi run :
  hl_covers hs n → run ≠ [] → ascending lo hi run → 0 ≤ lo → hi ≤ n →
  stored_event use_int r hs bs g run
    ((λ i, extra_keys_ref sha256 r (i * bs) ((i + 1) * bs)) <$> run) =
  Some (run_event r hs bs g run).
Proof.
  intros Hc Hne Ha Hlo Hhi. unfold stored_event, run_event.
  rewrite (mapM_hashes hs n)
    by (try done; intros i Hi; pose proof (ascending_elem _ _ _ _ Ha Hi); lia).
  set (K := _ <$> run). set (H := _ <$> run). clearbody K H.
  destruct (head run) as [x|] eqn:Ex; [|by destruct run].
  destruct (last run) as [y|] eqn:El; [|by apply last_None in El].
  assert (Hx : lo ≤ x < hi).
  { eapply ascending_elem; [exact Ha|]. destruct run; simplify_eq/=. set_solver. }
  simpl. destruct (Z.ltb_spec 0 x) as [H0|H0]; [|done].
  unfold hash_at. destruct (Hc (x - 1)) as [h Hh]; [lia|]. by rewrite Hh.
Qed.

Lemma keys_of_run_spec bs lo hi run idx acc (r : Request) :
  0 < bs → 0 ≤ lo → mm_ordered (mm_features r) → memo_ok sha256 r →
  ascending lo hi run → mm_idx_ok (mm_features r) idx (lo * bs) →
  wp (keys_of_run sha256 bs run idx acc) r (λ k r',
    k.1 = acc ++ ((λ i, extra_keys_ref sha256 r (i * bs) ((i + 1) * bs)) <$> run) ∧
    mm_idx_ok (mm_features r) k.2 (hi * bs) ∧ memo_step sha256 r r').
Proof.
  intros Hbs. assert (Hmono : ∀ f i s e, s ≤ e → mm_idx_ok f i s → mm_idx_ok f i e).
  { intros f i s e Hse [[? ?]|[? ?]]; [left|right]; (split; [done|by eapply mm_done_mono]). }
  revert lo idx acc r. induction run as [|x run IH]; intros lo idx acc r Hlo Ho Hm Ha Hi; simpl.
  { apply wp_ret. rewrite app_nil_r. split; [done|]. split; [|by apply memo_step_refl].
    simpl in *. eapply Hmono; [|done]. nia. }
  destruct Ha as [Hx Ha]. wp_step.
  eapply wp_mono; [apply generate_keys_spec; [done|done|nia|]|].
  { eapply Hmono; [|done]. nia. }
  intros [keys idx'] r1 (Hk & Hi1 & [[m ->] Hm1]). simpl in Hk, Hi1. subst keys.
  eapply wp_mono; [apply (IH (x + 1)); try done; lia|].
  intros k r2 (Hk & Hi2 & Hr2). split; [|split; [done|]].
  - rewrite Hk, <-(assoc_L (++)). done.
  - eapply memo_step_trans; [|exact Hr2]. split; [by exists m|done].
Qed.

(** The request's memo does not change the events. *)
Lemma run_event_memo (r r' : Request) hs bs g run :
  memo_step sha256 r r' → run_event r' hs bs g run = run_event r hs bs g run.
Proof. intros [[m ->] _]. done. Qed.

Lemma emit_runs_spec hs n bs g lo hi runs idx (r : Request) p st hi_ D :
  0 < bs → 0 ≤ lo → hi ≤ n → hl_covers hs n → mm_ordered (mm_features r) → memo_ok sha256 r →
  Forall (.≠ []) runs → ascending lo hi (concat runs) → mm_idx_ok (mm_features r) idx (lo * bs) →
  pool_inv p st hi_ D →
  wp (emit_runs sha256 use_int hs bs g runs idx r) p (λ r' p',
    memo_step sha256 r r' ∧ pool_inv p' st hi_ D ∧
    effect p p' (λ x, ref p x) (λ x, hash p x) (run_event r hs bs g <$> runs)).
Proof.
  intros Hbs. revert lo idx r p. induction runs as [|run runs IH];
    intros lo idx r p Hlo Hhi Hc Ho Hm Hne Ha Hidx Hi; simpl.
  { apply wp_ret. split; [by apply memo_step_refl|]. split; [done|]. split; [reflexivity|].
    by rewrite app_nil_r. }
  apply Forall_cons in Hne as [Hrun Hne]. simpl in Ha.
  apply ascending_app in Ha as (mid & Ha1 & Ha2). pose proof (ascending_le _ _ _ Ha1).
  pose proof (ascending_le _ _ _ Ha2).
  assert (Hk := keys_of_run_spec bs lo mid run idx [] r Hbs Hlo Ho Hm Ha1 Hidx).
  apply wp_elim in Hk as ([keys idx'] & r1 & -> & Hk & Hi1 & Hr1). simpl in Hk, Hi1. subst keys.
  wp_step. eapply wp_of_option.
  { assert (Hev := stored_event_spec r1 hs n bs g lo mid run Hc Hrun Ha1 Hlo ltac:(lia)).
    rewrite <-Hev. f_equal. destruct Hr1 as [[m ->] _]. done. }
  wp_step. apply wp_modify. pose proof Hr1 as [[m Em] Hm1].
  eapply wp_mono; [apply (IH mid idx'); try done; try (by subst r1); [lia|by apply inv_events]|].
  intros r2 p2 (Hr2 & Hi2 & He2). split; [by eapply memo_step_trans|]. split; [done|].
  destruct He2 as (Hs2 & Hrf & Hh & Hev). split; [|split; [done|split; [done|]]].
  - etransitivity; [|exact Hs2]. repeat (split; [done|]). apply same_queue_refl.
  - rewrite Hev. simpl. rewrite <-(assoc_L (++)). simpl.
    rewrite (run_event_memo r r1) by done. do 2 f_equal. apply list_fmap_ext.
    intros i x _. by apply run_event_memo.
Qed.

(** ** cache_full_blocks *)

(** The hash list at the group's block size. *)
Definition group_hashes (p : BlockPool) (r : Request) (bs : Z) : BlockHashList :=
  if bs =? hash_block_size p then Hashes (block_hashes r)
  else HashView (mkHashList (block_hashes r) (bs / hash_block_size p)).

Lemma hl_list_lookup hs i : (Z.of_nat i < hl_len hs) → hl_list hs !! i = hl_get hs (Z.of_nat i).
Proof.
  destruct hs as [l|v]; simpl; intros Hi.
  - rewrite py_get_nonneg by lia. by rewrite Nat2Z.id.
  - unfold bl_iter. rewrite list_lookup_fmap, lookup_seq_lt by lia. done.
Qed.

Lemma length_hl_list hs : 0 ≤ hl_len hs → zlen (hl_list hs) = hl_len hs.
Proof.
  destruct hs as [l|v]; simpl; [done|]. intros Hl. unfold bl_iter, zlen.
  rewrite length_fmap, length_seq. lia.
Qed.

Lemma hl_covers_len hs n : n ≤ hl_len hs → hl_covers hs n.
Proof.
  intros Hn i Hi. destruct hs as [l|v]; simpl in *; [|by eexists].
  rewrite py_get_nonneg by lia. apply lookup_lt_is_Some_2. unfold zlen in Hn. lia.
Qed.

Lemma cache_full_blocks_ok (r : Request) bs nc nf block_size g mask p st hi D :
  pool_inv p st hi D → mm_ordered (mm_features r) → memo_ok sha256 r →
  0 < block_size → 0 < hash_block_size p → block_size mod hash_block_size p = 0 →
  0 ≤ nc < nf → nf ≤ zlen bs → nf ≤ hl_len (group_hashes p r block_size) →
  nf ≤ zlen (block_hashes r) → 0 ≤ g < 2 ^ 32 →
  let new := py_slice bs nc nf in
  let nbh := hashes_from (group_hashes p r block_size) nc in
  cache_pre p mask nbh 0 new →
  wp (cache_full_blocks sha256 use_int r bs nc nf block_size g mask) p (λ r' p',
    memo_step sha256 r r' ∧ pool_inv p' st hi D ∧
    effect p p' (λ x, ref p x) (hash_after p g mask nbh 0 new)
      (if enable_kv_cache_events p
       then run_event r (group_hashes p r block_size) block_size g
              <$> consecutive_runs (cached_indices p mask nc 0 new)
       else [])).
Proof.
  intros Hi Ho Hm Hbs Hhb Hmod Hnc Hnf Hlen Hbh Hg new nbh Hpre. unfold cache_full_blocks.
  wp_step. apply wp_get. rewrite (proj2 (Z.leb_gt _ _)) by lia.
  wp_step. apply wp_assert; [apply Z.leb_le; lia|]. wp_step. apply wp_assert.
  { destruct mask as [m|]; [|done]. destruct Hpre as (_ & _ & _ & _ & Hml).
    unfold zlen. rewrite (Hml m eq_refl). apply Z.eqb_eq. fold new. lia. }
  wp_step. apply (wp_mono _ _ (λ hs p', hs = group_hashes p r block_size ∧ p' = p)).
  { unfold group_hashes. destruct (Z.eqb_spec block_size (hash_block_size p)).
    - by apply wp_ret.
    - unfold BlockHashListWithBlockSize_init. rewrite Hmod. by apply wp_ret. }
  intros hs p0 [-> ->]. wp_step. fold nbh. fold new.
  eapply wp_mono; [by apply cache_loop_spec|]. intros ixs p1 (-> & Hi1 & He1). simpl.
  set (idxs := cached_indices p mask nc 0 new).
  destruct (enable_kv_cache_events p) eqn:Ee; simpl.
  2:{ apply wp_ret. split; [by apply memo_step_refl|]. by split. }
  assert (Hasc : ascending nc nf (concat (consecutive_runs idxs))).
  { rewrite consecutive_runs_concat. pose proof (cached_indices_ascending p mask nc 0 new) as Ha.
    simpl in Ha. rewrite Z.add_0_r in Ha. eapply ascending_weaken; [exact Ha|].
    unfold new. rewrite py_slice_nonneg by lia. rewrite length_take. lia. }
  assert (Hcase : wp (emit_runs sha256 use_int (group_hashes p r block_size) block_size g
      (consecutive_runs idxs) 0 r) p1 (λ r' p',
    memo_step sha256 r r' ∧ pool_inv p' st hi D ∧
    effect p p' (λ x, ref p x) (hash_after p g mask nbh 0 new)
      (run_event r (group_hashes p r block_size) block_size g <$> consecutive_runs idxs))).
  { eapply wp_mono; [eapply (emit_runs_spec _ nf _ _ nc nf); try done|].
    - lia.
    - by apply hl_covers_len.
    - apply consecutive_runs_nonempty.
    - left. simpl. split; [pose proof (zlen_nonneg (mm_features r)); lia|constructor].
    - intros r' p' (Hr' & Hi' & He'). split; [done|]. split; [done|].
      eapply effect_ext; [exact (effect_trans _ _ _ _ _ _ _ _ _ He1 He')|..]; try done.
      + intros x. simpl. apply He1.
      + intros x. simpl. apply He1. }
  destruct idxs as [|x idxs0] eqn:Eidx; [|exact Hcase].
  simpl. apply wp_ret. split; [by apply memo_step_refl|]. by split.
Qed.
End events.
