(* ===== verification/BlockPoolProps.v ===== *)
(** * Properties of the block pool

    The specifications of [get_cached_block], [evict_blocks],
    [reset_prefix_cache] and the constructor, and the theorems about the pool's
    operations. *)

From Stdlib Require Import Strings.Byte.
From S2P Require Import Prelude.
From S2P Require Import FreeQueue.
From S2P Require Import FreeQueueSpec.
From S2P Require Import Request.
From S2P Require Import BlockHash.
From S2P Require Import BlockHashSpec.
From S2P Require Import BlockPool.
From S2P Require Import BlockPoolInv.
From S2P Require Import BlockPoolSpec.
From S2P Require Import BlockPoolOps.
Import Pool.
Local Open Scope Z_scope.

(** ** Construction *)

Lemma alloc_blocks_deref n i :
  (i < n)%nat → deref (alloc_blocks n).2 i = new_block (Z.of_nat i).
Proof.
  intros Hi. unfold alloc_blocks, deref. simpl. apply lookup_total_correct.
  apply elem_of_list_to_map_1.
  - rewrite <-list_fmap_compose. simpl. rewrite list_fmap_id. apply NoDup_seq.
  - apply list_elem_of_fmap. exists i. split; [done|]. apply elem_of_seq. lia.
Qed.

Lemma queue_repr_agree h h' q l :
  (∀ z, z ∈ nodes q l → deref h' z = deref h z) → queue_repr h q l → queue_repr h' q l.
Proof.
  intros Hz (Hn & Hnd & Hl & Ht). split; [done|]. split; [done|]. split.
  - eapply linked_ext; [| |done|exact Hl].
    + intros z Hin. rewrite Hz; [done|]. unfold nodes. set_solver.
    + intros z Hin _. rewrite Hz; [done|]. unfold nodes. set_solver.
  - rewrite Hz; [done|]. unfold nodes. set_solver.
Qed.

Lemma cache_ok_empty h bs :
  (∀ b, b ∈ bs → _block_hash (deref h b) = None) → cache_ok h bs ∅.
Proof.
  intros Hn. split.
  - intros key b. unfold holds. rewrite lookup_empty. split; [done|].
    intros [Hb Hh]. by rewrite Hn in Hh.
  - intros key d. by rewrite lookup_empty.
Qed.

(** A pool all of whose non-null blocks are fresh and in its free lists. *)
Lemma fresh_pool_inv p st hi :
  0 < num_gpu_blocks p → blocks p = seq 0 (Z.to_nat (num_gpu_blocks p)) → null_block p = 0%nat →
  (∀ b, b ∈ blocks p → meta (pool_block p b) = (Z.of_nat b, 0, None, bool_decide (b = 0%nat))) →
  bq_repr (pool_heap p) (free_block_queue p) st hi →
  (∀ b, b ∈ fakes (free_block_queue p) → (Z.to_nat (num_gpu_blocks p) ≤ b)%nat) →
  (∀ b, b ∈ st ++ hi ↔ b ∈ blocks p ∧ b ≠ 0%nat) →
  cached_block_hash_to_block p = ∅ → pool_inv p st hi [].
Proof.
  intros Hn Hbl Hnull Hmeta Hq Hfk Hfree Hc. unfold meta in Hmeta.
  assert (H0 : 0%nat ∈ blocks p) by (rewrite Hbl; apply elem_of_seq; lia).
  constructor; try done.
  - intros b Hb. specialize (Hmeta b Hb). congruence.
  - intros b Hb. specialize (Hmeta b Hb). rewrite Hnull. congruence.
  - rewrite Hnull. specialize (Hmeta _ H0). congruence.
  - intros b Hb Hf%Hfk. rewrite Hbl in Hb. apply elem_of_seq in Hb. lia.
  - intros b. rewrite app_nil_r, Hfree, Hnull. split; [|naive_solver].
    intros [Hb Hb0]. specialize (Hmeta b Hb). split; [done|]. split; [done|]. congruence.
  - rewrite app_nil_r. by eapply bq_nodup.
  - intros b Hb _. specialize (Hmeta b Hb). assert (ref p b = 0) as -> by congruence. lia.
  - rewrite Hc. apply cache_ok_empty. intros b Hb. specialize (Hmeta b Hb).
    unfold pool_block in Hmeta. congruence.
Qed.

Lemma init_queue_spec n :
  0 < n →
  ∃ s, FreeQueue.popleft (FreeQueue.init (alloc_blocks (Z.to_nat n)).1 (alloc_blocks (Z.to_nat n)).2)
         = (Ret 0%nat, s) ∧
    queue_repr (q_heap s) (q_self s) (seq 1 (Z.to_nat n - 1)) ∧
    fake_free_list_head (q_self s) = Z.to_nat n ∧ fake_free_list_tail (q_self s) = S (Z.to_nat n) ∧
    next_loc (q_heap s) = S (S (Z.to_nat n)) ∧
    ∀ l, (l < Z.to_nat n)%nat → meta (deref (q_heap s) l) = (Z.of_nat l, 0, None, false).
Proof.
  intros Hn. set (N := Z.to_nat n). set (h0 := (alloc_blocks N).2).
  destruct (FreeQueueSpec.init_spec (seq 0 N) h0) as (Hq & Hh & Ht & Hnl & Hm & _).
  { apply NoDup_seq. }
  { intros b Hb%elem_of_seq. simpl. lia. }
  change (next_loc h0) with N in *.
  change (alloc_blocks N).1 with (seq 0 N). set (s0 := FreeQueue.init (seq 0 N) h0) in *.
  destruct s0 as [hp q] eqn:Es. simpl in *.
  assert (Hw := FreeQueueSpec.popleft_spec hp q _ Hq 0%nat (seq 1 (N - 1))).
  apply wp_elim in Hw as (r & s & Hr & -> & (Hq' & Hh' & Ht' & Hm' & _) & _).
  2:{ destruct N eqn:E; [lia|]. simpl. by rewrite Nat.sub_0_r. }
  exists s. split; [done|]. split; [done|]. split; [congruence|]. split; [congruence|]. split.
  - destruct Hm' as [-> _]. done.
  - intros l Hl. destruct Hm' as [_ Hm']. rewrite Hm', Hm by done.
    assert (deref h0 l = new_block (Z.of_nat l)) as Hd by (by apply alloc_blocks_deref).
    by rewrite Hd.
Qed.

Definition free_after_init (n ds : Z) : list loc * list loc :=
  if ds =? 0 then ([], seq 1 (Z.to_nat n - 1))
  else (seq 1 (Z.to_nat ds - 1), seq (Z.to_nat ds) (Z.to_nat n - Z.to_nat ds)).

Lemma init_ok n caching hbs ev coll ds groups :
  0 < n → (ds = 0 ∨ 1 < ds < n) →
  ∃ p, Pool.init n caching hbs ev coll ds groups = Ret p ∧
    pool_inv p (free_after_init n ds).1 (free_after_init n ds).2 [] ∧
    num_gpu_blocks p = n ∧ enable_caching p = caching ∧ hash_block_size p = hbs ∧
    enable_kv_cache_events p = ev ∧ kv_event_queue p = [] ∧
    (∀ b, b ∈ blocks p → ref p b = 0 ∧ hash p b = None) ∧
    match free_block_queue p with
    | Single _ => ds = 0
    | Partitioned k g _ _ => ds ≠ 0 ∧ k = ds ∧ g = groups
    end.
Proof.
  intros Hn Hds. unfold Pool.init. rewrite (proj2 (Z.ltb_lt 0 n)) by done. cbn [negb].
  destruct (init_queue_spec n Hn) as (s & Hs & Hq & Hh & Ht & Hnl & Hm).
  destruct (alloc_blocks (Z.to_nat n)) as [bs h] eqn:Ea. simpl in Hs. rewrite Hs.
  assert (Hbs : bs = seq 0 (Z.to_nat n)) by (unfold alloc_blocks in Ea; by simplify_eq).
  set (N := Z.to_nat n) in *. set (h1 := update 0%nat (set_null true) (q_heap s)).
  set (p0 := mkPool _ _ _ _ _ _ _ _ _ _ _).
  assert (Hm1 : ∀ l, (l < N)%nat → meta (deref h1 l) = (Z.of_nat l, 0, None, bool_decide (l = 0%nat))).
  { intros l Hl. unfold h1. rewrite deref_update. specialize (Hm l Hl). unfold meta in *.
    destruct (decide (0%nat = l)) as [<-|Hne].
    - injection Hm as H1 H2 H3 H4. unfold set_null.
      cbn [block_id ref_cnt _block_hash is_null]. by rewrite H1, H2, H3.
    - rewrite bool_decide_false by congruence. done. }
  assert (Hfin : ∀ p st hi, blocks p = bs → num_gpu_blocks p = n → null_block p = 0%nat →
    (∀ l, (l < N)%nat → meta (pool_block p l) = (Z.of_nat l, 0, None, bool_decide (l = 0%nat))) →
    bq_repr (pool_heap p) (free_block_queue p) st hi →
    (∀ b, b ∈ fakes (free_block_queue p) → (N ≤ b)%nat) →
    (∀ b, b ∈ st ++ hi ↔ b ∈ blocks p ∧ b ≠ 0%nat) →
    cached_block_hash_to_block p = ∅ →
    pool_inv p st hi [] ∧ ∀ b, b ∈ blocks p → ref p b = 0 ∧ hash p b = None).
  { intros p st hi Hb Hnp Hnull Hmeta Hbq Hfk Hfree Hc.
    assert (Hlt : ∀ b, b ∈ blocks p → (b < N)%nat).
    { intros b. rewrite Hb, Hbs. intros ?%elem_of_seq. lia. }
    split.
    - apply fresh_pool_inv; try done; rewrite ?Hnp, ?Hb; try done. intros b Hbb.
      apply Hmeta, Hlt. by rewrite Hb.
    - intros b Hbb%Hlt%Hmeta. unfold meta in Hbb. split; congruence. }
  destruct Hds as [->|Hds].
  - exists p0. split; [done|]. destruct (Hfin p0 [] (seq 1 (N - 1))) as [H1 H2]; try done.
    + simpl. split; [done|]. eapply queue_repr_links; [|exact Hq].
      intros x. unfold h1. rewrite deref_update. by case_decide.
    + simpl. unfold nodes. rewrite Hh, Ht. intros b. rewrite !elem_of_cons, elem_of_nil. lia.
    + intros b. simpl. rewrite Hbs, !elem_of_seq. lia.
  - rewrite (proj2 (Z.eqb_neq ds 0)) by lia. cbn [negb].
    rewrite (proj2 (Z.ltb_lt 1 ds)), (proj2 (Z.ltb_lt ds n)) by lia. cbn [negb andb].
    unfold PartitionedQueue.init, modify.
    assert (Hst : py_slice bs 1 ds = seq 1 (Z.to_nat ds - 1)).
    { rewrite py_slice_nonneg, Hbs by lia. change (Z.to_nat 1) with 1%nat.
      rewrite drop_seq, take_seq. f_equal. lia. }
    assert (Hhi : py_from bs ds = seq (Z.to_nat ds) (N - Z.to_nat ds)).
    { rewrite py_from_nonneg, Hbs by lia. rewrite drop_seq. done. }
    rewrite Hst, Hhi. change (pool_heap p0) with h1.
    assert (Hnl1 : next_loc h1 = S (S N)) by done.
    destruct (FreeQueueSpec.init_spec (seq 1 (Z.to_nat ds - 1)) h1)
      as (Hq1 & Hh1 & Ht1 & Hnl2 & Hmm1 & Hd1).
    { apply NoDup_seq. }
    { intros b Hb%elem_of_seq. lia. }
    set (s1 := FreeQueue.init _ h1) in *. clearbody s1.
    destruct (FreeQueueSpec.init_spec (seq (Z.to_nat ds) (N - Z.to_nat ds)) (q_heap s1))
      as (Hq2 & Hh2 & Ht2 & Hnl3 & Hmm2 & Hd2).
    { apply NoDup_seq. }
    { intros b Hb%elem_of_seq. lia. }
    set (s2 := FreeQueue.init _ (q_heap s1)) in *. clearbody s2. rewrite Hnl1, Hnl2 in *.
    set (p1 := set_queue _ _). exists p1. split; [done|].
    unfold free_after_init. rewrite (proj2 (Z.eqb_neq ds 0)) by lia. simpl.
    assert (Hmeta : ∀ l, (l < N)%nat → meta (deref (q_heap s2) l) = (Z.of_nat l, 0, None, bool_decide (l = 0%nat))).
    { intros l Hl. rewrite Hmm2, Hmm1 by lia. by apply Hm1. }
    destruct (Hfin p1 (seq 1 (Z.to_nat ds - 1)) (seq (Z.to_nat ds) (N - Z.to_nat ds))) as [H1 H2]; try done.
    + simpl. split; [|split; [done|split; [|split]]].
      * eapply queue_repr_agree; [|exact Hq1]. unfold nodes. rewrite Hh1, Ht1.
        intros z. rewrite !elem_of_cons, elem_of_seq. intros Hz. apply Hd2; [lia|].
        rewrite elem_of_seq. lia.
      * unfold nodes. rewrite Hh1, Ht1, Hh2, Ht2. intros x.
        rewrite !elem_of_cons, !elem_of_seq. lia.
      * intros b Hb%elem_of_seq. specialize (Hmeta b ltac:(lia)). unfold meta in Hmeta.
        apply Z.ltb_lt. assert (block_id (deref (q_heap s2) b) = Z.of_nat b) as -> by congruence. lia.
      * intros b Hb%elem_of_seq. specialize (Hmeta b ltac:(lia)). unfold meta in Hmeta.
        apply Z.ltb_ge. assert (block_id (deref (q_heap s2) b) = Z.of_nat b) as -> by congruence. lia.
    + simpl. unfold nodes. rewrite Hh1, Ht1, Hh2, Ht2. intros b.
      rewrite !elem_of_cons, elem_of_nil. lia.
    + intros b. simpl. rewrite Hbs, elem_of_app, !elem_of_seq. lia.
    + repeat (split; [done|]). split; [lia|done].
Qed.

(** ** Lookups, evictions, resets *)

Definition group_key (h : BlockHash) (g : Z) : bytes := h ++ be_bytes 4 g.

Lemma get_cached_loop_spec p st hi D h gs acc :
  pool_inv p st hi D → Forall (λ g, 0 ≤ g < 2 ^ 32) gs →
  ∃ r, get_cached_loop p h gs acc = Ret r ∧
    match r with
    | Some bs => ∃ more, bs = acc ++ more ∧
        Forall2 (λ g b, b ∈ blocks p ∧ hash p b = Some (group_key h g)) gs more
    | None => ∃ g, g ∈ gs ∧ ∀ b, b ∈ blocks p → hash p b ≠ Some (group_key h g)
    end.
Proof.
  intros Hi Hg. revert acc. induction Hg as [|g gs Hg Hgs IH]; intros acc; simpl.
  { exists (Some acc). split; [done|]. exists []. by rewrite app_nil_r. }
  rewrite make_block_hash_ok by done. fold (group_key h g).
  destruct (pi_cache _ _ _ _ Hi) as [Hc Hd].
  destruct (get_one_block_spec (pool_heap p) (blocks p) _ (group_key h g) (pi_cache _ _ _ _ Hi))
    as (r & -> & Hr). destruct r as [b|].
  - apply Hc in Hr as [Hb Hh]. destruct (IH (acc ++ [b])) as (r & -> & Hr). exists r. split; [done|].
    destruct r as [bs|].
    + destruct Hr as (more & -> & Hm). exists (b :: more). rewrite <-(assoc_L (++)).
      split; [done|]. by constructor.
    + destruct Hr as (g' & Hg' & Hn). exists g'. split; [set_solver|done].
  - exists None. split; [done|]. exists g. split; [set_solver|]. intros b Hb Hh.
    apply (Hr b). by apply Hc.
Qed.

Lemma evict_blocks_ok use_int p st hi D ids :
  pool_inv p st hi D → Forall (λ i, 0 ≤ i < num_gpu_blocks p) ids →
  wp (evict_blocks use_int ids) p (λ _ p',
    pool_inv p' st hi D ∧ same_pool p p' ∧
    ∀ b, ref p' b = ref p b ∧
      hash p' b = if decide (Z.of_nat b ∈ ids) then None else hash p b).
Proof.
  intros Hi Hids. unfold evict_blocks.
  eapply wp_mono; [apply (wp_foreach (λ pre p', pool_inv p' st hi D ∧ same_pool p p' ∧
    ∀ b, ref p' b = ref p b ∧ hash p' b = if decide (Z.of_nat b ∈ pre) then None else hash p b))|done].
  - split; [done|]. split; [reflexivity|]. intros b. rewrite decide_False by apply not_elem_of_nil. done.
  - intros pre i post p1 -> (Hi1 & Hs1 & He1). apply Forall_app in Hids as [_ Hids].
    apply Forall_cons in Hids as [Hr _]. pose proof Hs1 as (Hn & _).
    assert (Hbl : blocks p1 = seq 0 (Z.to_nat (num_gpu_blocks p))) by (rewrite <-Hn; apply Hi1).
    wp_steps. apply wp_assert.
    { apply Z.ltb_lt. rewrite Hbl. unfold zlen. rewrite length_seq. lia. }
    wp_step. eapply (wp_of_option _ _ (Z.to_nat i)).
    { rewrite py_get_nonneg by lia. rewrite Hbl. rewrite lookup_seq_lt by lia. done. }
    wp_step. assert (Hib : Z.to_nat i ∈ blocks p1) by (rewrite Hbl; apply elem_of_seq; lia).
    eapply wp_mono; [by apply evict_spec|]. intros r p2 (Hi2 & _ & He2). wp_steps.
    split; [done|]. destruct He2 as (Hs2 & Hr2 & Hh2 & _). split; [by etransitivity|].
    intros b. destruct (He1 b) as [Hrb Hhb]. split; [by rewrite Hr2|]. rewrite Hh2, Hhb.
    destruct (decide (Z.to_nat i = b)) as [<-|Hne].
    + rewrite decide_True; [done|]. rewrite Z2Nat.id by lia. set_solver.
    + apply decide_ext. rewrite elem_of_app, list_elem_of_singleton.
      split; [by left|]. intros [?|Hib']; [done|]. destruct Hne. lia.
Qed.

(** Clearing the hashes of all blocks together with the map. *)
Lemma clear_hashes_spec (p : BlockPool) l :
  wp (foreach l (λ b, wr_block b reset_hash)) p (λ _ p',
    ∃ h, p' = set_heap h p ∧ next_loc h = next_loc (pool_heap p) ∧
      (∀ x, links (deref h x) = links (pool_block p x) ∧
        block_id (deref h x) = block_id (pool_block p x) ∧
        is_null (deref h x) = is_null (pool_block p x) ∧
        ref_cnt (deref h x) = ref p x ∧
        _block_hash (deref h x) = if decide (x ∈ l) then None else hash p x)).
Proof.
  eapply wp_mono; [apply (wp_foreach (λ pre p', ∃ h, p' = set_heap h p ∧ next_loc h = next_loc (pool_heap p) ∧
      (∀ x, links (deref h x) = links (pool_block p x) ∧
        block_id (deref h x) = block_id (pool_block p x) ∧
        is_null (deref h x) = is_null (pool_block p x) ∧
        ref_cnt (deref h x) = ref p x ∧
        _block_hash (deref h x) = if decide (x ∈ pre) then None else hash p x)))|done].
  - exists (pool_heap p). split; [by destruct p|]. split; [done|]. intros x.
    rewrite decide_False by apply not_elem_of_nil. done.
  - intros pre b post p1 _ (h & -> & Hn & Hx). unfold wr_block. wp_steps.
    exists (update b reset_hash h). split; [done|]. split; [done|]. intros x.
    destruct (Hx x) as (Hl & Hi & Hnl & Hr & Hh).
    rewrite deref_update. destruct (decide (b = x)) as [<-|Hne].
    + rewrite decide_True by set_solver. done.
    + rewrite Hh. split; [done|]. split; [done|]. split; [done|]. split; [done|].
      apply decide_ext. set_solver.
Qed.

Lemma num_used_spec p st hi :
  pool_inv p st hi [] →
  num_gpu_blocks p - get_num_free_blocks p None = 1 ↔
  ∀ b, b ∈ blocks p → b ≠ null_block p → ref p b = 0.
Proof.
  intros Hi. assert (Hf : get_num_free_blocks p None = zlen (st ++ hi)).
  { rewrite (get_num_free_blocks_spec p st hi [] None Hi).
    pose proof (pi_queue _ _ _ _ Hi) as Hq. unfold alloc_part.
    destruct (free_block_queue p); [|done]. by destruct Hq as [-> _]. }
  rewrite Hf. pose proof (pi_free _ _ _ _ Hi) as Hfree. pose proof (pi_disj _ _ _ _ Hi) as Hnd.
  rewrite app_nil_r in Hnd. setoid_rewrite app_nil_r in Hfree.
  set (nn := seq 1 (Z.to_nat (num_gpu_blocks p) - 1)).
  assert (Hnn : ∀ b, b ∈ nn ↔ b ∈ blocks p ∧ b ≠ null_block p).
  { intros b. rewrite (pi_blocks _ _ _ _ Hi), (pi_null _ _ _ _ Hi). unfold nn. rewrite !elem_of_seq. lia. }
  pose proof (pi_pos _ _ _ _ Hi).
  assert (Hsub : st ++ hi ⊆+ nn).
  { apply NoDup_submseteq; [done|]. intros b Hb. apply Hnn. apply Hfree in Hb. tauto. }
  assert (Hlen : length nn = (Z.to_nat (num_gpu_blocks p) - 1)%nat) by apply length_seq.
  unfold zlen. split.
  - intros Heq b Hb Hbn. assert (Hp : st ++ hi ≡ₚ nn).
    { apply submseteq_length_Permutation; [done|]. lia. }
    apply Hfree. rewrite Hp. by apply Hnn.
  - intros Hall. assert (Hp : st ++ hi ≡ₚ nn).
    { apply NoDup_Permutation; [done|apply NoDup_seq|]. intros b. rewrite Hnn, Hfree.
      split; [tauto|]. intros [? ?]. auto. }
    apply Permutation_length in Hp. lia.
Qed.

Lemma reset_ok p st hi :
  pool_inv p st hi [] →
  wp reset_prefix_cache p (λ ok p',
    if ok then
      pool_inv p' st hi [] ∧ (∀ b, b ∈ blocks p → b ≠ null_block p → ref p b = 0) ∧
      cached_block_hash_to_block p' = ∅ ∧
      effect p p' (λ x, ref p x) (λ x, if decide (x ∈ blocks p) then None else hash p x)
        (if enable_kv_cache_events p then [AllBlocksCleared] else [])
    else p' = p ∧ ∃ b, b ∈ blocks p ∧ b ≠ null_block p ∧ ref p b ≠ 0).
Proof.
  intros Hi. unfold reset_prefix_cache. wp_steps. pose proof (num_used_spec p st hi Hi) as Hused.
  destruct (Z.eqb_spec (num_gpu_blocks p - get_num_free_blocks p None) 1) as [Heq|Hne]; cbn [negb].
  2:{ apply wp_ret. split; [done|]. destruct (decide (Forall (λ b, b ≠ null_block p → ref p b = 0) (blocks p))) as [Hall|Hex].
      - destruct Hne. apply Hused. by rewrite Forall_forall in Hall.
      - apply not_Forall_Exists in Hex; [|apply _]. apply Exists_exists in Hex as (b & Hb & Hx).
        exists b. destruct (decide (b = null_block p)); naive_solver. }
  wp_steps. eapply wp_mono; [apply clear_hashes_spec|]. intros [] p1 (h & -> & Hn & Hx).
  wp_step. apply wp_metric. wp_step. unfold emit. wp_steps.
  assert (Hi1 : pool_inv (set_heap h (set_cache ∅ p)) st hi []).
  { assert (Hcx : ∀ x, x ∈ blocks p → _block_hash (deref h x) = None).
    { intros x Hb. destruct (Hx x) as (_ & _ & _ & _ & ->). simpl. by rewrite decide_True. }
    assert (Hnull : null_block p ∈ blocks p).
    { rewrite (pi_null _ _ _ _ Hi), (pi_blocks _ _ _ _ Hi). apply elem_of_seq.
      pose proof (pi_pos _ _ _ _ Hi). lia. }
    destruct Hi. constructor; unfold pool_block in *; pool_simpl; try done.
    - intros b Hb. destruct (Hx b) as (_ & -> & _). auto.
    - intros b Hb. destruct (Hx b) as (_ & _ & -> & _). auto.
    - by apply Hcx.
    - eapply bq_repr_links; [|done]. intros x. destruct (Hx x) as (? & ? & _). done.
    - intros b. destruct (Hx b) as (_ & _ & _ & -> & _). auto.
    - intros b Hb Hbn. destruct (Hx b) as (_ & _ & _ & -> & _). auto.
    - by apply cache_ok_empty. }
  split; [|split; [by apply Hused|split]].
  - destruct (enable_kv_cache_events _); [apply inv_events|]; by apply inv_metrics.
  - by destruct (enable_kv_cache_events _).
  - assert (Hfin : ∀ q, q = set_heap h (set_cache ∅ p) → (∀ b, ref q b = ref p b) ∧
      ∀ b, hash q b = if decide (b ∈ blocks p) then None else hash p b).
    { intros q ->. split; intros b; unfold pool_block; simpl; by destruct (Hx b) as (_ & _ & _ & ? & ?). }
    destruct (Hfin _ eq_refl) as [Hr Hh]. simpl. destruct (enable_kv_cache_events p) eqn:Ee;
      (split; [repeat (split; [done|]); apply same_queue_refl|]); (split; [exact Hr|]);
      (split; [exact Hh|]); simpl; rewrite ?app_nil_r; done.
Qed.
