(* ===== verification/PoolTheorems.v ===== *)
(** * Theorems about the block pool

    The properties of [BlockPool], with witnesses on small pools. *)

From Stdlib Require Import Strings.Byte.
From S2P Require Import Prelude.
From S2P Require Import FreeQueue.
From S2P Require Import Request.
From S2P Require Import BlockHash.
From S2P Require Import BlockHashSpec.
From S2P Require Import BlockPool.
From S2P Require Import BlockPoolInv.
From S2P Require Import BlockPoolSpec.
From S2P Require Import BlockPoolOps.
From S2P Require Import BlockPoolProps.
Import Pool.
Local Open Scope Z_scope.

(** The constructor either raises (no block, or a state partition that leaves
    no history) or returns a pool that satisfies the invariant, with every block
    but the null block free, unreferenced and uncached. *)
Theorem pool_init_correct n caching hbs ev coll ds groups :
  match Pool.init n caching hbs ev coll ds groups with
  | Ret p =>
      0 < n ∧ (ds = 0 ∨ 1 < ds < n) ∧
      pool_inv p (free_after_init n ds).1 (free_after_init n ds).2 [] ∧
      num_gpu_blocks p = n ∧ get_num_free_blocks p None = n - 1 ∧
      ∀ b, b ∈ blocks p → ref p b = 0 ∧ hash p b = None
  | Raise AssertionError => n ≤ 0
  | Raise ValueError => 0 < n ∧ ds ≠ 0 ∧ ¬ (1 < ds < n)
  | Raise _ => False
  end.
Proof.
  destruct (decide (0 < n)) as [Hn|Hn].
  2:{ unfold Pool.init. rewrite (proj2 (Z.ltb_ge 0 n)) by lia. simpl. lia. }
  destruct (decide (ds = 0 ∨ 1 < ds < n)) as [Hds|Hds].
  - destruct (init_ok n caching hbs ev coll ds groups Hn Hds)
      as (p & -> & Hi & Hnp & _ & _ & _ & _ & Hb & Hq).
    split; [done|]. split; [done|]. split; [done|]. split; [done|]. split; [|done].
    assert (num_gpu_blocks p - get_num_free_blocks p None = 1); [|lia].
    apply (num_used_spec p _ _ Hi). intros b Hbb _. by apply Hb.
  - unfold Pool.init. rewrite (proj2 (Z.ltb_lt 0 n)) by done. cbn [negb].
    destruct (init_queue_spec n Hn) as (s & Hs & _).
    destruct (alloc_blocks (Z.to_nat n)) as [bs h]. simpl in Hs. rewrite Hs.
    rewrite (proj2 (Z.eqb_neq ds 0)) by (intros ->; apply Hds; by left). cbn [negb].
    assert (Hc : (1 <? ds) && (ds <? n) = false).
    { apply andb_false_iff. rewrite !Z.ltb_ge. destruct (decide (1 < ds)); [right; lia|left; lia]. }
    rewrite Hc. simpl. split; [done|]. split; [intros ->; apply Hds; by left|].
    intros ?. apply Hds. by right.
Qed.

(** C12: [get_new_blocks] on a well-formed pool returns the [n] oldest free blocks
    of the group's free list, each with one reference and no hash any more (when
    caching), evicting exactly their cache entries and emitting their removal
    events; when fewer blocks are free it raises [ValueError] and changes
    nothing. *)
Theorem get_new_blocks_correct use_int p st hi n gid (part : bool) :
  pool_inv p st hi [] → alloc_part (free_block_queue p) gid = Some part → 0 ≤ n →
  let free := if part then st else hi in
  if decide (n ≤ zlen free) then
    wp (get_new_blocks use_int n gid) p (λ ret p',
      ret = take (Z.to_nat n) free ∧
      pool_inv p' (if part then drop (Z.to_nat n) st else st)
        (if part then hi else drop (Z.to_nat n) hi) [] ∧
      effect p p' (λ x, if decide (x ∈ ret) then 1 else ref p x)
        (λ x, if decide (enable_caching p = true ∧ x ∈ ret) then None else hash p x)
        (if enable_caching p then removed_events use_int p ret else []))
  else get_new_blocks use_int n gid p = (Raise ValueError, p).
Proof.
  intros Hi Hpart Hn free. case_decide as Hle; [apply get_new_blocks_ok; [done..|]|].
  - by destruct part.
  - unfold get_new_blocks, get, mbind, M_bind.
    rewrite (get_num_free_blocks_spec p st hi [] gid Hi), Hpart.
    rewrite (proj2 (Z.ltb_lt _ n)); [done|]. unfold free in Hle. destruct part; lia.
Qed.

(** [touch] adds one reference per occurrence, takes exactly the touched
    blocks out of the free lists, and keeps every hash. *)
Theorem touch_correct p st hi bs :
  pool_inv p st hi [] → (∀ b, b ∈ bs → b ∈ blocks p) →
  wp (touch bs) p (λ _ p',
    pool_inv p' (filter (.∉ bs) st) (filter (.∉ bs) hi) [] ∧
    effect p p' (λ x, ref p x + count x bs) (λ x, hash p x) []).
Proof. apply touch_ok. Qed.

(** C13: [free_blocks] drops one reference per occurrence; the blocks that lose
    their last reference go to the free lists, the uncached ones (all of them
    with [reuse_first]) in front of the older free blocks and the cached ones
    behind them, in the given order, each in its partition. *)
Theorem free_blocks_correct p st hi bs reuse_first :
  pool_inv p st hi [] → freeable p bs →
  let bq := free_block_queue p in
  let front := freed_front p bs reuse_first in
  let back := freed_back p bs reuse_first in
  wp (free_blocks bs reuse_first) p (λ _ p',
    pool_inv p'
      (part_filter bq (pool_heap p) true front ++ st ++ part_filter bq (pool_heap p) true back)
      (part_filter bq (pool_heap p) false front ++ hi ++ part_filter bq (pool_heap p) false back) [] ∧
    effect p p' (λ x, ref p x - count x bs) (λ x, hash p x) []).
Proof. apply free_blocks_ok. Qed.

(** C14: [cache_full_blocks] gives each new full block that is neither null nor
    masked out its hash packed with the group id, files it in the prefix-cache
    map, changes nothing else, and emits one event per maximal run of
    consecutive cached blocks, with the run's hashes, parent hash, tokens and
    extra keys. *)
Theorem cache_full_blocks_correct sha256 use_int (r : Request) bs nc nf block_size g mask p st hi D :
  pool_inv p st hi D → mm_ordered (mm_features r) → memo_ok sha256 r →
  0 < block_size → 0 < hash_block_size p → block_size mod hash_block_size p = 0 →
  0 ≤ nc < nf → nf ≤ zlen bs → nf ≤ hl_len (group_hashes p r block_size) →
  nf ≤ zlen (block_hashes r) → 0 ≤ g < 2 ^ 32 →
  let new := py_slice bs nc nf in
  let nbh := hashes_from (group_hashes p r block_size) nc in
  cache_pre p mask nbh 0 new →
  wp (cache_full_blocks sha256 use_int r bs nc nf block_size g mask) p (λ r' p',
    memo_step sha256 r r' ∧ pool_inv p' st hi D ∧
    effect p p' (λ x, ref p x) (hash_after p g mask nbh 0 new)
      (if enable_kv_cache_events p
       then run_event sha256 use_int r (group_hashes p r block_size) block_size g
              <$> consecutive_runs (cached_indices p mask nc 0 new)
       else [])).
Proof. intros. by apply cache_full_blocks_ok. Qed.

(** [get_cached_block] returns, for every group, a block whose hash is the
    looked-up hash packed with the group, or [None] exactly when some group has
    no such block; it changes nothing. *)
Theorem get_cached_block_correct p st hi D h gs :
  pool_inv p st hi D → Forall (λ g, 0 ≤ g < 2 ^ 32) gs →
  ∃ r, get_cached_block h gs p = (Ret r, p) ∧
    match r with
    | Some bs => Forall2 (λ g b, b ∈ blocks p ∧ hash p b = Some (group_key h g)) gs bs
    | None => ∃ g, g ∈ gs ∧ ∀ b, b ∈ blocks p → hash p b ≠ Some (group_key h g)
    end.
Proof.
  intros Hi Hg. destruct (get_cached_loop_spec p st hi D h gs [] Hi Hg) as (r & Hr & Hs).
  exists r. unfold get_cached_block. rewrite Hr. split; [done|].
  destruct r as [bs|]; [|done]. destruct Hs as (more & -> & Hm). done.
Qed.

(** [reset_prefix_cache] succeeds exactly when no block but the null block is
    referenced; then no block has a hash and the map is empty.  When it fails it
    changes nothing. *)
Theorem reset_prefix_cache_correct p st hi :
  pool_inv p st hi [] →
  wp reset_prefix_cache p (λ ok p',
    if ok then
      pool_inv p' st hi [] ∧ (∀ b, b ∈ blocks p → b ≠ null_block p → ref p b = 0) ∧
      cached_block_hash_to_block p' = ∅ ∧
      effect p p' (λ x, ref p x) (λ x, if decide (x ∈ blocks p) then None else hash p x)
        (if enable_kv_cache_events p then [AllBlocksCleared] else [])
    else p' = p ∧ ∃ b, b ∈ blocks p ∧ b ≠ null_block p ∧ ref p b ≠ 0).
Proof. apply reset_ok. Qed.

(** ** Sequences of operations *)

Section reachability.
Context (sha256 : bytes → bytes) (use_int : bool).

(** One call of an operation of the pool, within the conditions its callers
    keep: references are given up only by holders, cached blocks are the
    caller's own unhashed blocks. *)
Inductive pool_step (p : BlockPool) : BlockPool → Prop :=
  | step_get_new_blocks n gid o p' :
      0 ≤ n → get_new_blocks use_int n gid p = (o, p') → pool_step p p'
  | step_touch bs o p' :
      (∀ b, b ∈ bs → b ∈ blocks p) → touch bs p = (o, p') → pool_step p p'
  | step_free_blocks bs reuse_first o p' :
      freeable p bs → free_blocks bs reuse_first p = (o, p') → pool_step p p'
  | step_cache_full_blocks (r : Request) bs nc nf block_size g mask o p' :
      mm_ordered (mm_features r) → memo_ok sha256 r → 0 < block_size →
      0 < hash_block_size p → block_size mod hash_block_size p = 0 →
      0 ≤ nc < nf → nf ≤ zlen bs → nf ≤ hl_len (group_hashes p r block_size) →
      nf ≤ zlen (block_hashes r) → 0 ≤ g < 2 ^ 32 →
      cache_pre p mask (hashes_from (group_hashes p r block_size) nc) 0 (py_slice bs nc nf) →
      cache_full_blocks sha256 use_int r bs nc nf block_size g mask p = (o, p') →
      pool_step p p'
  | step_evict_blocks ids o p' :
      Forall (λ i, 0 ≤ i < num_gpu_blocks p) ids →
      evict_blocks use_int ids p = (o, p') → pool_step p p'
  | step_reset o p' : reset_prefix_cache p = (o, p') → pool_step p p'
  | step_take_events o p' : take_events p = (o, p') → pool_step p p'.

Lemma wp_result {S A} (m : M S A) s Q o s' :
  wp m s Q → m s = (o, s') → ∃ a, o = Ret a ∧ Q a s'.
Proof. unfold wp. intros Hw E. rewrite E in Hw. destruct o; [by eexists|done]. Qed.

Lemma alloc_part_none p gid st hi :
  pool_inv p st hi [] → alloc_part (free_block_queue p) gid = None →
  ∀ n, 0 ≤ n → ∃ e, get_new_blocks use_int n gid p = (Raise e, p).
Proof.
  intros Hi Hn n Hge. exists ValueError. unfold get_new_blocks, get, mbind, M_bind.
  case_match; [done|]. unfold fq_popleft_n, get, mbind, M_bind.
  unfold alloc_part in Hn. destruct (free_block_queue p); [done|]. by destruct gid.
Qed.

Lemma pool_step_inv p p' :
  pool_step p p' → (∃ st hi, pool_inv p st hi []) → ∃ st hi, pool_inv p' st hi [].
Proof.
  intros Hstep (st & hi & Hi). destruct Hstep as
    [n gid o p' Hn E|bs o p' Hbs E|bs rf o p' Hf E|r bs nc nf bsz g m o p' H1 H2 H3 H4 H5 H6 H7 H8 H9 H10 H11 E
    |ids o p' Hids E|o p' E|o p' E].
  - destruct (alloc_part (free_block_queue p) gid) as [part|] eqn:Hp.
    + destruct (decide (n ≤ zlen (if part then st else hi))).
      * assert (Hw := get_new_blocks_ok use_int p st hi n gid part Hi Hp ltac:(lia)).
        destruct (wp_result _ _ _ _ _ Hw E) as (a & _ & _ & Hi' & _). by eexists _, _.
      * unfold get_new_blocks, get, mbind, M_bind in E.
        rewrite (get_num_free_blocks_spec p st hi [] gid Hi), Hp in E.
        rewrite (proj2 (Z.ltb_lt _ n)) in E by (destruct part; lia).
        unfold raise in E. simplify_eq. by eexists _, _.
    + destruct (alloc_part_none p gid st hi Hi Hp n Hn) as [e He]. rewrite He in E.
      simplify_eq. by eexists _, _.
  - destruct (wp_result _ _ _ _ _ (touch_ok p st hi bs Hi Hbs) E) as (a & _ & Hi' & _).
    by eexists _, _.
  - destruct (wp_result _ _ _ _ _ (free_blocks_ok p st hi bs rf Hi Hf) E) as (a & _ & Hi' & _).
    by eexists _, _.
  - assert (Hw := cache_full_blocks_ok sha256 use_int r bs nc nf bsz g m p st hi []
      Hi H1 H2 H3 H4 H5 H6 H7 H8 H9 H10 H11).
    destruct (wp_result _ _ _ _ _ Hw E) as (a & _ & _ & Hi' & _). by eexists _, _.
  - destruct (wp_result _ _ _ _ _ (evict_blocks_ok use_int p st hi [] ids Hi Hids) E)
      as (a & _ & Hi' & _). by eexists _, _.
  - destruct (wp_result _ _ _ _ _ (reset_ok p st hi Hi) E) as (a & _ & Hi').
    exists st, hi. destruct a; [apply Hi'|]. by destruct Hi' as [-> _].
  - unfold take_events, get, mbind, M_bind in E. exists st, hi.
    destruct (enable_kv_cache_events p); simpl in E; unfold mret, M_ret in E;
      simplify_eq; [by apply inv_events|done].
Qed.

(** C1: in every state reached from a fresh pool by any sequence of operations,
    raising or not: no reference count of a non-null block is negative; the
    free blocks are exactly the unreferenced non-null blocks, each once; the
    null block is never free and never cached; and the prefix-cache map files
    a block under a key exactly when the key is the block's hash. *)
Theorem reachable_pool_safe n caching hbs ev coll ds groups p0 p :
  Pool.init n caching hbs ev coll ds groups = Ret p0 → rtc pool_step p0 p →
  ∃ st hi, bq_repr (pool_heap p) (free_block_queue p) st hi ∧ NoDup (st ++ hi) ∧
    (∀ b, b ∈ st ++ hi ↔ b ∈ blocks p ∧ b ≠ null_block p ∧ ref p b = 0) ∧
    (∀ b, b ∈ blocks p → b ≠ null_block p → 0 ≤ ref p b) ∧
    hash p (null_block p) = None ∧
    ∀ key b, holds (cached_block_hash_to_block p) key b ↔ b ∈ blocks p ∧ hash p b = Some key.
Proof.
  intros Hinit Hsteps. assert (H0 : ∃ st hi, pool_inv p0 st hi []).
  { destruct (decide (0 < n)) as [Hn|Hn].
    2:{ unfold Pool.init in Hinit. rewrite (proj2 (Z.ltb_ge 0 n)) in Hinit by lia. done. }
    destruct (decide (ds = 0 ∨ 1 < ds < n)) as [Hds|Hds].
    - destruct (init_ok n caching hbs ev coll ds groups Hn Hds) as (p1 & Hp1 & Hi & _).
      rewrite Hp1 in Hinit. simplify_eq. by eexists _, _.
    - unfold Pool.init in Hinit. rewrite (proj2 (Z.ltb_lt 0 n)) in Hinit by done. cbn [negb] in Hinit.
      destruct (alloc_blocks (Z.to_nat n)) as [bs h].
      destruct (FreeQueue.popleft (FreeQueue.init bs h)) as [[?|?] ?]; [|done].
      rewrite (proj2 (Z.eqb_neq ds 0)) in Hinit by (intros ->; apply Hds; by left). cbn [negb] in Hinit.
      assert (Hc : (1 <? ds) && (ds <? n) = false).
      { apply andb_false_iff. rewrite !Z.ltb_ge. destruct (decide (1 < ds)); [right; lia|left; lia]. }
      by rewrite Hc in Hinit. }
  assert (Hp : ∃ st hi, pool_inv p st hi []).
  { clear Hinit. induction Hsteps as [|x y z Hxy _ IH]; [done|]. apply IH. by eapply pool_step_inv. }
  destruct Hp as (st & hi & Hi). exists st, hi. split; [apply Hi|].
  pose proof (pi_disj _ _ _ _ Hi) as Hnd. pose proof (pi_free _ _ _ _ Hi) as Hf.
  rewrite app_nil_r in Hnd. setoid_rewrite app_nil_r in Hf.
  split; [done|]. split; [done|]. split; [apply Hi|]. split; [apply Hi|]. apply (pi_cache _ _ _ _ Hi).
Qed.
End reachability.

(** ** Witnesses

    A pool [p] of four blocks with caching and events, and the pool [p2] after
    two blocks are handed out. *)

Lemma elem_of_two (b x y : loc) : b ∈ [x; y] ↔ b = x ∨ b = y.
Proof. rewrite !elem_of_cons, elem_of_nil. tauto. Qed.

Lemma nodup_two (x y : loc) : x ≠ y → NoDup [x; y].
Proof. intros. apply NoDup_cons. split; [by rewrite list_elem_of_singleton|apply NoDup_singleton]. Qed.

Record demo (p p2 : BlockPool) : Prop := {
  demo_init : Pool.init 4 true 2 true true 0 [] = Ret p;
  demo_inv : pool_inv p [] [1; 2; 3]%nat [];
  demo_blocks : blocks p = [0; 1; 2; 3]%nat;
  demo_part gid : alloc_part (free_block_queue p) gid = Some false;
  demo_step : ∃ o, get_new_blocks false 2 None p = (o, p2);
  demo_inv2 : pool_inv p2 [] [3]%nat [];
  demo_single2 : ∃ q, free_block_queue p2 = Single q;
  demo_blocks2 : blocks p2 = [0; 1; 2; 3]%nat;
  demo_null2 : null_block p2 = 0%nat;
  demo_caching2 : enable_caching p2 = true;
  demo_hash_size2 : hash_block_size p2 = 2;
  demo_taken b : b ∈ [1; 2]%nat → ref p2 b = 1 ∧ hash p2 b = None;
}.

Lemma demo_exists : ∃ p p2, demo p p2.
Proof.
  destruct (init_ok 4 true 2 true true 0 []) as (p & Hp & Hi & Hn & Hc & Hh & _ & _ & _ & Hq);
    [lia|by left|].
  destruct (free_block_queue p) as [q|] eqn:Eq; [|by destruct Hq].
  assert (Hpart : ∀ gid, alloc_part (free_block_queue p) gid = Some false) by (by rewrite Eq).
  assert (Hw := get_new_blocks_ok false p _ _ 2 None false Hi (Hpart None)).
  apply wp_elim in Hw as (ret & p2 & E & Hret & Hi2 & (Hs & Hr & Hhash & _));
    [|unfold zlen; simpl length; lia].
  change (ret = [1; 2]%nat) in Hret. subst ret. pose proof Hs as (_ & _ & _ & Hb2 & Hn2 & _ & Hsq).
  assert (Hb : blocks p = [0; 1; 2; 3]%nat) by (rewrite (pi_blocks _ _ _ _ Hi), Hn; done).
  exists p, p2. constructor; try done.
  - by eexists.
  - rewrite Eq in Hsq. destruct (free_block_queue p2); [by eexists|done].
  - congruence.
  - rewrite Hn2. apply Hi.
  - destruct Hs as (_ & -> & _). done.
  - destruct Hs as (_ & _ & -> & _). done.
  - intros b Hin. split; [rewrite Hr; by rewrite decide_True|].
    rewrite Hhash. rewrite decide_True; [done|]. by rewrite Hc.
Qed.

Lemma get_new_blocks_correct_witness : ∃ p,
  wp (get_new_blocks false 2 None) p (λ ret _, ret = [1; 2]%nat) ∧
  get_new_blocks false 4 None p = (Raise ValueError, p).
Proof.
  destruct demo_exists as (p & p2 & H). exists p. split.
  - assert (Hw := get_new_blocks_correct false p [] [1; 2; 3]%nat 2 None false
      (demo_inv _ _ H) (demo_part _ _ H None) ltac:(lia)).
    cbv zeta in Hw. rewrite decide_True in Hw by (unfold zlen; simpl length; lia).
    eapply wp_mono; [exact Hw|]. intros ret p' (-> & _). reflexivity.
  - assert (Hw := get_new_blocks_correct false p [] [1; 2; 3]%nat 4 None false
      (demo_inv _ _ H) (demo_part _ _ H None) ltac:(lia)).
    cbv zeta in Hw. by rewrite decide_False in Hw by (unfold zlen; simpl length; lia).
Defined.

Lemma touch_correct_witness : ∃ p,
  wp (touch [2; 3; 3]%nat) p (λ _ p', pool_inv p' [] [1]%nat [] ∧ ref p' 3%nat = ref p 3%nat + 2).
Proof.
  destruct demo_exists as (p & p2 & H). exists p.
  eapply wp_mono; [apply (touch_correct p [] [1; 2; 3]%nat [2; 3; 3]%nat (demo_inv _ _ H))|].
  - intros b Hb. rewrite (demo_blocks _ _ H). rewrite !elem_of_cons, elem_of_nil in *. lia.
  - intros [] p' [Hi (_ & Hr & _)]. split; [exact Hi|]. by rewrite Hr.
Defined.

Lemma free_blocks_correct_witness : ∃ p,
  wp (free_blocks [2; 1]%nat false) p (λ _ p', pool_inv p' [] [2; 1; 3]%nat []).
Proof.
  destruct demo_exists as (p & p2 & H). exists p2.
  assert (Hr1 : ∀ b, b ∈ [2; 1]%nat → ref p2 b = 1 ∧ hash p2 b = None ∧ b ≠ 0%nat ∧
    b ∈ [0; 1; 2; 3]%nat).
  { intros b Hbb%elem_of_two. destruct (demo_taken _ _ H b); [apply elem_of_two; tauto|].
    rewrite !elem_of_cons. split; [done|]. split; [done|]. split; [lia|tauto]. }
  assert (Hf : freeable p2 [2; 1]%nat).
  { unfold freeable. rewrite (demo_blocks2 _ _ H), (demo_null2 _ _ H). split.
    - rewrite filter_true; [by apply nodup_two|]. intros x Hx. by apply Hr1.
    - intros b (H1 & _ & _ & Hin)%Hr1. split; [done|]. intros _. by rewrite H1. }
  assert (Hfr : freed p2 [2; 1]%nat = [2; 1]%nat).
  { unfold freed. apply filter_true. intros b (H1 & _ & H0 & _)%Hr1. by rewrite (demo_null2 _ _ H). }
  assert (Hhb : ∀ b, b ∈ [2; 1]%nat → hash p2 b = None) by (intros b Hbb; by apply Hr1).
  eapply wp_mono; [apply (free_blocks_correct p2 [] [3]%nat [2; 1]%nat false (demo_inv2 _ _ H) Hf)|].
  intros [] p' [Hi' _]. unfold freed_front, freed_back in Hi'.
  rewrite (demo_caching2 _ _ H), Hfr in Hi'.
  rewrite (filter_true (λ b, _ ∨ _)) in Hi' by (intros b Hbb; right; by apply Hhb).
  rewrite (filter_false (λ b, _ ∧ _)) in Hi' by (intros b Hbb [_ Hx]; by apply Hx, Hhb).
  destruct (demo_single2 _ _ H) as [q Hq]. rewrite Hq in Hi'. exact Hi'.
Defined.

Definition demo_request : Request :=
  set_block_hashes [[x01]; [x02]] (toy_request [] None None [11; 12; 13; 14; 15]).

Lemma cache_full_blocks_correct_witness : ∃ p,
  wp (cache_full_blocks id false demo_request [1; 2]%nat 0 2 2 7 None) p (λ _ p',
    pool_inv p' [] [3]%nat [] ∧
    hash p' 1%nat = Some [x01; x00; x00; x00; x07] ∧
    hash p' 2%nat = Some [x02; x00; x00; x00; x07]).
Proof.
  destruct demo_exists as (p0 & p & H). exists p.
  assert (Hhb := demo_hash_size2 _ _ H). assert (Hn := demo_null2 _ _ H).
  assert (Hg : group_hashes p demo_request 2 = Hashes [[x01]; [x02]])
    by (unfold group_hashes; by rewrite Hhb).
  eapply wp_mono.
  { apply (cache_full_blocks_correct id false demo_request [1; 2]%nat 0 2 2 7 None p
      [] [3]%nat [] (demo_inv2 _ _ H)); rewrite ?Hhb, ?Hg; try (vm_compute; done); try lia.
    - by split; constructor.
    - change (py_slice [1; 2]%nat 0 2) with [1; 2]%nat. unfold cache_pre. rewrite (demo_blocks2 _ _ H), Hn. simpl.
      split; [|split; [|split; [|split; [lia|done]]]].
      + rewrite filter_true; [by apply nodup_two|]. intros x Hx%elem_of_two. lia.
      + intros b Hbb%elem_of_two. rewrite !elem_of_cons. lia.
      + intros j b Hj _. apply (demo_taken _ _ H). by eapply list_elem_of_lookup_2. }
  intros r' p' (_ & Hi' & (_ & _ & Hh' & _)). split; [done|]. rewrite !Hh', Hg.
  assert (Hc : ∀ i b, b ≠ 0%nat → cacheable p None i b)
    by (intros i b Hbb; unfold cacheable; by rewrite Hn).
  unfold py_slice. simpl. split.
  - rewrite decide_True by (split; [done|by apply Hc]). reflexivity.
  - rewrite decide_True by (split; [done|by apply Hc]). reflexivity.
Defined.

Lemma get_cached_block_correct_witness :
  ∃ p, (∃ r, get_cached_block [x01] [0; 1] p = (Ret r, p)) ∧ Forall (λ g, 0 ≤ g < 2 ^ 32) [0; 1].
Proof.
  destruct demo_exists as (p & p2 & H). exists p.
  assert (Hg : Forall (λ g, 0 ≤ g < 2 ^ 32) [0; 1]) by (repeat constructor; lia). split; [|done].
  destruct (get_cached_block_correct p [] [1; 2; 3]%nat [] [x01] [0; 1] (demo_inv _ _ H) Hg) as (r & Hr & _).
  by exists r.
Defined.

Lemma reset_prefix_cache_correct_witness :
  ∃ p, wp reset_prefix_cache p (λ ok p', ok = false ∧ p' = p).
Proof.
  destruct demo_exists as (p0 & p & H). exists p.
  eapply wp_mono; [apply (reset_prefix_cache_correct p [] [3]%nat (demo_inv2 _ _ H))|].
  intros [] p' Hp'; [|by destruct Hp' as [-> _]].
  destruct Hp' as (_ & Hall & _). exfalso.
  destruct (demo_taken _ _ H 1%nat) as [H1 _]; [apply elem_of_two; by left|].
  rewrite Hall in H1; [lia| |by rewrite (demo_null2 _ _ H)].
  rewrite (demo_blocks2 _ _ H), !elem_of_cons. tauto.
Defined.

Lemma reachable_pool_safe_witness :
  ∃ p st hi, bq_repr (pool_heap p) (free_block_queue p) st hi ∧ NoDup (st ++ hi) ∧
    ∀ b, b ∈ st ++ hi ↔ b ∈ blocks p ∧ b ≠ null_block p ∧ ref p b = 0.
Proof.
  destruct demo_exists as (p & p2 & H). exists p2.
  destruct (reachable_pool_safe id false 4 true 2 true true 0 [] p p2 (demo_init _ _ H))
    as (st & hi & H1 & H2 & H3 & _).
  - destruct (demo_step _ _ H) as [o Ho].
    apply rtc_once. by apply (step_get_new_blocks id false p 2 None o p2).
  - by exists st, hi.
Defined.
