(* ===== verification/KVCacheSpec.v ===== *)
(** * KV cache specifications

    [vllm/v1/kv_cache_interface.py]: the classes of KV cache spec, their
    subclass tests, the token span of a block under context parallelism and the
    per-request admission cap.  The tensor layout (heads, dtypes, page sizes), which
    no operation of the block managers reads, is in LayerSpec.v. *)

From S2P Require Import Prelude.
Local Open Scope Z_scope.

(** The concrete class of a spec, with the fields the managers read. *)
Inductive spec_class : Type :=
  | FullAttentionSpec
  | TQFullAttentionSpec
  | MLAAttentionSpec
  | HiddenStateCacheSpec
  | PrefixAnchoredSWASpec (decode_sliding_window : Z)
  | SinkFullAttentionSpec (sink_len : option Z)
  | SlidingWindowSpec (sliding_window : Z)
  | SlidingWindowMLASpec (sliding_window : Z)
  | KpoolTailSpec (sliding_window : Z)
  | ChunkedLocalAttentionSpec (attention_chunk_size : Z)
  | CircularBufferSpec
  | MambaSpec (mamba_cache_mode : string) (num_speculative_blocks : Z)
  | EncoderOnlyAttentionSpec
  | CrossAttentionSpec.

Record KVCacheSpec : Type := mkSpec {
  spec_type : spec_class;
  spec_block_size : Z;
  dcp_sharded : bool;
}.

#[export] Instance spec_class_eq_dec : EqDecision spec_class.
Proof. solve_decision. Defined.
#[export] Instance KVCacheSpec_eq_dec : EqDecision KVCacheSpec.
Proof. solve_decision. Defined.

(** ** Subclass tests *)

Definition is_full_attention (c : spec_class) : bool :=
  match c with
  | FullAttentionSpec | TQFullAttentionSpec | MLAAttentionSpec | HiddenStateCacheSpec
  | PrefixAnchoredSWASpec _ | SinkFullAttentionSpec _ => true
  | _ => false
  end.

(** The window of a [SlidingWindowSpec] or a subclass of it. *)
Definition sliding_window_of (c : spec_class) : option Z :=
  match c with
  | SlidingWindowSpec w | SlidingWindowMLASpec w | KpoolTailSpec w => Some w
  | _ => None
  end.

Definition chunk_size_of (c : spec_class) : option Z :=
  match c with ChunkedLocalAttentionSpec n => Some n | _ => None end.

Definition mamba_fields (c : spec_class) : option (string * Z) :=
  match c with MambaSpec mode n => Some (mode, n) | _ => None end.

(** [KVCacheSpec.global_block_size] *)
Definition global_block_size (spec : KVCacheSpec) (dcp_world_size pcp_world_size : Z) : Z :=
  if dcp_sharded spec then spec_block_size spec * dcp_world_size * pcp_world_size
  else spec_block_size spec.

(** [prefix_cacheable] *)
Definition prefix_cacheable (spec : KVCacheSpec) : bool :=
  match spec_type spec with CircularBufferSpec | KpoolTailSpec _ => false | _ => true end.

(** [max_admission_blocks_per_request] of the sliding-window and chunked-local
    specs; the other classes do not define it. *)
Definition max_admission_blocks_per_request (spec : KVCacheSpec)
    (max_in_flight_tokens max_model_len : Z) : option Z :=
  match spec_type spec with
  | KpoolTailSpec _ => Some 1
  | SlidingWindowSpec w | SlidingWindowMLASpec w =>
      Some (cdiv (Z.min (w - 1 + max_in_flight_tokens) max_model_len) (spec_block_size spec) + 1)
  | ChunkedLocalAttentionSpec c =>
      Some (cdiv (Z.min (c + max_in_flight_tokens) max_model_len) (spec_block_size spec))
  | _ => None
  end.
