(* ===== verification/SingleType.v ===== *)
(** * Managers of one KV cache group

    [vllm/v1/core/single_type_kv_cache_manager.py]: the base manager and its
    subclasses.  A method runs on the manager's own attributes and on the block
    pool it shares with the other managers, so its state is a pair [mstate].

    Divisors (block sizes, alignments, chunk sizes) are positive for every
    caller; Python's [ZeroDivisionError] is not modelled. *)

From Stdlib Require Import Strings.Byte.
From S2P Require Import Prelude.
From S2P Require Import FreeQueue.
From S2P Require Import Request.
From S2P Require Import BlockHash.
From S2P Require Import BlockPool.
From S2P Require Import KVCacheSpec.
Local Open Scope Z_scope.

(** Attributes set by the constructor or the coordinator, which no method
    changes. *)
Record ManagerArgs : Type := mkMgrArgs {
  kv_cache_spec : KVCacheSpec;
  m_block_size : Z;
  m_enable_caching : bool;
  kv_cache_group_id : Z;
  dcp_world_size : Z;
  pcp_world_size : Z;
  _max_admission_blocks_per_request : option Z;
  _null_block : loc;
  use_eagle : bool;
  reuse_window : option Z;
  alignment_tokens : option Z;
  mamba_replay_lookbehind : bool;
  sink_blocks : list loc;
}.

(** A pending boundary-state offload: request, group, block, boundary. *)
Abbreviation offload := (string * Z * loc * Z)%type.

Record Manager : Type := mkMgr {
  mgr_args :> ManagerArgs;
  new_block_ids : list Z;
  _pending_boundary_state_offloads : list offload;
  req_to_blocks : gmap string (list loc);
  num_cached_block : gmap string Z;
  cached_blocks_this_step : gset bytes;
  last_state_block_idx : gmap string (list Z);
  _allocated_block_reqs : gset string;
}.

Definition set_new_block_ids v (m : Manager) : Manager :=
  mkMgr (mgr_args m) v (_pending_boundary_state_offloads m) (req_to_blocks m)
    (num_cached_block m) (cached_blocks_this_step m) (last_state_block_idx m)
    (_allocated_block_reqs m).
Definition set_pending v (m : Manager) : Manager :=
  mkMgr (mgr_args m) (new_block_ids m) v (req_to_blocks m)
    (num_cached_block m) (cached_blocks_this_step m) (last_state_block_idx m)
    (_allocated_block_reqs m).
Definition set_req_to_blocks v (m : Manager) : Manager :=
  mkMgr (mgr_args m) (new_block_ids m) (_pending_boundary_state_offloads m) v
    (num_cached_block m) (cached_blocks_this_step m) (last_state_block_idx m)
    (_allocated_block_reqs m).
Definition set_num_cached_block v (m : Manager) : Manager :=
  mkMgr (mgr_args m) (new_block_ids m) (_pending_boundary_state_offloads m) (req_to_blocks m)
    v (cached_blocks_this_step m) (last_state_block_idx m) (_allocated_block_reqs m).
Definition set_cached_this_step v (m : Manager) : Manager :=
  mkMgr (mgr_args m) (new_block_ids m) (_pending_boundary_state_offloads m) (req_to_blocks m)
    (num_cached_block m) v (last_state_block_idx m) (_allocated_block_reqs m).
Definition set_last_state v (m : Manager) : Manager :=
  mkMgr (mgr_args m) (new_block_ids m) (_pending_boundary_state_offloads m) (req_to_blocks m)
    (num_cached_block m) (cached_blocks_this_step m) v (_allocated_block_reqs m).
Definition set_allocated_reqs v (m : Manager) : Manager :=
  mkMgr (mgr_args m) (new_block_ids m) (_pending_boundary_state_offloads m) (req_to_blocks m)
    (num_cached_block m) (cached_blocks_this_step m) (last_state_block_idx m) v.

Record mstate : Type := MState { mgr : Manager; block_pool : BlockPool }.

Definition on_pool {A} (m : M BlockPool A) : M mstate A :=
  zoom block_pool (λ p s, MState (mgr s) p) m.
Definition upd_mgr (f : Manager → Manager) : M mstate unit :=
  modify (λ s, MState (f (mgr s)) (block_pool s)).

(** [self.req_to_blocks[rid]]: a [defaultdict(list)] inserts the missing key. *)
Definition get_req_blocks (rid : string) : M mstate (list loc) :=
  s ← get; let m := mgr s in
  match req_to_blocks m !! rid with
  | Some l => mret l
  | None => upd_mgr (set_req_to_blocks (<[rid := []]> (req_to_blocks m))) ;; mret []
  end.

(** In-place change of the list filed under [rid]. *)
Definition put_req_blocks (rid : string) (l : list loc) : M mstate unit :=
  upd_mgr (λ m, set_req_to_blocks (<[rid := l]> (req_to_blocks m)) m).

(** [self.req_to_blocks.get(rid, ())] *)
Definition req_blocks (m : Manager) (rid : string) : list loc :=
  default [] (req_to_blocks m !! rid).

(** [type(spec) in (FullAttentionSpec, TQFullAttentionSpec, MLAAttentionSpec)] *)
Definition tracks_new_blocks (c : spec_class) : bool :=
  match c with
  | FullAttentionSpec | TQFullAttentionSpec | MLAAttentionSpec => true
  | _ => false
  end.

(** [self.new_block_ids.extend(b.block_id for b in bs)] *)
Definition extend_new_block_ids (bs : list loc) : M mstate unit :=
  modify (λ s, MState
    (set_new_block_ids
       (new_block_ids (mgr s) ++ ((λ b, block_id (pool_block (block_pool s) b)) <$> bs)) (mgr s))
    (block_pool s)).

(** [l[i] = x] *)
Definition py_set {A} (l : list A) (i : Z) (x : A) : option (list A) :=
  let j := if i <? 0 then i + zlen l else i in
  if (0 <=? j) && (j <? zlen l) then Some (<[Z.to_nat j := x]> l) else None.

(** [range(a, b)] and [range(b - 1, a - 1, -1)] *)
Definition py_range (a b : Z) : list Z := seqZ a (b - a).
Definition py_range_down (a b : Z) : list Z := rev (py_range a b).

(** ** Skipped tokens: [get_num_skipped_tokens] of every class *)

Definition get_num_skipped_tokens (m : Manager) (num_computed_tokens : Z) : Z :=
  match spec_type (kv_cache_spec m) with
  | KpoolTailSpec _ => 0
  | SlidingWindowSpec w | SlidingWindowMLASpec w => Z.max 0 (num_computed_tokens - w + 1)
  | ChunkedLocalAttentionSpec c => num_computed_tokens / c * c
  | MambaSpec _ _ => num_computed_tokens - 1
  | _ => 0
  end.

(** ** Reachable blocks: [reachable_block_mask] of every class *)

Definition _contiguous_blocks_for_hit (window_size block_size : Z) (use_eagle : bool) : Z :=
  cdiv (window_size - 1) block_size + (if use_eagle then 1 else 0).

Definition swa_reachable_block_mask (start_block num_blocks alignment_tokens : Z)
    (spec : KVCacheSpec) (use_eagle : bool) : outcome (option (list bool)) :=
  if negb (spec_block_size spec <? alignment_tokens) then Raise AssertionError
  else
    match sliding_window_of (spec_type spec) with
    | None => Raise AssertionError
    | Some w =>
        let per_segment := alignment_tokens / spec_block_size spec in
        let need := _contiguous_blocks_for_hit w (spec_block_size spec) use_eagle in
        if per_segment <=? need then Ret None
        else
          let shift := if use_eagle then 1 else 0 in
          Ret (Some ((λ i, (shift <=? i) && (per_segment - need <=? (i - shift) mod per_segment))
                       <$> py_range start_block num_blocks))
    end.

(** [for i in range(first, len(mask), step): mask[i] = True], [step] positive. *)
Fixpoint mark_every (fuel : nat) (i step : Z) (mask : list bool) : list bool :=
  match fuel with
  | O => mask
  | S fuel =>
      if i <? zlen mask
      then mark_every fuel (i + step) step (<[Z.to_nat i := true]> mask)
      else mask
  end.

Definition mamba_reachable_block_mask (start_block end_block : Z)
    (alignment_tokens : option Z) (spec : KVCacheSpec) (retention_interval : option Z)
    (reachable_boundaries : list Z) : outcome (option (list bool)) :=
  match retention_interval, alignment_tokens with
  | Some interval, Some alignment =>
      match mamba_fields (spec_type spec) with
      | None => Raise AssertionError
      | Some (mode, _) =>
          let block_size := spec_block_size spec in
          if negb (bool_decide (mode = "align"%string)) || negb (alignment =? block_size)
          then Ret None
          else
            let mask := replicate (Z.to_nat (end_block - start_block)) false in
            let mark_boundary mask boundary :=
              let block := boundary / alignment * alignment / block_size - 1 in
              if (start_block <=? block) && (block <? end_block)
              then <[Z.to_nat (block - start_block) := true]> mask else mask in
            if interval =? 0 then Ret (Some (foldl mark_boundary mask reachable_boundaries))
            else
              let per_segment := interval / block_size in
              if per_segment <=? 1 then Ret None
              else
                let first := (start_block + per_segment) / per_segment * per_segment - 1 in
                let mask := mark_every (length mask) (first - start_block) per_segment mask in
                Ret (Some (foldl mark_boundary mask reachable_boundaries))
      end
  | _, _ => Ret None
  end.

(** The base-class method, dispatched on the manager's class: [None] caches
    every block. *)
Definition reachable_block_mask (m : Manager) (start_block num_blocks alignment_tokens : Z)
    : outcome (option (list bool)) :=
  match spec_type (kv_cache_spec m) with
  | SlidingWindowSpec _ | SlidingWindowMLASpec _ =>
      swa_reachable_block_mask start_block num_blocks alignment_tokens (kv_cache_spec m)
        (use_eagle m)
  | _ => Ret None
  end.

(** [_get_num_evictable_blocks] *)
Definition _get_num_evictable_blocks (p : BlockPool) (bs : list loc) : Z :=
  zlen (filter (λ b, ref_cnt (pool_block p b) = 0 ∧ is_null (pool_block p b) = false) bs).

(** ** The base class *)
Module Base.

Definition take_pending_boundary_state_offloads : M mstate (list offload) :=
  pending ← gets (λ s, _pending_boundary_state_offloads (mgr s));
  upd_mgr (set_pending []) ;;
  mret pending.

Definition get_num_blocks_to_allocate (rid : string) (num_tokens : Z)
    (new_computed_blocks : list loc) (total_computed_tokens num_tokens_main_model : Z)
    (apply_admission_cap : bool) : M mstate Z :=
  s ← get;
  let m := mgr s in
  let num_required_blocks := cdiv num_tokens (m_block_size m) in
  let num_required_blocks :=
    match apply_admission_cap, _max_admission_blocks_per_request m with
    | true, Some cap => Z.min num_required_blocks cap
    | _, _ => num_required_blocks
    end in
  let num_req_blocks := zlen (req_blocks m rid) in
  match num_cached_block m !! rid with
  | Some _ =>
      py_assert (zlen new_computed_blocks =? 0) ;;
      mret (Z.max (num_required_blocks - num_req_blocks) 0)
  | None =>
      let num_skipped_tokens := get_num_skipped_tokens m total_computed_tokens in
      let num_local_computed_blocks := zlen new_computed_blocks + num_req_blocks in
      let num_skipped_blocks := num_skipped_tokens / m_block_size m in
      let num_new_blocks :=
        Z.max (num_required_blocks - Z.max num_skipped_blocks num_local_computed_blocks) 0 in
      let num_skipped_new_computed_blocks := Z.max 0 (num_skipped_blocks - num_req_blocks) in
      mret (num_new_blocks +
            _get_num_evictable_blocks (block_pool s)
              (py_from new_computed_blocks num_skipped_new_computed_blocks))
  end.

Section allocation.
Context (use_int : bool).

Definition allocate_new_computed_blocks (rid : string) (new_computed_blocks : list loc)
    (num_local_computed_tokens num_external_computed_tokens : Z) : M mstate unit :=
  s ← get; let m := mgr s in
  match num_cached_block m !! rid with
  | Some _ => py_assert (zlen new_computed_blocks =? 0)
  | None =>
      blocks0 ← get_req_blocks rid;
      py_assert (zlen blocks0 =? 0) ;;
      let num_total_computed_tokens := num_local_computed_tokens + num_external_computed_tokens in
      let num_skipped_tokens := get_num_skipped_tokens m num_total_computed_tokens in
      let num_skipped_blocks := num_skipped_tokens / m_block_size m in
      let new_computed_blocks :=
        if 0 <? num_skipped_blocks then py_from new_computed_blocks num_skipped_blocks
        else new_computed_blocks in
      let num_external_computed_tokens :=
        if 0 <? num_skipped_blocks
        then Z.min (num_total_computed_tokens - num_skipped_tokens) num_external_computed_tokens
        else num_external_computed_tokens in
      (if m_enable_caching m then on_pool (Pool.touch new_computed_blocks)
       else py_assert (bool_decide (new_computed_blocks = []))) ;;
      let blocks1 :=
        blocks0 ++ replicate (Z.to_nat num_skipped_blocks) (_null_block m) ++ new_computed_blocks in
      put_req_blocks rid blocks1 ;;
      upd_mgr (λ m, set_num_cached_block (<[rid := zlen blocks1]> (num_cached_block m)) m) ;;
      when (0 <? num_external_computed_tokens) (
        allocated ← on_pool (Pool.get_new_blocks use_int
          (cdiv num_total_computed_tokens (m_block_size m) - zlen blocks1)
          (Some (kv_cache_group_id m)));
        put_req_blocks rid (blocks1 ++ allocated) ;;
        when (tracks_new_blocks (spec_type (kv_cache_spec m))) (extend_new_block_ids allocated))
  end.

Definition allocate_new_blocks (rid : string) (num_tokens num_tokens_main_model : Z)
    : M mstate (list loc) :=
  s ← get; let m := mgr s in
  blocks0 ← get_req_blocks rid;
  let num_required_blocks := cdiv num_tokens (m_block_size m) in
  let num_new_blocks := num_required_blocks - zlen blocks0 in
  if num_new_blocks <=? 0 then mret []
  else
    new_blocks ← on_pool (Pool.get_new_blocks use_int num_new_blocks (Some (kv_cache_group_id m)));
    put_req_blocks rid (blocks0 ++ new_blocks) ;;
    when (tracks_new_blocks (spec_type (kv_cache_spec m))) (extend_new_block_ids new_blocks) ;;
    mret new_blocks.
End allocation.

Definition take_new_block_ids : M mstate (list Z) :=
  ids ← gets (λ s, new_block_ids (mgr s));
  upd_mgr (set_new_block_ids []) ;;
  mret ids.

(** [num_cached_block.get(rid, 0)] *)
Definition cached_of (m : Manager) (rid : string) : Z := default 0 (num_cached_block m !! rid).

Definition cache_blocks (sha256 : bytes → bytes) (use_int : bool) (request : Request)
    (num_tokens : Z) (alignment : option Z) : M mstate Request :=
  s ← get; let m := mgr s in
  let num_cached_blocks := cached_of m (request_id request) in
  let num_full_blocks := num_tokens / m_block_size m in
  if num_full_blocks <=? num_cached_blocks then mret request
  else
    block_mask ←
      (match alignment with
       | None => mret None
       | Some a =>
           if a <=? m_block_size m then mret None
           else of_outcome (reachable_block_mask m num_cached_blocks num_full_blocks a)
       end);
    bs ← get_req_blocks (request_id request);
    on_pool (Pool.cache_full_blocks sha256 use_int request bs num_cached_blocks
               num_full_blocks (m_block_size m) (kv_cache_group_id m) block_mask)
      ≫= λ request : Request,
    upd_mgr (λ m, set_num_cached_block
                    (<[request_id request := num_full_blocks]> (num_cached_block m)) m) ;;
    mret request.

Definition free (rid : string) : M mstate unit :=
  s ← get; let m := mgr s in
  upd_mgr (set_req_to_blocks (delete rid (req_to_blocks m))) ;;
  on_pool (Pool.free_blocks (rev (req_blocks m rid)) false) ;;
  upd_mgr (λ m, set_num_cached_block (delete rid (num_cached_block m)) m).

(** The loop of [_remove_blocks_in_range], [indices] counting down: the blocks
    with the removed ones nulled, then the freed and the replay blocks. *)
Fixpoint remove_loop (null : loc) (hold : option (Z * Z)) (indices : list Z)
    (blocks freed replay : list loc) : option (list loc * list loc * list loc) :=
  match indices with
  | [] => Some (blocks, freed, replay)
  | i :: rest =>
      b ← py_get blocks i;
      if decide (b = null) then Some (blocks, freed, replay)
      else
        blocks' ← py_set blocks i null;
        if match hold with Some (a, z) => (a <=? i) && (i <? z) | None => false end
        then remove_loop null hold rest blocks' freed (replay ++ [b])
        else remove_loop null hold rest blocks' (freed ++ [b]) replay
  end.

(** Block ids are unique, so [==] on the block objects is identity. *)
Definition _remove_blocks_in_range (rid : string) (first_block last_block : Z)
    (hold : option (Z * Z)) (reuse_first : bool) : M mstate unit :=
  s ← get; let m := mgr s in
  match req_to_blocks m !! rid with
  | None => mret tt
  | Some blocks =>
      if last_block <=? first_block then mret tt
      else
        let last_block := Z.min last_block (zlen blocks) in
        r ← of_option IndexError
              (remove_loop (_null_block m) hold (py_range_down first_block last_block) blocks [] []);
        let '(blocks', freed, replay) := r in
        put_req_blocks rid blocks' ;;
        when (0 <? zlen freed) (on_pool (Pool.free_blocks freed reuse_first)) ;;
        when (0 <? zlen replay) (on_pool (Pool.free_blocks replay false))
  end.

(** [_cached_window_at_last_boundary] *)
Definition _cached_window_at_last_boundary (m : Manager) (num_prompt_tokens : option Z)
    : option (Z * Z) :=
  match m_enable_caching m, num_prompt_tokens, reuse_window m with
  | true, Some num_prompt_tokens, Some reuse_window =>
      let alignment :=
        match alignment_tokens m with
        | Some a => if a =? 0 then m_block_size m else a
        | None => m_block_size m
        end in
      let boundary :=
        if mamba_replay_lookbehind m
        then Z.max 0 (num_prompt_tokens / alignment - 1) * alignment
        else
          let last_match :=
            num_prompt_tokens - 1 - (if use_eagle m then m_block_size m else 0) in
          Z.max 0 (last_match / alignment) * alignment in
      if boundary <=? 0 then None
      else
        let need := cdiv (reuse_window - 1) (m_block_size m) + (if use_eagle m then 1 else 0) in
        let shift := if use_eagle m then 1 else 0 in
        let end_ := boundary / m_block_size m + shift in
        Some (Z.max 0 (end_ - need), end_)
  | _, _, _ => None
  end.

Definition remove_skipped_blocks (rid : string) (processed_computed_tokens : Z)
    (num_prompt_tokens : option Z) : M mstate unit :=
  s ← get; let m := mgr s in
  let num_skipped_tokens := get_num_skipped_tokens m processed_computed_tokens in
  if num_skipped_tokens <=? 0 then mret tt
  else
    let num_skipped_blocks := num_skipped_tokens / m_block_size m in
    match reuse_window m with
    | None => _remove_blocks_in_range rid 0 num_skipped_blocks None false
    | Some _ =>
        let hold := _cached_window_at_last_boundary m num_prompt_tokens in
        _remove_blocks_in_range rid 0 num_skipped_blocks hold true
    end.

End Base.

(** ** Full attention *)
Module Full.

(** The blocks counted: the prefix shared by every request with blocks. *)
Fixpoint common_prefix (p : BlockPool) (n : Z) (bs : list loc) : Z :=
  match bs with
  | [] => 0
  | b :: bs' => if ref_cnt (pool_block p b) =? n then 1 + common_prefix p n bs' else 0
  end.

Definition get_num_common_prefix_blocks (rid : string) : M mstate Z :=
  bs ← get_req_blocks rid;
  s ← get;
  mret (common_prefix (block_pool s) (Z.of_nat (size (req_to_blocks (mgr s)))) bs).

End Full.

(** ** One block per request: the compressor ring and the KPool tail

    [_claim_ring_block] and [_allocate_tail_block] have the same body. *)
Module OneBlock.
Section one_block.
Context (use_int : bool).

Definition claim (rid : string) : M mstate (list loc) :=
  s ← get;
  let m := mgr s in
  blocks0 ← get_req_blocks rid;
  if negb (is_nil blocks0) then mret []
  else
    new_blocks ← on_pool (Pool.get_new_blocks use_int 1 (Some (kv_cache_group_id m)));
    put_req_blocks rid (blocks0 ++ new_blocks) ;;
    extend_new_block_ids new_blocks ;;
    mret new_blocks.

(** [CircularBufferManager] *)
Definition ring_get_num_blocks_to_allocate (rid : string) : M mstate Z :=
  s ← get;
  mret (if is_nil (req_blocks (mgr s) rid) then 1 else 0).

Definition ring_allocate_new_computed_blocks (rid : string) : M mstate unit :=
  claim rid ;; mret tt.

(** [KpoolTailManager] *)
Definition tail_get_num_blocks_to_allocate (rid : string) : M mstate Z :=
  s ← get;
  mret (Z.max (1 - zlen (req_blocks (mgr s) rid)) 0).

Definition tail_allocate_new_computed_blocks (rid : string) (new_computed_blocks : list loc)
    (num_local_computed_tokens num_external_computed_tokens : Z) : M mstate unit :=
  if negb (is_nil new_computed_blocks) then raise ValueError
  else
    when (negb (num_local_computed_tokens =? 0) || negb (num_external_computed_tokens =? 0))
      (claim rid ;; mret tt).
End one_block.
End OneBlock.

(** ** Prefix-anchored sliding window *)
Module PrefixAnchored.

Definition remove_skipped_blocks (decode_sliding_window : Z) (rid : string)
    (processed_computed_tokens : Z) (num_prompt_tokens : option Z) : M mstate unit :=
  s ← get;
  let m := mgr s in
  match num_prompt_tokens with
  | None => Base.remove_skipped_blocks rid processed_computed_tokens None
  | Some n =>
      let bs := m_block_size m in
      let first_gap_block := cdiv n bs in
      let window_start := Z.max n (processed_computed_tokens - decode_sliding_window) in
      let last_gap_block := window_start / bs in
      Base._remove_blocks_in_range rid first_gap_block last_gap_block None false
  end.

End PrefixAnchored.

(** ** Mamba *)
Module Mamba.

(** [self.mamba_cache_mode == "align"] and [self.num_speculative_blocks]. *)
Definition is_align (m : Manager) : bool :=
  match mamba_fields (spec_type (kv_cache_spec m)) with
  | Some (mode, _) => bool_decide (mode = "align"%string)
  | None => false
  end.
Definition num_speculative_blocks (m : Manager) : Z :=
  match mamba_fields (spec_type (kv_cache_spec m)) with Some (_, n) => n | None => 0 end.
Definition is_mamba (m : Manager) : bool :=
  match mamba_fields (spec_type (kv_cache_spec m)) with Some _ => true | None => false end.

(** The loop over the pending state blocks: frees the ones before
    [release_before], returns the ones to keep. *)
Fixpoint release_loop (rid : string) (release_before : Z) (pending keep : list Z)
    : M mstate (list Z) :=
  match pending with
  | [] => mret keep
  | idx :: rest =>
      if idx <? release_before then
        s ← get;
        let m := mgr s in
        let blocks := req_blocks m rid in
        b ← of_option IndexError (py_get blocks idx);
        (if decide (b ≠ _null_block m) then
           on_pool (Pool.free_blocks [b] false) ;;
           blocks' ← of_option IndexError (py_set blocks idx (_null_block m));
           put_req_blocks rid blocks'
         else mret tt) ;;
        release_loop rid release_before rest keep
      else release_loop rid release_before rest (keep ++ [idx])
  end.

Definition remove_skipped_blocks (rid : string) (processed_computed_tokens : Z)
    (num_prompt_tokens : option Z) : M mstate unit :=
  s ← get;
  py_assert (is_mamba (mgr s)) ;;
  Base.remove_skipped_blocks rid processed_computed_tokens num_prompt_tokens ;;
  s ← get;
  let m := mgr s in
  when (is_align m) (
    let pending := default [] (last_state_block_idx m !! rid) in
    when (negb (is_nil pending)) (
      let release_before := cdiv processed_computed_tokens (m_block_size m) - 1 in
      get_req_blocks rid ;;
      keep ← release_loop rid release_before pending [];
      upd_mgr (λ m, set_last_state (<[rid := keep]> (last_state_block_idx m)) m))).

(** [new_computed_blocks[-1].block_hash in self.cached_blocks_this_step]; the set
    holds hashes only, so a block without one is not in it. *)
Definition hit_this_step (s : mstate) (new_computed_blocks : list loc) : bool :=
  match last new_computed_blocks with
  | None => false
  | Some b =>
      match _block_hash (pool_block (block_pool s) b) with
      | None => false
      | Some h => bool_decide (h ∈ cached_blocks_this_step (mgr s))
      end
  end.

Definition get_num_blocks_to_allocate (rid : string) (num_tokens : Z)
    (new_computed_blocks : list loc) (total_computed_tokens num_tokens_main_model : Z)
    (apply_admission_cap : bool) : M mstate Z :=
  s ← get;
  let m := mgr s in
  py_assert (is_mamba m) ;;
  if hit_this_step s new_computed_blocks then mret (num_gpu_blocks (block_pool s) + 1)
  else if negb (is_align m) then
    let num_tokens :=
      if 0 <? num_speculative_blocks m
      then num_tokens + spec_block_size (kv_cache_spec m) * num_speculative_blocks m
      else num_tokens in
    Base.get_num_blocks_to_allocate rid num_tokens new_computed_blocks total_computed_tokens
      num_tokens_main_model apply_admission_cap
  else
    let num_required_blocks :=
      cdiv num_tokens_main_model (m_block_size m) + num_speculative_blocks m in
    blocks0 ← get_req_blocks rid;
    let num_new_blocks := num_required_blocks - zlen new_computed_blocks - zlen blocks0 in
    let num_new_blocks :=
      if 0 <? num_new_blocks then
        if decide (rid ∈ _allocated_block_reqs m) then 1 else 1 + num_speculative_blocks m
      else num_new_blocks in
    mret (num_new_blocks + _get_num_evictable_blocks (block_pool s) new_computed_blocks).

(** The loop reusing the speculative blocks of the previous step: each one
    before the running state moves to the end of the table. *)
Fixpoint reuse_loop (null : loc) (num_skipped_blocks : Z) (indices : list Z) (blocks : list loc)
    : option (list loc) :=
  match indices with
  | [] => Some blocks
  | i :: rest =>
      if i <? num_skipped_blocks then
        b ← py_get blocks i;
        blocks' ← py_set (blocks ++ [b]) i null;
        reuse_loop null num_skipped_blocks rest blocks'
      else Some blocks
  end.

(** The part of the [align] allocation that only edits the table: padding with
    null blocks up to the running state, then moving the speculative blocks. *)
Definition extend_table (null : loc) (allocated : bool) (num_spec num_skipped_blocks : Z)
    (blocks0 : list loc) : option (list loc) :=
  let prev_block_len := zlen blocks0 in
  let blocks1 :=
    if prev_block_len <? num_skipped_blocks
    then blocks0 ++ replicate (Z.to_nat (num_skipped_blocks - prev_block_len)) null
    else blocks0 in
  if allocated
  then reuse_loop null num_skipped_blocks
         (py_range (prev_block_len - num_spec) prev_block_len) blocks1
  else Some blocks1.

(** [self.last_state_block_idx.setdefault(rid, []).append(idx)] *)
Definition record_last_state (rid : string) (idx : Z) : M mstate unit :=
  upd_mgr (λ m, set_last_state
    (<[rid := default [] (last_state_block_idx m !! rid) ++ [idx]]> (last_state_block_idx m)) m).

Section allocation.
Context (use_int : bool).

Definition allocate_new_blocks (rid : string) (num_tokens num_tokens_main_model : Z)
    : M mstate (list loc) :=
  s ← get;
  let m := mgr s in
  py_assert (is_mamba m) ;;
  let num_spec := num_speculative_blocks m in
  if negb (is_align m) then
    Base.allocate_new_blocks use_int rid
      (if 0 <? num_spec then num_tokens + m_block_size m * num_spec else num_tokens)
      num_tokens_main_model
  else
    blocks0 ← get_req_blocks rid;
    let num_required_blocks := cdiv num_tokens_main_model (m_block_size m) + num_spec in
    if num_required_blocks =? zlen blocks0 then mret []
    else
      py_assert (zlen blocks0 <? num_required_blocks) ;;
      let prev_block_len := zlen blocks0 in
      let blocks_allocated := bool_decide (rid ∈ _allocated_block_reqs m) in
      (if blocks_allocated then record_last_state rid (prev_block_len - 1 - num_spec)
       else when (0 <? prev_block_len) (record_last_state rid (prev_block_len - 1))) ;;
      let num_skipped_blocks := num_required_blocks - num_spec - 1 in
      blocks1 ← of_option IndexError
                  (extend_table (_null_block m) blocks_allocated num_spec num_skipped_blocks blocks0);
      put_req_blocks rid blocks1 ;;
      let num_new_blocks := num_required_blocks - zlen blocks1 in
      py_assert (if blocks_allocated then num_new_blocks <=? 1
                 else num_new_blocks <=? num_spec + 1) ;;
      new_blocks ← on_pool (Pool.get_new_blocks use_int num_new_blocks (Some (kv_cache_group_id m)));
      put_req_blocks rid (blocks1 ++ new_blocks) ;;
      upd_mgr (λ m, set_allocated_reqs ({[rid]} ∪ _allocated_block_reqs m) m) ;;
      mret (py_from (blocks1 ++ new_blocks) prev_block_len).
End allocation.

Definition free (rid : string) : M mstate unit :=
  s ← get;
  when (is_align (mgr s)) (upd_mgr (λ m,
    set_pending (filter (λ e, e.1.1.1 ≠ rid) (_pending_boundary_state_offloads m))
      (set_last_state (delete rid (last_state_block_idx m))
         (set_allocated_reqs (_allocated_block_reqs m ∖ {[rid]}) m)))) ;;
  Base.free rid.

(** The loop recording the blocks cached in this step. *)
Fixpoint record_cached (rid : string) (blocks : list loc) (indices : list Z) : M mstate unit :=
  match indices with
  | [] => mret tt
  | i :: rest =>
      s ← get;
      let m := mgr s in
      block ← of_option IndexError (py_get blocks i);
      let k := pool_block (block_pool s) block in
      match is_null k, _block_hash k with
      | false, Some h =>
          upd_mgr (λ m, set_cached_this_step ({[h]} ∪ cached_blocks_this_step m) m) ;;
          when (is_align m) (upd_mgr (λ m, set_pending
            (_pending_boundary_state_offloads m ++
               [(rid, kv_cache_group_id m, block, (i + 1) * m_block_size m)]) m))
      | _, _ => mret tt
      end ;;
      record_cached rid blocks rest
  end.

Definition cache_blocks (sha256 : bytes → bytes) (use_int : bool) (request : Request)
    (num_tokens : Z) (alignment retention_interval : option Z) (replay_boundaries : list Z)
    : M mstate Request :=
  s ← get;
  let m := mgr s in
  let rid := request_id request in
  let before := Base.cached_of m rid in
  let num_full_blocks := num_tokens / m_block_size m in
  if num_full_blocks <=? before then mret request
  else
    let boundary := shared_prefix_boundary request in
    let boundaries :=
      if boundary =? 0 then replay_boundaries else replay_boundaries ++ [boundary] in
    mask ← of_outcome (mamba_reachable_block_mask before num_full_blocks alignment
                         (kv_cache_spec m) retention_interval boundaries);
    bs ← get_req_blocks rid;
    on_pool (Pool.cache_full_blocks sha256 use_int request bs before num_full_blocks
               (m_block_size m) (kv_cache_group_id m) mask)
      ≫= λ request : Request,
    upd_mgr (λ m, set_num_cached_block (<[rid := num_full_blocks]> (num_cached_block m)) m) ;;
    bs ← get_req_blocks rid;
    record_cached rid bs (py_range before num_full_blocks) ;;
    mret request.

Definition new_step_starts : M mstate unit := upd_mgr (set_cached_this_step ∅).

End Mamba.

(** ** The managers by class *)

Inductive manager_class : Type :=
  | FullAttentionManager
  | PrefixAnchoredSWAManager (decode_sliding_window : Z)
  | SlidingWindowManager
  | KpoolTailManager
  | ChunkedLocalAttentionManager
  | MambaManager
  | CrossAttentionManager
  | SinkFullAttentionManager
  | CircularBufferManager.

(** [spec_manager_map]; a class it does not list raises [KeyError]. *)
Definition spec_manager_map (c : spec_class) : option manager_class :=
  match c with
  | FullAttentionSpec | TQFullAttentionSpec | MLAAttentionSpec | HiddenStateCacheSpec =>
      Some FullAttentionManager
  | PrefixAnchoredSWASpec w => Some (PrefixAnchoredSWAManager w)
  | SlidingWindowSpec _ | SlidingWindowMLASpec _ => Some SlidingWindowManager
  | KpoolTailSpec _ => Some KpoolTailManager
  | ChunkedLocalAttentionSpec _ => Some ChunkedLocalAttentionManager
  | MambaSpec _ _ => Some MambaManager
  | CrossAttentionSpec => Some CrossAttentionManager
  | SinkFullAttentionSpec _ => Some SinkFullAttentionManager
  | CircularBufferSpec => Some CircularBufferManager
  | EncoderOnlyAttentionSpec => None
  end.

Definition class_of (m : Manager) : option manager_class :=
  spec_manager_map (spec_type (kv_cache_spec m)).

(** The constructor: attributes at their initial values. *)
Definition Manager_init (spec : KVCacheSpec) (null : loc) (enable_caching : bool) (gid dcp pcp : Z)
    (cap : option Z) (sinks : list loc) : Manager :=
  mkMgr
    (mkMgrArgs spec (global_block_size spec dcp pcp) enable_caching gid
       (if dcp_sharded spec then dcp else 1) (if dcp_sharded spec then pcp else 1) cap null false
       (match spec_type spec with
        | SlidingWindowSpec w | SlidingWindowMLASpec w => Some w
        | _ => None
        end) None false sinks)
    [] [] ∅ ∅ ∅ ∅ ∅.

(** [SinkFullAttentionManager.__init__] takes its blocks out of the free queue. *)
Definition claim_sinks (sink_len : option Z) (block_size : Z) : M BlockPool (list loc) :=
  match sink_len with
  | Some n =>
      py_assert ((0 <? n) && (n mod block_size =? 0)) ;;
      fq_popleft_n (n / block_size) None
  | None => raise AssertionError
  end.

Definition get_manager_for_kv_cache_spec (spec : KVCacheSpec)
    (max_in_flight_tokens max_model_len : Z) (enable_caching : bool) (gid dcp pcp : Z)
    : M BlockPool Manager :=
  match spec_manager_map (spec_type spec) with
  | None => raise KeyError
  | Some cls =>
      let cap := max_admission_blocks_per_request spec max_in_flight_tokens max_model_len in
      sinks ← (match cls, spec_type spec with
               | SinkFullAttentionManager, SinkFullAttentionSpec n =>
                   claim_sinks n (global_block_size spec dcp pcp)
               | _, _ => mret []
               end);
      p ← get;
      mret (Manager_init spec (null_block p) enable_caching gid dcp pcp cap sinks)
  end.

(** The methods, dispatched on the manager's class. *)
Module Manager.

Definition get_num_blocks_to_allocate (rid : string) (num_tokens : Z)
    (new_computed_blocks : list loc) (total_computed_tokens num_tokens_main_model : Z)
    (apply_admission_cap : bool) : M mstate Z :=
  s ← get;
  match class_of (mgr s) with
  | Some CircularBufferManager => OneBlock.ring_get_num_blocks_to_allocate rid
  | Some KpoolTailManager => OneBlock.tail_get_num_blocks_to_allocate rid
  | Some MambaManager =>
      Mamba.get_num_blocks_to_allocate rid num_tokens new_computed_blocks total_computed_tokens
        num_tokens_main_model apply_admission_cap
  | _ =>
      Base.get_num_blocks_to_allocate rid num_tokens new_computed_blocks total_computed_tokens
        num_tokens_main_model apply_admission_cap
  end.

Section allocation.
Context (use_int : bool).

Definition allocate_new_computed_blocks (rid : string) (new_computed_blocks : list loc)
    (num_local_computed_tokens num_external_computed_tokens : Z) : M mstate unit :=
  s ← get;
  match class_of (mgr s) with
  | Some CircularBufferManager => OneBlock.ring_allocate_new_computed_blocks use_int rid
  | Some KpoolTailManager =>
      OneBlock.tail_allocate_new_computed_blocks use_int rid new_computed_blocks
        num_local_computed_tokens num_external_computed_tokens
  | Some CrossAttentionManager => py_assert (is_nil new_computed_blocks)
  | _ =>
      Base.allocate_new_computed_blocks use_int rid new_computed_blocks
        num_local_computed_tokens num_external_computed_tokens
  end.

Definition allocate_new_blocks (rid : string) (num_tokens num_tokens_main_model : Z)
    : M mstate (list loc) :=
  s ← get;
  match class_of (mgr s) with
  | Some CircularBufferManager | Some KpoolTailManager => OneBlock.claim use_int rid
  | Some MambaManager => Mamba.allocate_new_blocks use_int rid num_tokens num_tokens_main_model
  | _ => Base.allocate_new_blocks use_int rid num_tokens num_tokens_main_model
  end.
End allocation.

(** [retention_interval] and [replay_boundaries] are passed to Mamba managers
    only. *)
Definition cache_blocks (sha256 : bytes → bytes) (use_int : bool) (request : Request)
    (num_tokens : Z) (alignment retention_interval : option Z) (replay_boundaries : list Z)
    : M mstate Request :=
  s ← get;
  match class_of (mgr s) with
  | Some CircularBufferManager | Some KpoolTailManager => mret request
  | Some CrossAttentionManager => raise ValueError
  | Some MambaManager =>
      Mamba.cache_blocks sha256 use_int request num_tokens alignment retention_interval
        replay_boundaries
  | _ => Base.cache_blocks sha256 use_int request num_tokens alignment
  end.

Definition free (rid : string) : M mstate unit :=
  s ← get;
  match class_of (mgr s) with
  | Some MambaManager => Mamba.free rid
  | _ => Base.free rid
  end.

Definition remove_skipped_blocks (rid : string) (processed_computed_tokens : Z)
    (num_prompt_tokens : option Z) : M mstate unit :=
  s ← get;
  match class_of (mgr s) with
  | Some CircularBufferManager | Some KpoolTailManager => mret tt
  | Some (PrefixAnchoredSWAManager w) =>
      PrefixAnchored.remove_skipped_blocks w rid processed_computed_tokens num_prompt_tokens
  | Some MambaManager =>
      Mamba.remove_skipped_blocks rid processed_computed_tokens num_prompt_tokens
  | _ => Base.remove_skipped_blocks rid processed_computed_tokens num_prompt_tokens
  end.

Definition get_num_common_prefix_blocks (rid : string) : M mstate Z :=
  s ← get;
  match class_of (mgr s) with
  | Some FullAttentionManager | Some (PrefixAnchoredSWAManager _) | Some SinkFullAttentionManager =>
      Full.get_num_common_prefix_blocks rid
  | _ => mret 0
  end.

Definition new_step_starts : M mstate unit :=
  s ← get;
  match class_of (mgr s) with
  | Some MambaManager => Mamba.new_step_starts
  | _ => mret tt
  end.

End Manager.
