(* ===== verification/CacheHit.v ===== *)
(** * Prefix-cache lookup of one group

    [find_longest_cache_hit] of every manager class in
    [vllm/v1/core/single_type_kv_cache_manager.py].  A lookup reads the block
    pool and changes nothing; its result has one list of blocks per group. *)

From Stdlib Require Import Strings.Byte.
From S2P Require Import Prelude.
From S2P Require Import FreeQueue.
From S2P Require Import BlockHash.
From S2P Require Import BlockPool.
From S2P Require Import KVCacheSpec.
From S2P Require Import SingleType.
Local Open Scope Z_scope.

(** [block_pool.get_cached_block]: the walrus test fails on [None] and on the
    empty list. *)
Definition lookup_block (p : BlockPool) (h : BlockHash) (group_ids : list Z)
    : outcome (option (list loc)) :=
  match Pool.get_cached_loop p h group_ids [] with
  | Ret (Some []) => Ret None
  | r => r
  end.

(** [for computed in computed_blocks: computed.pop()] *)
Definition pop_each (cs : list (list loc)) : outcome (list (list loc)) :=
  if bool_decide ([] ∈ cs) then Raise IndexError else Ret ((λ c, removelast c) <$> cs).

(** [computed_blocks[0]] *)
Definition head_list (cs : list (list loc)) : outcome (list loc) :=
  match cs with [] => Raise IndexError | c :: _ => Ret c end.

(** [if drop_eagle_block and computed_blocks[0]: pop each] *)
Definition drop_eagle (drop_eagle_block : bool) (cs : list (list loc)) : outcome (list (list loc)) :=
  if drop_eagle_block then
    match head_list cs with
    | Raise e => Raise e
    | Ret [] => Ret cs
    | Ret _ => pop_each cs
    end
  else Ret cs.

(** [while block_size != alignment and len(computed_blocks[0]) * block_size %
    alignment != 0: pop each]; each round shortens the lists, so the length of
    the first is fuel enough. *)
Fixpoint align_loop (fuel : nat) (block_size alignment : Z) (cs : list (list loc))
    : outcome (list (list loc)) :=
  match head_list cs with
  | Raise e => Raise e
  | Ret c =>
      if zlen c * block_size mod alignment =? 0 then Ret cs
      else
        match fuel with
        | O => Raise OutOfFuel
        | S fuel =>
            match pop_each cs with
            | Raise e => Raise e
            | Ret cs => align_loop fuel block_size alignment cs
            end
        end
  end.
Definition align_down (block_size alignment : Z) (cs : list (list loc)) : outcome (list (list loc)) :=
  if block_size =? alignment then Ret cs
  else align_loop (length (default [] (head cs))) block_size alignment cs.

(** ** Full attention: the longest cached prefix, left to right *)

Fixpoint full_loop (p : BlockPool) (group_ids : list Z) (hashes : list BlockHash)
    (computed : list (list loc)) : outcome (list (list loc)) :=
  match hashes with
  | [] => Ret computed
  | h :: rest =>
      match lookup_block p h group_ids with
      | Raise e => Raise e
      | Ret None => Ret computed
      | Ret (Some cached) => full_loop p group_ids rest (zip_with (λ c b, c ++ [b]) computed cached)
      end
  end.

Definition full_find_longest_cache_hit (block_hashes : BlockHashList) (max_length : Z)
    (group_ids : list Z) (p : BlockPool) (spec : KVCacheSpec) (drop_eagle_block : bool)
    (alignment_tokens dcp_world_size pcp_world_size : Z) : outcome (list (list loc)) :=
  if negb (is_full_attention (spec_type spec) ||
           bool_decide (is_Some (chunk_size_of (spec_type spec)))) then Raise AssertionError
  else
    let block_size :=
      if 1 <? dcp_world_size * pcp_world_size
      then spec_block_size spec * (dcp_world_size * pcp_world_size) else spec_block_size spec in
    let max_num_blocks := max_length / block_size in
    if max_num_blocks <? 0 then Raise ValueError
    else
      obind (align_down block_size alignment_tokens)
        (obind (drop_eagle drop_eagle_block)
           (full_loop p group_ids (take (Z.to_nat max_num_blocks) (hl_list block_hashes))
              (replicate (length group_ids) []))).

(** ** Sliding window: a run of cached blocks, right to left *)

(** The loop, [i] blocks left to look at; the last component tells whether a
    long enough run was found. *)
Fixpoint swa_loop (p : BlockPool) (group_ids : list Z) (block_hashes : BlockHashList)
    (drop_eagle_block : bool) (block_size alignment_tokens need : Z) (i : nat)
    (computed : list (list loc)) (num_contiguous_blocks : Z)
    : outcome (list (list loc) * Z * bool) :=
  match i with
  | O => Ret (computed, num_contiguous_blocks, false)
  | S i =>
      match hl_get block_hashes (Z.of_nat i) with
      | None => Raise IndexError
      | Some h =>
          match lookup_block p h group_ids with
          | Raise e => Raise e
          | Ret None =>
              swa_loop p group_ids block_hashes drop_eagle_block block_size alignment_tokens need
                i computed 0
          | Ret (Some cached) =>
              let post_pop_blocks := if drop_eagle_block then Z.of_nat i else Z.of_nat i + 1 in
              if (num_contiguous_blocks =? 0) && negb (block_size =? alignment_tokens) &&
                 negb (post_pop_blocks * block_size mod alignment_tokens =? 0)
              then
                swa_loop p group_ids block_hashes drop_eagle_block block_size alignment_tokens need
                  i computed num_contiguous_blocks
              else
                let computed := zip_with (λ c b, <[i := b]> c) computed cached in
                let num_contiguous_blocks := num_contiguous_blocks + 1 in
                if need <=? num_contiguous_blocks
                then Ret (take (Z.to_nat (Z.of_nat i + num_contiguous_blocks)) <$> computed,
                          num_contiguous_blocks, true)
                else
                  swa_loop p group_ids block_hashes drop_eagle_block block_size alignment_tokens
                    need i computed num_contiguous_blocks
          end
      end
  end.

Definition swa_find_longest_cache_hit (block_hashes : BlockHashList) (max_length : Z)
    (group_ids : list Z) (p : BlockPool) (spec : KVCacheSpec) (drop_eagle_block : bool)
    (alignment_tokens dcp_world_size pcp_world_size : Z) : outcome (list (list loc)) :=
  match sliding_window_of (spec_type spec) with
  | None => Raise AssertionError
  | Some w =>
      if negb ((dcp_world_size =? 1) && (pcp_world_size =? 1)) then Raise AssertionError
      else
        let block_size := spec_block_size spec in
        let need := _contiguous_blocks_for_hit w block_size drop_eagle_block in
        let max_num_blocks := max_length / block_size in
        let computed := replicate (length group_ids)
                          (replicate (Z.to_nat max_num_blocks) (null_block p)) in
        match swa_loop p group_ids block_hashes drop_eagle_block block_size alignment_tokens need
                (Z.to_nat max_num_blocks) computed 0 with
        | Raise e => Raise e
        | Ret (computed, num_contiguous_blocks, match_found) =>
            obind (λ computed,
              if drop_eagle_block then
                match head_list computed with
                | Raise e => Raise e
                | Ret [] => Ret computed
                | Ret _ => obind (align_down block_size alignment_tokens) (pop_each computed)
                end
              else Ret computed)
              (if match_found : bool then Ret computed
               else align_down block_size alignment_tokens
                      (take (Z.to_nat num_contiguous_blocks) <$> computed))
        end
  end.

(** ** Chunked local attention: null blocks, then the current chunk's prefix *)

Fixpoint chunk_loop (p : BlockPool) (group_ids : list Z) (block_hashes : BlockHashList)
    (indices : list Z) (computed : list (list loc)) : outcome (list (list loc)) :=
  match indices with
  | [] => Ret computed
  | i :: rest =>
      match hl_get block_hashes i with
      | None => Raise IndexError
      | Some h =>
          match lookup_block p h group_ids with
          | Raise e => Raise e
          | Ret None => Ret computed
          | Ret (Some cached) =>
              chunk_loop p group_ids block_hashes rest (zip_with (λ c b, c ++ [b]) computed cached)
          end
      end
  end.

Definition chunked_find_longest_cache_hit (block_hashes : BlockHashList) (max_length : Z)
    (group_ids : list Z) (p : BlockPool) (spec : KVCacheSpec) (drop_eagle_block : bool)
    (alignment_tokens dcp_world_size pcp_world_size : Z) : outcome (list (list loc)) :=
  match chunk_size_of (spec_type spec) with
  | None => Raise AssertionError
  | Some chunk =>
      if negb (negb drop_eagle_block && (dcp_world_size =? 1) && (pcp_world_size =? 1) &&
               (spec_block_size spec =? alignment_tokens)) then Raise AssertionError
      else
        let max_num_blocks := max_length / spec_block_size spec in
        let local_attention_start_idx :=
          if 0 <? max_length then max_length / chunk * chunk else 0 in
        let start := local_attention_start_idx / spec_block_size spec in
        chunk_loop p group_ids block_hashes (py_range start max_num_blocks)
          (replicate (length group_ids) (replicate (Z.to_nat start) (null_block p)))
  end.

(** ** Mamba: the rightmost cached state *)

Fixpoint mamba_loop (p : BlockPool) (group_ids : list Z) (block_hashes : BlockHashList)
    (block_size alignment_tokens : Z) (i : nat) (computed : list (list loc))
    : outcome (list (list loc)) :=
  match i with
  | O => Ret computed
  | S i =>
      match hl_get block_hashes (Z.of_nat i) with
      | None => Raise IndexError
      | Some h =>
          match lookup_block p h group_ids with
          | Raise e => Raise e
          | Ret None => mamba_loop p group_ids block_hashes block_size alignment_tokens i computed
          | Ret (Some cached) =>
              if negb (block_size =? alignment_tokens) &&
                 negb ((Z.of_nat i + 1) * block_size mod alignment_tokens =? 0)
              then mamba_loop p group_ids block_hashes block_size alignment_tokens i computed
              else Ret (zip_with (λ c b, c ++ replicate i (null_block p) ++ [b]) computed cached)
          end
      end
  end.

Definition mamba_find_longest_cache_hit (block_hashes : BlockHashList) (max_length : Z)
    (group_ids : list Z) (p : BlockPool) (spec : KVCacheSpec) (drop_eagle_block : bool)
    (alignment_tokens dcp_world_size pcp_world_size : Z) : outcome (list (list loc)) :=
  match mamba_fields (spec_type spec) with
  | None => Raise AssertionError
  | Some _ =>
      if negb ((dcp_world_size =? 1) && (pcp_world_size =? 1)) then Raise AssertionError
      else
        let max_num_blocks := max_length / spec_block_size spec in
        let max_num_blocks :=
          if drop_eagle_block && (0 <? max_num_blocks) then max_num_blocks - 1 else max_num_blocks in
        mamba_loop p group_ids block_hashes (spec_block_size spec) alignment_tokens
          (Z.to_nat max_num_blocks) (replicate (length group_ids) [])
  end.

(** ** Dispatch on the manager's class *)

Definition find_longest_cache_hit (cls : manager_class) (block_hashes : BlockHashList)
    (max_length : Z) (group_ids : list Z) (p : BlockPool) (spec : KVCacheSpec)
    (drop_eagle_block : bool) (alignment_tokens dcp_world_size pcp_world_size : Z)
    : outcome (list (list loc)) :=
  match cls with
  | FullAttentionManager | PrefixAnchoredSWAManager _ | SinkFullAttentionManager =>
      full_find_longest_cache_hit block_hashes max_length group_ids p spec drop_eagle_block
        alignment_tokens dcp_world_size pcp_world_size
  | CircularBufferManager | KpoolTailManager => Ret (replicate (length group_ids) [])
  | SlidingWindowManager =>
      swa_find_longest_cache_hit block_hashes max_length group_ids p spec drop_eagle_block
        alignment_tokens dcp_world_size pcp_world_size
  | ChunkedLocalAttentionManager =>
      chunked_find_longest_cache_hit block_hashes max_length group_ids p spec drop_eagle_block
        alignment_tokens dcp_world_size pcp_world_size
  | MambaManager =>
      mamba_find_longest_cache_hit block_hashes max_length group_ids p spec drop_eagle_block
        alignment_tokens dcp_world_size pcp_world_size
  | CrossAttentionManager =>
      match spec_type spec with
      | CrossAttentionSpec => Raise NotImplementedError
      | _ => Raise AssertionError
      end
  end.
