(* ===== verification/CacheHitSpec.v ===== *)
(** * Correctness of the prefix-cache lookups

    For every manager class, [find_longest_cache_hit] terminates, returns one
    list per group, fills it with blocks cached under the request's hashes (or
    with null blocks outside the attention window) and returns the longest
    prefix the class's attention can resume from. *)

From Stdlib Require Import Strings.Byte.
From S2P Require Import Prelude.
From S2P Require Import FreeQueue.
From S2P Require Import BlockHash.
From S2P Require Import BlockPool.
From S2P Require Import BlockPoolSpec.
From S2P Require Import BlockPoolProps.
From S2P Require Import KVCacheSpec.
From S2P Require Import SingleType.
From S2P Require Import CacheHit.
Local Open Scope Z_scope.

Lemma Forall2_zip_with {A B C D} (P : A → B → Prop) (Q : A → C → Prop) (R : A → D → Prop)
    (f : B → C → D) l k k' :
  Forall2 P l k → Forall2 Q l k' → (∀ x y z, P x y → Q x z → R x (f y z)) →
  Forall2 R l (zip_with f k k').
Proof.
  intros H1 H2 Hf. revert k' H2. induction H1 as [|x y l k Hxy H1 IH]; intros k' H2.
  - constructor.
  - inversion H2; subst. simpl. constructor; eauto.
Qed.

Lemma Forall2_removelast {A B} (P : A → B → Prop) l k :
  Forall2 P l k → Forall2 P (removelast l) (removelast k).
Proof.
  intros H. induction H as [|x y l k Hxy H IH]; [constructor|].
  destruct H; [constructor|]. simpl in *. by constructor.
Qed.

Lemma removelast_take {A} (l : list A) : removelast l = take (length l - 1) l.
Proof.
  induction l as [|x l IH]; [done|]. destruct l as [|y l]; [done|].
  change (removelast (x :: y :: l)) with (x :: removelast (y :: l)). rewrite IH.
  simpl. by rewrite Nat.sub_0_r.
Qed.

Section lookups.
Context (p : BlockPool) (st hi D : list loc) (Hi : pool_inv p st hi D).
Context (gs : list Z) (Hgs : Forall (λ g, 0 ≤ g < 2 ^ 32) gs) (Hne : gs ≠ []).

(** Block [b] is cached for group [g] under hash [h]. *)
Definition cached_as (h : BlockHash) (g : Z) (b : loc) : Prop :=
  b ∈ blocks p ∧ hash p b = Some (group_key h g).

(** Every group has a cached block for [h]. *)
Definition cached_all (h : BlockHash) : Prop := ∀ g, g ∈ gs → ∃ b, cached_as h g b.

(** [cs] has one list per group; its entry [i] is the null block where [ts] has
    [None], a block cached under [h] where [ts] has [Some h]. *)
Definition hits (ts : list (option BlockHash)) (cs : list (list loc)) : Prop :=
  Forall2 (λ g c, Forall2 (λ t b,
    match t with Some h => cached_as h g b | None => b = null_block p end) ts c) gs cs.

Lemma lookup_block_spec h :
  ∃ r, lookup_block p h gs = Ret r ∧
    match r with
    | Some bs => Forall2 (cached_as h) gs bs ∧ cached_all h
    | None => ¬ cached_all h
    end.
Proof using Hi Hgs Hne.
  unfold lookup_block. destruct (get_cached_loop_spec p st hi D h gs [] Hi Hgs) as (r & -> & Hr).
  destruct r as [bs|].
  - destruct Hr as (more & -> & Hm). simpl. destruct more as [|b more].
    { by apply Forall2_nil_inv_r in Hm. }
    exists (Some (b :: more)). split; [done|]. split; [done|].
    intros g Hg. apply list_elem_of_lookup in Hg as [i Hg].
    destruct (Forall2_lookup_l _ _ _ _ _ Hm Hg) as (b' & _ & Hb). by exists b'.
  - exists None. split; [done|]. destruct Hr as (g & Hg & Hn).
    intros Hall. destruct (Hall g Hg) as (b & Hb & Hh). by apply (Hn b).
Qed.

Lemma hits_nil n : n = length gs → hits [] (replicate n []).
Proof. intros ->. unfold hits. clear. induction gs; simpl; constructor; auto. Qed.

Lemma hits_null n k : n = length gs → hits (replicate k None) (replicate n (replicate k (null_block p))).
Proof.
  intros ->. unfold hits. clear. induction gs; simpl; constructor; [|done].
  apply Forall2_replicate. done.
Qed.

Lemma hits_app ts ts' cs (f : loc → list loc) h bs :
  hits ts cs → Forall2 (cached_as h) gs bs →
  (∀ g b, cached_as h g b → Forall2 (λ t b,
    match t with Some h => cached_as h g b | None => b = null_block p end) ts' (f b)) →
  hits (ts ++ ts') (zip_with (λ c b, c ++ f b) cs bs).
Proof.
  intros Hh Hb Hf. eapply Forall2_zip_with; [exact Hh|exact Hb|].
  intros g c b Hc Hcb. apply Forall2_app; auto.
Qed.

Lemma hits_snoc ts cs h bs :
  hits ts cs → Forall2 (cached_as h) gs bs →
  hits (ts ++ [Some h]) (zip_with (λ c b, c ++ [b]) cs bs).
Proof.
  intros Hh Hb. apply (hits_app ts _ cs (λ b, [b]) h); [done..|].
  intros g b Hc. constructor; [done|constructor].
Qed.

Lemma hits_insert ts cs h bs i :
  hits ts cs → Forall2 (cached_as h) gs bs →
  hits (<[i := Some h]> ts) (zip_with (λ c b, <[i := b]> c) cs bs).
Proof.
  intros Hh Hb. eapply Forall2_zip_with; [exact Hh|exact Hb|].
  intros g c b Hc Hcb. by apply Forall2_insert.
Qed.

Lemma hits_take n ts cs : hits ts cs → hits (take n ts) (take n <$> cs).
Proof.
  intros Hh. unfold hits. rewrite Forall2_fmap_r. eapply Forall2_impl; [exact Hh|].
  intros g c. apply Forall2_take.
Qed.

Lemma hits_head ts cs : hits ts cs → ∃ c, head_list cs = Ret c ∧ length c = length ts.
Proof using Hne.
  intros Hh. unfold hits in Hh. destruct cs as [|c cs].
  { by apply Forall2_nil_inv_r in Hh. }
  apply Forall2_cons_inv_r in Hh as (g & gs' & Hc & _ & _). exists c. split; [done|].
  symmetry. by eapply Forall2_length.
Qed.

Lemma hits_pop ts cs :
  hits ts cs → ts ≠ [] → ∃ cs', pop_each cs = Ret cs' ∧ hits (take (length ts - 1) ts) cs'.
Proof.
  intros Hh Hts. unfold pop_each. rewrite bool_decide_false.
  - eexists. split; [done|]. unfold hits. rewrite Forall2_fmap_r. eapply Forall2_impl; [exact Hh|].
    intros g c Hc. simpl. rewrite <-removelast_take. by apply Forall2_removelast.
  - intros Hin. apply list_elem_of_lookup in Hin as [i Hin].
    destruct (Forall2_lookup_r _ _ _ _ _ Hh Hin) as (g & _ & Hc).
    by apply Forall2_nil_inv_r in Hc.
Qed.

Lemma hits_drop_eagle drop ts cs :
  hits ts cs →
  ∃ cs', drop_eagle drop cs = Ret cs' ∧
    hits (take (if drop then length ts - 1 else length ts) ts) cs'.
Proof using Hne.
  intros Hh. unfold drop_eagle. destruct drop.
  - destruct (hits_head ts cs Hh) as (c & -> & Hc). destruct c as [|b c].
    + exists cs. split; [done|]. destruct ts; [done|discriminate].
    + apply hits_pop; [done|]. by destruct ts.
  - exists cs. split; [done|]. by rewrite firstn_all.
Qed.

(** [k] is the largest number up to [n] whose token count is aligned. *)
Definition aligned_prefix (block_size alignment : Z) (n k : nat) : Prop :=
  (k ≤ n)%nat ∧ Z.of_nat k * block_size mod alignment = 0 ∧
  ∀ k', (k' ≤ n)%nat → Z.of_nat k' * block_size mod alignment = 0 → (k' ≤ k)%nat.

Lemma align_loop_spec block_size alignment ts : ∀ fuel cs,
  hits ts cs → 0 < alignment → (length ts ≤ fuel)%nat →
  ∃ cs' k, align_loop fuel block_size alignment cs = Ret cs' ∧
    aligned_prefix block_size alignment (length ts) k ∧ hits (take k ts) cs'.
Proof using Hne.
  intros fuel. revert ts. induction fuel as [|fuel IH]; intros ts cs Hh Ha Hf; simpl;
    destruct (hits_head ts cs Hh) as (c & -> & Hc); unfold zlen; rewrite Hc.
  - destruct ts as [|t ts]; [|simpl in Hf; lia]. simpl. exists cs, 0%nat.
    split; [done|]. split; [|done]. split; [done|]. split; [done|]. simpl. lia.
  - destruct (Z.eqb_spec (Z.of_nat (length ts) * block_size mod alignment) 0) as [E|E].
    { exists cs, (length ts). split; [done|]. split; [|by rewrite firstn_all]. split; [done|]. split; [done|]. lia. }
    destruct (decide (ts = [])) as [->|Hts]; [done|].
    destruct (hits_pop ts cs Hh Hts) as (cs1 & -> & Hh1).
    assert (Hlt : (0 < length ts)%nat) by (destruct ts; [done|simpl; lia]).
    destruct (IH (take (length ts - 1) ts) cs1 Hh1 Ha) as (cs2 & k & -> & (Hk1 & Hk2 & Hk3) & Hh2).
    { rewrite length_take. lia. }
    rewrite length_take in Hk1, Hk3. exists cs2, k. split; [done|]. split.
    + split; [lia|]. split; [done|]. intros k' Hk' Hm. apply Hk3; [|done].
      destruct (decide (k' = length ts)) as [->|]; [done|lia].
    + by rewrite take_take, Nat.min_l in Hh2 by lia.
Qed.

Lemma align_down_spec block_size alignment ts cs :
  hits ts cs → 0 < alignment →
  ∃ cs' k, align_down block_size alignment cs = Ret cs' ∧
    aligned_prefix block_size alignment (length ts) k ∧ hits (take k ts) cs'.
Proof using Hne.
  intros Hh Ha. unfold align_down. destruct (Z.eqb_spec block_size alignment) as [->|].
  - exists cs, (length ts). split; [done|]. rewrite firstn_all. split; [|done].
    split; [done|]. split; [apply Z.mod_mul; lia|]. lia.
  - destruct (hits_head ts cs Hh) as (c & Hc & Hl). destruct cs as [|c' cs]; [done|].
    simpl in Hc. simplify_eq. simpl. rewrite Hl. by apply align_loop_spec.
Qed.

(** The first [n] hashes are cached for every group and the next one is not. *)
Definition cached_prefix (hs : list BlockHash) (n : nat) : Prop :=
  (n ≤ length hs)%nat ∧ (∀ i h, (i < n)%nat → hs !! i = Some h → cached_all h) ∧
  (∀ h, hs !! n = Some h → ¬ cached_all h).

Lemma full_loop_spec hs : ∀ ts cs, hits ts cs →
  ∃ cs' n, full_loop p gs hs cs = Ret cs' ∧ cached_prefix hs n ∧
    hits (ts ++ (Some <$> take n hs)) cs'.
Proof using Hi Hgs Hne.
  induction hs as [|h hs IH]; intros ts cs Hh; simpl.
  - exists cs, 0%nat. split; [done|]. simpl. rewrite app_nil_r. split; [|done].
    split; [done|]. split; [by intros ?? ?%Nat.nlt_0_r|done].
  - destruct (lookup_block_spec h) as (r & -> & Hr). destruct r as [bs|].
    + destruct Hr as [Hb Hall]. destruct (IH _ _ (hits_snoc ts cs h bs Hh Hb)) as (cs' & n & -> & (H1 & H2 & H3) & Hh').
      exists cs', (S n). split; [done|]. split.
      * split; [simpl; lia|]. split; [|done]. intros [|i] h' Hi' E; [by simplify_eq/=|].
        apply (H2 i); [lia|done].
      * simpl. by rewrite <-(assoc_L (++)) in Hh'.
    + exists cs, 0%nat. split; [done|]. simpl. rewrite app_nil_r. split; [|done].
      split; [simpl; lia|]. split; [by intros ?? ?%Nat.nlt_0_r|]. intros h' E. by simplify_eq/=.
Qed.

Lemma full_hit_ok hs max_length spec drop alignment dcp pcp :
  let block_size :=
    if 1 <? dcp * pcp then spec_block_size spec * (dcp * pcp) else spec_block_size spec in
  is_full_attention (spec_type spec) = true → 0 ≤ max_length → 0 < block_size → 0 < alignment →
  let hs' := take (Z.to_nat (max_length / block_size)) (hl_list hs) in
  ∃ cs n k,
    full_find_longest_cache_hit hs max_length gs p spec drop alignment dcp pcp = Ret cs ∧
    cached_prefix hs' n ∧
    aligned_prefix block_size alignment (if drop then n - 1 else n)%nat k ∧
    hits (Some <$> take k hs') cs.
Proof using Hi Hgs Hne.
  intros bs Hfull Hml Hbs Ha hs'. unfold full_find_longest_cache_hit. rewrite Hfull. cbn [orb negb].
  fold bs. assert (0 ≤ max_length / bs) by by apply Z.div_pos.
  rewrite (proj2 (Z.ltb_ge _ 0)) by done. fold hs'.
  destruct (full_loop_spec hs' [] _ (hits_nil _ eq_refl)) as (cs1 & n & -> & Hn & Hh1). simpl.
  destruct (hits_drop_eagle drop _ _ Hh1) as (cs2 & -> & Hh2). simpl.
  assert (Hl : length (Some <$> take n hs') = n) by (rewrite length_fmap, length_take; destruct Hn; lia).
  rewrite app_nil_l, Hl in Hh2.
  destruct (align_down_spec bs alignment _ _ Hh2 Ha) as (cs3 & k & -> & Hk & Hh3).
  exists cs3, n, k. split; [done|]. split; [done|].
  assert (Hm : ((if drop then n - 1 else n) ≤ n)%nat) by (destruct drop; lia).
  rewrite length_take, Hl, Nat.min_l in Hk by done. split; [done|].
  rewrite take_take, Nat.min_l in Hh3 by apply Hk.
  rewrite <-fmap_take, take_take in Hh3. rewrite Nat.min_l in Hh3; [done|]. destruct Hk. lia.
Qed.

(** ** Lookups by position *)

Section by_position.
Context (hs : BlockHashList) (block_size alignment : Z) (Ha : 0 < alignment).

(** The block at position [j] of the request is cached for every group. *)
Definition cached_at (j : nat) : Prop :=
  ∃ h, hl_get hs (Z.of_nat j) = Some h ∧ cached_all h.

(** Every entry is a null block or the block of its position. *)
Definition positional (ts : list (option BlockHash)) : Prop :=
  ∀ j t, ts !! j = Some t → t = None ∨ t = hl_get hs (Z.of_nat j).

Definition covers (n : nat) : Prop := ∀ j, (j < n)%nat → ∃ h, hl_get hs (Z.of_nat j) = Some h.

Lemma lookup_at j h :
  hl_get hs (Z.of_nat j) = Some h →
  ∃ r, lookup_block p h gs = Ret r ∧
    match r with
    | Some bs => Forall2 (cached_as h) gs bs ∧ cached_at j
    | None => ¬ cached_at j
    end.
Proof using Hi Hgs Hne.
  intros E. destruct (lookup_block_spec h) as (r & -> & Hr). exists r. split; [done|].
  destruct r as [bs|].
  - destruct Hr as [? ?]. split; [done|]. by exists h.
  - intros (h' & E' & Hall). by simplify_eq.
Qed.

(** *** Sliding window *)

Section swa.
Context (drop : bool) (need : Z) (max : nat) (Hcov : covers max).

Abbreviation need' := (Z.max 1 need).

(** The block count a run with right edge [e] yields is aligned. *)
Definition edge_ok (e : nat) : Prop :=
  (if drop then Z.of_nat e - 1 else Z.of_nat e) * block_size mod alignment = 0.

(** A run ending at [e] is long enough, or reaches the first block. *)
Definition run_ok (e : nat) : Prop :=
  ∀ j, (j < e)%nat → Z.of_nat e - need' ≤ Z.of_nat j → cached_at j.

(** No later edge up to [max] has a run; the miss lies at or after [i]. *)
Definition no_run_after (i e : nat) : Prop :=
  ∀ e', (e < e' ≤ max)%nat → edge_ok e' →
    ∃ j, (i ≤ j < e')%nat ∧ Z.of_nat e' - need' ≤ Z.of_nat j ∧ ¬ cached_at j.

(** Positions from [i] to [e] hold the blocks of the request. *)
Definition filled (ts : list (option BlockHash)) (i e : nat) : Prop :=
  ∀ j, (i ≤ j < e)%nat → cached_at j ∧ ts !! j = Some (hl_get hs (Z.of_nat j)).

Lemma filled_insert ts i e h :
  filled ts (S i) e → hl_get hs (Z.of_nat i) = Some h → cached_at i → (i < length ts)%nat →
  filled (<[i := Some h]> ts) i e.
Proof.
  intros Hf E Hc Hl j Hj. destruct (decide (j = i)) as [->|Hji].
  - split; [done|]. rewrite list_lookup_insert_eq, E by done. done.
  - rewrite list_lookup_insert_ne by done. apply Hf. lia.
Qed.

Lemma positional_insert ts i h :
  positional ts → hl_get hs (Z.of_nat i) = Some h → positional (<[i := Some h]> ts).
Proof.
  intros Hp E j t Hj. apply list_lookup_insert_Some in Hj as [(<- & <- & _)|[_ Hj]]; [|by apply Hp].
  right. done.
Qed.

Lemma swa_loop_spec : ∀ i cs ts n,
  hits ts cs → length ts = max → positional ts → (i + n ≤ max)%nat → Z.of_nat n < need' →
  filled ts i (i + n) → (0 < n → edge_ok (i + n))%nat → no_run_after i (i + n) →
  ∃ cs' n' found ts' e,
    swa_loop p gs hs drop block_size alignment need i cs (Z.of_nat n) = Ret (cs', n', found) ∧
    hits ts' cs' ∧ positional ts' ∧ (e ≤ max)%nat ∧ (0 < e → edge_ok e)%nat ∧ run_ok e ∧ no_run_after 0 e ∧
    if found : bool
    then length ts' = e ∧ need' ≤ Z.of_nat e ∧ filled ts' (e - Z.to_nat need')%nat e
    else length ts' = max ∧ n' = Z.of_nat e ∧ Z.of_nat e < need' ∧ filled ts' 0 e.
Proof using Hi Hgs Hne Hcov Ha.
  induction i as [|i IH]; intros cs ts n Hh Hl Hpos Hmax Hn Hf He Hno; simpl.
  { exists cs, (Z.of_nat n), false, ts, n. split; [done|]. split; [done|]. split; [done|].
    split; [lia|]. split; [done|]. split; [intros j Hj _; apply Hf; lia|].
    split; [exact Hno|]. split; [done|]. split; [done|]. split; [done|exact Hf]. }
  destruct (Hcov i) as [h Eh]; [lia|]. rewrite Eh.
  destruct (lookup_at i h Eh) as (r & -> & Hr). destruct r as [bs|].
  2:{ (* a miss *)
    apply (IH cs ts 0%nat); try done; [lia|lia| | |].
    - intros j Hj. lia.
    - lia.
    - intros e' He' Hok. destruct (decide (S i + n < e')%nat).
      + destruct (Hno e' ltac:(lia) Hok) as (j & ? & ? & ?). exists j. split; [lia|done].
      + exists i. split; [lia|]. split; [lia|done]. }
  destruct Hr as [Hb Hc].
  assert (Hedge : (if drop then Z.of_nat i else Z.of_nat i + 1) * block_size mod alignment = 0 ↔ edge_ok (S i)).
  { unfold edge_ok. rewrite Nat2Z.inj_succ. unfold Z.succ. destruct drop; [|done].
    by replace (Z.of_nat i + 1 - 1) with (Z.of_nat i) by lia. }
  match goal with |- context [if ?b then swa_loop _ _ _ _ _ _ _ _ _ _ else _] => destruct b eqn:Eskip end.
  { (* an unaligned edge *)
    apply andb_true_iff in Eskip as [[E1 _]%andb_true_iff E2].
    apply Z.eqb_eq in E1. assert (n = 0%nat) as -> by lia.
    apply negb_true_iff, Z.eqb_neq in E2.
    apply (IH cs ts 0%nat); try done; [lia| | |].
    - intros j Hj. lia.
    - lia.
    - intros e' He' Hok. destruct (decide (e' = S i)) as [->|].
      + by apply Hedge in Hok.
      + destruct (Hno e' ltac:(lia) Hok) as (j & ? & ? & ?). exists j. split; [lia|done]. }
  assert (Hok : edge_ok (S i + n)).
  { destruct n as [|n]; [|by apply He; lia]. rewrite Nat.add_0_r. apply Hedge.
    change (Z.of_nat 0 =? 0) with true in Eskip. cbn [andb] in Eskip.
    apply andb_false_iff in Eskip as [Eq|Eq]; apply negb_false_iff, Z.eqb_eq in Eq; [|done].
    rewrite Eq. apply Z.mod_mul. lia. }
  set (ts1 := <[i := Some h]> ts). set (cs1 := zip_with _ cs bs).
  assert (Hh1 : hits ts1 cs1) by by apply hits_insert.
  assert (Hl1 : length ts1 = max) by (unfold ts1; by rewrite length_insert).
  assert (Hp1 : positional ts1) by by apply positional_insert.
  assert (Hf1 : filled ts1 i (S i + n)) by (apply filled_insert; auto; lia).
  replace (Z.of_nat n + 1) with (Z.of_nat (S n)) by lia.
  assert (Hno1 : no_run_after i (S i + n)).
  { intros e' He' Hok'. destruct (Hno e' He' Hok') as (j & ? & ? & ?). exists j. split; [lia|done]. }
  replace (S i + n)%nat with (i + S n)%nat in * by lia.
  destruct (Z.leb_spec need (Z.of_nat (S n))) as [Hle|Hlt].
  - (* the run is long enough *)
    assert (HS : Z.of_nat (S n) = need') by lia.
    exists (take (i + S n) <$> cs1), (Z.of_nat (S n)), true, (take (i + S n) ts1), (i + S n)%nat.
    split; [by replace (Z.to_nat (Z.of_nat i + Z.of_nat (S n))) with (i + S n)%nat by lia|].
    split; [by apply hits_take|].
    split; [intros j t Hj; apply lookup_take_Some in Hj as [Hj _]; by apply Hp1|].
    split; [lia|]. split; [done|]. split; [|split].
    + intros j Hj Hj'. apply Hf1. lia.
    + intros e' He' Hok'. destruct (Hno1 e' He' Hok') as (j & ? & ? & ?). exists j. split; [lia|done].
    + split; [rewrite length_take; lia|]. split; [lia|]. intros j Hj. destruct (Hf1 j) as [? Hts]; [lia|].
      split; [done|]. rewrite lookup_take_lt by lia. done.
  - apply (IH cs1 ts1 (S n)); try done; lia.
Qed.
End swa.

Lemma aligned_prefix_self n k :
  aligned_prefix block_size alignment n k → Z.of_nat n * block_size mod alignment = 0 → k = n.
Proof. intros (H1 & _ & H3) Hn. specialize (H3 n (le_n n) Hn). lia. Qed.

Lemma positional_take n ts : positional ts → positional (take n ts).
Proof. intros Hp j t Hj. apply lookup_take_Some in Hj as [Hj _]. by apply Hp. Qed.

Lemma filled_take ts i e n : filled ts i e → filled (take n ts) i (Nat.min n e).
Proof.
  intros Hf j Hj. destruct (Hf j) as [? E]; [lia|]. split; [done|].
  by rewrite lookup_take_lt by lia.
Qed.

(** What a sliding-window lookup promises: [k] blocks, aligned, whose last
    [window] ones are cached; after an EAGLE drop the next one is cached too;
    without the drop no longer aligned prefix has a cached window. *)
Definition swa_hit_spec (drop : bool) (window : Z) (max : nat) (ts : list (option BlockHash)) : Prop :=
  let k := length ts in
  (k ≤ max)%nat ∧ Z.of_nat k * block_size mod alignment = 0 ∧ positional ts ∧
  filled ts (k - Z.to_nat window)%nat k ∧
  if drop then (0 < k)%nat → (k < max)%nat ∧ cached_at k
  else ∀ k', (k < k' ≤ max)%nat → Z.of_nat k' * block_size mod alignment = 0 →
    ∃ j, (j < k')%nat ∧ Z.of_nat k' - Z.max 1 window ≤ Z.of_nat j ∧ ¬ cached_at j.

Lemma zero_aligned : Z.of_nat 0 * block_size mod alignment = 0.
Proof. by rewrite Z.mul_0_l, Z.mod_0_l by lia. Qed.

(** The pops that follow a run, with and without EAGLE. *)
Lemma swa_finish_found drop window max ts cs e :
  hits ts cs → positional ts → length ts = e → (e ≤ max)%nat → edge_ok drop e → 0 ≤ window →
  Z.max 1 (window + if drop then 1 else 0) ≤ Z.of_nat e →
  filled ts (e - Z.to_nat (Z.max 1 (window + if drop then 1 else 0)))%nat e →
  no_run_after drop (window + if drop then 1 else 0) max 0 e →
  ∃ cs' ts',
    (if drop then
       match head_list cs with
       | Raise e => Raise e
       | Ret [] => Ret cs
       | Ret _ => obind (align_down block_size alignment) (pop_each cs)
       end
     else Ret cs) = Ret cs' ∧ hits ts' cs' ∧ swa_hit_spec drop window max ts'.
Proof using Hne Ha.
  intros Hh Hp Hl He Hedge Hw Hne' Hf Hno. destruct drop.
  - destruct (hits_head ts cs Hh) as (c & -> & Hc). destruct c as [|b c]; [simpl in Hc; lia|].
    destruct (hits_pop ts cs Hh) as (cs1 & -> & Hh1); [destruct ts; [simpl in *; lia|done]|]. simpl.
    destruct (align_down_spec block_size alignment _ _ Hh1 Ha) as (cs2 & k & -> & Hk & Hh2).
    rewrite take_take in Hh2. rewrite length_take, Hl, Nat.min_l in Hk by lia.
    assert (k = (e - 1)%nat) as -> by (apply aligned_prefix_self; [done|];
      unfold edge_ok in Hedge; by replace (Z.of_nat (e - 1)) with (Z.of_nat e - 1) by lia).
    rewrite Nat.min_l in Hh2 by lia. eexists _, _. split; [done|]. split; [exact Hh2|].
    unfold swa_hit_spec. rewrite length_take, Nat.min_l by lia.
    split; [lia|]. split; [apply Hk|]. split; [by apply positional_take|]. split.
    + intros j Hj. apply (filled_take _ _ _ (e - 1)) in Hf. apply Hf. lia.
    + intros Hpos. split; [lia|]. apply Hf. lia.
  - exists cs, ts. split; [done|]. split; [done|]. unfold swa_hit_spec. rewrite Hl.
    split; [done|]. split; [exact Hedge|]. split; [done|]. rewrite Z.add_0_r in *. split.
    + intros j Hj. apply Hf. lia.
    + intros k' Hk' Hal. destruct (Hno k' Hk' Hal) as (j & ? & ? & ?). exists j. split; [lia|done].
Qed.

Lemma swa_finish_prefix drop window max ts cs e :
  hits ts cs → positional ts → length ts = max → (e ≤ max)%nat → (0 < e → edge_ok drop e)%nat →
  0 ≤ window → filled ts 0 e → no_run_after drop (window + if drop then 1 else 0) max 0 e →
  ∃ cs' ts',
    obind (λ cs,
      if drop then
       match head_list cs with
       | Raise e => Raise e
       | Ret [] => Ret cs
       | Ret _ => obind (align_down block_size alignment) (pop_each cs)
       end
     else Ret cs) (align_down block_size alignment (take e <$> cs)) = Ret cs' ∧
    hits ts' cs' ∧ swa_hit_spec drop window max ts'.
Proof using Hne Ha.
  intros Hh Hp Hl He Hedge Hw Hf Hno.
  destruct (align_down_spec block_size alignment _ _ (hits_take e _ _ Hh) Ha)
    as (cs1 & k & -> & Hk & Hh1). simpl.
  rewrite length_take, Nat.min_l in Hk by lia. rewrite take_take, Nat.min_l in Hh1 by apply Hk.
  assert (Hke : (k ≤ e)%nat) by apply Hk. destruct drop.
  - destruct (hits_head _ _ Hh1) as (c & -> & Hc). rewrite length_take, Nat.min_l in Hc by lia.
    destruct c as [|b c]; simpl in Hc.
    { exists cs1, []. split; [done|]. subst k. split; [done|]. unfold swa_hit_spec. simpl length.
      split; [lia|]. split; [apply zero_aligned|]. split; [intros j t Hj; by rewrite lookup_nil in Hj|].
      split; [intros j Hj; lia|lia]. }
    destruct (hits_pop _ _ Hh1) as (cs2 & -> & Hh2).
    { intros E%(f_equal length). rewrite length_take in E. simpl in E. lia. }
    simpl. destruct (align_down_spec block_size alignment _ _ Hh2 Ha) as (cs3 & k2 & -> & Hk2 & Hh3).
    rewrite !length_take in *. rewrite !take_take in Hh3.
    assert (Hle : (k2 < k)%nat) by (destruct Hk2; lia).
    match type of Hh3 with hits (take ?x _) _ => replace x with k2 in Hh3 by (destruct Hk2; lia) end.
    eexists _, _. split; [done|]. split; [exact Hh3|]. unfold swa_hit_spec.
    rewrite length_take, Nat.min_l by lia.
    split; [lia|]. split; [apply Hk2|]. split; [by apply positional_take|]. split.
    + intros j Hj. apply (filled_take _ _ _ k2) in Hf. apply Hf. lia.
    + intros _. split; [lia|]. apply Hf. lia.
  - assert (k = e) as ->.
    { apply aligned_prefix_self; [done|]. destruct e; [apply zero_aligned|apply Hedge; lia]. }
    eexists _, _. split; [done|]. split; [exact Hh1|]. unfold swa_hit_spec.
    rewrite length_take, Nat.min_l by lia. split; [done|]. split; [apply Hk|].
    split; [by apply positional_take|]. split.
    + intros j Hj. apply (filled_take _ _ _ e) in Hf. apply Hf. lia.
    + rewrite Z.add_0_r in Hno. intros k' Hk' Hal.
      destruct (Hno k' Hk' Hal) as (j & ? & ? & ?). exists j. split; [lia|done].
Qed.

Lemma swa_hit_ok max_length spec drop w :
  sliding_window_of (spec_type spec) = Some w → spec_block_size spec = block_size →
  0 < block_size → 0 ≤ max_length → 1 ≤ w →
  let max := Z.to_nat (max_length / block_size) in
  covers max →
  ∃ cs ts,
    swa_find_longest_cache_hit hs max_length gs p spec drop alignment 1 1 = Ret cs ∧
    hits ts cs ∧ swa_hit_spec drop (cdiv (w - 1) block_size) max ts.
Proof using Hi Hgs Hne Ha.
  intros Hw Hbs Hpos Hml Hw1 max Hcov. unfold swa_find_longest_cache_hit. rewrite Hw, Hbs. cbn [Z.eqb Pos.eqb andb negb].
  fold max. unfold _contiguous_blocks_for_hit.
  set (window := cdiv (w - 1) block_size). set (need := window + _).
  assert (0 ≤ window) by (apply cdiv_nonneg; lia).
  destruct (swa_loop_spec drop need max Hcov max _ (replicate max None) 0%nat (hits_null _ max eq_refl))
    as (cs1 & n1 & found & ts1 & e & E & Hh1 & Hp1 & He & Hedge & _ & Hno & Hres);
    [by rewrite length_replicate| |lia|lia|intros j Hj; lia|lia|intros e' He'; lia|].
  { intros j t Hj. apply lookup_replicate in Hj as [-> _]. by left. }
  change (Z.of_nat 0) with 0 in E. rewrite E. destruct found.
  - destruct Hres as (Hl & Hn & Hf). cbn [obind].
    apply (swa_finish_found drop window max ts1 cs1 e); try done. apply Hedge. lia.
  - destruct Hres as (Hl & -> & _ & Hf). rewrite Nat2Z.id.
    by apply (swa_finish_prefix drop window max ts1 cs1 e).
Qed.

(** *** Chunked local attention *)

Lemma chunk_loop_spec m : ∀ start ts cs,
  hits ts cs → length ts = start → covers (start + m) →
  (∀ j, ts !! j = Some None ∨ ts !! j = Some (hl_get hs (Z.of_nat j)) ∨ ts !! j = None) →
  ∃ cs' n,
    chunk_loop p gs hs (Z.of_nat <$> seq start m) cs = Ret cs' ∧ (n ≤ m)%nat ∧
    (∀ j, (start ≤ j < start + n)%nat → cached_at j) ∧
    ((n < m)%nat → ¬ cached_at (start + n)) ∧
    hits (ts ++ ((λ j, hl_get hs (Z.of_nat j)) <$> seq start n)) cs'.
Proof using Hi Hgs Hne.
  induction m as [|m IH]; intros start ts cs Hh Hl Hcov Hts; cbn [seq]; rewrite ?fmap_cons; cbn [chunk_loop].
  { exists cs, 0%nat. simpl. rewrite app_nil_r. split; [done|]. split; [done|].
    split; [lia|]. split; [lia|done]. }
  destruct (Hcov start) as [h Eh]; [lia|]. rewrite Eh.
  destruct (lookup_at start h Eh) as (r & -> & Hr). destruct r as [bs|].
  - destruct Hr as [Hb Hc].
    destruct (IH (S start) (ts ++ [Some h]) _ (hits_snoc ts cs h bs Hh Hb))
      as (cs' & n & -> & Hn & Hall & Hmiss & Hh').
    + rewrite length_app. simpl. lia.
    + intros j Hj. apply Hcov. lia.
    + intros j. destruct (decide (j < start)%nat).
      { rewrite lookup_app_l by lia. apply Hts. }
      rewrite lookup_app_r by lia. destruct (decide (j = start)) as [->|].
      { right; left. by rewrite Hl, Nat.sub_diag, Eh. }
      right; right. apply lookup_ge_None. simpl. lia.
    + exists cs', (S n). split; [done|]. split; [lia|]. split; [|split].
      * intros j Hj. destruct (decide (j = start)) as [->|]; [done|]. apply Hall. lia.
      * intros Hlt. replace (start + S n)%nat with (S start + n)%nat by lia. apply Hmiss. lia.
      * simpl. rewrite <-(assoc_L (++)) in Hh'. by rewrite Eh.
  - exists cs, 0%nat. simpl. rewrite app_nil_r, Nat.add_0_r. split; [done|]. split; [lia|].
    split; [lia|]. done.
Qed.

Lemma seqZ_of_seq a b :
  0 ≤ a ≤ b → py_range a b = Z.of_nat <$> seq (Z.to_nat a) (Z.to_nat b - Z.to_nat a).
Proof.
  intros Hab. unfold py_range, seqZ. apply list_eq. intros i.
  rewrite !list_lookup_fmap.
  destruct (decide (i < Z.to_nat b - Z.to_nat a)%nat).
  - rewrite !lookup_seq_lt by lia. simpl. f_equal. lia.
  - rewrite !lookup_seq_ge by lia. done.
Qed.

(** The first block of the chunk that the next token is in. *)
Definition chunk_start (max_length chunk : Z) : nat :=
  Z.to_nat ((if 0 <? max_length then max_length / chunk * chunk else 0) / block_size).

Lemma chunked_hit_ok max_length spec chunk :
  chunk_size_of (spec_type spec) = Some chunk → spec_block_size spec = block_size →
  alignment = block_size → 0 < block_size → 0 < chunk → 0 ≤ max_length →
  let max := Z.to_nat (max_length / block_size) in
  let start := chunk_start max_length chunk in
  covers max →
  ∃ cs n,
    chunked_find_longest_cache_hit hs max_length gs p spec false alignment 1 1 = Ret cs ∧
    (start + n ≤ max)%nat ∧ (∀ j, (start ≤ j < start + n)%nat → cached_at j) ∧
    ((start + n < max)%nat → ¬ cached_at (start + n)) ∧
    hits (replicate start None ++ ((λ j, hl_get hs (Z.of_nat j)) <$> seq start n)) cs.
Proof using Hi Hgs Hne.
  intros Hchunk Hbs Hal Hpos Hch Hml max start Hcov. unfold chunked_find_longest_cache_hit.
  rewrite Hchunk, Hbs, Hal. cbn [Z.eqb Pos.eqb andb negb]. rewrite (Z.eqb_refl block_size). cbn [negb].
  set (start_idx := if 0 <? max_length then _ else _).
  assert (Hidx : 0 ≤ start_idx ≤ max_length).
  { unfold start_idx. destruct (Z.ltb_spec 0 max_length); [|lia].
    pose proof (Z.mul_div_le max_length chunk Hch).
    pose proof (Z.div_pos max_length chunk ltac:(lia) Hch). nia. }
  assert (Hr : 0 ≤ start_idx / block_size ≤ max_length / block_size).
  { split; [apply Z.div_pos; lia|]. apply Z.div_le_mono; lia. }
  change (Z.to_nat (start_idx / block_size)) with start.
  rewrite seqZ_of_seq by done. fold max. change (Z.to_nat (start_idx / block_size)) with start.
  assert (Hsm : (start ≤ max)%nat) by (unfold max; change start with (Z.to_nat (start_idx / block_size)); lia).
  destruct (chunk_loop_spec (max - start) start (replicate start None) _ (hits_null _ start eq_refl))
    as (cs & n & -> & Hn & Hall & Hmiss & Hh).
  - by rewrite length_replicate.
  - intros j Hj. apply Hcov. lia.
  - intros j. destruct (decide (j < start)%nat).
    + left. by rewrite lookup_replicate_2.
    + right; right. apply lookup_ge_None. rewrite length_replicate. lia.
  - exists cs, n. split; [done|]. split; [lia|]. split; [done|]. split; [|done].
    intros ?. apply Hmiss. lia.
Qed.

(** *** Mamba *)

(** The state after block [i] is at an aligned position. *)
Definition state_ok (i : nat) : Prop := (Z.of_nat i + 1) * block_size mod alignment = 0.

Lemma mamba_loop_spec cs0 : ∀ i,
  hits [] cs0 → covers i →
  ∃ cs',
    mamba_loop p gs hs block_size alignment i cs0 = Ret cs' ∧
    ((cs' = cs0 ∧ ∀ j, (j < i)%nat → state_ok j → ¬ cached_at j) ∨
     ∃ k h, (k < i)%nat ∧ state_ok k ∧ hl_get hs (Z.of_nat k) = Some h ∧ cached_at k ∧
       hits (replicate k None ++ [Some h]) cs' ∧
       ∀ j, (k < j < i)%nat → state_ok j → ¬ cached_at j).
Proof using Hi Hgs Hne Ha.
  induction i as [|i IH]; intros Hh Hcov; simpl.
  { exists cs0. split; [done|]. left. split; [done|lia]. }
  destruct (Hcov i) as [h Eh]; [lia|]. rewrite Eh.
  destruct (IH Hh) as (cs' & E & Hres); [intros j Hj; apply Hcov; lia|].
  destruct (lookup_at i h Eh) as (r & -> & Hr).
  assert (Hrec : (state_ok i → ¬ cached_at i) →
    (cs' = cs0 ∧ (∀ j, (j < S i)%nat → state_ok j → ¬ cached_at j)) ∨
    ∃ k h, (k < S i)%nat ∧ state_ok k ∧ hl_get hs (Z.of_nat k) = Some h ∧ cached_at k ∧
       hits (replicate k None ++ [Some h]) cs' ∧
       ∀ j, (k < j < S i)%nat → state_ok j → ¬ cached_at j).
  { intros Hn. destruct Hres as [[-> Hall]|(k & h' & H1 & H2 & H3 & H4 & H5 & H6)].
    - left. split; [done|]. intros j Hj. destruct (decide (j = i)) as [->|]; [done|]. apply Hall. lia.
    - right. exists k, h'. split; [lia|]. repeat (split; [done|]). intros j Hj.
      destruct (decide (j = i)) as [->|]; [done|]. apply H6. lia. }
  destruct r as [bs|].
  - destruct Hr as [Hb Hc]. case_match eqn:Eskip.
    + exists cs'. split; [done|]. apply Hrec. intros Hok.
      apply andb_true_iff in Eskip as [_ Es]. by apply negb_true_iff, Z.eqb_neq in Es.
    + assert (Hok : state_ok i).
      { apply andb_false_iff in Eskip as [Eq|Eq]; apply negb_false_iff, Z.eqb_eq in Eq; [|done].
        unfold state_ok. rewrite Eq. apply Z.mod_mul. lia. }
      eexists. split; [done|]. right. exists i, h. split; [lia|]. split; [done|]. split; [done|].
      split; [done|]. split; [|lia].
      apply (hits_app [] (replicate i None ++ [Some h]) cs0 (λ b, replicate i (null_block p) ++ [b]) h bs Hh Hb).
      intros g b Hcb. apply Forall2_app; [by apply Forall2_replicate|]. constructor; [done|constructor].
  - exists cs'. split; [done|]. apply Hrec. done.
Qed.

Lemma mamba_hit_ok max_length spec (drop : bool) mode spec_blocks :
  mamba_fields (spec_type spec) = Some (mode, spec_blocks) → spec_block_size spec = block_size →
  0 < block_size → 0 ≤ max_length →
  let max := Z.to_nat (max_length / block_size) in
  let bound := if drop then (max - 1)%nat else max in
  covers max →
  ∃ cs ts,
    mamba_find_longest_cache_hit hs max_length gs p spec drop alignment 1 1 = Ret cs ∧
    hits ts cs ∧
    (ts = [] ∨ ∃ k h, ts = replicate k None ++ [Some h] ∧ (k < bound)%nat ∧ state_ok k ∧
      hl_get hs (Z.of_nat k) = Some h) ∧
    ∀ j, (length ts ≤ j < bound)%nat → state_ok j → ¬ cached_at j.
Proof using Hi Hgs Hne Ha.
  intros Hm Hbs Hpos Hml max bound Hcov. unfold mamba_find_longest_cache_hit.
  rewrite Hm, Hbs. cbn [Z.eqb Pos.eqb andb negb].
  assert (Hbound : Z.to_nat (if drop && (0 <? max_length / block_size)
    then max_length / block_size - 1 else max_length / block_size) = bound).
  { unfold bound, max. destruct drop; [|done]. simpl. destruct (Z.ltb_spec 0 (max_length / block_size)); lia. }
  rewrite Hbound.
  destruct (mamba_loop_spec _ bound (hits_nil _ eq_refl)) as (cs & -> & Hres).
  { intros j Hj. apply Hcov. unfold bound in Hj. destruct drop; lia. }
  destruct Hres as [[-> Hall]|(k & h & H1 & H2 & H3 & H4 & H5 & H6)].
  - exists (replicate (length gs) []), []. split; [done|]. split; [by apply hits_nil|]. split; [by left|].
    intros j Hj. apply Hall. lia.
  - eexists _, _. split; [done|]. split; [exact H5|]. split.
    + right. exists k, h. done.
    + rewrite length_app, length_replicate. simpl. intros j Hj. apply H6. lia.
Qed.
End by_position.
End lookups.
