(* ===== verification/CacheHitTheorems.v ===== *)
(** * Theorems about the prefix-cache lookups

    The properties of [find_longest_cache_hit] per manager class and of the
    block mask the sliding-window manager caches with, with witnesses on a pool
    that has two cached blocks. *)

From Stdlib Require Import Strings.Byte.
From S2P Require Import Prelude.
From S2P Require Import FreeQueue.
From S2P Require Import Request.
From S2P Require Import BlockHash.
From S2P Require Import BlockHashSpec.
From S2P Require Import BlockPool.
From S2P Require Import BlockPoolInv.
From S2P Require Import BlockPoolSpec.
From S2P Require Import BlockPoolOps.
From S2P Require Import BlockPoolProps.
From S2P Require Import PoolTheorems.
From S2P Require Import KVCacheSpec.
From S2P Require Import SingleType.
From S2P Require Import CacheHit.
From S2P Require Import CacheHitSpec.
Local Open Scope Z_scope.

(** C23: the full-attention lookup always returns: it finds the longest prefix of
    the request's block hashes, within [max_length], whose blocks are cached for
    every group, drops the last block for EAGLE, cuts the rest down to the
    alignment, and returns for every group the blocks cached under exactly those
    hashes. *)
Theorem full_hit_longest p st hi D gs hs max_length spec (drop : bool) alignment dcp pcp :
  pool_inv p st hi D → Forall (λ g, 0 ≤ g < 2 ^ 32) gs → gs ≠ [] →
  is_full_attention (spec_type spec) = true → 0 ≤ max_length → 0 < alignment →
  let block_size :=
    if 1 <? dcp * pcp then spec_block_size spec * (dcp * pcp) else spec_block_size spec in
  0 < block_size →
  let hashes := take (Z.to_nat (max_length / block_size)) (hl_list hs) in
  ∃ cs n k,
    full_find_longest_cache_hit hs max_length gs p spec drop alignment dcp pcp = Ret cs ∧
    cached_prefix p gs hashes n ∧
    aligned_prefix block_size alignment (if drop then n - 1 else n)%nat k ∧
    hits p gs (Some <$> take k hashes) cs.
Proof. intros ?????? bs ?. by eapply full_hit_ok. Qed.

(** C24: the sliding-window lookup always returns, and returns a prefix of aligned
    length whose last blocks, as many as the window spans, are cached under the
    request's hashes for every group, with null or cached blocks before; for
    EAGLE the block after the prefix is cached too; without EAGLE no longer
    aligned prefix has its window cached. *)
Theorem swa_hit_longest p st hi D gs hs max_length spec (drop : bool) alignment w :
  pool_inv p st hi D → Forall (λ g, 0 ≤ g < 2 ^ 32) gs → gs ≠ [] →
  sliding_window_of (spec_type spec) = Some w → 0 < spec_block_size spec →
  0 < alignment → 0 ≤ max_length → 1 ≤ w →
  let max := Z.to_nat (max_length / spec_block_size spec) in
  covers hs max →
  ∃ cs ts,
    swa_find_longest_cache_hit hs max_length gs p spec drop alignment 1 1 = Ret cs ∧
    hits p gs ts cs ∧
    swa_hit_spec p gs hs (spec_block_size spec) alignment drop
      (cdiv (w - 1) (spec_block_size spec)) max ts.
Proof. intros. by eapply swa_hit_ok. Qed.

(** the chunked-local lookup returns null blocks up to the chunk of the next
    token, then the longest run of cached blocks from there, up to
    [max_length]. *)
Theorem chunked_hit_longest p st hi D gs hs max_length spec chunk :
  pool_inv p st hi D → Forall (λ g, 0 ≤ g < 2 ^ 32) gs → gs ≠ [] →
  chunk_size_of (spec_type spec) = Some chunk → 0 < spec_block_size spec → 0 < chunk →
  0 ≤ max_length →
  let max := Z.to_nat (max_length / spec_block_size spec) in
  let start := chunk_start (spec_block_size spec) max_length chunk in
  covers hs max →
  ∃ cs n,
    chunked_find_longest_cache_hit hs max_length gs p spec false (spec_block_size spec) 1 1 = Ret cs ∧
    (start + n ≤ max)%nat ∧ (∀ j, (start ≤ j < start + n)%nat → cached_at p gs hs j) ∧
    ((start + n < max)%nat → ¬ cached_at p gs hs (start + n)) ∧
    hits p gs (replicate start None ++ ((λ j, hl_get hs (Z.of_nat j)) <$> seq start n)) cs.
Proof. intros. by eapply chunked_hit_ok. Qed.

(** the Mamba lookup returns the rightmost cached state at an aligned
    position, preceded by null blocks, or nothing when there is none; for EAGLE
    it looks one block less far. *)
Theorem mamba_hit_rightmost p st hi D gs hs max_length spec (drop : bool) alignment mode n :
  pool_inv p st hi D → Forall (λ g, 0 ≤ g < 2 ^ 32) gs → gs ≠ [] →
  mamba_fields (spec_type spec) = Some (mode, n) → 0 < spec_block_size spec →
  0 < alignment → 0 ≤ max_length →
  let max := Z.to_nat (max_length / spec_block_size spec) in
  let bound := if drop then (max - 1)%nat else max in
  covers hs max →
  ∃ cs ts,
    mamba_find_longest_cache_hit hs max_length gs p spec drop alignment 1 1 = Ret cs ∧
    hits p gs ts cs ∧
    (ts = [] ∨ ∃ k h, ts = replicate k None ++ [Some h] ∧ (k < bound)%nat ∧
      state_ok (spec_block_size spec) alignment k ∧ hl_get hs (Z.of_nat k) = Some h) ∧
    ∀ j, (length ts ≤ j < bound)%nat → state_ok (spec_block_size spec) alignment j →
      ¬ cached_at p gs hs j.
Proof. intros. by eapply mamba_hit_ok. Qed.

(** the sliding-window mask caches exactly the blocks a lookup can use: block
    [i] is kept when it lies in the run of [need] blocks that ends at some
    aligned boundary (one block later for EAGLE), and every block is kept when
    the runs of neighbouring boundaries touch. *)
Theorem swa_mask_reachable spec w start_block num_blocks per_segment (eagle : bool) :
  sliding_window_of (spec_type spec) = Some w → 0 < spec_block_size spec → 1 < per_segment → 1 ≤ w →
  0 ≤ start_block →
  let need := cdiv (w - 1) (spec_block_size spec) + (if eagle then 1 else 0) in
  let shift := if eagle then 1 else 0 in
  ∃ o, swa_reachable_block_mask start_block num_blocks (per_segment * spec_block_size spec) spec eagle
       = Ret o ∧
    match o with
    | None => per_segment ≤ need
    | Some mask =>
        need < per_segment ∧ length mask = Z.to_nat (num_blocks - start_block) ∧
        ∀ i, start_block ≤ i < num_blocks →
          (mask !! Z.to_nat (i - start_block) = Some true ↔
           ∃ boundary, 0 < boundary ∧ boundary mod per_segment = 0 ∧
             boundary + shift - need ≤ i < boundary + shift)
    end.
Proof.
  intros Hw Hbs Hper Hw1 Hs need shift. unfold swa_reachable_block_mask.
  rewrite (proj2 (Z.ltb_lt _ _)) by nia. cbn [negb]. rewrite Hw, Z.div_mul by lia.
  change (_contiguous_blocks_for_hit w (spec_block_size spec) eagle) with need.
  change (if eagle then 1 else 0) with shift.
  assert (Hneed : 0 ≤ need ∧ 0 ≤ shift ≤ 1).
  { unfold need, shift. pose proof (cdiv_nonneg (w - 1) (spec_block_size spec)). destruct eagle; lia. }
  destruct (Z.leb_spec per_segment need); eexists; (split; [done|]); [done|]. split; [done|].
  unfold py_range. split; [by rewrite length_fmap, length_seqZ|]. intros i Hi.
  rewrite list_lookup_fmap, (lookup_seqZ_lt _ _ (Z.to_nat (i - start_block))) by lia. simpl.
  replace (start_block + Z.of_nat (Z.to_nat (i - start_block))) with i by lia.
  set (r := (i - shift) mod per_segment). set (q := (i - shift) / per_segment).
  assert (Hdm : i - shift = per_segment * q + r) by (apply Z.div_mod; lia).
  assert (Hr : 0 ≤ r < per_segment) by (apply Z.mod_pos_bound; lia).
  split.
  - intros [= [H1 H2]%andb_true_iff]. apply Z.leb_le in H1, H2.
    exists ((q + 1) * per_segment). rewrite Z.mod_mul by lia.
    assert (0 ≤ q) by nia. split; [nia|]. split; [done|]. nia.
  - intros (b & Hb & Hbm & Hbi). f_equal. apply andb_true_iff. rewrite !Z.leb_le.
    apply Z.mod_divide in Hbm as [z ->]; [|lia].
    assert (0 < z) by nia. assert (q = z - 1) by nia. split; nia.
Qed.

Lemma aligned_prefix_div bs per n k :
  0 < bs → 0 < per → aligned_prefix bs (per * bs) n k → Z.of_nat k = Z.of_nat n / per * per.
Proof.
  intros Hbs Hper (H1 & H2 & H3).
  assert (Hal : ∀ j : nat, Z.of_nat j * bs mod (per * bs) = 0 ↔ Z.of_nat j mod per = 0).
  { intros j. rewrite Zmult_mod_distr_r. pose proof (Z.mod_pos_bound (Z.of_nat j) per). nia. }
  apply Hal, Z.mod_divide in H2 as [z Hz]; [|lia].
  set (q := Z.of_nat n / per). pose proof (Z.div_mod (Z.of_nat n) per ltac:(lia)) as Hd.
  pose proof (Z.mod_pos_bound (Z.of_nat n) per Hper). fold q in Hd.
  assert (0 ≤ q) by (apply Z.div_pos; lia).
  specialize (H3 (Z.to_nat (q * per)) ltac:(nia)).
  rewrite Hal, Z2Nat.id, Z.mod_mul in H3 by nia. specialize (H3 eq_refl).
  rewrite Hz. assert (z = q) by nia. congruence.
Qed.

(** the sliding-window lookup with EAGLE loses an aligned segment: when
    exactly the first [c * per + 1] blocks are cached and the window is larger,
    the prefix of [c * per] blocks is aligned, cached, and followed by the block
    EAGLE drops, yet the lookup returns one segment less.  The alignment is
    applied before the drop and again after it. *)
Theorem swa_eagle_segment_lost p st hi D gs hs max_length spec w per c :
  pool_inv p st hi D → Forall (λ g, 0 ≤ g < 2 ^ 32) gs → gs ≠ [] →
  sliding_window_of (spec_type spec) = Some w → 0 < spec_block_size spec →
  0 ≤ max_length → (1 < per)%nat → (1 ≤ c)%nat →
  let max := Z.to_nat (max_length / spec_block_size spec) in
  covers hs max → (c * per + 1 ≤ max)%nat →
  Z.of_nat (c * per + 1) < cdiv (w - 1) (spec_block_size spec) + 1 →
  (∀ j, (j < max)%nat → cached_at p gs hs j ↔ (j < c * per + 1)%nat) →
  ∃ cs ts,
    swa_find_longest_cache_hit hs max_length gs p spec true
      (Z.of_nat per * spec_block_size spec) 1 1 = Ret cs ∧
    hits p gs ts cs ∧ length ts = ((c - 1) * per)%nat.
Proof.
  intros Hi Hgs Hne Hw Hbs Hml Hper Hc max Hcov Hmax Hneed Hcached.
  unfold swa_find_longest_cache_hit. rewrite Hw. cbn [Z.eqb Pos.eqb andb negb]. fold max.
  unfold _contiguous_blocks_for_hit. set (need := cdiv _ _ + 1) in *.
  set (bs := spec_block_size spec) in *. set (al := Z.of_nat per * bs).
  assert (Ha : 0 < al) by nia.
  destruct (swa_loop_spec p st hi D Hi gs Hgs Hne hs bs al Ha true need max Hcov max _
    (replicate max None) 0%nat (hits_null p gs _ max eq_refl))
    as (cs1 & n1 & found & ts1 & e & E & Hh1 & _ & He & Hedge & _ & Hno & Hres);
    [by rewrite length_replicate| |lia|lia|intros j Hj; lia|lia|intros e' He'; lia|].
  { intros j t Hj. apply lookup_replicate in Hj as [-> _]. by left. }
  change (Z.of_nat 0) with 0 in E. rewrite E. destruct found.
  { exfalso. destruct Hres as (_ & Hle & Hf). destruct (Hf (e - 1)%nat) as [Hca _]; [lia|].
    apply Hcached in Hca; lia. }
  destruct Hres as (Hl & -> & _ & Hf). rewrite Nat2Z.id.
  assert (He1 : (e ≤ c * per + 1)%nat).
  { destruct (decide (e ≤ c * per + 1)%nat); [done|]. destruct (Hf (e - 1)%nat) as [Hca _]; [lia|].
    apply Hcached in Hca; lia. }
  assert (e = (c * per + 1)%nat) as ->.
  { destruct (decide (e = c * per + 1)%nat); [done|].
    destruct (Hno (c * per + 1)%nat) as (j & ? & _ & Hj); [lia| |].
    - unfold edge_ok. replace (Z.of_nat (c * per + 1) - 1) with (Z.of_nat c * Z.of_nat per) by lia.
      unfold al. rewrite <-Z.mul_assoc. apply Z.mod_mul. nia.
    - exfalso. apply Hj, Hcached; lia. }
  assert (Hdiv : ∀ n k q r : nat, aligned_prefix bs al n k → n = (q * per + r)%nat → (r < per)%nat →
    k = (q * per)%nat).
  { intros n k q r Hk -> Hr. apply aligned_prefix_div in Hk; [|done|lia].
    rewrite Nat2Z.inj_add, Nat2Z.inj_mul, Z.div_add_l, (Z.div_small (Z.of_nat r)) in Hk by lia. nia. }
  destruct (align_down_spec p gs Hne bs al _ _ (hits_take p gs (c * per + 1)%nat _ _ Hh1) Ha)
    as (cs2 & k & -> & Hk & Hh2). cbn [obind].
  rewrite length_take, Nat.min_l in Hk by lia. rewrite take_take in Hh2.
  assert (k = (c * per)%nat) as -> by (eapply Hdiv; [exact Hk|done|lia]).
  rewrite Nat.min_l in Hh2 by lia.
  destruct (hits_head p gs Hne _ _ Hh2) as (l & -> & Hll). rewrite length_take, Nat.min_l in Hll by lia.
  destruct l as [|b l]; [simpl in Hll; nia|].
  destruct (hits_pop p gs _ _ Hh2) as (cs3 & -> & Hh3).
  { intros E0%(f_equal length). rewrite length_take in E0. simpl in E0. nia. }
  cbn [obind]. rewrite length_take, Nat.min_l, take_take in Hh3 by lia.
  destruct (align_down_spec p gs Hne bs al _ _ Hh3 Ha) as (cs4 & k & -> & Hk4 & Hh4).
  eexists _, _. split; [done|]. split; [exact Hh4|].
  rewrite !length_take in Hk4 |- *. rewrite !Nat.min_l in Hk4 by lia.
  assert (k = ((c - 1) * per)%nat) as ->.
  { eapply (Hdiv _ _ (c - 1)%nat (per - 1)%nat); [exact Hk4|nia|lia]. }
  rewrite length_take, Hl. assert ((c - 1) * per + 1 ≤ c * per)%nat by nia. lia.
Qed.

(** ** Witnesses *)

Record cached_demo (p : BlockPool) : Prop := {
  cd_inv : pool_inv p [] [3]%nat [];
  cd_blocks : blocks p = [0; 1; 2; 3]%nat;
  cd_null : null_block p = 0%nat;
  cd_hash1 : hash p 1%nat = Some (group_key [x01] 7);
  cd_hash2 : hash p 2%nat = Some (group_key [x02] 7);
}.

Lemma cached_demo_exists : ∃ p, cached_demo p.
Proof.
  destruct demo_exists as (p0 & p & H).
  assert (Hhb := demo_hash_size2 _ _ H). assert (Hn := demo_null2 _ _ H).
  assert (Hg : group_hashes p demo_request 2 = Hashes [[x01]; [x02]])
    by (unfold group_hashes; by rewrite Hhb).
  assert (Hw : wp (Pool.cache_full_blocks id false demo_request [1; 2]%nat 0 2 2 7 None) p (λ _ p',
    cached_demo p')).
  2:{ apply wp_elim in Hw as (? & p' & _ & Hp'). by exists p'. }
  eapply wp_mono.
  { apply (cache_full_blocks_ok id false demo_request [1; 2]%nat 0 2 2 7 None p
      [] [3]%nat [] (demo_inv2 _ _ H)); rewrite ?Hhb, ?Hg; try (vm_compute; done); try lia.
    - by split; constructor.
    - change (py_slice [1; 2]%nat 0 2) with [1; 2]%nat. unfold cache_pre.
      rewrite (demo_blocks2 _ _ H), Hn. simpl.
      split; [|split; [|split; [|split; [lia|done]]]].
      + rewrite filter_true; [by apply nodup_two|]. intros x Hx%elem_of_two. lia.
      + intros b Hbb%elem_of_two. rewrite !elem_of_cons. lia.
      + intros j b Hj _. apply (demo_taken _ _ H). by eapply list_elem_of_lookup_2. }
  intros r' p' (_ & Hi' & (Hs & _ & Hh' & _)).
  assert (Hc : ∀ i b, b ≠ 0%nat → cacheable p None i b)
    by (intros i b Hbb; unfold cacheable; by rewrite Hn).
  destruct Hs as (_ & _ & _ & Hb & Hnull & _).
  constructor; [done|by rewrite Hb; apply H|by rewrite Hnull|..]; rewrite Hh', Hg; unfold py_slice; simpl;
    (rewrite decide_True by (split; [done|by apply Hc])); done.
Qed.

Lemma full_hit_longest_witness : ∃ p cs,
  full_find_longest_cache_hit (Hashes [[x01]; [x02]; [x03]]) 6 [7] p
    (mkSpec FullAttentionSpec 2 true) false 4 1 1 = Ret cs ∧ hash p 1%nat = Some (group_key [x01] 7).
Proof.
  destruct cached_demo_exists as [p H].
  destruct (full_hit_longest p [] [3]%nat [] [7] (Hashes [[x01]; [x02]; [x03]]) 6
    (mkSpec FullAttentionSpec 2 true) false 4 1 1 (cd_inv _ H)) as (cs & n & k & Hr & _);
    [repeat constructor; lia|done|done|lia|lia|simpl; lia|].
  exists p, cs. split; [exact Hr|exact (cd_hash1 _ H)].
Defined.

Lemma swa_hit_longest_witness : ∃ p cs,
  swa_find_longest_cache_hit (Hashes [[x01]; [x02]; [x03]]) 6 [7] p
    (mkSpec (SlidingWindowSpec 3) 2 true) false 4 1 1 = Ret cs ∧ hash p 1%nat = Some (group_key [x01] 7).
Proof.
  destruct cached_demo_exists as [p H].
  destruct (swa_hit_longest p [] [3]%nat [] [7] (Hashes [[x01]; [x02]; [x03]]) 6
    (mkSpec (SlidingWindowSpec 3) 2 true) false 4 3 (cd_inv _ H)) as (cs & ts & Hr & _);
    [repeat constructor; lia|done|done|simpl; lia|lia|lia|lia| |].
  - intros j Hj. change (j < 3)%nat in Hj. destruct j as [|[|[|j]]]; [by eexists..|lia].
  - exists p, cs. split; [exact Hr|exact (cd_hash1 _ H)].
Defined.

Lemma chunked_hit_longest_witness : ∃ p cs,
  chunked_find_longest_cache_hit (Hashes [[x01]; [x02]; [x03]]) 6 [7] p
    (mkSpec (ChunkedLocalAttentionSpec 4) 2 true) false 2 1 1 = Ret cs ∧
  hash p 1%nat = Some (group_key [x01] 7).
Proof.
  destruct cached_demo_exists as [p H].
  destruct (chunked_hit_longest p [] [3]%nat [] [7] (Hashes [[x01]; [x02]; [x03]]) 6
    (mkSpec (ChunkedLocalAttentionSpec 4) 2 true) 4 (cd_inv _ H)) as (cs & n & Hr & _);
    [repeat constructor; lia|done|done|simpl; lia|lia|lia| |].
  - intros j Hj. change (j < 3)%nat in Hj. destruct j as [|[|[|j]]]; [by eexists..|lia].
  - exists p, cs. split; [exact Hr|exact (cd_hash1 _ H)].
Defined.

Lemma mamba_hit_rightmost_witness : ∃ p cs,
  mamba_find_longest_cache_hit (Hashes [[x01]; [x02]; [x03]]) 6 [7] p
    (mkSpec (MambaSpec "align" 0) 2 false) false 4 1 1 = Ret cs ∧
  hash p 1%nat = Some (group_key [x01] 7).
Proof.
  destruct cached_demo_exists as [p H].
  destruct (mamba_hit_rightmost p [] [3]%nat [] [7] (Hashes [[x01]; [x02]; [x03]]) 6
    (mkSpec (MambaSpec "align" 0) 2 false) false 4 "align" 0 (cd_inv _ H)) as (cs & ts & Hr & _);
    [repeat constructor; lia|done|done|simpl; lia|lia|lia| |].
  - intros j Hj. change (j < 3)%nat in Hj. destruct j as [|[|[|j]]]; [by eexists..|lia].
  - exists p, cs. split; [exact Hr|exact (cd_hash1 _ H)].
Defined.

Lemma swa_mask_reachable_witness :
  swa_reachable_block_mask 0 8 (4 * 2) (mkSpec (SlidingWindowSpec 3) 2 true) true
    = Ret (Some [false; false; false; true; true; false; false; true]) ∧
  ∃ o, swa_reachable_block_mask 0 8 (4 * 2) (mkSpec (SlidingWindowSpec 3) 2 true) true = Ret o.
Proof.
  split; [vm_compute; done|].
  destruct (swa_mask_reachable (mkSpec (SlidingWindowSpec 3) 2 true) 3 0 8 4 true) as (o & Hr & _);
    [done|simpl; lia..|]. by exists o.
Defined.

Lemma swa_eagle_segment_lost_witness : ∃ p cs,
  swa_find_longest_cache_hit (Hashes [[x01]; [x02]; [x01]]) 6 [7] p
    (mkSpec (SlidingWindowSpec 20) 2 true) true 4 1 1 = Ret cs ∧ length (concat cs) = 0%nat.
Proof.
  destruct cached_demo_exists as [p H].
  assert (Hb : 1%nat ∈ blocks p ∧ 2%nat ∈ blocks p) by (rewrite (cd_blocks _ H), !elem_of_cons; lia).
  destruct (swa_eagle_segment_lost p [] [3]%nat [] [7] (Hashes [[x01]; [x02]; [x01]]) 6
    (mkSpec (SlidingWindowSpec 20) 2 true) 20 2 1 (cd_inv _ H)) as (cs & ts & Hr & Hh & Hl);
    [repeat constructor; lia|done|done|simpl; lia|lia|lia|lia| |vm_compute; lia|vm_compute; done| |].
  - intros j Hj. change (j < 3)%nat in Hj. destruct j as [|[|[|j]]]; [by eexists..|lia].
  - intros j Hj. change (j < 3)%nat in Hj. split; [done|]. intros _.
    destruct j as [|[|[|j]]]; [..|lia]; (eexists; split; [done|]); intros g ->%list_elem_of_singleton.
    + exists 1%nat. split; [apply Hb|exact (cd_hash1 _ H)].
    + exists 2%nat. split; [apply Hb|exact (cd_hash2 _ H)].
    + exists 1%nat. split; [apply Hb|exact (cd_hash1 _ H)].
  - exists p, cs. split; [exact Hr|]. change ((1 - 1) * 2)%nat with 0%nat in Hl.
    destruct ts; [|done]. unfold hits in Hh.
    apply Forall2_cons_inv_l in Hh as (c & cs' & Hc & Hcs & ->). apply Forall2_nil_inv_l in Hc as ->.
    by apply Forall2_nil_inv_l in Hcs as ->.
Defined.
