(* ===== verification/SingleTypeSpec.v ===== *)
(** * Reference conservation of a manager

    Every reference a manager takes on a block is an entry of one of its request
    tables: an operation changes the reference count of a block by exactly the
    change in the number of table entries that name it, also when it raises. *)

From Stdlib Require Import Strings.Byte.
From S2P Require Import Prelude.
From S2P Require Import FreeQueue.
From S2P Require Import Request.
From S2P Require Import BlockHash.
From S2P Require Import BlockHashSpec.
From S2P Require Import BlockPool.
From S2P Require Import BlockPoolInv.
From S2P Require Import BlockPoolSpec.
From S2P Require Import BlockPoolOps.
From S2P Require Import BlockPoolProps.
From S2P Require Import PoolTheorems.
From S2P Require Import KVCacheSpec.
From S2P Require Import SingleType.
Local Open Scope Z_scope.

(** ** Table entries naming a block *)

Definition entries (T : gmap string (list loc)) (b : loc) : Z :=
  map_fold (λ _ l acc, count b l + acc) 0 T.

Lemma entries_empty b : entries ∅ b = 0.
Proof. apply map_fold_empty. Qed.

Lemma entries_insert_new T rid l b :
  T !! rid = None → entries (<[rid := l]> T) b = count b l + entries T b.
Proof. intros H. unfold entries. rewrite map_fold_insert_L; [done| |done]. intros. lia. Qed.

Lemma entries_delete T rid b :
  entries (delete rid T) b = entries T b - count b (default [] (T !! rid)).
Proof.
  destruct (T !! rid) as [l|] eqn:E; simpl.
  - assert (Hd := entries_insert_new (delete rid T) rid l b (lookup_delete_eq _ _)).
    rewrite insert_delete_id in Hd by done. lia.
  - rewrite delete_id by done. unfold count. simpl. lia.
Qed.

Lemma entries_insert T rid l b :
  entries (<[rid := l]> T) b = entries T b + count b l - count b (default [] (T !! rid)).
Proof.
  rewrite <-insert_delete_eq, entries_insert_new by apply lookup_delete_eq.
  rewrite entries_delete. lia.
Qed.

Lemma entries_nonneg T b : 0 ≤ entries T b.
Proof.
  unfold entries. apply (map_fold_weak_ind (λ r _, 0 ≤ r)); [done|].
  intros i l m r _ Hr. pose proof (count_nonneg b l). lia.
Qed.

Lemma entries_ge T rid b : count b (default [] (T !! rid)) ≤ entries T b.
Proof. pose proof (entries_delete T rid b). pose proof (entries_nonneg (delete rid T) b). lia. Qed.

Lemma count_app x l l' : count x (l ++ l') = count x l + count x l'.
Proof. unfold count. rewrite count_occ_app. lia. Qed.

Lemma count_rev x l : count x (rev l) = count x l.
Proof.
  induction l as [|y l IH]; [done|]. simpl. rewrite count_app, IH.
  unfold count. simpl. destruct (Nat.eq_dec y x); lia.
Qed.

Lemma count_in x l : x ∈ l → NoDup l → count x l = 1.
Proof.
  intros Hx Hnd. unfold count. rewrite (proj1 (NoDup_count_occ' Nat.eq_dec l)); [done| |];
    [by apply NoDup_ListNoDup|by apply list_elem_of_In].
Qed.

Lemma count_filter x (P : loc → Prop) `{∀ y, Decision (P y)} l : P x → count x (filter P l) = count x l.
Proof.
  intros HP. induction l as [|y l IH]; [done|]. rewrite filter_cons. unfold count in *.
  case_decide; simpl; destruct (Nat.eq_dec y x); subst; try lia. done.
Qed.

Lemma count_replicate x y n : x ≠ y → count x (replicate n y) = 0.
Proof. intros Hxy. apply count_not_in. intros [-> _]%elem_of_replicate. done. Qed.

(** ** The invariant *)

(** A table names blocks of the pool, each non-null one at most once. *)
Definition table_ok (p : BlockPool) (l : list loc) : Prop :=
  (∀ b, b ∈ l → b ∈ blocks p) ∧ NoDup (filter (.≠ null_block p) l).

Abbreviation owned m b := (entries (req_to_blocks m) b).

Record mgr_inv (s : mstate) : Prop := {
  mi_pool : ∃ st hi, pool_inv (block_pool s) st hi [];
  mi_null : _null_block (mgr s) = null_block (block_pool s);
  mi_tables : ∀ rid l, req_to_blocks (mgr s) !! rid = Some l → table_ok (block_pool s) l;
  mi_owned : ∀ b, b ∈ blocks (block_pool s) → b ≠ null_block (block_pool s) →
    owned (mgr s) b ≤ ref (block_pool s) b;
  mi_spec : 0 ≤ Mamba.num_speculative_blocks (mgr s);
  mi_allocated : ∀ rid, rid ∈ _allocated_block_reqs (mgr s) →
    1 + Mamba.num_speculative_blocks (mgr s) ≤ zlen (req_blocks (mgr s) rid);
  mi_last : ∀ rid i, i ∈ default [] (last_state_block_idx (mgr s) !! rid) →
    0 ≤ i < zlen (req_blocks (mgr s) rid);
  mi_align : Mamba.is_align (mgr s) = false →
    _allocated_block_reqs (mgr s) = ∅ ∧ last_state_block_idx (mgr s) = ∅;
}.

(** References held outside the manager are unchanged. *)
Record conserves (s s' : mstate) : Prop := {
  co_pool : same_pool (block_pool s) (block_pool s');
  co_args : mgr_args (mgr s') = mgr_args (mgr s);
  co_refs : ∀ b, b ∈ blocks (block_pool s) → b ≠ null_block (block_pool s) →
    ref (block_pool s') b - owned (mgr s') b = ref (block_pool s) b - owned (mgr s) b;
}.

Definition good (s s' : mstate) : Prop := mgr_inv s' ∧ conserves s s'.

#[export] Instance conserves_preorder : PreOrder conserves.
Proof.
  split.
  - intros s. by split.
  - intros s1 s2 s3 [P1 A1 R1] [P2 A2 R2]. split; [by etransitivity|congruence|].
    intros b Hb Hn. rewrite <-R1 by done. apply R2; destruct P1 as (_&_&_&Eb&En&_); congruence.
Qed.

Lemma good_refl s : mgr_inv s → good s s.
Proof. by split. Qed.

Lemma good_trans s1 s2 s3 : good s1 s2 → good s2 s3 → good s1 s3.
Proof. intros [_ C1] [I2 C2]. split; [done|by etransitivity]. Qed.

Lemma same_pool_blocks p p' : same_pool p p' → blocks p' = blocks p ∧ null_block p' = null_block p.
Proof. intros (_ & _ & _ & ? & ? & _). done. Qed.

Lemma table_ok_same p p' l : same_pool p p' → table_ok p l → table_ok p' l.
Proof. intros [Eb En]%same_pool_blocks. unfold table_ok. by rewrite Eb, En. Qed.

Lemma table_ok_nil p : table_ok p [].
Proof. split; [by intros b ?%not_elem_of_nil|constructor]. Qed.

Lemma req_blocks_ok s rid : mgr_inv s → table_ok (block_pool s) (req_blocks (mgr s) rid).
Proof.
  intros Hi. unfold req_blocks. destruct (_ !! _) eqn:E; [by eapply mi_tables|apply table_ok_nil].
Qed.

(** A change of one table, with the references it needs. *)
Record table_step (s s' : mstate) (rid : string) (l' : list loc) : Prop := {
  ts_pool : ∃ st hi, pool_inv (block_pool s') st hi [];
  ts_same : same_pool (block_pool s) (block_pool s');
  ts_args : mgr_args (mgr s') = mgr_args (mgr s);
  ts_map : req_to_blocks (mgr s') = <[rid := l']> (req_to_blocks (mgr s)) ∨
    l' = [] ∧ req_to_blocks (mgr s') = delete rid (req_to_blocks (mgr s));
  ts_table : table_ok (block_pool s) l';
  ts_refs : ∀ b, b ∈ blocks (block_pool s) → b ≠ null_block (block_pool s) →
    ref (block_pool s') b =
      ref (block_pool s) b + count b l' - count b (req_blocks (mgr s) rid);
  ts_allocated : ∀ r, r ∈ _allocated_block_reqs (mgr s') →
    r ∈ _allocated_block_reqs (mgr s) ∨
    r = rid ∧ 1 + Mamba.num_speculative_blocks (mgr s) ≤ zlen l';
  ts_last : ∀ r i, i ∈ default [] (last_state_block_idx (mgr s') !! r) →
    i ∈ default [] (last_state_block_idx (mgr s) !! r) ∨ r = rid ∧ 0 ≤ i < zlen l';
  ts_len : (∀ r, r = rid → (r ∉ _allocated_block_reqs (mgr s')) ∧
      default [] (last_state_block_idx (mgr s') !! r) = []) ∨
    zlen (req_blocks (mgr s) rid) ≤ zlen l';
  ts_align : Mamba.is_align (mgr s) = false →
    _allocated_block_reqs (mgr s') = _allocated_block_reqs (mgr s) ∧
    last_state_block_idx (mgr s') = last_state_block_idx (mgr s);
}.

Lemma table_step_good s s' rid l' : mgr_inv s → table_step s s' rid l' → good s s'.
Proof.
  intros Hi Hs. destruct Hs as [Hp Hsame Hargs Hmap Ht Hr Ha Hl Hlen Hal].
  pose proof (same_pool_blocks _ _ Hsame) as [Eb En].
  assert (Hent : ∀ b, owned (mgr s') b = owned (mgr s) b + count b l' - count b (req_blocks (mgr s) rid)).
  { intros b. destruct Hmap as [->|[-> ->]]; [by rewrite entries_insert|].
    rewrite entries_delete. change (count b []) with 0. unfold req_blocks. lia. }
  assert (Hreq : ∀ r, req_blocks (mgr s') r = if decide (r = rid) then l' else req_blocks (mgr s) r).
  { intros r. unfold req_blocks. destruct Hmap as [->|[-> ->]]; case_decide; subst;
      rewrite ?lookup_insert_eq, ?lookup_delete_eq, ?lookup_insert_ne, ?lookup_delete_ne by done; done. }
  assert (Hspec : Mamba.num_speculative_blocks (mgr s') = Mamba.num_speculative_blocks (mgr s))
    by (unfold Mamba.num_speculative_blocks; by rewrite Hargs).
  split; [split|split]; try done.
  - rewrite Hargs, En. by apply Hi.
  - intros r l E. assert (Hrl : req_blocks (mgr s') r = l) by (unfold req_blocks; by rewrite E).
    rewrite Hreq in Hrl. subst l. apply (table_ok_same _ _ _ Hsame). case_decide; [done|].
    by apply req_blocks_ok.
  - intros b Hb Hn. rewrite Eb in Hb. rewrite En in Hn. rewrite Hent, Hr by done.
    pose proof (mi_owned _ Hi b Hb Hn). lia.
  - rewrite Hspec. apply Hi.
  - intros r Hin. rewrite Hspec, Hreq. destruct (Ha r Hin) as [Hold|[-> ?]]; [|by rewrite decide_True].
    pose proof (mi_allocated _ Hi r Hold). case_decide; [|done]. subst r.
    destruct Hlen as [Hno|?]; [|lia]. by destruct (Hno rid eq_refl) as [? _].
  - intros r i Hin. rewrite Hreq. destruct (Hl r i Hin) as [Hold|[-> ?]]; [|by rewrite decide_True].
    pose proof (mi_last _ Hi r i Hold). case_decide; [|done]. subst r.
    destruct Hlen as [Hno|?]; [|lia]. destruct (Hno rid eq_refl) as [_ E]. rewrite E in Hin.
    by apply not_elem_of_nil in Hin.
  - intros Hna. assert (Hna' : Mamba.is_align (mgr s) = false)
      by (unfold Mamba.is_align in *; by rewrite Hargs in Hna).
    destruct (Hal Hna') as [-> ->]. by apply Hi.
  - intros b Hb Hn. rewrite Hent, Hr by done. lia.
Qed.

(** Field writes that touch neither tables nor Mamba bookkeeping. *)
Lemma good_fields s m' :
  mgr_inv s → mgr_args m' = mgr_args (mgr s) → req_to_blocks m' = req_to_blocks (mgr s) →
  _allocated_block_reqs m' = _allocated_block_reqs (mgr s) →
  last_state_block_idx m' = last_state_block_idx (mgr s) →
  good s (MState m' (block_pool s)).
Proof.
  intros Hi Ea Er El Es. unfold good. split; [|split; simpl; [reflexivity|done|by rewrite Er]].
  destruct Hi. unfold Mamba.num_speculative_blocks, Mamba.is_align, req_blocks in *.
  split; simpl; unfold Mamba.num_speculative_blocks, Mamba.is_align, req_blocks in *; rewrite ?Ea, ?Er, ?El, ?Es; done.
Qed.

(** ** Table access *)

Definition put_table (s : mstate) (rid : string) (l : list loc) : mstate :=
  MState (set_req_to_blocks (<[rid := l]> (req_to_blocks (mgr s))) (mgr s)) (block_pool s).

Lemma get_req_blocks_eq s rid :
  get_req_blocks rid s = (Ret (req_blocks (mgr s) rid), put_table s rid (req_blocks (mgr s) rid)).
Proof.
  unfold get_req_blocks, get, mbind, M_bind, req_blocks, put_table. cbn beta iota zeta.
  destruct (req_to_blocks (mgr s) !! rid) as [l|] eqn:E; simpl.
  - rewrite insert_id by done. by destruct s as [[]].
  - done.
Qed.

Lemma wpe_get_req_blocks s rid (Q : list loc → mstate → Prop) E :
  Q (req_blocks (mgr s) rid) (put_table s rid (req_blocks (mgr s) rid)) →
  wpe (get_req_blocks rid) s Q E.
Proof. unfold wpe. by rewrite get_req_blocks_eq. Qed.

Lemma req_blocks_put s rid l r :
  req_blocks (mgr (put_table s rid l)) r = if decide (r = rid) then l else req_blocks (mgr s) r.
Proof.
  unfold req_blocks, put_table. simpl. case_decide; subst;
    by rewrite ?lookup_insert_eq, ?lookup_insert_ne by done.
Qed.

Lemma req_blocks_put_eq s rid l : req_blocks (mgr (put_table s rid l)) rid = l.
Proof. rewrite req_blocks_put. by rewrite decide_True. Qed.

Lemma put_put s rid l l' : put_table (put_table s rid l) rid l' = put_table s rid l'.
Proof. unfold put_table. simpl. by rewrite insert_insert_eq. Qed.

(** Replacing a table by one that names the same blocks. *)
Lemma put_same_good s rid l' :
  mgr_inv s → table_ok (block_pool s) l' →
  zlen (req_blocks (mgr s) rid) ≤ zlen l' →
  (∀ b, b ≠ null_block (block_pool s) → count b l' = count b (req_blocks (mgr s) rid)) →
  good s (put_table s rid l').
Proof.
  intros Hi Ht Hlen Hc. apply (table_step_good s _ rid l' Hi).
  split; simpl; [apply Hi|reflexivity|done|by left|done| |auto|auto|by right|done].
  intros b Hb Hn. rewrite Hc by done. lia.
Qed.

Lemma get_table_good s rid : mgr_inv s → good s (put_table s rid (req_blocks (mgr s) rid)).
Proof. intros Hi. apply put_same_good; [done|by apply req_blocks_ok|lia|done]. Qed.

(** ** Taking blocks from the pool *)

(** Unreferenced blocks of the pool. *)
Definition fresh (p : BlockPool) (bs : list loc) : Prop :=
  NoDup bs ∧ ∀ b, b ∈ bs → b ∈ blocks p ∧ b ≠ null_block p ∧ ref p b = 0.

Lemma fresh_take p st hi D l n :
  pool_inv p st hi D → (∀ b, b ∈ l → b ∈ st ++ hi ++ D) → NoDup l → fresh p (take n l).
Proof.
  intros Hi Hl Hnd. rewrite <-(take_drop n l) in Hnd. split; [by apply NoDup_app in Hnd as [? _]|].
  intros b Hb. apply (pi_free _ _ _ _ Hi), Hl. by eapply subseteq_take.
Qed.

(** The free blocks of the pool, and the pools with one free queue. *)
Abbreviation free_count p := (Pool.get_num_free_blocks p None).
Definition is_single (p : BlockPool) : Prop :=
  match free_block_queue p with Single _ => True | Partitioned _ _ _ _ => False end.

Lemma is_single_same p p' : same_pool p p' → is_single p → is_single p'.
Proof.
  intros (_ & _ & _ & _ & _ & _ & Hq). unfold is_single.
  by destruct (free_block_queue p), (free_block_queue p').
Qed.

Lemma free_count_spec p st hi D : pool_inv p st hi D → free_count p = zlen (st ++ hi).
Proof.
  intros Hi. rewrite (get_num_free_blocks_spec p st hi D None Hi). unfold alloc_part.
  pose proof (pi_queue _ _ _ _ Hi) as Hq. destruct (free_block_queue p); [|done].
  simpl in Hq. by destruct Hq as [-> _].
Qed.

Lemma get_new_blocks_total use_int p st hi n gid :
  pool_inv p st hi [] → 0 ≤ n →
  wpe (Pool.get_new_blocks use_int n gid) p (λ ret p',
    zlen ret = n ∧ fresh p ret ∧ (∃ st' hi', pool_inv p' st' hi' []) ∧ same_pool p p' ∧
    (∀ b, ref p' b = ref p b + count b ret) ∧
    (∀ b, hash p' b = if decide (enable_caching p = true ∧ b ∈ ret) then None else hash p b) ∧
    free_count p' = free_count p - n)
    (λ _ p', p' = p ∧ (is_single p → free_count p < n)).
Proof.
  intros Hi Hn. destruct (alloc_part (free_block_queue p) gid) as [part|] eqn:Hp.
  2:{ destruct (alloc_part_none use_int p gid st hi Hi Hp n Hn) as [e He]. unfold wpe. rewrite He.
      split; [done|]. unfold is_single. unfold alloc_part in Hp. by destruct (free_block_queue p). }
  destruct (decide (n ≤ zlen (if part then st else hi))) as [Hle|Hgt].
  - apply wp_wpe. eapply wp_mono; [by apply (get_new_blocks_ok use_int p st hi n gid part); [| |lia]|].
    intros ret p' (Hret & Hi' & (Hs & Hr & Hh & _)).
    pose proof (pi_disj _ _ _ _ Hi) as Hnd. rewrite app_nil_r, NoDup_app in Hnd.
    assert (Hf : fresh p ret).
    { rewrite Hret. apply (fresh_take p st hi [] _ _ Hi); [|destruct part; tauto].
      intros b Hb. rewrite app_nil_r. apply elem_of_app. destruct part; auto. }
    split; [rewrite Hret; unfold zlen in *; rewrite length_take; destruct part; lia|].
    split; [done|]. split; [by eexists _, _|]. split; [done|]. split; [|split; [done|]].
    2:{ rewrite (free_count_spec _ _ _ _ Hi'), (free_count_spec _ _ _ _ Hi), !zlen_app.
        unfold zlen in *. destruct part; rewrite length_drop; lia. }
    intros b. rewrite Hr. destruct (decide (b ∈ ret)) as [Hb|Hb].
    + destruct Hf as [Hndr Hf]. rewrite count_in by done. destruct (Hf b Hb) as (_ & _ & Hz). lia.
    + rewrite count_not_in by done. lia.
  - unfold wpe, Pool.get_new_blocks, get, mbind, M_bind.
    rewrite (get_num_free_blocks_spec p st hi [] gid Hi), Hp.
    rewrite (proj2 (Z.ltb_lt _ n)) by (destruct part; lia). split; [done|].
    intros Hs. rewrite (free_count_spec _ _ _ _ Hi), zlen_app.
    pose proof (pi_queue _ _ _ _ Hi) as Hq. unfold is_single, alloc_part in *.
    destruct (free_block_queue p); [|done]. destruct Hq as [-> _]. simplify_eq. rewrite zlen_nil. lia.
Qed.

Lemma not_in_table s rid b :
  mgr_inv s → b ∈ blocks (block_pool s) → b ≠ null_block (block_pool s) →
  ref (block_pool s) b = 0 → b ∉ req_blocks (mgr s) rid.
Proof.
  intros Hi Hb Hn H0 Hin. pose proof (mi_owned _ Hi b Hb Hn).
  pose proof (entries_ge (req_to_blocks (mgr s)) rid b) as Hge.
  change (default [] _) with (req_blocks (mgr s) rid) in Hge.
  apply list_elem_of_In, (count_occ_In Nat.eq_dec) in Hin. unfold count in *. lia.
Qed.

Lemma table_ok_app p l l' :
  table_ok p l → table_ok p l' → (∀ b, b ∈ l → b ≠ null_block p → b ∉ l') → table_ok p (l ++ l').
Proof.
  intros [H1 H2] [H3 H4] Hd. split; [set_solver|]. rewrite filter_app, NoDup_app.
  split; [done|]. split; [|done]. intros b Hb Hb'.
  apply list_elem_of_filter in Hb as [Hn Hb]. apply list_elem_of_filter in Hb' as [_ Hb'].
  by apply (Hd b).
Qed.

Lemma table_ok_fresh p l : fresh p l → table_ok p l.
Proof. intros [Hnd Hf]. split; [intros b Hb; by apply Hf|by apply NoDup_filter]. Qed.

Lemma table_ok_null p n : null_block p ∈ blocks p → table_ok p (replicate n (null_block p)).
Proof.
  intros Hn. split; [by intros b [-> _]%elem_of_replicate|].
  rewrite filter_false; [constructor|]. intros b [-> _]%elem_of_replicate. auto.
Qed.

Lemma null_in_blocks p st hi D : pool_inv p st hi D → null_block p ∈ blocks p.
Proof.
  intros Hi. rewrite (pi_null _ _ _ _ Hi), (pi_blocks _ _ _ _ Hi). pose proof (pi_pos _ _ _ _ Hi).
  apply elem_of_seq. lia.
Qed.

Lemma append_fresh_good s p' rid new :
  mgr_inv s → fresh (block_pool s) new → (∃ st hi, pool_inv p' st hi []) →
  same_pool (block_pool s) p' → (∀ b, ref p' b = ref (block_pool s) b + count b new) →
  good s (put_table (MState (mgr s) p') rid (req_blocks (mgr s) rid ++ new)).
Proof.
  intros Hi Hf Hp Hs Hr. apply (table_step_good s _ rid (req_blocks (mgr s) rid ++ new) Hi).
  split; simpl; [done|done|done|by left| | |auto|auto| |done].
  - apply table_ok_app; [by apply req_blocks_ok|by apply table_ok_fresh|].
    intros b Hb Hn Hbn. destruct Hf as [_ Hf]. destruct (Hf b Hbn) as (? & ? & ?).
    by apply (not_in_table s rid b).
  - intros b Hb Hn. rewrite Hr, count_app. lia.
  - right. rewrite zlen_app. pose proof (zlen_nonneg new). lia.
Qed.

Lemma alloc_wpe use_int s rid n gid :
  mgr_inv s → 0 ≤ n →
  wpe (on_pool (Pool.get_new_blocks use_int n gid)) s (λ bs s1,
    mgr s1 = mgr s ∧ zlen bs = n ∧ fresh (block_pool s) bs ∧
    good s (put_table s1 rid (req_blocks (mgr s) rid ++ bs)) ∧
    free_count (block_pool s1) = free_count (block_pool s) - n)
    (λ _ s1, s1 = s ∧ (is_single (block_pool s) → free_count (block_pool s) < n)).
Proof.
  intros Hi Hn. destruct (mi_pool _ Hi) as (st & hi & Hp). unfold on_pool. wpe_step.
  eapply wpe_mono; [by apply (get_new_blocks_total use_int _ st hi n gid)|..]; simpl.
  - intros bs p' (Hl & Hf & Hp' & Hs & Hr & _ & Hfc). split; [done|]. split; [done|]. split; [done|].
    split; [by apply append_fresh_good|done].
  - intros e p' [-> Hsh]. split; [by destruct s|done].
Qed.

(** ** Giving blocks back *)

Lemma nodup_filter_count (null : loc) l :
  NoDup (filter (.≠ null) l) ↔ ∀ b, b ≠ null → count b l ≤ 1.
Proof.
  split.
  - intros Hnd b Hb. rewrite <-(count_filter b (.≠ null)) by done.
    destruct (decide (b ∈ filter (.≠ null) l)) as [Hin|Hin].
    + rewrite count_in by done. lia.
    + rewrite count_not_in by done. lia.
  - intros Hc. apply NoDup_ListNoDup, (NoDup_count_occ Nat.eq_dec). intros b.
    destruct (decide (b = null)) as [->|Hb].
    + rewrite (proj1 (count_occ_not_In Nat.eq_dec _ _)); [lia|].
      rewrite <-list_elem_of_In, list_elem_of_filter. by intros [? _].
    + specialize (Hc b Hb). rewrite <-(count_filter b (.≠ null)) in Hc by done. unfold count in Hc. lia.
Qed.

Lemma count_pos b l : b ∈ l ↔ 1 ≤ count b l.
Proof.
  rewrite list_elem_of_In, (count_occ_In Nat.eq_dec). unfold count. lia.
Qed.

Lemma free_blocks_total p bs reuse_first :
  (∃ st hi, pool_inv p st hi []) → table_ok p bs →
  (∀ b, b ∈ bs → b ≠ null_block p → 0 < ref p b) →
  wp (Pool.free_blocks bs reuse_first) p (λ _ p',
    (∃ st hi, pool_inv p' st hi []) ∧ same_pool p p' ∧
    (∀ b, ref p' b = ref p b - count b bs) ∧ ∀ b, hash p' b = hash p b).
Proof.
  intros (st & hi & Hi) [Hb Hnd] Hr. eapply wp_mono; [apply (free_blocks_ok p st hi bs reuse_first Hi)|].
  - split; [done|]. intros b Hin. auto.
  - intros [] p' [Hi' (Hs & Hr' & Hh & _)]. split; [by eexists _, _|]. done.
Qed.

(** [l] is a part of the table of [rid], so its references can be given up. *)
Lemma part_of_table s rid l :
  mgr_inv s → (∀ b, b ∈ l → b ∈ req_blocks (mgr s) rid) →
  (∀ b, b ≠ null_block (block_pool s) → count b l ≤ count b (req_blocks (mgr s) rid)) →
  table_ok (block_pool s) l ∧
  ∀ b, b ∈ l → b ≠ null_block (block_pool s) → 0 < ref (block_pool s) b.
Proof.
  intros Hi Hin Hc. destruct (req_blocks_ok s rid Hi) as [Hb Hnd]. rewrite nodup_filter_count in Hnd.
  split; [split|].
  - auto.
  - apply nodup_filter_count. intros b Hn. specialize (Hc b Hn). specialize (Hnd b Hn). lia.
  - intros b Hbl Hn. pose proof (mi_owned _ Hi b (Hb b (Hin b Hbl)) Hn).
    pose proof (entries_ge (req_to_blocks (mgr s)) rid b) as Hge.
    change (default [] _) with (req_blocks (mgr s) rid) in Hge. apply Hin, count_pos in Hbl. lia.
Qed.

Lemma Base_free_good s rid :
  mgr_inv s → rid ∉ _allocated_block_reqs (mgr s) →
  default [] (last_state_block_idx (mgr s) !! rid) = [] →
  wp (Base.free rid) s (λ _ s', good s s' ∧ req_blocks (mgr s') rid = [] ∧
    req_to_blocks (mgr s') = delete rid (req_to_blocks (mgr s)) ∧
    num_cached_block (mgr s') = delete rid (num_cached_block (mgr s))).
Proof.
  intros Hi Ha Hl. unfold Base.free. wp_step. wp_step. cbv zeta. wp_step. unfold upd_mgr. wp_step.
  wp_step. unfold on_pool. wp_step. cbn [block_pool].
  destruct (part_of_table s rid (rev (req_blocks (mgr s) rid)) Hi) as [Ht Hr].
  { intros b. rewrite !list_elem_of_In. apply in_rev. }
  { intros b _. by rewrite count_rev. }
  eapply wp_mono; [apply (free_blocks_total _ _ false (mi_pool _ Hi) Ht Hr)|].
  intros [] p' (Hp & Hs & Hr' & _). apply wp_modify. cbn [mgr block_pool].
  split; [|split; [unfold req_blocks; simpl; by rewrite lookup_delete_eq|done]].
  apply (table_step_good s _ rid [] Hi). split; simpl; [done|done|done|by right|apply table_ok_nil| |auto|auto| |done].
  - intros b Hb Hn. rewrite Hr', count_rev. change (count b []) with 0. lia.
  - left. intros r ->. done.
Qed.

(** ** The loop of [_remove_blocks_in_range] *)

Lemma py_set_ok {A} (l : list A) i x :
  0 ≤ i < zlen l → py_set l i x = Some (<[Z.to_nat i := x]> l).
Proof.
  intros Hi. unfold py_set. rewrite (proj2 (Z.ltb_ge i 0)) by lia.
  rewrite (proj2 (Z.leb_le 0 i)), (proj2 (Z.ltb_lt i (zlen l))) by lia. done.
Qed.

Lemma count_insert b l i x y :
  l !! i = Some y → count b (<[i := x]> l) = count b l + count b [x] - count b [y].
Proof.
  intros Hy. rewrite insert_take_drop by by eapply lookup_lt_Some.
  rewrite <-(take_drop_middle l i y Hy) at 3. 
  change (x :: drop (S i) l) with ([x] ++ drop (S i) l).
  change (y :: drop (S i) l) with ([y] ++ drop (S i) l). rewrite !count_app. lia.
Qed.

Lemma count_one_ne b x : b ≠ x → count b [x] = 0.
Proof. intros Hb. apply count_not_in. by rewrite list_elem_of_singleton. Qed.

Lemma remove_loop_counts null hold indices : ∀ blocks freed replay,
  Forall (λ i, 0 ≤ i < zlen blocks) indices →
  ∃ blocks' freed' replay',
    Base.remove_loop null hold indices blocks freed replay = Some (blocks', freed', replay') ∧
    length blocks' = length blocks ∧
    (∀ b, b ∈ blocks' → b = null ∨ b ∈ blocks) ∧
    (∀ b, b ∈ freed' → b ∈ freed ∨ b ≠ null ∧ b ∈ blocks) ∧
    (∀ b, b ∈ replay' → b ∈ replay ∨ b ≠ null ∧ b ∈ blocks) ∧
    ∀ b, b ≠ null → count b blocks' + count b freed' + count b replay' =
                    count b blocks + count b freed + count b replay.
Proof.
  induction indices as [|i indices IH]; intros blocks freed replay Hall; simpl.
  { eexists _, _, _. split; [done|]. split; [done|]. split; [tauto|]. split; [tauto|]. split; [tauto|done]. }
  apply Forall_cons in Hall as [Hi Hall]. rewrite py_get_nonneg by lia.
  destruct (lookup_lt_is_Some_2 blocks (Z.to_nat i)) as [x Hx]; [unfold zlen in Hi; lia|].
  rewrite Hx. simpl. case_decide as Hn.
  { eexists _, _, _. split; [done|]. split; [done|]. split; [tauto|]. split; [tauto|]. split; [tauto|done]. }
  rewrite py_set_ok by done. simpl. set (blocks1 := <[Z.to_nat i := null]> blocks).
  assert (Hall1 : Forall (λ i, 0 ≤ i < zlen blocks1) indices)
    by (unfold zlen, blocks1; rewrite length_insert; done).
  assert (Hc1 : ∀ b, b ≠ null → count b blocks1 = count b blocks - count b [x]).
  { intros b Hb. unfold blocks1. rewrite (count_insert _ _ _ _ x) by done.
    rewrite (count_one_ne b null) by done. lia. }
  assert (Hin1 : ∀ b, b ∈ blocks1 → b = null ∨ b ∈ blocks).
  { intros b [j Hj]%list_elem_of_lookup. unfold blocks1 in Hj.
    apply list_lookup_insert_Some in Hj as [(_ & <- & _)|[_ Hj]]; [by left|right].
    by eapply list_elem_of_lookup_2. }
  assert (Hxb : x ∈ blocks) by by eapply list_elem_of_lookup_2.
  assert (Hl1 : length blocks1 = length blocks) by apply length_insert.
  assert (Hc2 : ∀ b l, count b (l ++ [x]) = count b l + count b [x]) by (intros; apply count_app).
  assert (Hsnoc : ∀ b l, b ∈ l ++ [x] → b ∈ l ∨ b ≠ null ∧ b ∈ blocks).
  { intros b l [?|Hb%list_elem_of_singleton]%elem_of_app; [by left|subst; by right]. }
  assert (Hup : ∀ b (l : list loc), b ∈ l ∨ b ≠ null ∧ b ∈ blocks1 → b ∈ l ∨ b ≠ null ∧ b ∈ blocks).
  { intros b l [?|[Hn' Hb]]; [by left|right]. split; [done|]. by destruct (Hin1 b Hb). }
  assert (Hup2 : ∀ b (l : list loc), b ∈ l ++ [x] ∨ b ≠ null ∧ b ∈ blocks1 → b ∈ l ∨ b ≠ null ∧ b ∈ blocks).
  { intros b l [Hb|Hb]%Hup; [by apply Hsnoc|by right]. }
  assert (Hin2 : ∀ b, b = null ∨ b ∈ blocks1 → b = null ∨ b ∈ blocks) by (intros b [?|?]; auto).
  destruct (match hold with Some (a, z) => (a <=? i) && (i <? z) | None => false end).
  - destruct (IH blocks1 freed (replay ++ [x]) Hall1) as (bl & fr & re & -> & H1 & H2 & H3 & H4 & H5).
    exists bl, fr, re. split; [done|]. split; [congruence|]. split; [auto|].
    split; [auto|]. split; [auto|]. intros b Hb. rewrite H5, Hc1, Hc2 by done. lia.
  - destruct (IH blocks1 (freed ++ [x]) replay Hall1) as (bl & fr & re & -> & H1 & H2 & H3 & H4 & H5).
    exists bl, fr, re. split; [done|]. split; [congruence|]. split; [auto|].
    split; [auto|]. split; [auto|]. intros b Hb. rewrite H5, Hc1, Hc2 by done. lia.
Qed.

(** The table of [rid] becomes [l'] after the lists [freed] and [replay] are
    given up. *)
Lemma give_up_good s rid l' freed replay reuse_first :
  mgr_inv s → (∀ b, b ∈ l' → b = null_block (block_pool s) ∨ b ∈ req_blocks (mgr s) rid) →
  zlen (req_blocks (mgr s) rid) ≤ zlen l' →
  (∀ b, b ∈ freed ++ replay → b ∈ req_blocks (mgr s) rid) →
  (∀ b, b ≠ null_block (block_pool s) →
    count b l' + count b freed + count b replay = count b (req_blocks (mgr s) rid)) →
  wp (when (0 <? zlen freed) (on_pool (Pool.free_blocks freed reuse_first)) ;;
      when (0 <? zlen replay) (on_pool (Pool.free_blocks replay false)))
    (put_table s rid l') (λ _ s', good s s' ∧ mgr s' = mgr (put_table s rid l') ∧
      ∀ b, hash (block_pool s') b = hash (block_pool s) b).
Proof.
  intros Hi Hl Hlen Hin Hc. set (p := block_pool s) in *.
  assert (Hpart : ∀ l1 l2, (∀ b, b ∈ l1 → b ∈ freed ++ replay) →
    (∀ b, b ≠ null_block p → count b l1 + count b l2 ≤ count b freed + count b replay) →
    table_ok p l1 ∧ ∀ b, b ∈ l1 → b ≠ null_block p → count b l1 + count b l2 ≤ ref p b ∧ b ∈ blocks p).
  { intros l1 l2 H1 H2. destruct (part_of_table s rid l1 Hi) as [Ht _]; [auto| |].
    - intros b Hb. specialize (Hc b Hb). specialize (H2 b Hb). pose proof (count_nonneg b l').
      pose proof (count_nonneg b l2). lia.
    - split; [done|]. intros b Hb Hn. pose proof (proj1 Ht b Hb) as Hbb. split; [|done].
      pose proof (mi_owned _ Hi b Hbb Hn). pose proof (entries_ge (req_to_blocks (mgr s)) rid b) as Hge.
      change (default [] _) with (req_blocks (mgr s) rid) in Hge. specialize (Hc b Hn). specialize (H2 b Hn).
      pose proof (count_nonneg b l'). unfold p. lia. }
  assert (Hstep : ∀ l rf q, table_ok q l → (∃ st hi, pool_inv q st hi []) →
    (∀ b, b ∈ l → b ≠ null_block q → 0 < ref q b) →
    wp (when (0 <? zlen l) (on_pool (Pool.free_blocks l rf))) (MState (mgr (put_table s rid l')) q) (λ _ s1,
      mgr s1 = mgr (put_table s rid l') ∧ (∃ st hi, pool_inv (block_pool s1) st hi []) ∧
      same_pool q (block_pool s1) ∧ (∀ b, ref (block_pool s1) b = ref q b - count b l) ∧
      ∀ b, hash (block_pool s1) b = hash q b)).
  { intros l rf q Ht Hq Hr. apply wp_when.
    - intros _. unfold on_pool. wp_step. eapply wp_mono; [by apply free_blocks_total|].
      intros [] q' (? & ? & ? & ?). done.
    - intros H0%Z.ltb_ge. assert (l = []) as -> by (destruct l; [done|rewrite zlen_cons in H0; pose proof (zlen_nonneg l); lia]).
      split; [done|]. split; [done|]. split; [reflexivity|]. split; [|done].
      intros b. cbn [block_pool]. change (count b []) with 0. lia. }
  destruct (Hpart freed replay) as [Htf Hrf]; [set_solver|done|].
  wp_step. eapply wp_mono.
  { apply (Hstep freed reuse_first p Htf (mi_pool _ Hi)). intros b Hb Hn. destruct (Hrf b Hb Hn).
    apply count_pos in Hb. pose proof (count_nonneg b replay). lia. }
  intros [] s1 (Em1 & Hp1 & Hs1 & Hr1 & Hh1).
  pose proof (same_pool_blocks _ _ Hs1) as [Eb1 En1].
  destruct (Hpart replay freed) as [Htr Hrr]; [set_solver|intros; lia|].
  assert (s1 = MState (mgr (put_table s rid l')) (block_pool s1)) as -> by (rewrite <-Em1; by destruct s1).
  eapply wp_mono.
  { apply Hstep; [by eapply table_ok_same|done|]. intros b Hb Hn. rewrite Hr1. rewrite En1 in Hn.
    destruct (Hrr b Hb Hn). apply count_pos in Hb. lia. }
  intros [] s2 (Em2 & Hp2 & Hs2 & Hr2 & Hh2). cbn [block_pool] in *.
  split; [|split; [done|intros b; by rewrite Hh2, Hh1]].
  apply (table_step_good s _ rid l' Hi). rewrite <-Em1 in Em2. split; rewrite ?Em2, ?Em1.
  - done.
  - by etransitivity.
  - done.
  - by left.
  - destruct (req_blocks_ok s rid Hi) as [Hb Hnd]. rewrite nodup_filter_count in Hnd. split.
    + intros b [->|Hb']%Hl; [|auto]. destruct (mi_pool _ Hi) as (st & hi & Hp). by eapply null_in_blocks.
    + apply nodup_filter_count. intros b Hn. specialize (Hc b Hn). specialize (Hnd b Hn).
      pose proof (count_nonneg b freed). pose proof (count_nonneg b replay). lia.
  - intros b Hb Hn. rewrite Hr2, Hr1. specialize (Hc b Hn). fold p. lia.
  - auto.
  - auto.
  - by right.
  - done.
Qed.

Lemma py_range_down_bounds a b i : i ∈ py_range_down a b → a ≤ i < b.
Proof.
  unfold py_range_down, py_range. rewrite list_elem_of_In, <-in_rev, <-list_elem_of_In, elem_of_seqZ. lia.
Qed.

Lemma remove_range_good s rid first last hold reuse_first :
  mgr_inv s → 0 ≤ first →
  wp (Base._remove_blocks_in_range rid first last hold reuse_first) s (λ _ s',
    good s s' ∧ (∀ b, hash (block_pool s') b = hash (block_pool s) b) ∧
    ∃ l' freed replay, mgr s' = set_req_to_blocks (req_to_blocks (mgr s')) (mgr s) ∧
      (∀ r, r ≠ rid → req_blocks (mgr s') r = req_blocks (mgr s) r) ∧ req_blocks (mgr s') rid = l' ∧
      Base.remove_loop (null_block (block_pool s)) hold
        (py_range_down first (Z.min last (zlen (req_blocks (mgr s) rid))))
        (req_blocks (mgr s) rid) [] [] = Some (l', freed, replay)).
Proof.
  intros Hi Hf. unfold Base._remove_blocks_in_range. wp_steps. cbv zeta.
  assert (Hsame : ∀ m, set_req_to_blocks (req_to_blocks m) m = m) by by intros [].
  destruct (req_to_blocks (mgr s) !! rid) as [bl|] eqn:Ebl.
  2:{ wp_step. split; [by apply good_refl|]. split; [done|]. exists [], [], []. rewrite Hsame.
      unfold req_blocks. rewrite Ebl. split; [done|]. split; [done|]. split; [done|].
      unfold py_range_down, py_range. simpl. rewrite zlen_nil. unfold seqZ.
      replace (Z.to_nat (last `min` 0 - first)) with 0%nat by lia. done. }
  assert (Ereq : req_blocks (mgr s) rid = bl) by (unfold req_blocks; by rewrite Ebl).
  destruct (Z.leb_spec last first) as [Hle|Hlt].
  { wp_step. split; [by apply good_refl|]. split; [done|]. exists bl, [], []. rewrite Hsame, Ereq.
    split; [done|]. split; [done|]. split; [done|]. unfold py_range_down, py_range, seqZ.
    replace (Z.to_nat (last `min` zlen bl - first)) with 0%nat by lia. done. }
  rewrite (mi_null _ Hi). 
  destruct (remove_loop_counts (null_block (block_pool s)) hold
    (py_range_down first (Z.min last (zlen bl))) bl [] [])
    as (l' & freed & replay & E & Hl & H1 & H2 & H3 & H4).
  { apply Forall_forall. intros i Hin%py_range_down_bounds. lia. }
  rewrite E. wp_step. eapply wp_of_option; [done|]. cbn beta iota. wp_step.
  unfold put_req_blocks at 1, upd_mgr. wp_step. rewrite <-Ereq in *.
  eapply wp_mono.
  { apply (give_up_good s rid l' freed replay reuse_first Hi); [done|unfold zlen; lia| |].
    - intros b [Hb|Hb]%elem_of_app; [destruct (H2 b Hb) as [?%not_elem_of_nil|[_ ?]]|
        destruct (H3 b Hb) as [?%not_elem_of_nil|[_ ?]]]; done.
    - intros b Hb. specialize (H4 b Hb). change (count b []) with 0 in H4. lia. }
  intros [] s' (Hg & Em & Hh). split; [done|]. split; [done|]. exists l', freed, replay.
  rewrite Em. split; [done|]. split; [|split; [by apply req_blocks_put_eq|done]].
  intros r Hr. rewrite req_blocks_put. by rewrite decide_False.
Qed.
