(* ===== verification/SingleTypeOps.v ===== *)
(** * The operations of every manager class conserve references

    One lemma per operation: from a state satisfying [mgr_inv] the operation
    ends, normally or with an exception, in a state satisfying [mgr_inv] with
    all foreign references unchanged. *)

From Stdlib Require Import Strings.Byte.
From S2P Require Import Prelude.
From S2P Require Import FreeQueue.
From S2P Require Import Request.
From S2P Require Import BlockHash.
From S2P Require Import BlockHashSpec.
From S2P Require Import BlockPool.
From S2P Require Import BlockPoolInv.
From S2P Require Import BlockPoolSpec.
From S2P Require Import BlockPoolOps.
From S2P Require Import KVCacheSpec.
From S2P Require Import SingleType.
From S2P Require Import SingleTypeSpec.
Local Open Scope Z_scope.

(** ** Releasing *)

Lemma Base_remove_skipped_good s rid n np :
  mgr_inv s →
  wp (Base.remove_skipped_blocks rid n np) s (λ _ s', good s s' ∧
    (∀ b, hash (block_pool s') b = hash (block_pool s) b) ∧
    mgr s' = set_req_to_blocks (req_to_blocks (mgr s')) (mgr s)).
Proof.
  intros Hi. unfold Base.remove_skipped_blocks. wp_steps. cbv zeta. case_match.
  { wp_step. split; [by apply good_refl|]. split; [done|]. by destruct (mgr s). }
  case_match; (eapply wp_mono; [by apply remove_range_good|]);
    intros [] s' (Hg & Hh & l & fr & re & Hm & _); done.
Qed.

Lemma PrefixAnchored_remove_skipped_good w s rid n np :
  mgr_inv s → 0 < m_block_size (mgr s) → (∀ k, np = Some k → 0 ≤ k) →
  wp (PrefixAnchored.remove_skipped_blocks w rid n np) s (λ _ s', good s s').
Proof.
  intros Hi Hbs Hnp. unfold PrefixAnchored.remove_skipped_blocks. wp_steps. cbv zeta.
  destruct np as [k|].
  - eapply wp_mono; [apply remove_range_good; [done|by apply cdiv_nonneg; [|apply Hnp]]|].
    by intros [] s' [? _].
  - eapply wp_mono; [by apply Base_remove_skipped_good|]. by intros [] s' [? _].
Qed.

Lemma good_last s L :
  mgr_inv s → Mamba.is_align (mgr s) = true → (∀ r i, i ∈ default [] (L !! r) → i ∈ default [] (last_state_block_idx (mgr s) !! r)) →
  good s (MState (set_last_state L (mgr s)) (block_pool s)).
Proof.
  intros [] Hal HL. split; [|by split]. split; try done.
  - intros r i Hin. simpl in *. by apply mi_last, HL.
  - intros Hna. unfold Mamba.is_align in *. simpl in *. congruence.
Qed.

(** Freeing one block of a table and nulling its entry. *)
Lemma release_one_good s rid idx b :
  mgr_inv s → 0 ≤ idx → req_blocks (mgr s) rid !! Z.to_nat idx = Some b → b ≠ null_block (block_pool s) →
  wp (on_pool (Pool.free_blocks [b] false)) s (λ _ s1, mgr s1 = mgr s ∧
    good s (put_table s1 rid (<[Z.to_nat idx := null_block (block_pool s)]> (req_blocks (mgr s) rid)))).
Proof.
  intros Hi Hidx Hb Hn. set (l := req_blocks (mgr s) rid) in *.
  assert (Hbl : b ∈ l) by by eapply list_elem_of_lookup_2.
  destruct (part_of_table s rid [b] Hi) as [Ht Hr].
  { by intros x ->%list_elem_of_singleton. }
  { intros x _. destruct (decide (x = b)) as [->|Hx]; [|rewrite count_one_ne by done; apply count_nonneg].
    apply count_pos in Hbl. unfold count at 1. simpl. destruct (Nat.eq_dec b b); [|done]. fold l. lia. }
  unfold on_pool. wp_step. eapply wp_mono; [by apply free_blocks_total; [apply Hi| |]|].
  intros [] p' (Hp & Hs & Hr' & _). split; [done|].
  apply (table_step_good s _ rid (<[Z.to_nat idx := null_block (block_pool s)]> l) Hi).
  split; simpl; [done|done|done|by left| | |auto|auto|right; unfold zlen; by rewrite length_insert|done].
  - destruct (req_blocks_ok s rid Hi) as [Hb' Hnd]. rewrite nodup_filter_count in Hnd. split.
    + intros x [j Hj]%list_elem_of_lookup. apply list_lookup_insert_Some in Hj as [(_ & <- & _)|[_ Hj]].
      * destruct (mi_pool _ Hi) as (st & hi & Hp0). by eapply null_in_blocks.
      * apply Hb'. by eapply list_elem_of_lookup_2.
    + apply nodup_filter_count. intros x Hx. rewrite (count_insert _ _ _ _ b) by done.
      rewrite (count_one_ne x (null_block _)) by done. pose proof (count_nonneg x [b]).
      specialize (Hnd x Hx). unfold l. lia.
  - intros x Hxb Hx. rewrite Hr', (count_insert _ _ _ _ b) by done.
    rewrite (count_one_ne x (null_block _)) by done. unfold l. lia.
Qed.

Lemma release_loop_good rid rb pending : ∀ keep s,
  mgr_inv s → (∀ i, i ∈ pending → 0 ≤ i < zlen (req_blocks (mgr s) rid)) →
  wp (Mamba.release_loop rid rb pending keep) s (λ keep' s', good s s' ∧
    mgr s' = set_req_to_blocks (req_to_blocks (mgr s')) (mgr s) ∧
    ∀ i, i ∈ keep' → i ∈ keep ∨ i ∈ pending).
Proof.
  assert (Hsame : ∀ m, m = set_req_to_blocks (req_to_blocks m) m) by by intros [].
  induction pending as [|idx pending IH]; intros keep s Hi Hv; simpl.
  { wp_step. split; [by apply good_refl|]. split; [done|]. by left. }
  assert (Hidx := Hv idx ltac:(set_solver)).
  destruct (idx <? rb).
  2:{ eapply wp_mono; [apply IH; [done|intros; apply Hv; set_solver]|].
      intros keep' s' (Hg & Hm & Hk). split; [done|]. split; [done|]. set_solver. }
  wp_step. wp_step. cbv zeta. wp_step. rewrite py_get_nonneg by lia.
  destruct (lookup_lt_is_Some_2 (req_blocks (mgr s) rid) (Z.to_nat idx)) as [b Hb]; [unfold zlen in *; lia|].
  eapply wp_of_option; [exact Hb|]. wp_step. rewrite (mi_null _ Hi). case_decide as Hn.
  - wp_step. eapply wp_mono; [by apply (release_one_good s rid idx b); [|lia|..]|].
    intros [] s1 [Hm1 Hg1]. wp_step. eapply wp_of_option; [by apply py_set_ok|].
    unfold put_req_blocks, upd_mgr. wp_step.
    set (s2 := MState _ _). change s2 with (put_table s1 rid
      (<[Z.to_nat idx := null_block (block_pool s)]> (req_blocks (mgr s) rid))).
    assert (Hv2 : ∀ i, i ∈ pending → 0 ≤ i < zlen (req_blocks (mgr (put_table s1 rid
      (<[Z.to_nat idx := null_block (block_pool s)]> (req_blocks (mgr s) rid)))) rid)).
    { intros i Hin. rewrite req_blocks_put_eq. unfold zlen. rewrite length_insert. apply Hv. set_solver. }
    eapply wp_mono; [by apply IH; [apply Hg1|]|].
    intros keep' s' (Hg & Hm & Hk). split; [by eapply good_trans|]. split; [|set_solver].
    rewrite Hm. simpl. by rewrite Hm1.
  - wp_step. eapply wp_mono; [apply IH; [done|intros; apply Hv; set_solver]|].
    intros keep' s' (Hg & Hm & Hk). split; [done|]. split; [done|]. set_solver.
Qed.

Lemma Mamba_remove_skipped_good s rid n np :
  mgr_inv s →
  wpe (Mamba.remove_skipped_blocks rid n np) s (λ _ s', good s s') (λ _ s', good s s').
Proof.
  intros Hi. unfold Mamba.remove_skipped_blocks. wpe_steps.
  apply wpe_assert; [|intros _; by apply good_refl]. intros _. apply wp_wpe.
  wp_step. eapply wp_mono; [by apply Base_remove_skipped_good|].
  intros [] s1 (Hg1 & _ & Hm1). wp_steps. cbv zeta.
  apply wp_when; [|done]. intros Hal. apply wp_when; [|done]. intros _.
  wp_step. apply (wp_intro _ _ _ _ _ (get_req_blocks_eq s1 rid)).
  assert (Hg2 := get_table_good s1 rid (proj1 Hg1)).
  set (s2 := put_table s1 rid _) in *. wp_step.
  assert (Hlast : last_state_block_idx (mgr s2) = last_state_block_idx (mgr s1)) by done.
  eapply wp_mono.
  { apply release_loop_good; [apply Hg2|]. rewrite <-Hlast. apply (mi_last _ (proj1 Hg2)). }
  intros keep s3 (Hg3 & Hm3 & Hk). unfold upd_mgr. wp_step.
  eapply good_trans; [exact Hg1|]. eapply good_trans; [exact Hg2|]. eapply good_trans; [exact Hg3|].
  apply good_last; [apply Hg3|by rewrite Hm3|]. intros r i Hin.
  assert (Hl3 : last_state_block_idx (mgr s3) = last_state_block_idx (mgr s1)) by by rewrite Hm3.
  rewrite Hl3 in *. destruct (decide (r = rid)) as [->|Hr].
  - rewrite lookup_insert_eq in Hin. simpl in Hin. destruct (Hk i Hin) as [?%not_elem_of_nil|?]; done.
  - by rewrite lookup_insert_ne in Hin.
Qed.

Lemma good_forget s m' rid :
  mgr_inv s → Mamba.is_align (mgr s) = true →
  mgr_args m' = mgr_args (mgr s) → req_to_blocks m' = req_to_blocks (mgr s) →
  (∀ r, r ∈ _allocated_block_reqs m' → r ∈ _allocated_block_reqs (mgr s)) →
  last_state_block_idx m' = delete rid (last_state_block_idx (mgr s)) →
  good s (MState m' (block_pool s)).
Proof.
  intros Hi Hal Ea Er El Es. split; [|split; simpl; [reflexivity|done|by rewrite Er]].
  destruct Hi. split; simpl; unfold Mamba.num_speculative_blocks, Mamba.is_align, req_blocks in *;
    rewrite ?Ea, ?Er; try done.
  - auto.
  - rewrite Es. intros r i. destruct (decide (r = rid)) as [->|]; [rewrite lookup_delete_eq|
      by rewrite lookup_delete_ne; auto]. by intros ?%not_elem_of_nil.
  - rewrite Hal. done.
Qed.

Lemma free_good s rid :
  mgr_inv s → Mamba.is_align (mgr s) = false →
  wp (Base.free rid) s (λ _ s', good s s' ∧ req_blocks (mgr s') rid = []).
Proof.
  intros Hi Hal. destruct (mi_align _ Hi Hal) as [Ha Hl].
  eapply wp_mono; [apply Base_free_good; [done|rewrite Ha; set_solver|by rewrite Hl]|].
  intros [] s' (Hg & Hr & _). done.
Qed.

Lemma Mamba_free_good s rid :
  mgr_inv s →
  wp (Mamba.free rid) s (λ _ s', good s s' ∧ req_blocks (mgr s') rid = []).
Proof.
  intros Hi. unfold Mamba.free. wp_steps. apply wp_when.
  - intros Hal. unfold upd_mgr. wp_step. set (s1 := MState _ _).
    assert (Hg : good s s1).
    { apply (good_forget s _ rid Hi); try done. simpl. set_solver. }
    eapply wp_mono; [apply Base_free_good; [apply Hg| |]|].
    + simpl. set_solver.
    + simpl. by rewrite lookup_delete_eq.
    + intros [] s' (Hg' & Hr & _). split; [by eapply good_trans|done].
  - intros Hna. by apply free_good.
Qed.

(** ** Allocating *)

Section allocation.
Context (use_int : bool).

Lemma good_ids s bs :
  mgr_inv s →
  wp (extend_new_block_ids bs) s (λ _ s', good s s' ∧ block_pool s' = block_pool s ∧
    req_to_blocks (mgr s') = req_to_blocks (mgr s)).
Proof.
  intros Hi. unfold extend_new_block_ids. wp_step. split; [|done]. by apply good_fields.
Qed.

(** The common tail: take [n] blocks, append them to the table, note their ids. *)
Lemma take_and_append s rid n gid (track : bool) :
  mgr_inv s → 0 ≤ n →
  wpe (bs ← on_pool (Pool.get_new_blocks use_int n gid);
       put_req_blocks rid (req_blocks (mgr s) rid ++ bs) ;;
       when track (extend_new_block_ids bs) ;;
       mret bs) s (λ bs s',
    good s s' ∧ req_blocks (mgr s') rid = req_blocks (mgr s) rid ++ bs ∧ zlen bs = n ∧
    free_count (block_pool s') = free_count (block_pool s) - n)
    (λ _ s', s' = s ∧ (is_single (block_pool s) → free_count (block_pool s) < n)).
Proof.
  intros Hi Hn. wpe_step. eapply wpe_mono; [by apply alloc_wpe|..]; [|done].
  intros bs s1 (Hm & Hl & Hf & Hg & Hfc). apply wp_wpe. wp_step. unfold put_req_blocks, upd_mgr. wp_step.
  set (s2 := MState _ _). assert (Hs2 : s2 = put_table s1 rid (req_blocks (mgr s) rid ++ bs)) by done.
  rewrite <-Hs2 in Hg. wp_step.
  assert (Hr2 : req_blocks (mgr s2) rid = req_blocks (mgr s) rid ++ bs)
    by (rewrite Hs2; apply req_blocks_put_eq).
  apply wp_when.
  - intros _. eapply wp_mono; [apply good_ids, Hg|]. intros [] s3 (Hg3 & Hp3 & Ht). wp_step.
    split; [by eapply good_trans|]. split; [unfold req_blocks in *; by rewrite Ht|].
    split; [done|]. by rewrite Hp3.
  - intros _. wp_step. done.
Qed.

Lemma Base_allocate_new_blocks_good s rid n n_main :
  mgr_inv s →
  wpe (Base.allocate_new_blocks use_int rid n n_main) s (λ bs s',
    good s s' ∧ req_blocks (mgr s') rid = req_blocks (mgr s) rid ++ bs ∧
    zlen bs = Z.max 0 (cdiv n (m_block_size (mgr s)) - zlen (req_blocks (mgr s) rid)) ∧
    free_count (block_pool s') = free_count (block_pool s) - zlen bs)
    (λ _ s', good s s' ∧ (is_single (block_pool s) →
      free_count (block_pool s) < cdiv n (m_block_size (mgr s)) - zlen (req_blocks (mgr s) rid))).
Proof.
  intros Hi. unfold Base.allocate_new_blocks. wpe_steps. cbv zeta.
  apply wpe_get_req_blocks. assert (Hg1 := get_table_good s rid Hi).
  set (s1 := put_table s rid _) in *. set (l := req_blocks (mgr s) rid) in *.
  assert (Hl1 : req_blocks (mgr s1) rid = l) by apply req_blocks_put_eq.
  destruct (Z.leb_spec (cdiv n (m_block_size (mgr s)) - zlen l) 0) as [Hle|Hlt].
  - wpe_step. split; [done|]. split; [by rewrite Hl1, app_nil_r|]. rewrite zlen_nil. simpl. lia.
  - assert (Hw := λ gid track, take_and_append s1 rid (cdiv n (m_block_size (mgr s)) - zlen l) gid track
      (proj1 Hg1) ltac:(lia)). rewrite Hl1 in Hw. eapply wpe_mono; [apply Hw|..].
    + intros bs s' (Hg & Hr & Hz & Hfc). split; [by eapply good_trans|]. split; [done|].
      simpl in Hfc. lia.
    + intros e s' [-> Hsh]. done.
Qed.

Lemma claim_good s rid :
  mgr_inv s →
  wpe (OneBlock.claim use_int rid) s (λ bs s',
    good s s' ∧ req_blocks (mgr s') rid = req_blocks (mgr s) rid ++ bs ∧
    zlen bs = if decide (req_blocks (mgr s) rid = []) then 1 else 0)
    (λ _ s', good s s').
Proof.
  intros Hi. unfold OneBlock.claim. wpe_steps. cbv zeta.
  apply wpe_get_req_blocks. assert (Hg1 := get_table_good s rid Hi).
  set (s1 := put_table s rid _) in *. set (l := req_blocks (mgr s) rid) in *.
  assert (Hl1 : req_blocks (mgr s1) rid = l) by apply req_blocks_put_eq.
  destruct (decide (l = [])) as [Hl|Hl].
  - rewrite Hl. cbn [is_nil negb]. 
    assert (Hw := λ gid, take_and_append s1 rid 1 gid true (proj1 Hg1) ltac:(lia)).
    rewrite Hl1, Hl in Hw. eapply wpe_mono; [apply Hw|..].
    + intros bs s' (Hg & Hr & Hz & _). split; [by eapply good_trans|]. done.
    + intros e s' [-> _]. done.
  - destruct l as [|b l]; [done|]. cbn [is_nil negb]. wpe_step.
    split; [done|]. rewrite Hl1, app_nil_r. done.
Qed.

(** The conditions under which computed blocks are handed to a new request:
    valid, distinct, and no more than the local computed tokens fill. *)
Definition computed_ok (s : mstate) (computed : list loc) (local external : Z) : Prop :=
  table_ok (block_pool s) computed ∧ 0 < m_block_size (mgr s) ∧ 0 ≤ local ∧ 0 ≤ external ∧
  zlen computed * m_block_size (mgr s) ≤ local ∧
  get_num_skipped_tokens (mgr s) (local + external) ≤ local + external.

(** The table after the computed blocks are added. *)
Definition computed_table (m : Manager) (computed : list loc) (total : Z) : list loc :=
  let skipped := get_num_skipped_tokens m total / m_block_size m in
  replicate (Z.to_nat skipped) (_null_block m) ++
    (if 0 <? skipped then py_from computed skipped else computed).

Lemma computed_table_length m computed total :
  zlen (computed_table m computed total) =
    Z.max (Z.max 0 (get_num_skipped_tokens m total / m_block_size m)) (zlen computed).
Proof.
  unfold computed_table. set (k := _ / _). rewrite zlen_app. unfold zlen at 1.
  rewrite length_replicate. destruct (Z.ltb_spec 0 k).
  - rewrite py_from_nonneg by lia. unfold zlen. rewrite length_drop. lia.
  - unfold zlen. lia.
Qed.

Lemma table_ok_suffix p l k : table_ok p l → table_ok p (drop k l).
Proof.
  intros [H1 H2]. split.
  - intros b Hb. apply H1. by eapply subseteq_drop.
  - rewrite <-(take_drop k l), filter_app in H2. by apply NoDup_app in H2 as (_ & _ & ?).
Qed.

Lemma computed_table_ok s computed local external :
  mgr_inv s → computed_ok s computed local external →
  table_ok (block_pool s) (computed_table (mgr s) computed (local + external)).
Proof.
  intros Hi (Ht & _). unfold computed_table. set (k := _ / _). rewrite (mi_null _ Hi).
  destruct (mi_pool _ Hi) as (st & hi & Hp). apply table_ok_app.
  - apply table_ok_null. by eapply null_in_blocks.
  - case_match; [|done]. unfold py_from. by apply table_ok_suffix.
  - intros b [-> _]%elem_of_replicate. done.
Qed.

(** The external tokens that still need blocks. *)
Definition external_left (m : Manager) (local external : Z) : Z :=
  let skipped := get_num_skipped_tokens m (local + external) in
  if 0 <? skipped / m_block_size m then Z.min (local + external - skipped) external else external.

Lemma evictable_spec p st hi bs :
  pool_inv p st hi [] → table_ok p bs →
  _get_num_evictable_blocks p bs = zlen (st ++ hi) - zlen (filter (.∉ bs) (st ++ hi)).
Proof.
  intros Hi [Hb Hnd]. unfold _get_num_evictable_blocks, zlen.
  pose proof (filter_app_complement (.∉ bs) (st ++ hi)) as Hperm.
  apply Permutation_length in Hperm. rewrite length_app in Hperm.
  cut (filter (λ b, ¬ (b ∉ bs)) (st ++ hi) ≡ₚ
    filter (λ b, ref p b = 0 ∧ is_null (pool_block p b) = false) bs).
  { intros Hp%Permutation_length. lia. }
  assert (Hiff : ∀ b, b ∈ bs → (ref p b = 0 ∧ is_null (pool_block p b) = false) ↔ b ∈ st ++ hi).
  { intros b Hin. pose proof (pi_free _ _ _ _ Hi b) as Hf. rewrite app_nil_r in Hf.
    rewrite Hf, (pi_is_null _ _ _ _ Hi) by auto. rewrite bool_decide_eq_false. naive_solver. }
  apply NoDup_Permutation.
  - apply NoDup_filter. pose proof (pi_disj _ _ _ _ Hi) as Hd. by rewrite app_nil_r in Hd.
  - assert (Hf2 : filter (λ b, ref p b = 0 ∧ is_null (pool_block p b) = false) bs =
      filter (λ b, ref p b = 0 ∧ is_null (pool_block p b) = false) (filter (.≠ null_block p) bs)).
    { clear -Hi Hb. induction bs as [|x bs IH]; [done|]. rewrite !filter_cons.
      rewrite IH by (intros; apply Hb; set_solver).
      destruct (decide (x ≠ null_block p)) as [Hx|Hx]; [by rewrite filter_cons|].
      rewrite decide_False; [done|]. rewrite (pi_is_null _ _ _ _ Hi) by (apply Hb; set_solver).
      apply dec_stable in Hx. intros [_ Hc%bool_decide_eq_false]. done. }
    rewrite Hf2. by apply NoDup_filter.
  - intros b. rewrite !list_elem_of_filter. split.
    + intros [Hin Hfree]. apply dec_stable in Hin. split; [by apply Hiff|done].
    + intros [Hc Hin]. split; [by intros ?|by apply Hiff].
Qed.

Lemma touch_total p bs :
  (∃ st hi, pool_inv p st hi []) → table_ok p bs →
  wp (Pool.touch bs) p (λ _ p', (∃ st hi, pool_inv p' st hi []) ∧ same_pool p p' ∧
    (∀ b, ref p' b = ref p b + count b bs) ∧ (∀ b, hash p' b = hash p b) ∧
    free_count p' = free_count p - _get_num_evictable_blocks p bs).
Proof.
  intros (st & hi & Hi) Ht. eapply wp_mono; [by apply touch_ok; [|apply Ht]|].
  intros [] p' [Hi' (Hs & Hr & Hh & _)]. split; [by eexists _, _|]. split; [done|]. split; [done|].
  split; [done|]. rewrite (free_count_spec _ _ _ _ Hi'), (free_count_spec _ _ _ _ Hi).
  rewrite (evictable_spec p st hi bs Hi Ht), filter_app. lia.
Qed.

(** Filling the empty table of [rid] with references taken on its blocks. *)
Lemma fill_table_good s rid l p' f :
  mgr_inv s → req_blocks (mgr s) rid = [] → table_ok (block_pool s) l →
  (∃ st hi, pool_inv p' st hi []) → same_pool (block_pool s) p' →
  (∀ b, b ≠ null_block (block_pool s) → ref p' b = ref (block_pool s) b + count b l) →
  good s (MState (set_num_cached_block f (mgr (put_table s rid l))) p').
Proof.
  intros Hi H0 Ht Hp Hs Hr. apply (table_step_good s _ rid l Hi).
  split; simpl; [done|done|done|by left|done| |auto|auto| |done].
  - intros b Hb Hn. rewrite Hr, H0 by done. change (count b []) with 0. lia.
  - right. rewrite H0, zlen_nil. apply zlen_nonneg.
Qed.

(** The part of the computed blocks that stays in the table. *)
Definition computed_suffix (m : Manager) (computed : list loc) (total : Z) : list loc :=
  let skipped := get_num_skipped_tokens m total / m_block_size m in
  if 0 <? skipped then py_from computed skipped else computed.

(** The free blocks [allocate_new_computed_blocks] uses up. *)
Definition computed_demand (s : mstate) (computed : list loc) (local external : Z) : Z :=
  _get_num_evictable_blocks (block_pool s) (computed_suffix (mgr s) computed (local + external)) +
  if 0 <? external_left (mgr s) local external
  then cdiv (local + external) (m_block_size (mgr s))
       - zlen (computed_table (mgr s) computed (local + external)) else 0.

(** A call no assertion refuses. *)
Definition callable (s : mstate) (rid : string) (computed : list loc) : Prop :=
  match num_cached_block (mgr s) !! rid with
  | Some _ => computed = []
  | None => req_blocks (mgr s) rid = [] ∧ (m_enable_caching (mgr s) = true ∨ computed = [])
  end.

Lemma table_nonneg_demand s computed local external :
  computed_ok s computed local external →
  0 ≤ cdiv (local + external) (m_block_size (mgr s))
      - zlen (computed_table (mgr s) computed (local + external)).
Proof.
  intros (_ & Hbs & Hloc & Hext & Hlen & Hskip). rewrite computed_table_length.
  pose proof (cdiv_spec (local + external) (m_block_size (mgr s)) Hbs) as Hcd.
  assert (get_num_skipped_tokens (mgr s) (local + external) / m_block_size (mgr s)
    ≤ (local + external) / m_block_size (mgr s)) by (apply Z.div_le_mono; lia).
  pose proof (Z.mul_div_le (local + external) (m_block_size (mgr s)) Hbs).
  set (d := get_num_skipped_tokens _ _ / _) in *. nia.
Qed.

(** The touch of the computed blocks, then their entry in the table. *)
Lemma touch_and_fill s rid computed local external f :
  mgr_inv s → computed_ok s computed local external → req_blocks (mgr s) rid = [] →
  let suffix := computed_suffix (mgr s) computed (local + external) in
  let table := computed_table (mgr s) computed (local + external) in
  wpe (if m_enable_caching (mgr s) then on_pool (Pool.touch suffix)
       else py_assert (bool_decide (suffix = []))) (put_table s rid []) (λ _ s2,
    mgr s2 = mgr (put_table s rid []) ∧
    good s (MState (set_num_cached_block f (mgr (put_table s rid table))) (block_pool s2)) ∧
    free_count (block_pool s2) =
      free_count (block_pool s) - _get_num_evictable_blocks (block_pool s) suffix)
    (λ _ s2, s2 = put_table s rid [] ∧ (m_enable_caching (mgr s) = true ∨ computed = [] → False)).
Proof.
  intros Hi Hc H0 suffix table. pose proof (computed_table_ok s _ _ _ Hi Hc) as Htab. fold table in Htab.
  assert (Hcnt : ∀ b, b ≠ null_block (block_pool s) → count b table = count b suffix).
  { intros b Hb. unfold table, computed_table. rewrite count_app, count_replicate; [done|].
    by rewrite (mi_null _ Hi). }
  assert (Hsuf : table_ok (block_pool s) suffix).
  { unfold suffix, computed_suffix. case_match; [|apply Hc]. unfold py_from. apply table_ok_suffix, Hc. }
  destruct (m_enable_caching (mgr s)).
  - apply wp_wpe. unfold on_pool. wp_step. eapply wp_mono; [apply (touch_total _ _ (mi_pool _ Hi) Hsuf)|].
    intros [] p' (Hp & Hs & Hr & _ & Hfc). split; [done|]. split; [|done].
    apply fill_table_good; [done..|]. intros b Hb. simpl. by rewrite Hr, Hcnt.
  - apply wpe_assert.
    + intros Hn%bool_decide_eq_true. split; [done|]. split.
      * apply fill_table_good; [done..|apply Hi|reflexivity|]. intros b Hb. rewrite Hcnt, Hn by done.
        change (count b []) with 0. simpl. lia.
      * rewrite Hn. change (_get_num_evictable_blocks (block_pool s) []) with 0. simpl. lia.
    + intros Hn%bool_decide_eq_false. split; [done|]. intros [?|Hcomp]; [done|]. apply Hn.
      unfold suffix, computed_suffix. rewrite Hcomp. case_match; [|done]. unfold py_from. apply drop_nil.
Qed.

Lemma Base_allocate_computed_good s rid computed local external :
  mgr_inv s → computed_ok s computed local external →
  wpe (Base.allocate_new_computed_blocks use_int rid computed local external) s (λ _ s',
    good s s' ∧
    match num_cached_block (mgr s) !! rid with
    | Some _ => s' = s
    | None => ∃ extra,
        req_blocks (mgr s') rid = computed_table (mgr s) computed (local + external) ++ extra ∧
        (zlen extra = if 0 <? external_left (mgr s) local external
          then cdiv (local + external) (m_block_size (mgr s))
               - zlen (computed_table (mgr s) computed (local + external)) else 0) ∧
        free_count (block_pool s') = free_count (block_pool s) - computed_demand s computed local external
    end)
    (λ _ s', good s s' ∧ (callable s rid computed → is_single (block_pool s) →
      num_cached_block (mgr s) !! rid = None ∧
      free_count (block_pool s) < computed_demand s computed local external)).
Proof.
  intros Hi Hc. unfold Base.allocate_new_computed_blocks, callable. wpe_step. wpe_step. cbv zeta.
  destruct (num_cached_block (mgr s) !! rid) as [k|] eqn:Ek.
  { apply wpe_assert; [intros _; split; [by apply good_refl|done]|].
    intros Hne. split; [by apply good_refl|]. intros ->. done. }
  wpe_step. apply wpe_get_req_blocks. assert (Hg1 := get_table_good s rid Hi).
  wpe_step. apply wpe_assert.
  2:{ intros Hne. split; [done|]. intros [E _]. by rewrite E in Hne. }
  intros H0%Z.eqb_eq. assert (El : req_blocks (mgr s) rid = []).
  { destruct (req_blocks (mgr s) rid) as [|b l]; [done|]. rewrite zlen_cons in H0. pose proof (zlen_nonneg l). lia. }
  rewrite El in *. rewrite app_nil_l.
  change (if 0 <? _ then py_from computed _ else computed) with (computed_suffix (mgr s) computed (local + external)).
  change (replicate _ (_null_block (mgr s)) ++ computed_suffix _ _ _) with
    (computed_table (mgr s) computed (local + external)).
  change (if 0 <? _ then Z.min _ external else external) with (external_left (mgr s) local external).
  set (table := computed_table _ _ _) in *.
  wpe_step. eapply wpe_mono; [by apply (touch_and_fill s rid computed local external
    (<[rid := zlen table]> (num_cached_block (mgr s))))|..].
  2:{ intros e s2 [-> Hno]. split; [done|]. intros [_ Hcall]. by destruct Hno. }
  intros [] s2 (Hm2 & Hg3 & Hfc2). wpe_step. unfold put_req_blocks at 1, upd_mgr. wpe_step. wpe_step. wpe_step.
  set (s3 := MState _ _).
  assert (Hs3 : s3 = MState (set_num_cached_block (<[rid := zlen table]> (num_cached_block (mgr s)))
    (mgr (put_table s rid table))) (block_pool s2)).
  { unfold s3. simpl. rewrite Hm2. simpl. by rewrite insert_insert_eq. }
  fold table in Hg3. rewrite <-Hs3 in Hg3.
  assert (Hr3 : req_blocks (mgr s3) rid = table).
  { unfold s3, req_blocks. simpl. by rewrite lookup_insert_eq. }
  assert (Hfc3 : free_count (block_pool s3) = free_count (block_pool s) -
    _get_num_evictable_blocks (block_pool s) (computed_suffix (mgr s) computed (local + external))) by done.
  unfold computed_demand. fold table. apply wpe_when.
  - intros He. rewrite He. pose proof (table_nonneg_demand s computed local external Hc) as Hnn.
    fold table in Hnn.
    assert (Hw := λ gid track, take_and_append s3 rid _ gid track (proj1 Hg3) Hnn). rewrite Hr3 in Hw.
    match goal with |- wpe (on_pool (Pool.get_new_blocks _ _ ?gid) ≫= _) _ _ _ =>
      specialize (Hw gid (tracks_new_blocks (spec_type (kv_cache_spec (mgr s))))) end.
    unfold wpe, mbind, M_bind in *.
    destruct (on_pool _ s3) as [[bs|e] s4].
    2:{ destruct Hw as [-> Hsh]. split; [done|]. intros _ Hsing.
        specialize (Hsh (is_single_same _ _ (co_pool _ _ (proj2 Hg3)) Hsing)). split; [done|lia]. }
    destruct (put_req_blocks rid (table ++ bs) s4) as [[[]|e] s5];
      [|by destruct Hw as [-> Hsh]; split; [done|]; intros _ Hsing;
        specialize (Hsh (is_single_same _ _ (co_pool _ _ (proj2 Hg3)) Hsing)); split; [done|lia]].
    destruct (when _ (extend_new_block_ids bs) s5) as [[[]|e] s6];
      [|by destruct Hw as [-> Hsh]; split; [done|]; intros _ Hsing;
        specialize (Hsh (is_single_same _ _ (co_pool _ _ (proj2 Hg3)) Hsing)); split; [done|lia]].
    destruct Hw as (Hg & Hr & Hz & Hfc). split; [by eapply good_trans|]. exists bs.
    split; [done|]. split; [done|]. lia.
  - intros He. rewrite He. split; [done|]. exists []. rewrite app_nil_r, Hr3.
    split; [done|]. split; [done|]. lia.
Qed.

(** *** Mamba in [align] mode *)

Lemma good_record s rid idx :
  mgr_inv s → Mamba.is_align (mgr s) = true → 0 ≤ idx < zlen (req_blocks (mgr s) rid) →
  good s (MState (set_last_state
    (<[rid := default [] (last_state_block_idx (mgr s) !! rid) ++ [idx]]> (last_state_block_idx (mgr s)))
    (mgr s)) (block_pool s)).
Proof.
  intros [] Hal Hidx. split; [|by split]. split; try done.
  - intros r i Hin. simpl in *. destruct (decide (r = rid)) as [->|Hr].
    + rewrite lookup_insert_eq in Hin. apply elem_of_app in Hin as [Hin| ->%list_elem_of_singleton]; [by apply mi_last|exact Hidx].
    + rewrite lookup_insert_ne in Hin by done. by apply mi_last.
  - intros Hna. unfold Mamba.is_align in *. simpl in *. congruence.
Qed.

Lemma good_allocated s rid :
  mgr_inv s → Mamba.is_align (mgr s) = true →
  1 + Mamba.num_speculative_blocks (mgr s) ≤ zlen (req_blocks (mgr s) rid) →
  good s (MState (set_allocated_reqs ({[rid]} ∪ _allocated_block_reqs (mgr s)) (mgr s)) (block_pool s)).
Proof.
  intros [] Hal Hlen. split; [|by split]. split; try done.
  - intros r Hin. simpl in *. apply elem_of_union in Hin as [->%elem_of_singleton|Hin]; [exact Hlen|by apply mi_allocated].
  - intros Hna. unfold Mamba.is_align in *. simpl in *. congruence.
Qed.

Lemma reuse_loop_spec null skipped n : ∀ i blocks,
  0 ≤ i → i + Z.of_nat n ≤ zlen blocks →
  ∃ blocks', Mamba.reuse_loop null skipped (seqZ i (Z.of_nat n)) blocks = Some blocks' ∧
    zlen blocks' = zlen blocks + Z.max 0 (Z.min (Z.of_nat n) (skipped - i)) ∧
    (∀ b, b ∈ blocks' → b = null ∨ b ∈ blocks) ∧
    ∀ b, b ≠ null → count b blocks' = count b blocks.
Proof.
  induction n as [|n IH]; intros i blocks Hi Hn.
  { exists blocks. split; [done|]. split; [lia|]. split; [tauto|done]. }
  rewrite seqZ_cons by lia. replace (Z.pred (Z.of_nat (S n))) with (Z.of_nat n) by lia.
  cbn [Mamba.reuse_loop]. destruct (Z.ltb_spec i skipped) as [Hlt|Hge].
  2:{ exists blocks. split; [done|]. split; [lia|]. split; [tauto|done]. }
  rewrite py_get_nonneg by lia.
  destruct (lookup_lt_is_Some_2 blocks (Z.to_nat i)) as [x Hx]; [unfold zlen in *; lia|].
  rewrite Hx. simpl. rewrite py_set_ok by (rewrite zlen_app; pose proof (zlen_nonneg [x]); lia). simpl.
  set (blocks1 := <[Z.to_nat i := null]> (blocks ++ [x])).
  assert (Hl1 : zlen blocks1 = zlen blocks + 1).
  { unfold blocks1, zlen. rewrite length_insert, length_app. simpl. lia. }
  destruct (IH (i + 1) blocks1) as (bl & E & H1 & H2 & H3); [lia|lia|].
  replace (Z.succ i) with (i + 1) by lia. exists bl. split; [done|]. split; [lia|]. split.
  - intros b Hb. destruct (H2 b Hb) as [?|[j Hj]%list_elem_of_lookup]; [by left|].
    apply list_lookup_insert_Some in Hj as [(_ & <- & _)|[_ Hj]]; [by left|right].
    apply list_elem_of_lookup_2, elem_of_app in Hj as [?| ->%list_elem_of_singleton]; [done|].
    by eapply list_elem_of_lookup_2.
  - intros b Hb. rewrite H3 by done. unfold blocks1.
    rewrite (count_insert _ _ _ _ x), count_app, (count_one_ne b null) by
      (first [done|by apply lookup_app_l_Some]). lia.
Qed.

Lemma extend_table_spec null (alloc : bool) spec skipped l :
  0 ≤ spec → (alloc = true → spec ≤ zlen l) →
  ∃ l', Mamba.extend_table null alloc spec skipped l = Some l' ∧
    zlen l' = Z.max (zlen l) skipped +
      (if alloc then Z.max 0 (Z.min spec (skipped - zlen l + spec)) else 0) ∧
    (∀ b, b ∈ l' → b = null ∨ b ∈ l) ∧ ∀ b, b ≠ null → count b l' = count b l.
Proof.
  intros Hs Hl. unfold Mamba.extend_table.
  set (l1 := if zlen l <? skipped then l ++ replicate (Z.to_nat (skipped - zlen l)) null else l).
  assert (Hl1 : zlen l1 = Z.max (zlen l) skipped).
  { unfold l1. destruct (Z.ltb_spec (zlen l) skipped); [|lia].
    rewrite zlen_app. unfold zlen at 2. rewrite length_replicate. lia. }
  assert (Hin1 : ∀ b, b ∈ l1 → b = null ∨ b ∈ l).
  { intros b. unfold l1. case_match; [|by right]. intros [?|[-> _]%elem_of_replicate]%elem_of_app; auto. }
  assert (Hc1 : ∀ b, b ≠ null → count b l1 = count b l).
  { intros b Hb. unfold l1. case_match; [|done]. rewrite count_app, count_replicate by done. lia. }
  destruct alloc; [|exists l1; split; [done|]; split; [lia|done]].
  specialize (Hl eq_refl). unfold py_range.
  destruct (reuse_loop_spec null skipped (Z.to_nat spec) (zlen l - spec) l1) as (l' & E & H1 & H2 & H3);
    [lia|lia|]. rewrite Z2Nat.id in * by lia.
  replace (zlen l - (zlen l - spec)) with spec by lia. exists l'. split; [done|].
  split; [rewrite H1, Hl1; f_equal; lia|]. split.
  - intros b Hb. destruct (H2 b Hb); auto.
  - intros b Hb. by rewrite H3, Hc1.
Qed.

Lemma table_ok_counts s rid l' :
  mgr_inv s → (∀ b, b ∈ l' → b = null_block (block_pool s) ∨ b ∈ req_blocks (mgr s) rid) →
  (∀ b, b ≠ null_block (block_pool s) → count b l' = count b (req_blocks (mgr s) rid)) →
  table_ok (block_pool s) l'.
Proof.
  intros Hi Hin Hc. destruct (req_blocks_ok s rid Hi) as [Hb Hnd]. rewrite nodup_filter_count in Hnd. split.
  - intros b [->|Hb']%Hin; [|auto]. destruct (mi_pool _ Hi) as (st & hi & Hp). by eapply null_in_blocks.
  - apply nodup_filter_count. intros b Hn. rewrite Hc by done. auto.
Qed.

Lemma Mamba_allocate_good s rid n n_main :
  mgr_inv s → 0 < n_main → 0 < m_block_size (mgr s) →
  wpe (Mamba.allocate_new_blocks use_int rid n n_main) s (λ bs s',
    good s s' ∧ (Mamba.is_align (mgr s) = true →
      zlen (req_blocks (mgr s') rid) =
        cdiv n_main (m_block_size (mgr s)) + Mamba.num_speculative_blocks (mgr s) ∧
      bs = py_from (req_blocks (mgr s') rid) (zlen (req_blocks (mgr s) rid))))
    (λ _ s', good s s').
Proof.
  intros Hi Hmain Hbs. unfold Mamba.allocate_new_blocks. wpe_step. wpe_step. cbv zeta. wpe_step.
  apply wpe_assert; [|intros _; by apply good_refl]. intros _.
  set (spec := Mamba.num_speculative_blocks (mgr s)).
  destruct (Mamba.is_align (mgr s)) eqn:Hal; cbn [negb].
  2:{ eapply wpe_mono; [by apply Base_allocate_new_blocks_good|..].
      2:{ by intros e s' [? _]. } intros bs s' [Hg _]. split; [done|]. intros ?. done. }
  wpe_step. apply wpe_get_req_blocks. assert (Hg1 := get_table_good s rid Hi).
  set (s1 := put_table s rid _) in *. set (l := req_blocks (mgr s) rid) in *.
  assert (Hl1 : req_blocks (mgr s1) rid = l) by apply req_blocks_put_eq.
  set (required := cdiv n_main (m_block_size (mgr s)) + spec).
  assert (Hspec : 0 ≤ spec) by apply Hi.
  assert (Hcd : 1 ≤ cdiv n_main (m_block_size (mgr s))).
  { pose proof (cdiv_spec n_main (m_block_size (mgr s)) Hbs). nia. }
  assert (Hal1 : Mamba.is_align (mgr s1) = true) by done.
  destruct (Z.eqb_spec required (zlen l)) as [Heq|Hne].
  { wpe_step. split; [done|]. intros _. rewrite Hl1. split; [done|].
    rewrite py_from_nonneg by apply zlen_nonneg. rewrite drop_ge; [done|]. unfold zlen. lia. }
  wpe_step. apply wpe_assert; [|done]. intros Hlt%Z.ltb_lt.
  set (allocated := bool_decide (rid ∈ _allocated_block_reqs (mgr s))).
  assert (Halloc : allocated = true → 1 + spec ≤ zlen l).
  { intros H%bool_decide_eq_true. by apply (mi_allocated _ Hi). }
  (* recording the superseded state block *)
  wpe_step. apply (wpe_mono _ _ (λ _ s2, good s s2 ∧ req_blocks (mgr s2) rid = l ∧
    mgr_args (mgr s2) = mgr_args (mgr s) ∧ null_block (block_pool s2) = null_block (block_pool s))
    _ (λ _ s', good s s')); [| |done].
  { assert (Hrec : ∀ idx, 0 ≤ idx < zlen l → wpe (Mamba.record_last_state rid idx) s1 (λ _ s2,
      good s s2 ∧ req_blocks (mgr s2) rid = l ∧ mgr_args (mgr s2) = mgr_args (mgr s) ∧
      null_block (block_pool s2) = null_block (block_pool s)) (λ _ s', good s s')).
    { intros idx Hidx. unfold Mamba.record_last_state, upd_mgr. wpe_step. split; [|done].
      eapply good_trans; [exact Hg1|]. apply good_record; [apply Hg1|done|by rewrite Hl1]. }
    destruct allocated; [apply Hrec; specialize (Halloc eq_refl); lia|].
    apply wpe_when; [intros H0%Z.ltb_lt; apply Hrec; lia|]. intros _. done. }
  intros [] s2 (Hg2 & Hl2 & Ha2 & Hn2). rewrite (mi_null _ Hi).
  set (skipped := required - spec - 1).
  destruct (extend_table_spec (null_block (block_pool s)) allocated spec skipped l Hspec)
    as (l1 & E & Hlen & Hin & Hcnt); [intros H; specialize (Halloc H); lia|].
  rewrite E. wpe_step. cbn [of_option]. wpe_step. wpe_step. unfold put_req_blocks at 1, upd_mgr. wpe_step.
  set (s3 := MState _ _). change s3 with (put_table s2 rid l1).
  assert (Hnew : 0 ≤ required - zlen l1 ∧
    (if allocated then required - zlen l1 ≤ 1 else required - zlen l1 ≤ spec + 1)).
  { rewrite Hlen. unfold skipped in *. destruct allocated; [specialize (Halloc eq_refl)|]; lia. }
  assert (Hg3 : good s (put_table s2 rid l1)).
  { eapply good_trans; [exact Hg2|]. apply put_same_good; [apply Hg2|..].
    - apply (table_ok_counts s2 rid); [apply Hg2|..]; rewrite Hl2, ?Hn2; done.
    - rewrite Hl2, Hlen. destruct allocated; lia.
    - intros b Hb. rewrite Hl2. apply Hcnt. by rewrite <-Hn2. }
  wpe_step. apply wpe_assert; [|destruct allocated; intros Hf%Z.leb_gt; lia]. intros _.
  assert (Hr3 : req_blocks (mgr (put_table s2 rid l1)) rid = l1) by apply req_blocks_put_eq.
  set (s4 := put_table s2 rid l1) in *. wpe_step.
  eapply wpe_mono; [apply (alloc_wpe use_int s4 rid); [apply Hg3|apply Hnew]|..].
  2:{ intros e s5 [-> _]. done. }
  intros new s5 (Hm5 & Hz & Hf & Hg5 & _). rewrite Hr3 in Hg5.
  unfold put_req_blocks, upd_mgr. wpe_step. wpe_step. wpe_step. wpe_step. wpe_step.
  set (s6 := MState _ _).
  assert (Hs6 : good (put_table s5 rid (l1 ++ new)) s6).
  { apply good_allocated; [apply Hg5|..].
    - change (Mamba.is_align (mgr s5) = true). rewrite Hm5. unfold Mamba.is_align. simpl. by rewrite Ha2.
    - change (1 + Mamba.num_speculative_blocks (mgr s5) ≤
        zlen (req_blocks (mgr (put_table s5 rid (l1 ++ new))) rid)).
      rewrite req_blocks_put_eq, zlen_app, Hz.
      rewrite Hm5. unfold Mamba.num_speculative_blocks. simpl. rewrite Ha2.
      change (match _ with Some (_, n) => n | None => 0 end) with spec. lia. }
  assert (Hr6 : req_blocks (mgr s6) rid = l1 ++ new).
  { unfold s6, req_blocks. simpl. by rewrite lookup_insert_eq. }
  split; [eapply good_trans; [exact Hg3|]; eapply good_trans; [exact Hg5|exact Hs6]|].
  intros _. rewrite Hr6. split; [|done]. rewrite zlen_app, Hz. lia.
Qed.
End allocation.

(** ** Caching *)

Section caching.
Context (sha256 : bytes → bytes) (use_int : bool).

(** The conditions of a [cache_blocks] call on request [r] that files the blocks
    up to [nf]: the table covers them, their hashes are computed, and the blocks
    not yet cached carry no hash. *)
Record cache_call_ok (s : mstate) (r : Request) (nf : Z) : Prop := {
  cc_mm : mm_ordered (mm_features r);
  cc_memo : memo_ok sha256 r;
  cc_sizes : 0 < m_block_size (mgr s) ∧ 0 < hash_block_size (block_pool s) ∧
    m_block_size (mgr s) mod hash_block_size (block_pool s) = 0;
  cc_cached : 0 ≤ Base.cached_of (mgr s) (request_id r);
  cc_table : nf ≤ zlen (req_blocks (mgr s) (request_id r));
  cc_hashes : nf ≤ hl_len (group_hashes (block_pool s) r (m_block_size (mgr s))) ∧
    nf ≤ zlen (block_hashes r);
  cc_group : 0 ≤ kv_cache_group_id (mgr s) < 2 ^ 32;
  cc_fresh : ∀ i b, Base.cached_of (mgr s) (request_id r) ≤ Z.of_nat i →
    req_blocks (mgr s) (request_id r) !! i = Some b → b ≠ null_block (block_pool s) →
    hash (block_pool s) b = None;
}.

Lemma cache_pre_holds s (r : Request) nf mask :
  mgr_inv s → cache_call_ok s r nf →
  let nc := Base.cached_of (mgr s) (request_id r) in
  nc < nf → (∀ m, mask = Some m → zlen m = nf - nc) →
  cache_pre (block_pool s) mask
    (Pool.hashes_from (group_hashes (block_pool s) r (m_block_size (mgr s))) nc) 0
    (py_slice (req_blocks (mgr s) (request_id r)) nc nf).
Proof.
  intros Hi Hc nc Hlt Hm. destruct (req_blocks_ok s (request_id r) Hi) as [Hb Hnd].
  set (l := req_blocks (mgr s) (request_id r)) in *.
  pose proof (cc_cached _ _ _ Hc) as Hnc. fold nc in Hnc. pose proof (cc_table _ _ _ Hc) as Ht. fold l in Ht.
  assert (Hlen : length (py_slice l nc nf) = Z.to_nat (nf - nc)).
  { rewrite py_slice_nonneg by lia. rewrite length_take, length_drop. unfold zlen in Ht. lia. }
  rewrite py_slice_nonneg in * by lia. unfold cache_pre. split; [|split; [|split; [|split]]].
  - rewrite <-(take_drop (Z.to_nat nc) l), filter_app in Hnd. apply NoDup_app in Hnd as (_ & _ & Hnd).
    rewrite <-(take_drop (Z.to_nat nf - Z.to_nat nc) (drop _ l)), filter_app in Hnd.
    by apply NoDup_app in Hnd as [? _].
  - intros b Hin. apply Hb. eapply subseteq_drop. by eapply subseteq_take.
  - intros j b Hj [Hn _]. apply lookup_take_Some in Hj as [Hj _]. rewrite lookup_drop in Hj.
    eapply (cc_fresh _ _ _ Hc); [|exact Hj|done]. fold nc. lia.
  - rewrite Hlen. unfold Pool.hashes_from. rewrite py_from_nonneg by lia. rewrite length_drop.
    pose proof (proj1 (cc_hashes _ _ _ Hc)) as Hh. simpl.
    pose proof (length_hl_list (group_hashes (block_pool s) r (m_block_size (mgr s))) ltac:(lia)) as Hll.
    unfold zlen in Hll. lia.
  - intros m E. specialize (Hm m E). rewrite Hlen. unfold zlen in Hm. lia.
Qed.

Lemma mark_every_length fuel : ∀ i step mask, length (mark_every fuel i step mask) = length mask.
Proof.
  induction fuel as [|fuel IH]; intros i step mask; simpl; [done|].
  case_match; [|done]. by rewrite IH, length_insert.
Qed.

Lemma mamba_mask_length a b al spec ri bounds m :
  mamba_reachable_block_mask a b al spec ri bounds = Ret (Some m) → length m = Z.to_nat (b - a).
Proof.
  unfold mamba_reachable_block_mask. intros E.
  destruct ri as [interval|]; [|done]. destruct al as [al|]; [|done].
  destruct (mamba_fields _) as [[mode n]|]; [|done]. destruct (negb _ || negb _); [done|].
  cbv zeta in E. set (mark := λ mask boundary, _) in E.
  assert (Hmark : ∀ l m0, length (foldl mark m0 l) = length m0).
  { induction l as [|x l IH]; intros m0; [done|]. simpl. rewrite IH. unfold mark.
    destruct (_ && _); [apply length_insert|done]. }
  destruct (interval =? 0); [simplify_eq; by rewrite Hmark, length_replicate|].
  case_match; [done|]. simplify_eq. by rewrite Hmark, mark_every_length, length_replicate.
Qed.

Lemma reachable_mask_length m a b al mask :
  reachable_block_mask m a b al = Ret (Some mask) → length mask = Z.to_nat (b - a).
Proof.
  unfold reachable_block_mask. destruct (spec_type (kv_cache_spec m)); try done;
    unfold swa_reachable_block_mask; (case_match; [done|]); (case_match; [|done]);
    (case_match; [done|]); intros; simplify_eq; unfold py_range; by rewrite length_fmap, length_seqZ.
Qed.

(** The pool call shared by the two [cache_blocks]. *)
Lemma pool_cache_good s (r : Request) nf mask :
  mgr_inv s → cache_call_ok s r nf →
  let rid := request_id r in
  let nc := Base.cached_of (mgr s) rid in
  nc < nf → (∀ m, mask = Some m → zlen m = nf - nc) →
  wp (on_pool (Pool.cache_full_blocks sha256 use_int r (req_blocks (mgr s) rid) nc nf
        (m_block_size (mgr s)) (kv_cache_group_id (mgr s)) mask))
    (put_table s rid (req_blocks (mgr s) rid)) (λ r' s', good s s' ∧ memo_step sha256 r r' ∧
      mgr s' = mgr (put_table s rid (req_blocks (mgr s) rid)) ∧
      ∀ b, hash (block_pool s') b = hash_after (block_pool s) (kv_cache_group_id (mgr s)) mask
        (Pool.hashes_from (group_hashes (block_pool s) r (m_block_size (mgr s))) nc) 0
        (py_slice (req_blocks (mgr s) rid) nc nf) b).
Proof.
  intros Hi Hc rid nc Hlt Hm. destruct (mi_pool _ Hi) as (st & hi & Hp).
  pose proof (cache_pre_holds s r nf mask Hi Hc Hlt Hm) as Hpre.
  destruct Hc as [Hmm Hmemo (Hb1 & Hb2 & Hb3) Hnc Ht [Hh1 Hh2] Hg _]. unfold on_pool. wp_step.
  eapply wp_mono.
  { apply (cache_full_blocks_ok sha256 use_int r (req_blocks (mgr s) rid) nc nf (m_block_size (mgr s))
      (kv_cache_group_id (mgr s)) mask (block_pool s) st hi [] Hp Hmm Hmemo Hb1 Hb2 Hb3); try done. }
  intros r' p' (Hr & Hp' & (Hs & Href & Hh & _)). simpl.
  split; [|split; [done|split; [done|exact Hh]]].
  apply (table_step_good s _ rid (req_blocks (mgr s) rid) Hi).
  split; simpl; [by eexists _, _|done|done|by left|by apply req_blocks_ok| |auto|auto|right; lia|done].
  intros b _ _. rewrite Href. unfold rid. lia.
Qed.

Lemma Base_cache_blocks_good s (r : Request) n al :
  mgr_inv s → cache_call_ok s r (n / m_block_size (mgr s)) →
  wpe (Base.cache_blocks sha256 use_int r n al) s (λ _ s', good s s' ∧
    Base.cached_of (mgr s') (request_id r) =
      Z.max (Base.cached_of (mgr s) (request_id r)) (n / m_block_size (mgr s)))
    (λ _ s', good s s').
Proof.
  intros Hi Hc. unfold Base.cache_blocks. wpe_step. wpe_step. cbv zeta.
  set (nf := n / m_block_size (mgr s)) in *. set (rid := request_id r) in *.
  destruct (Z.leb_spec nf (Base.cached_of (mgr s) rid)) as [Hle|Hlt].
  { wpe_step. split; [by apply good_refl|lia]. }
  wpe_step. apply (wpe_mono _ _ (λ mask s1, s1 = s ∧
    ∀ m, mask = Some m → zlen m = nf - Base.cached_of (mgr s) rid) _ (λ _ s', s' = s)).
  { destruct al as [a|]; [|by wpe_step]. case_match; [by wpe_step|].
    destruct (reachable_block_mask _ _ _ a) as [mask|e] eqn:E; simpl; [|by wpe_step]. wpe_step.
    split; [done|]. intros m ->. apply reachable_mask_length in E. unfold zlen. lia. }
  2:{ intros e s' ->. by apply good_refl. }
  intros mask s1 [-> Hmask]. wpe_step. apply wpe_get_req_blocks. wpe_step. apply wp_wpe.
  eapply wp_mono; [by apply pool_cache_good|]. intros r' s2 (Hg & [[mm ->] _] & Hm2 & _).
  apply wp_wpe. unfold upd_mgr. wp_steps. split.
  - eapply good_trans; [exact Hg|]. by apply good_fields; [apply Hg|..].
  - unfold Base.cached_of. simpl. rewrite lookup_insert_eq. simpl. fold nf. unfold Base.cached_of in Hlt. lia.
Qed.

Lemma record_cached_good rid l indices : ∀ s,
  mgr_inv s → Forall (λ i, 0 ≤ i < zlen l) indices →
  wp (Mamba.record_cached rid l indices) s (λ _ s', good s s' ∧
    num_cached_block (mgr s') = num_cached_block (mgr s)).
Proof.
  induction indices as [|i indices IH]; intros s Hi Hall; simpl.
  { wp_step. split; [by apply good_refl|done]. }
  apply Forall_cons in Hall as [Hidx Hall]. wp_step. wp_step. cbv zeta. wp_step.
  destruct (lookup_lt_is_Some_2 l (Z.to_nat i)) as [b Hb]; [unfold zlen in *; lia|].
  eapply wp_of_option; [rewrite py_get_nonneg by lia; exact Hb|]. wp_step.
  apply (wp_mono _ _ (λ _ s1, good s s1 ∧ num_cached_block (mgr s1) = num_cached_block (mgr s))).
  - destruct (is_null _); [wp_step; split; [by apply good_refl|done]|].
    destruct (_block_hash _) as [h|]; [|wp_step; split; [by apply good_refl|done]].
    unfold upd_mgr. wp_step. wp_step. set (s1 := MState _ _).
    assert (Hg1 : good s s1) by by apply good_fields.
    apply wp_when; [|done]. intros _. wp_step. split; [|done].
    eapply good_trans; [exact Hg1|]. by apply good_fields; [apply Hg1|..].
  - intros [] s1 [Hg1 Hn1]. eapply wp_mono; [apply IH; [apply Hg1|done]|].
    intros [] s2 [Hg2 Hn2]. split; [by eapply good_trans|congruence].
Qed.

Lemma Mamba_cache_blocks_good s (r : Request) n al ri bounds :
  mgr_inv s → cache_call_ok s r (n / m_block_size (mgr s)) →
  wpe (Mamba.cache_blocks sha256 use_int r n al ri bounds) s (λ _ s', good s s' ∧
    Base.cached_of (mgr s') (request_id r) =
      Z.max (Base.cached_of (mgr s) (request_id r)) (n / m_block_size (mgr s)))
    (λ _ s', good s s').
Proof.
  intros Hi Hc. unfold Mamba.cache_blocks. wpe_step. wpe_step. cbv zeta.
  set (nf := n / m_block_size (mgr s)) in *. set (rid := request_id r) in *.
  destruct (Z.leb_spec nf (Base.cached_of (mgr s) rid)) as [Hle|Hlt].
  { wpe_step. split; [by apply good_refl|lia]. }
  wpe_step. destruct (mamba_reachable_block_mask _ _ _ _ _ _) as [mask|e] eqn:E; simpl; wpe_step; [|by apply good_refl].
  assert (Hmask : ∀ m, mask = Some m → zlen m = nf - Base.cached_of (mgr s) rid).
  { intros m ->. apply mamba_mask_length in E. unfold zlen. lia. }
  wpe_step. apply wpe_get_req_blocks. wpe_step. apply wp_wpe.
  eapply wp_mono; [by apply pool_cache_good|]. intros r' s2 (Hg & _ & Hm2 & _).
  apply wp_wpe. unfold upd_mgr at 1. wp_steps. set (s3 := MState _ _).
  assert (Hg3 : good s s3).
  { eapply good_trans; [exact Hg|]. by apply good_fields; [apply Hg|..]. }
  apply (wp_intro _ _ _ _ _ (get_req_blocks_eq s3 rid)). cbn beta.
  assert (Hr3 : req_blocks (mgr s3) rid = req_blocks (mgr s) rid).
  { unfold s3. simpl. unfold req_blocks at 1. simpl. rewrite Hm2. simpl. by rewrite lookup_insert_eq. }
  assert (Hg4 := get_table_good s3 rid (proj1 Hg3)). wp_step.
  eapply wp_mono; [apply record_cached_good; [apply Hg4|]|].
  { rewrite Hr3. apply Forall_forall. intros i Hin. unfold py_range in Hin.
    apply elem_of_seqZ in Hin. pose proof (cc_table _ _ _ Hc). pose proof (cc_cached _ _ _ Hc).
    subst rid nf. lia. }
  intros [] s5 [Hg5 Hn5]. wp_step. split.
  - eapply good_trans; [exact Hg3|]. by eapply good_trans.
  - unfold Base.cached_of. rewrite Hn5. simpl. rewrite lookup_insert_eq. simpl.
    unfold Base.cached_of in Hlt. lia.
Qed.
End caching.
