(* ===== verification/SingleTypeTheorems.v ===== *)
(** * Theorems about the managers

    Reference conservation over any sequence of operations of a manager of any
    class, and the capacity an allocation guarantees. *)

From Stdlib Require Import Strings.Byte.
From S2P Require Import Prelude.
From S2P Require Import FreeQueue.
From S2P Require Import Request.
From S2P Require Import BlockHash.
From S2P Require Import BlockHashSpec.
From S2P Require Import BlockPool.
From S2P Require Import BlockPoolInv.
From S2P Require Import BlockPoolSpec.
From S2P Require Import BlockPoolOps.
From S2P Require Import BlockPoolProps.
From S2P Require Import PoolTheorems.
From S2P Require Import KVCacheSpec.
From S2P Require Import SingleType.
From S2P Require Import SingleTypeSpec.
From S2P Require Import SingleTypeOps.
Local Open Scope Z_scope.

Section steps.
Context (sha256 : bytes → bytes) (use_int : bool).

(** One call of a method of the manager, ending normally or with an exception,
    under the conditions its callers keep. *)
Inductive manager_step (s : mstate) : mstate → Prop :=
  | step_allocate_computed rid computed local external o s' :
      computed_ok s computed local external →
      Manager.allocate_new_computed_blocks use_int rid computed local external s = (o, s') →
      manager_step s s'
  | step_allocate rid n n_main o s' :
      0 < n_main → 0 < m_block_size (mgr s) →
      Manager.allocate_new_blocks use_int rid n n_main s = (o, s') → manager_step s s'
  | step_predict rid n computed total n_main cap o s' :
      Manager.get_num_blocks_to_allocate rid n computed total n_main cap s = (o, s') →
      manager_step s s'
  | step_cache (r : Request) n alignment interval boundaries o s' :
      cache_call_ok sha256 s r (n / m_block_size (mgr s)) →
      Manager.cache_blocks sha256 use_int r n alignment interval boundaries s = (o, s') →
      manager_step s s'
  | step_free rid o s' : Manager.free rid s = (o, s') → manager_step s s'
  | step_remove_skipped rid n num_prompt o s' :
      0 < m_block_size (mgr s) → (∀ k, num_prompt = Some k → 0 ≤ k) →
      Manager.remove_skipped_blocks rid n num_prompt s = (o, s') → manager_step s s'
  | step_common_prefix rid o s' :
      Manager.get_num_common_prefix_blocks rid s = (o, s') → manager_step s s'
  | step_take_ids o s' : Base.take_new_block_ids s = (o, s') → manager_step s s'
  | step_take_offloads o s' :
      Base.take_pending_boundary_state_offloads s = (o, s') → manager_step s s'
  | step_new_step o s' : Manager.new_step_starts s = (o, s') → manager_step s s'.

Lemma wpe_result {S A} (m : M S A) s (P : S → Prop) o s' :
  wpe m s (λ _ s', P s') (λ _ s', P s') → m s = (o, s') → P s'.
Proof. unfold wpe. intros Hw E. rewrite E in Hw. by destruct o. Qed.

Lemma wpe_weaken {S A} (m : M S A) s (Q : A → S → Prop) (P : S → Prop) (E : exn → S → Prop) :
  wpe m s Q E → (∀ a s', Q a s' → P s') → (∀ e s', E e s' → P s') →
  wpe m s (λ _ s', P s') (λ _ s', P s').
Proof. intros. eapply wpe_mono; eauto. Qed.

Abbreviation keeps m s := (wpe m s (λ _ s', good s s') (λ _ s', good s s')).

Lemma base_predict_keeps s rid n computed total n_main cap :
  mgr_inv s → keeps (Base.get_num_blocks_to_allocate rid n computed total n_main cap) s.
Proof.
  intros Hi. unfold Base.get_num_blocks_to_allocate. wpe_step. wpe_step. cbv zeta.
  case_match; [wpe_step; apply wpe_assert; intros _; [wpe_step|]|wpe_step]; by apply good_refl.
Qed.

Lemma predict_keeps s rid n computed total n_main cap :
  mgr_inv s → keeps (Manager.get_num_blocks_to_allocate rid n computed total n_main cap) s.
Proof.
  intros Hi. unfold Manager.get_num_blocks_to_allocate. wpe_step. wpe_step.
  destruct (class_of (mgr s)) as [[]|]; try by apply base_predict_keeps.
  - unfold OneBlock.tail_get_num_blocks_to_allocate. wpe_steps. by apply good_refl.
  - unfold Mamba.get_num_blocks_to_allocate. wpe_step. wpe_step. cbv zeta. wpe_step.
    apply wpe_assert; [|intros _; by apply good_refl]. intros _.
    case_match; [wpe_step; by apply good_refl|]. case_match; [by apply base_predict_keeps|].
    wpe_step. apply wpe_get_req_blocks. wpe_step. by apply get_table_good.
  - unfold OneBlock.ring_get_num_blocks_to_allocate. wpe_steps. by apply good_refl.
Qed.

Lemma claim_keeps s rid : mgr_inv s → keeps (OneBlock.claim use_int rid) s.
Proof. intros Hi. eapply wpe_weaken; [by apply claim_good|by intros ? ? [? _]|done]. Qed.

Lemma bind_tt_keeps {A} (m : M mstate A) s : keeps m s → keeps (m ;; mret tt) s.
Proof. intros H. wpe_step. exact H. Qed.

Lemma allocate_computed_keeps s rid computed local external :
  mgr_inv s → computed_ok s computed local external →
  keeps (Manager.allocate_new_computed_blocks use_int rid computed local external) s.
Proof.
  intros Hi Hc. unfold Manager.allocate_new_computed_blocks. wpe_step. wpe_step.
  assert (Hbase : keeps (Base.allocate_new_computed_blocks use_int rid computed local external) s).
  { eapply wpe_weaken; [by apply Base_allocate_computed_good|by intros ? ? [? _]..]. }
  destruct (class_of (mgr s)) as [[]|]; try exact Hbase.
  - unfold OneBlock.tail_allocate_new_computed_blocks.
    case_match; [wpe_step; by apply good_refl|]. apply wpe_when; [|intros _; by apply good_refl].
    intros _. apply bind_tt_keeps. by apply claim_keeps.
  - apply wpe_assert; intros _; by apply good_refl.
  - apply bind_tt_keeps. by apply claim_keeps.
Qed.

Lemma allocate_keeps s rid n n_main :
  mgr_inv s → 0 < n_main → 0 < m_block_size (mgr s) →
  keeps (Manager.allocate_new_blocks use_int rid n n_main) s.
Proof.
  intros Hi Hn Hbs. unfold Manager.allocate_new_blocks. wpe_step. wpe_step.
  assert (Hbase : keeps (Base.allocate_new_blocks use_int rid n n_main) s).
  { eapply wpe_weaken; [by apply Base_allocate_new_blocks_good|by intros ? ? [? _]..]. }
  destruct (class_of (mgr s)) as [[]|]; try exact Hbase; try by apply claim_keeps.
  eapply wpe_weaken; [by apply Mamba_allocate_good|by intros ? ? [? _]|done].
Qed.

Lemma cache_keeps s (r : Request) n al ri bounds :
  mgr_inv s → cache_call_ok sha256 s r (n / m_block_size (mgr s)) →
  keeps (Manager.cache_blocks sha256 use_int r n al ri bounds) s.
Proof.
  intros Hi Hc. unfold Manager.cache_blocks. wpe_step. wpe_step.
  assert (Hbase : keeps (Base.cache_blocks sha256 use_int r n al) s).
  { eapply wpe_weaken; [by apply Base_cache_blocks_good|by intros ? ? [? _]|done]. }
  destruct (class_of (mgr s)) as [[]|]; try exact Hbase; try (wpe_step; by apply good_refl).
  eapply wpe_weaken; [by apply Mamba_cache_blocks_good|by intros ? ? [? _]|done].
Qed.

Lemma class_mamba m : class_of m = Some MambaManager ∨ Mamba.is_align m = false.
Proof.
  unfold class_of, Mamba.is_align. destruct (spec_type (kv_cache_spec m)); simpl; auto.
Qed.

Lemma free_keeps s rid :
  mgr_inv s →
  wp (Manager.free rid) s (λ _ s', good s s' ∧ req_blocks (mgr s') rid = []).
Proof.
  intros Hi. unfold Manager.free. wp_step. wp_step.
  destruct (class_mamba (mgr s)) as [->|Hal]; [by apply Mamba_free_good|].
  destruct (class_of (mgr s)) as [[]|]; first [by apply Mamba_free_good|by apply free_good].
Qed.

Lemma remove_skipped_keeps s rid n np :
  mgr_inv s → 0 < m_block_size (mgr s) → (∀ k, np = Some k → 0 ≤ k) →
  keeps (Manager.remove_skipped_blocks rid n np) s.
Proof.
  intros Hi Hbs Hnp. unfold Manager.remove_skipped_blocks. wpe_step. wpe_step.
  assert (Hbase : keeps (Base.remove_skipped_blocks rid n np) s).
  { apply wp_wpe. eapply wp_mono; [by apply Base_remove_skipped_good|]. by intros [] s' [? _]. }
  destruct (class_of (mgr s)) as [[]|]; try exact Hbase; try (wpe_step; by apply good_refl).
  - by apply wp_wpe, PrefixAnchored_remove_skipped_good.
  - by apply Mamba_remove_skipped_good.
Qed.

Lemma manager_step_good s s' : mgr_inv s → manager_step s s' → good s s'.
Proof.
  intros Hi Hstep. destruct Hstep as
    [rid computed local ext o s' Hc E|rid n nm o s' Hn Hbs E|rid n c t nm cap o s' E|r n al ri bd o s' Hc E
    |rid o s' E|rid n np o s' Hbs Hnp E|rid o s' E|o s' E|o s' E|o s' E];
    (eapply wpe_result; [|exact E]).
  - by apply allocate_computed_keeps.
  - by apply allocate_keeps.
  - by apply predict_keeps.
  - by apply cache_keeps.
  - apply wp_wpe. eapply wp_mono; [by apply free_keeps|]. by intros [] ? [? _].
  - by apply remove_skipped_keeps.
  - unfold Manager.get_num_common_prefix_blocks. wpe_step. wpe_step.
    assert (Hf : keeps (Full.get_num_common_prefix_blocks rid) s).
    { unfold Full.get_num_common_prefix_blocks. wpe_step. apply wpe_get_req_blocks. wpe_steps.
      by apply get_table_good. }
    destruct (class_of (mgr s)) as [[]|]; try exact Hf; wpe_step; by apply good_refl.
  - unfold Base.take_new_block_ids, gets, upd_mgr, wpe, mbind, M_bind, modify. simpl. by apply good_fields.
  - unfold Base.take_pending_boundary_state_offloads, gets, upd_mgr, wpe, mbind, M_bind, modify. simpl.
    by apply good_fields.
  - unfold Manager.new_step_starts. wpe_step. wpe_step.
    destruct (class_of (mgr s)) as [[]|]; try (wpe_step; by apply good_refl).
    unfold Mamba.new_step_starts, upd_mgr. wpe_step. by apply good_fields.
Qed.

Lemma manager_steps_good s s' : mgr_inv s → rtc manager_step s s' → good s s'.
Proof.
  intros Hi Hsteps. induction Hsteps as [s|s s1 s2 Hs _ IH]; [by apply good_refl|].
  assert (Hg := manager_step_good _ _ Hi Hs). eapply good_trans; [exact Hg|]. apply IH, Hg.
Qed.

(** A new manager of a class other than the sink class holds nothing. *)
Lemma new_manager_inv spec max_in_flight max_len caching gid dcp pcp p o p' m st hi :
  (∀ n, spec_type spec ≠ SinkFullAttentionSpec n) →
  (∀ mode n, spec_type spec = MambaSpec mode n → 0 ≤ n) →
  pool_inv p st hi [] →
  get_manager_for_kv_cache_spec spec max_in_flight max_len caching gid dcp pcp p = (o, p') →
  o = Ret m → p' = p ∧ mgr_inv (MState m p) ∧ req_to_blocks m = ∅.
Proof.
  intros Hsink Hspec Hi E ->. unfold get_manager_for_kv_cache_spec in E.
  assert (Hm : p' = p ∧ m = Manager_init spec (null_block p) caching gid dcp pcp
    (max_admission_blocks_per_request spec max_in_flight max_len) []).
  { destruct (spec_type spec) eqn:Es; simpl in E; unfold mbind, M_bind, get, mret, M_ret, raise in E;
      simplify_eq; try done. by destruct (Hsink _ eq_refl). }
  destruct Hm as [-> ->]. split; [done|]. split; [|done]. split; simpl; try done.
  - by eexists _, _.
  - intros b Hb Hn. rewrite entries_empty. by apply (pi_ref _ _ _ _ Hi).
  - unfold Mamba.num_speculative_blocks. simpl.
    destruct (spec_type spec) eqn:Es; simpl; try lia. by eapply Hspec.
  - intros rid i Hin. by apply not_elem_of_nil in Hin.
Qed.

(** C17: take a fresh pool and a manager of any class but the sink class, and run
    any sequence of its methods, raising or not.  Then the reference count of
    every non-null block is the number of table entries naming it, each table
    names a non-null block at most once, and a block is free exactly when no
    table names it: no reference is leaked and no block is freed twice. *)
Theorem reachable_manager_conserves n caching hbs ev coll p0 spec in_flight max_len enable gid dcp pcp m p s :
  Pool.init n caching hbs ev coll 0 [] = Ret p0 →
  (∀ k, spec_type spec ≠ SinkFullAttentionSpec k) →
  (∀ mode k, spec_type spec = MambaSpec mode k → 0 ≤ k) →
  get_manager_for_kv_cache_spec spec in_flight max_len enable gid dcp pcp p0 = (Ret m, p) →
  rtc manager_step (MState m p) s →
  (∀ rid l, req_to_blocks (mgr s) !! rid = Some l → table_ok (block_pool s) l) ∧
  ∃ st hi, pool_inv (block_pool s) st hi [] ∧
    ∀ b, b ∈ blocks (block_pool s) → b ≠ null_block (block_pool s) →
      ref (block_pool s) b = owned (mgr s) b ∧ (b ∈ st ++ hi ↔ owned (mgr s) b = 0).
Proof.
  intros Hinit Hsink Hspec Hm Hsteps.
  destruct (decide (0 < n)) as [Hn|Hn].
  2:{ unfold Pool.init in Hinit. rewrite (proj2 (Z.ltb_ge 0 n)) in Hinit by lia. done. }
  destruct (init_ok n caching hbs ev coll 0 [] Hn (or_introl eq_refl))
    as (p1 & Hp1 & Hi & _ & _ & _ & _ & _ & Hfresh & _).
  rewrite Hp1 in Hinit. simplify_eq.
  destruct (new_manager_inv _ _ _ _ _ _ _ _ _ _ _ _ _ Hsink Hspec Hi Hm eq_refl) as (-> & Hinv & Hempty).
  destruct (manager_steps_good _ _ Hinv Hsteps) as [Hinv' [Hpool _ Hrefs]].
  split; [apply Hinv'|]. destruct (mi_pool _ Hinv') as (st & hi & Hi'). exists st, hi. split; [done|].
  destruct (same_pool_blocks _ _ Hpool) as [Eb En]. intros b Hb Hnb.
  assert (Hr : ref (block_pool s) b = owned (mgr s) b).
  { rewrite Eb in Hb. rewrite En in Hnb. specialize (Hrefs b Hb Hnb). simpl in *.
    rewrite Hempty, entries_empty in Hrefs. destruct (Hfresh b Hb) as [H0 _]. lia. }
  split; [done|]. pose proof (pi_free _ _ _ _ Hi' b) as Hf. rewrite app_nil_r in Hf.
  rewrite Hf, <-Hr. split; [by intros (_ & _ & ?)|done].
Qed.

(** an allocation that returns gives the request the slots asked for: the
    table of a full, windowed or chunked manager covers [n] tokens, keeps its
    old entries in front and grows by exactly the blocks returned; it never
    grows by more than needed. *)
Theorem allocate_covers s rid n n_main :
  mgr_inv s → 0 < m_block_size (mgr s) →
  match class_of (mgr s) with
  | Some (FullAttentionManager | PrefixAnchoredSWAManager _ | SlidingWindowManager
         | ChunkedLocalAttentionManager | CrossAttentionManager) => True
  | _ => False
  end →
  wpe (Manager.allocate_new_blocks use_int rid n n_main) s (λ bs s',
    req_blocks (mgr s') rid = req_blocks (mgr s) rid ++ bs ∧
    n ≤ zlen (req_blocks (mgr s') rid) * m_block_size (mgr s) ∧
    zlen bs = Z.max 0 (cdiv n (m_block_size (mgr s)) - zlen (req_blocks (mgr s) rid)))
    (λ _ s', good s s').
Proof.
  intros Hi Hbs Hcls. unfold Manager.allocate_new_blocks. wpe_step. wpe_step.
  assert (Hbase : wpe (Base.allocate_new_blocks use_int rid n n_main) s (λ bs s',
    req_blocks (mgr s') rid = req_blocks (mgr s) rid ++ bs ∧
    n ≤ zlen (req_blocks (mgr s') rid) * m_block_size (mgr s) ∧
    zlen bs = Z.max 0 (cdiv n (m_block_size (mgr s)) - zlen (req_blocks (mgr s) rid)))
    (λ _ s', good s s')).
  { eapply wpe_mono; [by apply Base_allocate_new_blocks_good| |by intros ? ? [? _]].
    intros bs s' (_ & Hr & Hz & _). split; [done|]. split; [|done]. rewrite Hr, zlen_app, Hz.
    pose proof (cdiv_spec n (m_block_size (mgr s)) Hbs). nia. }
  destruct (class_of (mgr s)) as [[]|]; done.
Qed.

(** in [align] mode a Mamba allocation that returns leaves a table of exactly
    the blocks covering the main model's tokens plus the speculative ones, and
    returns the part added behind the old table. *)
Theorem mamba_align_allocate s rid n n_main :
  mgr_inv s → 0 < n_main → 0 < m_block_size (mgr s) →
  class_of (mgr s) = Some MambaManager → Mamba.is_align (mgr s) = true →
  wpe (Manager.allocate_new_blocks use_int rid n n_main) s (λ bs s',
    good s s' ∧
    zlen (req_blocks (mgr s') rid) =
      cdiv n_main (m_block_size (mgr s)) + Mamba.num_speculative_blocks (mgr s) ∧
    bs = py_from (req_blocks (mgr s') rid) (zlen (req_blocks (mgr s) rid)))
    (λ _ s', good s s').
Proof.
  intros Hi Hn Hbs Hcls Hal. unfold Manager.allocate_new_blocks. wpe_step. wpe_step. rewrite Hcls.
  eapply wpe_mono; [by apply Mamba_allocate_good| |done].
  intros bs s' [Hg Hb]. destruct (Hb Hal). done.
Qed.
End steps.

(** ** Witnesses *)

Lemma demo_manager spec :
  (∀ k, spec_type spec ≠ SinkFullAttentionSpec k) →
  (∀ mode k, spec_type spec = MambaSpec mode k → 0 ≤ k) →
  is_Some (spec_manager_map (spec_type spec)) →
  ∃ p m, Pool.init 4 true 2 true true 0 [] = Ret p ∧
    get_manager_for_kv_cache_spec spec 8 16 true 0 1 1 p = (Ret m, p) ∧
    mgr_inv (MState m p) ∧ kv_cache_spec m = spec ∧ m_block_size m = global_block_size spec 1 1.
Proof.
  intros Hsink Hspec [cls Hcls]. destruct demo_exists as (p & p2 & H).
  exists p, (Manager_init spec (null_block p) true 0 1 1 (max_admission_blocks_per_request spec 8 16) []).
  assert (E : get_manager_for_kv_cache_spec spec 8 16 true 0 1 1 p =
    (Ret (Manager_init spec (null_block p) true 0 1 1 (max_admission_blocks_per_request spec 8 16) []), p)).
  { unfold get_manager_for_kv_cache_spec. rewrite Hcls. 
    destruct (spec_type spec) eqn:Es; simpl in Hcls; simplify_eq; try done. by destruct (Hsink _ eq_refl). }
  split; [apply H|]. split; [done|]. split; [|done].
  by destruct (new_manager_inv _ _ _ _ _ _ _ _ _ _ _ _ _ Hsink Hspec (demo_inv _ _ H) E eq_refl) as (_ & ? & _).
Qed.

Lemma reachable_manager_conserves_witness : ∃ s,
  ∃ st hi, pool_inv (block_pool s) st hi [] ∧
    ∀ b, b ∈ blocks (block_pool s) → b ≠ null_block (block_pool s) →
      ref (block_pool s) b = owned (mgr s) b.
Proof.
  destruct (demo_manager (mkSpec (SlidingWindowSpec 3) 2 true)) as (p & m & Hp & Hm & Hi & Hs & Hb);
    [done|done|by eexists|].
  destruct (Manager.allocate_new_blocks false "a" 4 4 (MState m p)) as [o s] eqn:E.
  exists s. destruct (reachable_manager_conserves id false 4 true 2 true true p
    (mkSpec (SlidingWindowSpec 3) 2 true) 8 16 true 0 1 1 m p s Hp) as (_ & st & hi & Hi' & Hall);
    [done|done|done| |].
  - apply rtc_once. apply (step_allocate id false (MState m p) "a" 4 4 o s); [lia| |done].
    simpl. rewrite Hb. vm_compute. done.
  - exists st, hi. split; [done|]. intros b Hb1 Hb2. by destruct (Hall b Hb1 Hb2).
Defined.

Lemma allocate_covers_witness : ∃ s,
  wpe (Manager.allocate_new_blocks false "a" 4 4) s (λ bs s', zlen bs = 2) (λ _ s', good s s').
Proof.
  destruct (demo_manager (mkSpec FullAttentionSpec 2 true)) as (p & m & Hp & Hm & Hi & Hs & Hb);
    [done|done|by eexists|].
  exists (MState m p).
  assert (Hz : zlen (req_blocks (mgr (MState m p)) "a") = 0).
  { assert (req_to_blocks m = ∅) as He.
    { unfold get_manager_for_kv_cache_spec in Hm. simpl in Hm. unfold mbind, M_bind, get, mret, M_ret in Hm.
      by simplify_eq. }
    unfold req_blocks. simpl. by rewrite He. }
  eapply wpe_mono; [apply (allocate_covers false (MState m p) "a" 4 4 Hi)| |done].
  - simpl. rewrite Hb. vm_compute. done.
  - unfold class_of. simpl. by rewrite Hs.
  - intros bs s' (_ & _ & Hl). rewrite Hl, Hz. simpl. rewrite Hb. reflexivity.
Defined.

Lemma mamba_align_allocate_witness : ∃ s,
  wpe (Manager.allocate_new_blocks false "a" 4 4) s
    (λ bs s', zlen (req_blocks (mgr s') "a") = 3) (λ _ s', good s s').
Proof.
  destruct (demo_manager (mkSpec (MambaSpec "align" 1) 2 false)) as (p & m & Hp & Hm & Hi & Hs & Hb);
    [done|by intros mode k [= <- <-]|by eexists|].
  exists (MState m p).
  eapply wpe_mono; [apply (mamba_align_allocate false (MState m p) "a" 4 4 Hi)| |done].
  - lia.
  - simpl. rewrite Hb. vm_compute. done.
  - unfold class_of. simpl. by rewrite Hs.
  - unfold Mamba.is_align. simpl. by rewrite Hs.
  - intros bs s' (_ & Hl & _). rewrite Hl. unfold Mamba.num_speculative_blocks. simpl. rewrite Hs, Hb. reflexivity.
Defined.
