(* ===== verification/Admission.v ===== *)
(** * Admission: predicted demand, released windows, per-request caps

    [get_num_blocks_to_allocate] predicts exactly the free blocks the allocation
    calls use up; [remove_skipped_blocks] releases exactly the blocks outside the
    attention window; and a request of a windowed class never holds more blocks
    than the cap the startup pool sizer reserves. *)

From S2P Require Import Prelude.
From S2P Require Import FreeQueue.
From S2P Require Import BlockPool.
From S2P Require Import BlockPoolInv.
From S2P Require Import BlockPoolSpec.
From S2P Require Import BlockPoolOps.
From S2P Require Import BlockPoolProps.
From S2P Require Import PoolTheorems.
From S2P Require Import KVCacheSpec.
From S2P Require Import SingleType.
From S2P Require Import SingleTypeSpec.
From S2P Require Import SingleTypeOps.
From S2P Require Import SingleTypeTheorems.
Local Open Scope Z_scope.

Lemma wpe_wp {S A} (m : M S A) s (Q : A → S → Prop) (E : exn → S → Prop) :
  wpe m s Q E → (∀ e s', E e s' → False) → wp m s Q.
Proof. unfold wpe, wp. destruct (m s) as [[a|e] s']; naive_solver. Qed.

(** The classes whose prediction and allocation are the base methods. *)
Definition base_class (c : option manager_class) : Prop :=
  match c with
  | Some (FullAttentionManager | PrefixAnchoredSWAManager _ | SlidingWindowManager
         | ChunkedLocalAttentionManager) => True
  | _ => False
  end.

Lemma good_class s s' : good s s' → class_of (mgr s') = class_of (mgr s).
Proof. intros [_ [_ Ha _]]. unfold class_of. by rewrite Ha. Qed.

(** The value of the base prediction. *)
Definition predicted (s : mstate) (rid : string) (n : Z) (computed : list loc) (total : Z) : Z :=
  let m := mgr s in
  let required := cdiv n (m_block_size m) in
  match num_cached_block m !! rid with
  | Some _ => Z.max (required - zlen (req_blocks m rid)) 0
  | None =>
      let skipped := get_num_skipped_tokens m total / m_block_size m in
      Z.max (required - Z.max skipped (zlen computed + zlen (req_blocks m rid))) 0 +
      _get_num_evictable_blocks (block_pool s)
        (py_from computed (Z.max 0 (skipped - zlen (req_blocks m rid))))
  end.

Section admission.
Context (use_int : bool).

Lemma base_predicted s rid n computed total n_main :
  (is_Some (num_cached_block (mgr s) !! rid) → computed = []) →
  wp (Base.get_num_blocks_to_allocate rid n computed total n_main false) s
    (λ k s', s' = s ∧ k = predicted s rid n computed total).
Proof.
  intros Hc. unfold Base.get_num_blocks_to_allocate, predicted. wp_step. wp_step. cbv zeta.
  destruct (num_cached_block (mgr s) !! rid); [|by wp_step].
  wp_step. apply wp_assert; [by rewrite Hc|]. by wp_step.
Qed.

Lemma predicted_new s rid n computed local external :
  computed_ok s computed local external → num_cached_block (mgr s) !! rid = None →
  req_blocks (mgr s) rid = [] → local + external ≤ n →
  predicted s rid n computed (local + external) =
    computed_demand s computed local external +
    Z.max 0 (cdiv n (m_block_size (mgr s)) -
      (zlen (computed_table (mgr s) computed (local + external)) +
       if 0 <? external_left (mgr s) local external
       then cdiv (local + external) (m_block_size (mgr s))
            - zlen (computed_table (mgr s) computed (local + external)) else 0)).
Proof.
  intros Hc Hn Hr Hle. pose proof (table_nonneg_demand s computed local external Hc) as Hnn.
  destruct Hc as (_ & Hbs & _). unfold predicted. rewrite Hn, Hr.
  change (zlen []) with 0. rewrite Z.add_0_r, Z.sub_0_r.
  unfold computed_demand. rewrite computed_table_length in *.
  set (skipped := get_num_skipped_tokens _ _ / _) in *.
  assert (Hs : py_from computed (Z.max 0 skipped) = computed_suffix (mgr s) computed (local + external)).
  { unfold computed_suffix. fold skipped. destruct (Z.ltb_spec 0 skipped).
    - by replace (Z.max 0 skipped) with skipped by lia.
    - replace (Z.max 0 skipped) with 0 by lia. by rewrite py_from_nonneg. }
  rewrite Hs. pose proof (zlen_nonneg computed).
  pose proof (cdiv_mono (local + external) n (m_block_size (mgr s)) Hbs Hle). case_match; lia.
Qed.

Lemma allocate_base s rid n n_main :
  base_class (class_of (mgr s)) →
  Manager.allocate_new_blocks use_int rid n n_main s = Base.allocate_new_blocks use_int rid n n_main s.
Proof.
  intros Hcls. unfold Manager.allocate_new_blocks, get, mbind, M_bind.
  by destruct (class_of (mgr s)) as [[]|].
Qed.

(** The allocation after the computed blocks, with [left] blocks still missing. *)
Lemma allocate_rest s s1 rid n n_main k :
  good s s1 → base_class (class_of (mgr s)) → is_single (block_pool s) →
  0 < m_block_size (mgr s) →
  Z.max 0 (cdiv n (m_block_size (mgr s)) - zlen (req_blocks (mgr s1) rid)) = k →
  k ≤ free_count (block_pool s1) →
  wp (Manager.allocate_new_blocks use_int rid n n_main) s1 (λ bs s', good s s' ∧
    n ≤ zlen (req_blocks (mgr s') rid) * m_block_size (mgr s) ∧
    free_count (block_pool s') = free_count (block_pool s1) - k).
Proof.
  intros Hg Hcls Hsing Hbs Hk Hfree.
  assert (Hm : m_block_size (mgr s1) = m_block_size (mgr s)) by (by rewrite (co_args _ _ (proj2 Hg))).
  eapply wp_eq; [apply allocate_base; by rewrite (good_class _ _ Hg)|].
  eapply wp_mono.
  { eapply wpe_wp; [by apply Base_allocate_new_blocks_good, Hg|].
    intros e s' [_ Hsh]. specialize (Hsh (is_single_same _ _ (co_pool _ _ (proj2 Hg)) Hsing)).
    rewrite Hm in Hsh. lia. }
  intros bs s' (Hg' & Hr & Hz & Hfc). rewrite Hm in Hz. split; [by eapply good_trans|].
  split; [|lia]. rewrite Hr, zlen_app, Hz.
  pose proof (cdiv_spec n (m_block_size (mgr s)) Hbs). nia.
Qed.

(** C18: the predictor is exact: on a pool with one free queue, when
    [get_num_blocks_to_allocate] returns [k] and at least [k] blocks are free,
    adding the computed blocks and then allocating [n] tokens cannot raise, gives
    the request [n] token slots, and uses up exactly [k] free blocks. *)
Theorem predictor_exact s rid n computed local external n_main :
  mgr_inv s → is_single (block_pool s) → base_class (class_of (mgr s)) →
  computed_ok s computed local external → callable s rid computed → local + external ≤ n →
  wp (Manager.get_num_blocks_to_allocate rid n computed (local + external) n_main false) s (λ k s0,
    s0 = s ∧ (k ≤ free_count (block_pool s) →
      wp (Manager.allocate_new_computed_blocks use_int rid computed local external ;;
          Manager.allocate_new_blocks use_int rid n n_main) s (λ _ s',
        good s s' ∧ n ≤ zlen (req_blocks (mgr s') rid) * m_block_size (mgr s) ∧
        free_count (block_pool s') = free_count (block_pool s) - k))).
Proof.
  intros Hi Hsing Hcls Hc Hcall Hle. unfold Manager.get_num_blocks_to_allocate. wp_step. wp_step.
  assert (Hp : wp (Base.get_num_blocks_to_allocate rid n computed (local + external) n_main false) s
    (λ k s', s' = s ∧ k = predicted s rid n computed (local + external))).
  { apply base_predicted. intros [x Hx]. unfold callable in Hcall. by rewrite Hx in Hcall. }
  eapply wp_mono; [destruct (class_of (mgr s)) as [[]|]; done|]. intros k s0 [-> ->].
  split; [done|]. intros Hfree. wp_step.
  assert (Hac : wp (Base.allocate_new_computed_blocks use_int rid computed local external) s (λ _ s1,
    good s s1 ∧
    Z.max 0 (cdiv n (m_block_size (mgr s)) - zlen (req_blocks (mgr s1) rid)) =
      predicted s rid n computed (local + external) -
      (free_count (block_pool s) - free_count (block_pool s1)))).
  { assert (Hw := Base_allocate_computed_good use_int s rid computed local external Hi Hc).
    eapply wp_mono; [eapply wpe_wp; [exact Hw|]|].
    - intros e s1 [_ Hsh]. destruct (Hsh Hcall Hsing) as [En Hlt]. unfold callable in Hcall.
      rewrite En in Hcall. destruct Hcall as [Hr _].
      rewrite (predicted_new s rid n computed local external) in Hfree by done. lia.
    - intros [] s1 [Hg Hres]. split; [done|]. unfold callable in Hcall.
      destruct (num_cached_block (mgr s) !! rid) eqn:En.
      + subst s1. unfold predicted. rewrite En. lia.
      + destruct Hres as (extra & Hr1 & Hz & Hfc). destruct Hcall as [Hr _].
        rewrite (predicted_new s rid n computed local external) by done.
        rewrite Hr1, zlen_app, Hz, Hfc. lia. }
  eapply wp_mono.
  { unfold Manager.allocate_new_computed_blocks. wp_step. wp_step.
    destruct (class_of (mgr s)) as [[]|]; try done; exact Hac. }
  intros [] s1 [Hg Hk]. eapply wp_mono; [eapply allocate_rest; try done; [apply Hc|]|].
  - lia.
  - intros bs s' (Hg' & Hn & Hf). split; [done|]. split; [done|]. lia.
Qed.
End admission.

(** ** Releasing the blocks outside the window *)

(** The entries of [A], which sit at [k], [k + 1], ..., whose index satisfies
    [P], last one first. *)
Fixpoint released (P : Z → bool) (k : Z) (A : list loc) : list loc :=
  match A with
  | [] => []
  | x :: A' => released P (k + 1) A' ++ if P k then [x] else []
  end.

Lemma released_snoc P A x : ∀ k,
  released P k (A ++ [x]) = (if P (k + zlen A) then [x] else []) ++ released P k A.
Proof.
  induction A as [|y A IH]; intros k; simpl.
  - rewrite zlen_nil, Z.add_0_r. by rewrite app_nil_r.
  - rewrite IH, zlen_cons. replace (k + 1 + zlen A) with (k + (zlen A + 1)) by lia.
    by rewrite (assoc_L (++)).
Qed.

Definition in_hold (hold : option (Z * Z)) (i : Z) : bool :=
  match hold with Some (a, z) => (a <=? i) && (i <? z) | None => false end.

Lemma py_range_down_snoc n : 0 ≤ n → py_range_down 0 (n + 1) = n :: py_range_down 0 n.
Proof.
  intros Hn. unfold py_range_down, py_range. rewrite !Z.sub_0_r.
  rewrite (seqZ_app 0 n 1) by lia. rewrite rev_app_distr. simpl. done.
Qed.

Lemma zlen_replicate {A} n (x : A) : zlen (replicate n x) = Z.of_nat n.
Proof. unfold zlen. by rewrite length_replicate. Qed.

(** On a table that is a run of null blocks followed by [A] and [B], the loop
    over the first [k + length A] indices releases exactly [A]. *)
Lemma remove_loop_window null hold k A : ∀ B freed replay,
  Forall (.≠ null) A →
  Base.remove_loop null hold (py_range_down 0 (Z.of_nat k + zlen A)) (replicate k null ++ A ++ B)
    freed replay =
  Some (replicate (k + length A) null ++ B,
        freed ++ released (λ i, negb (in_hold hold i)) (Z.of_nat k) A,
        replay ++ released (in_hold hold) (Z.of_nat k) A).
Proof.
  induction A as [|x A IH] using rev_ind; intros B freed replay Hall.
  - change (zlen []) with 0. cbn [length released app]. rewrite Z.add_0_r, Nat.add_0_r, !app_nil_r.
    destruct k as [|k]; [done|].
    replace (Z.of_nat (S k)) with (Z.of_nat k + 1) by lia. rewrite py_range_down_snoc by lia.
    cbn [Base.remove_loop]. rewrite py_get_nonneg, Nat2Z.id by lia.
    rewrite lookup_app_l by (rewrite length_replicate; lia). rewrite lookup_replicate_2 by lia. simpl.
    by rewrite decide_True.
  - apply Forall_app in Hall as [HA Hx]. apply Forall_cons in Hx as [Hx _].
    rewrite zlen_app. change (zlen [x]) with 1. rewrite Z.add_assoc, py_range_down_snoc
      by (pose proof (zlen_nonneg A); lia).
    cbn [Base.remove_loop]. pose proof (zlen_nonneg A). rewrite py_get_nonneg by lia.
    assert (Hidx : Z.to_nat (Z.of_nat k + zlen A) = (k + length A)%nat) by (unfold zlen; lia).
    rewrite Hidx, <-(assoc_L (++)), (assoc_L (++) (replicate k null)).
    assert (Hlen : length (replicate k null ++ A) = (k + length A)%nat)
      by (rewrite length_app, length_replicate; done).
    rewrite lookup_app_r by lia. rewrite Hlen, Nat.sub_diag. simpl.
    rewrite decide_False by done.
    rewrite py_set_ok by (unfold zlen; rewrite length_app, Hlen; simpl; lia).
    simpl. rewrite Hidx. rewrite insert_app_r_alt by lia. rewrite Hlen, Nat.sub_diag. simpl.
    rewrite <-(assoc_L (++)). fold (in_hold hold (Z.of_nat k + zlen A)).
    rewrite !released_snoc, length_app. simpl.
    replace (replicate (k + (length A + 1)) null ++ B) with (replicate (k + length A) null ++ null :: B).
    2:{ rewrite Nat.add_assoc, (replicate_add (k + length A) 1). simpl. by rewrite <-(assoc_L (++)). }
    destruct (in_hold hold (Z.of_nat k + zlen A)); simpl;
      rewrite IH by done; rewrite <-?(assoc_L (++)); done.
Qed.

(** A table of a windowed request: null blocks up to the window, blocks after. *)
Definition windowed (null : loc) (k : nat) (l : list loc) : Prop :=
  ∃ rest, l = replicate k null ++ rest ∧ Forall (.≠ null) rest.

(** Releasing below [limit] leaves null blocks up to [limit] (or the end, or the
    old window start) and the entries behind untouched. *)
Lemma remove_range_window s rid limit hold reuse_first k :
  mgr_inv s → windowed (null_block (block_pool s)) k (req_blocks (mgr s) rid) →
  let l := req_blocks (mgr s) rid in
  let m := Nat.max k (Z.to_nat (Z.min limit (zlen l))) in
  wp (Base._remove_blocks_in_range rid 0 limit hold reuse_first) s (λ _ s',
    good s s' ∧
    req_blocks (mgr s') rid = replicate m (null_block (block_pool s)) ++ drop m l ∧
    windowed (null_block (block_pool s)) m (req_blocks (mgr s') rid)).
Proof.
  intros Hi (rest & El & Hrest) l m. fold l in El.
  eapply wp_mono; [by apply remove_range_good|].
  intros [] s' (Hg & _ & l' & freed & replay & _ & _ & Hl' & E). split; [done|]. fold l in E.
  set (null := null_block (block_pool s)) in *.
  assert (Hzl : zlen l = Z.of_nat k + zlen rest) by (rewrite El, zlen_app, zlen_replicate; done).
  set (lim := Z.min limit (zlen l)) in *.
  assert (Hcase : l' = replicate m null ++ drop m l).
  { destruct (decide (lim ≤ Z.of_nat k)) as [Hle|Hgt].
    - (* nothing to release: the highest index is null already *)
      assert (m = k) as -> by (unfold m; fold lim; lia).
      assert (Hloop : Base.remove_loop null hold (py_range_down 0 lim) l [] [] = Some (l, [], [])).
      { destruct (decide (0 < lim)) as [Hp|Hp].
        - replace lim with (lim - 1 + 1) by lia. rewrite py_range_down_snoc by lia.
          cbn [Base.remove_loop]. rewrite py_get_nonneg by lia. rewrite El.
          rewrite lookup_app_l by (rewrite length_replicate; lia).
          rewrite lookup_replicate_2 by lia. simpl. by rewrite decide_True.
        - unfold py_range_down, py_range, seqZ. replace (Z.to_nat (lim - 0)) with 0%nat by lia. done. }
      rewrite Hloop in E. injection E as <- _ _. rewrite El.
      rewrite drop_app_length'; [done|by rewrite length_replicate].
    - set (a := Z.to_nat (lim - Z.of_nat k)).
      assert (Ha : (a ≤ length rest)%nat) by (unfold a, lim, zlen in *; lia).
      assert (Hm : m = (k + a)%nat) by (unfold m, a; fold lim; lia).
      assert (El2 : l = replicate k null ++ take a rest ++ drop a rest) by by rewrite take_drop.
      assert (Hlim : lim = Z.of_nat k + zlen (take a rest)).
      { unfold zlen. rewrite length_take, Nat.min_l by lia. unfold a. lia. }
      rewrite Hlim in E. rewrite El2 in E at 1.
      rewrite remove_loop_window in E by by apply Forall_take. injection E as <- _ _.
      rewrite length_take, Nat.min_l by lia. rewrite Hm. f_equal.
      rewrite El, drop_app, length_replicate, (drop_ge (replicate _ _)) by (rewrite length_replicate; lia).
      simpl. f_equal. lia. }
  rewrite Hl', Hcase. split; [done|]. exists (drop m l). split; [done|].
  rewrite El, drop_app, length_replicate, (drop_ge (replicate _ _)) by (rewrite length_replicate; unfold m; lia).
  simpl. by apply Forall_drop.
Qed.

(** A sliding-window request whose table is null up to some point and real
    from there keeps that shape: after [remove_skipped_blocks] the entries of
    the blocks wholly before the window of the next token are null, and every
    entry from the window on is untouched. *)
Theorem swa_remove_skipped s rid n np w k :
  mgr_inv s → class_of (mgr s) = Some SlidingWindowManager →
  sliding_window_of (spec_type (kv_cache_spec (mgr s))) = Some w →
  windowed (null_block (block_pool s)) k (req_blocks (mgr s) rid) →
  let l := req_blocks (mgr s) rid in
  let skipped := Z.max 0 (n - w + 1) / m_block_size (mgr s) in
  let m := Nat.max k (Z.to_nat (Z.min skipped (zlen l))) in
  0 < m_block_size (mgr s) →
  wp (Manager.remove_skipped_blocks rid n np) s (λ _ s',
    good s s' ∧
    req_blocks (mgr s') rid = replicate m (null_block (block_pool s)) ++ drop m l ∧
    windowed (null_block (block_pool s)) m (req_blocks (mgr s') rid)).
Proof.
  intros Hi Hcls Hw Hwin l skipped m Hbs. unfold Manager.remove_skipped_blocks. wp_step. wp_step.
  rewrite Hcls. unfold Base.remove_skipped_blocks. wp_step. wp_step. cbv zeta.
  assert (Hskip : get_num_skipped_tokens (mgr s) n = Z.max 0 (n - w + 1)).
  { unfold get_num_skipped_tokens. unfold class_of in Hcls.
    destruct (spec_type (kv_cache_spec (mgr s))); simpl in *; congruence. }
  rewrite Hskip. fold skipped. destruct (Z.leb_spec (Z.max 0 (n - w + 1)) 0) as [Hle|Hgt].
  - wp_step. assert (Hm : m = k).
    { assert (skipped = 0) by (unfold skipped; replace (Z.max 0 (n - w + 1)) with 0 by lia; by apply Z.div_0_l; lia).
      unfold m. lia. }
    split; [by apply good_refl|]. rewrite Hm. split; [|done].
    destruct Hwin as (rest & El & _). fold l in El. rewrite El.
    rewrite drop_app_length'; [done|by rewrite length_replicate].
  - destruct (reuse_window (mgr s)); by apply remove_range_window.
Qed.

(** ** The per-request cap *)

(** The real blocks a table holds. *)
Definition held (null : loc) (l : list loc) : Z := zlen (filter (.≠ null) l).

Lemma held_app null l l' : held null (l ++ l') = held null l + held null l'.
Proof. unfold held. by rewrite filter_app, zlen_app. Qed.

Lemma held_le null l : held null l ≤ zlen l.
Proof. unfold held, zlen. pose proof (length_filter (.≠ null) l). lia. Qed.

Lemma held_replicate null n : held null (replicate n null) = 0.
Proof.
  unfold held. rewrite filter_false; [done|]. intros x [-> _]%elem_of_replicate. auto.
Qed.

Lemma cdiv_sub_floor n s b : 0 < b → cdiv n b - s / b ≤ cdiv (n - s) b + 1.
Proof.
  intros Hb. pose proof (cdiv_spec n b Hb). pose proof (cdiv_spec (n - s) b Hb).
  pose proof (Z.div_mod s b ltac:(lia)). pose proof (Z.mod_pos_bound s b Hb). nia.
Qed.

Lemma cdiv_sub_exact n q b : 0 < b → cdiv n b - q = cdiv (n - q * b) b.
Proof.
  intros Hb. pose proof (cdiv_spec n b Hb). pose proof (cdiv_spec (n - q * b) b Hb). nia.
Qed.

Section cap.
Context (use_int : bool).

(** One scheduling step of a windowed request: release, then allocate. *)
Definition windowed_step (rid : string) (processed n n_main : Z) (np : option Z) : M mstate (list loc) :=
  Manager.remove_skipped_blocks rid processed np ;;
  Manager.allocate_new_blocks use_int rid n n_main.

Definition windowed_class (c : option manager_class) : Prop :=
  c = Some SlidingWindowManager ∨ c = Some ChunkedLocalAttentionManager.

Lemma remove_skipped_window s rid n np k :
  mgr_inv s → windowed_class (class_of (mgr s)) → 0 < m_block_size (mgr s) →
  0 ≤ get_num_skipped_tokens (mgr s) n →
  windowed (null_block (block_pool s)) k (req_blocks (mgr s) rid) →
  let l := req_blocks (mgr s) rid in
  let m := Nat.max k (Z.to_nat (Z.min (get_num_skipped_tokens (mgr s) n / m_block_size (mgr s)) (zlen l))) in
  wp (Manager.remove_skipped_blocks rid n np) s (λ _ s',
    good s s' ∧ req_blocks (mgr s') rid = replicate m (null_block (block_pool s)) ++ drop m l).
Proof.
  intros Hi Hcls Hbs Hge Hwin l m. unfold Manager.remove_skipped_blocks. wp_step. wp_step.
  assert (Hbase : wp (Base.remove_skipped_blocks rid n np) s (λ _ s',
    good s s' ∧ req_blocks (mgr s') rid = replicate m (null_block (block_pool s)) ++ drop m l)).
  { unfold Base.remove_skipped_blocks. wp_step. wp_step. cbv zeta.
    destruct (Z.leb_spec (get_num_skipped_tokens (mgr s) n) 0) as [Hle|Hgt].
    - wp_step. split; [by apply good_refl|].
      assert (H0 : get_num_skipped_tokens (mgr s) n = 0) by lia.
      unfold m. rewrite H0, Z.div_0_l by lia. replace (Nat.max k _) with k by lia.
      destruct Hwin as (rest & El & _). fold l in El. rewrite El.
      rewrite drop_app_length'; [done|by rewrite length_replicate].
    - destruct (reuse_window (mgr s)); (eapply wp_mono; [by apply remove_range_window|]);
        intros [] s' (Hg & Hr & _); done. }
  destruct Hcls as [-> | ->]; exact Hbase.
Qed.

Lemma windowed_step_held s rid processed n n_main np k :
  mgr_inv s → windowed_class (class_of (mgr s)) → 0 < m_block_size (mgr s) →
  0 ≤ get_num_skipped_tokens (mgr s) processed ≤ processed →
  windowed (null_block (block_pool s)) k (req_blocks (mgr s) rid) →
  processed ≤ zlen (req_blocks (mgr s) rid) * m_block_size (mgr s) →
  zlen (req_blocks (mgr s) rid) ≤ cdiv n (m_block_size (mgr s)) →
  wpe (windowed_step rid processed n n_main np) s (λ _ s',
    held (null_block (block_pool s)) (req_blocks (mgr s') rid) ≤
      cdiv n (m_block_size (mgr s))
      - get_num_skipped_tokens (mgr s) processed / m_block_size (mgr s)) (λ _ s', good s s').
Proof.
  intros Hi Hcls Hbs [Hs0 Hs1] Hwin Hcov Hlen. unfold windowed_step. wpe_step. apply wp_wpe.
  set (l := req_blocks (mgr s) rid) in *. set (S := get_num_skipped_tokens (mgr s) processed) in *.
  set (bs := m_block_size (mgr s)) in *.
  eapply wp_mono; [by apply (remove_skipped_window s rid processed np k)|]. cbv zeta. fold l S bs.
  set (m := Nat.max k _). intros [] s1 [Hg1 Hr1].
  assert (Hm : m_block_size (mgr s1) = bs) by (by rewrite (co_args _ _ (proj2 Hg1))).
  assert (Hb1 : base_class (class_of (mgr s1))).
  { rewrite (good_class _ _ Hg1). by destruct Hcls as [-> | ->]. }
  apply (wpe_mono _ _ (λ b s', req_blocks (mgr s') rid = req_blocks (mgr s1) rid ++ b ∧
    zlen b = Z.max 0 (cdiv n bs - zlen (req_blocks (mgr s1) rid))) _ (λ _ s', good s1 s')).
  { unfold wpe. rewrite allocate_base by done.
    pose proof (Base_allocate_new_blocks_good use_int s1 rid n n_main (proj1 Hg1)) as Hw.
    unfold wpe in Hw. rewrite Hm in Hw. destruct (Base.allocate_new_blocks _ _ _ _ s1) as [[b|e] s']; tauto. }
  2:{ intros e s' Hg. by eapply good_trans. }
  intros b s' [Hr Hz]. rewrite Hr, Hr1, !held_app, held_replicate.
  assert (Hl1 : zlen (req_blocks (mgr s1) rid) = Z.of_nat m + zlen (drop m l))
    by (rewrite Hr1, zlen_app, zlen_replicate; done).
  assert (Hml : (m ≤ length l)%nat).
  { destruct Hwin as (rest & El & _). unfold m. assert (k ≤ length l)%nat
      by (rewrite El, length_app, length_replicate; lia). unfold zlen. lia. }
  assert (Hd : zlen (drop m l) = zlen l - Z.of_nat m) by (unfold zlen; rewrite length_drop; lia).
  assert (S / bs ≤ zlen l) by (apply Z.div_le_upper_bound; nia).
  assert (S / bs ≤ Z.of_nat m) by (unfold m; lia).
  pose proof (held_le (null_block (block_pool s)) (drop m l)).
  pose proof (held_le (null_block (block_pool s)) b). lia.
Qed.

(** a sliding-window request never holds more real blocks than the admission
    cap: after releasing what [processed] tokens allow and allocating up to [n]
    tokens, at most [max_in_flight] of them not yet processed and at most
    [max_len] in all, the non-null entries of its table are within
    [max_admission_blocks_per_request]. *)
Theorem swa_held_within_cap s rid processed n n_main np k w in_flight max_len cap :
  mgr_inv s → class_of (mgr s) = Some SlidingWindowManager →
  sliding_window_of (spec_type (kv_cache_spec (mgr s))) = Some w → 1 ≤ w →
  m_block_size (mgr s) = spec_block_size (kv_cache_spec (mgr s)) → 0 < m_block_size (mgr s) →
  windowed (null_block (block_pool s)) k (req_blocks (mgr s) rid) →
  0 ≤ processed ≤ zlen (req_blocks (mgr s) rid) * m_block_size (mgr s) →
  zlen (req_blocks (mgr s) rid) ≤ cdiv n (m_block_size (mgr s)) →
  n ≤ processed + in_flight → n ≤ max_len →
  max_admission_blocks_per_request (kv_cache_spec (mgr s)) in_flight max_len = Some cap →
  wpe (windowed_step rid processed n n_main np) s (λ _ s',
    held (null_block (block_pool s)) (req_blocks (mgr s') rid) ≤ cap) (λ _ s', good s s').
Proof.
  intros Hi Hcls Hw Hw1 Hbs Hpos Hwin Hproc Hlen Hn1 Hn2 Hcap.
  assert (Hskip : get_num_skipped_tokens (mgr s) processed = Z.max 0 (processed - w + 1)).
  { unfold get_num_skipped_tokens. unfold class_of in Hcls.
    destruct (spec_type (kv_cache_spec (mgr s))); simpl in *; congruence. }
  assert (Hcapv : cap = cdiv (Z.min (w - 1 + in_flight) max_len) (m_block_size (mgr s)) + 1).
  { unfold max_admission_blocks_per_request in Hcap. rewrite Hbs. unfold class_of in Hcls.
    destruct (spec_type (kv_cache_spec (mgr s))); simpl in *; congruence. }
  eapply wpe_mono; [apply (windowed_step_held s rid processed n n_main np k); try done| |done].
  - by left.
  - rewrite Hskip. lia.
  - tauto.
  - intros b s' Hle. rewrite Hskip in Hle. etransitivity; [exact Hle|]. rewrite Hcapv.
    set (S := Z.max 0 _). set (bs := m_block_size (mgr s)) in *.
    pose proof (cdiv_sub_floor n S bs Hpos).
    assert (0 ≤ S / bs) by (apply Z.div_pos; lia).
    destruct (Z.min_spec (w - 1 + in_flight) max_len) as [[_ ->]|[_ ->]].
    + pose proof (cdiv_mono (n - S) (w - 1 + in_flight) bs Hpos ltac:(lia)). lia.
    + pose proof (cdiv_mono n max_len bs Hpos Hn2). lia.
Qed.

(** the same for a chunked-local request whose chunk is a whole number of
    blocks: the blocks it holds stay within its cap, which has no extra block. *)
Theorem chunked_held_within_cap s rid processed n n_main np k c in_flight max_len cap :
  mgr_inv s → class_of (mgr s) = Some ChunkedLocalAttentionManager →
  chunk_size_of (spec_type (kv_cache_spec (mgr s))) = Some c → 0 < c →
  c mod m_block_size (mgr s) = 0 →
  m_block_size (mgr s) = spec_block_size (kv_cache_spec (mgr s)) → 0 < m_block_size (mgr s) →
  windowed (null_block (block_pool s)) k (req_blocks (mgr s) rid) →
  0 ≤ processed ≤ zlen (req_blocks (mgr s) rid) * m_block_size (mgr s) →
  zlen (req_blocks (mgr s) rid) ≤ cdiv n (m_block_size (mgr s)) →
  n ≤ processed + in_flight → n ≤ max_len →
  max_admission_blocks_per_request (kv_cache_spec (mgr s)) in_flight max_len = Some cap →
  wpe (windowed_step rid processed n n_main np) s (λ _ s',
    held (null_block (block_pool s)) (req_blocks (mgr s') rid) ≤ cap) (λ _ s', good s s').
Proof.
  intros Hi Hcls Hc Hc0 Hmod Hbs Hpos Hwin Hproc Hlen Hn1 Hn2 Hcap.
  assert (Hskip : get_num_skipped_tokens (mgr s) processed = processed / c * c).
  { unfold get_num_skipped_tokens. unfold class_of in Hcls.
    destruct (spec_type (kv_cache_spec (mgr s))); simpl in *; congruence. }
  assert (Hcapv : cap = cdiv (Z.min (c + in_flight) max_len) (m_block_size (mgr s))).
  { unfold max_admission_blocks_per_request in Hcap. rewrite Hbs. unfold class_of in Hcls.
    destruct (spec_type (kv_cache_spec (mgr s))); simpl in *; congruence. }
  pose proof (Z.div_mod processed c ltac:(lia)). pose proof (Z.mod_pos_bound processed c Hc0).
  assert (0 ≤ processed / c) by (apply Z.div_pos; lia).
  eapply wpe_mono; [apply (windowed_step_held s rid processed n n_main np k); try done| |done].
  - by right.
  - rewrite Hskip. nia.
  - tauto.
  - intros b s' Hle. rewrite Hskip in Hle. etransitivity; [exact Hle|]. rewrite Hcapv.
    set (bs := m_block_size (mgr s)) in *. apply Z.mod_divide in Hmod as [z ->]; [|lia].
    set (q := processed / (z * bs)) in *.
    replace (q * (z * bs)) with (q * z * bs) by lia. rewrite Z.div_mul by lia.
    rewrite cdiv_sub_exact by done. apply cdiv_mono; [done|]. assert (0 ≤ q * z * bs) by nia. nia.
Qed.
End cap.

(** ** Witnesses *)

Lemma demo_empty spec m p :
  get_manager_for_kv_cache_spec spec 8 16 true 0 1 1 p = (Ret m, p) →
  (∀ k, spec_type spec ≠ SinkFullAttentionSpec k) → is_Some (spec_manager_map (spec_type spec)) →
  req_to_blocks m = ∅ ∧ num_cached_block m = ∅ ∧ m_enable_caching m = true.
Proof.
  intros Hm Hsink [cls Hcls]. unfold get_manager_for_kv_cache_spec in Hm. rewrite Hcls in Hm.
  destruct (spec_type spec) eqn:Es; simpl in *; simplify_eq; unfold mbind, M_bind, get, mret, M_ret in Hm;
    try (by simplify_eq). by destruct (Hsink _ eq_refl).
Qed.

Lemma predictor_exact_witness : ∃ s,
  wp (Manager.get_num_blocks_to_allocate "a" 4 [] (0 + 0) 4 false) s (λ k s0, s0 = s).
Proof.
  destruct (demo_manager (mkSpec FullAttentionSpec 2 true)) as (p & m & Hp & Hm & Hi & Hs & Hb);
    [done|done|by eexists|].
  destruct (demo_empty _ _ _ Hm) as (He & Hn & Hc); [done|by eexists|].
  exists (MState m p). eapply wp_mono; [apply (predictor_exact false (MState m p) "a" 4 [] 0 0 4 Hi)|].
  - destruct (init_ok 4 true 2 true true 0 []) as (p1 & Hp1 & Hi1 & _ & _ & _ & _ & _ & _ & Hq); [lia|by left|].
    rewrite Hp1 in Hp. injection Hp as <-. unfold is_single. simpl. destruct (free_block_queue p1); [done|by destruct Hq].
  - unfold class_of. simpl. by rewrite Hs.
  - split; [apply table_ok_nil|]. simpl. rewrite Hb. unfold get_num_skipped_tokens. simpl. rewrite Hs.
    vm_compute. repeat split; done.
  - unfold callable. simpl. rewrite Hn. split; [|by left]. unfold req_blocks. by rewrite He.
  - lia.
  - intros k s0 [-> _]. done.
Defined.

Lemma swa_remove_skipped_witness : ∃ s,
  wp (Manager.remove_skipped_blocks "a" 6 None) s (λ _ s', req_blocks (mgr s') "a" = []).
Proof.
  destruct (demo_manager (mkSpec (SlidingWindowSpec 3) 2 true)) as (p & m & Hp & Hm & Hi & Hs & Hb);
    [done|done|by eexists|].
  destruct (demo_empty _ _ _ Hm) as (He & Hn & Hc); [done|by eexists|].
  assert (Hr : req_blocks m "a" = []) by (unfold req_blocks; by rewrite He).
  exists (MState m p). eapply wp_mono; [apply (swa_remove_skipped (MState m p) "a" 6 None 3 0 Hi)|].
  - unfold class_of. simpl. by rewrite Hs.
  - simpl. by rewrite Hs.
  - simpl. rewrite Hr. by exists [].
  - simpl. rewrite Hb. vm_compute. done.
  - intros [] s' (_ & Hr' & _). rewrite Hr'. simpl. rewrite Hr, Hb. reflexivity.
Defined.

Lemma swa_held_within_cap_witness : ∃ s,
  wpe (windowed_step false "a" 0 4 4 None) s (λ _ s',
    held (null_block (block_pool s)) (req_blocks (mgr s') "a") ≤ 6) (λ _ s', good s s').
Proof.
  destruct (demo_manager (mkSpec (SlidingWindowSpec 3) 2 true)) as (p & m & Hp & Hm & Hi & Hs & Hb);
    [done|done|by eexists|].
  destruct (demo_empty _ _ _ Hm) as (He & Hn & Hc); [done|by eexists|].
  assert (Hr : req_blocks m "a" = []) by (unfold req_blocks; by rewrite He).
  exists (MState m p).
  apply (swa_held_within_cap false (MState m p) "a" 0 4 4 None 0 3 8 16 6 Hi); simpl; rewrite ?Hs, ?Hr, ?Hb;
    try (vm_compute; done); try lia.
  - unfold class_of. by rewrite Hs.
  - by exists [].
Defined.

Lemma chunked_held_within_cap_witness : ∃ s,
  wpe (windowed_step false "a" 0 4 4 None) s (λ _ s',
    held (null_block (block_pool s)) (req_blocks (mgr s') "a") ≤ 6) (λ _ s', good s s').
Proof.
  destruct (demo_manager (mkSpec (ChunkedLocalAttentionSpec 4) 2 true)) as (p & m & Hp & Hm & Hi & Hs & Hb);
    [done|done|by eexists|].
  destruct (demo_empty _ _ _ Hm) as (He & Hn & Hc); [done|by eexists|].
  assert (Hr : req_blocks m "a" = []) by (unfold req_blocks; by rewrite He).
  exists (MState m p).
  apply (chunked_held_within_cap false (MState m p) "a" 0 4 4 None 0 4 8 16 6 Hi); simpl; rewrite ?Hs, ?Hr, ?Hb;
    try (vm_compute; done); try lia.
  - unfold class_of. by rewrite Hs.
  - by exists [].
Defined.
