(* ===== verification/OrderedDict.v ===== *)
(** * Ordered dictionaries

    Python's [OrderedDict]: an association list in insertion order without
    duplicate keys.  The operations the encoder cache and the offloading
    policies use, and their lemmas: what a lookup sees after an update, how the
    keys and the sum of the values change, which keys are left. *)

From S2P Require Import Prelude.

Section OrderedDict.
Context {K V : Type} `{!EqDecision K}.
Implicit Types (d : list (K * V)) (k : K) (v : V).

Definition odict : Type := list (K * V).

(** [d.get(k)] *)
Fixpoint od_get k d : option V :=
  match d with
  | [] => None
  | (k', v) :: d' => if decide (k' = k) then Some v else od_get k d'
  end.

(** [k in d] *)
Definition od_mem k d : bool := bool_decide (is_Some (od_get k d)).

(** [d[k] = v]: a key that is present keeps its place. *)
Fixpoint od_set k v d : list (K * V) :=
  match d with
  | [] => [(k, v)]
  | (k', v') :: d' => if decide (k' = k) then (k, v) :: d' else (k', v') :: od_set k v d'
  end.

(** [d.pop(k, None)], without its result *)
Definition od_del k d : list (K * V) := filter (λ kv, kv.1 ≠ k) d.

(** [d.move_to_end(k)] and [d.move_to_end(k, last=False)] of a present key *)
Definition od_to_end k d : list (K * V) :=
  match od_get k d with
  | Some v => od_del k d ++ [(k, v)]
  | None => d
  end.
Definition od_to_front k d : list (K * V) :=
  match od_get k d with
  | Some v => (k, v) :: od_del k d
  | None => d
  end.

(** ** Lemmas *)

Definition od_ok d : Prop := NoDup d.*1.

Lemma od_ok_nil : od_ok [].
Proof. constructor. Qed.

Lemma od_ok_cons k v d : od_ok ((k, v) :: d) ↔ (k ∉ d.*1) ∧ od_ok d.
Proof. unfold od_ok. by rewrite fmap_cons, NoDup_cons. Qed.

Lemma elem_of_keys k d : k ∈ d.*1 ↔ ∃ v, (k, v) ∈ d.
Proof.
  rewrite list_elem_of_fmap. split; [intros ([k' v] & -> & H); by exists v|].
  intros [v H]. by exists (k, v).
Qed.

Lemma od_get_elem k v d : od_ok d → od_get k d = Some v ↔ (k, v) ∈ d.
Proof.
  induction d as [|[k' v'] d IH]; intros Hd; simpl; [set_solver|].
  apply od_ok_cons in Hd as [Hk Hd]. rewrite elem_of_cons. destruct (decide (k' = k)) as [->|Hne].
  - split; [intros [= ->]; by left|]. intros [[= ->]|H]; [done|].
    destruct Hk. apply elem_of_keys. by exists v.
  - rewrite IH by done. split; [by right|]. by intros [[= -> ->]|H].
Qed.

Lemma od_get_none k d : od_get k d = None ↔ k ∉ d.*1.
Proof.
  induction d as [|[k' v'] d IH]; simpl; [set_solver|].
  rewrite not_elem_of_cons. destruct (decide (k' = k)) as [->|]; [naive_solver|].
  rewrite IH. naive_solver.
Qed.

Lemma od_mem_true k d : od_mem k d = true ↔ k ∈ d.*1.
Proof.
  unfold od_mem. rewrite bool_decide_eq_true, <-not_eq_None_Some, od_get_none.
  split; [|tauto]. intros H. by apply dec_stable.
Qed.

Lemma od_mem_false k d : od_mem k d = false ↔ k ∉ d.*1.
Proof. rewrite <-od_mem_true. by destruct (od_mem k d). Qed.

Lemma od_get_mem k v d : od_get k d = Some v → k ∈ d.*1.
Proof. intros H. apply dec_stable. rewrite <-od_get_none. congruence. Qed.

Lemma od_get_set k k' v d :
  od_get k (od_set k' v d) = if decide (k' = k) then Some v else od_get k d.
Proof.
  induction d as [|[k'' v''] d IH]; simpl; [by destruct (decide (k' = k))|].
  destruct (decide (k'' = k')) as [->|]; simpl; [by destruct (decide (k' = k))|].
  rewrite IH. destruct (decide (k'' = k)), (decide (k' = k)); congruence.
Qed.

Lemma od_set_absent k v d : k ∉ d.*1 → od_set k v d = d ++ [(k, v)].
Proof.
  induction d as [|[k' v'] d IH]; simpl; [done|]. rewrite not_elem_of_cons. intros [Hne Hk].
  rewrite decide_False by done. by rewrite IH.
Qed.

Lemma od_set_keys k v d : (od_set k v d).*1 = if decide (k ∈ d.*1) then d.*1 else d.*1 ++ [k].
Proof.
  induction d as [|[k' v'] d IH]; simpl; [by destruct (decide (k ∈ []))|].
  destruct (decide (k' = k)) as [->|Hne]; csimpl.
  - rewrite decide_True by constructor. done.
  - rewrite IH. destruct (decide (k ∈ d.*1)).
    + by rewrite decide_True by by constructor.
    + by rewrite decide_False by by (intros [->|?]%elem_of_cons).
Qed.

Lemma od_set_ok k v d : od_ok d → od_ok (od_set k v d).
Proof.
  unfold od_ok. rewrite od_set_keys. destruct (decide (k ∈ d.*1)) as [|Hk]; [done|]. intros Hd.
  apply NoDup_app. split; [done|]. split; [set_solver|apply NoDup_singleton].
Qed.

Lemma od_del_absent k d : k ∉ d.*1 → od_del k d = d.
Proof.
  intros Hk. apply filter_true. intros [k' v] Hin Heq. simpl in Heq. subst.
  apply Hk. apply elem_of_keys. by exists v.
Qed.

Lemma od_del_cons k k' v d :
  od_del k ((k', v) :: d) = if decide (k' = k) then od_del k d else (k', v) :: od_del k d.
Proof.
  unfold od_del. rewrite filter_cons. simpl.
  destruct (decide (k' = k)), (decide (k' ≠ k)); done.
Qed.

Lemma od_del_elem k k' v d : (k', v) ∈ od_del k d ↔ k' ≠ k ∧ (k', v) ∈ d.
Proof. unfold od_del. by rewrite list_elem_of_filter. Qed.

Lemma od_del_keys k k' d : k' ∈ (od_del k d).*1 ↔ k' ≠ k ∧ k' ∈ d.*1.
Proof. rewrite !elem_of_keys. setoid_rewrite od_del_elem. naive_solver. Qed.

Lemma od_del_ok k d : od_ok d → od_ok (od_del k d).
Proof.
  induction d as [|[k' v'] d IH]; [done|]. rewrite od_ok_cons. intros [Hk Hd].
  rewrite od_del_cons. destruct (decide (k' = k)); [by apply IH|].
  apply od_ok_cons. split; [|by apply IH]. rewrite od_del_keys. naive_solver.
Qed.

Lemma od_get_del k k' d : od_get k (od_del k' d) = if decide (k' = k) then None else od_get k d.
Proof.
  induction d as [|[k'' v''] d IH]; [by destruct (decide (k' = k))|].
  rewrite od_del_cons. simpl. destruct (decide (k'' = k')) as [->|].
  - rewrite IH. by destruct (decide (k' = k)).
  - simpl. rewrite IH. destruct (decide (k'' = k)), (decide (k' = k)); congruence.
Qed.

(** A present key taken out. *)
Lemma od_del_perm k v d : od_ok d → (k, v) ∈ d → d ≡ₚ (k, v) :: od_del k d.
Proof.
  induction d as [|[k' v'] d IH]; intros Hd Hin; [set_solver|].
  apply od_ok_cons in Hd as [Hk Hd]. rewrite od_del_cons.
  apply elem_of_cons in Hin as [[= -> ->]|Hin].
  - rewrite decide_True by done. by rewrite od_del_absent.
  - destruct (decide (k' = k)) as [->|].
    + destruct Hk. apply elem_of_keys. by exists v.
    + rewrite (IH Hd Hin) at 1. apply perm_swap.
Qed.

Lemma od_to_end_perm k d : od_ok d → od_to_end k d ≡ₚ d.
Proof.
  intros Hd. unfold od_to_end. destruct (od_get k d) as [v|] eqn:E; [|done].
  apply od_get_elem in E; [|done]. rewrite Permutation_app_comm. simpl.
  by rewrite <-od_del_perm.
Qed.

Lemma od_to_front_perm k d : od_ok d → od_to_front k d ≡ₚ d.
Proof.
  intros Hd. unfold od_to_front. destruct (od_get k d) as [v|] eqn:E; [|done].
  apply od_get_elem in E; [|done]. by rewrite <-od_del_perm.
Qed.

Lemma od_ok_perm d d' : d ≡ₚ d' → od_ok d → od_ok d'.
Proof. unfold od_ok. by intros ->. Qed.

End OrderedDict.
Arguments odict : clear implicits.

#[export] Hint Resolve od_ok_nil od_set_ok od_del_ok : vllm.
