(* ===== verification/PyNumber.v ===== *)
(** * Python's numbers

    Integers are [Z]; floats are IEEE-754 binary64 numbers, [SpecFloat] of the
    Standard Library with precision 53.  An integer that meets a float is converted
    to one, which is exact below [2 ^ 53]; the quantities compared here (token and
    block counts) are. *)

From Stdlib Require Import SpecFloat.
From S2P Require Import Prelude.
Local Open Scope Z_scope.

(** [float] arithmetic on 53 bits of precision. *)
Definition float : Type := spec_float.
Definition float_of_int (z : Z) : float := binary_normalize 53 1024 z 0 false.
Definition float_add : float → float → float := SFadd 53 1024.
Definition float_sub : float → float → float := SFsub 53 1024.
Definition float_mul : float → float → float := SFmul 53 1024.
Definition float_div : float → float → float := SFdiv 53 1024.

(** [x / y]: a zero divisor raises. *)
Definition float_truediv (x y : float) : outcome float :=
  if SFeqb y (S754_zero false) then Raise ZeroDivisionError else Ret (float_div x y).

(** [m * 2 ** e], rounded *)
Definition float_literal (m e : Z) : float := binary_normalize 53 1024 m e false.

(** [math.isfinite(x)] *)
Definition float_isfinite (x : float) : bool :=
  match x with S754_zero _ | S754_finite _ _ _ => true | S754_infinity _ | S754_nan => false end.

(** [max(x, y)] and [min(x, y)] keep the first of two equal or unordered numbers. *)
Definition float_max (x y : float) : float := if SFltb x y then y else x.

(** [int] or [float]. *)
Inductive number : Type :=
  | PyInt (z : Z)
  | PyFloat (f : float).

Definition to_float (x : number) : float := match x with PyInt z => float_of_int z | PyFloat f => f end.

Definition num_add (x y : number) : number :=
  match x, y with
  | PyInt a, PyInt b => PyInt (a + b)
  | _, _ => PyFloat (float_add (to_float x) (to_float y))
  end.
Definition num_sub (x y : number) : number :=
  match x, y with
  | PyInt a, PyInt b => PyInt (a - b)
  | _, _ => PyFloat (float_sub (to_float x) (to_float y))
  end.
Definition num_lt (x y : number) : bool :=
  match x, y with
  | PyInt a, PyInt b => a <? b
  | _, _ => SFltb (to_float x) (to_float y)
  end.

(** [max(x, y)] and [min(x, y)] keep the first of two equal numbers. *)
Definition py_max (x y : number) : number := if num_lt x y then y else x.
Definition py_min (x y : number) : number := if num_lt y x then y else x.

(** [a / b] of lengths; [b] is not zero where it is used. *)
Definition int_div (a b : Z) : number := PyFloat (float_div (float_of_int a) (float_of_int b)).

(** [int(x)] truncates towards zero; infinities and NaN have no integer. *)
Definition py_int (x : number) : outcome Z :=
  match x with
  | PyInt z => Ret z
  | PyFloat (S754_zero _) => Ret 0
  | PyFloat (S754_finite s m e) =>
      let a := if 0 <=? e then Z.pos m * 2 ^ e else Z.pos m / 2 ^ (- e) in
      Ret (if s then - a else a)
  | PyFloat (S754_infinity _) => Raise OverflowError
  | PyFloat S754_nan => Raise ValueError
  end.
