(* ===== verification/Heapq.v ===== *)
(** * Binary heaps of Python's [heapq]

    The request queue of the priority policy keeps its requests in a list that
    [heapq] maintains as a binary heap.  The file holds the algorithms of the
    library ([heappush], [heappop], [heapify], with the sift loops that move a
    hole up or down the list) over any comparison, and the proofs that they
    keep the heap order, permute their input and pop a least element.  A sift
    loop visits each level once, so the length of the list is enough fuel. *)

From stdpp Require Import sorting.
From S2P Require Import Prelude.

(** [(pos - 1) >> 1] *)
Definition parent (pos : nat) : nat := (pos - 1) / 2.

Section Algorithms.
Context {A : Type} (lt : A → A → bool).

(** [_siftdown(heap, startpos, pos)]: move parents down until one is not
    larger than [newitem]. *)
Fixpoint siftdown_loop (fuel : nat) (heap : list A) (startpos pos : nat) (newitem : A)
    : list A * nat :=
  match fuel with
  | O => (heap, pos)
  | S fuel =>
      if bool_decide (startpos < pos) then
        let parentpos := parent pos in
        match heap !! parentpos with
        | Some parent =>
            if lt newitem parent
            then siftdown_loop fuel (<[pos := parent]> heap) startpos parentpos newitem
            else (heap, pos)
        | None => (heap, pos)
        end
      else (heap, pos)
  end.

Definition siftdown (heap : list A) (startpos pos : nat) : list A :=
  match heap !! pos with
  | None => heap
  | Some newitem =>
      let '(h, p) := siftdown_loop (length heap) heap startpos pos newitem in
      <[p := newitem]> h
  end.

(** The smaller child of [pos], the left one [childpos] when it is smaller. *)
Definition smaller_child (heap : list A) (childpos : nat) : nat :=
  match heap !! childpos, heap !! S childpos with
  | Some l, Some r => if lt l r then childpos else S childpos
  | _, _ => childpos
  end.

(** [_siftup(heap, pos)]: move the smaller child up until the hole is a leaf,
    then let the item rise from there. *)
Fixpoint siftup_loop (fuel : nat) (heap : list A) (pos : nat) : list A * nat :=
  match fuel with
  | O => (heap, pos)
  | S fuel =>
      let childpos := 2 * pos + 1 in
      if bool_decide (childpos < length heap) then
        let childpos := smaller_child heap childpos in
        match heap !! childpos with
        | Some c => siftup_loop fuel (<[pos := c]> heap) childpos
        | None => (heap, pos)
        end
      else (heap, pos)
  end.

Definition siftup (heap : list A) (pos : nat) : list A :=
  match heap !! pos with
  | None => heap
  | Some newitem =>
      let '(h, p) := siftup_loop (length heap) heap pos in
      siftdown (<[p := newitem]> h) pos p
  end.

Definition heappush (heap : list A) (item : A) : list A :=
  siftdown (heap ++ [item]) 0 (length heap).

(** [heappop]: [None] is the [IndexError] of an empty heap. *)
Definition heappop (heap : list A) : option (A * list A) :=
  match last heap with
  | None => None
  | Some lastelt =>
      match removelast heap with
      | [] => Some (lastelt, [])
      | (returnitem :: _) as rest => Some (returnitem, siftup (<[0 := lastelt]> rest) 0)
      end
  end.

(** [heapify]: [_siftup(x, i)] for [i] from [len(x) // 2 - 1] down to 0. *)
Fixpoint heapify_from (n : nat) (heap : list A) : list A :=
  match n with
  | O => heap
  | S i => heapify_from i (siftup heap i)
  end.

Definition heapify (heap : list A) : list A := heapify_from (length heap / 2) heap.

(** Popping until the heap is empty, at most [fuel] times. *)
Fixpoint drain (fuel : nat) (heap : list A) : list A :=
  match fuel with
  | O => []
  | S fuel =>
      match heappop heap with
      | Some (x, heap') => x :: drain fuel heap'
      | None => []
      end
  end.

End Algorithms.

(** ** The heap order *)

Section Order.
Context {A : Type} (lt : A → A → bool).

Definition leb (x y : A) : Prop := lt y x = false.

Context (lt_leb : ∀ x y, lt x y = true → leb x y).
Context (leb_trans : ∀ x y z, leb x y → leb y z → leb x z).

(** Every parent at or after [k] is not larger than its children; [heap_from 0]
    is the heap order. *)
Definition edge_ok (h : list A) (j : nat) : Prop :=
  ∀ x y, h !! parent j = Some x → h !! j = Some y → leb x y.
Definition heap_from (k : nat) (h : list A) : Prop :=
  ∀ j, 0 < j → k ≤ parent j → edge_ok h j.

(** The order with a hole at [p]: the edges away from the hole, and the edges
    that appear when the hole is skipped. *)
Definition heap_hole (k : nat) (h : list A) (p : nat) : Prop :=
  (∀ j, 0 < j → k ≤ parent j → parent j ≠ p → j ≠ p → edge_ok h j) ∧
  (∀ c x y, 0 < c → parent c = p → 0 < p → k ≤ parent p →
     h !! parent p = Some x → h !! c = Some y → leb x y).

(** What fills the hole is not larger than the children of the hole. *)
Definition below_children (h : list A) (p : nat) (item : A) : Prop :=
  ∀ c y, 0 < c → parent c = p → h !! c = Some y → leb item y.

Lemma lt_irrefl_leb x : leb x x.
Proof. unfold leb. destruct (lt x x) eqn:E; [|done]. pose proof (lt_leb _ _ E). congruence. Qed.

Lemma parent_lt j : 0 < j → parent j < j.
Proof. intros. unfold parent. apply Nat.Div0.div_lt_upper_bound. lia. Qed.

Lemma child_cases c p : 0 < c → parent c = p → c = 2 * p + 1 ∨ c = 2 * p + 2.
Proof.
  intros Hc <-. unfold parent. pose proof (Nat.div_mod_eq (c - 1) 2).
  pose proof (Nat.mod_upper_bound (c - 1) 2). lia.
Qed.

Lemma parent_left p : parent (2 * p + 1) = p.
Proof. unfold parent. replace (2 * p + 1 - 1) with (p * 2) by lia. by rewrite Nat.div_mul. Qed.

Lemma parent_right p : parent (2 * p + 2) = p.
Proof. symmetry. unfold parent. apply (Nat.div_unique _ _ _ 1); lia. Qed.

(** Filling the hole. *)
Lemma heap_fill k h p item :
  heap_hole k h p → below_children h p item →
  (∀ x, 0 < p → k ≤ parent p → h !! parent p = Some x → leb x item) →
  heap_from k (<[p := item]> h).
Proof.
  intros [Hedge _] Hbelow Habove j Hj Hk x y Hx Hy.
  destruct (decide (p < length h)) as [Hp|Hp].
  2: { rewrite list_insert_ge in Hx, Hy by lia.
       assert (j < length h) by by eapply lookup_lt_Some.
       pose proof (parent_lt j Hj).
       eapply (Hedge j); eauto; lia. }
  destruct (decide (j = p)) as [->|Hjp].
  - rewrite list_lookup_insert_eq in Hy by done. simplify_eq.
    pose proof (parent_lt p Hj).
    rewrite list_lookup_insert_ne in Hx by lia. by apply Habove.
  - rewrite (list_lookup_insert_ne _ p j) in Hy by done.
    destruct (decide (parent j = p)) as [Hpj|Hpj].
    + rewrite Hpj, list_lookup_insert_eq in Hx by done. simplify_eq. by eapply (Hbelow j).
    + rewrite list_lookup_insert_ne in Hx by done. by eapply (Hedge j).
Qed.

(** Moving the parent into the hole. *)
Lemma hole_up k h p item parent_ :
  0 < p → p < length h → k ≤ parent p → heap_hole k h p → below_children h p item →
  h !! parent p = Some parent_ → lt item parent_ = true →
  heap_hole k (<[p := parent_]> h) (parent p) ∧
  below_children (<[p := parent_]> h) (parent p) item.
Proof.
  intros Hp Hlen Hk [Hedge Hskip] Hbelow Hpar Hlt.
  pose proof (parent_lt p Hp) as Hpp. apply lt_leb in Hlt.
  repeat split.
  - intros j Hj Hkj Hne1 Hne2 x y Hx Hy. assert (j ≠ p) by congruence.
    rewrite (list_lookup_insert_ne _ p j) in Hy by done.
    destruct (decide (parent j = p)) as [E|E].
    + rewrite E, list_lookup_insert_eq in Hx by done. simplify_eq. by apply (Hskip j).
    + rewrite list_lookup_insert_ne in Hx by done. by apply (Hedge j).
  - intros c x y Hc Ec Hpos Hkp Hx Hy.
    pose proof (parent_lt (parent p) Hpos).
    rewrite list_lookup_insert_ne in Hx by lia.
    assert (Hup : leb x parent_) by (apply (Hedge (parent p)); [done..|lia|lia|done|done]).
    destruct (decide (c = p)) as [->|Hcp].
    + rewrite list_lookup_insert_eq in Hy by done. by simplify_eq.
    + rewrite list_lookup_insert_ne in Hy by done.
      apply (leb_trans _ parent_); [done|]. apply (Hedge c); rewrite ?Ec; done || lia.
  - intros c y Hc Ec Hy. destruct (decide (c = p)) as [->|Hcp].
    + rewrite list_lookup_insert_eq in Hy by done. by simplify_eq.
    + rewrite list_lookup_insert_ne in Hy by done.
      apply (leb_trans _ parent_); [done|]. apply (Hedge c); rewrite ?Ec; done || lia.
Qed.

(** The positions of the subtree of [k]. *)
Inductive subtree (k : nat) : nat → Prop :=
  | subtree_root : subtree k k
  | subtree_child c : 0 < c → subtree k (parent c) → subtree k c.

Lemma subtree_le k p : subtree k p → k ≤ p.
Proof. induction 1 as [|c Hc _ IH]; [done|]. pose proof (parent_lt c Hc). lia. Qed.

Lemma subtree_parent k p : subtree k p → k < p → subtree k (parent p).
Proof. intros H Hlt. inversion H; subst; [lia|done]. Qed.

Lemma subtree_0 p : subtree 0 p.
Proof.
  induction (lt_wf p) as [p _ IH]. destruct (decide (p = 0)) as [->|]; [constructor|].
  constructor; [lia|]. apply IH, parent_lt. lia.
Qed.

(** The lists a sift loop goes through, with the item put into the hole, are
    permutations of each other. *)
Lemma move_hole_perm (h : list A) p q x item :
  p ≠ q → p < length h → h !! q = Some x → <[q := item]> (<[p := x]> h) ≡ₚ <[p := item]> h.
Proof.
  intros Hpq Hp Hx.
  rewrite <-(list_insert_insert_eq h p x item).
  apply Permutation_insert_swap; [by apply list_lookup_insert_eq|].
  by rewrite list_lookup_insert_ne.
Qed.

Lemma siftdown_loop_spec k : ∀ fuel h p item,
  p < fuel → p < length h → subtree k p → heap_hole k h p → below_children h p item →
  let '(h', p') := siftdown_loop lt fuel h k p item in
  heap_from k (<[p' := item]> h') ∧ <[p' := item]> h' ≡ₚ <[p := item]> h.
Proof.
  induction fuel as [|fuel IH]; intros h p item Hf Hlen Hsub Hh Hb; [lia|]. simpl.
  case_bool_decide as Hlt; cycle 1.
  { split; [|done]. apply heap_fill; [done..|].
    intros x Hp Hk. pose proof (parent_lt p Hp). lia. }
  destruct (h !! parent p) as [par|] eqn:Hpar; cycle 1.
  { apply lookup_ge_None in Hpar. pose proof (parent_lt p). lia. }
  destruct (lt item par) eqn:Hip; cycle 1.
  { split; [|done]. apply heap_fill; [done..|]. intros x _ _ Hx. congruence. }
  pose proof (parent_lt p ltac:(lia)) as Hpp.
  pose proof (subtree_parent k p Hsub Hlt) as Hsub'. pose proof (subtree_le _ _ Hsub').
  destruct (hole_up k h p item par) as [H1 H2]; [done||lia..|].
  specialize (IH (<[p := par]> h) (parent p) item).
  destruct (siftdown_loop _ _ _ _ _ _) as [h' p'].
  destruct IH as [IH1 IH2]; [lia|rewrite length_insert; lia|done..|].
  split; [done|]. rewrite IH2. apply move_hole_perm; done || lia.
Qed.

Lemma siftdown_spec k h p item :
  h !! p = Some item → subtree k p → heap_hole k h p → below_children h p item →
  heap_from k (siftdown lt h k p) ∧ siftdown lt h k p ≡ₚ h.
Proof.
  intros Hp Hsub Hh Hb. unfold siftdown. rewrite Hp.
  pose proof (lookup_lt_Some _ _ _ Hp) as Hlen.
  pose proof (siftdown_loop_spec k (length h) h p item Hlen Hlen Hsub Hh Hb) as Hloop.
  destruct (siftdown_loop _ _ _ _ _ _) as [h' p']. destruct Hloop as [H1 H2].
  split; [done|]. by rewrite H2, list_insert_id.
Qed.

(** The first phase of [_siftup]. *)
Lemma smaller_child_spec h p :
  2 * p + 1 < length h →
  let c := smaller_child lt h (2 * p + 1) in
  ∃ x, h !! c = Some x ∧ 0 < c ∧ parent c = p ∧ p < c ∧ below_children h p x.
Proof.
  intros Hlen. unfold smaller_child.
  destruct (lookup_lt_is_Some_2 h (2 * p + 1) Hlen) as [l Hl]. rewrite Hl.
  assert (HS : S (2 * p + 1) = 2 * p + 2) by lia. rewrite HS.
  assert (Hboth : ∀ c y, 0 < c → parent c = p → h !! c = Some y →
            y = l ∨ h !! (2 * p + 2) = Some y).
  { intros c y Hc Ec Hy. destruct (child_cases c p Hc Ec) as [-> | ->]; [left; congruence|by right]. }
  destruct (h !! (2 * p + 2)) as [r|] eqn:Hr.
  - destruct (lt l r) eqn:Hlr.
    + exists l. repeat split; [done|lia|apply parent_left|lia|].
      intros c y Hc Ec Hy. destruct (Hboth c y Hc Ec Hy) as [->|]; [apply lt_irrefl_leb|].
      simplify_eq. by apply lt_leb.
    + exists r. repeat split; [done|lia|apply parent_right|lia|].
      intros c y Hc Ec Hy. destruct (Hboth c y Hc Ec Hy) as [->|]; [done|].
      simplify_eq. apply lt_irrefl_leb.
  - exists l. repeat split; [done|lia|apply parent_left|lia|].
    intros c y Hc Ec Hy. destruct (Hboth c y Hc Ec Hy) as [->|]; [apply lt_irrefl_leb|done].
Qed.

(** Moving the smaller child into the hole. *)
Lemma hole_down k h p c x :
  p < length h → k ≤ p → heap_hole k h p → 0 < c → parent c = p → p < c → h !! c = Some x →
  below_children h p x → heap_hole k (<[p := x]> h) c.
Proof.
  intros Hlen Hkp [Hedge Hskip] Hc Ec Hpc Hx Hbelow. split.
  - intros j Hj Hkj Hne1 Hne2 a b Ha Hb. destruct (decide (j = p)) as [->|Hjp].
    + rewrite list_lookup_insert_eq in Hb by done. simplify_eq.
      rewrite list_lookup_insert_ne in Ha by (pose proof (parent_lt _ Hj); lia).
      by apply (Hskip c).
    + rewrite list_lookup_insert_ne in Hb by done. destruct (decide (parent j = p)) as [E|E].
      * rewrite E, list_lookup_insert_eq in Ha by done. simplify_eq. by apply (Hbelow j).
      * rewrite list_lookup_insert_ne in Ha by done. by apply (Hedge j).
  - intros j a b Hj Ej Hpos Hkc Ha Hb. subst p.
    pose proof (parent_lt j Hj). rewrite list_lookup_insert_ne in Hb by lia.
    rewrite list_lookup_insert_eq in Ha by done. simplify_eq.
    apply (Hedge j); [done|lia|lia|lia|done|done].
Qed.

Lemma siftup_loop_spec k : ∀ fuel h p item,
  length h ≤ p + fuel → p < length h → subtree k p → heap_hole k h p →
  let '(h', p') := siftup_loop lt fuel h p in
  p' < length h' ∧ subtree k p' ∧ heap_hole k h' p' ∧ length h' ≤ 2 * p' + 1 ∧
  <[p' := item]> h' ≡ₚ <[p := item]> h.
Proof.
  induction fuel as [|fuel IH]; intros h p item Hf Hlen Hsub Hh; [lia|].
  change (siftup_loop lt (S fuel) h p) with
    (if bool_decide (2 * p + 1 < length h) then
       match h !! smaller_child lt h (2 * p + 1) with
       | Some c => siftup_loop lt fuel (<[p := c]> h) (smaller_child lt h (2 * p + 1))
       | None => (h, p) end else (h, p)).
  case_bool_decide as Hlt; [|split_and!; done || lia].
  pose proof (smaller_child_spec h p Hlt) as (x & Hx & Hc0 & Hpar & Hpc & Hbelow).
  rewrite Hx. set (c := smaller_child lt h (2 * p + 1)) in *.
  pose proof (lookup_lt_Some _ _ _ Hx).
  specialize (IH (<[p := x]> h) c item).
  destruct (siftup_loop _ _ _ _) as [h' p']. rewrite length_insert in IH.
  destruct IH as (H1 & H2 & H3 & H4 & H5); [lia|done| | |].
  - constructor; [done|]. by rewrite Hpar.
  - eapply hole_down; eauto using subtree_le.
  - split_and!; [done..|]. rewrite H5. apply move_hole_perm; done || lia.
Qed.

Lemma heap_from_hole k h : heap_from (S k) h → heap_hole k h k.
Proof.
  intros Hh. split; [intros j Hj Hk Hne _; apply Hh; lia|].
  intros c x y Hc Ec Hk Hkp. pose proof (parent_lt k Hk). lia.
Qed.

Lemma heap_hole_insert k h p item : heap_hole k h p → heap_hole k (<[p := item]> h) p.
Proof.
  intros [H1 H2]. split.
  - intros j Hj Hk Hne1 Hne2 x y. rewrite !list_lookup_insert_ne by done. by apply (H1 j).
  - intros c x y Hc Ec Hp Hk. pose proof (parent_lt p Hp). pose proof (parent_lt c Hc).
    rewrite !list_lookup_insert_ne by lia. by apply H2.
Qed.

Lemma siftup_spec k h :
  k < length h → heap_from (S k) h → heap_from k (siftup lt h k) ∧ siftup lt h k ≡ₚ h.
Proof.
  intros Hlen Hh. unfold siftup.
  destruct (lookup_lt_is_Some_2 h k Hlen) as [item Hi]. rewrite Hi.
  pose proof (siftup_loop_spec k (length h) h k item ltac:(lia) Hlen (subtree_root k)
    (heap_from_hole k h Hh)) as Hloop.
  destruct (siftup_loop _ _ _ _) as [h' p']. destruct Hloop as (H1 & H2 & H3 & H4 & H5).
  rewrite (list_insert_id h k item) in H5 by done.
  destruct (siftdown_spec k (<[p' := item]> h') p' item) as [Hheap Hperm].
  - by apply list_lookup_insert_eq.
  - done.
  - by apply heap_hole_insert.
  - intros c y Hc Ec Hy. apply lookup_lt_Some in Hy. rewrite length_insert in Hy.
    destruct (child_cases c p' Hc Ec); lia.
  - split; [done|]. by rewrite Hperm.
Qed.

(** ** The operations *)

Definition heap (h : list A) : Prop := heap_from 0 h.

Lemma heap_nil : heap [].
Proof. intros j _ _ x y Hx. by rewrite lookup_nil in Hx. Qed.

Lemma heappush_spec h item :
  heap h → heap (heappush lt h item) ∧ heappush lt h item ≡ₚ item :: h.
Proof.
  intros Hh. unfold heappush.
  destruct (siftdown_spec 0 (h ++ [item]) (length h) item) as [H1 H2].
  - by rewrite lookup_app_r, Nat.sub_diag by lia.
  - apply subtree_0.
  - split.
    + intros j Hj Hk Hne1 Hne2 x y Hx Hy. pose proof (parent_lt j Hj).
      pose proof (lookup_lt_Some _ _ _ Hy) as Hl. rewrite length_app in Hl. simpl in Hl.
      rewrite lookup_app_l in Hx, Hy by lia. by apply (Hh j).
    + intros c x y Hc Ec Hp _ _ Hy. apply lookup_lt_Some in Hy. rewrite length_app in Hy.
      simpl in Hy. destruct (child_cases c _ Hc Ec); lia.
  - intros c y Hc Ec Hy. apply lookup_lt_Some in Hy. rewrite length_app in Hy.
    simpl in Hy. destruct (child_cases c _ Hc Ec); lia.
  - split; [done|]. rewrite H2. by rewrite Permutation_app_comm.
Qed.

(** The root is a least element. *)
Lemma heap_root h x y : heap h → h !! 0 = Some x → y ∈ h → leb x y.
Proof.
  intros Hh Hx [i Hi]%list_elem_of_lookup_1. revert y Hi.
  induction (lt_wf i) as [i _ IH]. intros y Hi.
  destruct (decide (i = 0)) as [->|]; [simplify_eq; apply lt_irrefl_leb|].
  pose proof (parent_lt i ltac:(lia)) as Hp.
  destruct (lookup_lt_is_Some_2 h (parent i)) as [z Hz].
  { apply lookup_lt_Some in Hi. lia. }
  apply (leb_trans _ z); [by apply (IH (parent i))|]. apply (Hh i); done || lia.
Qed.

Lemma heap_app h t : heap (h ++ t) → heap h.
Proof.
  intros Hh j Hj Hk x y Hx Hy. by apply (Hh j Hj Hk x y); apply lookup_app_l_Some.
Qed.

Lemma heappop_spec h :
  heap h →
  match heappop lt h with
  | None => h = []
  | Some (x, h') => h ≡ₚ x :: h' ∧ heap h' ∧ ∀ y, y ∈ h → leb x y
  end.
Proof.
  intros Hh. unfold heappop. destruct h as [|z h _] using rev_ind; [done|].
  rewrite last_snoc, removelast_last. destruct h as [|x h]; simpl.
  - split_and!; [done|apply heap_nil|]. intros y ->%list_elem_of_singleton. apply lt_irrefl_leb.
  - assert (Hroot : ∀ y, y ∈ (x :: h) ++ [z] → leb x y)
      by (intros y; by apply (heap_root _ _ _ Hh)).
    apply heap_app in Hh. destruct (siftup_spec 0 (z :: h)) as [H1 H2]; [simpl; lia| |].
    + intros j Hj Hk a b Ha Hb. apply (Hh j); [done|lia| |].
      * revert Ha Hk. destruct (parent j); [lia|done].
      * revert Hb Hj. destruct j; [lia|done].
    + split_and!; [|done|done]. rewrite H2. apply perm_skip. by rewrite Permutation_app_comm.
Qed.

Lemma heappop_head h x h' : heappop lt h = Some (x, h') → h !! 0 = Some x.
Proof.
  unfold heappop. destruct h as [|z h _] using rev_ind; [done|].
  rewrite last_snoc, removelast_last. destruct h as [|y h]; simpl; by intros [= <- _].
Qed.

Lemma heapify_from_spec n : ∀ h,
  2 * n ≤ length h → heap_from n h → heap (heapify_from lt n h) ∧ heapify_from lt n h ≡ₚ h.
Proof.
  induction n as [|n IH]; intros h Hlen Hh; [done|]. simpl.
  destruct (siftup_spec n h) as [H1 H2]; [lia|done|].
  destruct (IH (siftup lt h n)) as [H3 H4]; [rewrite H2; lia|done|].
  split; [done|]. by rewrite H4.
Qed.

Lemma heapify_spec h : heap (heapify lt h) ∧ heapify lt h ≡ₚ h.
Proof.
  apply heapify_from_spec; [pose proof (Nat.div_mod_eq (length h) 2); lia|].
  intros j Hj Hk x y _ Hy. apply lookup_lt_Some in Hy.
  destruct (child_cases j _ Hj eq_refl); pose proof (Nat.div_mod_eq (length h) 2);
    pose proof (Nat.mod_upper_bound (length h) 2); lia.
Qed.

Lemma drain_spec : ∀ fuel h,
  length h ≤ fuel → heap h → drain lt fuel h ≡ₚ h ∧ StronglySorted leb (drain lt fuel h).
Proof.
  induction fuel as [|fuel IH]; intros h Hlen Hh; simpl.
  { destruct h; [split; [done|constructor]|simpl in Hlen; lia]. }
  pose proof (heappop_spec h Hh) as Hpop.
  destruct (heappop lt h) as [[x h']|]; [|subst h; split; [done|constructor]].
  destruct Hpop as (Hperm & Hh' & Hmin).
  assert (length h' ≤ fuel).
  { apply Permutation_length in Hperm. simpl in Hperm. lia. }
  destruct (IH h') as [H1 H2]; [done..|]. split; [by rewrite Hperm, H1|].
  constructor; [done|]. apply Forall_forall. intros y Hy. apply Hmin.
  rewrite Hperm, <-H1. by constructor.
Qed.

End Order.
