(* ===== verification/RequestQueue.v ===== *)
(** * Request queues of the scheduler

    [vllm/v1/core/sched/request_queue.py]: the abstract queue as a type class,
    the first-come-first-served queue over a deque and the priority queue over
    a [heapq] heap as its instances.  A queue holds references to request
    objects; two references are equal when they are the same object ([Request]
    defines [__lt__] but not [__eq__]), so membership and removal compare
    [req_obj].  A method that takes another queue reads it through its
    iterator, so its argument here is the list the iterator yields; a queue is
    never its own argument. *)

From S2P Require Import Prelude.
From S2P Require Import Heapq.
From S2P Require Import Request.

Inductive SchedulingPolicy : Set := FCFS | PRIORITY.

Definition same_object (a b : RequestArgs) : bool := (req_obj a =? req_obj b)%Z.

(** [list.remove] and [deque.remove]: the first reference to the object;
    [None] is the [ValueError]. *)
Fixpoint remove_first (r : RequestArgs) (l : list RequestArgs) : option (list RequestArgs) :=
  match l with
  | [] => None
  | x :: l' => if same_object x r then Some l' else cons x <$> remove_first r l'
  end.

(** [[req for req in l if req not in requests_to_remove]] *)
Definition without (rs l : list RequestArgs) : list RequestArgs :=
  filter (λ x, existsb (same_object x) rs = false) l.

Class RequestQueue (Q : Type) : Type := {
  empty_queue : Q;
  add_request : RequestArgs → M Q unit;
  pop_request : M Q RequestArgs;
  peek_request : M Q RequestArgs;
  prepend_request : RequestArgs → M Q unit;
  prepend_requests : list RequestArgs → M Q unit;
  remove_request : RequestArgs → M Q unit;
  remove_requests : list RequestArgs → M Q unit;
  queue_bool : M Q bool;
  queue_len : M Q Z;
  queue_iter : M Q (list RequestArgs);
}.

(** ** First come, first served *)

Record FCFSRequestQueue : Type := mkFCFS { deque : list RequestArgs }.

Module Fcfs.

Definition add_request (request : RequestArgs) : M FCFSRequestQueue unit :=
  modify (λ q, mkFCFS (deque q ++ [request])).

Definition pop_request : M FCFSRequestQueue RequestArgs :=
  q ← get;
  match deque q with
  | [] => raise IndexError
  | r :: rest => put (mkFCFS rest) ;; mret r
  end.

Definition peek_request : M FCFSRequestQueue RequestArgs :=
  q ← get;
  match deque q with
  | [] => raise IndexError
  | r :: _ => mret r
  end.

Definition prepend_request (request : RequestArgs) : M FCFSRequestQueue unit :=
  modify (λ q, mkFCFS (request :: deque q)).

(** [extendleft] appends each element on the left in turn. *)
Definition prepend_requests (requests : list RequestArgs) : M FCFSRequestQueue unit :=
  foreach requests (λ r, modify (λ q, mkFCFS (r :: deque q))).

Definition remove_request (request : RequestArgs) : M FCFSRequestQueue unit :=
  q ← get;
  rest ← of_option ValueError (remove_first request (deque q));
  put (mkFCFS rest).

Definition remove_requests (requests : list RequestArgs) : M FCFSRequestQueue unit :=
  modify (λ q, mkFCFS (without requests (deque q))).

End Fcfs.

#[export] Instance fcfs_queue : RequestQueue FCFSRequestQueue := {|
  empty_queue := mkFCFS [];
  add_request := Fcfs.add_request;
  pop_request := Fcfs.pop_request;
  peek_request := Fcfs.peek_request;
  prepend_request := Fcfs.prepend_request;
  prepend_requests := Fcfs.prepend_requests;
  remove_request := Fcfs.remove_request;
  remove_requests := Fcfs.remove_requests;
  queue_bool := gets (λ q, (0 <? zlen (deque q))%Z);
  queue_len := gets (λ q, zlen (deque q));
  queue_iter := gets deque;
|}.

(** ** Priorities *)

Record PriorityRequestQueue : Type := mkPriority { _heap : list RequestArgs }.

Module Priority.

Definition add_request (request : RequestArgs) : M PriorityRequestQueue unit :=
  modify (λ q, mkPriority (heappush request_lt (_heap q) request)).

Definition pop_request : M PriorityRequestQueue RequestArgs :=
  q ← get;
  if bool_decide (_heap q = []) then raise IndexError
  else
    '(r, h) ← of_option IndexError (heappop request_lt (_heap q));
    put (mkPriority h) ;; mret r.

Definition peek_request : M PriorityRequestQueue RequestArgs :=
  q ← get;
  of_option IndexError (_heap q !! 0).

Definition prepend_request (request : RequestArgs) : M PriorityRequestQueue unit :=
  add_request request.

Definition prepend_requests (requests : list RequestArgs) : M PriorityRequestQueue unit :=
  foreach requests add_request.

Definition remove_request (request : RequestArgs) : M PriorityRequestQueue unit :=
  q ← get;
  rest ← of_option ValueError (remove_first request (_heap q));
  put (mkPriority (heapify request_lt rest)).

Definition remove_requests (requests : list RequestArgs) : M PriorityRequestQueue unit :=
  modify (λ q, mkPriority (heapify request_lt (without requests (_heap q)))).

(** The iterator pops a copy of the heap until it is empty; at most as many
    pops as the heap has elements. *)
Definition iter (q : PriorityRequestQueue) : list RequestArgs :=
  drain request_lt (length (_heap q)) (_heap q).

End Priority.

#[export] Instance priority_queue : RequestQueue PriorityRequestQueue := {|
  empty_queue := mkPriority [];
  add_request := Priority.add_request;
  pop_request := Priority.pop_request;
  peek_request := Priority.peek_request;
  prepend_request := Priority.prepend_request;
  prepend_requests := Priority.prepend_requests;
  remove_request := Priority.remove_request;
  remove_requests := Priority.remove_requests;
  queue_bool := gets (λ q, bool_decide (_heap q ≠ []));
  queue_len := gets (λ q, zlen (_heap q));
  queue_iter := gets Priority.iter;
|}.

(** [create_request_queue] *)
Definition create_request_queue (policy : SchedulingPolicy)
    : FCFSRequestQueue + PriorityRequestQueue :=
  match policy with
  | PRIORITY => inr empty_queue
  | FCFS => inl empty_queue
  end.

(** ** Calls *)

Inductive queue_call : Type :=
  | Add (r : RequestArgs)
  | Pop
  | Peek
  | Prepend (r : RequestArgs)
  | PrependAll (rs : list RequestArgs)
  | Remove (r : RequestArgs)
  | RemoveAll (rs : list RequestArgs)
  | Truth
  | Len
  | Iter.

Inductive queue_reply : Type :=
  | RNone
  | RRequest (r : RequestArgs)
  | RBool (b : bool)
  | RInt (n : Z)
  | RList (l : list RequestArgs).

Section Calls.
Context {Q : Type} `{!RequestQueue Q}.

Definition call (c : queue_call) : M Q queue_reply :=
  match c with
  | Add r => add_request r ;; mret RNone
  | Pop => r ← pop_request; mret (RRequest r)
  | Peek => r ← peek_request; mret (RRequest r)
  | Prepend r => prepend_request r ;; mret RNone
  | PrependAll rs => prepend_requests rs ;; mret RNone
  | Remove r => remove_request r ;; mret RNone
  | RemoveAll rs => remove_requests rs ;; mret RNone
  | Truth => b ← queue_bool; mret (RBool b)
  | Len => n ← queue_len; mret (RInt n)
  | Iter => l ← queue_iter; mret (RList l)
  end.

(** The replies to a sequence of calls; a call that raises leaves the queue it
    leaves and the next call goes on. *)
Fixpoint run_calls (cs : list queue_call) (q : Q) : list (outcome queue_reply) :=
  match cs with
  | [] => []
  | c :: cs => let '(o, q') := call c q in o :: run_calls cs q'
  end.

End Calls.

(** The replies of the queue of a policy. *)
Definition run_policy (policy : SchedulingPolicy) (cs : list queue_call)
    : list (outcome queue_reply) :=
  match create_request_queue policy with
  | inl q => run_calls cs q
  | inr q => run_calls cs q
  end.
