(* ===== verification/RequestQueueSpec.v ===== *)
(** * The request queues refine an ordered list

    The specification keeps the waiting requests in one list in the order in
    which they will be served: the arrival order for the first-come-first-served
    policy, the order of [Request.__lt__] for the priority policy.  Both queues
    answer every sequence of calls as the list does, exceptions included, and a
    request with finitely many requests ahead of it is served after that many
    pops. *)

From stdpp Require Import sorting.
From Stdlib Require Import OrderedTypeEx.
From S2P Require Import Prelude.
From S2P Require Import Heapq.
From S2P Require Import Request.
From S2P Require Import RequestQueue.

(** ** The order of requests *)

Lemma string_cmp_compare a b : String_as_OT.cmp a b = String.compare a b.
Proof.
  revert b. induction a as [|x a IH]; intros [|y b]; simpl; [done..|].
  unfold Ascii_as_OT.cmp, Ascii.compare. by rewrite IH.
Qed.

Lemma string_ltb_lt a b : String.ltb a b = true ↔ String_as_OT.lt a b.
Proof.
  rewrite <-String_as_OT.cmp_lt, string_cmp_compare. unfold String.ltb.
  by destruct (String.compare a b).
Qed.

Lemma string_total a b : String.ltb a b = true ∨ a = b ∨ String.ltb b a = true.
Proof.
  unfold String.ltb. rewrite (String.compare_antisym b a).
  destruct (String.compare a b) eqn:E; simpl; [right; left|by left|by auto].
  by apply String.compare_eq_iff.
Qed.

Lemma string_ltb_trans a b c :
  String.ltb a b = true → String.ltb b c = true → String.ltb a c = true.
Proof. rewrite !string_ltb_lt. apply String_as_OT.lt_trans. Qed.

Lemma string_ltb_irrefl a : String.ltb a a = false.
Proof.
  destruct (String.ltb a a) eqn:E; [|done].
  apply string_ltb_lt, String_as_OT.lt_not_eq in E. by destruct E.
Qed.

(** [__lt__] is the lexicographic order of priority, arrival time, request id
    and identity. *)
Definition before (strict : Prop) (a b : RequestArgs) : Prop :=
  (priority a < priority b)%Z ∨ priority a = priority b ∧
  ((arrival_time a < arrival_time b)%Z ∨ arrival_time a = arrival_time b ∧
   (String.ltb (request_id a) (request_id b) = true ∨ request_id a = request_id b ∧
    ((req_obj a < req_obj b)%Z ∨ ¬ strict ∧ req_obj a = req_obj b))).

Lemma request_lt_before a b : request_lt a b = true ↔ before True a b.
Proof.
  unfold request_lt, before.
  destruct (Z.eqb_spec (priority a) (priority b)) as [->|]; simpl; cycle 1.
  { rewrite Z.ltb_lt. lia. }
  destruct (Z.eqb_spec (arrival_time a) (arrival_time b)) as [->|]; simpl; cycle 1.
  { rewrite Z.ltb_lt. lia. }
  destruct (String.eqb_spec (request_id a) (request_id b)) as [->|]; simpl.
  - rewrite string_ltb_irrefl, Z.ltb_lt. naive_solver lia.
  - naive_solver lia.
Qed.

Lemma string_ltb_asym a b : String.ltb a b = true → String.ltb b a = true → False.
Proof.
  intros H H'. pose proof (string_ltb_trans _ _ _ H H') as Hc.
  by rewrite string_ltb_irrefl in Hc.
Qed.

Lemma string_ltb_ne a b : String.ltb a b = true → a = b → False.
Proof. intros H ->. by rewrite string_ltb_irrefl in H. Qed.

Lemma request_leb_before a b : leb request_lt a b ↔ before False a b.
Proof.
  unfold leb. rewrite <-not_true_iff_false, request_lt_before. unfold before.
  destruct (Z.lt_trichotomy (priority a) (priority b)) as [?|[->|?]].
  { split; [by left|]. intros _ [?|[? _]]; lia. }
  2: { split; [intros Hc; destruct Hc; by left|]. intros [?|[? _]]; lia. }
  destruct (Z.lt_trichotomy (arrival_time a) (arrival_time b)) as [?|[->|?]].
  { split; [by right; split; [|left]|]. intros _ [?|[_ [?|[? _]]]]; lia. }
  2: { split; [intros Hc; destruct Hc; by right; split; [|left]|].
       intros [?|[_ [?|[? _]]]]; lia. }
  destruct (string_total (request_id a) (request_id b)) as [H|[->|H]].
  - pose proof (string_ltb_asym _ _ H). pose proof (string_ltb_ne _ _ H).
    split; [naive_solver|]. intros _ [?|[_ [?|[_ [?|[? _]]]]]]; (lia || naive_solver).
  - rewrite string_ltb_irrefl.
    destruct (Z.lt_trichotomy (req_obj a) (req_obj b)) as [?|[->|?]];
      (split; [intros Hc|intros Hc ?]); naive_solver (try lia).
  - pose proof (string_ltb_asym _ _ H). pose proof (string_ltb_ne _ _ H).
    split; [intros Hc; destruct Hc; do 2 (right; split; [done|]); by left|].
    intros [?|[_ [?|[_ [?|[? _]]]]]]; (lia || naive_solver).
Qed.

Lemma request_lt_leb a b : request_lt a b = true → leb request_lt a b.
Proof. rewrite request_lt_before, request_leb_before. unfold before. naive_solver. Qed.

Lemma request_leb_trans a b c :
  leb request_lt a b → leb request_lt b c → leb request_lt a c.
Proof.
  rewrite !request_leb_before. unfold before.
  intros [?|[E1 [?|[E2 [?|[E3 ?]]]]]] [?|[F1 [?|[F2 [?|[F3 ?]]]]]];
    first [left; lia | right; split; [congruence|]];
    first [left; lia | right; split; [congruence|]];
    first [left; by eapply string_ltb_trans | left; congruence | right; split; [congruence|lia]].
Qed.

Lemma request_leb_antisym a b :
  leb request_lt a b → leb request_lt b a → req_obj a = req_obj b.
Proof.
  rewrite !request_leb_before. unfold before. pose proof (string_ltb_asym (request_id a) (request_id b)).
  pose proof (string_ltb_ne (request_id a) (request_id b)).
  pose proof (string_ltb_ne (request_id b) (request_id a)).
  intros [?|[E1 [?|[E2 [?|[E3 ?]]]]]] [?|[F1 [?|[F2 [?|[F3 ?]]]]]];
    first [lia | exfalso; auto].
Qed.

Lemma Forall_sublist {A} (P : A → Prop) l l' : l `sublist_of` l' → Forall P l' → Forall P l.
Proof.
  intros Hs. rewrite !Forall_forall. intros HP x Hx. apply HP. by eapply elem_of_sublist.
Qed.

Lemma StronglySorted_sublist {A} (R : relation A) l l' :
  l `sublist_of` l' → StronglySorted R l' → StronglySorted R l.
Proof.
  induction 1 as [|x l l' Hs IH|x l l' Hs IH]; [done|..]; inversion 1; subst.
  - constructor; [by apply IH|]. by eapply Forall_sublist.
  - by apply IH.
Qed.

(** ** The specification *)

(** Insertion into the serving order of the priority policy. *)
Fixpoint insort (r : RequestArgs) (l : list RequestArgs) : list RequestArgs :=
  match l with
  | [] => [r]
  | x :: l' => if request_lt r x then r :: l else x :: insort r l'
  end.

Definition spec_add (policy : SchedulingPolicy) (r : RequestArgs) (l : list RequestArgs) :=
  match policy with FCFS => l ++ [r] | PRIORITY => insort r l end.
Definition spec_prepend (policy : SchedulingPolicy) (r : RequestArgs) (l : list RequestArgs) :=
  match policy with FCFS => r :: l | PRIORITY => insort r l end.

(** The reply of the ordered list to a call, and the list afterwards. *)
Definition spec_call (policy : SchedulingPolicy) (c : queue_call) (l : list RequestArgs)
    : outcome queue_reply * list RequestArgs :=
  match c, l with
  | Add r, _ => (Ret RNone, spec_add policy r l)
  | Pop, [] | Peek, [] => (Raise IndexError, l)
  | Pop, r :: l' => (Ret (RRequest r), l')
  | Peek, r :: _ => (Ret (RRequest r), l)
  | Prepend r, _ => (Ret RNone, spec_prepend policy r l)
  | PrependAll rs, _ => (Ret RNone, foldl (flip (spec_prepend policy)) l rs)
  | Remove r, _ =>
      match remove_first r l with
      | Some l' => (Ret RNone, l')
      | None => (Raise ValueError, l)
      end
  | RemoveAll rs, _ => (Ret RNone, without rs l)
  | Truth, _ => (Ret (RBool (bool_decide (l ≠ []))), l)
  | Len, _ => (Ret (RInt (zlen l)), l)
  | Iter, _ => (Ret (RList l), l)
  end.

Fixpoint spec_run (policy : SchedulingPolicy) (cs : list queue_call) (l : list RequestArgs)
    : list (outcome queue_reply) :=
  match cs with
  | [] => []
  | c :: cs => let '(o, l') := spec_call policy c l in o :: spec_run policy cs l'
  end.

(** The request objects in memory; a call names live objects. *)
Definition live (store : gmap Z RequestArgs) (r : RequestArgs) : Prop :=
  store !! req_obj r = Some r.
Definition call_live (store : gmap Z RequestArgs) (c : queue_call) : Prop :=
  match c with
  | Add r | Prepend r | Remove r => live store r
  | PrependAll rs | RemoveAll rs => Forall (live store) rs
  | _ => True
  end.

(** ** The priority queue *)

Section Priority.
Context (store : gmap Z RequestArgs).

(** The heap holds the list's requests, and the list is in serving order. *)
Record ordered_view (q : PriorityRequestQueue) (l : list RequestArgs) : Prop := {
  view_heap : heap request_lt (_heap q);
  view_perm : _heap q ≡ₚ l;
  view_sorted : StronglySorted (leb request_lt) l;
  view_live : Forall (live store) l;
}.

Lemma live_eq a b : live store a → live store b → req_obj a = req_obj b → a = b.
Proof. unfold live. intros Ha Hb E. rewrite E in Ha. congruence. Qed.

Lemma same_object_spec a b : live store a → live store b → same_object a b = true ↔ a = b.
Proof.
  intros Ha Hb. unfold same_object. rewrite Z.eqb_eq.
  split; [by apply live_eq|by intros ->].
Qed.

(** Two serving orders of the same requests are equal. *)
Lemma sorted_unique l l' :
  Forall (live store) l → StronglySorted (leb request_lt) l →
  StronglySorted (leb request_lt) l' → l' ≡ₚ l → l' = l.
Proof.
  intros Hl H1 H2 Hp. apply (StronglySorted_unique_strong (leb request_lt)); [|done..].
  intros x y Hx Hy Hxy Hyx. rewrite Hp in Hx. rewrite Forall_forall in Hl.
  apply live_eq; [by apply Hl..|].
  by apply request_leb_antisym.
Qed.

Lemma insort_perm r l : insort r l ≡ₚ r :: l.
Proof.
  induction l as [|x l IH]; simpl; [done|]. destruct (request_lt r x); [done|].
  rewrite IH. apply perm_swap.
Qed.

Lemma insort_sorted r l :
  StronglySorted (leb request_lt) l → StronglySorted (leb request_lt) (insort r l).
Proof.
  induction 1 as [|x l Hl IH Hx]; simpl; [by repeat constructor|].
  destruct (request_lt r x) eqn:E.
  - apply request_lt_leb in E. repeat (constructor; try done).
    eapply Forall_impl; [exact Hx|]. intros y Hy. by eapply request_leb_trans.
  - constructor; [done|]. rewrite insort_perm. by constructor.
Qed.

Lemma remove_first_spec r l :
  live store r → Forall (live store) l →
  match remove_first r l with
  | Some l' => l ≡ₚ r :: l' ∧ sublist l' l
  | None => r ∉ l
  end.
Proof.
  intros Hr. induction 1 as [|x l Hx Hl IH]; simpl; [set_solver|].
  pose proof (same_object_spec x r Hx Hr) as Hso.
  destruct (same_object x r); [assert (x = r) as -> by by apply Hso|].
  { split; [done|]. by apply sublist_cons. }
  destruct (remove_first r l) as [l'|]; simpl.
  - destruct IH as [H1 H2]. split; [by rewrite H1, perm_swap|by apply sublist_skip].
  - assert (x ≠ r) by (intros E; by apply Hso in E). set_solver.
Qed.

Lemma view_add q l r :
  ordered_view q l → live store r →
  ordered_view (mkPriority (heappush request_lt (_heap q) r)) (insort r l).
Proof.
  intros [H1 H2 H3 H4] Hr.
  destruct (heappush_spec request_lt request_lt_leb request_leb_trans (_heap q) r H1) as [G1 G2].
  split; simpl; [done| |by apply insort_sorted|].
  - by rewrite G2, insort_perm, H2.
  - rewrite insort_perm. by constructor.
Qed.

Lemma view_iter q l : ordered_view q l → Priority.iter q = l.
Proof.
  intros [H1 H2 H3 H4]. unfold Priority.iter.
  destruct (drain_spec request_lt request_lt_leb request_leb_trans _ (_heap q) (le_n _) H1)
    as [G1 G2].
  apply sorted_unique; [done..|]. by rewrite G1.
Qed.

Lemma view_pop q r l :
  ordered_view q (r :: l) →
  ∃ h, heappop request_lt (_heap q) = Some (r, h) ∧ ordered_view (mkPriority h) l.
Proof.
  intros [H1 H2 H3 H4].
  pose proof (heappop_spec request_lt request_lt_leb request_leb_trans (_heap q) H1) as Hpop.
  destruct (heappop request_lt (_heap q)) as [[x h]|]; cycle 1.
  { rewrite Hpop in H2. by apply Permutation_nil_cons in H2. }
  destruct Hpop as (G1 & G2 & G3).
  destruct (drain_spec request_lt request_lt_leb request_leb_trans _ h (le_n _) G2) as [D1 D2].
  assert (E : x :: drain request_lt (length h) h = r :: l).
  { apply sorted_unique; [done..| |].
    - constructor; [done|]. apply Forall_forall. intros y Hy. apply G3. rewrite G1, <-D1.
      by constructor.
    - by rewrite D1, <-G1. }
  simplify_eq. exists h. split; [done|].
  inversion H3; subst. inversion H4; subst. split; simpl; [done|by rewrite D1|done..].
Qed.

Lemma view_remove q l r :
  ordered_view q l → live store r →
  match remove_first r (_heap q), remove_first r l with
  | Some h', Some l' => ordered_view (mkPriority (heapify request_lt h')) l'
  | None, None => True
  | _, _ => False
  end.
Proof.
  intros [H1 H2 H3 H4] Hr.
  assert (H5 : Forall (live store) (_heap q)) by by rewrite H2.
  pose proof (remove_first_spec r (_heap q) Hr H5) as A.
  pose proof (remove_first_spec r l Hr H4) as B.
  destruct (remove_first r (_heap q)) as [h'|], (remove_first r l) as [l'|]; [|..|done].
  - destruct A as [A _], B as [B1 B2].
    destruct (heapify_spec request_lt request_lt_leb request_leb_trans h') as [G1 G2].
    split; simpl; [done| | |].
    + rewrite G2. apply (Permutation_cons_inv (a := r)). by rewrite <-A, <-B1.
    + by eapply StronglySorted_sublist.
    + by eapply Forall_sublist.
  - apply B. destruct A as [A _]. rewrite <-H2, A. by constructor.
  - apply A. destruct B as [B _]. rewrite H2, B. by constructor.
Qed.

Lemma view_without q l rs :
  ordered_view q l →
  ordered_view (mkPriority (heapify request_lt (without rs (_heap q)))) (without rs l).
Proof.
  intros [H1 H2 H3 H4].
  destruct (heapify_spec request_lt request_lt_leb request_leb_trans (without rs (_heap q)))
    as [G1 G2].
  split; simpl; [done| | |].
  - rewrite G2. unfold without. by rewrite H2.
  - eapply StronglySorted_sublist; [|done]. apply sublist_filter.
  - eapply Forall_sublist; [|done]. apply sublist_filter.
Qed.

Lemma view_empty q : ordered_view q [] → mkPriority [] = q.
Proof. destruct q as [h]. intros [_ H _ _]. simpl in H. apply Permutation_nil_r in H. by subst. Qed.

(** One call. *)
Lemma priority_call q l c :
  ordered_view q l → call_live store c →
  let '(o, q') := call c q in let '(o', l') := spec_call PRIORITY c l in
  o = o' ∧ ordered_view q' l'.
Proof.
  intros Hv Hc. pose proof Hv as [_ Hperm _ _].
  destruct c as [r| | |r|rs|r|rs| | |]; simpl in Hc.
  - split; [done|]. by apply view_add.
  - destruct l as [|r l].
    + destruct (view_empty q Hv). done.
    + destruct (view_pop q r l Hv) as (h & Hpop & Hv').
      unfold call, pop_request, priority_queue, Priority.pop_request. cbn.
      assert (_heap q ≠ []) by (intros E; by rewrite E in Hpop).
      run_method. rewrite bool_decide_false by done. by rewrite Hpop.
  - destruct l as [|r l].
    + destruct (view_empty q Hv). done.
    + destruct (view_pop q r l Hv) as (h & Hpop & _).
      pose proof Hv as [Hheap _ _ _].
      unfold call, peek_request, priority_queue, Priority.peek_request. cbn.
      run_method. by rewrite (heappop_head request_lt _ _ _ Hpop).
  - split; [done|]. by apply view_add.
  - assert (Hall : ∀ rs q l, Forall (live store) rs → ordered_view q l →
      ∃ q', foreach rs Priority.add_request q = (Ret tt, q') ∧
            ordered_view q' (foldl (flip (spec_prepend PRIORITY)) l rs)).
    { clear. induction rs as [|r rs IH]; intros q l Hl Hv; [by exists q|].
      inversion Hl; subst. simpl. apply IH; [done|]. by apply view_add. }
    destruct (Hall rs q l Hc Hv) as (q' & E & Hv').
    unfold call, prepend_requests, priority_queue, Priority.prepend_requests.
    unfold mbind, M_bind. by rewrite E.
  - pose proof (view_remove q l r Hv Hc) as Hrem.
    unfold call, remove_request, priority_queue, Priority.remove_request. cbn. run_method.
    destruct (remove_first r (_heap q)), (remove_first r l); done.
  - split; [done|]. by apply view_without.
  - split; [|done]. cbn. repeat f_equal. apply bool_decide_ext. split; intros H E; apply H.
    + subst l. by apply Permutation_nil_r in Hperm.
    + rewrite E in Hperm. by apply Permutation_nil_l in Hperm.
  - split; [|done]. cbn. unfold zlen. by rewrite Hperm.
  - split; [|done]. cbn. by rewrite (view_iter q l Hv).
Qed.

Lemma priority_run cs : ∀ q l,
  Forall (call_live store) cs → ordered_view q l → run_calls cs q = spec_run PRIORITY cs l.
Proof.
  induction cs as [|c cs IH]; intros q l Hcs Hv; [done|]. inversion Hcs; subst. simpl.
  pose proof (priority_call q l c Hv) as Hc.
  destruct (call c q) as [o q'], (spec_call PRIORITY c l) as [o' l'].
  destruct Hc as [-> Hv']; [done|]. f_equal. by apply IH.
Qed.

Lemma ordered_view_nil : ordered_view (mkPriority []) [].
Proof. split; simpl; [apply heap_nil|done|constructor..]. Qed.
End Priority.

(** ** The first-come-first-served queue *)

Lemma extendleft rs : ∀ q,
  Fcfs.prepend_requests rs q = (Ret tt, mkFCFS (foldl (flip (spec_prepend FCFS)) (deque q) rs)).
Proof. induction rs as [|r rs IH]; intros [l]; [done|]. exact (IH (mkFCFS (r :: l))). Qed.

Lemma fcfs_call q c :
  call c q = let '(o, l) := spec_call FCFS c (deque q) in (o, mkFCFS l).
Proof.
  destruct q as [l], c as [r| | |r|rs|r|rs| | |]; try done.
  - by destruct l.
  - by destruct l.
  - unfold call, prepend_requests, fcfs_queue, mbind, M_bind. by rewrite extendleft.
  - unfold call, remove_request, fcfs_queue, Fcfs.remove_request. run_method.
    cbn -[remove_first]. by destruct (remove_first r l).
  - by destruct l.
Qed.

Lemma fcfs_run cs : ∀ q, run_calls cs q = spec_run FCFS cs (deque q).
Proof.
  induction cs as [|c cs IH]; intros q; [done|]. simpl. rewrite fcfs_call.
  destruct (spec_call FCFS c (deque q)) as [o l]. f_equal. apply IH.
Qed.

Lemma run_policy_spec store policy cs :
  Forall (call_live store) cs → run_policy policy cs = spec_run policy cs [].
Proof.
  intros Hcs. destruct policy; [by apply (fcfs_run cs (mkFCFS []))|].
  by apply (priority_run store cs (mkPriority [])), ordered_view_nil.
Qed.

(** ** Waiting requests are served *)

Fixpoint spec_state (policy : SchedulingPolicy) (cs : list queue_call) (l : list RequestArgs)
    : list RequestArgs :=
  match cs with
  | [] => l
  | c :: cs => spec_state policy cs (spec_call policy c l).2
  end.

Lemma spec_run_app policy cs cs' : ∀ l,
  spec_run policy (cs ++ cs') l = spec_run policy cs l ++ spec_run policy cs' (spec_state policy cs l).
Proof.
  induction cs as [|c cs IH]; intros l; [done|]. simpl.
  destruct (spec_call policy c l) as [o l'] eqn:E. simpl. by rewrite IH.
Qed.

Lemma spec_run_length policy cs : ∀ l, length (spec_run policy cs l) = length cs.
Proof.
  induction cs as [|c cs IH]; intros l; [done|]. simpl.
  destruct (spec_call policy c l). simpl. by rewrite IH.
Qed.

(** In the priority order the list is sorted. *)
Definition serving_order (policy : SchedulingPolicy) (l : list RequestArgs) : Prop :=
  policy = PRIORITY → StronglySorted (leb request_lt) l.

Lemma serving_order_call store policy c l q :
  call_live store c → (policy = PRIORITY → ordered_view store q l) →
  ∃ q', policy = PRIORITY → ordered_view store q' (spec_call policy c l).2.
Proof.
  intros Hc Hv. destruct policy; [by exists q|]. specialize (Hv eq_refl).
  pose proof (priority_call store q l c Hv Hc) as H.
  destruct (call c q) as [o q'], (spec_call PRIORITY c l) as [o' l']. exists q'. intros _. apply H.
Qed.

Lemma serving_order_state store policy cs : ∀ l q,
  Forall (call_live store) cs → (policy = PRIORITY → ordered_view store q l) →
  serving_order policy (spec_state policy cs l).
Proof.
  induction cs as [|c cs IH]; intros l q Hcs Hv.
  { intros Hp. by apply (view_sorted _ _ _ (Hv Hp)). }
  inversion Hcs; subst. simpl.
  destruct (serving_order_call store policy c l q) as [q' Hq']; [done..|]. by eapply IH.
Qed.

(** The calls that leave a waiting request [r] its place: the server's pops and
    the arrival of requests that, under the priority policy, come after [r]. *)
Definition behind (policy : SchedulingPolicy) (r : RequestArgs) (c : queue_call) : Prop :=
  match c with
  | Pop => True
  | Add r' => policy = PRIORITY → request_lt r r' = true
  | _ => False
  end.
Fixpoint num_pops (cs : list queue_call) : nat :=
  match cs with
  | [] => 0
  | Pop :: cs => S (num_pops cs)
  | _ :: cs => num_pops cs
  end.

Lemma insort_behind r r' l k :
  StronglySorted (leb request_lt) l → l !! k = Some r → request_lt r r' = true →
  insort r' l !! k = Some r.
Proof.
  intros Hs Hk Hlt. revert k Hk. induction Hs as [|x l Hl IH Hx]; intros k Hk; [done|].
  assert (Hxr : leb request_lt x r).
  { destruct k; simplify_eq/=; [apply lt_irrefl_leb, request_lt_leb|].
    rewrite Forall_forall in Hx. apply Hx. by eapply list_elem_of_lookup_2. }
  simpl. assert (request_lt r' x = false) as ->.
  { apply (request_leb_trans x r r'); [done|by apply request_lt_leb]. }
  destruct k; [done|]. by apply IH.
Qed.

Lemma served_loop policy r cs : ∀ l k,
  Forall (behind policy r) cs → serving_order policy l → l !! k = Some r → k < num_pops cs →
  Ret (RRequest r) ∈ spec_run policy cs l.
Proof.
  induction cs as [|c cs IH]; intros l k Hcs Hs Hk Hn; [simpl in Hn; lia|].
  inversion Hcs as [|?? Hc Hcs']; subst. destruct c; try done; simpl in *.
  - apply list_elem_of_further. apply (IH _ k Hcs').
    + intros ->. by apply insort_sorted, Hs.
    + destruct policy; simpl; [by apply lookup_app_l_Some|]. apply insort_behind; auto.
    + done.
  - destruct l as [|x l]; [done|]. destruct k as [|k].
    + injection Hk as ->. apply list_elem_of_here.
    + apply list_elem_of_further. apply (IH l k Hcs'); [|done|].
      * intros Hp. specialize (Hs Hp). by inversion Hs.
      * lia.
Qed.

(** C25: The queue of either policy answers every sequence of calls on live
    request objects exactly as one list kept in serving order does (arrival
    order, or the order of [Request.__lt__] for the priority policy), the
    IndexErrors of popping and peeking an empty queue and the ValueErrors of
    removing an absent request included. *)
Theorem queue_refines_serving_order (store : gmap Z RequestArgs) (policy : SchedulingPolicy)
    (cs : list queue_call) (Hlive : Forall (call_live store) cs) :
  run_policy policy cs = spec_run policy cs [].
Proof. by apply (run_policy_spec store). Qed.

(** C26: A waiting request with [k] requests ahead of it is served by the
    [k+1]-st pop at the latest: no arrivals delay it, except, under the priority
    policy, arrivals that come before it. *)
Theorem waiting_request_served (store : gmap Z RequestArgs) (policy : SchedulingPolicy)
    (pre cs : list queue_call) (l : list RequestArgs) (k : nat) (r : RequestArgs)
    (Hlive : Forall (call_live store) (pre ++ cs))
    (Hiter : last (run_policy policy (pre ++ [Iter])) = Some (Ret (RList l)))
    (Hk : l !! k = Some r)
    (Hbehind : Forall (behind policy r) cs)
    (Hpops : k < num_pops cs) :
  Ret (RRequest r) ∈ drop (length pre) (run_policy policy (pre ++ cs)).
Proof.
  pose proof (proj1 (Forall_app _ _ _) Hlive) as [Hpre _].
  rewrite (run_policy_spec store) by done.
  rewrite (run_policy_spec store), spec_run_app in Hiter
    by (apply Forall_app; split; [done|by constructor]).
  simpl in Hiter. rewrite last_snoc in Hiter. simplify_eq.
  rewrite spec_run_app, drop_app_length' by (by rewrite spec_run_length).
  eapply served_loop; [done| |done|done].
  apply (serving_order_state store policy pre [] (mkPriority []) Hpre). intros _. apply ordered_view_nil.
Qed.

(** ** Instances *)

Definition demo_request (id : string) (obj prio arrival : Z) : RequestArgs :=
  mkArgs id obj prio arrival None (Some (mkPooling None)) (Some [1%Z; 2%Z]) None None None [] 1 2 []
    true false false.
Definition demo_store : gmap Z RequestArgs :=
  list_to_map [(1%Z, demo_request "a" 1 5 10); (2%Z, demo_request "b" 2 1 20);
    (3%Z, demo_request "c" 3 5 5); (4%Z, demo_request "d" 4 9 0)].
Definition demo_a := demo_request "a" 1 5 10.
Definition demo_b := demo_request "b" 2 1 20.
Definition demo_c := demo_request "c" 3 5 5.
Definition demo_d := demo_request "d" 4 9 0.

Lemma queue_refines_serving_order_witness :
  run_policy PRIORITY [Add demo_a; Add demo_b; PrependAll [demo_c; demo_d]; Iter; Remove demo_b; Pop]
  = [Ret RNone; Ret RNone; Ret RNone; Ret (RList [demo_b; demo_c; demo_a; demo_d]); Ret RNone;
     Ret (RRequest demo_c)].
Proof.
  rewrite (queue_refines_serving_order demo_store) by by repeat constructor.
  vm_compute. reflexivity.
Defined.

Lemma waiting_request_served_witness :
  Ret (RRequest demo_c) ∈
    drop 2 (run_policy PRIORITY ([Add demo_c; Add demo_b] ++ [Add demo_d; Pop; Add demo_a; Pop])).
Proof.
  apply (waiting_request_served demo_store PRIORITY [Add demo_c; Add demo_b]
    [Add demo_d; Pop; Add demo_a; Pop] [demo_b; demo_c] 1 demo_c).
  - by repeat constructor.
  - vm_compute. reflexivity.
  - reflexivity.
  - repeat constructor; by intros _.
  - simpl. lia.
Defined.
