(* ===== verification/SchedUtils.v ===== *)
(** * Stop conditions of the scheduler

    [vllm/v1/core/sched/utils.py] (stop checks, repetition detection, removal
    from a list) and [Scheduler._update_request_with_output] of
    [vllm/v1/core/sched/scheduler.py], which appends the sampled tokens one by
    one until a stop condition holds. *)

From S2P Require Import Prelude.
From S2P Require Import FreeQueue.
From S2P Require Import Request.
Local Open Scope Z_scope.

(** ** Repetition detection *)

(** Python's [token_ids[i]]; [None] is the [IndexError]. *)
Fixpoint all_equal_to (token_ids : list Z) (target_token : Z) (positions : list Z) : option bool :=
  match positions with
  | [] => Some true
  | i :: positions =>
      t ← py_get token_ids i;
      if t =? target_token then all_equal_to token_ids target_token positions else Some false
  end.

(** [range(a, b)] *)
Definition range (a b : Z) : list Z := (λ k, a + Z.of_nat k) <$> seq 0 (Z.to_nat (b - a)).

Fixpoint repeating_loop (token_ids : list Z) (pattern_len repetition_min_count : Z) (ns : list Z)
    : option bool :=
  match ns with
  | [] => Some true
  | n :: ns =>
      target_token ← py_get token_ids (- n);
      same ← all_equal_to token_ids target_token
               ((λ m, - (pattern_len * m + n)) <$> range 1 repetition_min_count);
      if (same : bool)
      then repeating_loop token_ids pattern_len repetition_min_count ns
      else Some false
  end.

Definition _has_repeating_pattern (token_ids : list Z) (pattern_len repetition_min_count : Z)
    : option bool :=
  repeating_loop token_ids pattern_len repetition_min_count (range 1 (pattern_len + 1)).

Fixpoint pattern_loop (token_ids : list Z) (min_count : Z) (pattern_lens : list Z) : option bool :=
  match pattern_lens with
  | [] => Some false
  | pattern_len :: pattern_lens =>
      if zlen token_ids <? pattern_len * min_count then Some false
      else
        found ← _has_repeating_pattern token_ids pattern_len min_count;
        if (found : bool) then Some true else pattern_loop token_ids min_count pattern_lens
  end.

Definition check_sequence_repetition (token_ids : list Z) (params : RepetitionDetectionParams)
    : option bool :=
  let min_pattern_size := if min_pattern_size params <=? 0 then 1 else min_pattern_size params in
  if (max_pattern_size params <=? 0) || (min_count params <? 2)
     || (max_pattern_size params <? min_pattern_size)
  then Some false
  else pattern_loop token_ids (min_count params)
         (range min_pattern_size (max_pattern_size params + 1)).

(** ** Removal from a list of request objects

    [remove_all] of a set: the list keeps the elements that are not in it.  The
    fast path removes the first occurrence of the only element. *)
Fixpoint list_remove {A} `{EqDecision A} (x : A) (l : list A) : list A :=
  match l with
  | [] => []
  | y :: l' => if decide (y = x) then l' else y :: list_remove x l'
  end.

Definition remove_all {A} `{Countable A} (lst : list A) (items_to_remove : gset A) : list A :=
  match elements items_to_remove with
  | [] => lst
  | [item] => list_remove item lst
  | _ => filter (λ item, item ∉ items_to_remove) lst
  end.

(** ** The stop check *)

Definition check_stop (max_model_len : Z) : M Request bool :=
  r ← get;
  py_assert (bool_decide (pooling_params r = None)) ;;
  sp ← of_option AssertionError (sampling_params r);
  if num_output_tokens r <? min_tokens sp then mret false
  else
    last_token_id ← of_option IndexError (py_get (_output_token_ids r) (-1));
    if bool_decide (eos_token_id sp = Some last_token_id) then
      put (set_status FINISHED_STOPPED (stop_reason r) r) ;; mret true
    else if bool_decide (last_token_id ∈ stop_token_ids sp) then
      put (set_status FINISHED_STOPPED (Some (StopToken last_token_id)) r) ;; mret true
    else if (max_model_len <=? num_tokens r) || (max_tokens r <=? num_output_tokens r) then
      put (set_status FINISHED_LENGTH_CAPPED (stop_reason r) r) ;; mret true
    else
      match repetition_detection sp with
      | None => mret false
      | Some params =>
          found ← of_option IndexError (check_sequence_repetition (_output_token_ids r) params);
          if (found : bool) then
            put (set_status FINISHED_REPETITION (Some (StopString "repetition_detected")) r) ;;
            mret true
          else mret false
      end.

(** [Scheduler._update_request_with_output]: the tokens kept and whether the
    request stopped.  [block_hasher] is the hasher of the request. *)
Fixpoint append_until_stop (block_hasher : option (M Request (list BlockHash)))
    (max_model_len : Z) (new_token_ids : list Z) : M Request (list Z * bool) :=
  match new_token_ids with
  | [] => mret ([], false)
  | output_token_id :: rest =>
      append_output_token_ids block_hasher [output_token_id] ;;
      stopped ← check_stop max_model_len;
      if (stopped : bool) then mret ([output_token_id], true)
      else
        '(kept, stopped) ← append_until_stop block_hasher max_model_len rest;
        mret (output_token_id :: kept, stopped)
  end.

Definition _update_request_with_output (block_hasher : option (M Request (list BlockHash)))
    (max_model_len : Z) (new_token_ids : list Z) : M Request (list Z * bool) :=
  append_until_stop block_hasher max_model_len new_token_ids.
