(* ===== verification/SchedUtilsSpec.v ===== *)
(** * Stop conditions: specification and proofs *)

From S2P Require Import Prelude.
From S2P Require Import FreeQueue.
From S2P Require Import Request.
From S2P Require Import SchedUtils.
Local Open Scope Z_scope.

(** ** Positions from the end *)

Lemma range_elem a b x : x ∈ range a b ↔ a ≤ x < b.
Proof.
  unfold range. rewrite list_elem_of_fmap. setoid_rewrite elem_of_seq. split.
  - intros (k & -> & Hk). lia.
  - intros Hx. exists (Z.to_nat (x - a)). lia.
Qed.

Lemma range_cons a b : a < b → range a b = a :: range (a + 1) b.
Proof.
  intros Hab. unfold range. replace (Z.to_nat (b - a)) with (S (Z.to_nat (b - (a + 1)))) by lia.
  cbn [seq]. rewrite fmap_cons. f_equal; [lia|]. rewrite <-fmap_S_seq, <-list_fmap_compose.
  apply list_fmap_ext. intros i k _. simpl. lia.
Qed.

Lemma range_nil a b : b ≤ a → range a b = [].
Proof. intros Hab. unfold range. by replace (Z.to_nat (b - a)) with 0%nat by lia. Qed.

(** [l[-j]] *)
Definition back (l : list Z) (j : Z) : option Z := l !! (length l - Z.to_nat j)%nat.

Lemma py_get_back l j : 1 ≤ j ≤ zlen l → py_get l (- j) = back l j ∧ is_Some (back l j).
Proof.
  intros Hj. unfold py_get, back, zlen in *.
  rewrite (proj2 (Z.ltb_ge _ _)), (proj2 (Z.ltb_lt _ _)) by lia.
  split; [f_equal; lia|]. apply lookup_lt_is_Some. lia.
Qed.

Lemma all_equal_spec l t ps :
  Forall (λ i, 1 ≤ - i ≤ zlen l) ps →
  ∃ b, all_equal_to l t ps = Some b ∧ (b = true ↔ ∀ i, i ∈ ps → back l (- i) = Some t).
Proof.
  induction 1 as [|i ps Hi Hps IH]; simpl.
  { exists true. split; [done|]. split; [|done]. by intros _ i ?%elem_of_nil. }
  destruct (py_get_back l (- i) Hi) as [E [u Hu]].
  rewrite Z.opp_involutive in E. rewrite E, Hu. simpl.
  destruct (Z.eqb_spec u t) as [->|Hne].
  - destruct IH as (b & -> & Hb). exists b. split; [done|]. rewrite Hb. split.
    + intros H j [->|Hj]%elem_of_cons; [done|by apply H].
    + intros H j Hj. apply H. by apply elem_of_cons; right.
  - exists false. split; [done|]. split; [done|]. intros H.
    specialize (H i ltac:(by apply elem_of_cons; left)). congruence.
Qed.

(** The last [c] blocks of [k] tokens agree with the last one. *)
Definition repeats (l : list Z) (k c : Z) : Prop :=
  ∀ n m, 1 ≤ n ≤ k → 1 ≤ m < c → back l (k * m + n) = back l n.

Lemma repeating_loop_spec l k c : 0 < k → k * c ≤ zlen l → ∀ ns,
  Forall (λ n, 1 ≤ n ≤ k) ns → 2 ≤ c →
  ∃ b, repeating_loop l k c ns = Some b ∧
    (b = true ↔ ∀ n m, n ∈ ns → 1 ≤ m < c → back l (k * m + n) = back l n).
Proof.
  intros Hk Hlen ns Hns Hc. induction Hns as [|n ns Hn Hns IH]; simpl.
  { exists true. split; [done|]. split; [|done]. by intros _ n m ?%elem_of_nil. }
  destruct (py_get_back l n) as [E [t Ht]]; [nia|]. rewrite E, Ht. simpl.
  destruct (all_equal_spec l t ((λ m, - (k * m + n)) <$> range 1 c)) as (b & -> & Hb).
  { apply Forall_fmap, Forall_forall. intros m Hm%range_elem. simpl. nia. }
  simpl. assert (Hb' : b = true ↔ ∀ m, 1 ≤ m < c → back l (k * m + n) = Some t).
  { rewrite Hb. split.
    - intros H m Hm. rewrite <-(Z.opp_involutive (k * m + n)). apply H.
      apply list_elem_of_fmap. exists m. by rewrite range_elem.
    - intros H i (m & -> & Hm%range_elem)%list_elem_of_fmap. rewrite Z.opp_involutive. by apply H. }
  destruct b.
  - destruct IH as (b & -> & IH). exists b. split; [done|]. rewrite IH. split.
    + intros H n' m [->|Hn']%elem_of_cons Hm; [rewrite Ht; by apply Hb'|by apply H].
    + intros H n' m Hn' Hm. apply H; [by apply elem_of_cons; right|done].
  - exists false. split; [done|]. split; [done|]. intros H. apply Hb'. intros m Hm.
    rewrite <-Ht. apply H; [by apply elem_of_cons; left|done].
Qed.

Lemma has_repeating_spec l k c :
  0 < k → k * c ≤ zlen l → 2 ≤ c →
  ∃ b, _has_repeating_pattern l k c = Some b ∧ (b = true ↔ repeats l k c).
Proof.
  intros Hk Hlen Hc. unfold _has_repeating_pattern.
  destruct (repeating_loop_spec l k c Hk Hlen (range 1 (k + 1))) as (b & E & Hb); [|done|].
  { apply Forall_forall. intros n Hn%range_elem. lia. }
  exists b. split; [done|]. rewrite Hb. unfold repeats. split.
  - intros H n m Hn Hm. apply H; [|done]. apply range_elem. lia.
  - intros H n m Hn%range_elem Hm. apply H; [lia|done].
Qed.

(** ** Repeated blocks as concatenations *)

Lemma concat_replicate_length {A} (w : list A) c :
  length (concat (replicate c w)) = (c * length w)%nat.
Proof. induction c as [|c IH]; simpl; [done|]. rewrite length_app, IH. lia. Qed.

Lemma concat_replicate_lookup {A} (w : list A) c q x :
  (q < c)%nat → (x < length w)%nat →
  concat (replicate c w) !! (length w * q + x)%nat = w !! x.
Proof.
  revert q. induction c as [|c IH]; intros q Hq Hx; [lia|]. simpl. destruct q as [|q].
  - rewrite Nat.mul_0_r. by rewrite lookup_app_l.
  - rewrite lookup_app_r by lia.
    replace (length w * S q + x - length w)%nat with (length w * q + x)%nat by lia.
    apply IH; lia.
Qed.

Lemma back_app l l' j : 1 ≤ j ≤ zlen l' → back (l ++ l') j = back l' j.
Proof.
  intros Hj. unfold back, zlen in *. rewrite length_app, lookup_app_r by lia. f_equal. lia.
Qed.

Lemma back_concat w c n m :
  1 ≤ n ≤ zlen w → 0 ≤ m < Z.of_nat c →
  back (concat (replicate c w)) (zlen w * m + n) = w !! (length w - Z.to_nat n)%nat.
Proof.
  intros Hn Hm. unfold back, zlen in *. rewrite concat_replicate_length.
  replace (c * length w - Z.to_nat (Z.of_nat (length w) * m + n))%nat
    with (length w * (c - Z.to_nat m - 1) + (length w - Z.to_nat n))%nat by nia.
  apply concat_replicate_lookup; lia.
Qed.

Lemma repeats_concat l k c :
  0 < k → 2 ≤ c → k * c ≤ zlen l →
  repeats l k c ↔ ∃ pre w, zlen w = k ∧ l = pre ++ concat (replicate (Z.to_nat c) w).
Proof.
  intros Hk Hc Hlen. split.
  - intros Hrep. set (w := drop (length l - Z.to_nat k) l).
    exists (take (length l - Z.to_nat (k * c)) l), w. unfold zlen in *.
    assert (Hw : length w = Z.to_nat k) by (unfold w; rewrite length_drop; nia).
    split; [lia|]. rewrite <-(take_drop (length l - Z.to_nat (k * c)) l) at 1. f_equal.
    assert (Hcl : length (concat (replicate (Z.to_nat c) w)) = Z.to_nat (k * c))
      by (rewrite concat_replicate_length; nia).
    apply (list_eq_same_length _ _ (Z.to_nat (k * c))); [done|rewrite length_drop; nia|].
    intros i x y Hi Hx Hy.
    pose proof (Nat.div_mod_eq i (length w)) as Hdm.
    pose proof (Nat.mod_upper_bound i (length w) ltac:(lia)) as Hmod.
    set (q := (i / length w)%nat) in *. set (z := (i `mod` length w)%nat) in *.
    assert (Hq : (q < Z.to_nat c)%nat) by nia.
    rewrite Hdm, concat_replicate_lookup in Hy by lia. unfold w in Hy.
    rewrite lookup_drop in Hx, Hy.
    assert (Hkc : Z.to_nat (k * c) = (Z.to_nat k * Z.to_nat c)%nat) by (apply Z2Nat.inj_mul; lia).
    assert (Hin : (Z.to_nat k * Z.to_nat c <= length l)%nat) by lia. rewrite Hw in *.
    destruct (decide (q = Z.to_nat c - 1)%nat) as [Hlast|Hlast].
    + assert (Hcq : Z.to_nat c = S q) by lia. rewrite Hkc, Hcq in Hx. rewrite Hcq in Hin.
      replace (length l - Z.to_nat k * S q + i)%nat with (length l - Z.to_nat k + z)%nat in Hx by nia.
      congruence.
    + specialize (Hrep (k - Z.of_nat z) (c - 1 - Z.of_nat q) ltac:(lia) ltac:(lia)).
      unfold back in Hrep.
      replace (length l - Z.to_nat (k * (c - 1 - Z.of_nat q) + (k - Z.of_nat z)))%nat
        with (length l - Z.to_nat (k * c) + i)%nat in Hrep.
      2: { set (d := (Z.to_nat c - 1 - q)%nat) in *.
           assert (HC : Z.to_nat c = (q + 1 + d)%nat) by lia.
           replace (c - 1 - Z.of_nat q) with (Z.of_nat d) by lia.
           assert (HK : Z.to_nat (k * Z.of_nat d + (k - Z.of_nat z))
                        = (Z.to_nat k * d + (Z.to_nat k - z))%nat).
           { assert (Hkn : k = Z.of_nat (Z.to_nat k)) by lia.
             rewrite Hkn at 1. rewrite <-Nat2Z.inj_mul. lia. }
           rewrite HK, Hkc, HC. rewrite HC in Hin. clear -Hin Hdm Hmod. nia. }
      assert (HKl : (Z.to_nat k <= length l)%nat) by (clear -Hin Hc; nia).
      replace (length l - Z.to_nat (k - Z.of_nat z))%nat with (length l - Z.to_nat k + z)%nat in Hrep
        by lia.
      congruence.
  - intros (pre & w & <- & ->) n m Hn Hm.
    assert (Hl : zlen (concat (replicate (Z.to_nat c) w)) = zlen w * c).
    { unfold zlen. rewrite concat_replicate_length. nia. }
    rewrite !back_app by nia. rewrite back_concat by lia.
    replace n with (zlen w * 0 + n) at 2 by lia. by rewrite back_concat by lia.
Qed.

Lemma pattern_loop_spec l c : 2 ≤ c → ∀ hi lo,
  1 ≤ lo →
  ∃ b, pattern_loop l c (range lo hi) = Some b ∧
    (b = true ↔ ∃ pre w, lo ≤ zlen w < hi ∧ l = pre ++ concat (replicate (Z.to_nat c) w)).
Proof.
  intros Hc hi lo Hlo. remember (Z.to_nat (hi - lo)) as fuel eqn:Hf.
  revert lo Hlo Hf. induction fuel as [|fuel IH]; intros lo Hlo Hf.
  { rewrite range_nil by lia. exists false. split; [done|]. split; [done|]. intros (pre & w & Hw & _). lia. }
  assert (Hshort : ∀ pre w, lo ≤ zlen w → l = pre ++ concat (replicate (Z.to_nat c) w) →
            lo * c ≤ zlen l).
  { intros pre w Hw ->. unfold zlen in *. rewrite length_app, concat_replicate_length. nia. }
  rewrite range_cons by lia. cbn [pattern_loop].
  destruct (Z.ltb_spec (zlen l) (lo * c)) as [Hlt|Hge].
  { exists false. split; [done|]. split; [done|]. intros (pre & w & Hw & Hl).
    specialize (Hshort pre w ltac:(lia) Hl). lia. }
  destruct (has_repeating_spec l lo c ltac:(lia) Hge Hc) as (b & -> & Hb). simpl.
  rewrite repeats_concat in Hb by lia. destruct b.
  - exists true. split; [done|]. split; [intros _|done].
    destruct Hb as [Hb _]. destruct (Hb eq_refl) as (pre & w & Hw & Hl). exists pre, w. split; [lia|done].
  - destruct (IH (lo + 1)) as (b & -> & IHb); [lia..|]. exists b. split; [done|]. rewrite IHb. split.
    + intros (pre & w & Hw & Hl). exists pre, w. split; [lia|done].
    + intros (pre & w & Hw & Hl). exists pre, w. split; [|done].
      destruct (decide (zlen w = lo)) as [Heq|]; [|lia].
      assert (false = true) by (apply Hb; by exists pre, w). done.
Qed.

(** The tail of [l] is [c] copies of a pattern whose length the parameters allow. *)
Definition repetitive (p : RepetitionDetectionParams) (l : list Z) : Prop :=
  2 ≤ min_count p ∧ ∃ pre w, Z.max 1 (min_pattern_size p) ≤ zlen w ≤ max_pattern_size p ∧
    l = pre ++ concat (replicate (Z.to_nat (min_count p)) w).

Lemma check_sequence_repetition_spec l p :
  ∃ b, check_sequence_repetition l p = Some b ∧ (b = true ↔ repetitive p l).
Proof.
  unfold check_sequence_repetition, repetitive.
  assert (Hmin : (if min_pattern_size p <=? 0 then 1 else min_pattern_size p)
                 = Z.max 1 (min_pattern_size p)) by (destruct (Z.leb_spec (min_pattern_size p) 0); lia).
  rewrite Hmin. destruct (_ || _) eqn:E.
  - exists false. split; [done|]. split; [done|]. intros (Hc & pre & w & Hw & _).
    rewrite !orb_true_iff, Z.leb_le, !Z.ltb_lt in E. lia.
  - rewrite !orb_false_iff, Z.leb_gt, !Z.ltb_ge in E.
    destruct (pattern_loop_spec l (min_count p) ltac:(lia) (max_pattern_size p + 1)
      (Z.max 1 (min_pattern_size p)) ltac:(lia)) as (b & -> & Hb).
    exists b. split; [done|]. rewrite Hb. split.
    + intros (pre & w & Hw & Hl). split; [lia|]. exists pre, w. split; [lia|done].
    + intros (Hc & pre & w & Hw & Hl). exists pre, w. split; [lia|done].
Qed.

(** ** The stop check *)

Section Stop.
Context (max_model_len : Z) (args : RequestArgs) (sp : SamplingParams).
Context (Hpool : pooling_params args = None) (Hsp : sampling_params args = Some sp).

(** Why a request whose outputs are [out], [total] tokens in all, stops. *)
Definition token_stop (out : list Z) : Prop :=
  ∃ t, last out = Some t ∧ (eos_token_id sp = Some t ∨ t ∈ stop_token_ids sp).
Definition length_stop (out : list Z) (total : Z) : Prop :=
  max_model_len ≤ total ∨ max_tokens args ≤ zlen out.
Definition repetition_stop (out : list Z) : Prop :=
  ∃ p, repetition_detection sp = Some p ∧ repetitive p out.
Definition stops (out : list Z) (total : Z) : Prop :=
  min_tokens sp ≤ zlen out ∧ (token_stop out ∨ length_stop out total ∨ repetition_stop out).

(** The status the stop gives: the first cause in this order. *)
Definition stop_status (out : list Z) (total : Z) (st : RequestStatus) : Prop :=
  (token_stop out ∧ st = FINISHED_STOPPED) ∨
  (¬ token_stop out ∧ length_stop out total ∧ st = FINISHED_LENGTH_CAPPED) ∨
  (¬ token_stop out ∧ ¬ length_stop out total ∧ st = FINISHED_REPETITION).

Lemma check_stop_wp r :
  req_args r = args → _output_token_ids r ≠ [] →
  wp (check_stop max_model_len) r (λ b r',
    (b = true ↔ stops (_output_token_ids r) (num_tokens r)) ∧
    if b then ∃ st sr, r' = set_status st sr r ∧ stop_status (_output_token_ids r) (num_tokens r) st
    else r' = r).
Proof.
  intros Hargs Hout. unfold check_stop. wp_steps. rewrite Hargs, Hpool, Hsp.
  destruct (exists_last Hout) as (out & t & E).
  assert (Hget : py_get (_output_token_ids r) (-1) = Some t).
  { rewrite E. unfold py_get. rewrite zlen_app. pose proof (zlen_nonneg out).
    change (zlen [t]) with 1. rewrite (proj2 (Z.ltb_ge _ _)) by lia. simpl.
    replace (Z.to_nat (-1 + (zlen out + 1))) with (length out) by (unfold zlen; lia).
    by rewrite list_lookup_middle. }
  assert (Hlast : last (_output_token_ids r) = Some t) by (rewrite E; apply last_snoc).
  apply wp_assert; [done|]. wp_step. eapply wp_of_option; [done|].
  unfold num_output_tokens, stops. set (o := _output_token_ids r) in *.
  destruct (Z.ltb_spec (zlen o) (min_tokens sp)).
  { wp_steps. split; [|done]. split; [done|lia]. }
  wp_step. eapply wp_of_option; [done|].
  assert (Htok : token_stop o ↔ eos_token_id sp = Some t ∨ t ∈ stop_token_ids sp).
  { unfold token_stop. rewrite Hlast. naive_solver. }
  unfold stop_status. repeat case_bool_decide.
  - wp_steps. split; [split; [intros _|done]; split; [lia|left; by apply Htok; left]|].
    do 2 eexists. split; [done|]. left. split; [|done]. apply Htok. by left.
  - wp_steps. split; [split; [intros _|done]; split; [lia|left; by apply Htok; right]|].
    do 2 eexists. split; [done|]. left. split; [|done]. apply Htok. by right.
  - assert (Hnt : ¬ token_stop o) by (rewrite Htok; tauto).
    destruct (_ || _) eqn:Hlen.
    + rewrite orb_true_iff, !Z.leb_le in Hlen. wp_steps.
      split; [split; [intros _|done]; split; [lia|by right; left]|].
      do 2 eexists. split; [done|]. right. left. done.
    + rewrite orb_false_iff, !Z.leb_gt in Hlen.
      assert (Hnl : ¬ length_stop o (num_tokens r)) by (unfold length_stop; lia).
      unfold repetition_stop. destruct (repetition_detection sp) as [p|]; cycle 1.
      { wp_steps. split; [|done]. split; [done|]. naive_solver. }
      destruct (check_sequence_repetition_spec o p) as (b & Hcheck & Hb). rewrite Hcheck.
      wp_step. eapply wp_of_option; [done|]. destruct b; wp_steps.
      * split; [split; [intros _|done]; split; [lia|]; right; right; exists p; by split; [|apply Hb]|].
        do 2 eexists. split; [done|]. right. by right.
      * split; [|done]. split; [done|]. intros [_ [?|[?|(p' & [= <-] & Hp')]]]; [done..|].
        by apply Hb.
Qed.
End Stop.

(** ** Appending sampled tokens *)

(** A block hasher computes hashes and memoises embedding hashes only. *)
Definition hasher_ok (block_hasher : option (M Request (list BlockHash))) : Prop :=
  ∀ f, block_hasher = Some f → ∀ r, wp f r (λ _ r', ∃ m, r' = set_embeds_hashes m r).

Lemma append_wp block_hasher t r :
  hasher_ok block_hasher →
  wp (append_output_token_ids block_hasher [t]) r (λ _ r',
    req_args r' = req_args r ∧ status r' = status r ∧
    _output_token_ids r' = _output_token_ids r ++ [t] ∧ _all_token_ids r' = _all_token_ids r ++ [t]).
Proof.
  intros Hh. unfold append_output_token_ids, update_block_hashes. wp_steps.
  destruct block_hasher as [f|]; [|by wp_steps]. wp_step.
  eapply wp_mono; [by apply Hh|]. intros hs r' (m & ->). by wp_steps.
Qed.

Section Append.
Context (block_hasher : option (M Request (list BlockHash))) (max_model_len : Z) (sp : SamplingParams).
Context (Hhasher : hasher_ok block_hasher).

(** [kept] is the longest part of [new] before or at the first stop. *)
Definition update_post (r : Request) (new kept : list Z) (stopped : bool) (r' : Request) : Prop :=
  let stops_at p := stops max_model_len (req_args r) sp (_output_token_ids r ++ p)
                      (num_tokens r + zlen p) in
  (∃ rest, new = kept ++ rest ∧ (stopped = false → rest = [])) ∧
  req_args r' = req_args r ∧
  _output_token_ids r' = _output_token_ids r ++ kept ∧
  _all_token_ids r' = _all_token_ids r ++ kept ∧
  (∀ p t q, kept = p ++ t :: q → (stopped = true → q ≠ []) → ¬ stops_at (p ++ [t])) ∧
  if stopped
  then kept ≠ [] ∧ stops_at kept ∧
       stop_status max_model_len (req_args r) sp (_output_token_ids r') (num_tokens r') (status r')
  else status r' = status r.

Lemma append_until_stop_wp : ∀ new (r : Request),
  pooling_params r = None → sampling_params r = Some sp →
  wp (append_until_stop block_hasher max_model_len new) r
    (λ '(kept, stopped) r', update_post r new kept stopped r').
Proof using Hhasher.
  induction new as [|t new IH]; intros r Hpool Hsp; cbn [append_until_stop].
  { wp_steps. unfold update_post. rewrite !app_nil_r. split_and!; try done; [by exists []|].
    intros p t q Hpq. by destruct p. }
  wp_step. eapply wp_mono; [by apply append_wp|]. intros _ r1 (Ha & Hs & Ho & Hall).
  assert (Hnt : num_tokens r1 = num_tokens r + 1) by (unfold num_tokens; rewrite Hall, zlen_app; done).
  wp_step. eapply wp_mono.
  { apply (check_stop_wp max_model_len (req_args r) sp); [done..|]. rewrite Ho. by destruct (_output_token_ids r). }
  intros b r2 [Hb Hr2]. rewrite Ho, Hnt in Hb. destruct b.
  - destruct Hr2 as (st & sr & -> & Hst). wp_steps. unfold update_post. simpl.
    rewrite Ho, Hall, Ha. split_and!; try done; [by exists new| |by apply Hb|].
    + intros p t' q Hpq Hq. destruct p as [|? p]; simplify_eq/=; [by specialize (Hq eq_refl)|].
      by destruct p.
    + change (num_tokens (set_status st sr r1)) with (num_tokens r1). by rewrite <-Ho.
  - subst r2. wp_step. eapply wp_mono; [apply IH; by rewrite Ha|].
    intros [kept stopped] r' ((rest & -> & Hrest) & G1 & G2 & G3 & G4 & G5). wp_steps.
    unfold update_post. rewrite Ha, Ho in *. rewrite Hall in G3. rewrite Hnt, Hs in *.
    assert (Hshift : ∀ p, num_tokens r + 1 + zlen p = num_tokens r + zlen (t :: p))
      by (intros; rewrite zlen_cons; lia).
    setoid_rewrite <-(assoc_L (++)) in G2. rewrite <-(assoc_L (++)) in G3.
    split_and!; [by exists rest|done..| |].
    + intros p t' q Hpq Hq. destruct p as [|t0 p]; simplify_eq/=.
      { intros Hstop. by apply Hb in Hstop. }
      specialize (G4 p t' q eq_refl Hq). rewrite <-(assoc_L (++)), Hshift in G4. done.
    + destruct stopped; [|done]. destruct G5 as (_ & G5 & G6). split_and!; [done| |done].
      rewrite <-(assoc_L (++)), Hshift in G5. done.
Qed.
End Append.

(** C29: [_update_request_with_output] never raises on a generation request with a
    well-behaved block hasher.  It keeps the sampled tokens up to and including
    the first one after which a stop condition holds (end of sequence, stop
    token, length limits, or an output whose tail is [min_count] copies of one
    pattern, all only from [min_tokens] outputs on), or all of them, appends
    exactly these to the outputs and to the tokens, and sets the finished status
    of the first cause. *)
Theorem update_request_with_output_stops (block_hasher : option (M Request (list BlockHash)))
    (max_model_len : Z) (sp : SamplingParams) (new_token_ids : list Z) (r : Request)
    (Hhasher : hasher_ok block_hasher)
    (Hpooling : pooling_params r = None)
    (Hsampling : sampling_params r = Some sp) :
  wp (_update_request_with_output block_hasher max_model_len new_token_ids) r
    (λ '(kept, stopped) r',
      update_post max_model_len sp r new_token_ids kept stopped r' ∧
      (status_is_finished (status r) = false → is_finished r' = stopped)).
Proof.
  eapply wp_mono; [by apply append_until_stop_wp|]. intros [kept stopped] r' H.
  split; [done|]. intros Hunfin. destruct H as (_ & _ & _ & _ & _ & H).
  unfold is_finished. destruct stopped.
  - destruct H as (_ & _ & [[_ ->]|[(_ & _ & ->)|(_ & _ & ->)]]); done.
  - by rewrite H.
Qed.

(** [min_tokens] also defers the length limits: a request with fewer outputs
    goes on whatever its length. *)
Lemma min_tokens_defers_length_limit (max_model_len : Z) (sp : SamplingParams) (r : Request) :
  pooling_params r = None → sampling_params r = Some sp →
  num_output_tokens r < min_tokens sp →
  check_stop max_model_len r = (Ret false, r).
Proof.
  intros Hp Hs Hmin. unfold check_stop. run_method. rewrite Hp, Hs. simpl.
  by rewrite (proj2 (Z.ltb_lt _ _)).
Qed.

Definition demo_sampling : SamplingParams :=
  mkSampling (Some 16) 0 (Some 2) [] (Some (mkRepetition 2 1 3)) false None [].
Definition demo_generation : Request :=
  mkRequest (mkArgs "g" 1 0 0 (Some demo_sampling) None (Some [7; 8]) None None None [] 16 2 []
      true false false)
    RUNNING None [5] [7; 8; 5] [] 0 0 0 0 0 [] ∅.

Lemma update_request_with_output_stops_witness :
  ∃ r', _update_request_with_output None 100 [9; 4; 9; 4; 9; 4; 6] demo_generation
          = (Ret ([9; 4; 9; 4; 9; 4], true), r') ∧ is_finished r' = true.
Proof.
  pose proof (update_request_with_output_stops None 100 demo_sampling [9; 4; 9; 4; 9; 4; 6]
    demo_generation (λ f H, ltac:(discriminate H)) eq_refl eq_refl) as H.
  apply wp_elim in H as ([kept stopped] & r' & E & _ & H). exists r'.
  assert (kept = [9; 4; 9; 4; 9; 4] ∧ stopped = true) as [-> ->].
  { vm_compute in E. injection E as <- <- _. done. }
  split; [exact E|]. by rewrite H.
Defined.
