(* ===== verification/SchedPrefill.v ===== *)
(** * Prefill chunk sizes

    [Scheduler._balanced_prefill_chunk] and
    [Scheduler._mamba_block_aligned_split] of
    [vllm/v1/core/sched/scheduler.py], with
    [KVCacheCoordinator.get_replay_boundaries] of
    [vllm/v1/core/kv_cache_coordinator.py]: how many of the tokens a step could
    compute it does compute, so that prompts are split evenly and recurrent
    states are materialised at the boundaries where they are kept. *)

From S2P Require Import Prelude.
From S2P Require Import FreeQueue.
From S2P Require Import Request.
Local Open Scope Z_scope.

(** [get_replay_boundaries]: a sorted tuple of a set. *)
Definition get_replay_boundaries (has_eagle_groups : bool) (num_tokens alignment : Z) : list Z :=
  let resend := (num_tokens - 1) / alignment * alignment in
  let extension := num_tokens / alignment * alignment in
  if negb has_eagle_groups then insert_sorted resend [extension]
  else insert_sorted (Z.max (resend - alignment) 0) [Z.max (extension - alignment) 0].

(** The settings of the scheduler the splits read. *)
Record PrefillConfig : Type := mkPrefill {
  balanced_prefill_chunks : bool;
  need_mamba_block_aligned_split : bool;
  mamba_state_block_size : option Z;
  cache_block_size : Z;
  use_eagle : bool;
  has_eagle_groups : bool;
  mamba_tail_checkpoint : bool;
  mamba_state_retention_interval : option Z;
  mamba_dense_boundaries_on_contention : bool;
}.

(** [x or y] of an optional integer *)
Definition py_or (x : option Z) (y : Z) : Z :=
  match x with Some v => if v =? 0 then y else v | None => y end.

Section Prefill.
Context (c : PrefillConfig).

Definition prefill_end (request : Request) : Z :=
  Z.max (num_prompt_tokens request) (num_tokens request - 1).

Definition _balanced_prefill_chunk (request : Request) (num_computed_tokens num_new_tokens : Z) : Z :=
  if negb (balanced_prefill_chunks c) || (num_new_tokens <=? 0) then num_new_tokens
  else
    let remaining := prefill_end request - num_computed_tokens in
    if remaining <=? num_new_tokens then num_new_tokens
    else
      let unit :=
        if need_mamba_block_aligned_split c
        then py_or (mamba_state_block_size c) (cache_block_size c)
        else cache_block_size c in
      let chunks := cdiv remaining num_new_tokens in
      let balanced := cdiv (cdiv remaining chunks) unit * unit in
      Z.min num_new_tokens balanced.

Definition mamba_block_size : Z := default (cache_block_size c) (mamba_state_block_size c).

(** The boundaries at which states are kept. *)
Definition retained_boundaries (request : Request) (num_queued start : Z) (skip_tail : bool)
    : list Z :=
  let block_size := mamba_block_size in
  let retention_interval :=
    if mamba_dense_boundaries_on_contention c && (1 <? num_queued) then None
    else mamba_state_retention_interval c in
  match retention_interval with
  | None => [(start / block_size + 1) * block_size]
  | Some interval =>
      (if skip_tail then []
       else get_replay_boundaries (has_eagle_groups c) (num_tokens request) block_size) ++
      (if interval =? 0 then [] else [(start / interval + 1) * interval])
  end.

(** [min((stop for stop in stops if start < stop < end), default=end)] *)
Definition first_stop (start end_ : Z) (stops : list Z) : Z :=
  foldr Z.min end_ (filter (λ stop, start < stop < end_) stops).

(** [num_queued] is [len(self.running) + len(self.waiting)]; [partial_stops] is
    [partial_prefix_stops] of the KV cache manager, empty without a partial
    prefix cache. *)
Definition _mamba_block_aligned_split (partial_stops : Z → Z → list Z) (num_queued : Z)
    (request : Request) (num_new_tokens num_new_local_computed_tokens
    num_external_computed_tokens : Z) : Z :=
  let start := num_computed_tokens request + num_new_local_computed_tokens
               + num_external_computed_tokens in
  if prefill_end request <=? start then num_new_tokens
  else
    let block_size := mamba_block_size in
    let last_token := num_tokens request - 1 in
    let last_cache_position := last_token - last_token mod block_size in
    let last_cache_position :=
      if use_eagle c then Z.max (last_cache_position - block_size) 0 else last_cache_position in
    let end_ := start + num_new_tokens in
    let skip_tail := (prefill_end request <=? end_) && negb (mamba_tail_checkpoint c) in
    let last_cache_position := if skip_tail then 0 else last_cache_position in
    let end_ :=
      if end_ <? prefill_end request then
        let aligned_end := end_ / block_size * block_size in
        if start <? aligned_end then aligned_end else end_
      else end_ in
    let end_ := first_stop start end_
      (retained_boundaries request num_queued start skip_tail ++
       [last_cache_position; shared_prefix_boundary request / block_size * block_size] ++
       partial_stops start end_) in
    Z.max (end_ - start) 0.

(** ** Proofs *)

Lemma first_stop_spec start end_ stops :
  start < end_ →
  start < first_stop start end_ stops ≤ end_ ∧
  (first_stop start end_ stops = end_ ∨ first_stop start end_ stops ∈ stops) ∧
  ∀ x, x ∈ stops → start < x → first_stop start end_ stops ≤ x ∨ end_ ≤ x.
Proof.
  intros Hlt. unfold first_stop. induction stops as [|s stops IH].
  { simpl. split_and!; [lia|lia|by left|]. by intros x ?%elem_of_nil. }
  destruct IH as (H1 & H2 & H3). rewrite filter_cons. case_decide as Hs; cbn [foldr].
  - set (m := foldr Z.min end_ _) in *. split_and!; [lia..| |].
    + destruct (Z.min_dec s m) as [-> | ->]; [right; by constructor|].
      destruct H2; [by left|right; by constructor].
    + intros x [->|Hx]%elem_of_cons Hsx; [lia|]. destruct (H3 x Hx Hsx); lia.
  - split_and!; [lia..| |].
    + destruct H2; [by left|right; by constructor].
    + intros x [->|Hx]%elem_of_cons Hsx; [lia|]. by apply H3.
Qed.

Lemma cdiv_round a u : 0 < u → a ≤ cdiv a u * u < a + u.
Proof. intros Hu. pose proof (cdiv_spec a u Hu). lia. Qed.

End Prefill.

Lemma cdiv_pos a b : 0 < b → 0 < a → 0 < cdiv a b.
Proof. intros Hb Ha. pose proof (cdiv_spec a b Hb). nia. Qed.

Lemma balanced_bounds (c : PrefillConfig) (request : Request) (num_computed_tokens n : Z) :
  0 < cache_block_size c → (∀ b, mamba_state_block_size c = Some b → 0 < b) → 0 < n →
  0 < _balanced_prefill_chunk c request num_computed_tokens n ≤ n.
Proof.
  intros Hblock Hmamba Hnew. unfold _balanced_prefill_chunk. rewrite (proj2 (Z.leb_gt n 0)) by lia.
  destruct (balanced_prefill_chunks c); cbn [negb orb]; [|lia].
  set (rem := prefill_end request - num_computed_tokens). destruct (Z.leb_spec rem n); [lia|].
  set (u := if need_mamba_block_aligned_split c then _ else _).
  assert (Hu : 0 < u).
  { subst u. destruct (need_mamba_block_aligned_split c); [|done]. unfold py_or.
    destruct (mamba_state_block_size c) as [b|]; [|done]. specialize (Hmamba b eq_refl). by case_match. }
  pose proof (cdiv_pos rem n Hnew ltac:(lia)) as Hc. pose proof (cdiv_pos rem (cdiv rem n) Hc ltac:(lia)).
  pose proof (cdiv_round (cdiv rem (cdiv rem n)) u Hu). lia.
Qed.

Lemma first_stop_le start end_ stops : first_stop start end_ stops ≤ end_.
Proof. unfold first_stop. induction (filter _ stops); simpl; lia. Qed.

Lemma mamba_split_bounds (c : PrefillConfig) (partial_stops : Z → Z → list Z) (num_queued : Z)
    (request : Request) (new local external : Z) :
  0 < mamba_block_size c → 0 ≤ new →
  0 ≤ _mamba_block_aligned_split c partial_stops num_queued request new local external ≤ new.
Proof.
  intros Hbs Hnew. unfold _mamba_block_aligned_split.
  set (start := num_computed_tokens request + local + external).
  destruct (prefill_end request <=? start); [lia|]. set (e := if start + new <? prefill_end request then _ else _).
  assert (He : e ≤ start + new).
  { subst e. destruct (start + new <? prefill_end request); [|lia].
    destruct (Z.ltb_spec start ((start + new) / mamba_block_size c * mamba_block_size c)); [|lia].
    pose proof (Z.mul_div_le (start + new) _ Hbs). lia. }
  set (stops := retained_boundaries _ _ _ _ _ ++ _). pose proof (first_stop_le start e stops). lia.
Qed.

(** C30: Balancing never adds a step: the chunk is positive and at most what the
    step could compute, as many chunks of its size cover the rest of the prompt
    as chunks of the full size would, and it is either the full size or a whole
    number of blocks. *)
Theorem balanced_prefill_same_chunks (c : PrefillConfig) (request : Request)
    (num_computed_tokens num_new_tokens : Z)
    (Hblock : 0 < cache_block_size c)
    (Hmamba : ∀ b, mamba_state_block_size c = Some b → 0 < b)
    (Hnew : 0 < num_new_tokens) :
  let chunk := _balanced_prefill_chunk c request num_computed_tokens num_new_tokens in
  let remaining := prefill_end request - num_computed_tokens in
  0 < chunk ≤ num_new_tokens ∧
  (0 < remaining → cdiv remaining chunk = cdiv remaining num_new_tokens) ∧
  (chunk = num_new_tokens ∨ ∃ unit, (unit = cache_block_size c ∨ mamba_state_block_size c = Some unit)
                                    ∧ chunk mod unit = 0).
Proof.
  cbn zeta. unfold _balanced_prefill_chunk. rewrite (proj2 (Z.leb_gt num_new_tokens 0)) by lia.
  destruct (balanced_prefill_chunks c); cbn [negb orb]; [|by split_and!; [lia|lia| |left]].
  set (rem := prefill_end request - num_computed_tokens).
  destruct (Z.leb_spec rem num_new_tokens); [by split_and!; [lia|lia| |left]|].
  set (u := if need_mamba_block_aligned_split c then _ else _).
  assert (Hu : 0 < u ∧ (u = cache_block_size c ∨ mamba_state_block_size c = Some u)).
  { subst u. destruct (need_mamba_block_aligned_split c); [|by split; [|left]].
    unfold py_or. destruct (mamba_state_block_size c) as [b|]; [|by split; [|left]].
    specialize (Hmamba b eq_refl). rewrite (proj2 (Z.eqb_neq _ _)) by lia. by split; [|right]. }
  destruct Hu as [Hu Hunit]. set (n := cdiv rem num_new_tokens).
  pose proof (cdiv_spec rem num_new_tokens Hnew) as Hn. fold n in Hn.
  assert (Hn0 : 0 < n) by (apply cdiv_pos; lia).
  pose proof (cdiv_spec rem n Hn0) as He. pose proof (cdiv_pos rem n Hn0 ltac:(lia)) as Hpos.
  pose proof (cdiv_round (cdiv rem n) u Hu) as Hb. set (b := cdiv (cdiv rem n) u * u) in *.
  assert (Hchunk : 0 < Z.min num_new_tokens b) by lia.
  split_and!; [lia|lia| |].
  - intros _. apply Z.le_antisymm.
    + apply cdiv_le_iff; [done|]. destruct (Z.min_dec num_new_tokens b) as [-> | ->]; nia.
    + pose proof (cdiv_spec rem (Z.min num_new_tokens b) Hchunk).
      apply cdiv_le_iff; [done|]. pose proof (cdiv_nonneg rem (Z.min num_new_tokens b) Hchunk ltac:(lia)). nia.
  - destruct (Z.min_dec num_new_tokens b) as [-> | ->]; [by left|]. right. exists u.
    split; [done|]. unfold b. apply Z.mod_mul. lia.
Qed.

(** A Mamba-aligned split always makes progress and never computes more than
    asked for; unless retention is sparse, no block boundary lies strictly inside
    the chunk, so the state at every boundary it passes is the state at its end,
    and a prefill chunk that stops short of the prompt's end for a reason other
    than a partial-prefix boundary stops at a block boundary or where the step
    ran out inside its first block. *)
Theorem mamba_split_progress (c : PrefillConfig) (partial_stops : Z → Z → list Z)
    (num_queued : Z) (request : Request) (new local external : Z)
    (Hblock : 0 < mamba_block_size c)
    (Hnew : 0 < new) :
  let start := num_computed_tokens request + local + external in
  let chunk := _mamba_block_aligned_split c partial_stops num_queued request new local external in
  0 < chunk ≤ new ∧
  (start < prefill_end request → mamba_state_retention_interval c = None →
   (∀ k, start < k * mamba_block_size c → start + chunk ≤ k * mamba_block_size c) ∧
   ((start + chunk) mod mamba_block_size c = 0 ∨ chunk = new ∨
    ∃ e, start + chunk ∈ partial_stops start e)).
Proof.
  cbn zeta. unfold _mamba_block_aligned_split. set (bs := mamba_block_size c) in *.
  set (start := num_computed_tokens request + local + external).
  destruct (Z.leb_spec (prefill_end request) start) as [Hdec|Hpre]; [split; lia|].
  set (last := if _ && _ then 0 else _).
  set (skip := (prefill_end request <=? start + new) && negb (mamba_tail_checkpoint c)).
  set (e := if start + new <? prefill_end request then _ else _).
  assert (He : start < e ≤ start + new ∧ (e = start + new ∨ e mod bs = 0)).
  { subst e. destruct (Z.ltb_spec (start + new) (prefill_end request)); [|lia].
    destruct (Z.ltb_spec start ((start + new) / bs * bs)); [|lia].
    pose proof (Z.mul_div_le (start + new) bs Hblock). split; [lia|]. right. apply Z.mod_mul. lia. }
  destruct He as [He1 He2]. set (stops := retained_boundaries _ _ _ _ _ ++ _).
  destruct (first_stop_spec start e stops ltac:(lia)) as (H1 & H2 & H3).
  set (fs := first_stop start e stops) in *. clearbody fs.
  rewrite Z.max_l by lia. split; [lia|]. intros _ Hret.
  replace (start + (fs - start)) with fs by lia.
  assert (Hdense : retained_boundaries c request num_queued start skip = [(start / bs + 1) * bs]).
  { unfold retained_boundaries. cbn zeta. rewrite Hret.
    by destruct (mamba_dense_boundaries_on_contention c && (1 <? num_queued)). }
  pose proof (Z.mul_succ_div_gt start bs Hblock) as Hnext. split.
  - intros k Hk. destruct (decide (fs ≤ k * bs)); [done|].
    assert (Hk' : (start / bs + 1) * bs ≤ k * bs).
    { apply Z.mul_le_mono_nonneg_r; [lia|]. assert (start / bs < k); [|lia].
      apply Z.div_lt_upper_bound; lia. }
    destruct (H3 ((start / bs + 1) * bs)) as [Hle|Hle]; [|lia|lia|lia].
    subst stops. rewrite Hdense. by apply elem_of_app; left; apply list_elem_of_singleton.
  - destruct H2 as [->|Hin].
    { destruct He2 as [->|]; [right; left; lia|by left]. }
    subst stops. rewrite Hdense in Hin. revert Hin. rewrite !elem_of_app, !elem_of_cons, elem_of_nil.
    intros [[->|[]]|[[->|[->|[]]]|Hin]].
    + left. apply Z.mod_mul. lia.
    + left. subst last. destruct (_ && negb _); [by rewrite Z.mod_0_l by lia|].
      assert (Hm : (num_tokens request - 1 - (num_tokens request - 1) mod bs) mod bs = 0).
      { rewrite Zminus_mod_idemp_r, Z.sub_diag. apply Z.mod_0_l. lia. }
      destruct (use_eagle c); [|done].
      destruct (Z.max_dec (num_tokens request - 1 - (num_tokens request - 1) mod bs - bs) 0) as [-> | ->];
        [|by rewrite Z.mod_0_l by lia].
      rewrite <-(Z.mod_add _ 1) by lia. by replace (_ + 1 * bs) with
        (num_tokens request - 1 - (num_tokens request - 1) mod bs) by lia.
    + left. apply Z.mod_mul. lia.
    + right. right. by eexists.
Qed.

(** ** Instances *)

Definition demo_prefill : PrefillConfig :=
  mkPrefill true true (Some 16) 4 false false true None false.
Definition demo_prompt : Request :=
  mkRequest (mkArgs "p" 1 0 0 None (Some (mkPooling None)) None None None None [] 1 100 []
      true false false)
    RUNNING None [] (replicate 100 0) [] 0 0 0 0 0 [] ∅.

Lemma balanced_prefill_same_chunks_witness :
  _balanced_prefill_chunk demo_prefill demo_prompt 0 90 = 64 ∧
  0 < _balanced_prefill_chunk demo_prefill demo_prompt 0 90 ≤ 90.
Proof.
  split; [vm_compute; reflexivity|]. apply (balanced_prefill_same_chunks demo_prefill demo_prompt 0 90).
  - reflexivity.
  - intros b [= <-]. reflexivity.
  - reflexivity.
Defined.

Lemma mamba_split_progress_witness :
  _mamba_block_aligned_split demo_prefill (λ _ _, []) 1 demo_prompt 60 0 0 = 16 ∧
  0 < _mamba_block_aligned_split demo_prefill (λ _ _, []) 1 demo_prompt 60 0 0 ≤ 60.
Proof.
  split; [vm_compute; reflexivity|].
  apply (mamba_split_progress demo_prefill (λ _ _, []) 1 demo_prompt 60 0 0); reflexivity.
Defined.
