(* ===== verification/EncoderCache.v ===== *)
(** * The encoder cache managers

    [vllm/v1/core/encoder_cache_manager.py]: the bookkeeping of the slots the
    encoder outputs of multi-modal inputs take.  [EncoderCache] is the interface
    the scheduler uses, [EncoderCacheManager] the shared, reference-counted cache
    with lazy eviction and [EncoderDecoderCacheManager] the variant for
    encoder-decoder models.  Python iterates a set of input ids in an order it
    does not specify; the order is the argument [set_order]. *)

From S2P Require Import Prelude.
From S2P Require Import OrderedDict.
From S2P Require Import Request.
Local Open Scope Z_scope.

Class EncoderCache (E : Type) : Type := {
  check_and_update_cache : Request → Z → M E bool;
  can_allocate : Request → Z → Z → Z → M E bool;
  allocate : Request → Z → M E unit;
  get_cached_input_ids : Request → M E (list Z);
  free_encoder_input : Request → Z → M E unit;
  free_inputs : (list Z → list Z) → Request → M E unit;
  get_freed_mm_hashes : M E (list string);
  reset_encoder_cache : M E unit;
}.

(** [request.mm_features[input_id].identifier] *)
Definition feature_hash {S} (request : Request) (input_id : Z) : M S string :=
  f ← of_option IndexError (py_get (mm_features request) input_id);
  mret (identifier f).

(** [range(n)] *)
Definition py_range (n : Z) : list Z := Z.of_nat <$> seq 0 (Z.to_nat n).

(** ** The shared cache *)

Record EncoderCacheManager : Type := mkEncoderCache {
  cache_size : Z;
  num_free_slots : Z;
  num_freeable_slots : Z;
  cached : gmap string (gset string);
  freeable : odict string Z;
  freed : list string;
}.

Definition EncoderCacheManager_init (cache_size : Z) : EncoderCacheManager :=
  mkEncoderCache cache_size cache_size cache_size ∅ [] [].

Module Shared.

Definition set_cached (c : gmap string (gset string)) (s : EncoderCacheManager) :=
  mkEncoderCache (cache_size s) (num_free_slots s) (num_freeable_slots s) c (freeable s) (freed s).
Definition set_slots (free freeable_ : Z) (s : EncoderCacheManager) :=
  mkEncoderCache (cache_size s) free freeable_ (cached s) (freeable s) (freed s).
Definition set_freeable (d : odict string Z) (s : EncoderCacheManager) :=
  mkEncoderCache (cache_size s) (num_free_slots s) (num_freeable_slots s) (cached s) d (freed s).
Definition set_freed (l : list string) (s : EncoderCacheManager) :=
  mkEncoderCache (cache_size s) (num_free_slots s) (num_freeable_slots s) (cached s) (freeable s) l.

Definition reset : M EncoderCacheManager unit :=
  modify (λ s, EncoderCacheManager_init (cache_size s)).

Definition check_and_update_cache (request : Request) (input_id : Z) : M EncoderCacheManager bool :=
  mm_hash ← feature_hash request input_id;
  s ← get;
  match cached s !! mm_hash with
  | None => mret false
  | Some refs =>
      when (bool_decide (refs = ∅))
        (num_encoder_embeds ← of_option KeyError (od_get mm_hash (freeable s));
         modify (λ s, set_slots (num_free_slots s) (num_freeable_slots s - num_encoder_embeds)
                        (set_freeable (od_del mm_hash (freeable s)) s))) ;;
      modify (λ s, set_cached (<[mm_hash := {[request_id request]} ∪ refs]> (cached s)) s) ;;
      mret true
  end.

(** [while num_embeds > self.num_free_slots]: each turn pops the oldest
    freeable entry, so one more turn than there are entries is enough fuel. *)
Fixpoint evict_loop (fuel : nat) (num_embeds : Z) : M EncoderCacheManager unit :=
  s ← get;
  if num_free_slots s <? num_embeds then
    match fuel with
    | O => raise OutOfFuel
    | S fuel =>
        '((mm_hash, num_free_embeds), rest) ←
          of_option KeyError (match freeable s with [] => None | e :: d => Some (e, d) end);
        put (set_freeable rest s) ;;
        of_option KeyError (cached s !! mm_hash) ;;
        modify (λ s, set_slots (num_free_slots s + num_free_embeds) (num_freeable_slots s)
                       (set_freed (freed s ++ [mm_hash])
                          (set_cached (delete mm_hash (cached s)) s))) ;;
        evict_loop fuel num_embeds
    end
  else mret tt.

Definition can_allocate (request : Request) (input_id : Z) (encoder_compute_budget : Z)
    (num_embeds_to_schedule : Z) : M EncoderCacheManager bool :=
  num_embeds ← get_num_encoder_embeds request input_id;
  if encoder_compute_budget <? num_embeds then mret false
  else
    let num_embeds := num_embeds + num_embeds_to_schedule in
    s ← get;
    if num_embeds <=? num_free_slots s then mret true
    else if num_freeable_slots s <? num_embeds then mret false
    else evict_loop (S (length (freeable s))) num_embeds ;; mret true.

Definition allocate (request : Request) (input_id : Z) : M EncoderCacheManager unit :=
  mm_hash ← feature_hash request input_id;
  s ← get;
  when (bool_decide (cached s !! mm_hash = None))
    (modify (λ s, set_cached (<[mm_hash := ∅]> (cached s)) s)) ;;
  num_encoder_embeds ← get_num_encoder_embeds request input_id;
  s ← get;
  py_assert (num_encoder_embeds <=? num_free_slots s) ;;
  py_assert (num_encoder_embeds <=? num_freeable_slots s) ;;
  modify (λ s,
    set_slots (num_free_slots s - num_encoder_embeds) (num_freeable_slots s - num_encoder_embeds)
      (set_cached (<[mm_hash := {[request_id request]} ∪ default ∅ (cached s !! mm_hash)]>
         (cached s)) s)).

Definition input_cached (request : Request) (s : EncoderCacheManager) (input_id : Z) : bool :=
  match py_get (mm_features request) input_id with
  | Some f => bool_decide (is_Some (cached s !! identifier f))
  | None => false
  end.

Definition get_cached_input_ids (request : Request) : M EncoderCacheManager (list Z) :=
  s ← get;
  mret (filter (λ input_id, input_cached request s input_id = true)
          (py_range (zlen (mm_features request)))).

(** [if not self.cached.get(mm_hash, None)]: absent or an empty set. *)
Definition free_encoder_input (request : Request) (input_id : Z) : M EncoderCacheManager unit :=
  mm_hash ← feature_hash request input_id;
  s ← get;
  let refs := default ∅ (cached s !! mm_hash) in
  if bool_decide (refs = ∅) then mret tt
  else
    let refs' := refs ∖ {[request_id request]} in
    put (set_cached (<[mm_hash := refs']> (cached s)) s) ;;
    when (bool_decide (refs' = ∅))
      (num_encoder_embeds ← get_num_encoder_embeds request input_id;
       modify (λ s,
         set_slots (num_free_slots s) (num_freeable_slots s + num_encoder_embeds)
           (set_freeable (od_set mm_hash num_encoder_embeds (freeable s)) s))).

Definition free (set_order : list Z → list Z) (request : Request) : M EncoderCacheManager unit :=
  input_ids ← get_cached_input_ids request;
  foreach (set_order input_ids) (free_encoder_input request).

Definition get_freed_mm_hashes : M EncoderCacheManager (list string) :=
  s ← get;
  put (set_freed [] s) ;;
  mret (freed s).

End Shared.

#[export] Instance shared_cache : EncoderCache EncoderCacheManager := {|
  check_and_update_cache := Shared.check_and_update_cache;
  can_allocate := Shared.can_allocate;
  allocate := Shared.allocate;
  get_cached_input_ids := Shared.get_cached_input_ids;
  free_encoder_input := Shared.free_encoder_input;
  free_inputs := Shared.free;
  get_freed_mm_hashes := Shared.get_freed_mm_hashes;
  reset_encoder_cache := Shared.reset;
|}.

(** ** Encoder-decoder models *)

Record EncoderDecoderCacheManager : Type := mkEncDec {
  ed_cache_size : Z;
  ed_num_free_slots : Z;
  allocated : list string;
  to_free : list string;
}.

Definition EncoderDecoderCacheManager_init (cache_size : Z) : EncoderDecoderCacheManager :=
  mkEncDec cache_size cache_size [] [].

Module EncDec.

Definition reset : M EncoderDecoderCacheManager unit :=
  modify (λ s, mkEncDec (ed_cache_size s) (ed_cache_size s) [] []).

Definition check_and_update_cache (request : Request) (input_id : Z)
    : M EncoderDecoderCacheManager bool := mret false.

Definition can_allocate (request : Request) (input_id : Z) (encoder_compute_budget : Z)
    (num_embeds_to_schedule : Z) : M EncoderDecoderCacheManager bool :=
  num_encoder_embeds ← get_num_encoder_embeds request input_id;
  if encoder_compute_budget <? num_encoder_embeds then mret false
  else
    s ← get;
    mret (num_encoder_embeds + num_embeds_to_schedule <=? ed_num_free_slots s).

Definition allocate (request : Request) (input_id : Z) : M EncoderDecoderCacheManager unit :=
  num_encoder_embeds ← get_num_encoder_embeds request input_id;
  modify (λ s, mkEncDec (ed_cache_size s) (ed_num_free_slots s - num_encoder_embeds)
                 (allocated s) (to_free s)) ;;
  mm_hash ← feature_hash request input_id;
  modify (λ s, mkEncDec (ed_cache_size s) (ed_num_free_slots s)
                 (allocated s ++ [mm_hash]) (to_free s)).

Definition free_encoder_input (request : Request) (input_id : Z)
    : M EncoderDecoderCacheManager unit :=
  num_encoder_embeds ← get_num_encoder_embeds request input_id;
  modify (λ s, mkEncDec (ed_cache_size s) (ed_num_free_slots s + num_encoder_embeds)
                 (allocated s) (to_free s)).

Definition free (request : Request) : M EncoderDecoderCacheManager unit :=
  foreach (py_range (zlen (mm_features request))) (free_encoder_input request).

Definition get_cached_input_ids (request : Request) : M EncoderDecoderCacheManager (list Z) :=
  mret (py_range (zlen (mm_features request))).

Definition get_freed_mm_hashes : M EncoderDecoderCacheManager (list string) :=
  s ← get;
  put (mkEncDec (ed_cache_size s) (ed_num_free_slots s) [] (allocated s)) ;;
  mret (to_free s).

End EncDec.

#[export] Instance encoder_decoder_cache : EncoderCache EncoderDecoderCacheManager := {|
  check_and_update_cache := EncDec.check_and_update_cache;
  can_allocate := EncDec.can_allocate;
  allocate := EncDec.allocate;
  get_cached_input_ids := EncDec.get_cached_input_ids;
  free_encoder_input := EncDec.free_encoder_input;
  free_inputs := λ _, EncDec.free;
  get_freed_mm_hashes := EncDec.get_freed_mm_hashes;
  reset_encoder_cache := EncDec.reset;
|}.

(** ** The budgets *)

(** [compute_mm_encoder_budget]: the scheduler's settings and the maximal number
    of tokens per item of each modality. *)
Record EncoderBudgetConfig : Type := mkBudget {
  disable_chunked_mm_input : bool;
  max_num_batched_tokens : Z;
  max_num_encoder_input_tokens : Z;
  encoder_cache_size : Z;
}.

Definition compute_mm_encoder_budget (c : EncoderBudgetConfig) (mm_max_toks_per_item : list Z)
    : outcome (Z * Z) :=
  match mm_max_toks_per_item with
  | [] => Ret (0, 0)
  | t :: ts =>
      let max_tokens_per_mm_item := foldl Z.max t ts in
      if disable_chunked_mm_input c && (max_num_batched_tokens c <? max_tokens_per_mm_item)
      then Raise ValueError
      else Ret (Z.max (max_num_encoder_input_tokens c) max_tokens_per_mm_item,
                Z.max (encoder_cache_size c) max_tokens_per_mm_item)
  end.
