(* ===== verification/EncoderCacheSpec.v ===== *)
(** * Slot accounting of the encoder cache

    The invariant of [EncoderCacheManager]: the free slots are the capacity
    minus the slots of the cached items, the freeable slots add those of the
    unreferenced items, and the eviction list holds exactly the unreferenced
    items with their sizes.  The size of an item is a function of its hash,
    [embeds]; a request is well formed when its inputs have these sizes. *)

From S2P Require Import Prelude.
From S2P Require Import OrderedDict.
From S2P Require Import Request.
From S2P Require Import EncoderCache.
Local Open Scope Z_scope.

Section Accounting.
Context (embeds : string → Z) (embeds_nonneg : ∀ h, 0 ≤ embeds h).

(** The slots of the items of a map. *)
Definition slots_used {A} (m : gmap string A) : Z := map_fold (λ h _ n, embeds h + n) 0 m.

Lemma slots_used_insert {A} (m : gmap string A) h x :
  m !! h = None → slots_used (<[h := x]> m) = embeds h + slots_used m.
Proof.
  intros Hh. unfold slots_used. rewrite (map_fold_insert_L _ _ _ _ _); [done| |done].
  intros. lia.
Qed.

Lemma slots_used_delete {A} (m : gmap string A) h :
  is_Some (m !! h) → slots_used (delete h m) = slots_used m - embeds h.
Proof.
  intros [x Hx]. rewrite <-(insert_delete_id m h x) at 2 by done.
  rewrite slots_used_insert by apply lookup_delete_eq. lia.
Qed.

Lemma slots_used_update {A} (m : gmap string A) h x :
  is_Some (m !! h) → slots_used (<[h := x]> m) = slots_used m.
Proof.
  intros Hh. rewrite <-insert_delete_eq, slots_used_insert by apply lookup_delete_eq.
  rewrite slots_used_delete by done. lia.
Qed.

Lemma slots_used_nonneg {A} (m : gmap string A) : 0 ≤ slots_used m.
Proof.
  induction m as [|h x m Hh IH] using map_ind; [done|].
  rewrite slots_used_insert by done. pose proof (embeds_nonneg h). lia.
Qed.

(** ** The invariant *)

Record cache_inv (s : EncoderCacheManager) : Prop := {
  inv_free : num_free_slots s = cache_size s - slots_used (cached s);
  inv_free_nonneg : 0 ≤ num_free_slots s;
  inv_freeable : num_freeable_slots s = num_free_slots s + zsum (freeable s).*2;
  inv_keys : od_ok (freeable s);
  inv_unreferenced : ∀ h n, (h, n) ∈ freeable s ↔ cached s !! h = Some ∅ ∧ n = embeds h;
}.

(** Input [i] of request [r] is the item [h]. *)
Definition input (r : Request) (i : Z) (h : string) : Prop :=
  0 ≤ i < zlen (mm_features r) ∧
  ∃ f, py_get (mm_features r) i = Some f ∧ identifier f = h ∧
       get_num_embeds (mm_position f) = embeds h.

Definition request_ok (r : Request) : Prop :=
  Forall (λ f, get_num_embeds (mm_position f) = embeds (identifier f)) (mm_features r).

Lemma request_input r i :
  request_ok r → 0 ≤ i < zlen (mm_features r) → ∃ h, input r i h.
Proof.
  intros Hr Hi. destruct (lookup_lt_is_Some_2 (mm_features r) (Z.to_nat i)) as [f Hf].
  { unfold zlen in Hi. lia. }
  exists (identifier f). split; [done|]. exists f. rewrite py_get_nonneg by lia.
  split_and!; [done..|]. unfold request_ok in Hr. rewrite Forall_forall in Hr.
  apply Hr. by eapply list_elem_of_lookup_2.
Qed.

Lemma init_inv n : 0 ≤ n → cache_inv (EncoderCacheManager_init n).
Proof.
  intros Hn. split; simpl; [unfold slots_used; rewrite map_fold_empty; lia|done|lia| |].
  - apply od_ok_nil.
  - intros h m. rewrite lookup_empty. split; [by intros ?%elem_of_nil|naive_solver].
Qed.

Lemma inv_freeable_nonneg s : cache_inv s → Forall (λ n, 0 ≤ n) (freeable s).*2.
Proof.
  intros Hs. apply Forall_forall. intros n ([h n'] & -> & Hin)%list_elem_of_fmap.
  apply (inv_unreferenced s Hs) in Hin as [_ ->]. apply embeds_nonneg.
Qed.

(** What the documentation of the class promises of the two counters. *)
Lemma inv_bounds s : cache_inv s → 0 ≤ num_free_slots s ≤ num_freeable_slots s ∧
  num_freeable_slots s ≤ cache_size s.
Proof.
  intros Hs. pose proof (inv_free_nonneg s Hs). pose proof (inv_freeable s Hs).
  pose proof (zsum_nonneg _ (inv_freeable_nonneg s Hs)). pose proof (inv_free s Hs).
  assert (zsum (freeable s).*2 ≤ slots_used (cached s)); [|lia].
  clear -Hs embeds_nonneg. pose proof (inv_keys s Hs) as Hk.
  assert (Hin : ∀ h n, (h, n) ∈ freeable s → is_Some (cached s !! h) ∧ n = embeds h).
  { intros h n Hin. apply (inv_unreferenced s Hs) in Hin as [-> ->]. by eauto. }
  revert Hk Hin. generalize (cached s). induction (freeable s) as [|[h n] d IH]; intros c Hk Hin.
  { apply slots_used_nonneg. }
  apply od_ok_cons in Hk as [Hh Hk]. destruct (Hin h n) as [Hc ->]; [constructor|]. csimpl.
  cut (zsum d.*2 ≤ slots_used (delete h c)).
  { rewrite slots_used_delete by done. unfold zsum. simpl. lia. }
  apply IH; [done|]. intros h' n' Hin'. destruct (Hin h' n'); [by constructor|].
  rewrite lookup_delete_ne; [done|]. intros ->. apply Hh, elem_of_keys. by eauto.
Qed.

(** ** Accessors *)

Lemma wp_feature_hash r i h s (Q : string → EncoderCacheManager → Prop) :
  input r i h → Q h s → wp (feature_hash r i) s Q.
Proof.
  intros (_ & f & Hf & <- & _) HQ. unfold feature_hash. wp_step.
  eapply wp_of_option; [done|]. by wp_steps.
Qed.

Lemma wp_num_embeds r i h s (Q : Z → EncoderCacheManager → Prop) :
  input r i h → Q (embeds h) s → wp (get_num_encoder_embeds r i) s Q.
Proof.
  intros (Hi & f & Hf & <- & Hn) HQ. unfold get_num_encoder_embeds. wp_step.
  apply wp_assert; [apply Z.ltb_lt; lia|]. wp_step. eapply wp_of_option; [done|]. wp_steps.
  by rewrite Hn.
Qed.

Lemma add_ref_nonempty (x : string) (X : gset string) : {[x]} ∪ X ≠ ∅.
Proof. set_solver. Qed.

Lemma add_ref_in (x : string) (X : gset string) : x ∈ {[x]} ∪ X.
Proof. set_solver. Qed.

(** ** Each method keeps the invariant *)

Lemma check_wp r i h s :
  cache_inv s → input r i h →
  wp (Shared.check_and_update_cache r i) s (λ b s',
    cache_inv s' ∧ cache_size s' = cache_size s ∧ num_free_slots s' = num_free_slots s ∧
    dom (cached s') = dom (cached s) ∧ freed s' = freed s ∧
    b = bool_decide (is_Some (cached s !! h)) ∧
    (b = true → ∃ refs, cached s' !! h = Some refs ∧ request_id r ∈ refs) ∧
    (∀ h', h' ≠ h → cached s' !! h' = cached s !! h') ∧
    (b = false → s' = s)).
Proof.
  intros Hs Hi. unfold Shared.check_and_update_cache. wp_step. eapply wp_feature_hash; [done|].
  wp_steps. destruct (cached s !! h) as [refs|] eqn:Hh; cycle 1.
  { wp_steps. by split_and!. }
  pose proof Hs as [H1 H2 H3 H4 H5]. assert (His : is_Some (cached s !! h)) by eauto.
  assert (Hdom : dom (<[h := {[request_id r]} ∪ refs]> (cached s)) = dom (cached s)).
  { rewrite dom_insert_L. apply elem_of_dom in His. clear -His. set_solver. }
  wp_step. apply wp_when.
  - intros ->%bool_decide_eq_true. assert (Hin : (h, embeds h) ∈ freeable s) by by apply H5.
    apply (od_get_elem _ _ _ H4) in Hin as Hget. wp_step. eapply wp_of_option; [done|].
    wp_steps. split_and!; simpl; try done.
    + rewrite (od_del_perm h (embeds h)) in H3 by done. csimpl in H3.
      split; simpl; [by rewrite slots_used_update|done| |by apply od_del_ok|].
      * unfold zsum in *. simpl in H3. lia.
      * intros h' n. rewrite od_del_elem, H5. destruct (decide (h' = h)) as [->|Hne].
        -- rewrite lookup_insert_eq. pose proof (add_ref_nonempty (request_id r) ∅). naive_solver.
        -- rewrite lookup_insert_ne by done. naive_solver.
    + intros _. eexists. rewrite lookup_insert_eq. split; [done|]. apply add_ref_in.
    + intros h' Hne'. by rewrite lookup_insert_ne.
  - intros Hne%bool_decide_eq_false. wp_steps.
    split_and!; simpl; try done.
    + split; simpl; [by rewrite slots_used_update|done..|].
      intros h' n. rewrite H5. destruct (decide (h' = h)) as [->|].
      * rewrite lookup_insert_eq, Hh. pose proof (add_ref_nonempty (request_id r) refs).
        naive_solver.
      * by rewrite lookup_insert_ne.
    + intros _. eexists. rewrite lookup_insert_eq. split; [done|]. apply add_ref_in.
    + intros h' Hne'. by rewrite lookup_insert_ne.
Qed.

(** ** Eviction *)

(** The state after the [k] oldest freeable items are evicted. *)
Definition evict_oldest (k : nat) (s : EncoderCacheManager) : EncoderCacheManager :=
  let out := take k (freeable s) in
  mkEncoderCache (cache_size s) (num_free_slots s + zsum out.*2) (num_freeable_slots s)
    (foldl (λ c h, delete h c) (cached s) out.*1) (drop k (freeable s)) (freed s ++ out.*1).

Lemma evict_oldest_0 s : evict_oldest 0 s = s.
Proof. destruct s. unfold evict_oldest. simpl. by rewrite app_nil_r, Z.add_0_r. Qed.

Lemma evict_oldest_1 s h n d : freeable s = (h, n) :: d →
  evict_oldest 1 s = mkEncoderCache (cache_size s) (num_free_slots s + n) (num_freeable_slots s)
    (delete h (cached s)) d (freed s ++ [h]).
Proof. intros E. unfold evict_oldest. rewrite E. simpl. by rewrite Z.add_0_r. Qed.

Lemma evict_oldest_S k s : evict_oldest (S k) s = evict_oldest k (evict_oldest 1 s).
Proof.
  destruct (freeable s) as [|[h n] d] eqn:E.
  - unfold evict_oldest. rewrite E. simpl. by rewrite !take_nil, !drop_nil, !app_nil_r, !Z.add_0_r.
  - rewrite (evict_oldest_1 s h n d E). unfold evict_oldest. rewrite E. csimpl.
    rewrite <-(assoc_L (++)). f_equal. unfold zsum. simpl. lia.
Qed.

Lemma evict_one_inv s h n d :
  freeable s = (h, n) :: d → cache_inv s → cache_inv (evict_oldest 1 s) ∧
  is_Some (cached s !! h) ∧ 0 ≤ n.
Proof.
  intros E Hs. rewrite (evict_oldest_1 s h n d E). destruct Hs as [H1 H2 H3 H4 H5].
  rewrite E in *. assert ((h, n) ∈ (h, n) :: d) as [Hc ->]%H5 by constructor.
  apply od_ok_cons in H4 as [Hh H4]. csimpl in H3. pose proof (embeds_nonneg h).
  split; [|by eauto]. split; simpl; [|lia|unfold zsum in *; simpl in *; lia|done|].
  - rewrite slots_used_delete by eauto. lia.
  - intros h' n'. destruct (decide (h' = h)) as [->|Hne].
    + rewrite lookup_delete_eq. split; [|naive_solver]. intros Hin. destruct Hh.
      apply elem_of_keys. by eauto.
    + rewrite lookup_delete_ne, <-H5 by done. rewrite elem_of_cons. naive_solver.
Qed.

(** The loop evicts the fewest oldest items that make room. *)
Lemma evict_loop_wp n : ∀ fuel s,
  (length (freeable s) < fuel)%nat → cache_inv s → n ≤ num_freeable_slots s →
  wp (Shared.evict_loop fuel n) s (λ _ s', cache_inv s' ∧ ∃ k, s' = evict_oldest k s ∧
    n ≤ num_free_slots s' ∧ ∀ j, (j < k)%nat → num_free_slots (evict_oldest j s) < n).
Proof.
  induction fuel as [|fuel IH]; intros s Hf Hs Hn; [lia|]. cbn [Shared.evict_loop]. wp_steps.
  destruct (Z.ltb_spec (num_free_slots s) n) as [Hlt|Hge]; cycle 1.
  { wp_steps. split; [done|]. exists 0%nat. rewrite evict_oldest_0.
    split_and!; [done|lia|]. intros j Hj. lia. }
  destruct (freeable s) as [|[h m] d] eqn:E.
  { pose proof (inv_freeable s Hs) as H3. rewrite E in H3. simpl in H3. lia. }
  destruct (evict_one_inv s h m d E Hs) as (Hs' & Hc & Hm).
  destruct Hc as [refs Hc].
  wp_step. eapply wp_of_option; [done|]. cbn beta iota. wp_steps.
  eapply wp_of_option; [done|]. wp_steps.
  match goal with |- wp _ ?st _ => replace st with (evict_oldest 1 s) end;
    [|by rewrite (evict_oldest_1 s h m d E); destruct s].
  eapply wp_mono.
  - apply (IH (evict_oldest 1 s)); [|done|].
    + unfold evict_oldest. rewrite E. simpl in Hf |- *. rewrite drop_0. lia.
    + by rewrite (evict_oldest_1 s h m d E).
  - intros _ s' [Hinv (k & -> & Hroom & Hmin)]. split; [done|]. exists (S k).
    rewrite (evict_oldest_S k s). split_and!; [done..|]. intros j Hj. destruct j as [|j].
    + by rewrite evict_oldest_0.
    + rewrite (evict_oldest_S j s). apply Hmin. lia.
Qed.

Lemma can_allocate_wp r i h budget pending s :
  cache_inv s → input r i h →
  wp (Shared.can_allocate r i budget pending) s (λ b s',
    cache_inv s' ∧
    b = (embeds h <=? budget) && (embeds h + pending <=? num_freeable_slots s) ∧
    if b then ∃ k, s' = evict_oldest k s ∧ embeds h + pending ≤ num_free_slots s' ∧
                   ∀ j, (j < k)%nat → num_free_slots (evict_oldest j s) < embeds h + pending
    else s' = s).
Proof.
  intros Hs Hi. unfold Shared.can_allocate. wp_step. eapply wp_num_embeds; [done|].
  pose proof (inv_bounds s Hs).
  destruct (Z.ltb_spec budget (embeds h)).
  { wp_steps. by rewrite (proj2 (Z.leb_gt _ _)) by lia. }
  rewrite (proj2 (Z.leb_le (embeds h) budget)) by lia. cbn zeta. wp_steps.
  destruct (Z.leb_spec (embeds h + pending) (num_free_slots s)).
  { wp_steps. rewrite (proj2 (Z.leb_le _ _)) by lia. split_and!; [done..|].
    exists 0%nat. rewrite evict_oldest_0. split_and!; [done..|lia]. }
  destruct (Z.ltb_spec (num_freeable_slots s) (embeds h + pending)).
  { wp_steps. by rewrite (proj2 (Z.leb_gt _ _)) by lia. }
  rewrite (proj2 (Z.leb_le _ _)) by lia. wp_step. eapply wp_mono.
  { apply evict_loop_wp; [lia|done|lia]. }
  intros _ s' [Hinv Hk]. by wp_steps.
Qed.

Lemma evict_oldest_cached k s h :
  cached s !! h = None → cached (evict_oldest k s) !! h = None.
Proof.
  intros Hh. simpl. generalize (take k (freeable s)).*1. intros l. revert Hh.
  generalize (cached s). induction l as [|h' l IH]; intros c Hh; simpl; [done|].
  apply IH. destruct (decide (h' = h)) as [->|].
  - apply lookup_delete_eq.
  - by rewrite lookup_delete_ne.
Qed.

Lemma allocate_wp r i h s :
  cache_inv s → input r i h → cached s !! h = None → embeds h ≤ num_free_slots s →
  wp (Shared.allocate r i) s (λ _ s',
    cache_inv s' ∧ num_free_slots s' = num_free_slots s - embeds h ∧
    cached s' = <[h := {[request_id r]}]> (cached s) ∧ freed s' = freed s).
Proof.
  intros Hs Hi Hh Hroom. pose proof (inv_bounds s Hs) as Hb. unfold Shared.allocate.
  wp_step. eapply wp_feature_hash; [done|]. wp_steps.
  apply wp_when; [intros _|by rewrite bool_decide_true].
  wp_steps. eapply wp_num_embeds; [done|]. wp_steps. simpl.
  apply wp_assert; [by apply Z.leb_le|]. wp_steps.
  apply wp_assert; [apply Z.leb_le; lia|]. wp_steps. simpl.
  rewrite lookup_insert_eq, insert_insert_eq. simpl. rewrite union_empty_r_L.
  destruct Hs as [H1 H2 H3 H4 H5]. split_and!; [|done..].
  split; simpl; [rewrite slots_used_insert by done; lia|lia|lia|done|].
  intros h' n. rewrite H5. destruct (decide (h' = h)) as [->|Hne].
  - rewrite lookup_insert_eq, Hh. pose proof (add_ref_nonempty (request_id r) ∅) as Hne.
    rewrite union_empty_r_L in Hne. naive_solver.
  - by rewrite lookup_insert_ne.
Qed.

Lemma free_input_wp r i h s :
  cache_inv s → input r i h →
  wp (Shared.free_encoder_input r i) s (λ _ s',
    cache_inv s' ∧ num_free_slots s' = num_free_slots s ∧ dom (cached s') = dom (cached s) ∧
    cache_size s' = cache_size s ∧ freed s' = freed s ∧
    ∀ refs, cached s' !! h = Some refs → request_id r ∉ refs).
Proof.
  intros Hs Hi. pose proof Hs as [H1 H2 H3 H4 H5].
  unfold Shared.free_encoder_input. wp_step. eapply wp_feature_hash; [done|]. wp_steps.
  case_bool_decide as Hempty.
  { wp_steps. split_and!; [done..|]. intros refs Hrefs. rewrite Hrefs in Hempty. simpl in Hempty.
    subst. apply not_elem_of_empty. }
  destruct (cached s !! h) as [refs|] eqn:Hh; [|done]. simpl in *.
  assert (His : is_Some (cached s !! h)) by eauto.
  set (refs' := refs ∖ {[request_id r]}).
  assert (Hdom : dom (<[h := refs']> (cached s)) = dom (cached s)).
  { rewrite dom_insert_L. apply elem_of_dom in His. clear -His. set_solver. }
  assert (Hout : ∀ R, <[h := refs']> (cached s) !! h = Some R → request_id r ∉ R).
  { intros R. rewrite lookup_insert_eq. intros [= <-]. clear. subst refs'. set_solver. }
  wp_steps. apply wp_when.
  - intros He%bool_decide_eq_true. wp_step. eapply wp_num_embeds; [done|]. wp_steps.
    assert (Hk : h ∉ (freeable s).*1).
    { rewrite elem_of_keys. intros [n Hn]. apply H5 in Hn as [Hn _]. congruence. }
    split_and!; simpl; try done. split; simpl; [by rewrite slots_used_update|done| |by apply od_set_ok|].
    + rewrite od_set_absent by done. rewrite fmap_app, zsum_app. simpl. lia.
    + intros h' n. rewrite od_set_absent, elem_of_app, list_elem_of_singleton by done.
      rewrite H5. destruct (decide (h' = h)) as [->|Hne].
      * rewrite lookup_insert_eq, He, Hh. naive_solver.
      * rewrite lookup_insert_ne by done. naive_solver.
  - intros He%bool_decide_eq_false. split_and!; simpl; try done.
    split; simpl; [by rewrite slots_used_update|done..|].
    intros h' n. rewrite H5. destruct (decide (h' = h)) as [->|Hne].
    + rewrite lookup_insert_eq, Hh. naive_solver.
    + by rewrite lookup_insert_ne.
Qed.

Lemma py_range_elem i n : i ∈ py_range n ↔ 0 ≤ i < n.
Proof.
  unfold py_range. rewrite list_elem_of_fmap. setoid_rewrite elem_of_seq. split.
  - intros (j & -> & Hj). lia.
  - intros Hi. exists (Z.to_nat i). lia.
Qed.

Lemma free_wp set_order r s :
  (∀ l, set_order l ≡ₚ l) → cache_inv s → request_ok r →
  wp (Shared.free set_order r) s (λ _ s',
    cache_inv s' ∧ num_free_slots s' = num_free_slots s ∧ dom (cached s') = dom (cached s) ∧
    cache_size s' = cache_size s ∧ freed s' = freed s).
Proof.
  intros Hord Hs Hr. unfold Shared.free, Shared.get_cached_input_ids. wp_steps.
  eapply wp_mono.
  - apply (wp_foreach (λ _ s', cache_inv s' ∧ num_free_slots s' = num_free_slots s ∧
      dom (cached s') = dom (cached s) ∧ cache_size s' = cache_size s ∧ freed s' = freed s)).
    { done. }
    intros pre i post s' Hl (Hinv & Hf & Hd & Hc & Hfr).
    assert (Hi : i ∈ set_order (filter (λ j, Shared.input_cached r s j = true)
                     (py_range (zlen (mm_features r))))).
    { rewrite Hl. apply elem_of_app. right. by constructor. }
    rewrite Hord, list_elem_of_filter, py_range_elem in Hi. destruct Hi as [_ Hi].
    destruct (request_input r i Hr Hi) as [h Hih]. eapply wp_mono; [by apply (free_input_wp r i h)|].
    simpl. intros _ s'' (? & ? & ? & ? & ? & _). split_and!; [done|congruence..].
  - simpl. intros _ s' H. apply H.
Qed.

Lemma reset_wp s : cache_inv s → wp Shared.reset s (λ _ s', s' = EncoderCacheManager_init (cache_size s) ∧ cache_inv s').
Proof.
  intros Hs. unfold Shared.reset. wp_steps. split; [done|]. apply init_inv.
  pose proof (inv_bounds s Hs). lia.
Qed.

Lemma get_freed_wp s : cache_inv s → wp Shared.get_freed_mm_hashes s (λ l s',
  l = freed s ∧ freed s' = [] ∧ cache_inv s').
Proof.
  intros Hs. unfold Shared.get_freed_mm_hashes. wp_steps. split_and!; [done..|].
  by destruct Hs as [H1 H2 H3 H4 H5].
Qed.
End Accounting.
