(* ===== verification/SchedEncoder.v ===== *)
(** * Scheduling encoder inputs

    [Scheduler._try_schedule_encoder_inputs] of
    [vllm/v1/core/sched/scheduler.py]: which encoder inputs of a request run in a
    step and how far the step may go, against the interface [EncoderCache]; and
    the allocations [schedule] makes for the chosen inputs.  The encoder
    connector is a plugin: [has_cache_item] is its answer, [None] when there is
    no connector. *)

From S2P Require Import Prelude.
From S2P Require Import Request.
From S2P Require Import EncoderCache.
Local Open Scope Z_scope.

Section SchedEncoder.
Context {E : Type} `{!EncoderCache E}.
Context (is_encoder_decoder disable_chunked_mm_input : bool).
Context (has_cache_item : option (string → bool)).

(** The accumulators of the loop over the inputs. *)
Record encoder_plan : Type := mkPlan {
  encoder_inputs_to_schedule : list Z;
  plan_num_new_tokens : Z;
  plan_budget : Z;
  external_load_encoder_input : list Z;
  mm_hashes_to_schedule : gset string;
  num_embeds_to_schedule : Z;
}.

Definition set_num_new_tokens (n : Z) (p : encoder_plan) : encoder_plan :=
  mkPlan (encoder_inputs_to_schedule p) n (plan_budget p)
    (external_load_encoder_input p) (mm_hashes_to_schedule p) (num_embeds_to_schedule p).

(** The two ways an input is chosen: loaded by the connector or computed. *)
Definition plan_external (i : Z) (f : MultiModalFeatureSpec) (p : encoder_plan) : encoder_plan :=
  mkPlan (encoder_inputs_to_schedule p) (plan_num_new_tokens p) (plan_budget p)
    (external_load_encoder_input p ++ [i]) ({[identifier f]} ∪ mm_hashes_to_schedule p)
    (num_embeds_to_schedule p + get_num_embeds (mm_position f)).
Definition plan_compute (i : Z) (f : MultiModalFeatureSpec) (p : encoder_plan) : encoder_plan :=
  let num_encoder_embeds := get_num_embeds (mm_position f) in
  mkPlan (encoder_inputs_to_schedule p ++ [i]) (plan_num_new_tokens p)
    (plan_budget p - num_encoder_embeds)
    (external_load_encoder_input p) ({[identifier f]} ∪ mm_hashes_to_schedule p)
    (num_embeds_to_schedule p + num_encoder_embeds).

(** One turn of the loop: [inl] continues, [inr] leaves it. *)
Definition encoder_turn (request : Request) (num_computed_tokens shift_computed_tokens : Z)
    (i : Z) (mm_feature : MultiModalFeatureSpec) (p : encoder_plan)
    : M E (encoder_plan + encoder_plan) :=
  let start_pos := offset (mm_position mm_feature) in
  let num_encoder_tokens := length_ (mm_position mm_feature) in
  let num_new_tokens := plan_num_new_tokens p in
  let item_identifier := identifier mm_feature in
  if num_computed_tokens + num_new_tokens + shift_computed_tokens <=? start_pos
  then mret (inr p)
  else if is_encoder_decoder && (0 <? num_computed_tokens) then
    py_assert (start_pos =? 0) ;; mret (inl p)
  else if start_pos + num_encoder_tokens <=? num_computed_tokens then mret (inl p)
  else
    skip ←
      (if is_encoder_decoder then mret false
       else if bool_decide (item_identifier ∈ mm_hashes_to_schedule p) then mret true
       else check_and_update_cache request i);
    if (skip : bool) then mret (inl p)
    else if disable_chunked_mm_input && (num_computed_tokens <? start_pos)
            && (num_computed_tokens + num_new_tokens <? start_pos + num_encoder_tokens)
    then
      mret (inr (set_num_new_tokens
        (Z.max 0 (start_pos - (num_computed_tokens + shift_computed_tokens))) p))
    else
      room ← can_allocate request i (plan_budget p) (num_embeds_to_schedule p);
      if negb room then
        mret (inr (set_num_new_tokens
          (if num_computed_tokens + shift_computed_tokens <? start_pos
           then start_pos - (num_computed_tokens + shift_computed_tokens) else 0) p))
      else
        let start_idx_rel := Z.max 0 (num_computed_tokens - start_pos) in
        let end_idx_rel :=
          Z.min num_encoder_tokens (num_computed_tokens + num_new_tokens - start_pos) in
        '(curr_embeds_start, curr_embeds_end) ← of_option IndexError
          (get_embeds_indices_in_range (mm_position mm_feature) start_idx_rel end_idx_rel);
        if curr_embeds_end - curr_embeds_start =? 0 then mret (inl p)
        else if match has_cache_item with Some has => has item_identifier | None => false end
        then mret (inl (plan_external i mm_feature p))
        else mret (inl (plan_compute i mm_feature p)).

Fixpoint encoder_loop (request : Request) (num_computed_tokens shift_computed_tokens : Z)
    (i : Z) (features : list MultiModalFeatureSpec) (p : encoder_plan) : M E encoder_plan :=
  match features with
  | [] => mret p
  | f :: features =>
      r ← encoder_turn request num_computed_tokens shift_computed_tokens i f p;
      match r with
      | inl p => encoder_loop request num_computed_tokens shift_computed_tokens (i + 1) features p
      | inr p => mret p
      end
  end.

(** [_try_schedule_encoder_inputs] *)
Definition _try_schedule_encoder_inputs (request : Request)
    (num_computed_tokens num_new_tokens encoder_compute_budget shift_computed_tokens : Z)
    : M E (list Z * Z * Z * list Z) :=
  if (num_new_tokens =? 0) || (zlen (mm_features request) =? 0)
  then mret ([], num_new_tokens, encoder_compute_budget, [])
  else
    py_assert (0 <? zlen (mm_features request)) ;;
    p ← encoder_loop request num_computed_tokens shift_computed_tokens 0 (mm_features request)
          (mkPlan [] num_new_tokens encoder_compute_budget [] ∅ 0);
    mret (encoder_inputs_to_schedule p, plan_num_new_tokens p, plan_budget p,
          external_load_encoder_input p).

(** [schedule]: the allocations for the inputs of a scheduled request. *)
Definition allocate_encoder_inputs (request : Request)
    (encoder_inputs_to_schedule external_load_encoder_input : list Z) : M E unit :=
  foreach encoder_inputs_to_schedule (λ i, allocate request i) ;;
  foreach external_load_encoder_input (λ i, allocate request i).

End SchedEncoder.
