(* ===== verification/SchedEncoderSpec.v ===== *)
(** * Encoder scheduling leaves every needed item allocated

    The loop invariant of [_try_schedule_encoder_inputs] on the shared cache:
    the chosen inputs are distinct items that are not cached, they fit in the
    free slots, and every input visited so far that the step needs is cached and
    referenced or chosen. *)

From stdpp Require Import sorting.
From S2P Require Import Prelude.
From S2P Require Import OrderedDict.
From S2P Require Import Request.
From S2P Require Import EncoderCache.
From S2P Require Import EncoderCacheSpec.
From S2P Require Import SchedEncoder.
Local Open Scope Z_scope.

(** ** Embeddings in a range of positions *)

Definition trues (m : list bool) : Z := zsum (Z.b2z <$> m).

Lemma trues_app m m' : trues (m ++ m') = trues m + trues m'.
Proof. unfold trues. by rewrite fmap_app, zsum_app. Qed.

Lemma trues_nonneg m : 0 ≤ trues m.
Proof. apply zsum_nonneg, Forall_fmap, Forall_forall. intros [] _; simpl; lia. Qed.

Lemma trues_take_mono m i j : (i ≤ j)%nat → trues (take i m) ≤ trues (take j m).
Proof.
  intros Hij. replace (take i m) with (take i (take j m)) by (rewrite take_take; f_equal; lia).
  rewrite <-(take_drop i (take j m)) at 2. rewrite trues_app.
  pose proof (trues_nonneg (drop i (take j m))). lia.
Qed.

Lemma trues_take_S m j b : m !! j = Some b → trues (take (S j) m) = trues (take j m) + Z.b2z b.
Proof. intros H. rewrite (take_S_r _ _ _ H), trues_app. unfold trues at 2. simpl. lia. Qed.

Lemma cumsum_from_lookup : ∀ m acc k,
  (k < length m)%nat → cumsum_from acc m !! k = Some (acc + trues (take (S k) m)).
Proof.
  induction m as [|b m IH]; intros acc k Hk; simpl in Hk; [lia|].
  destruct k as [|k]; [by destruct b|]. cbn [cumsum_from lookup list_lookup].
  rewrite IH by lia. f_equal.
  change (trues (take (S (S k)) (b :: m))) with (Z.b2z b + trues (take (S k) m)). lia.
Qed.

Lemma cumsum_from_length m acc : length (cumsum_from acc m) = length m.
Proof. revert acc. induction m as [|b m IH]; intros acc; simpl; [done|]. by rewrite IH. Qed.

Lemma cumsum_at m a :
  a ≤ zlen m →
  (if 0 <? a then py_get (cumsum_from 0 m) (a - 1) else Some 0) = Some (trues (take (Z.to_nat a) m)).
Proof.
  intros Ha. unfold zlen in Ha. destruct (Z.ltb_spec 0 a).
  - rewrite py_get_nonneg, cumsum_from_lookup by lia. f_equal. rewrite Z.add_0_l.
    do 2 f_equal. lia.
  - by rewrite Z2Nat.nonpos by lia.
Qed.

(** The mask covers the placeholder. *)
Definition range_ok (p : PlaceholderRange) : Prop :=
  0 ≤ length_ p ∧ ∀ m, is_embed p = Some m → zlen m = length_ p.

(** A position with an embedding of [p]. *)
Definition has_embedding (p : PlaceholderRange) (pos : Z) : Prop :=
  offset p ≤ pos < offset p + length_ p ∧
  match is_embed p with
  | None => True
  | Some m => m !! Z.to_nat (pos - offset p) = Some true
  end.

Lemma embeds_indices p a b :
  range_ok p → a ≤ length_ p → b ≤ length_ p →
  ∃ s e, get_embeds_indices_in_range p a b = Some (s, e) ∧
    ∀ pos, has_embedding p pos → a ≤ pos - offset p < b → e - s ≠ 0.
Proof.
  intros [Hlen Hmask] Ha Hb. unfold get_embeds_indices_in_range, embeds_cumsum, has_embedding.
  destruct (is_embed p) as [m|]; simpl; cycle 1.
  { exists a, b. split; [done|]. intros pos _. lia. }
  specialize (Hmask m eq_refl). rewrite !cumsum_at by lia. simpl. do 2 eexists.
  split; [done|]. intros pos [Hpos Hm] Hab.
  pose proof (trues_take_S m _ _ Hm) as Ht. simpl in Ht.
  pose proof (trues_take_mono m (Z.to_nat a) (Z.to_nat (pos - offset p)) ltac:(lia)).
  pose proof (trues_take_mono m (S (Z.to_nat (pos - offset p))) (Z.to_nat b) ltac:(lia)). lia.
Qed.

(** ** The loop invariant *)

Section Loop.
Context (embeds : string → Z) (embeds_nonneg : ∀ h, 0 ≤ embeds h).
Context (disable_chunked_mm_input : bool) (has_cache_item : option (string → bool)).
Context (r : Request) (nc new shift budget : Z).
Context (Hr : request_ok embeds r) (Hranges : Forall (λ f, range_ok (mm_position f)) (mm_features r)).
Context (Hnc : 0 ≤ nc) (Hnew : 0 ≤ new) (Hshift : 0 ≤ shift).

(** A step of [n] tokens needs an embedding of the input. *)
Definition needed (n : Z) (f : MultiModalFeatureSpec) : Prop :=
  ∃ pos, nc ≤ pos < nc + n ∧ has_embedding (mm_position f) pos.

Definition referenced (s : EncoderCacheManager) (h : string) : Prop :=
  ∃ refs, cached s !! h = Some refs ∧ request_id r ∈ refs.

Record plan_inv (seen : list MultiModalFeatureSpec) (p : encoder_plan) (s : EncoderCacheManager)
    (hs hs' : list string) : Prop := {
  pi_cache : cache_inv embeds s;
  pi_compute : Forall2 (input embeds r) (encoder_inputs_to_schedule p) hs;
  pi_external : Forall2 (input embeds r) (external_load_encoder_input p) hs';
  pi_nodup : NoDup (hs ++ hs');
  pi_hashes : ∀ h, h ∈ mm_hashes_to_schedule p ↔ h ∈ hs ++ hs';
  pi_absent : ∀ h, h ∈ hs ++ hs' → cached s !! h = None;
  pi_pending : num_embeds_to_schedule p = zsum (embeds <$> hs ++ hs');
  pi_room : num_embeds_to_schedule p ≤ num_free_slots s;
  pi_budget : 0 ≤ plan_budget p ∧ plan_budget p + zsum (embeds <$> hs) = budget;
  pi_ready : ∀ f, f ∈ seen → needed new f →
    referenced s (identifier f) ∨ identifier f ∈ hs ++ hs';
}.

Lemma referenced_evict s k h :
  cache_inv embeds s → referenced s h → referenced (evict_oldest k s) h.
Proof.
  intros Hs (refs & Hrefs & Hin). exists refs. split; [|done]. simpl.
  assert (Hout : h ∉ (take k (freeable s)).*1).
  { rewrite elem_of_keys. intros [n Hn]. apply elem_of_take in Hn as (i & Hi & _).
    apply list_elem_of_lookup_2, (inv_unreferenced _ s Hs) in Hi as [Hi _].
    rewrite Hi in Hrefs. injection Hrefs as <-. by apply elem_of_empty in Hin. }
  clear Hin. revert Hout Hrefs. generalize (take k (freeable s)).*1 as l, (cached s) as c.
  induction l as [|h' l IH]; intros c Hout Hc; simpl; [done|].
  apply not_elem_of_cons in Hout as [Hne Hout]. apply IH; [done|].
  by rewrite lookup_delete_ne.
Qed.

(** An input that is not needed, or is ready, is passed over. *)
Lemma plan_skip seen p s hs hs' f :
  plan_inv seen p s hs hs' →
  (needed new f → referenced s (identifier f) ∨ identifier f ∈ hs ++ hs') →
  plan_inv (seen ++ [f]) p s hs hs'.
Proof.
  intros [] Hf. split; try done. intros g [Hg| ->%list_elem_of_singleton]%elem_of_app; auto.
Qed.

(** Growing the cache state without touching the chosen items. *)
Lemma plan_state seen p s s' hs hs' :
  plan_inv seen p s hs hs' → cache_inv embeds s' →
  (∀ h, h ∈ hs ++ hs' → cached s' !! h = None) →
  num_embeds_to_schedule p ≤ num_free_slots s' →
  (∀ h, referenced s h → referenced s' h) →
  plan_inv seen p s' hs hs'.
Proof.
  intros [] H1 H2 H3 H4. split; try done. intros f Hf Hn.
  destruct (pi_ready0 f Hf Hn); [left; auto|by right].
Qed.

Lemma plan_choose_external seen p s hs hs' i f :
  plan_inv seen p s hs hs' → input embeds r i (identifier f) →
  get_num_embeds (mm_position f) = embeds (identifier f) →
  identifier f ∉ hs ++ hs' → cached s !! identifier f = None →
  num_embeds_to_schedule p + embeds (identifier f) ≤ num_free_slots s →
  plan_inv (seen ++ [f]) (plan_external i f p) s hs (hs' ++ [identifier f]).
Proof.
  intros [] Hi He Hfresh Habs Hroom.
  split; simpl; rewrite ?(assoc_L (++)), ?He; try done.
  - apply Forall2_app; [done|by constructor].
  - apply NoDup_app. split; [done|]. split; [|apply NoDup_singleton].
    intros h Hh ->%list_elem_of_singleton. done.
  - intros h. rewrite elem_of_union, elem_of_singleton, elem_of_app, list_elem_of_singleton.
    rewrite pi_hashes0. tauto.
  - intros h [Hh| ->%list_elem_of_singleton]%elem_of_app; auto.
  - rewrite fmap_app, zsum_app. simpl. lia.
  - intros g [Hg| ->%list_elem_of_singleton]%elem_of_app Hn.
    + destruct (pi_ready0 g Hg Hn); [by left|]. right. apply elem_of_app. by left.
    + right. apply elem_of_app. right. by apply list_elem_of_singleton.
Qed.

Lemma plan_choose_compute seen p s hs hs' i f :
  plan_inv seen p s hs hs' → input embeds r i (identifier f) →
  get_num_embeds (mm_position f) = embeds (identifier f) →
  identifier f ∉ hs ++ hs' → cached s !! identifier f = None →
  num_embeds_to_schedule p + embeds (identifier f) ≤ num_free_slots s →
  embeds (identifier f) ≤ plan_budget p →
  plan_inv (seen ++ [f]) (plan_compute i f p) s (hs ++ [identifier f]) hs'.
Proof.
  intros [] Hi He Hfresh Habs Hroom Hb.
  assert (Hp : (hs ++ [identifier f]) ++ hs' ≡ₚ identifier f :: hs ++ hs').
  { rewrite <-(assoc_L (++)). simpl. by rewrite Permutation_middle. }
  split; simpl; rewrite ?He; try done.
  - apply Forall2_app; [done|by constructor].
  - rewrite Hp. by constructor.
  - intros h. rewrite Hp, elem_of_union, elem_of_singleton, elem_of_cons. by rewrite pi_hashes0.
  - intros h. rewrite Hp, elem_of_cons. intros [->|]; auto.
  - rewrite Hp, fmap_cons, zsum_cons. lia.
  - rewrite fmap_app, zsum_app. simpl. lia.
  - intros g [Hg| ->%list_elem_of_singleton]%elem_of_app Hn; setoid_rewrite Hp;
      rewrite elem_of_cons; [|by auto]. destruct (pi_ready0 g Hg Hn); auto.
Qed.

Lemma needed_mono n n' f : n ≤ n' → needed n f → needed n' f.
Proof. intros Hn (pos & Hpos & He). exists pos. split; [lia|done]. Qed.

(** The part of the step before an input needs none of the inputs from there. *)
Definition stops_before (n : Z) (f : MultiModalFeatureSpec) : Prop :=
  0 ≤ n ≤ new ∧ (n = 0 ∨ nc + n ≤ offset (mm_position f)).

Lemma stops_before_spec n f g :
  stops_before n f → offset (mm_position f) ≤ offset (mm_position g) → ¬ needed n g.
Proof. intros [Hn Hstop] Hfg (pos & Hpos & [Hoff _]). lia. Qed.

Lemma feature_input seen f post :
  mm_features r = seen ++ f :: post →
  input embeds r (zlen seen) (identifier f) ∧ range_ok (mm_position f) ∧
  get_num_embeds (mm_position f) = embeds (identifier f).
Proof.
  intros E.
  assert (Hf : f ∈ mm_features r) by (rewrite E; apply elem_of_app; right; by constructor).
  unfold request_ok in Hr. rewrite Forall_forall in Hr, Hranges.
  split_and!; [|by apply Hranges|by apply Hr]. pose proof (zlen_nonneg seen).
  split; [rewrite E, zlen_app, zlen_cons; pose proof (zlen_nonneg post); lia|].
  exists f. split_and!; [|done|by apply Hr]. rewrite py_get_nonneg by done.
  unfold zlen. by rewrite Nat2Z.id, E, list_lookup_middle.
Qed.

(** The lookup of the turn: a cached input is referenced, a chosen one skipped. *)
Lemma lookup_wp seen p s hs hs' f i :
  plan_inv seen p s hs hs' → input embeds r i (identifier f) →
  wp (if bool_decide (identifier f ∈ mm_hashes_to_schedule p) then mret true
      else check_and_update_cache r i) s (λ (skip : bool) s',
    plan_inv (if skip then seen ++ [f] else seen) p s' hs hs' ∧
    (skip = false → (identifier f ∉ hs ++ hs') ∧ cached s' !! identifier f = None)).
Proof.
  intros Hp Hi. pose proof Hp as [Hcache _ _ _ Hh Habs _ Hroom _ _]. case_bool_decide as Hin.
  { wp_steps. split; [|done]. apply plan_skip; [done|]. intros _. right. by apply Hh. }
  rewrite Hh in Hin. eapply wp_mono; [by apply (check_wp embeds)|]. simpl.
  intros b s' (Hinv & _ & Hfree & Hdom & _ & Hb & Htrue & Hother & Hfalse).
  assert (Hp' : plan_inv seen p s' hs hs').
  { eapply plan_state; [done|done| |lia|].
    - intros h Hh'. apply not_elem_of_dom. rewrite Hdom. by apply not_elem_of_dom, Habs.
    - intros h (refs & Hrefs & Hid). destruct b; [|rewrite Hfalse by done; by exists refs].
      destruct (Htrue eq_refl) as (refs' & Hrefs' & Hid').
      destruct (decide (h = identifier f)) as [->|Hne]; [by exists refs'|].
      exists refs. by rewrite Hother. }
  destruct b.
  - split; [|done]. apply plan_skip; [done|]. intros _. left. by apply Htrue.
  - split; [done|]. intros _. split; [done|]. rewrite Hfalse by done.
    symmetry in Hb. apply bool_decide_eq_false in Hb. by apply eq_None_not_Some.
Qed.

(** One turn: it goes on with the input seen, or ends the step before it. *)
Definition turn_post seen f (res : encoder_plan + encoder_plan) (s : EncoderCacheManager) : Prop :=
  ∃ hs hs', match res with
  | inl p => plan_num_new_tokens p = new ∧ plan_inv (seen ++ [f]) p s hs hs'
  | inr p => stops_before (plan_num_new_tokens p) f ∧ plan_inv seen p s hs hs'
  end.

Lemma plan_set_tokens n seen p s hs hs' :
  plan_inv seen p s hs hs' → plan_inv seen (set_num_new_tokens n p) s hs hs'.
Proof. by intros []. Qed.

(** The input is not cached and overlaps the step: there is room, or the step
    ends before it. *)
Lemma choose_wp seen p s hs hs' f post :
  mm_features r = seen ++ f :: post → plan_num_new_tokens p = new →
  plan_inv seen p s hs hs' → identifier f ∉ hs ++ hs' → cached s !! identifier f = None →
  offset (mm_position f) < nc + new + shift →
  nc < offset (mm_position f) + length_ (mm_position f) →
  wp (room ← can_allocate r (zlen seen) (plan_budget p) (num_embeds_to_schedule p);
      if negb room then
        mret (inr (set_num_new_tokens
          (if nc + shift <? offset (mm_position f)
           then offset (mm_position f) - (nc + shift) else 0) p))
      else
        '(curr_embeds_start, curr_embeds_end) ← of_option IndexError
          (get_embeds_indices_in_range (mm_position f)
             (Z.max 0 (nc - offset (mm_position f)))
             (Z.min (length_ (mm_position f)) (nc + plan_num_new_tokens p - offset (mm_position f))));
        if curr_embeds_end - curr_embeds_start =? 0 then mret (inl p)
        else if match has_cache_item with Some has => has (identifier f) | None => false end
        then mret (inl (plan_external (zlen seen) f p))
        else mret (inl (plan_compute (zlen seen) f p))) s (turn_post seen f).
Proof.
  intros Hfeat Hpn Hp Hfresh Habs Hlo Hhi.
  destruct (feature_input seen f post Hfeat) as (Hin & Hrange & Hemb).
  pose proof Hp as [Hcache _ _ _ _ Hnone _ _ Hbud _].
  wp_step. eapply wp_mono; [by apply (can_allocate_wp embeds)|]. simpl.
  intros b s' (Hinv & Hb & Hres). destruct b; simpl; cycle 1.
  { wp_steps. subst s'. exists hs, hs'. split; [|by apply plan_set_tokens]. simpl.
    unfold stops_before. destruct (Z.ltb_spec (nc + shift) (offset (mm_position f))); lia. }
  destruct Hres as (k & -> & Hroom & _). symmetry in Hb. apply andb_true_iff in Hb as [Hb _].
  apply Z.leb_le in Hb. pose proof (embeds_nonneg (identifier f)).
  assert (Hp' : plan_inv seen p (evict_oldest k s) hs hs').
  { eapply plan_state; [done|done| |lia|].
    - intros h Hh. by apply evict_oldest_cached, Hnone.
    - intros h. by apply referenced_evict. }
  apply (evict_oldest_cached k) in Habs.
  destruct (embeds_indices (mm_position f) (Z.max 0 (nc - offset (mm_position f)))
    (Z.min (length_ (mm_position f)) (nc + new - offset (mm_position f))) Hrange)
    as (a & e & Hidx & Hsome); [destruct Hrange; lia|lia|].
  rewrite Hpn. wp_step. eapply wp_of_option; [done|]. cbn beta iota.
  destruct (Z.eqb_spec (e - a) 0) as [Hz|Hz].
  { wp_steps. exists hs, hs'. split; [done|]. apply plan_skip; [done|].
    intros (pos & Hpos & He). exfalso. pose proof He as [Hoff _].
    apply (Hsome pos He); [lia|done]. }
  destruct (match has_cache_item with Some has => has (identifier f) | None => false end); wp_steps.
  - exists hs, (hs' ++ [identifier f]). split; [done|]. by apply plan_choose_external; try lia.
  - exists (hs ++ [identifier f]), hs'. split; [done|]. by apply plan_choose_compute; try lia.
Qed.

Lemma turn_wp seen p s hs hs' f post :
  mm_features r = seen ++ f :: post → plan_num_new_tokens p = new →
  plan_inv seen p s hs hs' →
  wp (encoder_turn false disable_chunked_mm_input has_cache_item r nc shift (zlen seen) f p) s
    (turn_post seen f).
Proof.
  intros Hfeat Hpn Hp. unfold encoder_turn. cbn zeta. rewrite Hpn.
  destruct (Z.leb_spec (nc + new + shift) (offset (mm_position f))).
  { wp_steps. exists hs, hs'. split; [unfold stops_before; lia|done]. }
  cbn [andb].
  destruct (Z.leb_spec (offset (mm_position f) + length_ (mm_position f)) nc).
  { wp_steps. exists hs, hs'. split; [done|]. apply plan_skip; [done|].
    intros (pos & Hpos & [Hoff _]). lia. }
  destruct (feature_input seen f post Hfeat) as (Hin & _).
  wp_step. eapply wp_mono; [by apply lookup_wp|]. intros skip s' [Hp' Hfresh].
  destruct skip; [wp_steps; by exists hs, hs'|]. destruct (Hfresh eq_refl) as [Hnew' Habs].
  destruct (disable_chunked_mm_input && _ && _) eqn:Hdis.
  { wp_steps. apply andb_true_iff in Hdis as [Hdis Hcut].
    apply andb_true_iff in Hdis as [_ Hlt]. apply Z.ltb_lt in Hlt, Hcut.
    exists hs, hs'. split; [|by apply plan_set_tokens]. simpl. unfold stops_before. lia. }
  rewrite <-Hpn. eapply choose_wp; done.
Qed.

(** ** The loop *)

Definition by_offset (f g : MultiModalFeatureSpec) : Prop :=
  offset (mm_position f) ≤ offset (mm_position g).

Definition loop_post (p : encoder_plan) (s : EncoderCacheManager) : Prop :=
  ∃ seen hs hs', plan_inv seen p s hs hs' ∧ 0 ≤ plan_num_new_tokens p ≤ new ∧
    ∀ f, f ∈ mm_features r → needed (plan_num_new_tokens p) f →
      referenced s (identifier f) ∨ identifier f ∈ hs ++ hs'.

Lemma loop_wp : ∀ post seen p s hs hs',
  mm_features r = seen ++ post → StronglySorted by_offset post →
  plan_num_new_tokens p = new → plan_inv seen p s hs hs' →
  wp (encoder_loop false disable_chunked_mm_input has_cache_item r nc shift (zlen seen) post p) s
    loop_post.
Proof.
  induction post as [|f post IH]; intros seen p s hs hs' Hfeat Hsort Hpn Hp; simpl.
  { wp_steps. exists seen, hs, hs'. rewrite app_nil_r in Hfeat. split_and!; [done|lia|lia|].
    rewrite Hpn, Hfeat. apply (pi_ready _ _ _ _ _ Hp). }
  inversion Hsort as [|?? Hsort' Hf]; subst.
  wp_step. eapply wp_mono; [by eapply turn_wp|].
  intros [p'|p'] s' (h1 & h2 & H1 & H2).
  - replace (zlen seen + 1) with (zlen (seen ++ [f])) by by rewrite zlen_app.
    eapply IH; [by rewrite <-(assoc_L (++))|done..].
  - wp_steps. exists seen, h1, h2. split_and!; [done|apply H1..|].
    intros g Hg Hneed. rewrite Hfeat, elem_of_app in Hg. destruct Hg as [Hg|Hg].
    + apply (pi_ready _ _ _ _ _ H2 g Hg). eapply needed_mono; [|done]. apply H1.
    + exfalso. apply (stops_before_spec _ f g H1); [|done].
      apply elem_of_cons in Hg as [->|Hg]; [done|].
      rewrite Forall_forall in Hf. by apply Hf.
Qed.

(** ** The allocations *)

Lemma allocate_all_wp ids hs s :
  Forall2 (input embeds r) ids hs → NoDup hs → cache_inv embeds s →
  (∀ h, h ∈ hs → cached s !! h = None) → zsum (embeds <$> hs) ≤ num_free_slots s →
  wp (foreach ids (λ i, allocate r i)) s (λ _ s', cache_inv embeds s' ∧
    num_free_slots s' = num_free_slots s - zsum (embeds <$> hs) ∧
    (∀ h, h ∈ hs → referenced s' h) ∧ ∀ h, h ∉ hs → cached s' !! h = cached s !! h).
Proof.
  intros His. revert s. induction His as [|i h ids hs Hi His IH]; intros s Hnd Hs Habs Hroom.
  { simpl. wp_steps. split_and!; [done|simpl; lia| |done]. by intros h ?%elem_of_nil. }
  apply NoDup_cons in Hnd as [Hh Hnd]. rewrite fmap_cons, zsum_cons in Hroom.
  assert (0 ≤ zsum (embeds <$> hs)).
  { apply zsum_nonneg, Forall_fmap, Forall_forall. intros; apply embeds_nonneg. }
  cbn [foreach]. wp_step. eapply wp_mono.
  { apply (allocate_wp embeds); [done..|apply Habs; by constructor|lia]. }
  intros _ s1 (H1 & H2 & H3 & _). eapply wp_mono.
  { apply IH; [done|done| |lia]. intros h' Hh'. rewrite H3.
    rewrite lookup_insert_ne; [apply Habs; by constructor|]. by intros ->. }
  intros _ s2 (G1 & G2 & G3 & G4). split_and!; [done| | |].
  - rewrite fmap_cons, zsum_cons. lia.
  - intros h' [->|Hh']%elem_of_cons; [|by apply G3]. unfold referenced. rewrite G4, H3 by done.
    rewrite lookup_insert_eq. eexists. split; [done|]. by apply elem_of_singleton.
  - intros h' [Hne Hh']%not_elem_of_cons. rewrite G4, H3 by done. by rewrite lookup_insert_ne.
Qed.
End Loop.
