(* ===== verification/EncoderTheorems.v ===== *)
(** * Theorems about the encoder cache and its use by the scheduler *)

From stdpp Require Import sorting.
From S2P Require Import Prelude.
From S2P Require Import OrderedDict.
From S2P Require Import Request.
From S2P Require Import EncoderCache.
From S2P Require Import EncoderCacheSpec.
From S2P Require Import SchedEncoder.
From S2P Require Import SchedEncoderSpec.
Local Open Scope Z_scope.

(** ** Reachable states *)

(** The calls of the scheduler on the shared cache. *)
Inductive cache_call : Type :=
  | CheckAndUpdate (r : Request) (i : Z)
  | CanAllocate (r : Request) (i budget pending : Z)
  | Allocate (r : Request) (i : Z)
  | FreeEncoderInput (r : Request) (i : Z)
  | FreeRequest (r : Request)
  | GetFreed
  | Reset.

Definition run_cache_call (set_order : list Z → list Z) (c : cache_call)
    : M EncoderCacheManager unit :=
  match c with
  | CheckAndUpdate r i => check_and_update_cache r i ;; mret tt
  | CanAllocate r i budget pending => can_allocate r i budget pending ;; mret tt
  | Allocate r i => allocate r i
  | FreeEncoderInput r i => free_encoder_input r i
  | FreeRequest r => free_inputs set_order r
  | GetFreed => get_freed_mm_hashes ;; mret tt
  | Reset => reset_encoder_cache
  end.

Section Reachable.
Context (embeds : string → Z) (set_order : list Z → list Z).

(** A call names an input of a well-formed request; an item is allocated when
    [check_and_update_cache] does not find it and [can_allocate] made room. *)
Definition call_ok (c : cache_call) (s : EncoderCacheManager) : Prop :=
  match c with
  | CheckAndUpdate r i | CanAllocate r i _ _ | FreeEncoderInput r i =>
      request_ok embeds r ∧ 0 ≤ i < zlen (mm_features r)
  | Allocate r i =>
      ∃ h, input embeds r i h ∧ cached s !! h = None ∧ embeds h ≤ num_free_slots s
  | FreeRequest r => request_ok embeds r
  | GetFreed | Reset => True
  end.

Inductive cache_reachable : EncoderCacheManager → Prop :=
  | reach_init n : 0 ≤ n → cache_reachable (EncoderCacheManager_init n)
  | reach_call s c o s' : cache_reachable s → call_ok c s →
      run_cache_call set_order c s = (o, s') → cache_reachable s'.

Context (embeds_nonneg : ∀ h, 0 ≤ embeds h) (Horder : ∀ l, set_order l ≡ₚ l).

Lemma call_wp c s :
  cache_inv embeds s → call_ok c s →
  wp (run_cache_call set_order c) s (λ _ s', cache_inv embeds s').
Proof.
  intros Hs Hc. destruct c as [r i|r i budget pending|r i|r i|r| |]; simpl in *.
  - destruct Hc as [Hr Hi]. destruct (request_input embeds r i Hr Hi) as [h Hih].
    wp_step. eapply wp_mono; [by apply (check_wp embeds)|]. intros b s' H. wp_steps. apply H.
  - destruct Hc as [Hr Hi]. destruct (request_input embeds r i Hr Hi) as [h Hih].
    wp_step. eapply wp_mono; [by apply (can_allocate_wp embeds)|]. intros b s' H. wp_steps. apply H.
  - destruct Hc as (h & Hih & Hh & Hroom).
    eapply wp_mono; [by apply (allocate_wp embeds)|]. intros [] s' H; apply H.
  - destruct Hc as [Hr Hi]. destruct (request_input embeds r i Hr Hi) as [h Hih].
    eapply wp_mono; [by apply (free_input_wp embeds)|]. intros [] s' H; apply H.
  - eapply wp_mono; [by apply (free_wp embeds)|]. intros [] s' H; apply H.
  - wp_step. eapply wp_mono; [by apply (get_freed_wp embeds)|]. intros l s' H. wp_steps. apply H.
  - eapply wp_mono; [by apply (reset_wp embeds)|]. intros [] s' H; apply H.
Qed.

Lemma reachable_inv s : cache_reachable s → cache_inv embeds s.
Proof.
  induction 1 as [n Hn|s c o s' _ IH Hc E]; [by apply init_inv|].
  pose proof (call_wp c s IH Hc) as H. unfold wp in H. rewrite E in H. by destruct o.
Qed.
End Reachable.

(** C27: In every state of the encoder cache that the scheduler's calls reach, the
    free slots are the capacity minus the slots of all cached items, the
    freeable slots add the slots of the unreferenced ones, the eviction list
    holds exactly these, each once and with its size, and
    [0 <= num_free_slots <= num_freeable_slots <= cache_size]; and no further
    call raises. *)
Theorem encoder_cache_accounting (embeds : string → Z) (set_order : list Z → list Z)
    (s : EncoderCacheManager)
    (Hnonneg : ∀ h, 0 ≤ embeds h)
    (Horder : ∀ l, set_order l ≡ₚ l)
    (Hreach : cache_reachable embeds set_order s) :
  num_free_slots s = cache_size s - slots_used embeds (cached s) ∧
  num_freeable_slots s = num_free_slots s + zsum (freeable s).*2 ∧
  NoDup (freeable s).*1 ∧
  (∀ h n, (h, n) ∈ freeable s ↔ cached s !! h = Some ∅ ∧ n = embeds h) ∧
  0 ≤ num_free_slots s ≤ num_freeable_slots s ∧ num_freeable_slots s ≤ cache_size s ∧
  ∀ c, call_ok embeds c s → ∃ s', run_cache_call set_order c s = (Ret tt, s').
Proof.
  pose proof (reachable_inv embeds set_order Hnonneg Horder s Hreach) as Hs.
  pose proof (inv_bounds embeds Hnonneg s Hs). pose proof Hs as [H1 H2 H3 H4 H5].
  split_and!; [done..|lia|lia|lia|]. intros c Hc.
  pose proof (call_wp embeds set_order Hnonneg Horder c s Hs Hc) as Hwp.
  apply wp_elim in Hwp as ([] & s' & E & _). by exists s'.
Qed.

(** [can_allocate] always terminates.  It refuses, and changes nothing,
    exactly when the item exceeds the compute budget or the item and what is
    already planned exceed the freeable slots; otherwise it evicts the fewest
    oldest unreferenced items (possibly none) that leave enough free slots. *)
Theorem can_allocate_evicts_oldest (embeds : string → Z) (r : Request) (i : Z) (h : string)
    (budget pending : Z) (s : EncoderCacheManager)
    (Hnonneg : ∀ h, 0 ≤ embeds h)
    (Hs : cache_inv embeds s)
    (Hi : input embeds r i h) :
  let n := embeds h + pending in
  if (embeds h <=? budget) && (n <=? num_freeable_slots s)
  then ∃ k, can_allocate r i budget pending s = (Ret true, evict_oldest k s) ∧
       n ≤ num_free_slots (evict_oldest k s) ∧
       ∀ j, (j < k)%nat → num_free_slots (evict_oldest j s) < n
  else can_allocate r i budget pending s = (Ret false, s).
Proof.
  pose proof (can_allocate_wp embeds Hnonneg r i h budget pending s Hs Hi) as Hwp.
  apply wp_elim in Hwp as (b & s' & E & _ & Hb & Hres). simpl in *. rewrite <-Hb.
  destruct b; [|by rewrite E, Hres]. destruct Hres as (k & -> & Hk). by exists k.
Qed.


(** ** Instances *)

Definition demo_embeds (h : string) : Z :=
  if String.eqb h "a" then 4 else if String.eqb h "b" then 2 else 0.

Lemma demo_embeds_nonneg h : 0 ≤ demo_embeds h.
Proof. unfold demo_embeds. repeat case_match; lia. Qed.

(** Two images: positions 0-3, and 5-7 with a mask of two embeddings. *)
Definition demo_features : list MultiModalFeatureSpec :=
  [mkFeature "a" (mkRange 0 4 None); mkFeature "b" (mkRange 5 3 (Some [true; false; true]))].
Definition demo_mm : Request :=
  mkRequest (mkArgs "r" 1 0 0 None (Some (mkPooling None)) (Some (replicate 9 7)) None None None
      demo_features 1 9 [] true false false)
    WAITING None [] (replicate 9 7) [] 0 0 0 0 0 [] ∅.

Lemma demo_request_ok : request_ok demo_embeds demo_mm.
Proof. by repeat constructor. Qed.

Definition demo_cache : EncoderCacheManager :=
  (run_cache_call (λ l, l) (Allocate demo_mm 0) (EncoderCacheManager_init 5)).2.

Lemma demo_input : input demo_embeds demo_mm 0 "a".
Proof. split; [done|]. by eexists. Qed.

Lemma demo_cache_reachable : cache_reachable demo_embeds (λ l, l) demo_cache.
Proof.
  apply (reach_call _ _ (EncoderCacheManager_init 5) (Allocate demo_mm 0) (Ret tt)).
  - by constructor.
  - exists "a"%string. split; [apply demo_input|]. by split.
  - vm_compute. reflexivity.
Qed.

Lemma encoder_cache_accounting_witness :
  0 ≤ num_free_slots demo_cache ≤ num_freeable_slots demo_cache ∧ num_free_slots demo_cache = 1.
Proof.
  pose proof (encoder_cache_accounting demo_embeds (λ l, l) demo_cache demo_embeds_nonneg
    (λ l, Permutation_refl l) demo_cache_reachable) as (_ & _ & _ & _ & H & _).
  split; [exact H|vm_compute; reflexivity].
Defined.

Lemma can_allocate_evicts_oldest_witness :
  can_allocate demo_mm 0 8 0 (EncoderCacheManager_init 5)
  = (Ret true, EncoderCacheManager_init 5).
Proof.
  destruct (can_allocate_evicts_oldest demo_embeds demo_mm 0 "a" 8 0 (EncoderCacheManager_init 5)
    demo_embeds_nonneg (init_inv demo_embeds 5 ltac:(lia)) demo_input) as (k & E & _ & Hmin).
  rewrite E. destruct k as [|k]; [by rewrite evict_oldest_0|].
  specialize (Hmin 0%nat ltac:(lia)). rewrite evict_oldest_0 in Hmin. vm_compute in Hmin. discriminate.
Defined.

