(* ===== verification/Coordinator.v ===== *)
(** * The KV-cache coordinators

    [vllm/v1/core/kv_cache_coordinator.py]: the managers of all KV-cache groups
    over one block pool.  The base class forwards each operation to every
    manager; the three subclasses differ in how they look up and file cached
    blocks.  [Coordinator] is the state of a coordinator object; a manager's
    methods run on its entry of [single_type_managers] and the shared pool. *)

From Stdlib Require Import Strings.Byte.
From S2P Require Import Prelude.
From S2P Require Import FreeQueue.
From S2P Require Import Request.
From S2P Require Import SchedPrefill.
From S2P Require Import BlockHash.
From S2P Require Import BlockPool.
From S2P Require Import KVCacheSpec.
From S2P Require Import SingleType.
From S2P Require Import CacheHit.
Local Open Scope Z_scope.

#[export] Instance manager_class_eq_dec : EqDecision manager_class.
Proof. solve_decision. Defined.

(** ** Configuration

    [spec_layout] stands for the fields of a spec that the block managers never
    read (heads, dtypes, page sizes) but that its equality compares. *)

Record KVCacheGroupSpec : Type := mkGroup {
  group_spec : KVCacheSpec;
  spec_layout : Z;
  is_eagle_group : bool;
}.

Record KVCacheConfig : Type := mkConfig {
  num_blocks : Z;
  kv_cache_groups : list KVCacheGroupSpec;
  device_state_blocks : Z;
  device_state_group_ids : list Z;
}.

Record SpecGroup : Type := mkSpecGroup {
  sg_spec : KVCacheSpec;
  sg_layout : Z;
  group_ids : list Z;
  manager_cls : manager_class;
  sg_use_eagle : bool;
}.

(** ** State *)

(** The subclass of the coordinator, with the attributes only it has. *)
Inductive coordinator_class : Type :=
  | NoPrefixCache
  | Unitary (kv_cache_spec : KVCacheSpec) (block_size dcp_world_size pcp_world_size : Z)
  | Hybrid (hash_block_size : Z) (attention_groups : list SpecGroup) (lcm_block_size : Z).

Record Coordinator : Type := mkCoord {
  coord_class : coordinator_class;
  kv_cache_config : KVCacheConfig;
  coord_enable_caching : bool;
  retention_interval : option Z;
  coord_boundary : Z;
  eagle_group_ids : gset Z;
  single_type_managers : list Manager;
  coord_pool : BlockPool;
}.

Definition set_class v (c : Coordinator) : Coordinator :=
  mkCoord v (kv_cache_config c) (coord_enable_caching c) (retention_interval c) (coord_boundary c)
    (eagle_group_ids c) (single_type_managers c) (coord_pool c).
Definition set_retention v (c : Coordinator) : Coordinator :=
  mkCoord (coord_class c) (kv_cache_config c) (coord_enable_caching c) v (coord_boundary c)
    (eagle_group_ids c) (single_type_managers c) (coord_pool c).
Definition set_boundary v (c : Coordinator) : Coordinator :=
  mkCoord (coord_class c) (kv_cache_config c) (coord_enable_caching c) (retention_interval c) v
    (eagle_group_ids c) (single_type_managers c) (coord_pool c).
Definition set_managers v (c : Coordinator) : Coordinator :=
  mkCoord (coord_class c) (kv_cache_config c) (coord_enable_caching c) (retention_interval c)
    (coord_boundary c) (eagle_group_ids c) v (coord_pool c).
Definition set_pool v (c : Coordinator) : Coordinator :=
  mkCoord (coord_class c) (kv_cache_config c) (coord_enable_caching c) (retention_interval c)
    (coord_boundary c) (eagle_group_ids c) (single_type_managers c) v.

(** Attribute writes of the coordinator on a manager. *)
Definition set_mgr_args (a : ManagerArgs) (m : Manager) : Manager :=
  mkMgr a (new_block_ids m) (_pending_boundary_state_offloads m) (req_to_blocks m)
    (num_cached_block m) (cached_blocks_this_step m) (last_state_block_idx m)
    (_allocated_block_reqs m).
Definition set_use_eagle (v : bool) (m : Manager) : Manager :=
  set_mgr_args
    (mkMgrArgs (kv_cache_spec m) (m_block_size m) (m_enable_caching m) (kv_cache_group_id m)
       (dcp_world_size m) (pcp_world_size m) (_max_admission_blocks_per_request m) (_null_block m)
       v (reuse_window m) (alignment_tokens m) (mamba_replay_lookbehind m) (sink_blocks m)) m.
Definition set_alignment_tokens (v : option Z) (m : Manager) : Manager :=
  set_mgr_args
    (mkMgrArgs (kv_cache_spec m) (m_block_size m) (m_enable_caching m) (kv_cache_group_id m)
       (dcp_world_size m) (pcp_world_size m) (_max_admission_blocks_per_request m) (_null_block m)
       (use_eagle m) (reuse_window m) v (mamba_replay_lookbehind m) (sink_blocks m)) m.
Definition set_replay_lookbehind (v : bool) (m : Manager) : Manager :=
  set_mgr_args
    (mkMgrArgs (kv_cache_spec m) (m_block_size m) (m_enable_caching m) (kv_cache_group_id m)
       (dcp_world_size m) (pcp_world_size m) (_max_admission_blocks_per_request m) (_null_block m)
       (use_eagle m) (reuse_window m) (alignment_tokens m) v (sink_blocks m)) m.

(** A method of the manager at position [i], on the shared pool. *)
Definition on_manager {A} (i : nat) (f : M mstate A) : M Coordinator A := λ c,
  match single_type_managers c !! i with
  | None => (Raise IndexError, c)
  | Some m =>
      let '(o, s) := f (MState m (coord_pool c)) in
      (o, set_pool (block_pool s) (set_managers (<[i := mgr s]> (single_type_managers c)) c))
  end.

(** [for i, manager in enumerate(self.single_type_managers)], the results
    collected; the loop never changes the number of managers. *)
Definition each_manager {A} (f : nat → Manager → M mstate A) : M Coordinator (list A) :=
  c ← get;
  mapM_list (λ i, on_manager i (s ← get; f i (mgr s))) (seq 0 (length (single_type_managers c))).

Definition isinstance_mamba (m : Manager) : bool := bool_decide (class_of m = Some MambaManager).
Definition isinstance_cross (m : Manager) : bool :=
  bool_decide (class_of m = Some CrossAttentionManager).

(** ** Construction *)

(** [KVCacheCoordinator.__init__]; [cls] is the subclass being constructed. *)
Definition KVCacheCoordinator_init (cls : coordinator_class) (config : KVCacheConfig)
    (max_model_len max_in_flight_tokens : Z) (use_eagle enable_caching enable_kv_cache_events : bool)
    (dcp_world_size pcp_world_size hash_block_size : Z) (collector : bool) : outcome Coordinator :=
  obind (λ pool,
    let n := length (kv_cache_groups config) in
    let flagged : gset Z :=
      list_to_set (fst <$> filter (λ e, is_eagle_group e.2 = true)
                             (zip (Z.of_nat <$> seq 0 n) (kv_cache_groups config))) in
    let eagle : gset Z :=
      if use_eagle && bool_decide (flagged = ∅) then list_to_set (Z.of_nat <$> seq 0 n)
      else flagged in
    let new_manager (e : Z * KVCacheGroupSpec) :=
      get_manager_for_kv_cache_spec (group_spec e.2) max_in_flight_tokens max_model_len
        enable_caching e.1 dcp_world_size pcp_world_size in
    match mapM_list new_manager (zip (Z.of_nat <$> seq 0 n) (kv_cache_groups config)) pool with
    | (Raise e, _) => Raise e
    | (Ret managers, pool) =>
        Ret (mkCoord cls config enable_caching None 0 eagle managers pool)
    end)
    (Pool.init (num_blocks config) enable_caching hash_block_size enable_kv_cache_events collector
       (device_state_blocks config) (device_state_group_ids config)).

(** [UnitaryKVCacheCoordinator.__init__] after the base constructor. *)
Definition Unitary_init (dcp_world_size pcp_world_size hash_block_size : Z) : M Coordinator unit :=
  c ← get;
  g ← of_option IndexError (head (kv_cache_groups (kv_cache_config c)));
  let spec := group_spec g in
  let block_size := global_block_size spec dcp_world_size pcp_world_size in
  modify (set_class (Unitary spec block_size
                       (if dcp_sharded spec then dcp_world_size else 1)
                       (if dcp_sharded spec then pcp_world_size else 1))) ;;
  py_assert (negb (coord_enable_caching c) || (hash_block_size =? block_size)) ;;
  py_assert (Nat.eqb (length (kv_cache_groups (kv_cache_config c))) 1) ;;
  m ← of_option IndexError (head (single_type_managers c));
  modify (λ c, set_managers
    (<[0%nat := set_use_eagle (bool_decide (0 ∈ eagle_group_ids c)) m]> (single_type_managers c)) c).

(** The inner [for .. else] of [verify_and_split_kv_cache_groups]: group [i]
    joins the first spec group with the same spec, or opens a new one. *)
Fixpoint join_spec_group (spec : KVCacheSpec) (layout i : Z) (cls : manager_class)
    (use_eagle : bool) (gs : list SpecGroup) : outcome (list SpecGroup) :=
  match gs with
  | [] => Ret [mkSpecGroup spec layout [i] cls use_eagle]
  | g :: rest =>
      if bool_decide (sg_spec g = spec) && (sg_layout g =? layout) then
        if bool_decide (cls = manager_cls g) then
          Ret (mkSpecGroup (sg_spec g) (sg_layout g) (group_ids g ++ [i]) (manager_cls g)
                 (use_eagle || sg_use_eagle g) :: rest)
        else Raise AssertionError
      else obind (λ rest, Ret (g :: rest)) (join_spec_group spec layout i cls use_eagle rest)
  end.

(** The outer loop, over the groups and their managers from position [i] on. *)
Fixpoint split_groups (eagle : gset Z) (i : Z) (groups : list KVCacheGroupSpec)
    (managers : list Manager) (gs : list SpecGroup) : outcome (list SpecGroup) :=
  match groups, managers with
  | [], _ => Ret gs
  | g :: groups, m :: managers =>
      if negb (prefix_cacheable (group_spec g)) then split_groups eagle (i + 1) groups managers gs
      else
        match class_of m with
        | None => Raise KeyError
        | Some cls =>
            let spec :=
              if negb (m_block_size m =? spec_block_size (group_spec g))
              then mkSpec (spec_type (group_spec g)) (m_block_size m) false
              else group_spec g in
            obind (split_groups eagle (i + 1) groups managers)
              (join_spec_group spec (spec_layout g) i cls (bool_decide (i ∈ eagle)) gs)
        end
  | _ :: _, [] => Raise IndexError
  end.

Definition is_full_group (g : SpecGroup) : bool := is_full_attention (spec_type (sg_spec g)).

(** [sort(key=lambda g: not isinstance(g.spec, FullAttentionSpec))]: Python's
    sort is stable. *)
Definition full_first (gs : list SpecGroup) : list SpecGroup :=
  filter (λ g, is_full_group g = true) gs ++ filter (λ g, is_full_group g = false) gs.

Definition lcm_list (l : list Z) : Z := foldr Z.lcm 1 l.

(** The group ids of the spec groups with the EAGLE drop. *)
Definition eagle_members (gs : list SpecGroup) : list Z :=
  concat (group_ids <$> filter (λ g, sg_use_eagle g = true) gs).

Definition verify_and_split_kv_cache_groups (hash_block_size : Z) : M Coordinator unit :=
  c ← get;
  gs ← of_outcome (split_groups (eagle_group_ids c) 0 (kv_cache_groups (kv_cache_config c))
                     (single_type_managers c) []);
  py_assert (negb (is_nil gs)) ;;
  let gs := full_first gs in
  let lcm_block_size := lcm_list ((λ g, spec_block_size (sg_spec g)) <$> gs) in
  modify (set_class (Hybrid hash_block_size gs lcm_block_size)) ;;
  modify (λ c, set_managers
    (imap (λ i m,
       set_alignment_tokens (Some lcm_block_size)
         (if decide (Z.of_nat i ∈ eagle_members gs) then set_use_eagle true m else m))
       (single_type_managers c)) c).

(** [HybridKVCacheCoordinator.__init__] after the base constructor. *)
Definition Hybrid_init (dcp_world_size pcp_world_size hash_block_size : Z) : M Coordinator unit :=
  c ← get;
  py_assert (forallb (λ m : Manager, m_block_size m mod hash_block_size =? 0)
               (filter (λ m, prefix_cacheable (kv_cache_spec (mgr_args m)) = true)
                  (single_type_managers c))) ;;
  py_assert (pcp_world_size =? 1) ;;
  when (1 <? dcp_world_size)
    (py_assert (forallb (λ g, is_full_attention (spec_type (group_spec g))
                              || negb (dcp_sharded (group_spec g)))
                  (kv_cache_groups (kv_cache_config c)))) ;;
  verify_and_split_kv_cache_groups hash_block_size.

Definition after_base (m : M Coordinator unit) (base : outcome Coordinator) : outcome Coordinator :=
  obind (λ c, match m c with (Ret _, c) => Ret c | (Raise e, _) => Raise e end) base.

Definition get_kv_cache_coordinator (config : KVCacheConfig)
    (max_model_len max_in_flight_tokens : Z) (use_eagle enable_caching enable_kv_cache_events : bool)
    (dcp_world_size pcp_world_size hash_block_size : Z) (collector : bool) : outcome Coordinator :=
  let base caching :=
    KVCacheCoordinator_init NoPrefixCache config max_model_len max_in_flight_tokens use_eagle caching
      enable_kv_cache_events dcp_world_size pcp_world_size hash_block_size collector in
  if negb enable_caching then base false
  else if Nat.eqb (length (kv_cache_groups config)) 1
  then after_base (Unitary_init dcp_world_size pcp_world_size hash_block_size) (base enable_caching)
  else after_base (Hybrid_init dcp_world_size pcp_world_size hash_block_size) (base enable_caching).

(** ** Operations *)

(** [configure_prefix_cache_retention]: the interval is stored before it is
    checked. *)
Definition configure_prefix_cache_retention (interval : option Z) : M Coordinator unit :=
  modify (set_retention interval) ;;
  c ← get;
  match interval with
  | None => mret tt
  | Some interval =>
      if negb (coord_enable_caching c) then mret tt
      else
        match filter (λ m, isinstance_mamba m = true) (single_type_managers c) with
        | [] => if interval =? 0 then mret tt else raise ValueError
        | (m0 :: _) as mamba =>
            let alignment :=
              match coord_class c with Hybrid _ _ lcm => lcm | _ => m_block_size m0 end in
            let sparse_mamba :=
              bool_decide (eagle_group_ids c ≠ ∅) &&
              existsb (λ m, Mamba.is_align m && (m_block_size m =? alignment)) mamba in
            modify (λ c, set_managers
              (set_replay_lookbehind sparse_mamba <$> single_type_managers c) c) ;;
            if (interval <? 0) || negb (interval mod alignment =? 0) then raise ValueError
            else mret tt
        end
  end.

(** [self.get_replay_boundaries] *)
Definition coord_replay_boundaries (c : Coordinator) (request : Request) (alignment : Z) : list Z :=
  get_replay_boundaries (bool_decide (eagle_group_ids c ≠ ∅)) (num_tokens request) alignment.

Section operations.
Context (sha256 : bytes → bytes) (use_int : bool).

Definition _cache_manager_blocks (i : nat) (m : Manager) (request : Request) (num_tokens : Z)
    (alignment : option Z) : M Coordinator Request :=
  c ← get;
  if isinstance_mamba m then
    let alignment := py_or alignment (m_block_size m) in
    on_manager i (Manager.cache_blocks sha256 use_int request num_tokens (Some alignment)
                    (retention_interval c) (coord_replay_boundaries c request alignment))
  else on_manager i (Manager.cache_blocks sha256 use_int request num_tokens alignment None []).

(** [blocks[i]] of a tuple with one entry per group *)
Definition group_blocks (blocks : list (list loc)) (i : nat) {S} : M S (list loc) :=
  of_option IndexError (blocks !! i).

Definition get_num_blocks_to_allocate (rid : string) (num_tokens : Z)
    (new_computed_blocks : list (list loc)) (num_encoder_tokens total_computed_tokens
    num_tokens_main_model : Z) (apply_admission_cap : bool) : M Coordinator Z :=
  demands ← each_manager (λ i m,
    if isinstance_cross m then
      Manager.get_num_blocks_to_allocate rid num_encoder_tokens [] 0 num_encoder_tokens
        apply_admission_cap
    else
      computed ← group_blocks new_computed_blocks i;
      Manager.get_num_blocks_to_allocate rid num_tokens computed total_computed_tokens
        num_tokens_main_model apply_admission_cap);
  c ← get;
  let group_demand : gmap Z Z := list_to_map (zip (Z.of_nat <$> seq 0 (length demands)) demands) in
  if negb (Pool.can_allocate_group_blocks (coord_pool c) group_demand)
  then mret (Pool.get_num_free_blocks (coord_pool c) None + 1)
  else mret (zsum demands).

Definition allocate_new_computed_blocks (rid : string) (new_computed_blocks : list (list loc))
    (num_local_computed_tokens num_external_computed_tokens : Z) : M Coordinator unit :=
  each_manager (λ i _,
    computed ← group_blocks new_computed_blocks i;
    Manager.allocate_new_computed_blocks use_int rid computed num_local_computed_tokens
      num_external_computed_tokens) ;;
  mret tt.

Definition allocate_new_blocks (rid : string) (num_tokens num_tokens_main_model num_encoder_tokens : Z)
    : M Coordinator (list (list loc)) :=
  each_manager (λ _ m,
    Manager.allocate_new_blocks use_int rid
      (if isinstance_cross m then num_encoder_tokens else num_tokens) num_tokens_main_model).

(** The request is handed from manager to manager. *)
Definition each_manager_caching (f : nat → Manager → Request → M Coordinator Request)
    (request : Request) : M Coordinator Request :=
  c ← get;
  foldM (λ request i,
    c ← get;
    m ← of_option IndexError (single_type_managers c !! i);
    f i m request) (seq 0 (length (single_type_managers c))) request.

(** [KVCacheCoordinator.cache_blocks] *)
Definition base_cache_blocks (request : Request) (num_computed_tokens : Z) : M Coordinator Request :=
  each_manager_caching (λ i m request,
    _cache_manager_blocks i m request num_computed_tokens None) request.

(** The tokens [HybridKVCacheCoordinator.cache_blocks] files for a manager. *)
Definition num_tokens_to_cache (m : Manager) (lcm_block_size num_computed_tokens : Z) : Z :=
  let aligned := num_computed_tokens / lcm_block_size * lcm_block_size in
  if use_eagle m && (0 <? aligned) then Z.min num_computed_tokens (aligned + m_block_size m)
  else aligned.

Definition hybrid_cache_blocks (lcm_block_size : Z) (request : Request) (num_computed_tokens : Z)
    : M Coordinator Request :=
  each_manager_caching (λ i m request,
    _cache_manager_blocks i m request (num_tokens_to_cache m lcm_block_size num_computed_tokens)
      (Some lcm_block_size)) request.

Definition cache_blocks (request : Request) (num_computed_tokens : Z) : M Coordinator Request :=
  c ← get;
  match coord_class c with
  | Hybrid _ _ lcm => hybrid_cache_blocks lcm request num_computed_tokens
  | _ => base_cache_blocks request num_computed_tokens
  end.
End operations.

Definition free (rid : string) : M Coordinator unit :=
  each_manager (λ _ _, Manager.free rid) ;; mret tt.

Definition get_num_common_prefix_blocks (rid : string) : M Coordinator (list Z) :=
  c ← get;
  match coord_class c with
  | NoPrefixCache => mret (replicate (length (single_type_managers c)) 0)
  | _ => each_manager (λ _ _, Manager.get_num_common_prefix_blocks rid)
  end.

Definition remove_skipped_blocks (rid : string) (processed_computed_tokens : Z)
    (num_prompt_tokens : option Z) : M Coordinator unit :=
  each_manager (λ _ _,
    Manager.remove_skipped_blocks rid processed_computed_tokens num_prompt_tokens) ;;
  mret tt.

Definition get_blocks (c : Coordinator) (rid : string) : list (list loc) :=
  (λ m, req_blocks m rid) <$> single_type_managers c.

Definition new_step_starts : M Coordinator unit :=
  each_manager (λ _ _, Manager.new_step_starts) ;; mret tt.

(** ** find_longest_cache_hit

    The lookup of [HybridKVCacheCoordinator] reduces a candidate length until
    every spec group accepts it. *)

Record lookup_state : Type := mkLookup {
  curr_hit_length : Z;
  longest_hit_length : Z;
  hit_blocks_by_group : list (option (list loc));
  eagle_verified : gset nat;
}.

Section lookup.
Context (p : BlockPool) (hash_block_size lcm_block_size : Z) (block_hashes : list BlockHash).
Context (max_cache_hit_length : Z).

Definition _get_block_hashes (spec : KVCacheSpec) : outcome BlockHashList :=
  if spec_block_size spec =? hash_block_size then Ret (Hashes block_hashes)
  else obind (λ v, Ret (HashView v))
         (BlockHashListWithBlockSize_init block_hashes hash_block_size (spec_block_size spec)).

(** [for group_id, blocks in zip(group_ids, hit_blocks): by_group[group_id] = blocks] *)
Definition file_hits (group_ids : list Z) (hit_blocks : list (list loc))
    (by_group : list (option (list loc))) : list (option (list loc)) :=
  foldl (λ acc e, <[Z.to_nat e.1 := Some e.2]> acc) by_group (zip group_ids hit_blocks).

(** The body of the inner loop for the spec group at position [idx]. *)
Definition lookup_group (idx : nat) (g : SpecGroup) (s : lookup_state) : outcome lookup_state :=
  let spec := sg_spec g in
  let block_size := spec_block_size spec in
  let cached_blocks := gid ← head (group_ids g); mjoin (hit_blocks_by_group s !! Z.to_nat gid) in
  let curr := curr_hit_length s in
  if is_full_attention (spec_type spec) && bool_decide (is_Some cached_blocks) then
    Ret (mkLookup (curr / block_size * block_size) (longest_hit_length s) (hit_blocks_by_group s)
           (eagle_verified s))
  else
    let drop_eagle_block := sg_use_eagle g && bool_decide (idx ∉ eagle_verified s) in
    let _max_length :=
      if drop_eagle_block then Z.min (curr + block_size) max_cache_hit_length else curr in
    obind (λ hashes,
      obind (λ hit_blocks,
        obind (λ first,
          let new_hit_length := zlen first * block_size in
          let verified :=
            if drop_eagle_block then {[idx]} ∪ eagle_verified s
            else if new_hit_length <? curr then ∅ else eagle_verified s in
          Ret (mkLookup new_hit_length (Z.max (longest_hit_length s) new_hit_length)
                 (file_hits (group_ids g) hit_blocks (hit_blocks_by_group s)) verified))
          (head_list hit_blocks))
        (CacheHit.find_longest_cache_hit (manager_cls g) hashes _max_length (group_ids g) p spec
           drop_eagle_block lcm_block_size 1 1))
      (_get_block_hashes spec).

Fixpoint lookup_groups (idx : nat) (gs : list SpecGroup) (s : lookup_state) : outcome lookup_state :=
  match gs with
  | [] => Ret s
  | g :: rest => obind (lookup_groups (S idx) rest) (lookup_group idx g s)
  end.

(** The [while True] loop, from candidate [hit_length]. *)
Fixpoint lookup_loop (fuel : nat) (is_simple_hybrid : bool) (gs : list SpecGroup) (hit_length : Z)
    (s : lookup_state) : outcome (Z * lookup_state) :=
  match fuel with
  | O => Raise OutOfFuel
  | S fuel =>
      obind (λ s,
        if hit_length <=? curr_hit_length s then Ret (hit_length, s)
        else if is_simple_hybrid then Ret (curr_hit_length s, s)
        else lookup_loop fuel is_simple_hybrid gs (curr_hit_length s) s)
        (lookup_groups 0 gs (mkLookup hit_length (longest_hit_length s) (hit_blocks_by_group s)
                               (eagle_verified s)))
  end.

(** [del blks[num_blocks:]] for the members of the first group. *)
Definition truncate_hits (group_ids : list Z) (num_blocks : Z)
    (by_group : list (option (list loc))) : list (option (list loc)) :=
  foldl (λ acc gid,
    alter (fmap (λ l : list loc, take (Z.to_nat (clip_index (zlen l) num_blocks)) l)) (Z.to_nat gid) acc)
    by_group group_ids.

(** The hit blocks per group, the hit length, and the shared-prefix boundary. *)
Definition hybrid_find_longest_cache_hit (num_groups : nat) (gs : list SpecGroup)
    : outcome (list (list loc) * Z * Z) :=
  let is_simple_hybrid :=
    Nat.eqb (length gs) 2 && match gs with g :: _ => is_full_group g | [] => false end in
  obind (λ r,
    let '(hit_length, s) := r in
    let boundary := if hit_length <? longest_hit_length s then longest_hit_length s else 0 in
    match gs with
    | [] => Raise IndexError
    | g :: _ =>
        let by_group :=
          if is_full_group g
          then truncate_hits (group_ids g) (hit_length / spec_block_size (sg_spec g))
                 (hit_blocks_by_group s)
          else hit_blocks_by_group s in
        Ret ((default []) <$> by_group, hit_length, boundary)
    end)
    (lookup_loop (S (Z.to_nat max_cache_hit_length)) is_simple_hybrid gs max_cache_hit_length
       (mkLookup max_cache_hit_length 0 (replicate num_groups None) ∅)).
End lookup.

Definition coord_find_longest_cache_hit (block_hashes : list BlockHash) (max_cache_hit_length : Z)
    : M Coordinator (list (list loc) * Z) :=
  c ← get;
  match coord_class c with
  | NoPrefixCache => mret (replicate (length (single_type_managers c)) [], 0)
  | Unitary spec block_size dcp pcp =>
      m ← of_option IndexError (head (single_type_managers c));
      cls ← of_option KeyError (class_of m);
      hit_blocks ← of_outcome
        (CacheHit.find_longest_cache_hit cls (Hashes block_hashes) max_cache_hit_length [0]
           (coord_pool c) spec (bool_decide (0 ∈ eagle_group_ids c)) block_size dcp pcp);
      first ← of_outcome (head_list hit_blocks);
      mret (hit_blocks, zlen first * block_size)
  | Hybrid hash_block_size gs lcm_block_size =>
      modify (set_boundary 0) ;;
      r ← of_outcome
        (hybrid_find_longest_cache_hit (coord_pool c) hash_block_size lcm_block_size block_hashes
           max_cache_hit_length (length (kv_cache_groups (kv_cache_config c))) gs);
      let '(blocks, hit_length, boundary) := r in
      modify (set_boundary boundary) ;;
      mret (blocks, hit_length)
  end.
