(* ===== verification/CoordinatorLookup.v ===== *)
(** * The hybrid prefix-cache lookup

    The fixed-point loop of [HybridKVCacheCoordinator.find_longest_cache_hit]
    converges, and its answer can be resumed from: every group is given the
    cached blocks of all the positions its attention still reads at the hit
    length. *)

From Stdlib Require Import Strings.Byte.
From S2P Require Import Prelude.
From S2P Require Import FreeQueue.
From S2P Require Import Request.
From S2P Require Import BlockHash.
From S2P Require Import BlockPool.
From S2P Require Import BlockPoolSpec.
From S2P Require Import BlockPoolOps.
From S2P Require Import BlockPoolProps.
From S2P Require Import KVCacheSpec.
From S2P Require Import SingleType.
From S2P Require Import CacheHit.
From S2P Require Import CacheHitSpec.
From S2P Require Import CacheHitTheorems.
From S2P Require Import Coordinator.
Local Open Scope Z_scope.

(** The tokens of a prefix that the attention of a class no longer reads. *)
Definition spec_skipped_tokens (c : spec_class) (n : Z) : Z :=
  match c with
  | SlidingWindowSpec w | SlidingWindowMLASpec w => Z.max 0 (n - w + 1)
  | ChunkedLocalAttentionSpec c => n / c * c
  | MambaSpec _ _ => n - 1
  | _ => 0
  end.

Lemma manager_skipped_tokens m n :
  get_num_skipped_tokens m n = spec_skipped_tokens (spec_type (kv_cache_spec m)) n.
Proof. unfold get_num_skipped_tokens. by destruct (spec_type _). Qed.

(** The first block still read after a prefix of [n] blocks. *)
Definition first_needed (spec : KVCacheSpec) (n : nat) : nat :=
  Z.to_nat (spec_skipped_tokens (spec_type spec) (Z.of_nat n * spec_block_size spec)
            / spec_block_size spec).

Section group_lookup.
Context (p : BlockPool) (st hi D : list loc) (Hi : pool_inv p st hi D).
Context (hash_block_size lcm : Z) (hashes : list BlockHash).
Context (Hhbs : 0 < hash_block_size) (Hlcm : 0 < lcm).

(** The classes the lookup supports; chunked attention only without EAGLE and
    at the common block size. *)
Definition lookup_ok (eagle : bool) (spec : KVCacheSpec) : Prop :=
  match spec_type spec with
  | SlidingWindowSpec w | SlidingWindowMLASpec w => 1 ≤ w
  | ChunkedLocalAttentionSpec c =>
      0 < c ∧ c mod spec_block_size spec = 0 ∧ spec_block_size spec = lcm ∧ eagle = false
  | MambaSpec _ _ => True
  | c => is_full_attention c = true
  end.

Record group_ok (g : SpecGroup) : Prop := {
  go_ids : group_ids g ≠ [];
  go_nodup : NoDup (group_ids g);
  go_range : Forall (λ i, 0 ≤ i < 2 ^ 32) (group_ids g);
  go_cls : spec_manager_map (spec_type (sg_spec g)) = Some (manager_cls g);
  go_size : 0 < spec_block_size (sg_spec g);
  go_hash : spec_block_size (sg_spec g) mod hash_block_size = 0;
  go_lcm : (spec_block_size (sg_spec g) | lcm);
  go_spec : lookup_ok (sg_use_eagle g) (sg_spec g);
}.

Definition hashes_of (spec : KVCacheSpec) : BlockHashList :=
  if spec_block_size spec =? hash_block_size then Hashes hashes
  else HashView (mkHashList hashes (spec_block_size spec / hash_block_size)).

Lemma get_block_hashes_ok spec :
  spec_block_size spec mod hash_block_size = 0 →
  _get_block_hashes hash_block_size hashes spec = Ret (hashes_of spec).
Proof using Type.
  intros Hm. unfold _get_block_hashes, hashes_of. case_match; [done|].
  unfold BlockHashListWithBlockSize_init. by rewrite Hm.
Qed.

Lemma covers_hashes spec n :
  0 < spec_block_size spec → Z.of_nat n * spec_block_size spec / hash_block_size ≤ zlen hashes →
  covers (hashes_of spec) n.
Proof using Hhbs.
  intros Hs Hn j Hj. unfold hashes_of. case_match eqn:E; simpl; [|by eexists].
  apply Z.eqb_eq in E. rewrite E, Z.div_mul in Hn by lia. rewrite py_get_nonneg, Nat2Z.id by lia.
  apply lookup_lt_is_Some. unfold zlen in Hn. nia.
Qed.

(** [ts] describes blocks from which the group resumes after [n] blocks: each
    position still read holds a block cached under the request's hash. *)
Definition usable (g : SpecGroup) (n : nat) (ts : list (option BlockHash)) : Prop :=
  (n ≤ length ts)%nat ∧ positional (hashes_of (sg_spec g)) ts ∧
  filled p (group_ids g) (hashes_of (sg_spec g)) ts (first_needed (sg_spec g) n) n.

(** What one lookup of a spec group yields: [n] blocks, aligned. *)
Definition lookup_answer (g : SpecGroup) (drop : bool) (max : nat) (cs : list (list loc)) : Prop :=
  ∃ ts, hits p (group_ids g) ts cs ∧ usable g (length ts) ts ∧
    Z.of_nat (length ts) * spec_block_size (sg_spec g) mod lcm = 0 ∧
    (length ts ≤ if drop then max - 1 else max)%nat.

Lemma first_needed_swa spec w n :
  spec_type spec = SlidingWindowSpec w ∨ spec_type spec = SlidingWindowMLASpec w →
  0 < spec_block_size spec → 1 ≤ w →
  (n - Z.to_nat (cdiv (w - 1) (spec_block_size spec)) ≤ first_needed spec n)%nat.
Proof.
  intros Ht Hb Hw. unfold first_needed. set (b := spec_block_size spec) in *.
  assert (E : spec_skipped_tokens (spec_type spec) (Z.of_nat n * b) = Z.max 0 (Z.of_nat n * b - w + 1))
    by (destruct Ht as [-> | ->]; done). rewrite E.
  pose proof (cdiv_spec (w - 1) b Hb) as Hc. set (c := cdiv (w - 1) b) in *.
  destruct (decide (Z.of_nat n ≤ c)); [lia|].
  assert (Z.of_nat n - c ≤ Z.max 0 (Z.of_nat n * b - w + 1) / b); [|lia].
  apply Z.div_le_lower_bound; [done|]. nia.
Qed.

Lemma usable_all g ts : filled p (group_ids g) (hashes_of (sg_spec g)) ts 0 (length ts) →
  positional (hashes_of (sg_spec g)) ts → usable g (length ts) ts.
Proof. intros Hf Hp. split; [done|]. split; [done|]. intros j Hj. apply Hf. lia. Qed.

Lemma full_lookup_answer g max_length drop :
  group_ok g → is_full_attention (spec_type (sg_spec g)) = true → 0 ≤ max_length →
  ∃ cs, full_find_longest_cache_hit (hashes_of (sg_spec g)) max_length (group_ids g) p (sg_spec g)
          drop lcm 1 1 = Ret cs ∧
    lookup_answer g drop (Z.to_nat (max_length / spec_block_size (sg_spec g))) cs.
Proof using Hi Hlcm Hhbs.
  intros [Hne _ Hr _ Hbs Hh Hl _] Hfull Hm. set (hs := hashes_of (sg_spec g)).
  destruct (full_hit_ok p st hi D Hi (group_ids g) Hr Hne hs max_length (sg_spec g) drop lcm 1 1
    Hfull Hm) as (cs & n & k & E & (Hn1 & Hn2 & _) & (Hk1 & Hk2 & _) & Hh'); [exact Hbs|exact Hlcm|].
  change (1 <? 1 * 1) with false in *. cbv iota in *.
  set (bs := spec_block_size (sg_spec g)) in *. set (max := Z.to_nat (max_length / bs)) in *.
  exists cs. split; [exact E|]. eexists. split; [exact Hh'|].
  rewrite length_take in Hn1.
  assert (Hk : (k ≤ n)%nat) by (destruct drop; lia).
  assert (Hlen : length (Some <$> take k (take max (hl_list hs))) = k)
    by (rewrite length_fmap, !length_take; lia).
  assert (Hat : ∀ j, (j < k)%nat → ∃ h, take max (hl_list hs) !! j = Some h ∧
    hl_get hs (Z.of_nat j) = Some h ∧ cached_all p (group_ids g) h).
  { intros j Hj. destruct (lookup_lt_is_Some_2 (take max (hl_list hs)) j) as [h Hh1];
      [rewrite length_take; lia|]. exists h. split; [done|]. split; [|by eapply Hn2; [|exact Hh1]; lia].
    apply lookup_take_Some in Hh1 as [Hh1 _]. rewrite <-hl_list_lookup; [done|].
    assert (0 ≤ hl_len hs).
    { unfold hs, hashes_of. destruct (_ =? hash_block_size); simpl; [apply zlen_nonneg|]. unfold bl_len. simpl.
      apply Z.div_pos; [apply zlen_nonneg|]. apply Z.mod_divide in Hh as [z Hz]; [|lia].
      change (spec_block_size (sg_spec g)) with bs. rewrite Hz, Z.div_mul by lia. nia. }
    rewrite <-length_hl_list by done. apply lookup_lt_Some in Hh1. unfold zlen. lia. }
  rewrite Hlen. split; [|split; [exact Hk2|destruct drop; lia]]. rewrite <-Hlen at 1. apply usable_all; rewrite ?Hlen.
  - intros j Hj. destruct (Hat j) as (h & H1 & H2 & H3); [lia|].
    split; [by exists h|]. rewrite list_lookup_fmap, lookup_take_lt, H1 by lia. simpl. by f_equal.
  - intros j t Hj. right. assert (Hjk : (j < k)%nat) by (apply lookup_lt_Some in Hj; lia).
    destruct (Hat j Hjk) as (h & H1 & H2 & H3).
    rewrite list_lookup_fmap, lookup_take_lt, H1 in Hj by lia. simpl in Hj. by simplify_eq.
Qed.

Lemma swa_lookup_answer g max_length drop w :
  group_ok g → spec_type (sg_spec g) = SlidingWindowSpec w ∨ spec_type (sg_spec g) = SlidingWindowMLASpec w →
  1 ≤ w → 0 ≤ max_length → max_length / hash_block_size ≤ zlen hashes →
  ∃ cs, swa_find_longest_cache_hit (hashes_of (sg_spec g)) max_length (group_ids g) p (sg_spec g)
          drop lcm 1 1 = Ret cs ∧
    lookup_answer g drop (Z.to_nat (max_length / spec_block_size (sg_spec g))) cs.
Proof using Hi Hlcm Hhbs.
  intros [Hne _ Hr _ Hbs Hh Hl _] Ht Hw Hm Hmh. set (bs := spec_block_size (sg_spec g)) in *.
  pose proof (Z.mul_div_le max_length bs Hbs). pose proof (Z.div_pos max_length bs Hm Hbs).
  destruct (swa_hit_ok p st hi D Hi (group_ids g) Hr Hne (hashes_of (sg_spec g)) bs lcm Hlcm max_length
    (sg_spec g) drop w) as (cs & ts & E & Hh' & Hk & Hal & Hpos & Hf & Hd); try done.
  { destruct Ht as [-> | ->]; done. }
  { apply covers_hashes; [done|]. fold bs. rewrite Z2Nat.id by done.
    etransitivity; [apply Z.div_le_mono; [done|]|exact Hmh]. lia. }
  exists cs. split; [exact E|]. exists ts. split; [done|]. split; [|split; [done|]].
  - split; [done|]. split; [done|]. intros j Hj. apply Hf.
    pose proof (first_needed_swa (sg_spec g) w (length ts) Ht Hbs Hw). fold bs in H1. lia.
  - destruct drop; [|done]. destruct (length ts) as [|k]; [lia|]. destruct (Hd ltac:(lia)). lia.
Qed.

Lemma mamba_lookup_answer g max_length drop mode k :
  group_ok g → spec_type (sg_spec g) = MambaSpec mode k →
  0 ≤ max_length → max_length / hash_block_size ≤ zlen hashes →
  ∃ cs, mamba_find_longest_cache_hit (hashes_of (sg_spec g)) max_length (group_ids g) p (sg_spec g)
          drop lcm 1 1 = Ret cs ∧
    lookup_answer g drop (Z.to_nat (max_length / spec_block_size (sg_spec g))) cs.
Proof using Hi Hlcm Hhbs.
  intros [Hne _ Hr _ Hbs Hh Hl _] Ht Hm Hmh. set (bs := spec_block_size (sg_spec g)) in *.
  pose proof (Z.mul_div_le max_length bs Hbs). pose proof (Z.div_pos max_length bs Hm Hbs).
  destruct (mamba_hit_ok p st hi D Hi (group_ids g) Hr Hne (hashes_of (sg_spec g)) bs lcm Hlcm max_length
    (sg_spec g) drop mode k) as (cs & ts & E & Hh' & Hts & _); try done.
  { by rewrite Ht. }
  { apply covers_hashes; [done|]. fold bs. rewrite Z2Nat.id by done.
    etransitivity; [apply Z.div_le_mono; [done|]|exact Hmh]. lia. }
  exists cs. split; [exact E|]. exists ts. split; [done|].
  destruct Hts as [->|(j & h & -> & Hj & Hst & Hget)].
  { simpl length. split; [|split; [done|lia]]. split; [done|]. split; [by intros i t Hit; rewrite lookup_nil in Hit|].
    intros j Hj. simpl in Hj. lia. }
  assert (Hc : hits p (group_ids g) (replicate j None ++ [Some h]) cs → cached_all p (group_ids g) h).
  { intros Hx gid Hgid. apply list_elem_of_lookup in Hgid as [i Hgid].
    destruct (Forall2_lookup_l _ _ _ i gid Hx Hgid) as (c & _ & Hc2).
    destruct (Forall2_lookup_l _ _ _ j (Some h) Hc2) as (b & _ & Hb); [|by exists b].
    by rewrite lookup_app_r, length_replicate, Nat.sub_diag by (by rewrite length_replicate). }
  assert (Hpos : positional (hashes_of (sg_spec g)) (replicate j None ++ [Some h])).
  { intros i t Hi'. apply lookup_app_Some in Hi' as [[-> _]%lookup_replicate|[Hl1 Hl2]]; [by left|].
    right. rewrite length_replicate in *. apply list_lookup_singleton_Some in Hl2 as [? <-].
    by replace i with j by lia. }
  rewrite length_app, length_replicate. cbn [length]. split; [|split].
  - split; [rewrite length_app, length_replicate; done|]. split; [done|]. intros i Hi'.
    assert (i = j) as ->.
    { unfold first_needed in Hi'. rewrite Ht in Hi'. cbn [spec_skipped_tokens] in Hi'. fold bs in Hi'.
      replace ((Z.of_nat (j + 1) * bs - 1) / bs) with (Z.of_nat j) in Hi'; [lia|].
      apply (Z.div_unique _ _ _ (bs - 1)); nia. }
    split; [exists h; split; [done|by apply Hc]|].
    rewrite lookup_app_r, length_replicate, Nat.sub_diag by (by rewrite length_replicate). simpl. by f_equal.
  - unfold state_ok in Hst. by replace (Z.of_nat (j + 1)) with (Z.of_nat j + 1) by lia.
  - destruct drop; lia.
Qed.

Lemma chunk_start_le bs c max_length n :
  0 < bs → 0 < c → c mod bs = 0 → 0 ≤ max_length → (chunk_start bs max_length c ≤ n)%nat →
  (chunk_start bs max_length c ≤ Z.to_nat (Z.of_nat n * bs / c * c / bs))%nat.
Proof.
  intros Hbs Hc Hcb Hm. unfold chunk_start.
  apply Z.mod_divide in Hcb as [z ->]; [|lia].
  assert (Hq : ∃ q, 0 ≤ q ∧ (if 0 <? max_length then max_length / (z * bs) * (z * bs) else 0) = q * (z * bs)).
  { destruct (0 <? max_length); [|by exists 0]. eexists. split; [|done]. by apply Z.div_pos. }
  destruct Hq as (q & Hq & ->). rewrite !Z.mul_assoc, !Z.div_mul by lia.
  intros Hn. assert (q ≤ Z.of_nat n * bs / (z * bs)); [|nia].
  apply Z.div_le_lower_bound; [done|]. nia.
Qed.

Lemma chunked_lookup_answer g max_length c :
  group_ok g → spec_type (sg_spec g) = ChunkedLocalAttentionSpec c →
  0 ≤ max_length → max_length / hash_block_size ≤ zlen hashes →
  ∃ cs, chunked_find_longest_cache_hit (hashes_of (sg_spec g)) max_length (group_ids g) p (sg_spec g)
          false lcm 1 1 = Ret cs ∧
    lookup_answer g false (Z.to_nat (max_length / spec_block_size (sg_spec g))) cs.
Proof using Hi Hlcm Hhbs.
  intros [Hne _ Hr _ Hbs Hh Hl Hok] Ht Hm Hmh. unfold lookup_ok in Hok. rewrite Ht in Hok.
  destruct Hok as (Hc & Hcb & Hlb & _). set (bs := spec_block_size (sg_spec g)) in *.
  pose proof (Z.mul_div_le max_length bs Hbs). pose proof (Z.div_pos max_length bs Hm Hbs).
  destruct (chunked_hit_ok p st hi D Hi (group_ids g) Hr Hne (hashes_of (sg_spec g)) bs lcm max_length
    (sg_spec g) c) as (cs & n & E & Hn & Hall & _ & Hh'); try done.
  { by rewrite Ht. }
  { apply covers_hashes; [done|]. fold bs. rewrite Z2Nat.id by done.
    etransitivity; [apply Z.div_le_mono; [done|]|exact Hmh]. lia. }
  exists cs. split; [exact E|]. eexists. split; [exact Hh'|].
  set (start := chunk_start bs max_length c) in *.
  rewrite length_app, length_replicate, length_fmap, length_seq. split; [|split; [|done]].
  2:{ change (spec_block_size (sg_spec g)) with bs. rewrite <-Hlb. apply Z.mod_mul. lia. }
  assert (Hpos : ∀ i, (start ≤ i < start + n)%nat →
    (replicate start None ++ ((λ j : nat, hl_get (hashes_of (sg_spec g)) (Z.of_nat j)) <$> seq start n)) !! i
      = Some (hl_get (hashes_of (sg_spec g)) (Z.of_nat i))).
  { intros i Hi'. rewrite lookup_app_r, length_replicate, list_lookup_fmap, lookup_seq_lt
      by (rewrite ?length_replicate; lia). simpl. do 3 f_equal. lia. }
  split; [by rewrite length_app, length_replicate, length_fmap, length_seq|]. split.
  - intros i t Hi'. destruct (decide (i < start)%nat).
    + rewrite lookup_app_l in Hi' by (by rewrite length_replicate). apply lookup_replicate in Hi' as [-> _]. by left.
    + right. assert (i < start + n)%nat.
      { apply lookup_lt_Some in Hi'. by rewrite length_app, length_replicate, length_fmap, length_seq in Hi'. }
      rewrite Hpos in Hi' by lia. by simplify_eq.
  - intros i Hi'. assert (Hge : (start ≤ i)%nat).
    { pose proof (chunk_start_le bs c max_length (start + n) Hbs Hc Hcb Hm) as Hle.
      unfold first_needed in Hi'. rewrite Ht in Hi'. fold start in Hle.
      specialize (Hle ltac:(lia)). cbn [spec_skipped_tokens] in Hi'. fold bs in Hi'. lia. }
    split; [apply Hall|apply Hpos]; lia.
Qed.

(** One lookup of a spec group, whatever its class. *)
Lemma group_lookup_answer g max_length drop :
  group_ok g → (drop = true → sg_use_eagle g = true) →
  0 ≤ max_length → max_length / hash_block_size ≤ zlen hashes →
  ∃ cs, CacheHit.find_longest_cache_hit (manager_cls g) (hashes_of (sg_spec g)) max_length
          (group_ids g) p (sg_spec g) drop lcm 1 1 = Ret cs ∧
    lookup_answer g drop (Z.to_nat (max_length / spec_block_size (sg_spec g))) cs.
Proof using Hi Hlcm Hhbs.
  intros Hg Hd Hm Hmh. pose proof (go_cls _ Hg) as Hcls. pose proof (go_spec _ Hg) as Hok.
  unfold lookup_ok in Hok. unfold CacheHit.find_longest_cache_hit.
  destruct (spec_type (sg_spec g)) as [| | | |w|n|w|w|w|c| |mode k| |] eqn:Ht;
    simpl in Hcls, Hok; simplify_eq; try done; rewrite <-Hcls.
  1-6: apply full_lookup_answer; [done|by rewrite Ht|done].
  - apply (swa_lookup_answer g max_length drop w); auto.
  - apply (swa_lookup_answer g max_length drop w); auto.
  - destruct drop; [|by apply (chunked_lookup_answer g max_length c)].
    destruct Hok as (_ & _ & _ & He). rewrite Hd in He by done. done.
  - by apply (mamba_lookup_answer g max_length drop mode k).
Qed.

(** ** The loop over the spec groups *)

Section loop.
Context (max_cache_hit_length : Z) (Hmax : 0 ≤ max_cache_hit_length).
Context (Hcover : max_cache_hit_length / hash_block_size ≤ zlen hashes).
Context (num_groups : nat) (gs : list SpecGroup) (Hgs : Forall group_ok gs).
Context (Hids : ∀ g i, g ∈ gs → i ∈ group_ids g → (Z.to_nat i < num_groups)%nat).
Context (Hdisj : ∀ j k g h i, gs !! j = Some g → gs !! k = Some h →
  i ∈ group_ids g → i ∈ group_ids h → j = k).

Abbreviation filing := (list (option (list loc))).

Definition filed (g : SpecGroup) (bg : filing) (cs : list (list loc)) : Prop :=
  Forall2 (λ i c, bg !! Z.to_nat i = Some (Some c)) (group_ids g) cs.

Definition unfiled (g : SpecGroup) (bg : filing) : Prop :=
  ∀ i, i ∈ group_ids g → bg !! Z.to_nat i = Some None.

(** The blocks filed for [g] are usable from [n] blocks on. *)
Definition holds (g : SpecGroup) (bg : filing) (n : nat) : Prop :=
  ∃ ts cs, filed g bg cs ∧ hits p (group_ids g) ts cs ∧ usable g n ts ∧ length ts = n.

Record loop_inv (hit_length : Z) (dn : list SpecGroup) (s : lookup_state) : Prop := {
  li_curr : 0 ≤ curr_hit_length s ≤ hit_length;
  li_aligned : curr_hit_length s mod lcm = 0 ∨
    dn = [] ∧ ∀ g, g ∈ gs → unfiled g (hit_blocks_by_group s);
  li_length : length (hit_blocks_by_group s) = num_groups;
  li_full : ∀ g, g ∈ gs → is_full_group g = true →
    unfiled g (hit_blocks_by_group s) ∧ g ∉ dn ∨
    ∃ n, curr_hit_length s ≤ Z.of_nat n * spec_block_size (sg_spec g) ∧ holds g (hit_blocks_by_group s) n;
  li_other : ∀ g, g ∈ dn → is_full_group g = false →
    ∃ n, curr_hit_length s ≤ Z.of_nat n * spec_block_size (sg_spec g) ≤ hit_length ∧
      holds g (hit_blocks_by_group s) n ∧
      (last dn = Some g → Z.of_nat n * spec_block_size (sg_spec g) = curr_hit_length s);
}.

Lemma same_or_disjoint g h : g ∈ gs → h ∈ gs → g = h ∨ ∀ i, i ∈ group_ids g → i ∉ group_ids h.
Proof using Hdisj.
  intros [j Hj]%list_elem_of_lookup [k Hk]%list_elem_of_lookup.
  destruct (decide (j = k)) as [->|Hne]; [left; congruence|]. right. intros i H1 H2.
  by destruct Hne; eapply Hdisj.
Qed.

Lemma file_hits_spec ids : ∀ cs bg,
  NoDup ids → Forall (λ i, 0 ≤ i) ids → length cs = length ids →
  (∀ i, i ∈ ids → (Z.to_nat i < length bg)%nat) →
  length (file_hits ids cs bg) = length bg ∧
  Forall2 (λ i c, file_hits ids cs bg !! Z.to_nat i = Some (Some c)) ids cs ∧
  ∀ i, 0 ≤ i → i ∉ ids → file_hits ids cs bg !! Z.to_nat i = bg !! Z.to_nat i.
Proof.
  unfold file_hits. induction ids as [|i ids IH]; intros [|c cs] bg Hnd Hnn Hlen Hlt; simpl in *; try done.
  apply NoDup_cons in Hnd as [Hni Hnd]. apply Forall_cons in Hnn as [Hi0 Hnn]. injection Hlen as Hlen.
  destruct (IH cs (<[Z.to_nat i := Some c]> bg) Hnd Hnn Hlen) as (H1 & H2 & H3).
  { intros j Hj. rewrite length_insert. apply Hlt. set_solver. }
  rewrite length_insert in H1. split; [done|]. split.
  - constructor; [|done]. rewrite H3 by done. apply list_lookup_insert_eq. apply Hlt. set_solver.
  - intros j Hj Hnj. rewrite not_elem_of_cons in Hnj. rewrite H3 by naive_solver.
    apply list_lookup_insert_ne. lia.
Qed.

Definition cached_head (g : SpecGroup) (bg : filing) : option (list loc) :=
  gid ← head (group_ids g); mjoin (bg !! Z.to_nat gid).

Lemma group_in g : g ∈ gs → group_ok g.
Proof using Hgs. intros Hg. by apply (proj1 (Forall_forall _ _) Hgs). Qed.

Lemma cached_head_unfiled g bg : group_ids g ≠ [] → unfiled g bg → cached_head g bg = None.
Proof using Type.
  intros Hne Hu. unfold cached_head. destruct (group_ids g) as [|i l] eqn:E; [done|].
  cbn. rewrite Hu; [done|]. rewrite E. apply elem_of_cons. by left.
Qed.

Lemma Forall2_impl_in {A B} (P Q : A → B → Prop) l k :
  Forall2 P l k → (∀ x y, x ∈ l → P x y → Q x y) → Forall2 Q l k.
Proof.
  induction 1 as [|x y l k Hxy _ IH]; intros HPQ; [done|]. constructor.
  - apply HPQ; [by left|done].
  - apply IH. intros x' y' Hx'. apply HPQ. by right.
Qed.

(** Filing the answer of [g] leaves the other groups' blocks. *)
Lemma other_kept g h bg bg' :
  (∀ i, 0 ≤ i → i ∉ group_ids g → bg' !! Z.to_nat i = bg !! Z.to_nat i) →
  group_ok h → (∀ i, i ∈ group_ids h → i ∉ group_ids g) →
  (unfiled h bg → unfiled h bg') ∧ ∀ n, holds h bg n → holds h bg' n.
Proof.
  intros Hbg [_ _ Hr _ _ _ _ _] Hdis. rewrite Forall_forall in Hr. split.
  - intros Hu i Hi'. rewrite Hbg; [by apply Hu|by apply Hr|by apply Hdis].
  - intros n (ts & cs & Hf & ?). exists ts, cs. split; [|done].
    eapply Forall2_impl_in; [exact Hf|]. intros i c Hi' Hic. simpl in *.
    rewrite Hbg; [done|by apply Hr|by apply Hdis].
Qed.

Lemma lookup_group_skip hit dn g rest s :
  gs = dn ++ g :: rest → loop_inv hit dn s →
  is_full_group g = true → is_Some (cached_head g (hit_blocks_by_group s)) →
  curr_hit_length s / spec_block_size (sg_spec g) * spec_block_size (sg_spec g) = curr_hit_length s ∧
  loop_inv hit (dn ++ [g]) s.
Proof using All.
  intros Hsplit [Hc Hal Hlen Hfull Hoth] Hf [c Hcached].
  assert (Hin : g ∈ gs) by (rewrite Hsplit; set_solver).
  pose proof (group_in g Hin) as Hg.
  assert (Hnu : ¬ unfiled g (hit_blocks_by_group s)).
  { intros Hu. rewrite cached_head_unfiled in Hcached; [done|apply Hg|done]. }
  destruct Hal as [Hal|[_ Hal]]; [|by destruct Hnu; apply Hal].
  pose proof (go_size _ Hg) as Hbs. split.
  - destruct (go_lcm _ Hg) as [z Hz]. apply Z.mod_divide in Hal as [y Hy]; [|lia].
    rewrite Hy, Hz, Z.mul_assoc, Z.div_mul by lia. done.
  - split; try done; [by left| |].
    + intros h Hh Hfh. destruct (Hfull h Hh Hfh) as [[Hu Hn]|?]; [|by right].
      destruct (same_or_disjoint g h Hin Hh) as [<-|Hd]; [done|]. left. split; [done|].
      rewrite elem_of_app, list_elem_of_singleton. intros [?|<-]; done.
    + intros h [Hh| ->%list_elem_of_singleton]%elem_of_app Hfh; [|congruence].
      destruct (Hoth h Hh Hfh) as (n & H1 & H2 & _). exists n. split; [done|]. split; [done|].
      rewrite last_snoc. intros [= ->]. congruence.
Qed.

(** A lookup that is not skipped files its answer and lowers the length. *)
Lemma lookup_group_fresh hit dn g rest s cs drop verified :
  gs = dn ++ g :: rest → loop_inv hit dn s →
  lookup_answer g drop
    (Z.to_nat ((if drop : bool then Z.min (curr_hit_length s + spec_block_size (sg_spec g)) max_cache_hit_length
                else curr_hit_length s) / spec_block_size (sg_spec g))) cs →
  ∃ first, head_list cs = Ret first ∧
    loop_inv hit (dn ++ [g])
      (mkLookup (zlen first * spec_block_size (sg_spec g))
         (Z.max (longest_hit_length s) (zlen first * spec_block_size (sg_spec g)))
         (file_hits (group_ids g) cs (hit_blocks_by_group s)) verified).
Proof using All.
  intros Hsplit [Hc Hal Hlen Hfull Hoth] (ts & Hh & Hu & Hta & Htl).
  assert (Hin : g ∈ gs) by (rewrite Hsplit; set_solver).
  pose proof (group_in g Hin) as Hg. set (bs := spec_block_size (sg_spec g)) in *.
  pose proof (go_size _ Hg) as Hbs. fold bs in Hbs.
  destruct (hits_head p (group_ids g) (go_ids _ Hg) ts cs Hh) as (first & Hfirst & Hfl).
  exists first. split; [done|]. assert (Hz : zlen first = Z.of_nat (length ts)) by (unfold zlen; lia).
  rewrite Hz. set (n := length ts) in *.
  assert (Hle : Z.of_nat n * bs ≤ curr_hit_length s).
  { pose proof (Z.mul_div_le (curr_hit_length s) bs Hbs). destruct drop.
    - pose proof (Z.div_le_mono (Z.min (curr_hit_length s + bs) max_cache_hit_length)
        (curr_hit_length s + 1 * bs) bs Hbs ltac:(lia)) as Hd. rewrite Z.div_add in Hd by lia.
      pose proof (Z.div_pos (curr_hit_length s) bs ltac:(lia) Hbs). nia.
    - pose proof (Z.div_pos (curr_hit_length s) bs ltac:(lia) Hbs). nia. }
  destruct (file_hits_spec (group_ids g) cs (hit_blocks_by_group s)) as (Hl & Hfiled & Hkept).
  { apply Hg. }
  { eapply Forall_impl; [apply Hg|]. simpl. lia. }
  { symmetry. by eapply Forall2_length. }
  { intros i Hi'. rewrite Hlen. by eapply Hids. }
  assert (Hnew : holds g (file_hits (group_ids g) cs (hit_blocks_by_group s)) n) by by exists ts, cs.
  assert (Hother : ∀ h, h ∈ gs → h = g ∨ h ≠ g ∧
    (unfiled h (hit_blocks_by_group s) → unfiled h (file_hits (group_ids g) cs (hit_blocks_by_group s))) ∧
    ∀ k, holds h (hit_blocks_by_group s) k → holds h (file_hits (group_ids g) cs (hit_blocks_by_group s)) k).
  { intros h Hh'. destruct (same_or_disjoint h g Hh' Hin) as [->|Hd]; [by left|]. right. split.
    - intros ->. destruct (group_ids g) as [|i l] eqn:E; [by apply (go_ids _ Hg)|]. apply (Hd i); by left.
    - by apply (other_kept g); [..|apply group_in|]. }
  split; simpl; [lia|by left|by rewrite Hl| |].
  - intros h Hh' Hfh. destruct (Hother h Hh') as [->|(Hne & Hku & Hkh)]; [right; exists n; split; [done|apply Hnew]|].
    destruct (Hfull h Hh' Hfh) as [[Hun Hn]|(k & Hk1 & Hk2)].
    + left. split; [by apply Hku|]. rewrite elem_of_app, list_elem_of_singleton. by intros [?| ->].
    + right. exists k. split; [lia|by apply Hkh].
  - intros h Hhd Hfh. assert (Hh' : h ∈ gs).
    { rewrite Hsplit. apply elem_of_app in Hhd as [?| ->%list_elem_of_singleton]; set_solver. }
    destruct (Hother h Hh') as [->|(Hne & _ & Hkh)]; [exists n; split; [fold bs; lia|split; [done|done]]|].
    apply elem_of_app in Hhd as [Hhd| ->%list_elem_of_singleton].
    + destruct (Hoth h Hhd Hfh) as (k & Hk1 & Hk2 & _). exists k. split; [lia|]. split; [by apply Hkh|].
      rewrite last_snoc. by intros [= <-].
    + done.
Qed.

Abbreviation lookup_one := (lookup_group p hash_block_size lcm hashes max_cache_hit_length).
Abbreviation lookup_all := (lookup_groups p hash_block_size lcm hashes max_cache_hit_length).

Lemma lookup_group_ok hit dn g rest s :
  gs = dn ++ g :: rest → hit ≤ max_cache_hit_length → loop_inv hit dn s →
  ∃ s', lookup_one (length dn) g s = Ret s' ∧ loop_inv hit (dn ++ [g]) s'.
Proof using All.
  intros Hsplit Hhit Hinv. assert (Hin : g ∈ gs) by (rewrite Hsplit; set_solver).
  pose proof (group_in g Hin) as Hg. pose proof (li_curr _ _ _ Hinv) as Hc.
  unfold lookup_group. fold (cached_head g (hit_blocks_by_group s)).
  destruct (is_full_attention (spec_type (sg_spec g)) && _) eqn:Eskip.
  { apply andb_true_iff in Eskip as [Hf Hcached%bool_decide_eq_true].
    destruct (lookup_group_skip hit dn g rest s Hsplit Hinv Hf Hcached) as [-> Hinv'].
    eexists. split; [done|]. by destruct s. }
  rewrite get_block_hashes_ok by apply Hg. cbn [obind].
  set (drop := sg_use_eagle g && _). set (max_length := if drop then _ else _).
  pose proof (go_size _ Hg) as Hbs.
  assert (Hml : 0 ≤ max_length ≤ max_cache_hit_length) by (unfold max_length; destruct drop; lia).
  destruct (group_lookup_answer g max_length drop Hg) as (cs & -> & Hans).
  { unfold drop. by intros [? _]%andb_true_iff. }
  { lia. }
  { etransitivity; [apply Z.div_le_mono; [done|apply Hml]|done]. }
  cbn [obind].
  destruct (lookup_group_fresh hit dn g rest s cs drop
    (if drop then {[length dn]} ∪ eagle_verified s
     else if zlen (default [] (head cs)) * spec_block_size (sg_spec g) <? curr_hit_length s
     then ∅ else eagle_verified s) Hsplit Hinv Hans) as (first & Hfirst & Hinv').
  assert (Hhead : default [] (head cs) = first) by (destruct cs; simpl in *; by simplify_eq).
  rewrite Hfirst. cbn [obind]. eexists. split; [done|]. by rewrite Hhead in Hinv'.
Qed.

Lemma lookup_groups_ok hit : hit ≤ max_cache_hit_length → ∀ rest dn s,
  gs = dn ++ rest → loop_inv hit dn s →
  ∃ s', lookup_all (length dn) rest s = Ret s' ∧ loop_inv hit gs s'.
Proof using All.
  intros Hhit. induction rest as [|g rest IH]; intros dn s Hsplit Hinv.
  { exists s. split; [done|]. by rewrite Hsplit, app_nil_r. }
  destruct (lookup_group_ok hit dn g rest s Hsplit Hhit Hinv) as (s1 & E & Hinv1).
  cbn [lookup_groups]. rewrite E. cbn [obind].
  destruct (IH (dn ++ [g]) s1) as (s2 & E2 & Hinv2); [by rewrite <-(assoc_L (++))|done|].
  exists s2. split; [|done]. rewrite length_app in E2. simpl in E2. by rewrite Nat.add_1_r in E2.
Qed.

(** The answer: the blocks of [g] are usable at [hit_length] tokens; those of a
    full-attention group may reach further. *)
Definition agreed (hit_length : Z) (bg : filing) : Prop :=
  0 ≤ hit_length ≤ max_cache_hit_length ∧ hit_length mod lcm = 0 ∧ length bg = num_groups ∧
  ∀ g, g ∈ gs → ∃ n, hit_length ≤ Z.of_nat n * spec_block_size (sg_spec g) ∧ holds g bg n ∧
    (is_full_group g = false → Z.of_nat n * spec_block_size (sg_spec g) = hit_length).

Lemma loop_inv_agreed hit s :
  gs ≠ [] → loop_inv hit gs s → hit ≤ max_cache_hit_length →
  (hit ≤ curr_hit_length s ∨
   ∀ g, g ∈ gs → is_full_group g = false → last gs = Some g) →
  agreed (curr_hit_length s) (hit_blocks_by_group s).
Proof using All.
  intros Hne [Hc Hal Hlen Hfull Hoth] Hhit Hlast. split; [lia|]. split; [|split; [done|]].
  { destruct Hal as [?|[? _]]; done. }
  intros g Hg. destruct (is_full_group g) eqn:Hf.
  - destruct (Hfull g Hg Hf) as [[_ []]|(n & Hn & Hh)]; [done|]. by exists n.
  - destruct (Hoth g Hg Hf) as (n & Hn & Hh & Hl). exists n. split; [lia|]. split; [done|]. intros _.
    destruct Hlast as [?|Hlast]; [lia|]. by apply Hl, Hlast.
Qed.

Lemma lookup_loop_ok simple : gs ≠ [] →
  (simple = true → ∀ g, g ∈ gs → is_full_group g = false → last gs = Some g) →
  ∀ fuel hit s,
  (Z.to_nat hit < fuel)%nat → hit ≤ max_cache_hit_length → loop_inv hit [] (mkLookup hit (longest_hit_length s) (hit_blocks_by_group s) (eagle_verified s)) →
  ∃ len s', lookup_loop p hash_block_size lcm hashes max_cache_hit_length fuel simple gs hit s = Ret (len, s') ∧
    agreed len (hit_blocks_by_group s').
Proof using All.
  intros Hne Hsimple. induction fuel as [|fuel IH]; intros hit s Hfuel Hhit Hinv; [lia|].
  cbn [lookup_loop].
  destruct (lookup_groups_ok hit Hhit gs [] _ eq_refl Hinv) as (s1 & E & Hinv1).
  simpl length in E. rewrite E. cbn [obind]. pose proof (li_curr _ _ _ Hinv1) as Hc.
  destruct (Z.leb_spec hit (curr_hit_length s1)).
  { exists hit, s1. split; [done|]. replace hit with (curr_hit_length s1) by lia.
    apply (loop_inv_agreed hit); auto. }
  destruct simple.
  { eexists _, s1. split; [done|]. apply (loop_inv_agreed hit); auto. }
  apply IH; [lia|lia|]. destruct Hinv1 as [_ Hal Hlen Hfull Hoth].
  split; simpl; [lia| |done| |by intros g ?%not_elem_of_nil].
  - left. by destruct Hal as [?|[? _]].
  - intros g Hg Hf. right. destruct (Hfull g Hg Hf) as [[_ []]|?]; done.
Qed.

Lemma truncate_hits_spec ids n : ∀ bg : filing,
  NoDup ids → Forall (λ i, 0 ≤ i) ids →
  length (truncate_hits ids n bg) = length bg ∧
  (∀ i, i ∈ ids → truncate_hits ids n bg !! Z.to_nat i =
     fmap (λ l : list loc, take (Z.to_nat (clip_index (zlen l) n)) l) <$> bg !! Z.to_nat i) ∧
  ∀ i, 0 ≤ i → i ∉ ids → truncate_hits ids n bg !! Z.to_nat i = bg !! Z.to_nat i.
Proof using Type.
  unfold truncate_hits. induction ids as [|i ids IH]; intros bg Hnd Hnn; simpl.
  { split; [done|]. split; [by intros i ?%not_elem_of_nil|done]. }
  apply NoDup_cons in Hnd as [Hni Hnd]. apply Forall_cons in Hnn as [Hi0 Hnn].
  destruct (IH (alter (fmap (λ l : list loc, take (Z.to_nat (clip_index (zlen l) n)) l)) (Z.to_nat i) bg) Hnd Hnn)
    as (H1 & H2 & H3).
  rewrite Forall_forall in Hnn. split; [by rewrite H1, length_alter|]. split.
  - intros j [->|Hj]%elem_of_cons; [by rewrite H3, list_lookup_alter_eq by done|].
    rewrite H2 by done. rewrite list_lookup_alter_ne; [done|]. specialize (Hnn j Hj).
    intros E. assert (i = j) by lia. congruence.
  - intros j Hj0 Hj. rewrite not_elem_of_cons in Hj. rewrite H3 by naive_solver.
    rewrite list_lookup_alter_ne; [done|]. lia.
Qed.

(** A list of blocks group [i] can resume from after [n] blocks. *)
Definition resumable (spec : KVCacheSpec) (i : Z) (n : nat) (bs : list loc) : Prop :=
  (n ≤ length bs)%nat ∧
  (∀ q b, bs !! q = Some b → b = null_block p ∨
     ∃ h, hl_get (hashes_of spec) (Z.of_nat q) = Some h ∧ cached_as p h i b) ∧
  ∀ q, (first_needed spec n ≤ q < n)%nat →
    ∃ h b, hl_get (hashes_of spec) (Z.of_nat q) = Some h ∧ bs !! q = Some b ∧ cached_as p h i b.

(** Full attention reads every block: any shorter prefix is usable too. *)
Lemma holds_resumable g bg n k i :
  g ∈ gs → i ∈ group_ids g → holds g bg n → (k ≤ n)%nat →
  (is_full_group g = false → k = n) →
  ∃ bs, bg !! Z.to_nat i = Some (Some bs) ∧ length bs = n ∧ resumable (sg_spec g) i k bs.
Proof using Type.
  intros Hg Hin (ts & cs & Hf & Hh & (_ & Hp & Hu) & Hl) Hk Hfull.
  apply list_elem_of_lookup in Hin as [x Hx].
  destruct (Forall2_lookup_l _ _ _ x i Hf Hx) as (bs & Hbs & Hbg).
  destruct (Forall2_lookup_l _ _ _ x i Hh Hx) as (bs' & Hbs' & Ht). simplify_eq.
  pose proof (Forall2_length _ _ _ Ht) as Hlen.
  exists bs. split; [done|]. split; [lia|]. split; [lia|]. split.
  - intros q b Hq. destruct (Forall2_lookup_r _ _ _ q b Ht Hq) as (t & Htq & Hb).
    destruct t as [h|]; [|by left]. right. exists h. split; [|done].
    destruct (Hp q (Some h) Htq) as [?|?]; [done|congruence].
  - intros q Hq. assert (Hq' : (first_needed (sg_spec g) (length ts) ≤ q < length ts)%nat).
    { destruct (is_full_group g) eqn:E; [|rewrite <-Hfull in * by done; lia].
      split; [|lia]. clear -E. unfold is_full_group in E. unfold first_needed.
      destruct (spec_type (sg_spec g)); simpl in *; try done; rewrite Zdiv_0_l; simpl; lia. }
    destruct (Hu q Hq') as [(h & Hget & _) Htq].
    destruct (Forall2_lookup_l _ _ _ q _ Ht Htq) as (b & Hb & Hc). rewrite Hget in Hc. by exists h, b.
Qed.

(** The answer given to the caller. *)
Definition hit_answer (hit_length : Z) (blocks : list (list loc)) : Prop :=
  0 ≤ hit_length ≤ max_cache_hit_length ∧ hit_length mod lcm = 0 ∧ length blocks = num_groups ∧
  ∀ j g i, gs !! j = Some g → i ∈ group_ids g →
    let n := Z.to_nat (hit_length / spec_block_size (sg_spec g)) in
    ∃ bs, blocks !! Z.to_nat i = Some bs ∧ resumable (sg_spec g) i n bs ∧
      (j = 0%nat ∨ is_full_group g = false → length bs = n).

Lemma resumable_take spec i n bs : resumable spec i n bs → resumable spec i n (take n bs).
Proof using Type.
  intros (H1 & H2 & H3). split; [rewrite length_take; lia|]. split.
  - intros q b [Hq _]%lookup_take_Some. by apply H2.
  - intros q Hq. destruct (H3 q Hq) as (h & b & ? & ? & ?). exists h, b.
    by rewrite lookup_take_lt by lia.
Qed.

Lemma agreed_answer hit_length bg :
  agreed hit_length bg →
  hit_answer hit_length (default [] <$>
    match gs with
    | g :: _ => if is_full_group g
        then truncate_hits (group_ids g) (hit_length / spec_block_size (sg_spec g)) bg else bg
    | [] => bg
    end).
Proof using All.
  intros (Hlen & Hal & Hbg & Hall).
  assert (Hres : ∀ g i, g ∈ gs → i ∈ group_ids g →
    let n := Z.to_nat (hit_length / spec_block_size (sg_spec g)) in
    ∃ bs, bg !! Z.to_nat i = Some (Some bs) ∧ resumable (sg_spec g) i n bs ∧
      (is_full_group g = false → length bs = n)).
  { intros g i Hg Hi' n. destruct (Hall g Hg) as (m & Hm & Hh & Hx). pose proof (go_size _ (group_in g Hg)) as Hbs.
    destruct (holds_resumable g bg m n i Hg Hi' Hh) as (bs & H1 & H2 & H3).
    - unfold n. apply Nat2Z.inj_le. rewrite Z2Nat.id by (apply Z.div_pos; lia).
      apply Z.div_le_upper_bound; lia.
    - intros Hf. unfold n. rewrite <-(Hx Hf), Z.div_mul by lia. lia.
    - exists bs. split; [done|]. split; [done|]. intros Hf. rewrite H2. unfold n.
      rewrite <-(Hx Hf), Z.div_mul by lia. lia. }
  assert (Hplain : ∀ j g i (bg' : filing), gs !! j = Some g → i ∈ group_ids g →
    bg' !! Z.to_nat i = bg !! Z.to_nat i → (j = 0%nat → is_full_group g = false) →
    let n := Z.to_nat (hit_length / spec_block_size (sg_spec g)) in
    ∃ bs, (default [] <$> bg') !! Z.to_nat i = Some bs ∧ resumable (sg_spec g) i n bs ∧
      (j = 0%nat ∨ is_full_group g = false → length bs = n)).
  { intros j g i bg' Hj Hi' E Hj0 n. destruct (Hres g i) as (bs & H1 & H2 & H3);
      [by eapply list_elem_of_lookup_2|done|]. exists bs. rewrite list_lookup_fmap, E, H1.
    split; [done|]. split; [done|]. intros [Hz|Hf]; apply H3; auto. }
  split; [done|]. split; [done|]. destruct gs as [|g0 gs'] eqn:Egs.
  { split; [by rewrite length_fmap|]. intros j g i Hj. by rewrite lookup_nil in Hj. }
  destruct (is_full_group g0) eqn:Hf0.
  2:{ split; [by rewrite length_fmap|]. intros j g i Hj Hi'. apply (Hplain j); [done..|].
      intros ->. simpl in Hj. by simplify_eq. }
  assert (Hg0 : group_ok g0) by by apply Forall_cons in Hgs as [? _].
  destruct (truncate_hits_spec (group_ids g0) (hit_length / spec_block_size (sg_spec g0)) bg)
    as (Hl & Hin & Hout); [apply Hg0|eapply Forall_impl; [apply Hg0|simpl; lia]|].
  split; [by rewrite length_fmap, Hl|]. intros j g i Hj Hi'.
  assert (Hi0 : 0 ≤ i).
  { assert (Hg : group_ok g) by by eapply (Forall_lookup_1 _ _ _ _ Hgs).
    pose proof (proj1 (Forall_forall _ _) (go_range _ Hg) i Hi'). simpl in *. lia. }
  destruct (decide (i ∈ group_ids g0)) as [Hi0g|Hi0g].
  - assert (j = 0%nat) as -> by by eapply (Hdisj j 0 g g0 i). simpl in Hj. simplify_eq.
    destruct (Hres g i) as (bs & H1 & H2 & _); [by left|done|].
    pose proof (go_size _ Hg0) as Hbs. pose proof (Z.div_pos hit_length (spec_block_size (sg_spec g)) ltac:(lia) Hbs).
    exists (take (Z.to_nat (hit_length / spec_block_size (sg_spec g))) bs).
    rewrite list_lookup_fmap, Hin, H1 by done. simpl.
    assert (Hclip : clip_index (zlen bs) (hit_length / spec_block_size (sg_spec g)) =
      hit_length / spec_block_size (sg_spec g)).
    { destruct H2 as [H2 _]. unfold clip_index, zlen. rewrite (proj2 (Z.ltb_ge _ _)) by lia. lia. }
    rewrite Hclip. split; [done|]. split; [by apply resumable_take|]. intros _.
    destruct H2 as [H2 _]. rewrite length_take. lia.
  - apply (Hplain j g i); [done|done|by apply Hout|]. intros ->. simpl in Hj. by simplify_eq.
Qed.

Lemma hybrid_lookup_ok :
  gs ≠ [] →
  ∃ blocks hit_length boundary,
    hybrid_find_longest_cache_hit p hash_block_size lcm hashes max_cache_hit_length num_groups gs
      = Ret (blocks, hit_length, boundary) ∧
    hit_answer hit_length blocks.
Proof using All.
  intros Hne. unfold hybrid_find_longest_cache_hit. set (simple := _ && _).
  destruct (lookup_loop_ok simple Hne) with (fuel := S (Z.to_nat max_cache_hit_length))
    (hit := max_cache_hit_length) (s := mkLookup max_cache_hit_length 0 (replicate num_groups None) ∅)
    as (len & s' & E & Hag).
  - intros Hs g Hg Hf. unfold simple in Hs. apply andb_true_iff in Hs as [Hl Hh].
    apply Nat.eqb_eq in Hl. clear -Hl Hh Hg Hf. destruct gs as [|a [|b [|]]]; try done.
    apply elem_of_cons in Hg as [->|Hg]; [congruence|]. by apply list_elem_of_singleton in Hg as ->.
  - lia.
  - lia.
  - split; simpl; [lia| |by rewrite length_replicate| |by intros g ?%not_elem_of_nil].
    + right. split; [done|]. intros g Hg i Hi'. apply lookup_replicate_2. by eapply Hids.
    + intros g Hg _. left. split; [|apply not_elem_of_nil]. intros i Hi'.
      apply lookup_replicate_2. by eapply Hids.
  - rewrite E. cbn [obind]. pose proof (agreed_answer len _ Hag) as Hans. clear -Hans Hne.
    destruct gs as [|g gs']; [done|]. eauto.
Qed.
End loop.
End group_lookup.

(** C31: the hybrid lookup always returns, whatever the order in which the groups
    shorten the candidate: the fixed-point loop converges, the hit length lies
    within the requested one and is a multiple of every block size, and each
    group can resume there, holding for every position its attention still reads
    the block cached under the request's hash of that position (null or cached
    blocks elsewhere) and, except for a second full-attention spec, exactly the
    blocks of the hit. *)
Theorem hybrid_lookup_converges p st hi D hash_block_size lcm hashes max_length num_groups gs :
  pool_inv p st hi D → 0 < hash_block_size → 0 < lcm → 0 ≤ max_length →
  max_length / hash_block_size ≤ zlen hashes →
  gs ≠ [] → Forall (group_ok hash_block_size lcm) gs →
  (∀ g i, g ∈ gs → i ∈ group_ids g → (Z.to_nat i < num_groups)%nat) →
  (∀ j k g h i, gs !! j = Some g → gs !! k = Some h → i ∈ group_ids g → i ∈ group_ids h → j = k) →
  ∃ blocks hit_length boundary,
    hybrid_find_longest_cache_hit p hash_block_size lcm hashes max_length num_groups gs
      = Ret (blocks, hit_length, boundary) ∧
    hit_answer p hash_block_size lcm hashes max_length num_groups gs hit_length blocks.
Proof. intros. by eapply hybrid_lookup_ok. Qed.

Definition demo_groups : list SpecGroup :=
  [ mkSpecGroup (mkSpec FullAttentionSpec 2 true) 0 [7] FullAttentionManager false;
    mkSpecGroup (mkSpec (SlidingWindowSpec 3) 4 true) 0 [3; 5] SlidingWindowManager true;
    mkSpecGroup (mkSpec (MambaSpec "align" 0) 4 false) 0 [4] MambaManager true ].

Lemma demo_groups_ok : Forall (group_ok 2 4) demo_groups.
Proof.
  assert (Hd : (2 | 4)) by by exists 2.
  repeat constructor; simpl; try done; try lia; try set_solver.
Qed.

Lemma hybrid_lookup_converges_witness : ∃ p blocks hit_length boundary,
  hybrid_find_longest_cache_hit p 2 4 [[x01]; [x02]; [x03]] 7 8 demo_groups
    = Ret (blocks, hit_length, boundary) ∧ length blocks = 8%nat ∧ hash p 1%nat = Some (group_key [x01] 7).
Proof.
  destruct cached_demo_exists as [p H]. exists p.
  destruct (hybrid_lookup_converges p [] [3]%nat [] 2 4 [[x01]; [x02]; [x03]] 7 8 demo_groups (cd_inv _ H))
    as (blocks & len & boundary & E & Hans); try done.
  - exact demo_groups_ok.
  - intros g i Hg Hi. unfold demo_groups in Hg. rewrite !elem_of_cons, elem_of_nil in Hg.
    destruct Hg as [->|[->|[->|[]]]]; simpl in Hi; rewrite ?elem_of_cons, ?elem_of_nil in Hi; lia.
  - intros j k g h i Hj Hk Hi1 Hi2. unfold demo_groups in *.
    destruct j as [|[|[|j]]], k as [|[|[|k]]]; simpl in *; simplify_eq/=; try done;
      rewrite ?elem_of_cons, ?elem_of_nil in *; lia.
  - exists blocks, len, boundary. split; [exact E|]. split; [apply Hans|exact (cd_hash1 _ H)].
Defined.
