(* ===== verification/CoordinatorInv.v ===== *)
(** * Reference conservation across the managers of a coordinator

    All managers of a coordinator share one block pool.  The reference count of
    a block is the number of table entries naming it, summed over the managers,
    and every operation of the coordinator keeps it so. *)

From Stdlib Require Import Strings.Byte.
From S2P Require Import Prelude.
From S2P Require Import FreeQueue.
From S2P Require Import Request.
From S2P Require Import BlockHash.
From S2P Require Import BlockPool.
From S2P Require Import BlockPoolInv.
From S2P Require Import BlockPoolSpec.
From S2P Require Import BlockPoolOps.
From S2P Require Import BlockPoolProps.
From S2P Require Import KVCacheSpec.
From S2P Require Import SingleType.
From S2P Require Import CacheHit.
From S2P Require Import SingleTypeSpec.
From S2P Require Import SingleTypeOps.
From S2P Require Import SingleTypeTheorems.
From S2P Require Import Coordinator.
Local Open Scope Z_scope.

(** The table entries naming [b], over all managers. *)
Definition held (ms : list Manager) (b : loc) : Z :=
  foldr (λ m acc, owned m b + acc) 0 ms.

Lemma held_nonneg ms b : 0 ≤ held ms b.
Proof. induction ms; simpl; [done|]. pose proof (entries_nonneg (req_to_blocks a) b). lia. Qed.

Lemma held_insert ms i m m' b :
  ms !! i = Some m → held (<[i := m']> ms) b = held ms b + owned m' b - owned m b.
Proof.
  revert i. induction ms as [|x ms IH]; intros [|i] E; simpl in *; simplify_eq; [lia|].
  rewrite (IH i) by done. lia.
Qed.

Lemma held_lookup ms i m b : ms !! i = Some m → owned m b ≤ held ms b.
Proof.
  revert i. induction ms as [|x ms IH]; intros [|i] E; simpl in *; simplify_eq.
  - pose proof (held_nonneg ms b). lia.
  - specialize (IH i E). pose proof (entries_nonneg (req_to_blocks x) b). lia.
Qed.

Section outside.
(** The references held by others than the managers. *)
Context (ext : loc → Z) (Hext : ∀ b, 0 ≤ ext b).

Record coord_inv (c : Coordinator) : Prop := {
  ci_pool : ∃ st hi, pool_inv (coord_pool c) st hi [];
  ci_managers : ∀ i m, single_type_managers c !! i = Some m → mgr_inv (MState m (coord_pool c));
  ci_refs : ∀ b, b ∈ blocks (coord_pool c) → b ≠ null_block (coord_pool c) →
    ref (coord_pool c) b = held (single_type_managers c) b + ext b;
}.

Definition same_args (m m' : Manager) : Prop := mgr_args m' = mgr_args m.

#[export] Instance same_args_preorder : PreOrder same_args.
Proof. unfold same_args. split; [by intros m|]. intros m1 m2 m3 H1 H2. congruence. Qed.

(** What no operation on requests changes. *)
Record coord_same (c c' : Coordinator) : Prop := {
  cs_pool : same_pool (coord_pool c) (coord_pool c');
  cs_managers : Forall2 same_args (single_type_managers c) (single_type_managers c');
  cs_class : coord_class c' = coord_class c;
  cs_eagle : eagle_group_ids c' = eagle_group_ids c;
}.

#[export] Instance coord_same_preorder : PreOrder coord_same.
Proof.
  split.
  - intros c. split; [reflexivity|reflexivity|done..].
  - intros c1 c2 c3 [P1 M1 C1 E1] [P2 M2 C2 E2]. split; [by etransitivity|by etransitivity|congruence..].
Qed.

Definition coord_good (c c' : Coordinator) : Prop := coord_inv c' ∧ coord_same c c'.

Lemma coord_good_refl c : coord_inv c → coord_good c c.
Proof. by split. Qed.

Lemma coord_good_trans c1 c2 c3 : coord_good c1 c2 → coord_good c2 c3 → coord_good c1 c3.
Proof. intros [_ H1] [? H2]. split; [done|by etransitivity]. Qed.

(** One manager steps, the others keep their tables. *)
Lemma put_manager_good c i m s' :
  coord_inv c → single_type_managers c !! i = Some m → good (MState m (coord_pool c)) s' →
  coord_good c (set_pool (block_pool s') (set_managers (<[i := mgr s']> (single_type_managers c)) c)).
Proof.
  intros [Hp Hm Hr] Ei [Hinv [Hsame Hargs Hrefs]]. simpl in *.
  destruct (same_pool_blocks _ _ Hsame) as [Eb En].
  assert (Hr' : ∀ b, b ∈ blocks (block_pool s') → b ≠ null_block (block_pool s') →
    ref (block_pool s') b = held (<[i := mgr s']> (single_type_managers c)) b + ext b).
  { intros b Hb Hn. rewrite Eb in Hb. rewrite En in Hn. rewrite (held_insert _ _ m) by done.
    specialize (Hrefs b Hb Hn). specialize (Hr b Hb Hn). lia. }
  split; [split|split]; simpl; try done.
  - by apply mi_pool in Hinv.
  - intros j mj Ej. destruct (decide (i = j)) as [->|Hij].
    { rewrite list_lookup_insert_eq in Ej by (by eapply lookup_lt_Some). simplify_eq. by destruct s'. }
    pose proof Ej as Ej'. rewrite list_lookup_insert_ne in Ej by done. destruct (Hm j mj Ej) as [_ Hnull Ht _ Hsp Hal Hla Hal'].
    split; simpl in *; try done.
    + by apply mi_pool in Hinv.
    + congruence.
    + intros rid l Hl. eapply table_ok_same; [done|]. by eapply Ht.
    + intros b Hb Hn. rewrite Hr' by done. pose proof (held_lookup _ _ _ b Ej'). specialize (Hext b). lia.
  - apply Forall2_same_length_lookup. split; [by rewrite length_insert|].
    intros j m1 m2 E1 E2. destruct (decide (i = j)) as [->|Hij].
    + rewrite list_lookup_insert_eq in E2 by (by eapply lookup_lt_Some). by simplify_eq.
    + rewrite list_lookup_insert_ne in E2 by done. by simplify_eq.
Qed.

(** A method of one manager that keeps its invariant keeps the coordinator's. *)
Abbreviation cgood c := (λ _ c', coord_good c c').

Lemma on_manager_keeps {A} c i (f : M mstate A) :
  coord_inv c →
  (∀ m, single_type_managers c !! i = Some m →
     wpe f (MState m (coord_pool c)) (λ _ s', good (MState m (coord_pool c)) s')
       (λ _ s', good (MState m (coord_pool c)) s')) →
  wpe (on_manager i f) c (cgood c) (cgood c).
Proof.
  intros Hi Hf. unfold on_manager, wpe. destruct (_ !! i) as [m|] eqn:E; [|by apply coord_good_refl].
  specialize (Hf m eq_refl). unfold wpe in Hf. destruct (f _) as [[a|e] s']; by eapply put_manager_good.
Qed.

(** The condition of a per-manager call, stable under the coordinator's steps. *)
Definition stable_at (c : Coordinator) (P : nat → mstate → Prop) : Prop :=
  ∀ c' i m, coord_good c c' → single_type_managers c' !! i = Some m → P i (MState m (coord_pool c')).

Lemma each_manager_keeps {A} c (f : nat → Manager → M mstate A) (P : nat → mstate → Prop) :
  coord_inv c → stable_at c P →
  (∀ i s, mgr_inv s → P i s → wpe (f i (mgr s)) s (λ _ s', good s s') (λ _ s', good s s')) →
  wpe (each_manager f) c (cgood c) (cgood c).
Proof.
  intros Hi Hst Hf. unfold each_manager. wpe_step. wpe_step.
  assert (Hl : ∀ l c1, coord_good c c1 →
    wpe (mapM_list (λ i, on_manager i (s ← get; f i (mgr s))) l) c1 (cgood c) (cgood c)).
  2:{ apply Hl. by apply coord_good_refl. }
  induction l as [|i l IH]; intros c1 Hc1; cbn [mapM_list]; [by wpe_step|].
  destruct Hc1 as [Hi1 Hs1]. wpe_step. eapply wpe_mono.
  - apply on_manager_keeps; [done|]. intros m Em. wpe_step. wpe_step.
    apply Hf; [by eapply ci_managers|]. by apply Hst.
  - intros a c2 [Hi2 Hs2]. assert (Hc2 : coord_good c c2) by (split; [done|by etransitivity]).
    wpe_step. eapply wpe_mono; [by apply IH| |by intros]. intros x c3 Hc3. by wpe_step.
  - intros e c2 [Hi2 Hs2]. split; [done|by etransitivity].
Qed.

(** ** The operations *)

Lemma coord_good_manager c c' i m' :
  coord_good c c' → single_type_managers c' !! i = Some m' →
  ∃ m, single_type_managers c !! i = Some m ∧ mgr_args m' = mgr_args m ∧
    same_pool (coord_pool c) (coord_pool c').
Proof.
  intros [_ [Hp Hm _ _]] E. destruct (Forall2_lookup_r _ _ _ _ _ Hm E) as (m & E1 & H1). by exists m.
Qed.

Lemma computed_ok_stable c (computed : list (list loc)) local external :
  (∀ i m bs, single_type_managers c !! i = Some m → computed !! i = Some bs →
     computed_ok (MState m (coord_pool c)) bs local external) →
  stable_at c (λ i s, ∀ bs, computed !! i = Some bs → computed_ok s bs local external).
Proof.
  intros H c' i m' Hg E bs Hbs. destruct (coord_good_manager _ _ _ _ Hg E) as (m & Em & Ea & Hp).
  destruct (H i m bs Em Hbs) as (H1 & H2). split; [by eapply table_ok_same|].
  unfold get_num_skipped_tokens in *. simpl in *. by rewrite Ea.
Qed.

Lemma block_size_stable c :
  (∀ m : Manager, m ∈ single_type_managers c → 0 < m_block_size m) →
  stable_at c (λ _ s, 0 < m_block_size (mgr s)).
Proof.
  intros H c' i m' Hg E. destruct (coord_good_manager _ _ _ _ Hg E) as (m & Em & Ea & Hp).
  simpl. rewrite Ea. apply H. by eapply list_elem_of_lookup_2.
Qed.

Lemma true_stable c : stable_at c (λ _ _, True).
Proof. done. Qed.

Lemma coord_good_fields c c' :
  coord_inv c → coord_pool c' = coord_pool c → single_type_managers c' = single_type_managers c →
  coord_class c' = coord_class c → eagle_group_ids c' = eagle_group_ids c → coord_good c c'.
Proof.
  intros [H1 H2 H3] Ep Em Ec Ee. split; split; rewrite ?Ep, ?Em; done.
Qed.

Section operations.
Context (sha256 : bytes → bytes) (use_int : bool).

(** One call of an operation of the coordinator, ending normally or with an
    exception, under the conditions its callers keep. *)
Inductive coord_step (c : Coordinator) : Coordinator → Prop :=
  | cstep_lookup hashes n o c' :
      coord_find_longest_cache_hit hashes n c = (o, c') → coord_step c c'
  | cstep_predict rid n computed enc total n_main cap o c' :
      get_num_blocks_to_allocate rid n computed enc total n_main cap c = (o, c') → coord_step c c'
  | cstep_allocate_computed rid computed local external o c' :
      (∀ i m bs, single_type_managers c !! i = Some m → computed !! i = Some bs →
         computed_ok (MState m (coord_pool c)) bs local external) →
      allocate_new_computed_blocks use_int rid computed local external c = (o, c') → coord_step c c'
  | cstep_allocate rid n n_main enc o c' :
      0 < n_main → (∀ m : Manager, m ∈ single_type_managers c → 0 < m_block_size m) →
      allocate_new_blocks use_int rid n n_main enc c = (o, c') → coord_step c c'
  | cstep_cache i m (r : Request) n alignment o c' :
      single_type_managers c !! i = Some m →
      cache_call_ok sha256 (MState m (coord_pool c)) r (n / m_block_size m) →
      _cache_manager_blocks sha256 use_int i m r n alignment c = (o, c') → coord_step c c'
  | cstep_free rid o c' : free rid c = (o, c') → coord_step c c'
  | cstep_remove_skipped rid n num_prompt o c' :
      (∀ m : Manager, m ∈ single_type_managers c → 0 < m_block_size m) →
      (∀ k, num_prompt = Some k → 0 ≤ k) →
      remove_skipped_blocks rid n num_prompt c = (o, c') → coord_step c c'
  | cstep_common_prefix rid o c' : get_num_common_prefix_blocks rid c = (o, c') → coord_step c c'
  | cstep_new_step o c' : new_step_starts c = (o, c') → coord_step c c'.

Abbreviation ckeeps m c := (wpe m c (cgood c) (cgood c)).

Lemma bind_tt_ckeeps {A} (m : M Coordinator A) c : ckeeps m c → ckeeps (m ;; mret tt) c.
Proof. intros H. wpe_step. exact H. Qed.

(** A manager method, as the step relation of the managers describes it. *)
Lemma manager_call_keeps {A} (f : M mstate A) s :
  mgr_inv s → (∀ o s', f s = (o, s') → manager_step sha256 use_int s s') →
  wpe f s (λ _ s', good s s') (λ _ s', good s s').
Proof.
  intros Hi Hf. unfold wpe. destruct (f s) as [o s'] eqn:E.
  assert (Hg : good s s') by (eapply manager_step_good; [done|by eapply Hf]). by destruct o.
Qed.

Lemma coord_lookup_keeps c hashes n : coord_inv c → ckeeps (coord_find_longest_cache_hit hashes n) c.
Proof.
  intros Hi. unfold coord_find_longest_cache_hit. wpe_step. wpe_step.
  assert (Hout : ∀ {A} c1 (o : outcome A) Q, coord_good c c1 → (∀ a, wpe (Q a) c1 (cgood c) (cgood c)) →
    wpe (of_outcome o ≫= Q : M Coordinator (list (list loc) * Z)) c1 (cgood c) (cgood c)).
  { intros A c1 o Q Hc HQ. wpe_step. destruct o; [apply HQ|exact Hc]. }
  destruct (coord_class c) as [|spec bs dcp pcp|hbs gs lcm].
  - wpe_step. by apply coord_good_refl.
  - pose proof (coord_good_refl c Hi) as Hc. wpe_step. apply wpe_of_option; [|done]. intros m _.
    wpe_step. apply wpe_of_option; [|done]. intros cls _.
    apply Hout; [done|]. intros hb. apply Hout; [done|]. intros first. by wpe_step.
  - wpe_step. wpe_step. apply Hout; [by apply coord_good_fields|]. intros [[bl hl] bd].
    wpe_step. wpe_step. wpe_step. by apply coord_good_fields.
Qed.

Lemma group_blocks_keeps {A} s (computed : list (list loc)) i (f : list loc → M mstate A) :
  mgr_inv s →
  (∀ bs, computed !! i = Some bs → wpe (f bs) s (λ _ s', good s s') (λ _ s', good s s')) →
  wpe (group_blocks computed i ≫= f) s (λ _ s', good s s') (λ _ s', good s s').
Proof.
  intros Hi Hf. wpe_step. apply wpe_of_option; [done|]. intros _. by apply good_refl.
Qed.

Lemma coord_predict_keeps c rid n computed enc total n_main cap :
  coord_inv c → ckeeps (get_num_blocks_to_allocate rid n computed enc total n_main cap) c.
Proof.
  intros Hi. unfold get_num_blocks_to_allocate. wpe_step. eapply wpe_mono.
  - apply (each_manager_keeps c _ (λ _ _, True)); [done..|]. intros i s Hs _.
    destruct (isinstance_cross _).
    + apply manager_call_keeps; [done|]. intros. by eapply step_predict.
    + apply group_blocks_keeps; [done|]. intros bs _.
      apply manager_call_keeps; [done|]. intros. by eapply step_predict.
  - intros ds c1 Hc1. wpe_step. wpe_step. cbv zeta. case_match; by wpe_step.
  - by intros.
Qed.

Lemma coord_allocate_computed_keeps c rid computed local external :
  coord_inv c →
  (∀ i m bs, single_type_managers c !! i = Some m → computed !! i = Some bs →
     computed_ok (MState m (coord_pool c)) bs local external) →
  ckeeps (allocate_new_computed_blocks use_int rid computed local external) c.
Proof.
  intros Hi Hc. apply bind_tt_ckeeps.
  eapply each_manager_keeps; [done|by apply computed_ok_stable|]. intros i s Hs Hok.
  apply group_blocks_keeps; [done|]. intros bs Hbs.
  apply manager_call_keeps; [done|]. intros. eapply step_allocate_computed; [|done]. by apply Hok.
Qed.

Lemma coord_allocate_keeps c rid n n_main enc :
  coord_inv c → 0 < n_main → (∀ m : Manager, m ∈ single_type_managers c → 0 < m_block_size m) →
  ckeeps (allocate_new_blocks use_int rid n n_main enc) c.
Proof.
  intros Hi Hn Hbs. eapply each_manager_keeps; [done|by apply block_size_stable|].
  intros i s Hs Hb. apply manager_call_keeps; [done|]. intros. by eapply step_allocate.
Qed.

Lemma coord_cache_keeps c i m (r : Request) n alignment :
  coord_inv c → single_type_managers c !! i = Some m →
  cache_call_ok sha256 (MState m (coord_pool c)) r (n / m_block_size m) →
  ckeeps (_cache_manager_blocks sha256 use_int i m r n alignment) c.
Proof.
  intros Hi Em Hc. unfold _cache_manager_blocks. wpe_step. wpe_step.
  assert (H : ∀ al ri bounds,
    ckeeps (on_manager i (Manager.cache_blocks sha256 use_int r n al ri bounds)) c).
  { intros al ri bounds. apply on_manager_keeps; [done|]. intros m' Em'. simplify_eq.
    apply manager_call_keeps; [by eapply ci_managers|]. intros. by eapply step_cache. }
  destruct (isinstance_mamba m); apply H.
Qed.

Lemma coord_free_keeps c rid : coord_inv c → ckeeps (free rid) c.
Proof.
  intros Hi. apply bind_tt_ckeeps. apply (each_manager_keeps c _ (λ _ _, True)); [done..|].
  intros i s Hs _. apply manager_call_keeps; [done|]. intros. by eapply step_free.
Qed.

Lemma coord_remove_skipped_keeps c rid n np :
  coord_inv c → (∀ m : Manager, m ∈ single_type_managers c → 0 < m_block_size m) →
  (∀ k, np = Some k → 0 ≤ k) → ckeeps (remove_skipped_blocks rid n np) c.
Proof.
  intros Hi Hbs Hnp. apply bind_tt_ckeeps.
  eapply each_manager_keeps; [done|by apply block_size_stable|].
  intros i s Hs Hb. apply manager_call_keeps; [done|]. intros. by eapply step_remove_skipped.
Qed.

Lemma coord_common_prefix_keeps c rid : coord_inv c → ckeeps (get_num_common_prefix_blocks rid) c.
Proof.
  intros Hi. unfold get_num_common_prefix_blocks. wpe_step. wpe_step.
  assert (H : ckeeps (each_manager (λ _ _, Manager.get_num_common_prefix_blocks rid)) c).
  { apply (each_manager_keeps c _ (λ _ _, True)); [done..|]. intros i s Hs _.
    apply manager_call_keeps; [done|]. intros. by eapply step_common_prefix. }
  destruct (coord_class c); [wpe_step; by apply coord_good_refl|exact H..].
Qed.

Lemma coord_new_step_keeps c : coord_inv c → ckeeps new_step_starts c.
Proof.
  intros Hi. apply bind_tt_ckeeps. apply (each_manager_keeps c _ (λ _ _, True)); [done..|].
  intros i s Hs _. apply manager_call_keeps; [done|]. intros. by eapply step_new_step.
Qed.

Lemma coord_step_good c c' : coord_inv c → coord_step c c' → coord_good c c'.
Proof.
  intros Hi Hstep. destruct Hstep as
    [hs n o c' E|rid n cp enc t nm cap o c' E|rid cp l e o c' Hc E|rid n nm enc o c' Hn Hb E
    |i m r n al o c' Em Hc E|rid o c' E|rid n np o c' Hb Hnp E|rid o c' E|o c' E];
    (eapply wpe_result; [|exact E]).
  - by apply coord_lookup_keeps.
  - by apply coord_predict_keeps.
  - by apply coord_allocate_computed_keeps.
  - by apply coord_allocate_keeps.
  - by apply coord_cache_keeps.
  - by apply coord_free_keeps.
  - by apply coord_remove_skipped_keeps.
  - by apply coord_common_prefix_keeps.
  - by apply coord_new_step_keeps.
Qed.

Lemma coord_steps_good c c' : coord_inv c → rtc coord_step c c' → coord_good c c'.
Proof.
  intros Hi Hs. induction Hs as [c|c c1 c2 Hc _ IH]; [by apply coord_good_refl|].
  pose proof (coord_step_good _ _ Hi Hc) as Hg. eapply coord_good_trans; [exact Hg|]. apply IH, Hg.
Qed.
End operations.
End outside.

(** ** A new coordinator *)

(** No table, no reference. *)
Record coord_fresh (c : Coordinator) : Prop := {
  cf_pool : ∃ st hi, pool_inv (coord_pool c) st hi [];
  cf_refs : ∀ b, b ∈ blocks (coord_pool c) → ref (coord_pool c) b = 0;
  cf_managers : ∀ m, m ∈ single_type_managers c →
    mgr_inv (MState m (coord_pool c)) ∧ req_to_blocks m = ∅;
}.

Lemma fresh_inv c : coord_fresh c → coord_inv (λ _, 0) c.
Proof.
  intros [Hp Hr Hm]. split; [done| |].
  - intros i m E. apply Hm. by eapply list_elem_of_lookup_2.
  - intros b Hb _. rewrite Hr by done. clear Hr. induction (single_type_managers c) as [|m ms IH]; [done|].
    simpl. destruct (Hm m) as [_ ->]; [by left|]. rewrite entries_empty, <-Z.add_assoc, <-IH; [done|].
    intros m' Hm'. apply Hm. by right.
Qed.

Lemma mgr_inv_args m p a :
  mgr_inv (MState m p) → _null_block a = _null_block m → kv_cache_spec a = kv_cache_spec m →
  mgr_inv (MState (set_mgr_args a m) p).
Proof.
  intros [] En Es. unfold Mamba.num_speculative_blocks, Mamba.is_align, req_blocks in *.
  split; simpl in *; unfold Mamba.num_speculative_blocks, Mamba.is_align, req_blocks in *; simpl in *;
    rewrite ?En, ?Es; done.
Qed.

(** The managers a constructor may build: no sink class. *)
Definition spec_ok (spec : KVCacheSpec) : Prop :=
  (∀ k, spec_type spec ≠ SinkFullAttentionSpec k) ∧
  (∀ mode k, spec_type spec = MambaSpec mode k → 0 ≤ k).

Lemma new_managers_fresh in_flight max_len caching dcp pcp p st hi :
  pool_inv p st hi [] → ∀ (l : list (Z * KVCacheGroupSpec)) ms p',
  (∀ e, e ∈ l → spec_ok (group_spec e.2)) →
  mapM_list (λ e, get_manager_for_kv_cache_spec (group_spec e.2) in_flight max_len caching e.1 dcp pcp) l p
    = (Ret ms, p') →
  p' = p ∧ ∀ m, m ∈ ms → mgr_inv (MState m p) ∧ req_to_blocks m = ∅.
Proof.
  intros Hp. induction l as [|e l IH]; intros ms p' Hok E; cbn [mapM_list] in E.
  { unfold mret, M_ret in E. simplify_eq. split; [done|]. by intros m ?%not_elem_of_nil. }
  unfold mbind, M_bind, mret, M_ret in E.
  destruct (get_manager_for_kv_cache_spec _ _ _ _ _ _ _ p) as [[m|] p1] eqn:Em; [|done].
  destruct (Hok e) as [Hs1 Hs2]; [by left|].
  destruct (new_manager_inv _ _ _ _ _ _ _ _ _ _ _ _ _ Hs1 Hs2 Hp Em eq_refl) as (-> & Hm & He).
  destruct (mapM_list _ l p) as [[ms1|] p2] eqn:El; [|done]. simplify_eq.
  destruct (IH ms1 p') as [-> Hms]; [intros e' He'; apply Hok; by right|done|].
  split; [done|]. intros m' [->|Hm']%elem_of_cons; [done|by apply Hms].
Qed.

Lemma base_init_fresh cls config max_len in_flight eagle caching events dcp pcp hbs coll c :
  (∀ g, g ∈ kv_cache_groups config → spec_ok (group_spec g)) →
  KVCacheCoordinator_init cls config max_len in_flight eagle caching events dcp pcp hbs coll = Ret c →
  coord_fresh c.
Proof.
  intros Hok E. unfold KVCacheCoordinator_init in E.
  destruct (Pool.init _ _ _ _ _ _ _) as [p|] eqn:Ep; [|done]. cbn [obind] in E.
  destruct (mapM_list _ _ p) as [[ms|] p'] eqn:Em; [|done]. simplify_eq.
  destruct (decide (0 < num_blocks config)) as [Hn|Hn].
  2:{ unfold Pool.init in Ep. by rewrite (proj2 (Z.ltb_ge 0 (num_blocks config))) in Ep by lia. }
  assert (Hds : device_state_blocks config = 0 ∨ 1 < device_state_blocks config < num_blocks config).
  { unfold Pool.init in Ep. rewrite (proj2 (Z.ltb_lt 0 (num_blocks config))) in Ep by done.
    cbn [negb] in Ep. destruct (Pool.alloc_blocks _) as [bs h].
    destruct (FreeQueue.popleft _) as [[nl|] s]; [|done].
    destruct (Z.eqb_spec (device_state_blocks config) 0); [by left|]. cbn [negb] in Ep. right.
    destruct (Z.ltb_spec 1 (device_state_blocks config)), (Z.ltb_spec (device_state_blocks config) (num_blocks config));
      done. }
  destruct (init_ok (num_blocks config) caching hbs events coll (device_state_blocks config)
    (device_state_group_ids config) Hn Hds) as (p0 & E0 & Hi & _ & _ & _ & _ & _ & Hfresh & _).
  rewrite Ep in E0. simplify_eq.
  eapply new_managers_fresh in Em as [-> Hms]; [|exact Hi|].
  2:{ intros [z g] He. apply Hok. by apply elem_of_zip_r in He. }
  split; simpl; [by eexists _, _|intros b Hb; by apply Hfresh|done].
Qed.

(** The constructors of the subclasses only set attributes of the managers. *)
Definition retuned (m m' : Manager) : Prop :=
  ∃ a, m' = set_mgr_args a m ∧ _null_block a = _null_block m ∧ kv_cache_spec a = kv_cache_spec m.

Lemma set_use_eagle_retuned v m : retuned m (set_use_eagle v m).
Proof. by eexists. Qed.

Lemma retuned_trans m1 m2 m3 : retuned m1 m2 → retuned m2 m3 → retuned m1 m3.
Proof. intros (a & -> & H1 & H2) (b & -> & H3 & H4). exists b. simpl in *. split; [done|]. split; congruence. Qed.

Lemma fresh_retuned c c' :
  coord_fresh c → coord_pool c' = coord_pool c →
  (∀ m', m' ∈ single_type_managers c' → ∃ m, m ∈ single_type_managers c ∧ (m' = m ∨ retuned m m')) →
  coord_fresh c'.
Proof.
  intros [Hp Hr Hm] Ep Hall. split; rewrite Ep; [done|done|]. intros m' Hm'.
  destruct (Hall m' Hm') as (m & Hin & Heq). destruct (Hm m Hin) as [Hi He].
  destruct Heq as [->|(a & -> & H1 & H2)]; [done|]. split; [by apply mgr_inv_args|done].
Qed.

Lemma unitary_init_fresh dcp pcp hbs c :
  coord_fresh c → wpe (Unitary_init dcp pcp hbs) c (λ _ c', coord_fresh c') (λ _ _, True).
Proof.
  intros Hf. unfold Unitary_init. wpe_step. wpe_step. wpe_step. apply wpe_of_option; [|done]. intros g _.
  cbv zeta. wpe_step. wpe_step. wpe_step. apply wpe_assert; [|done]. intros _.
  wpe_step. apply wpe_assert; [|done]. intros _. wpe_step. apply wpe_of_option; [|done]. intros m Hm.
  wpe_step. eapply fresh_retuned; [exact Hf|done|]. simpl. intros m' Hm'.
  destruct (single_type_managers c) as [|m0 ms]; simpl in *; [done|]. simplify_eq.
  apply elem_of_cons in Hm' as [->|Hm'].
  - exists m. split; [by left|]. right. apply set_use_eagle_retuned.
  - exists m'. split; [by right|by left].
Qed.

Lemma hybrid_init_fresh dcp pcp hbs c :
  coord_fresh c → wpe (Hybrid_init dcp pcp hbs) c (λ _ c', coord_fresh c') (λ _ _, True).
Proof.
  intros Hf. unfold Hybrid_init. wpe_step. wpe_step. wpe_step. apply wpe_assert; [|done]. intros _.
  wpe_step. apply wpe_assert; [|done]. intros _. wpe_step.
  assert (Hv : wpe (verify_and_split_kv_cache_groups hbs) c (λ _ c', coord_fresh c') (λ _ _, True)).
  2:{ apply wpe_when; intros _; [|exact Hv]. apply wpe_assert; [by intros|done]. }
  unfold verify_and_split_kv_cache_groups. wpe_step. wpe_step. wpe_step.
  destruct (split_groups _ _ _ _ _) as [gs|]; [|done]. cbn [of_outcome]. wpe_step. wpe_step. apply wpe_assert; [|done]. intros _.
  cbv zeta. wpe_step. wpe_step. wpe_step. eapply fresh_retuned; [exact Hf|done|]. simpl.
  intros m' [i Hi]%list_elem_of_lookup. rewrite list_lookup_imap in Hi.
  destruct (single_type_managers c !! i) as [m|] eqn:Em; [|done]. simplify_eq/=.
  exists m. split; [by eapply list_elem_of_lookup_2|]. right. case_decide; by eexists.
Qed.

Lemma new_coordinator_fresh config max_len in_flight eagle caching events dcp pcp hbs coll c :
  (∀ g, g ∈ kv_cache_groups config → spec_ok (group_spec g)) →
  get_kv_cache_coordinator config max_len in_flight eagle caching events dcp pcp hbs coll = Ret c →
  coord_fresh c.
Proof.
  intros Hok E. unfold get_kv_cache_coordinator in E.
  assert (Hafter : ∀ (m : M Coordinator unit) base,
    (∀ c0, base = Ret c0 → wpe m c0 (λ _ c', coord_fresh c') (λ _ _, True)) →
    after_base m base = Ret c → coord_fresh c).
  { intros m [c0|] Hm Ea; [|done]. specialize (Hm c0 eq_refl). unfold after_base, wpe in *. simpl in Ea.
    destruct (m c0) as [[] c1]; by simplify_eq. }
  destruct caching; cbn [negb] in E; [|by eapply base_init_fresh].
  destruct (Nat.eqb _ 1).
  - eapply Hafter; [|exact E]. intros c0 E0. apply unitary_init_fresh. by eapply base_init_fresh.
  - eapply Hafter; [|exact E]. intros c0 E0. apply hybrid_init_fresh. by eapply base_init_fresh.
Qed.

(** C32: build a coordinator over any number of KV-cache groups (none of the sink
    class) and call its operations in any order, raising or not.  Then the
    reference count of every non-null block is the number of table entries
    naming it, summed over all managers, and a block is free exactly when no
    manager of any group holds it: the managers sharing the pool never free or
    hand out a block that another one still uses. *)
Theorem coordinator_conserves sha256 use_int config max_len in_flight eagle caching events dcp pcp hbs coll c0 c :
  (∀ g, g ∈ kv_cache_groups config → spec_ok (group_spec g)) →
  get_kv_cache_coordinator config max_len in_flight eagle caching events dcp pcp hbs coll = Ret c0 →
  rtc (coord_step sha256 use_int) c0 c →
  ∃ st hi, pool_inv (coord_pool c) st hi [] ∧
    ∀ b, b ∈ blocks (coord_pool c) → b ≠ null_block (coord_pool c) →
      ref (coord_pool c) b = held (single_type_managers c) b ∧
      (b ∈ st ++ hi ↔ ∀ m, m ∈ single_type_managers c → owned m b = 0).
Proof.
  intros Hok E Hsteps. apply (new_coordinator_fresh _ _ _ _ _ _ _ _ _ _ _ Hok), fresh_inv in E.
  destruct (coord_steps_good (λ _, 0) ltac:(done) _ _ _ _ E Hsteps) as [[(st & hi & Hp) _ Hr] _].
  exists st, hi. split; [done|]. intros b Hb Hn. specialize (Hr b Hb Hn). rewrite Z.add_0_r in Hr.
  split; [done|].
  pose proof (pi_free _ _ _ _ Hp b) as Hf. rewrite app_nil_r in Hf. rewrite Hf. split.
  - intros (_ & _ & H0) m [i Hi]%list_elem_of_lookup. pose proof (held_lookup _ _ _ b Hi).
    pose proof (entries_nonneg (req_to_blocks m) b). lia.
  - intros H0. split; [done|]. split; [done|]. rewrite Hr. clear Hr.
    induction (single_type_managers c) as [|m ms IH]; [done|]. simpl. rewrite H0 by by left.
    rewrite IH; [done|]. intros m' Hm'. apply H0. by right.
Qed.

(** ** Witness *)

Definition demo_config : KVCacheConfig :=
  mkConfig 8
    [ mkGroup (mkSpec FullAttentionSpec 2 true) 0 false;
      mkGroup (mkSpec (SlidingWindowSpec 3) 4 true) 0 true;
      mkGroup (mkSpec (MambaSpec "align" 0) 4 false) 0 false ] 0 [].

Abbreviation demo_coordinator :=
  (get_kv_cache_coordinator demo_config 16 8 true true true 1 1 2 true).

Lemma demo_coordinator_exists : ∃ c, demo_coordinator = Ret c ∧
  m_block_size <$> (mgr_args <$> single_type_managers c) = [2; 4; 4].
Proof.
  destruct demo_coordinator as [c|e] eqn:E.
  - exists c. split; [done|].
    assert (H : match demo_coordinator with
      | Ret c => m_block_size <$> (mgr_args <$> single_type_managers c) | Raise _ => [] end = [2; 4; 4])
      by by vm_compute.
    by rewrite E in H.
  - assert (H : match demo_coordinator with Ret _ => true | Raise _ => false end = true) by by vm_compute.
    by rewrite E in H.
Qed.

Lemma demo_config_ok g : g ∈ kv_cache_groups demo_config → spec_ok (group_spec g).
Proof.
  simpl. rewrite !elem_of_cons, elem_of_nil. intros [->|[->|[->|[]]]]; (split; [by intros k [=]|]);
    intros mode k [=]; lia.
Qed.

Lemma coordinator_conserves_witness : ∃ c,
  (∃ o c0, demo_coordinator = Ret c0 ∧ allocate_new_blocks false "a" 6 6 0 c0 = (o, c)) ∧
  ∃ st hi, pool_inv (coord_pool c) st hi [] ∧
    ∀ b, b ∈ blocks (coord_pool c) → b ≠ null_block (coord_pool c) →
      ref (coord_pool c) b = held (single_type_managers c) b.
Proof.
  destruct demo_coordinator_exists as (c0 & E & Hbs).
  destruct (allocate_new_blocks false "a" 6 6 0 c0) as [o c] eqn:Ea. exists c. split; [by exists o, c0|].
  destruct (coordinator_conserves id false demo_config 16 8 true true true 1 1 2 true c0 c demo_config_ok E)
    as (st & hi & Hp & Hall).
  - apply rtc_once. eapply (cstep_allocate id false c0 "a" 6 6 0 o c); [lia| |done].
    intros m Hm. assert (Hin : m_block_size m ∈ [2; 4; 4]).
    { rewrite <-Hbs. apply list_elem_of_fmap. exists (mgr_args m). split; [done|].
      apply list_elem_of_fmap. by exists m. }
    rewrite !elem_of_cons, elem_of_nil in Hin. lia.
  - exists st, hi. split; [done|]. intros b Hb Hn. by destruct (Hall b Hb Hn).
Defined.
