(* ===== verification/CoordinatorTheorems.v ===== *)
(** * Theorems about the coordinator

    The retention setting's checks, and two runs of a hybrid coordinator that
    show what its operations do not guarantee. *)

From Stdlib Require Import Strings.Byte.
From S2P Require Import Prelude.
From S2P Require Import FreeQueue.
From S2P Require Import Request.
From S2P Require Import SchedPrefill.
From S2P Require Import BlockHash.
From S2P Require Import BlockPool.
From S2P Require Import KVCacheSpec.
From S2P Require Import SingleType.
From S2P Require Import CacheHit.
From S2P Require Import Coordinator.
Local Open Scope Z_scope.

(** ** configure_prefix_cache_retention *)

Definition mamba_managers (c : Coordinator) : list Manager :=
  filter (λ m, isinstance_mamba m = true) (single_type_managers c).

(** The alignment an interval must be a multiple of. *)
Definition retention_alignment (c : Coordinator) (m0 : Manager) : Z :=
  match coord_class c with Hybrid _ _ lcm => lcm | _ => m_block_size m0 end.

(** The intervals that are refused. *)
Definition bad_interval (c : Coordinator) (interval : option Z) : Prop :=
  match interval with
  | None => False
  | Some v => coord_enable_caching c = true ∧
      match mamba_managers c with
      | [] => v ≠ 0
      | m0 :: _ => v < 0 ∨ v mod retention_alignment c m0 ≠ 0
      end
  end.

(** setting the retention interval raises [ValueError] exactly when caching
    is on and the interval is not zero without a Mamba group, or negative or off
    the alignment with one; it changes no block, no table and no reference; but
    the interval is stored even when it is refused. *)
Theorem configure_retention_errors c interval :
  wpe (configure_prefix_cache_retention interval) c
    (λ _ c', ¬ bad_interval c interval ∧ retention_interval c' = interval ∧
       coord_pool c' = coord_pool c ∧
       req_to_blocks <$> single_type_managers c' = req_to_blocks <$> single_type_managers c)
    (λ e c', e = ValueError ∧ bad_interval c interval ∧ retention_interval c' = interval ∧
       coord_pool c' = coord_pool c ∧
       req_to_blocks <$> single_type_managers c' = req_to_blocks <$> single_type_managers c).
Proof.
  unfold configure_prefix_cache_retention, bad_interval. wpe_step. wpe_step. wpe_step. wpe_step.
  destruct interval as [v|]; [|wpe_step; split; [by intros []|done]]. cbn [set_retention coord_enable_caching single_type_managers].
  destruct (coord_enable_caching c); cbn [negb]; [|wpe_step; split; [by intros [[=]]|done]].
  fold (mamba_managers c). destruct (mamba_managers c) as [|m0 ms].
  { destruct (Z.eqb_spec v 0); cbv iota; wpe_step.
    - split; [by intros [_ ?]|done].
    - split; [done|]. split; [by split|done]. }
  cbn [coord_class set_retention]. fold (retention_alignment c m0).
  wpe_step. wpe_step. 
  assert (Hf : ∀ b, req_to_blocks <$> (set_replay_lookbehind b <$> single_type_managers c) =
    req_to_blocks <$> single_type_managers c).
  { intros b. rewrite <-list_fmap_compose. by apply list_fmap_ext. }
  destruct (Z.ltb_spec v 0); cbn [orb]; cbv iota; [wpe_step; split; [done|]; split; [split; [done|by left]|simpl; auto]|].
  destruct (Z.eqb_spec (v mod retention_alignment c m0) 0); cbn [negb]; cbv iota; wpe_step.
  - split; [intros [_ [?|?]]; [lia|done]|]. simpl. auto.
  - split; [done|]. split; [split; [done|by right]|]. simpl. auto.
Qed.

(** ** A hybrid coordinator with external tokens *)

Definition steal_config : KVCacheConfig :=
  mkConfig 9
    [ mkGroup (mkSpec FullAttentionSpec 2 true) 0 false;
      mkGroup (mkSpec (SlidingWindowSpec 8) 2 true) 0 false ] 0 [].

Definition plain_request (rid : string) (toks : list Z) (hashes : list BlockHash) : Request :=
  set_block_hashes hashes
    (mkRequest (mkArgs rid 0 0 0 None None (Some toks) None None None [] 16 (zlen toks) [] true false false)
       WAITING None [] toks [] 0 0 0 0 0 [] ∅).

(** Requests [x] and [y] are computed, cached and freed; then [z], whose first
    block is cached, is looked up, admitted, and given its two cached tokens
    and two external ones. *)
Definition steal_run : M Coordinator (list (list loc) * Z * Z * Z) :=
  allocate_new_blocks false "x" 2 2 0 ;;
  cache_blocks id false (plain_request "x" [1; 2] [[x01]]) 2 ;;
  allocate_new_blocks false "y" 6 6 0 ;;
  cache_blocks id false (plain_request "y" [3; 4; 5; 6; 7; 8] [[x03]; [x04]; [x05]]) 6 ;;
  free "x" ;;
  free "y" ;;
  hit ← coord_find_longest_cache_hit [[x01]; [x09]] 4;
  needed ← get_num_blocks_to_allocate "z" 4 hit.1 0 4 4 false;
  c ← get;
  allocate_new_computed_blocks false "z" hit.1 2 2 ;;
  mret (hit, needed, Pool.get_num_free_blocks (coord_pool c) None).

(** Run from a new coordinator; the tables of [rid] afterwards. *)
Definition run_new {A} (config : KVCacheConfig) (m : M Coordinator A) (rid : string)
    : outcome (A * list (list loc)) :=
  obind (λ c,
    match m c with
    | (Ret a, c') => Ret (a, get_blocks c' rid)
    | (Raise e, _) => Raise e
    end) (get_kv_cache_coordinator config 16 8 false true false 1 1 2 false).

(** with external tokens the groups of a hybrid coordinator can steal each
    other's hits: the coordinator touches and extends one group before it
    touches the next, so the blocks it takes for the external tokens of the
    first group may be the still unreferenced hit of the second.  In this run
    the lookup hits block 1 for group 0 and block 2 for group 1, admission asks
    for 4 of the 8 free blocks, and afterwards block 2 is in the tables of both
    groups. *)
Theorem external_blocks_steal_hits :
  run_new steal_config steal_run "z" =
    Ret (([[1%nat]; [2%nat]], 2, 4, 8), [[1; 2]; [2; 5]]%nat).
Proof. vm_compute. reflexivity. Qed.

(** ** Two full-attention specs

    Only the first spec group is cut to the final hit length, so a second
    full-attention group keeps blocks beyond it when a later group shortens
    the hit. *)

Definition two_full_config : KVCacheConfig :=
  mkConfig 9
    [ mkGroup (mkSpec FullAttentionSpec 2 true) 0 false;
      mkGroup (mkSpec MLAAttentionSpec 2 true) 0 false;
      mkGroup (mkSpec (MambaSpec "all" 0) 2 false) 0 false ] 0 [].

Definition two_full_run : M Coordinator (list (list loc) * Z) :=
  allocate_new_blocks false "x" 4 4 0 ;;
  cache_blocks id false (plain_request "x" [1; 2; 3; 4] [[x01]; [x02]]) 4 ;;
  zoom coord_pool set_pool (Pool.evict_blocks false [6]) ;;
  coord_find_longest_cache_hit [[x01]; [x02]; [x03]] 5.

Lemma second_full_group_keeps_tail :
  run_new two_full_config two_full_run "x" =
    Ret (([[1]; [3; 4]; [5]]%nat, 2), [[1; 2]; [3; 4]; [5; 6]]%nat).
Proof. vm_compute. reflexivity. Qed.
