(* ===== verification/PartialCache.v ===== *)
(** * Prefix-cache entries that end inside a block

    [vllm/v1/core/partial_prefix_cache.py]: the least-recently-used store of
    partial entries, its index by parent hash, and the references its entries
    hold on blocks of the pool. *)

From Stdlib Require Import Strings.Byte.
From S2P Require Import Prelude.
From S2P Require Import OrderedDict.
From S2P Require Import FreeQueue.
From S2P Require Import BlockPool.
Local Open Scope Z_scope.

(** Parent full-block hash, tail tokens, cache salt, LoRA id. *)
Abbreviation PartialKey := (option bytes * list Z * option string * Z)%type.

Record PartialEntry : Type := mkEntry {
  pe_key : PartialKey;
  pe_length : Z;
  pe_blocks : list (list loc);
  copy_last : list bool;
  ready_step : Z;
}.

(** [PartialEntry.num_blocks] *)
Definition pe_num_blocks (e : PartialEntry) : Z := zsum (zlen <$> pe_blocks e).

Record PartialPrefixCache : Type := mkPartial {
  max_blocks : Z;
  pc_entries : list (PartialKey * PartialEntry);
  by_parent : gmap (option bytes) (gset PartialKey);
  pc_num_blocks : Z;
}.

(** The cache and the block pool it refers to. *)
Record pcstate : Type := PCState { pcache : PartialPrefixCache; pc_pool : BlockPool }.

Definition upd_pc (f : PartialPrefixCache → PartialPrefixCache) : M pcstate unit :=
  modify (λ s, PCState (f (pcache s)) (pc_pool s)).
Definition on_pc_pool {A} (m : M BlockPool A) : M pcstate A :=
  zoom pc_pool (λ p s, PCState (pcache s) p) m.

Module Partial.

Definition empty (max : Z) : PartialPrefixCache := mkPartial max [] ∅ 0.

Definition contains (c : PartialPrefixCache) (key : PartialKey) : bool := od_mem key (pc_entries c).

(** [siblings.discard(key)], deleting an empty set *)
Definition drop_sibling (key : PartialKey) (m : gmap (option bytes) (gset PartialKey))
    : gmap (option bytes) (gset PartialKey) :=
  match m !! key.1.1.1 with
  | None => m
  | Some siblings =>
      let siblings := siblings ∖ {[key]} in
      if decide (siblings = ∅) then delete key.1.1.1 m else <[key.1.1.1 := siblings]> m
  end.

Definition _remove (key : PartialKey) : M pcstate unit :=
  s ← get;
  entry ← of_option KeyError (od_get key (pc_entries (pcache s)));
  upd_pc (λ c, mkPartial (max_blocks c) (od_del key (pc_entries c))
                 (drop_sibling key (by_parent c)) (pc_num_blocks c - pe_num_blocks entry)) ;;
  on_pc_pool (Pool.free_blocks (concat (pe_blocks entry)) false).

Definition evict_one : M pcstate bool :=
  s ← get;
  match pc_entries (pcache s) with
  | [] => mret false
  | (key, _) :: _ => _remove key ;; mret true
  end.

(** [while self.num_blocks > self.max_blocks and len(self.entries) > 1]; every
    round removes an entry. *)
Fixpoint shrink (fuel : nat) : M pcstate unit :=
  s ← get;
  if (max_blocks (pcache s) <? pc_num_blocks (pcache s)) && (1 <? zlen (pc_entries (pcache s)))
  then
    match fuel with
    | O => raise OutOfFuel
    | S fuel => evict_one ;; shrink fuel
    end
  else mret tt.

(** [self.by_parent.setdefault(key[0], set()).add(key)] *)
Definition add_sibling (key : PartialKey) (m : gmap (option bytes) (gset PartialKey))
    : gmap (option bytes) (gset PartialKey) :=
  <[key.1.1.1 := default ∅ (m !! key.1.1.1) ∪ {[key]}]> m.

Definition insert (entry : PartialEntry) : M pcstate unit :=
  let key := pe_key entry in
  s ← get;
  when (contains (pcache s) key) (_remove key) ;;
  upd_pc (λ c, mkPartial (max_blocks c) (od_set key entry (pc_entries c))
                 (add_sibling key (by_parent c)) (pc_num_blocks c + pe_num_blocks entry)) ;;
  s ← get;
  shrink (length (pc_entries (pcache s))).

(** One key of the lookup's loop. *)
Definition better (tokens : list Z) (block_start max_length : Z) (cache_salt : option string)
    (lora_id current_step : Z) (best : option PartialEntry) (entry : PartialEntry)
    (key : PartialKey) : bool :=
  let '(_, tail, salt, lora) := key in
  negb (current_step <=? ready_step entry) && negb (max_length <? pe_length entry) &&
  bool_decide (salt = cache_salt) && (lora =? lora_id) &&
  match best with Some b => pe_length b <? pe_length entry | None => true end &&
  bool_decide (py_slice tokens block_start (block_start + zlen tail) = tail).

(** The keys of the parent's set, in the order the iteration visits them. *)
Fixpoint lookup_loop (entries : list (PartialKey * PartialEntry)) (tokens : list Z)
    (block_start max_length : Z) (cache_salt : option string) (lora_id current_step : Z)
    (keys : list PartialKey) (best : option PartialEntry) : outcome (option PartialEntry) :=
  match keys with
  | [] => Ret best
  | key :: rest =>
      match od_get key entries with
      | None => Raise KeyError
      | Some entry =>
          lookup_loop entries tokens block_start max_length cache_salt lora_id current_step rest
            (if better tokens block_start max_length cache_salt lora_id current_step best entry key
             then Some entry else best)
      end
  end.

Definition lookup (parent : option bytes) (tokens : list Z) (block_start max_length : Z)
    (cache_salt : option string) (lora_id current_step : Z) : M pcstate (option PartialEntry) :=
  s ← get;
  match lookup_loop (pc_entries (pcache s)) tokens block_start max_length cache_salt lora_id
          current_step (elements (default ∅ (by_parent (pcache s) !! parent))) None with
  | Raise e => raise e
  | Ret None => mret None
  | Ret (Some best) =>
      upd_pc (λ c, mkPartial (max_blocks c) (od_to_end (pe_key best) (pc_entries c))
                     (by_parent c) (pc_num_blocks c)) ;;
      mret (Some best)
  end.

(** [while self.evict_one(): pass] *)
Fixpoint clear_loop (fuel : nat) : M pcstate unit :=
  match fuel with
  | O => raise OutOfFuel
  | S fuel => b ← evict_one; if b : bool then clear_loop fuel else mret tt
  end.

Definition clear : M pcstate unit :=
  s ← get;
  clear_loop (S (length (pc_entries (pcache s)))).

End Partial.
