(* ===== verification/PartialCacheSpec.v ===== *)
(** * Correctness of the partial prefix cache

    The index by parent hash and the block count agree with the entries, every
    entry keeps its references on the pool until it is removed, eviction goes in
    LRU order, and a lookup finds the longest entry. *)

From Stdlib Require Import Strings.Byte.
From S2P Require Import Prelude.
From S2P Require Import OrderedDict.
From S2P Require Import FreeQueue.
From S2P Require Import BlockPool.
From S2P Require Import BlockPoolInv.
From S2P Require Import BlockPoolSpec.
From S2P Require Import BlockPoolProps.
From S2P Require Import PoolTheorems.
From S2P Require Import SingleTypeSpec.
From S2P Require Import SingleTypeOps.
From S2P Require Import PartialCache.
Local Open Scope Z_scope.

Abbreviation parent_of k := (k.1.1.1).
Abbreviation pentries := (list (PartialKey * PartialEntry)).

(** The blocks of an entry, over all groups. *)
Definition flat (e : PartialEntry) : list loc := concat (pe_blocks e).

(** The references the entries hold on a block. *)
Definition entry_refs (es : pentries) (b : loc) : Z := zsum ((λ e, count b (flat e.2)) <$> es).

(** The index holds exactly the keys of the entries, filed under their parents,
    and no empty set. *)
Record index_ok (es : pentries) (m : gmap (option bytes) (gset PartialKey)) : Prop := {
  ix_mem : ∀ k, k ∈ default ∅ (m !! parent_of k) ↔ k ∈ es.*1;
  ix_parent : ∀ h S k, m !! h = Some S → k ∈ S → parent_of k = h;
  ix_nonempty : ∀ h S, m !! h = Some S → S ≠ ∅;
}.

Record pc_ok (c : PartialPrefixCache) : Prop := {
  pk_keys : od_ok (pc_entries c);
  pk_key : ∀ k e, (k, e) ∈ pc_entries c → pe_key e = k;
  pk_index : index_ok (pc_entries c) (by_parent c);
  pk_blocks : pc_num_blocks c = zsum ((λ e, pe_num_blocks e.2) <$> pc_entries c);
}.

(** The blocks of an entry: distinct real blocks of the pool. *)
Definition entry_ok (p : BlockPool) (e : PartialEntry) : Prop :=
  NoDup (flat e) ∧ ∀ b, b ∈ flat e → b ∈ blocks p ∧ b ≠ null_block p.

Record pcs_inv (s : pcstate) : Prop := {
  ps_pool : ∃ st hi, pool_inv (pc_pool s) st hi [];
  ps_ok : pc_ok (pcache s);
  ps_entries : ∀ k e, (k, e) ∈ pc_entries (pcache s) → entry_ok (pc_pool s) e;
  ps_refs : ∀ b, b ∈ blocks (pc_pool s) → b ≠ null_block (pc_pool s) →
    entry_refs (pc_entries (pcache s)) b ≤ ref (pc_pool s) b;
}.

(** References held by others are unchanged. *)
Record pc_conserves (s s' : pcstate) : Prop := {
  pcc_pool : same_pool (pc_pool s) (pc_pool s');
  pcc_max : max_blocks (pcache s') = max_blocks (pcache s);
  pcc_refs : ∀ b, b ∈ blocks (pc_pool s) → b ≠ null_block (pc_pool s) →
    ref (pc_pool s') b - entry_refs (pc_entries (pcache s')) b =
      ref (pc_pool s) b - entry_refs (pc_entries (pcache s)) b;
}.

#[export] Instance pc_conserves_preorder : PreOrder pc_conserves.
Proof.
  split.
  - intros s. by split.
  - intros s1 s2 s3 [P1 M1 R1] [P2 M2 R2]. split; [by etransitivity|congruence|].
    intros b Hb Hn. rewrite <-R1 by done. apply R2; destruct P1 as (_&_&_&Eb&En&_); congruence.
Qed.

Lemma entry_refs_perm es es' b : es ≡ₚ es' → entry_refs es b = entry_refs es' b.
Proof. intros H. unfold entry_refs. by rewrite H. Qed.

Lemma entry_refs_nonneg es b : 0 ≤ entry_refs es b.
Proof.
  apply zsum_nonneg, Forall_fmap, Forall_true. intros e. apply count_nonneg.
Qed.

Lemma entry_refs_cons k e es b : entry_refs ((k, e) :: es) b = count b (flat e) + entry_refs es b.
Proof. done. Qed.

Lemma entry_refs_app es es' b : entry_refs (es ++ es') b = entry_refs es b + entry_refs es' b.
Proof. unfold entry_refs. by rewrite fmap_app, zsum_app. Qed.

Lemma index_drop es m k :
  index_ok es m → index_ok (od_del k es) (Partial.drop_sibling k m).
Proof.
  intros [Hm Hp Hn]. unfold Partial.drop_sibling.
  destruct (m !! parent_of k) as [S|] eqn:E.
  2:{ split; [|done..]. intros k'. rewrite Hm, od_del_keys. split; [|tauto]. intros Hk. split; [|done].
      intros ->. apply Hm in Hk. rewrite E in Hk. set_solver. }
  assert (Hmem : ∀ k', parent_of k' = parent_of k → k' ∈ S ↔ k' ∈ es.*1).
  { intros k' E'. rewrite <-Hm, E', E. done. }
  destruct (decide (S ∖ {[k]} = ∅)) as [He|He]; split.
  - intros k'. rewrite od_del_keys. destruct (decide (parent_of k = parent_of k')) as [E'|E'].
    + rewrite <-E', lookup_delete_eq. simpl. rewrite <-(Hmem k') by done. set_solver.
    + rewrite lookup_delete_ne by done. rewrite Hm. naive_solver.
  - intros h S' k' Hl. apply lookup_delete_Some in Hl as [_ Hl]. by apply (Hp h).
  - intros h S' Hl. apply lookup_delete_Some in Hl as [_ Hl]. by apply (Hn h).
  - intros k'. rewrite od_del_keys. destruct (decide (parent_of k = parent_of k')) as [E'|E'].
    + rewrite <-E', lookup_insert_eq. simpl. rewrite <-(Hmem k') by done. set_solver.
    + rewrite lookup_insert_ne by done. rewrite Hm. naive_solver.
  - intros h S' k' Hl. destruct (decide (parent_of k = h)) as [<-|Hh].
    + rewrite lookup_insert_eq in Hl. simplify_eq. intros Hk'. apply (Hp _ S); [done|set_solver].
    + rewrite lookup_insert_ne in Hl by done. by apply (Hp h).
  - intros h S' Hl. destruct (decide (parent_of k = h)) as [<-|Hh].
    + rewrite lookup_insert_eq in Hl. by simplify_eq.
    + rewrite lookup_insert_ne in Hl by done. by apply (Hn h).
Qed.

Lemma index_add es m k e :
  index_ok es m → k ∉ es.*1 → index_ok (es ++ [(k, e)]) (Partial.add_sibling k m).
Proof.
  intros [Hm Hp Hn] Hk. unfold Partial.add_sibling. split.
  - intros k'. rewrite fmap_app, elem_of_app, <-Hm. simpl. rewrite list_elem_of_singleton.
    destruct (decide (parent_of k = parent_of k')) as [E'|E'].
    + rewrite <-E', lookup_insert_eq. simpl. set_solver.
    + rewrite lookup_insert_ne by done. naive_solver.
  - intros h S' k' Hl. destruct (decide (parent_of k = h)) as [<-|Hh].
    + rewrite lookup_insert_eq in Hl. simplify_eq. rewrite elem_of_union, elem_of_singleton.
      intros [Hk'| ->]; [|done]. destruct (m !! parent_of k) as [S|] eqn:E; [|set_solver]. by apply (Hp _ S).
    + rewrite lookup_insert_ne in Hl by done. by apply (Hp h).
  - intros h S' Hl. destruct (decide (parent_of k = h)) as [<-|Hh].
    + rewrite lookup_insert_eq in Hl. simplify_eq. set_solver.
    + rewrite lookup_insert_ne in Hl by done. by apply (Hn h).
Qed.

(** ** Removing an entry *)

Definition pc_good (s s' : pcstate) : Prop := pcs_inv s' ∧ pc_conserves s s'.

Lemma pc_good_trans s1 s2 s3 : pc_good s1 s2 → pc_good s2 s3 → pc_good s1 s3.
Proof. intros [_ C1] [I2 C2]. split; [done|by etransitivity]. Qed.

Lemma entry_ok_same p p' e : same_pool p p' → entry_ok p e → entry_ok p' e.
Proof. intros (_&_&_&Eb&En&_). unfold entry_ok. by rewrite Eb, En. Qed.

Lemma entry_table_ok p e : entry_ok p e → table_ok p (flat e).
Proof. intros [Hnd Hb]. split; [intros b Hin; by apply Hb|by apply NoDup_filter]. Qed.

Lemma pc_remove_spec s k e :
  pcs_inv s → od_get k (pc_entries (pcache s)) = Some e →
  wp (Partial._remove k) s (λ _ s', pc_good s s' ∧ pc_entries (pcache s') = od_del k (pc_entries (pcache s))).
Proof.
  intros [Hp [Hk Hkey Hix Hnb] He Hr] Hget. pose proof Hget as Hin. apply od_get_elem in Hin; [|done].
  pose proof (od_del_perm _ _ _ Hk Hin) as Hperm.
  assert (Hrefs : ∀ b, entry_refs (pc_entries (pcache s)) b =
    count b (flat e) + entry_refs (od_del k (pc_entries (pcache s))) b).
  { intros b. by rewrite (entry_refs_perm _ _ b Hperm), entry_refs_cons. }
  unfold Partial._remove. wp_step. wp_step. wp_step. eapply wp_of_option; [exact Hget|].
  unfold upd_pc, on_pc_pool. wp_steps. cbn [pc_pool]. eapply wp_mono.
  { apply (free_blocks_total _ _ false Hp (entry_table_ok _ _ (He _ _ Hin))).
    intros b Hb Hn. destruct (He _ _ Hin) as [_ Hb']. specialize (Hr b (proj1 (Hb' b Hb)) Hn).
    rewrite Hrefs in Hr. pose proof (entry_refs_nonneg (od_del k (pc_entries (pcache s))) b).
    apply count_pos in Hb. lia. }
  intros [] p' (Hp' & Hsame & Hr' & _). cbn [pcache]. split; [|done]. split; [split|split]; simpl; try done.
  - split; simpl.
    + by apply od_del_ok.
    + intros k' e' [_ Hin']%od_del_elem. by apply Hkey.
    + by apply index_drop.
    + rewrite Hnb, (zsum_perm _ _ (fmap_Permutation (λ e, pe_num_blocks e.2) _ _ Hperm)), fmap_cons, zsum_cons. cbn [snd]. lia.
  - intros k' e' [_ Hin']%od_del_elem. eapply entry_ok_same; [done|]. by eapply He.
  - intros b Hb Hn. destruct (same_pool_blocks _ _ Hsame) as [Eb En]. rewrite Eb in Hb. rewrite En in Hn.
    specialize (Hr b Hb Hn). rewrite Hrefs in Hr. rewrite Hr'. fold (flat e). lia.
  - intros b Hb Hn. rewrite Hr', Hrefs. fold (flat e). lia.
Qed.

(** The least recently used entry goes first. *)
Lemma evict_one_spec s :
  pcs_inv s →
  wp Partial.evict_one s (λ r s', pc_good s s' ∧
    r = negb (bool_decide (pc_entries (pcache s) = [])) ∧
    pc_entries (pcache s') = tail (pc_entries (pcache s))).
Proof.
  intros Hs. unfold Partial.evict_one. wp_step. wp_step.
  destruct (pc_entries (pcache s)) as [|[k e] es] eqn:E.
  { wp_step. split; [split; [done|reflexivity]|]. by rewrite E. }
  pose proof (pk_keys _ (ps_ok _ Hs)) as Hk. rewrite E in Hk.
  wp_step. eapply wp_mono; [apply (pc_remove_spec s k e Hs)|].
  { rewrite E. simpl. by rewrite decide_True. }
  intros [] s' [Hg He]. wp_step. split; [done|]. split; [done|]. rewrite He, E, od_del_cons, decide_True by done.
  apply od_ok_cons in Hk as [Hk _]. by apply od_del_absent.
Qed.

(** The loop stops at the first suffix of the entries that fits or has one entry. *)
Lemma shrink_spec fuel : ∀ s,
  pcs_inv s → (length (pc_entries (pcache s)) ≤ S fuel)%nat →
  wp (Partial.shrink fuel) s (λ _ s', pc_good s s' ∧
    (pc_num_blocks (pcache s') ≤ max_blocks (pcache s') ∨ zlen (pc_entries (pcache s')) ≤ 1) ∧
    ∃ gone, pc_entries (pcache s) = gone ++ pc_entries (pcache s') ∧
      (pc_entries (pcache s) ≠ [] → pc_entries (pcache s') ≠ []) ∧
      ∀ pre x post, gone = pre ++ x :: post →
        max_blocks (pcache s) < zsum ((λ e, pe_num_blocks e.2) <$> x :: post ++ pc_entries (pcache s'))).
Proof.
  induction fuel as [|fuel IH]; intros s Hs Hfuel; cbn [Partial.shrink]; wp_step; wp_step.
  all: destruct (_ && _) eqn:Econd.
  all: try (wp_step; split; [split; [done|reflexivity]|]; split;
    [apply andb_false_iff in Econd as [?%Z.ltb_ge|?%Z.ltb_ge]; auto|];
    exists []; split; [done|]; split; [done|]; intros pre x post Heq; by destruct pre).
  - apply andb_true_iff in Econd as [_ Hc%Z.ltb_lt]. unfold zlen in Hc. lia.
  - apply andb_true_iff in Econd as [Hbig%Z.ltb_lt Hc%Z.ltb_lt]. unfold zlen in Hc.
    wp_step. eapply wp_mono; [by apply evict_one_spec|]. intros r s1 (Hg1 & _ & E1).
    destruct (pc_entries (pcache s)) as [|[k e] es] eqn:E; [simpl in *; lia|]. simpl in E1, Hfuel, Hc.
    eapply wp_mono; [apply (IH s1); [apply Hg1|rewrite E1; lia]|].
    intros [] s2 (Hg2 & Hend & gone & Hsplit & Hne & Hbig2). split; [by eapply pc_good_trans|]. split; [done|].
    rewrite E1 in *. exists ((k, e) :: gone). split; [by rewrite Hsplit at 1|]. split.
    + intros _. apply Hne. destruct es; [simpl in Hc; lia|done].
    + intros [|y pre] x post Heq; simplify_eq/=.
      * rewrite <-Hsplit. rewrite (pk_blocks _ (ps_ok _ Hs)), E in Hbig. exact Hbig.
      * destruct Hg1 as [_ [_ Hm _]]. rewrite <-Hm. by apply (Hbig2 pre).
Qed.

(** ** Inserting an entry *)

(** The references [e] brings along are already taken. *)
Definition insertable (s : pcstate) (e : PartialEntry) : Prop :=
  entry_ok (pc_pool s) e ∧
  ∀ b, b ∈ blocks (pc_pool s) → b ≠ null_block (pc_pool s) →
    entry_refs (pc_entries (pcache s)) b + count b (flat e) ≤ ref (pc_pool s) b.

Lemma replace_spec s e :
  pcs_inv s → insertable s e →
  wp (when (Partial.contains (pcache s) (pe_key e)) (Partial._remove (pe_key e))) s
    (λ _ s', pc_good s s' ∧ insertable s' e ∧
       pc_entries (pcache s') = od_del (pe_key e) (pc_entries (pcache s))).
Proof.
  intros Hs [Heok Href]. unfold Partial.contains. apply wp_when.
  - intros Hc%od_mem_true. apply elem_of_keys in Hc as [e0 Hin].
    eapply wp_mono; [apply (pc_remove_spec s (pe_key e) e0 Hs), od_get_elem; [apply Hs|done]|].
    intros [] s' [[Hs' [Hsame Hm Hr]] He]. split; [done|]. split; [|done].
    split; [by eapply entry_ok_same|]. intros b Hb Hn.
    destruct (same_pool_blocks _ _ Hsame) as [Eb En]. rewrite Eb in Hb. rewrite En in Hn.
    specialize (Hr b Hb Hn). specialize (Href b Hb Hn). lia.
  - intros Hc%od_mem_false. split; [split; [done|reflexivity]|]. split; [done|]. by rewrite od_del_absent.
Qed.

(** The cache and the pool after an insertion, the references handed over. *)
Record inserted (s s' : pcstate) (e : PartialEntry) : Prop := {
  in_inv : pcs_inv s';
  in_pool : same_pool (pc_pool s) (pc_pool s');
  in_max : max_blocks (pcache s') = max_blocks (pcache s);
  in_refs : ∀ b, b ∈ blocks (pc_pool s) → b ≠ null_block (pc_pool s) →
    ref (pc_pool s') b - entry_refs (pc_entries (pcache s')) b =
      ref (pc_pool s) b - entry_refs (pc_entries (pcache s)) b - count b (flat e);
}.

Lemma add_entry_inserted s e :
  pcs_inv s → insertable s e → pe_key e ∉ (pc_entries (pcache s)).*1 →
  inserted s (PCState (mkPartial (max_blocks (pcache s)) (pc_entries (pcache s) ++ [(pe_key e, e)])
    (Partial.add_sibling (pe_key e) (by_parent (pcache s)))
    (pc_num_blocks (pcache s) + pe_num_blocks e)) (pc_pool s)) e.
Proof.
  intros [Hp [Hk Hkey Hix Hnb] He Hr] [Heok Href] Hnew.
  assert (Hrefs : ∀ b, entry_refs (pc_entries (pcache s) ++ [(pe_key e, e)]) b =
    entry_refs (pc_entries (pcache s)) b + count b (flat e)).
  { intros b. rewrite entry_refs_app, entry_refs_cons. unfold entry_refs at 2. simpl. lia. }
  split; simpl; [|reflexivity|done|intros b _ _; rewrite Hrefs; lia]. split; simpl; [done| | |].
  - split; simpl.
    + unfold od_ok. rewrite fmap_app, NoDup_app. split; [done|]. split; [|apply NoDup_singleton].
      intros k Hk1 Hk2. simpl in Hk2. apply list_elem_of_singleton in Hk2 as ->. done.
    + intros k e' [Hin|[= -> ->]%list_elem_of_singleton]%elem_of_app; [by apply Hkey|done].
    + by apply index_add.
    + rewrite Hnb, fmap_app, zsum_app. cbn [fmap list_fmap snd]. rewrite zsum_cons. change (zsum []) with 0. lia.
  - intros k e' [Hin|[= -> ->]%list_elem_of_singleton]%elem_of_app; [by eapply He|done].
  - intros b Hb Hn. rewrite Hrefs. by apply Href.
Qed.

Lemma pc_insert_spec s e :
  pcs_inv s → insertable s e →
  wp (Partial.insert e) s (λ _ s', inserted s s' e ∧
    (pc_num_blocks (pcache s') ≤ max_blocks (pcache s') ∨ zlen (pc_entries (pcache s')) = 1) ∧
    last (pc_entries (pcache s')) = Some (pe_key e, e) ∧
    ∃ gone, od_del (pe_key e) (pc_entries (pcache s)) ++ [(pe_key e, e)] = gone ++ pc_entries (pcache s') ∧
      ∀ pre x post, gone = pre ++ x :: post →
        max_blocks (pcache s) < zsum ((λ e, pe_num_blocks e.2) <$> x :: post ++ pc_entries (pcache s'))).
Proof.
  intros Hs Hins. unfold Partial.insert. wp_step. wp_step. wp_step.
  eapply wp_mono; [by apply replace_spec|]. intros [] s1 ((Hs1 & Hc1) & Hins1 & E1).
  unfold upd_pc. wp_step. wp_step. wp_step. wp_step.
  assert (Hnew : pe_key e ∉ (pc_entries (pcache s1)).*1) by (rewrite E1, od_del_keys; naive_solver).
  rewrite od_set_absent by done. pose proof (add_entry_inserted s1 e Hs1 Hins1 Hnew) as [Hs2 Hsame2 Hm2 Hr2].
  set (s2 := PCState _ _) in *. eapply wp_mono; [apply (shrink_spec _ s2 Hs2); lia|].
  intros [] s3 ([Hs3 [Hsame3 Hm3 Hr3]] & Hend & gone & Hsplit & Hne & Hbig).
  destruct Hc1 as [Hsame1 Hm1 Hr1]. destruct (same_pool_blocks _ _ Hsame1) as [Eb En].
  change (pc_pool s2) with (pc_pool s1) in *. change (max_blocks (pcache s2)) with (max_blocks (pcache s1)) in *.
  change (pc_entries (pcache s2)) with (pc_entries (pcache s1) ++ [(pe_key e, e)]) in *.
  split; [split; [done|by etransitivity|congruence|]|split; [|split]].
  - intros b Hb Hn. specialize (Hr1 b Hb Hn). rewrite <-Eb in Hb. rewrite <-En in Hn.
    specialize (Hr2 b Hb Hn). specialize (Hr3 b Hb Hn). simpl in Hr2. lia.
  - destruct Hend as [?|Hle]; [by left|]. right. assert (pc_entries (pcache s3) ≠ []) as Hx.
    { apply Hne. by destruct (pc_entries (pcache s1)). }
    destruct (pc_entries (pcache s3)); [done|]. rewrite zlen_cons in *. pose proof (zlen_nonneg l). lia.
  - assert (pc_entries (pcache s3) ≠ []) as Hx by (apply Hne; by destruct (pc_entries (pcache s1))).
    apply (f_equal last) in Hsplit. rewrite last_snoc, last_app in Hsplit.
    destruct (last (pc_entries (pcache s3))) eqn:El; [done|]. by apply last_None in El.
  - exists gone. rewrite <-E1. split; [done|]. rewrite <-Hm1. exact Hbig.
Qed.

(** ** Lookup *)

Section lookup.
Context (tokens : list Z) (block_start max_length : Z) (cache_salt : option string)
  (lora_id current_step : Z).

(** An entry the lookup may return. *)
Definition matches (e : PartialEntry) : Prop :=
  let '(_, tail, salt, lora) := pe_key e in
  ready_step e < current_step ∧ pe_length e ≤ max_length ∧ salt = cache_salt ∧ lora = lora_id ∧
  py_slice tokens block_start (block_start + zlen tail) = tail.

Lemma better_spec best e :
  Partial.better tokens block_start max_length cache_salt lora_id current_step best e (pe_key e) = true ↔
  matches e ∧ match best with Some b => pe_length b < pe_length e | None => True end.
Proof.
  unfold Partial.better, matches. destruct (pe_key e) as [[[parent tail] salt] lora].
  rewrite !andb_true_iff, !bool_decide_eq_true, !negb_true_iff, !Z.leb_gt, !Z.ltb_ge, Z.eqb_eq.
  destruct best as [b|]; [rewrite Z.ltb_lt|]; naive_solver.
Qed.

(** The best matching entry among the keys seen so far. *)
Definition best_of (es : pentries) (keys : list PartialKey) (best : option PartialEntry) : Prop :=
  match best with
  | Some b => pe_key b ∈ keys ∧ od_get (pe_key b) es = Some b ∧ matches b ∧
      ∀ k e, k ∈ keys → od_get k es = Some e → matches e → pe_length e ≤ pe_length b
  | None => ∀ k e, k ∈ keys → od_get k es = Some e → ¬ matches e
  end.

Lemma lookup_loop_spec es : od_ok es → (∀ k e, (k, e) ∈ es → pe_key e = k) → ∀ keys seen best,
  (∀ k, k ∈ keys → k ∈ es.*1) → best_of es seen best →
  ∃ r, Partial.lookup_loop es tokens block_start max_length cache_salt lora_id current_step keys best = Ret r ∧
    best_of es (seen ++ keys) r.
Proof.
  intros Hes Hkey. induction keys as [|k keys IH]; intros seen best Hin Hb; cbn [Partial.lookup_loop].
  { exists best. by rewrite app_nil_r. }
  destruct (proj1 (elem_of_keys _ _) (Hin k ltac:(by left))) as [e He].
  rewrite (proj2 (od_get_elem k e es Hes) He). pose proof (Hkey _ _ He) as Hek. subst k.
  pose proof (better_spec best e) as Hbet. set (b := Partial.better _ _ _ _ _ _ _ _ _) in *.
  replace (seen ++ pe_key e :: keys) with ((seen ++ [pe_key e]) ++ keys) by by rewrite <-(assoc_L (++)).
  pose proof (proj2 (od_get_elem _ e es Hes) He) as Hget.
  apply IH; [intros k' Hk'; apply Hin; by right|]. clear IH Hin.
  assert (Hsplit : ∀ k' : PartialKey, k' ∈ seen ++ [pe_key e] ↔ k' ∈ seen ∨ k' = pe_key e)
    by (intros k'; by rewrite elem_of_app, list_elem_of_singleton).
  destruct b.
  - destruct (proj1 Hbet eq_refl) as [Hm Hlt]. split; [rewrite Hsplit; by right|]. split; [done|]. split; [done|].
    intros k' e' [Hk'| ->]%Hsplit Hg' Hm'; [|by simplify_eq]. destruct best as [b0|]; [|by destruct (Hb k' e')].
    destruct Hb as (_ & _ & _ & Hb). specialize (Hb k' e' Hk' Hg' Hm'). lia.
  - destruct best as [b0|].
    + destruct Hb as (H1 & H2 & H3 & H4). split; [rewrite Hsplit; by left|]. split; [done|]. split; [done|].
      intros k' e' [Hk'| ->]%Hsplit Hg' Hm'; [by eapply H4|]. simplify_eq.
      apply Z.le_ngt. intros Hlt. by assert (false = true) by by apply Hbet.
    + intros k' e' [Hk'| ->]%Hsplit Hg' Hm'; [by eapply (Hb k' e')|]. simplify_eq.
      by assert (false = true) by by apply Hbet.
Qed.

(** What a lookup under [parent] returns, and the entries it leaves. *)
Definition lookup_result (es es' : pentries) (parent : option bytes) (r : option PartialEntry) : Prop :=
  match r with
  | Some e => (pe_key e, e) ∈ es ∧ parent_of (pe_key e) = parent ∧ matches e ∧
      (∀ k e', (k, e') ∈ es → parent_of k = parent → matches e' → pe_length e' ≤ pe_length e) ∧
      es' = od_del (pe_key e) es ++ [(pe_key e, e)]
  | None => es' = es ∧ ∀ k e, (k, e) ∈ es → parent_of k = parent → ¬ matches e
  end.

Lemma moved_good s k :
  pcs_inv s →
  pc_good s (PCState (mkPartial (max_blocks (pcache s)) (od_to_end k (pc_entries (pcache s)))
    (by_parent (pcache s)) (pc_num_blocks (pcache s))) (pc_pool s)).
Proof.
  intros [Hp [Hk Hkey [H1 H2 H3] Hnb] He Hr].
  pose proof (od_to_end_perm k _ Hk) as Hperm. set (es' := od_to_end k _) in *.
  assert (Hin : ∀ x, x ∈ es' ↔ x ∈ pc_entries (pcache s)) by (intros x; by rewrite Hperm).
  split; [split|split]; simpl; [done| | | |done|done|].
  - split; simpl.
    + by eapply od_ok_perm.
    + intros k' e' Hx. by apply Hkey, Hin.
    + split; [|done..]. intros k'. rewrite H1. by rewrite (fmap_Permutation fst _ _ Hperm).
    + rewrite Hnb. symmetry. by apply zsum_perm, fmap_Permutation.
  - intros k' e' Hx. eapply He. by apply Hin.
  - intros b Hb Hn. rewrite (entry_refs_perm _ _ b Hperm). by apply Hr.
  - intros b Hb Hn. by rewrite (entry_refs_perm _ _ b Hperm).
Qed.

Lemma lookup_spec s parent :
  pcs_inv s →
  wp (Partial.lookup parent tokens block_start max_length cache_salt lora_id current_step) s (λ r s',
    pc_good s s' ∧ pc_pool s' = pc_pool s ∧
    lookup_result (pc_entries (pcache s)) (pc_entries (pcache s')) parent r).
Proof.
  intros Hs. unfold Partial.lookup. wp_step. wp_step.
  pose proof (ps_ok _ Hs) as [Hk Hkey Hix Hnb].
  assert (Hsib : ∀ k, k ∈ elements (default ∅ (by_parent (pcache s) !! parent)) ↔
    parent_of k = parent ∧ k ∈ (pc_entries (pcache s)).*1).
  { intros k. rewrite elem_of_elements. split.
    - intros Hin. destruct (by_parent (pcache s) !! parent) as [S|] eqn:E; [|set_solver].
      assert (Hpar : parent_of k = parent) by by eapply (ix_parent _ _ Hix). split; [done|].
      apply (ix_mem _ _ Hix). by rewrite Hpar, E.
    - intros [<- Hin]. by apply (ix_mem _ _ Hix). }
  destruct (lookup_loop_spec _ Hk Hkey (elements (default ∅ (by_parent (pcache s) !! parent))) [] None)
    as (r & -> & Hr); [intros k Hin; by apply Hsib in Hin as [_ ?]|intros k e Hin; by apply not_elem_of_nil in Hin|].
  simpl in Hr. destruct r as [e|].
  - destruct Hr as (H1 & H2 & H3 & H4). apply Hsib in H1 as [Hpar _].
    unfold upd_pc. wp_steps. split; [by apply moved_good|]. split; [done|]. unfold lookup_result.
    split; [by apply od_get_elem|]. split; [done|]. split; [done|]. split; [|simpl; unfold od_to_end; by rewrite H2].
    intros k e' Hin Hpar' Hm. eapply H4; [|by apply od_get_elem|done]. apply Hsib. split; [done|].
    apply elem_of_keys. by exists e'.
  - wp_step. split; [split; [done|reflexivity]|]. split; [done|]. split; [done|]. intros k e Hin Hpar Hm.
    apply (Hr k e); [|by apply od_get_elem|done]. apply Hsib. split; [done|]. apply elem_of_keys. by exists e.
Qed.
End lookup.

(** ** Clearing *)

Lemma clear_loop_spec fuel : ∀ s,
  pcs_inv s → (length (pc_entries (pcache s)) < fuel)%nat →
  wp (Partial.clear_loop fuel) s (λ _ s', pc_good s s' ∧ pc_entries (pcache s') = []).
Proof.
  induction fuel as [|fuel IH]; intros s Hs Hf; [lia|]. cbn [Partial.clear_loop]. wp_step.
  eapply wp_mono; [by apply evict_one_spec|]. intros r s1 (Hg & -> & E).
  destruct (pc_entries (pcache s)) as [|x es]; simpl in *.
  - wp_step. done.
  - eapply wp_mono; [apply IH; [apply Hg|rewrite E; lia]|]. intros [] s2 [Hg2 E2].
    split; [by eapply pc_good_trans|done].
Qed.

Lemma clear_spec s :
  pcs_inv s → wp Partial.clear s (λ _ s', pc_good s s' ∧ pc_entries (pcache s') = []).
Proof.
  intros Hs. unfold Partial.clear. wp_step. wp_step. apply clear_loop_spec; [done|lia].
Qed.

(** ** Theorems *)

(** C39: into a consistent store, inserting a partial entry whose blocks the caller
    holds references for, which become the entry's, keeps the store consistent (index by
    parent, block count, one reference per entry block) and all other references as
    they were; it replaces an entry with the same key, makes the new one the most
    recently used, and then releases entries in least-recently-used order only
    while the store exceeds its bound: it ends within the bound or with the new
    entry alone, and every entry released was still over the bound. *)
Theorem partial_insert_lru s e :
  pcs_inv s → insertable s e →
  wp (Partial.insert e) s (λ _ s', inserted s s' e ∧
    (pc_num_blocks (pcache s') ≤ max_blocks (pcache s') ∨ pc_entries (pcache s') = [(pe_key e, e)]) ∧
    ∃ gone, od_del (pe_key e) (pc_entries (pcache s)) ++ [(pe_key e, e)] = gone ++ pc_entries (pcache s') ∧
      last (pc_entries (pcache s')) = Some (pe_key e, e) ∧
      ∀ pre x post, gone = pre ++ x :: post →
        max_blocks (pcache s) < zsum ((λ e, pe_num_blocks e.2) <$> x :: post ++ pc_entries (pcache s'))).
Proof.
  intros Hs Hins. eapply wp_mono; [by apply pc_insert_spec|].
  intros [] s' (Hi & Hend & Hlast & gone & Hsplit & Hbig). split; [done|]. split; [|by exists gone].
  destruct Hend as [?|Hone]; [by left|]. right.
  destruct (pc_entries (pcache s')) as [|x [|y l]]; [done| |unfold zlen in Hone; simpl in Hone; lia].
  simpl in Hlast. by simplify_eq.
Qed.

(** C34: a lookup returns the longest entry filed under the parent hash that is
    ready, fits, has the request's salt and adapter and whose tail matches the
    tokens, whatever order the set of candidates is visited in, and makes it the
    most recently used; it returns nothing only if no entry matches, and takes
    no reference. *)
Theorem partial_lookup_longest s parent tokens block_start max_length salt lora step :
  pcs_inv s →
  wp (Partial.lookup parent tokens block_start max_length salt lora step) s (λ r s',
    pcs_inv s' ∧ pc_pool s' = pc_pool s ∧
    lookup_result tokens block_start max_length salt lora step
      (pc_entries (pcache s)) (pc_entries (pcache s')) parent r).
Proof.
  intros Hs. eapply wp_mono; [by apply lookup_spec|]. by intros r s' ([? _] & ? & ?).
Qed.

(** ** Witnesses *)

(** Two entries of one block each, with room for one. *)
Definition demo_entry (n : Z) (b : loc) : PartialEntry :=
  mkEntry (Some [x01], [n], None, 0) 3 [[b]] [true] 0.

Lemma empty_pcs_inv p st hi max : pool_inv p st hi [] → pcs_inv (PCState (Partial.empty max) p).
Proof.
  intros Hi. split; simpl; [by eexists _, _| |by intros k e ?%not_elem_of_nil|].
  - split; simpl; [constructor|by intros k e ?%not_elem_of_nil| |done]. split.
    + intros k. rewrite lookup_empty. simpl. by rewrite elem_of_nil.
    + intros h S k Hl. by rewrite lookup_empty in Hl.
    + intros h S Hl. by rewrite lookup_empty in Hl.
  - intros b Hb Hn. by apply (pi_ref _ _ _ _ Hi).
Qed.

Lemma demo_insertable p p2 c n b :
  demo p p2 → b ∈ [1; 2]%nat → entry_refs (pc_entries c) b = 0 → pcs_inv (PCState c p2) →
  insertable (PCState c p2) (demo_entry n b).
Proof.
  intros H Hb H0 [_ _ _ Hr]. split; simpl.
  - split; simpl; [apply NoDup_singleton|]. intros b' ->%list_elem_of_singleton.
    rewrite (demo_blocks2 _ _ H), (demo_null2 _ _ H). rewrite !elem_of_cons, elem_of_nil in *. lia.
  - intros b' Hb' Hn'. change (flat (demo_entry n b)) with [b]. destruct (decide (b' = b)) as [->|Hne].
    + rewrite H0, count_in by first [by left|apply NoDup_singleton]. by rewrite (proj1 (demo_taken _ _ H b Hb)).
    + rewrite count_one_ne by done. specialize (Hr b' Hb' Hn'). simpl in Hr. lia.
Qed.

Lemma partial_insert_lru_witness : ∃ s s',
  Partial.insert (demo_entry 7 1%nat) s = (Ret tt, s') ∧ last (pc_entries (pcache s')) =
    Some (pe_key (demo_entry 7 1%nat), demo_entry 7 1%nat).
Proof.
  destruct demo_exists as (p & p2 & H). exists (PCState (Partial.empty 1) p2).
  assert (Hs := empty_pcs_inv _ _ _ 1 (demo_inv2 _ _ H)).
  assert (Hw := partial_insert_lru (PCState (Partial.empty 1) p2) (demo_entry 7 1%nat) Hs
    (demo_insertable p p2 (Partial.empty 1) 7 1%nat H ltac:(by left) eq_refl Hs)).
  apply wp_elim in Hw as ([] & s' & E & _ & _ & gone & _ & Hlast & _). by exists s'.
Defined.

Lemma partial_lookup_longest_witness : ∃ s s' e,
  Partial.lookup (Some [x01]) [1; 2; 7] 2 4 None 0 1 s = (Ret (Some e), s') ∧ pe_length e = 3.
Proof.
  destruct demo_exists as (p & p2 & H).
  assert (Hs := empty_pcs_inv _ _ _ 1 (demo_inv2 _ _ H)).
  assert (Hw := pc_insert_spec (PCState (Partial.empty 1) p2) (demo_entry 7 1%nat) Hs
    (demo_insertable p p2 (Partial.empty 1) 7 1%nat H ltac:(by left) eq_refl Hs)).
  apply wp_elim in Hw as ([] & s & _ & [Hs2 _ _ _] & _ & Hlast & gone & Hsplit & _).
  assert (Hes : pc_entries (pcache s) = [(pe_key (demo_entry 7 1%nat), demo_entry 7 1%nat)]).
  { destruct gone as [|x gone]; [done|]. destruct gone; simplify_eq/=; rewrite <-H1 in *; done. }
  assert (Hw := partial_lookup_longest s (Some [x01]) [1; 2; 7] 2 4 None 0 1 Hs2).
  apply wp_elim in Hw as (r & s' & E & _ & _ & Hr). rewrite Hes in Hr. exists s, s'. destruct r as [e|].
  - exists e. split; [done|]. destruct Hr as (Hin & _). apply list_elem_of_singleton in Hin. by simplify_eq.
  - destruct Hr as [_ Hn]. destruct (Hn _ _ ltac:(by left) eq_refl). vm_compute. done.
Defined.
