(* ===== verification/KVManager.v ===== *)
(** * The KV-cache manager

    [vllm/v1/core/kv_cache_manager.py]: the scheduler's interface to the cache.
    It looks up computed blocks, allocates and frees the slots of requests
    through the coordinator, and keeps the partial prefix entries: block copies
    to run, copy endpoints to release later, snapshots to take.

    Statistics, event annotation and logging are not modelled. *)

From Stdlib Require Import Strings.Byte.
From S2P Require Import Prelude.
From S2P Require Import OrderedDict.
From S2P Require Import FreeQueue.
From S2P Require Import Request.
From S2P Require Import BlockHash.
From S2P Require Import BlockPool.
From S2P Require Import KVCacheSpec.
From S2P Require Import SingleType.
From S2P Require Import CacheHit.
From S2P Require Import Coordinator.
From S2P Require Import PartialCache.
Local Open Scope Z_scope.

(** A request with the attribute [partial_prefix_entry]. *)
Record KVRequest : Type := mkKVReq {
  kv_req :> Request;
  partial_prefix_entry : option PartialEntry;
}.

(** [KVCacheBlocks]; [EmptyBlocks] is the manager's preconstructed object, which
    the code recognises by identity. *)
Inductive KVCacheBlocks : Type :=
  | EmptyBlocks
  | Blocks (l : list (list loc)).

Record KVCacheManager : Type := mkKVMgr {
  max_model_len : Z;
  km_enable_caching : bool;
  num_kv_cache_groups : nat;
  km_hash_block_size : Z;
  partial_block_size : Z;
  v41_session_prefix : bool;
  coordinator : Coordinator;
  _step : Z;
  _block_copies : list (Z * Z);
  _deferred_release : list (Z * list loc);
  _pending_snapshots : list (Z * Z * Z);
  partial_cache : option PartialPrefixCache;
  _v41_last : option (list Z * Z);
}.

Definition set_coordinator v (k : KVCacheManager) : KVCacheManager :=
  mkKVMgr (max_model_len k) (km_enable_caching k) (num_kv_cache_groups k) (km_hash_block_size k)
    (partial_block_size k) (v41_session_prefix k) v (_step k) (_block_copies k) (_deferred_release k)
    (_pending_snapshots k) (partial_cache k) (_v41_last k).
Definition set_step v (k : KVCacheManager) : KVCacheManager :=
  mkKVMgr (max_model_len k) (km_enable_caching k) (num_kv_cache_groups k) (km_hash_block_size k)
    (partial_block_size k) (v41_session_prefix k) (coordinator k) v (_block_copies k) (_deferred_release k)
    (_pending_snapshots k) (partial_cache k) (_v41_last k).
Definition set_copies v (k : KVCacheManager) : KVCacheManager :=
  mkKVMgr (max_model_len k) (km_enable_caching k) (num_kv_cache_groups k) (km_hash_block_size k)
    (partial_block_size k) (v41_session_prefix k) (coordinator k) (_step k) v (_deferred_release k)
    (_pending_snapshots k) (partial_cache k) (_v41_last k).
Definition set_deferred v (k : KVCacheManager) : KVCacheManager :=
  mkKVMgr (max_model_len k) (km_enable_caching k) (num_kv_cache_groups k) (km_hash_block_size k)
    (partial_block_size k) (v41_session_prefix k) (coordinator k) (_step k) (_block_copies k) v
    (_pending_snapshots k) (partial_cache k) (_v41_last k).
Definition set_snapshots v (k : KVCacheManager) : KVCacheManager :=
  mkKVMgr (max_model_len k) (km_enable_caching k) (num_kv_cache_groups k) (km_hash_block_size k)
    (partial_block_size k) (v41_session_prefix k) (coordinator k) (_step k) (_block_copies k)
    (_deferred_release k) v (partial_cache k) (_v41_last k).
Definition set_partial v (k : KVCacheManager) : KVCacheManager :=
  mkKVMgr (max_model_len k) (km_enable_caching k) (num_kv_cache_groups k) (km_hash_block_size k)
    (partial_block_size k) (v41_session_prefix k) (coordinator k) (_step k) (_block_copies k)
    (_deferred_release k) (_pending_snapshots k) v (_v41_last k).
Definition set_v41_last v (k : KVCacheManager) : KVCacheManager :=
  mkKVMgr (max_model_len k) (km_enable_caching k) (num_kv_cache_groups k) (km_hash_block_size k)
    (partial_block_size k) (v41_session_prefix k) (coordinator k) (_step k) (_block_copies k)
    (_deferred_release k) (_pending_snapshots k) (partial_cache k) v.

Abbreviation km_pool k := (coord_pool (coordinator k)).

(** Calls on the coordinator, the shared pool and the partial cache. *)
Definition on_coord {A} (m : M Coordinator A) : M KVCacheManager A := zoom coordinator set_coordinator m.
Definition on_km_pool {A} (m : M BlockPool A) : M KVCacheManager A :=
  on_coord (zoom coord_pool set_pool m).
Definition on_partial {A} (m : M pcstate A) : M KVCacheManager A := λ k,
  match partial_cache k with
  | None => (Raise AttributeError, k)
  | Some c =>
      let '(o, s) := m (PCState c (km_pool k)) in
      (o, set_partial (Some (pcache s)) (set_coordinator (set_pool (pc_pool s) (coordinator k)) k))
  end.

(** [self.empty_kv_cache_blocks.blocks] and [new_computed_blocks.blocks] *)
Definition blocks_of (k : KVCacheManager) (b : KVCacheBlocks) : list (list loc) :=
  match b with EmptyBlocks => replicate (num_kv_cache_groups k) [] | Blocks l => l end.

(** [any(blocks)]: some group has a block. *)
Definition create_kv_cache_blocks (blocks : list (list loc)) : KVCacheBlocks :=
  if existsb (λ l, negb (is_nil l)) blocks then Blocks blocks else EmptyBlocks.

(** ** KVCacheBlocks *)

Definition blocks_add (l l' : list (list loc)) : list (list loc) := zip_with (++) l l'.

Definition block_ids_of (p : BlockPool) (l : list (list loc)) : list (list Z) :=
  (λ g : list loc, (λ b, block_id (pool_block p b)) <$> g) <$> l.

Definition get_block_ids (p : BlockPool) (l : list (list loc)) (allow_none : bool)
    : option (list (list Z)) :=
  if allow_none && forallb (λ g, is_nil g) l then None else Some (block_ids_of p l).

Definition get_unhashed_block_ids (p : BlockPool) (l : list (list loc)) : outcome (list Z) :=
  match l with
  | [g] => Ret ((λ b, block_id (pool_block p b)) <$>
                  filter (λ b, _block_hash (pool_block p b) = None) g)
  | _ => Raise AssertionError
  end.

Definition get_unhashed_block_ids_all_groups (p : BlockPool) (l : list (list loc)) : list (list Z) :=
  (λ g : list loc, (λ b, block_id (pool_block p b)) <$>
     filter (λ b, _block_hash (pool_block p b) = None ∧ is_null (pool_block p b) = false) g) <$> l.

Definition new_empty (l : list (list loc)) : list (list loc) := (λ _, []) <$> l.

(** ** Construction *)

Definition partial_supported (managers : list Manager) : bool :=
  existsb isinstance_mamba managers &&
  forallb (λ m : Manager,
    bool_decide (class_of m = Some FullAttentionManager) ||
    bool_decide (class_of m = Some SlidingWindowManager) ||
    (isinstance_mamba m && Mamba.is_align m)) managers.

(** [_init_partial_prefix_cache]; [max()] of no manager is never reached. *)
Definition _init_partial_prefix_cache (hash_block_size : Z) (k : KVCacheManager) : KVCacheManager :=
  let managers := single_type_managers (coordinator k) in
  if negb (partial_supported managers) then k
  else
    let partial_block_size := foldr Z.max 0 ((λ m : Manager, m_block_size m) <$> managers) in
    let k' := mkKVMgr (max_model_len k) (km_enable_caching k) (num_kv_cache_groups k) hash_block_size
                partial_block_size (v41_session_prefix k) (coordinator k) (_step k) (_block_copies k)
                (_deferred_release k) (_pending_snapshots k) (partial_cache k) (_v41_last k) in
    if existsb (λ m : Manager, negb (partial_block_size mod m_block_size m =? 0)) managers then k'
    else set_partial (Some (Partial.empty
           (Z.max (2 * zlen managers) (num_gpu_blocks (km_pool k) / 4)))) k'.

Definition KVCacheManager_init (config : KVCacheConfig) (max_model_len hash_block_size : Z)
    (max_in_flight_tokens : option Z) (enable_caching use_eagle enable_kv_cache_events : bool)
    (dcp_world_size pcp_world_size : Z) (collector : bool)
    (prefix_cache_retention_interval : option Z) (partial_prefix_cache v41 : bool)
    : outcome KVCacheManager :=
  obind (λ c,
    match configure_prefix_cache_retention prefix_cache_retention_interval c with
    | (Raise e, _) => Raise e
    | (Ret _, c) =>
        let k := mkKVMgr max_model_len enable_caching (length (kv_cache_groups config)) 0 0 v41 c 0
                   [] [] [] None None in
        Ret (if partial_prefix_cache && enable_caching
             then _init_partial_prefix_cache hash_block_size k else k)
    end)
    (get_kv_cache_coordinator config max_model_len (default max_model_len max_in_flight_tokens)
       use_eagle enable_caching enable_kv_cache_events dcp_world_size pcp_world_size hash_block_size
       collector).

(** ** Partial prefix entries *)

Definition lora_id_of (r : Request) : Z :=
  match lora_request r with Some l => lora_int_id l | None => 0 end.

(** The parent hash, and the start of the tail, of a boundary. *)
Definition _partial_parent (k : KVCacheManager) (r : Request) (boundary : Z)
    : outcome (option BlockHash * Z) :=
  let block_start := boundary / partial_block_size k * partial_block_size k in
  let index := block_start / km_hash_block_size k - 1 in
  if 0 <=? index then
    match py_get (block_hashes r) index with
    | Some h => Ret (Some h, block_start)
    | None => Raise IndexError
    end
  else Ret (None, block_start).

Definition _partial_key (k : KVCacheManager) (r : Request) (boundary : Z) : outcome PartialKey :=
  obind (λ '(parent, block_start),
    Ret (parent, py_slice (_all_token_ids r) block_start boundary, cache_salt r, lora_id_of r))
    (_partial_parent k r boundary).

(** The block indices [first .. last] an entry keeps for one group. *)
Definition _partial_block_range (m : Manager) (boundary : Z) : Z * Z :=
  let last := (boundary - 1) / m_block_size m in
  match class_of m, sliding_window_of (spec_type (kv_cache_spec m)) with
  | Some SlidingWindowManager, Some w =>
      (Z.min (Z.max 0 (boundary - (w - 1)) / m_block_size m) last, last)
  | _, _ => (last, last)
  end.

(** The boundaries inside [(start, end_)] whose state must be kept. *)
Definition partial_prefix_stops (k : KVCacheManager) (r : Request) (start end_ : Z)
    : outcome (list Z) :=
  match partial_cache k, prefix_cache_boundaries r with
  | None, _ | _, [] => Ret []
  | Some cache, boundaries =>
      let hashed := zlen (block_hashes r) * km_hash_block_size k in
      foldr (λ b acc,
        if (start <? b) && (b <? end_) && negb (b mod partial_block_size k =? 0) &&
           (b / partial_block_size k * partial_block_size k <=? hashed)
        then obind (λ key, obind (λ bs, Ret (if Partial.contains cache key then bs else b :: bs)) acc)
               (_partial_key k r b)
        else acc) (Ret []) boundaries
  end.

(** The loop over the boundary blocks, longest parent first; an entry no longer
    than the full-block hit is looked at (and moved to the recent end) but
    discarded. *)
Fixpoint partial_hit_loop (request : Request) (ratio hit_length max_length lora_id : Z)
    (indices : list Z) : M KVCacheManager (option PartialEntry) :=
  match indices with
  | [] => mret None
  | num_blocks :: rest =>
      k ← get;
      parent ← (if num_blocks =? 0 then mret None
                else h ← of_option IndexError (py_get (block_hashes request) (num_blocks * ratio - 1));
                     mret (Some h));
      match partial_cache k with
      | None => raise AttributeError
      | Some cache =>
          if negb (bool_decide (is_Some (by_parent cache !! parent)))
          then partial_hit_loop request ratio hit_length max_length lora_id rest
          else
            entry ← on_partial (Partial.lookup parent (_all_token_ids request)
                      (num_blocks * partial_block_size k) max_length (cache_salt request) lora_id (_step k));
            match entry with
            | Some e =>
                if hit_length <? pe_length e then mret (Some e)
                else partial_hit_loop request ratio hit_length max_length lora_id rest
            | None => partial_hit_loop request ratio hit_length max_length lora_id rest
            end
      end
  end.

(** [for i in range(first): ... full.append(cached[0])]; [None] when a full
    block is no longer cached. *)
Fixpoint collect_full (p : BlockPool) (hashes : BlockHashList) (group_id : Z) (indices : list Z)
    (full : list loc) : outcome (option (list loc)) :=
  match indices with
  | [] => Ret (Some full)
  | i :: rest =>
      match hl_get hashes i with
      | None => Raise IndexError
      | Some h =>
          match Pool.get_cached_loop p h [group_id] [] with
          | Raise e => Raise e
          | Ret (Some (b :: _)) => collect_full p hashes group_id rest (full ++ [b])
          | Ret (Some []) => Raise IndexError
          | Ret None => Ret None
          end
      end
  end.

(** The blocks of the hit, group by group. *)
Fixpoint partial_hit_blocks (k : KVCacheManager) (request : Request) (entry : PartialEntry)
    (group_id : nat) (managers : list Manager) (blocks : list (list loc))
    : outcome (option (list (list loc))) :=
  match managers with
  | [] => Ret (Some blocks)
  | m :: rest =>
      let first := (_partial_block_range m (pe_length entry)).1 in
      match pe_blocks entry !! group_id with
      | None => Raise IndexError
      | Some own =>
          if bool_decide (class_of m = Some FullAttentionManager) then
            obind (λ hashes,
              obind (λ full,
                match full with
                | None => Ret None
                | Some full =>
                    partial_hit_blocks k request entry (S group_id) rest (blocks ++ [full ++ own])
                end)
                (collect_full (km_pool k) hashes (Z.of_nat group_id) (py_range 0 first) []))
              (if m_block_size m =? km_hash_block_size k then Ret (Hashes (block_hashes request))
               else obind (λ v, Ret (HashView v))
                      (BlockHashListWithBlockSize_init (block_hashes request) (km_hash_block_size k)
                         (m_block_size m)))
          else
            partial_hit_blocks k request entry (S group_id) rest
              (blocks ++ [replicate (Z.to_nat first) (null_block (km_pool k)) ++ own])
      end
  end.

(** [{group_id: 1 for group_id, copy in enumerate(copy_last) if copy}] *)
Definition copy_demand (copies : list bool) : gmap Z Z :=
  list_to_map (omap (λ e : nat * bool, if e.2 then Some (Z.of_nat e.1, 1) else None)
                 (zip (seq 0 (length copies)) copies)).

Definition _partial_prefix_hit (request : Request) (hit_length max_length : Z)
    : M KVCacheManager (option (list (list loc) * Z * PartialEntry)) :=
  k ← get;
  match partial_cache k with
  | None => mret None
  | Some cache =>
      if is_nil (pc_entries cache) then mret None
      else
        let ratio := partial_block_size k / km_hash_block_size k in
        let top := Z.min (zlen (block_hashes request) / ratio) (max_length / partial_block_size k) in
        entry ← partial_hit_loop request ratio hit_length max_length (lora_id_of request)
                  (py_range_down (hit_length / partial_block_size k) (top + 1));
        match entry with
        | None => mret None
        | Some entry =>
            k ← get;
            blocks ← of_outcome
              (partial_hit_blocks k request entry 0 (single_type_managers (coordinator k)) []);
            match blocks with
            | None => mret None
            | Some blocks =>
                if negb (Pool.can_allocate_group_blocks (km_pool k) (copy_demand (copy_last entry)))
                then mret None
                else mret (Some (blocks, pe_length entry, entry))
            end
        end
  end.

Definition _defer_release (blocks : list loc) : M KVCacheManager unit :=
  modify (λ k, set_deferred (_deferred_release k ++ [(_step k + 3, blocks)]) k).

Section operations.
Context (sha256 : bytes → bytes) (use_int : bool).

(** [_redirect_partial_hit] on one group: the request continues on a private
    copy of the partially filled block; the source and the target. *)
Definition redirect_group (rid : string) (entry : PartialEntry) (i : nat)
    : M mstate (option (loc * loc)) :=
  req_blocks ← get_req_blocks rid;
  let last_idx := zlen req_blocks - 1 in
  source ← of_option IndexError (py_get req_blocks last_idx);
  own ← of_option IndexError (pe_blocks entry !! i);
  own_last ← of_option IndexError (last own);
  py_assert (Nat.eqb source own_last) ;;
  copy ← of_option IndexError (copy_last entry !! i);
  upd_mgr (λ m, set_num_cached_block
    (<[rid := if copy : bool then last_idx else last_idx + 1]> (num_cached_block m)) m) ;;
  if negb copy then mret None
  else
    targets ← on_pool (Pool.get_new_blocks use_int 1 (Some (Z.of_nat i)));
    target ← of_option IndexError (head targets);
    put_req_blocks rid (<[Z.to_nat last_idx := target]> req_blocks) ;;
    mret (Some (source, target)).

Definition block_id_pair (k : KVCacheManager) (e : loc * loc) : Z * Z :=
  (block_id (pool_block (km_pool k) e.1), block_id (pool_block (km_pool k) e.2)).

Definition _redirect_partial_hit (rid : string) (entry : PartialEntry) : M KVCacheManager unit :=
  k ← get;
  sources ← foldM (λ sources i,
    r ← on_coord (on_manager i (redirect_group rid entry i));
    match r with
    | None => mret sources
    | Some e =>
        modify (λ k, set_copies (_block_copies k ++ [block_id_pair k e]) k) ;;
        mret (sources ++ [e.1])
    end) (seq 0 (length (single_type_managers (coordinator k)))) [];
  when (negb (is_nil sources)) (_defer_release sources).

(** The blocks of each group a snapshot copies; [None] when some group no longer
    has them. *)
Fixpoint snapshot_sources (p : BlockPool) (rid : string) (boundary : Z) (managers : list Manager)
    : option (list (list loc)) :=
  match managers with
  | [] => Some []
  | m :: rest =>
      let blocks := req_blocks m rid in
      let '(first, last) := _partial_block_range m boundary in
      if is_nil blocks || (zlen blocks <=? last) then None
      else
        let group := py_slice blocks first (last + 1) in
        if existsb (λ b, is_null (pool_block p b)) group then None
        else cons group <$> snapshot_sources p rid boundary rest
  end.

Definition group_demand (sources : list (list loc)) : gmap Z Z :=
  list_to_map (zip (Z.of_nat <$> seq 0 (length sources)) (zlen <$> sources)).

(** [while not can_allocate_group_blocks(demand): if not evict_one(): break] *)
Fixpoint make_room (fuel : nat) (demand : gmap Z Z) : M KVCacheManager unit :=
  k ← get;
  if Pool.can_allocate_group_blocks (km_pool k) demand then mret tt
  else
    match fuel with
    | O => raise OutOfFuel
    | S fuel =>
        b ← on_partial Partial.evict_one;
        if b : bool then make_room fuel demand else mret tt
    end.

(** New blocks for the copies of one group, recording the copies. *)
Definition snapshot_group (i : nat) (sources : list loc) : M KVCacheManager (list loc) :=
  targets ← on_km_pool (Pool.get_new_blocks use_int (zlen sources) (Some (Z.of_nat i)));
  modify (λ k, set_copies (_block_copies k ++ (block_id_pair k <$> zip sources targets)) k) ;;
  mret targets.

(** The body of the loop of [_materialize_snapshots]; the request objects are
    read at this point, so their current state is a parameter. *)
Definition materialize_one (requests : gmap Z Request) (pending : Z * Z * Z)
    : M KVCacheManager unit :=
  let '(obj, boundary, preemptions) := pending in
  request ← of_option KeyError (requests !! obj);
  k ← get;
  if negb (num_preemptions request =? preemptions) || is_finished request then mret tt
  else
    key ← of_outcome (_partial_key k request boundary);
    cache ← of_option AssertionError (partial_cache k);
    if Partial.contains cache key then mret tt
    else
      let managers := single_type_managers (coordinator k) in
      match snapshot_sources (km_pool k) (request_id request) boundary managers with
      | None => mret tt
      | Some sources =>
          let demand := group_demand sources in
          make_room (S (length (pc_entries cache))) demand ;;
          k ← get;
          if negb (Pool.can_allocate_group_blocks (km_pool k) demand) then mret tt
          else
            targets ← mapM_list (λ e, snapshot_group e.1 e.2) (zip (seq 0 (length sources)) sources);
            let flat := concat sources in
            on_km_pool (Pool.touch flat) ;;
            _defer_release flat ;;
            k ← get;
            on_partial (Partial.insert
              (mkEntry key boundary targets
                 ((λ m : Manager, negb (boundary mod m_block_size m =? 0)) <$> managers) (_step k)))
      end.

Definition _materialize_snapshots (requests : gmap Z Request) : M KVCacheManager unit :=
  k ← get;
  py_assert (bool_decide (is_Some (partial_cache k))) ;;
  modify (set_snapshots []) ;;
  foreach (_pending_snapshots k) (materialize_one requests).

(** The loop of [_reclaim_partial_blocks]. *)
Fixpoint reclaim_loop (fuel : nat) (num_blocks : Z) : M KVCacheManager bool :=
  match fuel with
  | O => raise OutOfFuel
  | S fuel =>
      b ← on_partial Partial.evict_one;
      if negb b then mret false
      else
        k ← get;
        if num_blocks <=? Pool.get_num_free_blocks (km_pool k) None then mret true
        else reclaim_loop fuel num_blocks
  end.

Definition _reclaim_partial_blocks (num_blocks : Z) : M KVCacheManager bool :=
  k ← get;
  if num_blocks <=? Pool.get_num_free_blocks (km_pool k) None then mret true
  else
    match partial_cache k with
    | None => mret false
    | Some cache => reclaim_loop (S (length (pc_entries cache))) num_blocks
    end.

Definition take_block_copies : M KVCacheManager (list (Z * Z)) :=
  copies ← gets _block_copies;
  modify (set_copies []) ;;
  mret copies.

(** ** Lookup of computed blocks *)

Definition with_boundary (v : Z) (r : Request) : Request :=
  mkRequest (req_args r) (status r) (stop_reason r) (_output_token_ids r) (_all_token_ids r)
    (spec_token_ids r) (num_computed_tokens r) (num_output_placeholders r) (num_in_flight_tokens r)
    (num_preemptions r) v (block_hashes r) (_prompt_embeds_per_block_hashes r).

(** [_V41_RING_REACH] *)
Definition v41_ring_reach : Z := 128.

Definition _v41_session_hit (k : KVCacheManager) (request : Request) (hit : Z) : bool :=
  match _v41_last k with
  | None => false
  | Some (tokens, processed) =>
      (hit mod 2 =? 0) && (processed - v41_ring_reach <=? hit) && (hit <=? processed) &&
      bool_decide (py_slice (_all_token_ids request) 0 hit = py_slice tokens 0 hit)
  end.

Definition get_computed_blocks (request : KVRequest)
    : M KVCacheManager (KVCacheBlocks * Z * KVRequest) :=
  k ← get;
  let r := with_boundary 0 request in
  if negb (km_enable_caching k) || skip_reading_prefix_cache r
  then mret (EmptyBlocks, 0, mkKVReq r None)
  else
    let max_cache_hit_length := num_tokens r - 1 in
    hit ← on_coord (coord_find_longest_cache_hit (block_hashes r) max_cache_hit_length);
    let '(computed_blocks, num_new_computed_tokens) := hit in
    k ← get;
    let r := with_boundary (coord_boundary (coordinator k)) r in
    if v41_session_prefix k && negb (num_new_computed_tokens =? 0) &&
       negb (_v41_session_hit k r num_new_computed_tokens)
    then mret (EmptyBlocks, 0, mkKVReq (with_boundary 0 r) None)
    else
      partial ← _partial_prefix_hit r num_new_computed_tokens max_cache_hit_length;
      match partial with
      | Some (blocks, n, entry) => mret (create_kv_cache_blocks blocks, n, mkKVReq r (Some entry))
      | None => mret (create_kv_cache_blocks computed_blocks, num_new_computed_tokens, mkKVReq r None)
      end.

(** ** Allocation *)

Record AllocateArgs : Type := mkAllocate {
  num_new_tokens : Z;
  num_new_computed_tokens : Z;
  new_computed_blocks : KVCacheBlocks;
  num_lookahead_tokens : Z;
  num_external_computed_tokens : Z;
  delay_cache_blocks : bool;
  num_encoder_tokens : Z;
  full_sequence_must_fit : bool;
}.

Definition is_empty_object (b : KVCacheBlocks) : bool :=
  match b with EmptyBlocks => true | Blocks _ => false end.

(** Local and total computed tokens, tokens of the main model, tokens that need
    a slot. *)
Definition num_local_computed_tokens (r : Request) (a : AllocateArgs) : Z :=
  num_computed_tokens r + num_new_computed_tokens a.
Definition total_computed_tokens (k : KVCacheManager) (r : Request) (a : AllocateArgs) : Z :=
  Z.min (num_local_computed_tokens r a + num_external_computed_tokens a) (max_model_len k).
Definition num_tokens_main_model (k : KVCacheManager) (r : Request) (a : AllocateArgs) : Z :=
  total_computed_tokens k r a + num_new_tokens a.
Definition num_tokens_need_slot (k : KVCacheManager) (r : Request) (a : AllocateArgs) : Z :=
  Z.min (num_tokens_main_model k r a + num_lookahead_tokens a) (max_model_len k).

(** The admission gate of [full_sequence_must_fit]. *)
Definition full_sequence_fits (r : Request) (a : AllocateArgs) : M KVCacheManager bool :=
  k ← get;
  if negb (full_sequence_must_fit a) then mret true
  else
    let full_num_tokens := Z.min (num_tokens r) (max_model_len k) in
    needed ← on_coord (get_num_blocks_to_allocate (request_id r) full_num_tokens
               (blocks_of k (new_computed_blocks a)) (num_encoder_tokens a)
               (total_computed_tokens k r a) full_num_tokens true);
    _reclaim_partial_blocks needed.

(** The entry a hit redirects from, unless the hit has no blocks. *)
Definition entry_of (request : KVRequest) (a : AllocateArgs) : option PartialEntry :=
  if is_empty_object (new_computed_blocks a) then None else partial_prefix_entry request.

(** [sum(partial_entry.copy_last)] *)
Definition num_copies (e : option PartialEntry) : Z :=
  match e with
  | None => 0
  | Some e => zlen (filter (λ b : bool, b = true) (copy_last e))
  end.

(** The blocks are free, releasing partial entries if needed. *)
Definition step_fits (request : KVRequest) (a : AllocateArgs) : M KVCacheManager bool :=
  k ← get;
  needed ← on_coord (get_num_blocks_to_allocate (request_id request) (num_tokens_need_slot k request a)
             (blocks_of k (new_computed_blocks a)) (num_encoder_tokens a)
             (num_local_computed_tokens request a + num_external_computed_tokens a)
             (num_tokens_main_model k request a) false);
  _reclaim_partial_blocks (needed + num_copies (entry_of request a)).

(** Hand over the computed blocks; the request loses its partial entry. *)
Definition add_computed (request : KVRequest) (a : AllocateArgs) : M KVCacheManager KVRequest :=
  k ← get;
  if negb (is_empty_object (new_computed_blocks a)) || (0 <? num_external_computed_tokens a) then
    on_coord (allocate_new_computed_blocks use_int (request_id request)
                (blocks_of k (new_computed_blocks a)) (num_local_computed_tokens request a)
                (num_external_computed_tokens a)) ;;
    match entry_of request a with
    | None => mret request
    | Some e =>
        _redirect_partial_hit (request_id request) e ;;
        mret (mkKVReq request None)
    end
  else mret request.

(** The tokens committed to the cache. *)
Definition num_tokens_to_commit (k : KVCacheManager) (r : Request) (a : AllocateArgs) : Z :=
  Z.min (total_computed_tokens k r a + num_new_tokens a)
    (if cache_output_tokens r then num_tokens r else num_prompt_tokens r).

Definition note_snapshot (r : Request) (step_end : Z) : M KVCacheManager unit :=
  k ← get;
  when (bool_decide (is_Some (partial_cache k)) && bool_decide (step_end ∈ prefix_cache_boundaries r) &&
        negb (step_end mod partial_block_size k =? 0) && (step_end <? num_prompt_tokens r))
    (modify (λ k, set_snapshots
       (_pending_snapshots k ++ [(req_obj r, step_end, num_preemptions r)]) k)).

Definition cache_step (request : KVRequest) (a : AllocateArgs) : M KVCacheManager KVRequest :=
  k ← get;
  if negb (km_enable_caching k) || delay_cache_blocks a then mret request
  else
    on_coord (cache_blocks sha256 use_int request (num_tokens_to_commit k request a))
      ≫= λ r : Request,
    note_snapshot r (total_computed_tokens k r a + num_new_tokens a) ;;
    mret (mkKVReq r (partial_prefix_entry request)).

(** [None] when the blocks do not fit. *)
Definition allocate_slots (request : KVRequest) (a : AllocateArgs)
    : M KVCacheManager (option KVCacheBlocks * KVRequest) :=
  k ← get;
  if (num_new_tokens a =? 0) && (num_external_computed_tokens a =? 0) then raise ValueError
  else
    fits ← full_sequence_fits request a;
    if negb fits then mret (None, request)
    else
      on_coord (remove_skipped_blocks (request_id request)
        (Z.max 0 (total_computed_tokens k request a - num_in_flight_tokens request))
        (Some (num_prompt_tokens request))) ;;
      fits ← step_fits request a;
      if negb fits then mret (None, request)
      else
        request ← add_computed request a;
        new_blocks ← on_coord (allocate_new_blocks use_int (request_id (kv_req request))
                       (num_tokens_need_slot k (kv_req request) a)
                       (num_tokens_main_model k (kv_req request) a) (num_encoder_tokens a));
        request ← cache_step request a;
        mret (Some (create_kv_cache_blocks new_blocks), request).

(** ** The other operations *)

Definition km_free (request : Request) : M KVCacheManager unit :=
  k ← get;
  when (v41_session_prefix k)
    (modify (set_v41_last (Some (_all_token_ids request, num_computed_tokens request)))) ;;
  on_coord (free (request_id request)).

Definition km_remove_skipped_blocks (rid : string) (processed_computed_tokens : Z)
    (num_prompt_tokens : option Z) : M KVCacheManager unit :=
  on_coord (remove_skipped_blocks rid processed_computed_tokens num_prompt_tokens).

Definition km_evict_blocks (block_ids : list Z) : M KVCacheManager unit :=
  on_km_pool (Pool.evict_blocks use_int block_ids).

Definition release_deferred (l : list (Z * list loc)) : M KVCacheManager unit :=
  foreach l (λ e, on_km_pool (Pool.free_blocks e.2 false)).

Definition km_reset_prefix_cache : M KVCacheManager bool :=
  k ← get;
  when (bool_decide (is_Some (partial_cache k))) (
    on_partial Partial.clear ;;
    release_deferred (_deferred_release k) ;;
    modify (set_deferred [])) ;;
  on_km_pool Pool.reset_prefix_cache.

Definition km_get_num_common_prefix_blocks (rid : string) : M KVCacheManager (list Z) :=
  on_coord (get_num_common_prefix_blocks rid).

Definition km_get_blocks (k : KVCacheManager) (rid : string) : KVCacheBlocks :=
  create_kv_cache_blocks (get_blocks (coordinator k) rid).

(** [isinstance(spec, AttentionSpec)] but not cross or encoder-only attention *)
Definition clips_blocks (c : spec_class) : bool :=
  match c with MambaSpec _ _ | CrossAttentionSpec | EncoderOnlyAttentionSpec => false | _ => true end.

Definition get_block_ids_for_computed_tokens (k : KVCacheManager) (rid : string)
    (num_computed_tokens : Z) : list (list Z) :=
  zip_with (λ (g : KVCacheGroupSpec) (ids : list Z),
    if clips_blocks (spec_type (group_spec g))
    then py_slice ids 0 (cdiv num_computed_tokens (spec_block_size (group_spec g))) else ids)
    (kv_cache_groups (kv_cache_config (coordinator k)))
    (block_ids_of (km_pool k) (blocks_of k (km_get_blocks k rid))).

Definition km_cache_blocks (request : Request) (num_computed_tokens : Z) : M KVCacheManager Request :=
  k ← get;
  if km_enable_caching k then on_coord (cache_blocks sha256 use_int request num_computed_tokens)
  else mret request.

Definition km_take_new_block_ids : M KVCacheManager (list Z) :=
  ids ← on_coord (each_manager (λ _ _, Base.take_new_block_ids));
  mret (concat ids).

(** Filed per request in order: group, block id, boundary. *)
Definition take_boundary_state_offloads : M KVCacheManager (gmap string (list (Z * Z * Z))) :=
  pending ← on_coord (each_manager (λ _ _, Base.take_pending_boundary_state_offloads));
  k ← get;
  mret (foldl (λ (m : gmap string (list (Z * Z * Z))) (e : offload),
          let '(rid, group_id, block, boundary) := e in
          <[rid := default [] (m !! rid) ++
              [(group_id, block_id (pool_block (km_pool k) block), boundary)]]> m)
          ∅ (concat pending)).

(** The deferred releases that are due, and those kept. *)
Definition due (step : Z) (l : list (Z * list loc)) : list (Z * list loc) :=
  filter (λ e, e.1 <= step) l.
Definition not_due (step : Z) (l : list (Z * list loc)) : list (Z * list loc) :=
  filter (λ e, ¬ e.1 <= step) l.

Definition km_new_step_starts (requests : gmap Z Request) : M KVCacheManager unit :=
  modify (λ k, set_step (_step k + 1) k) ;;
  k ← get;
  release_deferred (due (_step k) (_deferred_release k)) ;;
  modify (set_deferred (not_due (_step k) (_deferred_release k))) ;;
  when (negb (is_nil (_pending_snapshots k))) (_materialize_snapshots requests) ;;
  on_coord new_step_starts.
End operations.
