(* ===== verification/CoordinatorAdmission.v ===== *)
(** * Admission through the coordinator

    The number of blocks [get_num_blocks_to_allocate] asks for, summed over the
    groups, is enough: when that many blocks are free, adding the computed blocks
    of every group and then allocating the new tokens cannot fail, although the
    groups take their blocks from the same pool one after the other. *)

From S2P Require Import Prelude.
From S2P Require Import FreeQueue.
From S2P Require Import BlockPool.
From S2P Require Import BlockPoolInv.
From S2P Require Import BlockPoolSpec.
From S2P Require Import BlockPoolProps.
From S2P Require Import PoolTheorems.
From S2P Require Import KVCacheSpec.
From S2P Require Import SingleType.
From S2P Require Import SingleTypeSpec.
From S2P Require Import SingleTypeOps.
From S2P Require Import SingleTypeTheorems.
From S2P Require Import Admission.
From S2P Require Import Coordinator.
From S2P Require Import CoordinatorInv.
Local Open Scope Z_scope.

(** ** Other requests keep their tables, references only grow *)

Definition others_kept (rid : string) (s s' : mstate) : Prop :=
  delete rid (req_to_blocks (mgr s')) = delete rid (req_to_blocks (mgr s)).

Lemma others_kept_refl rid s : others_kept rid s s.
Proof. done. Qed.

Lemma others_kept_trans rid s1 s2 s3 :
  others_kept rid s1 s2 → others_kept rid s2 s3 → others_kept rid s1 s3.
Proof. unfold others_kept. congruence. Qed.

Lemma entries_split T rid b : entries T b = count b (default [] (T !! rid)) + entries (delete rid T) b.
Proof. rewrite entries_delete. lia. Qed.

Lemma refs_grow s s' rid b :
  good s s' → others_kept rid s s' → b ∈ blocks (block_pool s) → b ≠ null_block (block_pool s) →
  count b (req_blocks (mgr s) rid) ≤ count b (req_blocks (mgr s') rid) →
  ref (block_pool s) b ≤ ref (block_pool s') b.
Proof.
  intros [_ [_ _ Hr]] Ho Hb Hn Hc. specialize (Hr b Hb Hn). unfold others_kept in Ho.
  pose proof (entries_split (req_to_blocks (mgr s)) rid b) as H1.
  pose proof (entries_split (req_to_blocks (mgr s')) rid b) as H2.
  rewrite Ho in H2. unfold req_blocks in Hc. lia.
Qed.

Lemma on_pool_kept {A} (m : M BlockPool A) s :
  wpe (on_pool m) s (λ _ s', mgr s' = mgr s) (λ _ s', mgr s' = mgr s).
Proof. unfold on_pool, zoom, wpe. by destruct (m (block_pool s)) as [[] p]. Qed.

Lemma put_table_kept s rid l : others_kept rid s (put_table s rid l).
Proof. unfold others_kept. simpl. by rewrite delete_insert_eq. Qed.

Section operations.
Context (use_int : bool).

Lemma allocate_computed_kept s rid computed local external :
  wpe (Base.allocate_new_computed_blocks use_int rid computed local external) s
    (λ _ s', others_kept rid s s') (λ _ s', others_kept rid s s').
Proof.
  assert (Hmgr : ∀ s1 s2 : mstate, mgr s2 = mgr s1 → others_kept rid s s1 → others_kept rid s s2).
  { unfold others_kept. by intros s1 s2 ->. }
  unfold Base.allocate_new_computed_blocks. wpe_step. wpe_step. cbv zeta.
  destruct (num_cached_block _ !! rid).
  { apply wpe_assert; done. }
  wpe_step. apply wpe_get_req_blocks. assert (H1 := put_table_kept s rid (req_blocks (mgr s) rid)).
  set (s1 := put_table s rid _) in *. wpe_step. apply wpe_assert; [intros _|done].
  wpe_step.
  assert (Htouch : ∀ l, wpe (if m_enable_caching (mgr s) then on_pool (Pool.touch l)
    else py_assert (bool_decide (l = []))) s1 (λ _ s', mgr s' = mgr s1) (λ _ s', mgr s' = mgr s1)).
  { intros l. destruct (m_enable_caching _); [apply on_pool_kept|]. by apply wpe_assert. }
  eapply wpe_mono; [apply Htouch| |intros e s' ?; by apply (Hmgr s1)].
  intros [] s2 Hm2. assert (H2 : others_kept rid s s2) by by apply (Hmgr s1).
  set (tbl := req_blocks (mgr s) rid ++ _). wpe_step. unfold put_req_blocks at 1, upd_mgr.
  wpe_step. wpe_step. wpe_step. set (s3 := MState _ _).
  assert (H3 : others_kept rid s s3).
  { eapply others_kept_trans; [exact H2|]. unfold others_kept. simpl. by rewrite delete_insert_eq. }
  apply wpe_when; [intros _|done]. wpe_step.
  eapply wpe_mono; [apply on_pool_kept| |intros e s' ?; by apply (Hmgr s3)].
  intros bs s4 Hm4. assert (H4 : others_kept rid s s4) by by apply (Hmgr s3).
  wpe_step. unfold put_req_blocks, upd_mgr. wpe_step. set (s5 := MState _ _).
  assert (H5 : others_kept rid s s5).
  { eapply others_kept_trans; [exact H4|]. unfold others_kept. simpl. by rewrite delete_insert_eq. }
  apply wpe_when; [intros _|done]. unfold extend_new_block_ids. by wpe_step.
Qed.

Lemma evictable_mono p p' bs :
  (∃ st hi, pool_inv p st hi []) → (∃ st hi, pool_inv p' st hi []) → same_pool p p' →
  (∀ b, b ∈ bs → b ∈ blocks p) →
  (∀ b, b ∈ bs → b ≠ null_block p → ref p b ≤ ref p' b) →
  _get_num_evictable_blocks p' bs ≤ _get_num_evictable_blocks p bs.
Proof.
  intros (st & hi & Hi) (st' & hi' & Hi') Hs Hb Hr. destruct (same_pool_blocks _ _ Hs) as [Eb En].
  unfold _get_num_evictable_blocks. induction bs as [|x bs IH]; [done|].
  assert (Hrec : zlen (filter (λ b, ref p' b = 0 ∧ is_null (pool_block p' b) = false) bs) ≤
    zlen (filter (λ b, ref p b = 0 ∧ is_null (pool_block p b) = false) bs)).
  { apply IH; intros b Hin; [apply Hb|apply Hr]; by right. }
  assert (Hx : x ∈ blocks p) by (apply Hb; by left).
  rewrite !filter_cons. destruct (decide (ref p' x = 0 ∧ _)) as [[H0 Hnl]|].
  - rewrite decide_True; [rewrite !zlen_cons; lia|].
    rewrite (pi_is_null _ _ _ _ Hi') in Hnl by (by rewrite Eb). rewrite (pi_is_null _ _ _ _ Hi) by done.
    rewrite En in Hnl. split; [|done]. apply bool_decide_eq_false in Hnl.
    specialize (Hr x ltac:(by left) Hnl). pose proof (pi_ref _ _ _ _ Hi x Hx Hnl). lia.
  - case_decide; rewrite ?zlen_cons; lia.
Qed.

(** The blocks a table still misses for [n] tokens. *)
Definition missing (n : Z) (rid : string) (m : Manager) : Z :=
  Z.max 0 (cdiv n (m_block_size m) - zlen (req_blocks m rid)).

(** References of real blocks only grow from [p] to [p']. *)
Definition refs_le (p p' : BlockPool) : Prop :=
  ∀ b, b ∈ blocks p → b ≠ null_block p → ref p b ≤ ref p' b.

Lemma predicted_mono m p p' rid n computed total :
  (∃ st hi, pool_inv p st hi []) → (∃ st hi, pool_inv p' st hi []) → same_pool p p' →
  refs_le p p' → (∀ b, b ∈ computed → b ∈ blocks p) →
  predicted (MState m p') rid n computed total ≤ predicted (MState m p) rid n computed total.
Proof.
  intros Hi Hi' Hs Hr Hb. unfold predicted. simpl. case_match; [done|].
  set (l := py_from _ _).
  assert (Hin : ∀ b, b ∈ l → b ∈ blocks p).
  { intros b Hbl. apply Hb. unfold l, py_from in Hbl. by eapply subseteq_drop. }
  pose proof (evictable_mono p p' l Hi Hi' Hs Hin (λ b H1 H2, Hr b (Hin b H1) H2)). lia.
Qed.

(** One manager's turn to add its computed blocks: it leaves room for what it
    still misses. *)
Lemma turn_computed m p p' rid n computed local external :
  mgr_inv (MState m p') → (∃ st hi, pool_inv p st hi []) → same_pool p p' → refs_le p p' →
  is_single p' → base_class (class_of m) →
  computed_ok (MState m p') computed local external → callable (MState m p') rid computed →
  local + external ≤ n →
  predicted (MState m p) rid n computed (local + external) ≤ free_count p' →
  wp (Manager.allocate_new_computed_blocks use_int rid computed local external) (MState m p') (λ _ s',
    good (MState m p') s' ∧ refs_le p' (block_pool s') ∧
    missing n rid (mgr s') + free_count p' - predicted (MState m p) rid n computed (local + external)
      ≤ free_count (block_pool s')).
Proof.
  intros Hi Hp Hs Hr Hsing Hcls Hc Hcall Hle Hfree. set (s := MState m p') in *.
  assert (Hmono : predicted s rid n computed (local + external) ≤
    predicted (MState m p) rid n computed (local + external)).
  { apply predicted_mono; [done|apply Hi|done|done|]. intros b Hb.
    destruct (same_pool_blocks _ _ Hs) as [<- _]. by apply Hc. }
  assert (Hac : wp (Base.allocate_new_computed_blocks use_int rid computed local external) s (λ _ s',
    good s s' ∧ refs_le p' (block_pool s') ∧
    missing n rid (mgr s') + free_count p' - predicted (MState m p) rid n computed (local + external)
      ≤ free_count (block_pool s'))).
  2:{ unfold Manager.allocate_new_computed_blocks. wp_step. wp_step. change (class_of (mgr s)) with (class_of m).
      destruct (class_of m) as [[]|]; try done; exact Hac. }
  assert (Hw := Base_allocate_computed_good use_int s rid computed local external Hi Hc).
  assert (Hk := allocate_computed_kept s rid computed local external).
  unfold wp, wpe in *. destruct (Base.allocate_new_computed_blocks _ _ _ _ _ s) as [[[]|e] s'].
  2:{ destruct Hw as [_ Hsh]. destruct (Hsh Hcall Hsing) as [En Hlt]. unfold callable in Hcall.
      rewrite En in Hcall. destruct Hcall as [Hr0 _].
      rewrite (predicted_new s rid n computed local external) in Hmono by done.
      change (block_pool s) with p' in Hlt. lia. }
  destruct Hw as [Hg Hres]. split; [done|].
  assert (Hm : m_block_size (mgr s') = m_block_size m) by (by rewrite (co_args _ _ (proj2 Hg))).
  unfold callable in Hcall. change (mgr s) with m in *.
  destruct (num_cached_block m !! rid) eqn:En.
  - subst s'. split; [by intros b _ _|]. simpl. unfold predicted, missing. simpl. rewrite En. lia.
  - destruct Hres as (extra & Hr1 & Hz & Hfc). destruct Hcall as [Hr0 _]. split.
    + intros b Hb Hn. apply (refs_grow s s' rid b Hg Hk Hb Hn). change (mgr s) with m. rewrite Hr0.
      unfold count. simpl. lia.
    + rewrite (predicted_new s rid n computed local external) in Hmono by done.
      unfold missing. rewrite Hm, Hr1, zlen_app, Hz, Hfc. change (mgr s) with m in *.
      change (block_pool s) with p'. lia.
Qed.

(** One manager's turn to allocate what it misses. *)
Lemma turn_allocate s rid n n_main :
  mgr_inv s → is_single (block_pool s) → base_class (class_of (mgr s)) → 0 < m_block_size (mgr s) →
  missing n rid (mgr s) ≤ free_count (block_pool s) →
  wp (Manager.allocate_new_blocks use_int rid n n_main) s (λ bs s', good s s' ∧
    n ≤ zlen (req_blocks (mgr s') rid) * m_block_size (mgr s) ∧
    free_count (block_pool s') = free_count (block_pool s) - missing n rid (mgr s)).
Proof. intros Hi Hsing Hcls Hbs Hfree. by apply allocate_rest; [apply good_refl|..]. Qed.

(** ** Loops over the managers *)

Abbreviation put_at c i s :=
  (set_pool (block_pool s) (set_managers (<[i := mgr s]> (single_type_managers c)) c)).

Lemma wp_on_manager {A} i (f : M mstate A) c m Q :
  single_type_managers c !! i = Some m →
  wp f (MState m (coord_pool c)) (λ a s', Q a (put_at c i s')) → wp (on_manager i f) c Q.
Proof.
  intros E. unfold on_manager, wp. rewrite E. by destruct (f (MState m (coord_pool c))) as [[a|e] s'].
Qed.

Lemma wp_each_manager {A} (f : nat → Manager → M mstate A) c (I : nat → Coordinator → Prop) :
  I 0%nat c →
  (∀ i c', I i c' → length (single_type_managers c') = length (single_type_managers c)) →
  (∀ i c' m, I i c' → single_type_managers c' !! i = Some m →
     wp (f i m) (MState m (coord_pool c')) (λ _ s', I (S i) (put_at c' i s'))) →
  wp (each_manager f) c (λ _ c', I (length (single_type_managers c)) c').
Proof.
  intros H0 Hlen Hstep. unfold each_manager. wp_step. wp_step.
  set (N := length (single_type_managers c)) in *.
  cut (∀ k i c', (i + k = N)%nat → I i c' →
    wp (mapM_list (λ i, on_manager i (s ← get; f i (mgr s))) (seq i k)) c' (λ _ c'', I N c'')).
  { intros Hc. by apply Hc. }
  induction k as [|k IH]; intros i c' Hik Hi; cbn [seq mapM_list].
  { wp_step. by replace N with i by lia. }
  destruct (lookup_lt_is_Some_2 (single_type_managers c') i) as [m Em]; [rewrite (Hlen i c' Hi); lia|].
  wp_step. eapply wp_on_manager; [exact Em|]. wp_step. wp_step. eapply wp_mono; [by apply Hstep|].
  intros a s' HI. wp_step. eapply wp_mono; [apply (IH (S i)); [lia|exact HI]|].
  intros l c'' Hfin. by wp_step.
Qed.

Lemma coordinator_eta c : set_pool (coord_pool c) (set_managers (single_type_managers c) c) = c.
Proof. by destruct c. Qed.

(** Methods that only read. *)
Lemma each_manager_reads {A} (f : nat → Manager → M mstate A) (g : nat → Manager → A) c :
  (∀ i m, single_type_managers c !! i = Some m →
     f i m (MState m (coord_pool c)) = (Ret (g i m), MState m (coord_pool c))) →
  each_manager f c = (Ret (imap g (single_type_managers c)), c).
Proof.
  intros Hf. unfold each_manager, get, mbind at 1, M_bind. set (ms := single_type_managers c) in *.
  assert (Hput : ∀ i m, ms !! i = Some m → put_at c i (MState m (coord_pool c)) = c).
  { intros i m E. simpl. fold ms. rewrite list_insert_id by done. by destruct c. }
  cut (∀ l pre, ms = pre ++ l →
    mapM_list (λ i, on_manager i ((λ s : mstate, (Ret s, s)) ≫= λ s, f i (mgr s))) (seq (length pre) (length l)) c
      = (Ret (imap (λ i, g (length pre + i)%nat) l), c)).
  { intros Hc. by apply (Hc ms []). }
  induction l as [|m l IH]; intros pre Hms; [done|]. cbn [length seq mapM_list].
  assert (E : ms !! length pre = Some m) by (by rewrite Hms, list_lookup_middle).
  unfold mbind, M_bind at 1. unfold on_manager at 1. fold ms. rewrite E. unfold mbind, M_bind at 1.
  simpl mgr. rewrite (Hf _ _ E). cbn [block_pool mgr].
  specialize (Hput _ _ E). cbn [block_pool mgr] in Hput. fold ms in Hput. rewrite Hput.
  specialize (IH (pre ++ [m])). rewrite length_app in IH. simpl in IH. rewrite Nat.add_1_r in IH.
  unfold M_bind. unfold mbind, M_bind in IH. rewrite IH by (by rewrite <-(assoc_L (++))).
  unfold mret, M_ret. do 2 f_equal. simpl. rewrite Nat.add_0_r. f_equal.
  apply imap_ext. intros i x _. simpl. by rewrite Nat.add_succ_r.
Qed.

(** ** Demands of the managers before and after their turn *)

Lemma zsum_insert l i x y : l !! i = Some x → zsum (<[i := y]> l) = zsum l - x + y.
Proof.
  revert i. induction l as [|z l IH]; intros [|i] E; simpl in *; simplify_eq; [lia|].
  rewrite (IH i) by done. lia.
Qed.

Lemma zsum_elem l x : Forall (λ n, 0 ≤ n) l → x ∈ l → x ≤ zsum l.
Proof.
  induction 1 as [|y l Hy Hl IH]; intros Hx; [by apply not_elem_of_nil in Hx|]. rewrite zsum_cons.
  pose proof (zsum_nonneg l Hl). apply elem_of_cons in Hx as [->|Hx]; [lia|]. specialize (IH Hx). lia.
Qed.

(** The demand [after m] of the managers before [i], [before j m] of the others. *)
Definition turn_demand (after : Manager → Z) (before : nat → Manager → Z) (i j : nat) (m : Manager) : Z :=
  if decide (j < i)%nat then after m else before j m.

Definition demand (after : Manager → Z) (before : nat → Manager → Z) (i : nat) (ms : list Manager) : Z :=
  zsum (imap (turn_demand after before i) ms).

Lemma demand_step after before i ms m m' :
  ms !! i = Some m →
  demand after before (S i) (<[i := m']> ms) = demand after before i ms - before i m + after m'.
Proof.
  intros E. unfold demand.
  assert (Hl : imap (turn_demand after before (S i)) (<[i := m']> ms) =
    <[i := after m']> (imap (turn_demand after before i) ms)).
  { apply list_eq. intros j. rewrite list_lookup_imap. destruct (decide (j = i)) as [->|Hne].
    - rewrite !list_lookup_insert_eq by (rewrite ?length_imap; by eapply lookup_lt_Some). simpl.
      unfold turn_demand. by rewrite decide_True by lia.
    - rewrite !list_lookup_insert_ne, list_lookup_imap by done. destruct (ms !! j); [|done]. simpl. f_equal.
      unfold turn_demand. destruct (decide (j < i)%nat), (decide (j < S i)%nat); done || lia. }
  rewrite Hl. rewrite (zsum_insert _ i (before i m)); [lia|].
  rewrite list_lookup_imap, E. simpl. unfold turn_demand. by rewrite decide_False by lia.
Qed.

Lemma demand_all after before ms :
  demand after before (length ms) ms = zsum (after <$> ms).
Proof.
  unfold demand. f_equal. apply list_eq. intros j. rewrite list_lookup_imap, list_lookup_fmap.
  destruct (ms !! j) eqn:E; [|done]. simpl. f_equal. unfold turn_demand.
  rewrite decide_True; [done|]. by eapply lookup_lt_Some.
Qed.

Lemma demand_none after before ms : demand after before 0 ms = zsum (imap before ms).
Proof. reflexivity. Qed.

(** The manager at [i] finds room for its demand. *)
Lemma demand_room after before i ms m :
  (∀ m, 0 ≤ after m) → (∀ j m, 0 ≤ before j m) → ms !! i = Some m →
  before i m ≤ demand after before i ms.
Proof.
  intros Ha Hb E. apply zsum_elem.
  - apply Forall_lookup_2. intros j x Hx. rewrite list_lookup_imap in Hx.
    destruct (ms !! j); [|done]. simplify_eq/=. unfold turn_demand. by case_decide.
  - apply list_elem_of_lookup. exists i. rewrite list_lookup_imap, E. simpl.
    unfold turn_demand. by rewrite decide_False by lia.
Qed.

Lemma imap_const {A B} (f : A → B) (l : list A) : imap (λ _, f) l = f <$> l.
Proof. apply list_eq. intros j. by rewrite list_lookup_imap, list_lookup_fmap. Qed.

Lemma zsum_imap_mono {A} (f g : nat → A → Z) l :
  (∀ i x, l !! i = Some x → f i x ≤ g i x) → zsum (imap f l) ≤ zsum (imap g l).
Proof.
  revert f g. induction l as [|x l IH]; intros f g H; [done|]. cbn [imap]. rewrite !zsum_cons.
  specialize (H 0%nat x eq_refl) as H0. specialize (IH (f ∘ S) (g ∘ S) (λ i y E, H (S i) y E)).
  by apply Z.add_le_mono.
Qed.

Lemma zsum_zero {A} (l : list A) : zsum ((λ _, 0) <$> l) = 0.
Proof. induction l as [|x l IH]; [done|]. by rewrite fmap_cons, zsum_cons, IH. Qed.

Lemma predicted_nonneg s rid n computed total : 0 ≤ predicted s rid n computed total.
Proof.
  unfold predicted, _get_num_evictable_blocks. case_match; [lia|]. apply Z.add_nonneg_nonneg; [lia|].
  apply zlen_nonneg.
Qed.

Lemma missing_nonneg n rid m : 0 ≤ missing n rid m.
Proof. unfold missing. lia. Qed.

(** ** Prediction, then allocation *)

Section coordinator.
Context (ext : loc → Z) (Hext : ∀ b, 0 ≤ ext b).
Context (c : Coordinator) (Hinv : coord_inv ext c) (Hsing : is_single (coord_pool c)).
Context (Hcls : ∀ m, m ∈ single_type_managers c → base_class (class_of m) ∧ 0 < m_block_size m).
Context (rid : string) (n n_main enc local external : Z) (computed : list (list loc)).
Context (Hcomputed : ∀ i m, single_type_managers c !! i = Some m →
  ∃ bs, computed !! i = Some bs ∧
    computed_ok (MState m (coord_pool c)) bs local external ∧ callable (MState m (coord_pool c)) rid bs).
Context (Hn : local + external ≤ n).

Definition group_prediction (i : nat) (m : Manager) : Z :=
  predicted (MState m (coord_pool c)) rid n (default [] (computed !! i)) (local + external).

(** A request brings computed blocks for every group, and none where it has some
    cached already. *)
Definition predictable : Prop := ∀ i m, single_type_managers c !! i = Some m →
  ∃ bs, computed !! i = Some bs ∧ (is_Some (num_cached_block m !! rid) → bs = []).

Lemma computed_predictable : predictable.
Proof using Hcomputed.
  intros i m E. destruct (Hcomputed i m E) as (bs & Ebs & _ & Hcall). exists bs. split; [done|]. intros [x Hx].
  unfold callable in Hcall. simpl in Hcall. by rewrite Hx in Hcall.
Qed.

Lemma base_not_cross m : m ∈ single_type_managers c → isinstance_cross m = false.
Proof using Hcls.
  intros [Hm _]%Hcls. unfold isinstance_cross. apply bool_decide_eq_false. intros Hc. by rewrite Hc in Hm.
Qed.

Lemma coord_predicts : predictable →
  get_num_blocks_to_allocate rid n computed enc (local + external) n_main false c =
    (Ret (zsum (imap group_prediction (single_type_managers c))), c).
Proof using Hcls Hsing.
  intros Hpred. unfold get_num_blocks_to_allocate, mbind at 1, M_bind.
  rewrite (each_manager_reads _ group_prediction).
  - run_method. unfold Pool.can_allocate_group_blocks.
    unfold is_single in Hsing. by destruct (free_block_queue (coord_pool c)).
  - intros i m E. destruct (Hpred i m E) as (bs & Ebs & Hb).
    destruct (Hcls m (list_elem_of_lookup_2 _ _ _ E)) as [Hm _].
    rewrite base_not_cross by by eapply list_elem_of_lookup_2. unfold group_blocks, group_prediction. rewrite Ebs. cbn [of_option default].
    unfold mbind, M_bind, mret, M_ret. unfold Manager.get_num_blocks_to_allocate, mbind, M_bind, get.
    assert (Hp := base_predicted (MState m (coord_pool c)) rid n bs (local + external) n_main).
    specialize (Hp Hb). unfold wp in Hp. simpl mgr in *.
    destruct (Base.get_num_blocks_to_allocate rid n bs (local + external) n_main false
      (MState m (coord_pool c))) as [[k|] s'] eqn:Ek; [|done]. destruct Hp as [-> ->].
    change (class_of (mgr (MState m (coord_pool c)))) with (class_of m).
    destruct (class_of m) as [[]|]; try done; exact Ek.
Qed.

(** The invariant of the loop that adds the computed blocks. *)
Record adding (k : Z) (i : nat) (c' : Coordinator) : Prop := {
  ad_good : coord_good ext c c';
  ad_refs : refs_le (coord_pool c) (coord_pool c');
  ad_rest : ∀ j, (i ≤ j)%nat → single_type_managers c' !! j = single_type_managers c !! j;
  ad_room : free_count (coord_pool c) - k
    + demand (missing n rid) group_prediction i (single_type_managers c') ≤ free_count (coord_pool c');
}.

Lemma coord_good_length c1 c2 :
  coord_good ext c1 c2 → length (single_type_managers c2) = length (single_type_managers c1).
Proof. intros [_ [_ Hm _ _]]. symmetry. by eapply Forall2_length. Qed.

Lemma adding_turn k i c' m bs :
  k ≤ free_count (coord_pool c) → adding k i c' →
  single_type_managers c' !! i = Some m → computed !! i = Some bs →
  wp (Manager.allocate_new_computed_blocks use_int rid bs local external) (MState m (coord_pool c'))
    (λ _ s', adding k (S i) (put_at c' i s')).
Proof using All.
  intros Hk [Hg Hr Hrest Hroom] Em Ebs. pose proof Em as Em0. rewrite Hrest in Em0 by done.
  destruct (Hcomputed i m Em0) as (bs' & Ebs' & Hok & Hcall). simplify_eq.
  destruct (Hcls m (list_elem_of_lookup_2 _ _ _ Em0)) as [Hm Hbs]. destruct Hg as [Hi' Hs'].
  pose proof (cs_pool _ _ Hs') as Hp.
  assert (Hmi : mgr_inv (MState m (coord_pool c'))) by (by eapply ci_managers).
  assert (Hpred : group_prediction i m =
    predicted (MState m (coord_pool c)) rid n bs (local + external)).
  { unfold group_prediction. by rewrite Ebs. }
  assert (Hge : group_prediction i m ≤ demand (missing n rid) group_prediction i (single_type_managers c')).
  { apply demand_room; [apply missing_nonneg|intros; apply predicted_nonneg|done]. }
  eapply wp_mono.
  - apply (turn_computed m (coord_pool c) (coord_pool c') rid n bs local external); try done.
    + by eapply ci_pool.
    + by eapply is_single_same.
    + destruct Hok as [H1 H2]. split; [by eapply table_ok_same|done].
    + rewrite <-Hpred. lia.
  - intros [] s' (Hgs & Hrs & Hf). split; simpl.
    + apply (coord_good_trans ext c c'); [by split|]. by eapply put_manager_good.
    + intros b Hb Hn0. destruct (same_pool_blocks _ _ Hp) as [Eb En]. etrans; [by apply Hr|].
      apply Hrs; [by rewrite Eb|by rewrite En].
    + intros j Hj. rewrite list_lookup_insert_ne by lia. apply Hrest. lia.
    + rewrite (demand_step _ _ _ _ m) by done. rewrite Hpred. lia.
Qed.

(** The invariant of the loop that allocates. *)
Record filling (k : Z) (i : nat) (c' : Coordinator) : Prop := {
  fi_good : coord_good ext c c';
  fi_done : ∀ j m, (j < i)%nat → single_type_managers c' !! j = Some m →
    n ≤ zlen (req_blocks m rid) * m_block_size m;
  fi_room : free_count (coord_pool c) - k
    + demand (λ _, 0) (λ _, missing n rid) i (single_type_managers c') ≤ free_count (coord_pool c');
}.

Lemma good_base_class i c' m :
  coord_good ext c c' → single_type_managers c' !! i = Some m →
  base_class (class_of m) ∧ 0 < m_block_size m.
Proof using Hcls.
  intros Hg Em. destruct (coord_good_manager _ _ _ _ _ Hg Em) as (m0 & Em0 & Ea & _).
  destruct (Hcls m0 (list_elem_of_lookup_2 _ _ _ Em0)). unfold class_of in *. by rewrite Ea.
Qed.

Lemma filling_turn k i c' m :
  k ≤ free_count (coord_pool c) → filling k i c' → single_type_managers c' !! i = Some m →
  wp (Manager.allocate_new_blocks use_int rid n n_main) (MState m (coord_pool c'))
    (λ _ s', filling k (S i) (put_at c' i s')).
Proof using Hcls Hext Hsing.
  intros Hk [Hg Hdone Hroom] Em. destruct (good_base_class _ _ _ Hg Em) as [Hm Hbs].
  pose proof Hg as [Hi' Hs'].
  assert (Hge : missing n rid m ≤ demand (λ _, 0) (λ _, missing n rid) i (single_type_managers c')).
  { apply (demand_room (λ _, 0) (λ _, missing n rid)); [done|intros; apply missing_nonneg|done]. }
  eapply wp_mono.
  - apply turn_allocate; simpl; [by eapply ci_managers|eapply is_single_same; [|done]; apply Hs'|done..|lia].
  - intros _ s' (Hgs & Hcov & Hf). simpl in *. split; simpl.
    + apply (coord_good_trans ext c c'); [done|]. by eapply put_manager_good.
    + intros j m' Hj E. destruct (decide (j = i)) as [->|Hne].
      * rewrite list_lookup_insert_eq in E by (by eapply lookup_lt_Some). simplify_eq.
        pose proof (co_args _ _ (proj2 Hgs)) as Ha. simpl in Ha. by rewrite Ha.
      * rewrite list_lookup_insert_ne in E by done. apply (Hdone j); [lia|done].
    + rewrite (demand_step _ _ _ _ m) by done. lia.
Qed.

(** The allocation loop, when what the groups still miss is free. *)
Lemma filled k c1 :
  k ≤ free_count (coord_pool c) → coord_good ext c c1 →
  free_count (coord_pool c) - k + zsum (missing n rid <$> single_type_managers c1)
    ≤ free_count (coord_pool c1) →
  wp (allocate_new_blocks use_int rid n n_main enc) c1
    (λ _ c', filling k (length (single_type_managers c)) c').
Proof using Hcls Hext Hsing.
  intros Hk Hg Hroom. pose proof (coord_good_length _ _ Hg) as Hlen. rewrite <-Hlen.
  unfold allocate_new_blocks. apply (wp_each_manager _ c1 (filling k)).
  - split; [done|intros; lia|]. rewrite demand_none.
    by rewrite imap_const.
  - intros i c' Hf. rewrite Hlen. apply coord_good_length, Hf.
  - intros i c' m Hf Em. destruct (good_base_class _ _ _ (fi_good _ _ _ Hf) Em) as [Hm _].
    assert (Hnc : isinstance_cross m = false).
    { unfold isinstance_cross. apply bool_decide_eq_false. intros Hc. by rewrite Hc in Hm. }
    rewrite Hnc. by apply filling_turn.
Qed.

(** Both loops, when the prediction is within the free blocks. *)
Lemma admitted k :
  k = zsum (imap group_prediction (single_type_managers c)) → k ≤ free_count (coord_pool c) →
  wp (allocate_new_computed_blocks use_int rid computed local external ;;
      allocate_new_blocks use_int rid n n_main enc) c
    (λ _ c', filling k (length (single_type_managers c)) c').
Proof using All.
  intros Ek Hk. wp_step. unfold allocate_new_computed_blocks. wp_step. eapply wp_mono.
  { apply (wp_each_manager _ c (adding k)).
    - split; [by apply coord_good_refl|by intros b _ _|done|]. rewrite demand_none. lia.
    - intros i c' Ha. apply coord_good_length, Ha.
    - intros i c' m Ha Em. pose proof Em as Em0. rewrite (ad_rest _ _ _ Ha) in Em0 by done.
      destruct (Hcomputed i m Em0) as (bs & Ebs & _). unfold group_blocks. rewrite Ebs. wp_step. cbn [of_option].
      wp_step. by apply adding_turn. }
  intros _ c1 [Hg1 _ _ Hroom]. wp_step. apply filled; [done..|].
  rewrite <-(coord_good_length _ _ Hg1), demand_all in Hroom. done.
Qed.

(** Without computed blocks nothing needs to be added first. *)
Lemma admitted_plain k :
  k = zsum (imap group_prediction (single_type_managers c)) → k ≤ free_count (coord_pool c) →
  (∀ i, default [] (computed !! i) = []) →
  (∀ m, m ∈ single_type_managers c → num_cached_block m !! rid = None → local + external = 0) →
  wp (allocate_new_blocks use_int rid n n_main enc) c
    (λ _ c', filling k (length (single_type_managers c)) c').
Proof using All.
  intros Ek Hk Hnil Hnew. apply filled; [done|by apply coord_good_refl|].
  cut (zsum (missing n rid <$> single_type_managers c) ≤ zsum (imap group_prediction (single_type_managers c))).
  { lia. }
  rewrite <-(imap_const (missing n rid) (single_type_managers c)). apply zsum_imap_mono.
  intros i m Em. unfold group_prediction. rewrite Hnil. unfold predicted, missing. simpl.
  destruct (Hcomputed i m Em) as (bs & Ebs & (_ & Hbs & _ & _ & _ & Hsk) & Hcall). specialize (Hnil i).
  rewrite Ebs in Hnil. simpl in Hnil. subst bs. unfold callable in Hcall. simpl in Hcall, Hsk, Hbs.
  destruct (num_cached_block m !! rid) eqn:En; [lia|]. destruct Hcall as [-> _].
  rewrite (Hnew m (list_elem_of_lookup_2 _ _ _ Em) En) in Hsk |- *.
  assert (get_num_skipped_tokens m 0 / m_block_size m ≤ 0) by (apply Z.div_le_upper_bound; lia).
  change (zlen (@nil loc)) with 0. unfold _get_num_evictable_blocks.
  pose proof (zlen_nonneg (filter (λ b, ref_cnt (pool_block (coord_pool c) b) = 0 ∧
    is_null (pool_block (coord_pool c) b) = false) (py_from [] (Z.max 0 (get_num_skipped_tokens m 0 / m_block_size m - 0))))).
  lia.
Qed.

(** Prediction only reads. *)
Lemma coord_predict_reads n0 total n_main0 cap : predictable →
  wp (get_num_blocks_to_allocate rid n0 computed enc total n_main0 cap) c (λ _ c', c' = c).
Proof using Hcls.
  intros Hpred. unfold get_num_blocks_to_allocate. wp_step. eapply wp_mono.
  { apply (wp_each_manager _ c (λ _ c', c' = c)); [done|by intros i c' ->|].
    intros i c' m -> Em. destruct (Hpred i m Em) as (bs & Ebs & Hnil).
    destruct (Hcls m (list_elem_of_lookup_2 _ _ _ Em)) as [Hm _].
    rewrite base_not_cross by by eapply list_elem_of_lookup_2. unfold group_blocks. rewrite Ebs. cbn [of_option]. wp_step. wp_step.
    apply (wp_mono _ _ (λ _ s', s' = MState m (coord_pool c))).
    2:{ intros k s' ->. simpl. rewrite list_insert_id by done. apply coordinator_eta. }
    unfold Manager.get_num_blocks_to_allocate. wp_step. wp_step.
    assert (Hb : wp (Base.get_num_blocks_to_allocate rid n0 bs total n_main0 cap) (MState m (coord_pool c))
      (λ _ s', s' = MState m (coord_pool c))).
    { unfold Base.get_num_blocks_to_allocate. wp_step. wp_step. cbv zeta. simpl mgr.
      destruct (num_cached_block m !! rid); [|by wp_step]. rewrite Hnil by done. wp_step. apply wp_assert; [done|]. by wp_step. }
    change (class_of (mgr (MState m (coord_pool c)))) with (class_of m).
    destruct (class_of m) as [[]|]; try done; exact Hb. }
  intros ds c' ->. wp_step. wp_step. cbv zeta. case_match; by wp_step.
Qed.
End coordinator.
End operations.

(** C33: admission across groups, for a coordinator whose groups all have the base
    allocation methods (full attention, sliding window, prefix-anchored sliding window
    or chunked local attention; no Mamba, cross-attention or sink group) over a pool
    with a single free queue, not a partitioned one, and for computed blocks that are
    valid.  [get_num_blocks_to_allocate] returns a number and changes nothing; when
    that many blocks are free, adding the computed blocks of each group and then
    allocating up to [n] tokens raises nothing, although the groups draw on one pool
    one after the other.  Afterwards each group's table covers [n] tokens, at most the predicted number of blocks has
    left the free queue, and the reference counts still count the table entries
    of all groups. *)
Theorem coordinator_admission_sound use_int ext c rid n n_main enc local external computed :
  (∀ b, 0 ≤ ext b) → coord_inv ext c → is_single (coord_pool c) →
  (∀ m, m ∈ single_type_managers c → base_class (class_of m) ∧ 0 < m_block_size m) →
  (∀ i m, single_type_managers c !! i = Some m → ∃ bs, computed !! i = Some bs ∧
     computed_ok (MState m (coord_pool c)) bs local external ∧ callable (MState m (coord_pool c)) rid bs) →
  local + external ≤ n →
  wp (get_num_blocks_to_allocate rid n computed enc (local + external) n_main false) c (λ k c0,
    c0 = c ∧ (k ≤ free_count (coord_pool c) →
      wp (allocate_new_computed_blocks use_int rid computed local external ;;
          allocate_new_blocks use_int rid n n_main enc) c (λ _ c',
        coord_inv ext c' ∧
        (∀ m, m ∈ single_type_managers c' → n ≤ zlen (req_blocks m rid) * m_block_size m) ∧
        free_count (coord_pool c) - k ≤ free_count (coord_pool c')))).
Proof.
  intros Hext Hinv Hsing Hcls Hcomputed Hn. unfold wp at 1.
  rewrite (coord_predicts c Hsing Hcls rid n n_main enc local external computed
    (computed_predictable c rid local external computed Hcomputed)).
  split; [done|]. intros Hk. eapply wp_mono.
  { by apply (admitted use_int ext Hext c Hinv Hsing Hcls rid n n_main enc local external computed Hcomputed Hn). }
  intros _ c' [Hg Hdone Hroom]. rewrite <-(coord_good_length ext c c' Hg), demand_all in *.
  split; [apply Hg|]. split.
  - intros m [j Ej]%list_elem_of_lookup. apply (Hdone j); [by eapply lookup_lt_Some|done].
  - rewrite zsum_zero in Hroom. lia.
Qed.

(** ** Witness *)

Definition two_groups : KVCacheConfig :=
  mkConfig 8
    [ mkGroup (mkSpec FullAttentionSpec 2 true) 0 false;
      mkGroup (mkSpec (SlidingWindowSpec 3) 4 true) 0 false ] 0 [].

Abbreviation two_group_coordinator :=
  (get_kv_cache_coordinator two_groups 16 8 false true true 1 1 2 true).

Definition plain_manager (m : Manager) : bool :=
  bool_decide (class_of m = Some FullAttentionManager ∨ class_of m = Some SlidingWindowManager)
  && bool_decide (0 < m_block_size m) && bool_decide (num_cached_block m !! "a" = None)
  && bool_decide (get_num_skipped_tokens m 0 = 0) && m_enable_caching m.

Definition plain_coordinator (c : Coordinator) : bool :=
  forallb plain_manager (single_type_managers c) && bool_decide (length (single_type_managers c) = 2%nat)
  && match free_block_queue (coord_pool c) with Single _ => true | _ => false end.

Lemma two_group_coordinator_exists : ∃ c, two_group_coordinator = Ret c ∧ plain_coordinator c = true.
Proof.
  assert (H : match two_group_coordinator with Ret c => plain_coordinator c | Raise _ => false end = true)
    by by vm_compute.
  destruct two_group_coordinator as [c|e]; [by exists c|done].
Qed.

(** A fresh coordinator over two groups satisfies the conditions of a call. *)
Lemma two_group_ready : ∃ c, two_group_coordinator = Ret c ∧ coord_inv (λ _, 0) c ∧
  is_single (coord_pool c) ∧ (∀ m, m ∈ single_type_managers c → base_class (class_of m) ∧ 0 < m_block_size m) ∧
  ∀ i m, single_type_managers c !! i = Some m → ∃ bs, [[]; []] !! i = Some bs ∧
    computed_ok (MState m (coord_pool c)) bs 0 0 ∧ callable (MState m (coord_pool c)) "a" bs.
Proof.
  destruct two_group_coordinator_exists as (c & E & Hc). exists c. split; [done|].
  assert (Hf : coord_fresh c).
  { eapply new_coordinator_fresh; [|exact E]. simpl. intros g.
    rewrite !elem_of_cons, elem_of_nil. intros [->|[->|[]]]; (split; [by intros k [=]|]); by intros mode k [=]. }
  unfold plain_coordinator in Hc. apply andb_prop in Hc as [Hc Hq]. apply andb_prop in Hc as [Hc Hl].
  apply bool_decide_eq_true in Hl. rewrite forallb_forall in Hc.
  assert (Hm : ∀ m, m ∈ single_type_managers c → plain_manager m = true).
  { intros m Hm. apply Hc. by apply list_elem_of_In. }
  split; [by apply fresh_inv|]. split; [unfold is_single; by destruct (free_block_queue (coord_pool c))|]. split.
  - intros m Hin. specialize (Hm m Hin). unfold plain_manager in Hm.
    rewrite !andb_true_iff, !bool_decide_eq_true in Hm. destruct Hm as [[[[Hcl Hb] _] _] _].
    split; [by destruct Hcl as [->| ->]|done].
  - intros i m Ei. pose proof (list_elem_of_lookup_2 _ _ _ Ei) as Hin.
    destruct (cf_managers _ Hf m Hin) as [_ Hr]. specialize (Hm m Hin). unfold plain_manager in Hm.
    rewrite !andb_true_iff, !bool_decide_eq_true in Hm. destruct Hm as [[[[Hcl Hb] Hn] Hsk] Hen].
    exists []. split.
    { apply lookup_lt_Some in Ei. rewrite Hl in Ei. by destruct i as [|[|i]]; [..|lia]. }
    split; [|unfold callable; simpl; rewrite Hn; split; [unfold req_blocks; by rewrite Hr|by left]].
    split; [apply table_ok_nil|].
    change (get_num_skipped_tokens (mgr (MState m (coord_pool c))) (0 + 0)) with (get_num_skipped_tokens m 0).
    rewrite Hsk. simpl. change (zlen (@nil loc)) with 0. lia.
Qed.

Lemma coordinator_admission_sound_witness : ∃ c,
  coord_inv (λ _, 0) c ∧
  wp (get_num_blocks_to_allocate "a" 6 [[]; []] 0 (0 + 0) 6 false) c (λ k c0, c0 = c).
Proof.
  destruct two_group_ready as (c & _ & Hi & Hs & Hpl & Hc). exists c. split; [done|].
  eapply wp_mono; [apply (coordinator_admission_sound false (λ _, 0) c "a" 6 6 0 0 0 [[]; []])|]; try done.
  by intros k s0 [-> _].
Defined.
