(* ===== verification/KVManagerSpec.v ===== *)
(** * Admission through the KV-cache manager

    [allocate_slots] without a partial prefix cache, up to the caching of the new
    blocks: it refuses exactly when the predicted blocks are not free, and when
    it does not refuse, every group's table covers the tokens that need a slot. *)

From S2P Require Import Prelude.
From S2P Require Import FreeQueue.
From S2P Require Import Request.
From S2P Require Import BlockPool.
From S2P Require Import BlockPoolInv.
From S2P Require Import BlockPoolSpec.
From S2P Require Import BlockPoolProps.
From S2P Require Import KVCacheSpec.
From S2P Require Import SingleType.
From S2P Require Import SingleTypeSpec.
From S2P Require Import SingleTypeOps.
From S2P Require Import SingleTypeTheorems.
From S2P Require Import Admission.
From S2P Require Import Coordinator.
From S2P Require Import CoordinatorInv.
From S2P Require Import CoordinatorAdmission.
From S2P Require Import PartialCache.
From S2P Require Import KVManager.
Local Open Scope Z_scope.

(** ** Skipping keeps what admission reads *)

(** The manager records of a request that skipping does not touch. *)
Definition skip_keeps (rid : string) (m m' : Manager) : Prop :=
  mgr_args m' = mgr_args m ∧ num_cached_block m' = num_cached_block m ∧
  (req_blocks m rid = [] → req_blocks m' rid = []).

Lemma skip_keeps_refl rid m : skip_keeps rid m m.
Proof. done. Qed.

Lemma range_down_empty first last : last ≤ first → py_range_down first last = [].
Proof.
  intros H. unfold py_range_down, py_range, seqZ. by replace (Z.to_nat (last - first)) with 0%nat by lia.
Qed.

Lemma remove_range_keeps s rid first last hold reuse :
  mgr_inv s → 0 ≤ first →
  wp (Base._remove_blocks_in_range rid first last hold reuse) s (λ _ s',
    good s s' ∧ skip_keeps rid (mgr s) (mgr s')).
Proof.
  intros Hi Hf. eapply wp_mono; [by apply remove_range_good|].
  intros [] s' (Hg & _ & l' & fr & re & Hm & _ & Hr & Hl). split; [done|]. split; [apply Hg|].
  split; [by rewrite Hm|]. intros E. rewrite E in Hl. rewrite range_down_empty in Hl by (unfold zlen; simpl; lia).
  simpl in Hl. by simplify_eq/=.
Qed.

Lemma base_skip_keeps s rid n np :
  mgr_inv s → wp (Base.remove_skipped_blocks rid n np) s (λ _ s',
    good s s' ∧ skip_keeps rid (mgr s) (mgr s')).
Proof.
  intros Hi. unfold Base.remove_skipped_blocks. wp_step. wp_step. cbv zeta. case_match.
  { wp_step. split; [by apply good_refl|done]. }
  case_match; by apply remove_range_keeps.
Qed.

Lemma manager_skip_keeps s rid n np :
  mgr_inv s → base_class (class_of (mgr s)) → 0 < m_block_size (mgr s) → 0 ≤ np →
  wp (Manager.remove_skipped_blocks rid n (Some np)) s (λ _ s',
    good s s' ∧ skip_keeps rid (mgr s) (mgr s')).
Proof.
  intros Hi Hcls Hbs Hnp. unfold Manager.remove_skipped_blocks. wp_step. wp_step.
  assert (Hbase := base_skip_keeps s rid n (Some np) Hi).
  destruct (class_of (mgr s)) as [[]|]; try done; try exact Hbase.
  unfold PrefixAnchored.remove_skipped_blocks. wp_step. wp_step. cbv zeta.
  apply remove_range_keeps; [done|]. by apply cdiv_nonneg.
Qed.

(** ** The coordinator's part of [allocate_slots] *)

Section admission.
Context (ext : loc → Z) (Hext : ∀ b, 0 ≤ ext b).

Definition plain_managers (c : Coordinator) : Prop :=
  ∀ m, m ∈ single_type_managers c → base_class (class_of m) ∧ 0 < m_block_size m.

(** A request's computed blocks fit every group, and it has recorded blocks only
    if it brings none. *)
Definition computed_for (rid : string) (computed : list (list loc)) (local external : Z)
    (c : Coordinator) : Prop :=
  ∀ i m, single_type_managers c !! i = Some m → ∃ bs, computed !! i = Some bs ∧
    computed_ok (MState m (coord_pool c)) bs local external ∧ callable (MState m (coord_pool c)) rid bs.

(** One manager after the skips of the request [rid]. *)
Definition skipped (rid : string) (c c' : Coordinator) : Prop :=
  coord_good ext c c' ∧ Forall2 (skip_keeps rid) (single_type_managers c) (single_type_managers c').

Lemma coord_skip c rid n np :
  coord_inv ext c → plain_managers c → 0 ≤ np →
  wp (remove_skipped_blocks rid n (Some np)) c (λ _ c', skipped rid c c').
Proof using Hext.
  intros Hi Hpl Hnp. unfold remove_skipped_blocks. wp_step. eapply wp_mono.
  { apply (wp_each_manager _ c (λ i c', skipped rid c c')).
    - split; [by apply coord_good_refl|]. apply Forall2_same_length_lookup. split; [done|].
      intros j m m' E1 E2. simplify_eq. apply skip_keeps_refl.
    - intros i c' [Hg _]. by eapply coord_good_length.
    - intros i c' m [Hg Hk] Em. pose proof Hg as [Hi' Hs'].
      destruct (Forall2_lookup_r _ _ _ _ _ Hk Em) as (m0 & Em0 & Ha & Hn & He).
      destruct (Hpl m0 (list_elem_of_lookup_2 _ _ _ Em0)) as [Hcl Hbs].
      eapply wp_mono.
      + apply manager_skip_keeps; simpl; [by eapply ci_managers| |by rewrite Ha|done].
        unfold class_of in *. by rewrite Ha.
      + intros [] s' [Hgs (Ha' & Hn' & He')]. simpl in *. split.
        * apply (coord_good_trans ext c c'); [done|]. by eapply put_manager_good.
        * simpl. apply Forall2_same_length_lookup. split.
          { rewrite length_insert. by eapply Forall2_length. }
          intros j m1 m2 E1 E2. destruct (decide (i = j)) as [->|Hne].
          -- rewrite list_lookup_insert_eq in E2 by (by eapply lookup_lt_Some). simplify_eq.
             split; [congruence|]. split; [congruence|]. auto.
          -- rewrite list_lookup_insert_ne in E2 by done. by eapply Forall2_lookup_lr. }
  intros l c' H. by wp_step.
Qed.

Lemma skipped_plain rid c c' : skipped rid c c' → plain_managers c → plain_managers c'.
Proof.
  intros [_ Hk] Hpl m [i Ei]%list_elem_of_lookup.
  destruct (Forall2_lookup_r _ _ _ _ _ Hk Ei) as (m0 & Em0 & Ha & _).
  destruct (Hpl m0 (list_elem_of_lookup_2 _ _ _ Em0)). unfold class_of in *. by rewrite Ha.
Qed.

Lemma skipped_computed rid computed local external c c' :
  skipped rid c c' → computed_for rid computed local external c → computed_for rid computed local external c'.
Proof.
  intros [Hg Hk] Hc i m Em. destruct (Forall2_lookup_r _ _ _ _ _ Hk Em) as (m0 & Em0 & Ha & Hn & He).
  destruct (Hc i m0 Em0) as (bs & Ebs & [Ht Hok] & Hcall). exists bs. split; [done|]. split.
  - split; [eapply table_ok_same; [|exact Ht]; apply Hg|]. unfold get_num_skipped_tokens in *. simpl in *.
    by rewrite Ha.
  - unfold callable in *. simpl in *. rewrite Hn. destruct (num_cached_block m0 !! rid); [done|].
    rewrite Ha. destruct Hcall. auto.
Qed.

Lemma skipped_single rid c c' : skipped rid c c' → is_single (coord_pool c) → is_single (coord_pool c').
Proof. intros [Hg _]. eapply is_single_same. apply Hg. Qed.
End admission.

(** ** [allocate_slots] *)

(** What the scheduler promises when it calls [allocate_slots] on a manager whose
    groups need no separate block pool.  A request without recorded blocks either
    brings computed blocks or external tokens, or starts at token 0. *)
Record admissible (ext : loc → Z) (k : KVCacheManager) (r : KVRequest) (a : AllocateArgs) : Prop := {
  as_inv : coord_inv ext (coordinator k);
  as_single : is_single (km_pool k);
  as_plain : plain_managers (coordinator k);
  as_no_partial : partial_cache k = None ∧ partial_prefix_entry r = None;
  as_no_caching : km_enable_caching k = false ∨ delay_cache_blocks a = true;
  as_computed : computed_for (request_id r) (blocks_of k (new_computed_blocks a))
    (num_local_computed_tokens r a) (num_external_computed_tokens a) (coordinator k);
  as_new : is_empty_object (new_computed_blocks a) = true → num_external_computed_tokens a = 0 →
    ∀ m, m ∈ single_type_managers (coordinator k) → num_cached_block m !! request_id r = None →
      num_local_computed_tokens r a = 0;
  as_tokens : 0 ≤ num_prompt_tokens r ∧ 0 ≤ num_new_tokens a ∧ 0 ≤ num_lookahead_tokens a ∧
    0 ≤ num_external_computed_tokens a ∧
    num_local_computed_tokens r a + num_external_computed_tokens a ≤ max_model_len k;
}.

Section allocate_slots.
Context (sha256 : bytes → bytes) (use_int : bool) (ext : loc → Z) (Hext : ∀ b, 0 ≤ ext b).

Lemma wp_on_coord {A} (f : M Coordinator A) k Q :
  wp f (coordinator k) (λ a c, Q a (set_coordinator c k)) → wp (on_coord f) k Q.
Proof. apply wp_zoom. Qed.

Lemma wpe_on_coord {A} (f : M Coordinator A) k Q E :
  wpe f (coordinator k) (λ a c, Q a (set_coordinator c k)) (λ e c, E e (set_coordinator c k)) →
  wpe (on_coord f) k Q E.
Proof. apply wpe_zoom. Qed.

Lemma set_coordinator_same k : set_coordinator (coordinator k) k = k.
Proof. by destruct k. Qed.

(** Without partial entries there is nothing to reclaim. *)
Lemma reclaim_plain k n :
  partial_cache k = None →
  wp (_reclaim_partial_blocks n) k (λ b k', k' = k ∧ b = (n <=? free_count (km_pool k))).
Proof.
  intros Hp. unfold _reclaim_partial_blocks. wp_step. wp_step.
  destruct (Z.leb_spec n (free_count (km_pool k))); [by wp_step|]. rewrite Hp. by wp_step.
Qed.

Lemma need_slot_bounds k r a :
  admissible ext k r a →
  num_local_computed_tokens r a + num_external_computed_tokens a ≤ num_tokens_need_slot k r a.
Proof.
  intros [_ _ _ _ _ _ _ (H1 & H2 & H3 & H4 & H5)]. unfold num_tokens_need_slot, num_tokens_main_model, total_computed_tokens.
  lia.
Qed.

(** The prediction for the step, on a coordinator whose skips are done. *)
Abbreviation step_need k r a c0 := (get_num_blocks_to_allocate (request_id (kv_req r)) (num_tokens_need_slot k r a)
  (blocks_of k (new_computed_blocks a)) (num_encoder_tokens a)
  (num_local_computed_tokens r a + num_external_computed_tokens a) (num_tokens_main_model k r a) false c0).

(** The request is refused: by the whole-sequence gate, before anything changed,
    or past the gate, because the blocks the step needs are not free. *)
Definition refused (k k' : KVCacheManager) (r : KVRequest) (a : AllocateArgs) : Prop :=
  (full_sequence_must_fit a = true ∧ full_sequence_fits r a k = (Ret false, k) ∧ k' = k) ∨
  full_sequence_fits r a k = (Ret true, k) ∧
  ∃ c0 needed, skipped ext (request_id r) (coordinator k) c0 ∧ k' = set_coordinator c0 k ∧
    step_need k r a c0 = (Ret needed, c0) ∧ free_count (coord_pool c0) < needed.

(** The request is admitted: it is past the gate, the blocks were free, every table covers the tokens
    that need a slot, and no more blocks were taken than predicted. *)
Definition granted (k k' : KVCacheManager) (r : KVRequest) (a : AllocateArgs) : Prop :=
  full_sequence_fits r a k = (Ret true, k) ∧
  ∃ c0 needed c', skipped ext (request_id r) (coordinator k) c0 ∧ k' = set_coordinator c' k ∧
    step_need k r a c0 = (Ret needed, c0) ∧ needed ≤ free_count (coord_pool c0) ∧
    coord_inv ext c' ∧ free_count (coord_pool c0) - needed ≤ free_count (coord_pool c') ∧
    ∀ m, m ∈ single_type_managers c' →
      num_tokens_need_slot k r a ≤ zlen (req_blocks m (request_id r)) * m_block_size m.

Lemma gate_wp k r a :
  admissible ext k r a →
  wp (full_sequence_fits r a) k (λ b k', k' = k ∧ (full_sequence_must_fit a = false → b = true)).
Proof.
  intros [Hi Hs Hpl [Hp _] _ Hc _ _]. unfold full_sequence_fits. wp_step. wp_step.
  destruct (full_sequence_must_fit a); cbn [negb]; [|by wp_step]. cbv zeta. wp_step.
  apply wp_on_coord. eapply wp_mono.
  { apply coord_predict_reads; [exact Hpl|exact (computed_predictable _ _ _ _ _ Hc)]. }
  intros n c' ->. rewrite set_coordinator_same. eapply wp_mono; [by apply reclaim_plain|].
  by intros b k' [-> _].
Qed.

Lemma step_fits_wp k r a c0 :
  admissible ext k r a → skipped ext (request_id r) (coordinator k) c0 →
  wp (step_fits r a) (set_coordinator c0 k) (λ b k', k' = set_coordinator c0 k ∧
    ∃ needed, step_need k r a c0 = (Ret needed, c0) ∧
      needed = zsum (imap (group_prediction c0 (request_id r) (num_tokens_need_slot k r a)
        (num_local_computed_tokens r a) (num_external_computed_tokens a) (blocks_of k (new_computed_blocks a)))
        (single_type_managers c0)) ∧
      b = (needed <=? free_count (coord_pool c0))).
Proof.
  intros [Hi Hs Hpl [Hp He] _ Hc _ _] Hsk. pose proof (skipped_plain _ _ _ _ Hsk Hpl) as Hpl'.
  pose proof (skipped_computed _ _ _ _ _ _ _ Hsk Hc) as Hc'. pose proof (skipped_single _ _ _ _ Hsk Hs) as Hs'.
  assert (Hpred := coord_predicts c0 Hs' Hpl' (request_id r) (num_tokens_need_slot k r a) (num_tokens_main_model k r a)
    (num_encoder_tokens a) (num_local_computed_tokens r a) (num_external_computed_tokens a)
    (blocks_of k (new_computed_blocks a)) (computed_predictable _ _ _ _ _ Hc')).
  assert (He0 : num_copies (entry_of r a) = 0) by (unfold entry_of; rewrite He; by case_match).
  unfold step_fits. wp_step. wp_step. wp_step. apply wp_on_coord. eapply wp_intro; [exact Hpred|].
  rewrite He0, Z.add_0_r. eapply wp_mono; [by apply reclaim_plain|].
  intros b k' [-> ->]. split; [done|]. by eexists.
Qed.

Lemma allocated_wp k r a c0 needed :
  admissible ext k r a → skipped ext (request_id r) (coordinator k) c0 →
  needed = zsum (imap (group_prediction c0 (request_id r) (num_tokens_need_slot k r a)
    (num_local_computed_tokens r a) (num_external_computed_tokens a) (blocks_of k (new_computed_blocks a)))
    (single_type_managers c0)) →
  needed ≤ free_count (coord_pool c0) →
  wp (request ← add_computed use_int r a;
      on_coord (allocate_new_blocks use_int (request_id (kv_req request)) (num_tokens_need_slot k (kv_req request) a)
        (num_tokens_main_model k (kv_req request) a) (num_encoder_tokens a)) ;; mret request)
    (set_coordinator c0 k) (λ r' k', r' = r ∧ ∃ c', k' = set_coordinator c' k ∧
      filling ext c0 (request_id r) (num_tokens_need_slot k r a) needed (length (single_type_managers c0)) c').
Proof.
  intros Ha Hsk Ek Hle. pose proof (need_slot_bounds k r a Ha) as Hn.
  destruct Ha as [Hi Hs Hpl [Hp He] _ Hc Hnew Htok]. pose proof (skipped_plain _ _ _ _ Hsk Hpl) as Hpl'.
  pose proof (skipped_computed _ _ _ _ _ _ _ Hsk Hc) as Hc'. pose proof (skipped_single _ _ _ _ Hsk Hs) as Hs'.
  assert (Hinv' : coord_inv ext c0) by apply Hsk.
  assert (He0 : entry_of r a = None) by (unfold entry_of; rewrite He; by case_match).
  wp_step. unfold add_computed. wp_step. wp_step.
  destruct (negb (is_empty_object (new_computed_blocks a)) || (0 <? num_external_computed_tokens a)) eqn:Eadd.
  - wp_step. apply wp_on_coord.
    assert (Hall := admitted use_int ext Hext c0 Hinv' Hs' Hpl' (request_id r) (num_tokens_need_slot k r a)
      (num_tokens_main_model k r a) (num_encoder_tokens a) (num_local_computed_tokens r a)
      (num_external_computed_tokens a) (blocks_of k (new_computed_blocks a)) Hc' Hn needed Ek Hle).
    apply wp_bind_inv in Hall. eapply wp_mono; [exact Hall|].
    intros [] c1 H1. rewrite He0. wp_step. wp_step. apply wp_on_coord. eapply wp_mono; [exact H1|].
    intros bl c2 H2. wp_step. split; [done|]. by exists c2.
  - apply orb_false_iff in Eadd as [Eempty Eext]. apply negb_false_iff in Eempty. apply Z.ltb_ge in Eext.
    wp_step. wp_step. apply wp_on_coord. eapply wp_mono.
    { eapply (admitted_plain use_int ext Hext c0 Hinv' Hs' Hpl'); try done.
      - intros j. destruct (new_computed_blocks a); [|done]. simpl.
        destruct (replicate _ _ !! j) eqn:E; [|done]. by apply lookup_replicate in E as [-> _].
      - intros m [j Ej]%list_elem_of_lookup En.
        destruct (Forall2_lookup_r _ _ _ _ _ (proj2 Hsk) Ej) as (m0 & Em0 & _ & Hn0 & _).
        assert (num_external_computed_tokens a = 0) as Hz by lia. rewrite Hz, Z.add_0_r.
        eapply Hnew; [done..|by eapply list_elem_of_lookup_2|]. by rewrite <-Hn0. }
    intros bl c2 H2. wp_step. split; [done|]. by exists c2.
Qed.
End allocate_slots.


(** ** Witness *)

Definition plain_kv (c : Coordinator) : KVCacheManager :=
  mkKVMgr 16 true 2 2 0 false c 0 [] [] [] None None.

Definition first_step : AllocateArgs := mkAllocate 6 0 EmptyBlocks 0 0 true 0 true.

Definition six_tokens : Request :=
  mkRequest (mkArgs "a" 0 0 0 None None (Some [1; 2; 3; 4; 5; 6]) None None None [] 16 6 [] true false false)
    WAITING None [] [1; 2; 3; 4; 5; 6] [] 0 0 0 0 0 [] ∅.

