(* ===== verification/KVReady.v ===== *)
(** * The KV-cache manager without prefix caching never raises

    With prefix caching off and full-attention groups only, no operation of the
    manager raises in a state the manager itself leads to: [uncached] is the
    invariant, established by the constructor and kept by every operation, and
    [allocate_slots] raises at most when it is asked for no tokens. *)

From S2P Require Import Prelude.
From S2P Require Import FreeQueue.
From S2P Require Import Request.
From S2P Require Import BlockPool.
From S2P Require Import BlockPoolInv.
From S2P Require Import BlockPoolSpec.
From S2P Require Import BlockPoolProps.
From S2P Require Import KVCacheSpec.
From S2P Require Import SingleType.
From S2P Require Import SingleTypeSpec.
From S2P Require Import SingleTypeOps.
From S2P Require Import Admission.
From S2P Require Import Coordinator.
From S2P Require Import CoordinatorInv.
From S2P Require Import CoordinatorAdmission.
From S2P Require Import PartialCache.
From S2P Require Import KVManager.
From S2P Require Import KVManagerSpec.
Local Open Scope Z_scope.

(** ** Full-attention groups *)

Definition dense (m : Manager) : Prop := class_of m = Some FullAttentionManager ∧ 0 < m_block_size m.

Lemma dense_skips m n : dense m → get_num_skipped_tokens m n = 0.
Proof. intros [Hm _]. unfold class_of, get_num_skipped_tokens in *. by destruct (spec_type _). Qed.

Lemma dense_align m : dense m → Mamba.is_align m = false.
Proof. intros [Hm _]. unfold class_of, Mamba.is_align, mamba_fields in *. by destruct (spec_type _). Qed.

Lemma dense_args m m' : mgr_args m' = mgr_args m → dense m → dense m'.
Proof. unfold dense, class_of. by intros ->. Qed.

(** Only the managers hold references, and the pool has one free queue. *)
Record dense_coord (c : Coordinator) : Prop := {
  dc_inv : coord_inv (λ _, 0) c;
  dc_single : is_single (coord_pool c);
  dc_dense : ∀ m, m ∈ single_type_managers c → dense m;
  dc_class : coord_class c = NoPrefixCache;
}.

Lemma dense_good c c' : dense_coord c → coord_good (λ _, 0) c c' → dense_coord c'.
Proof.
  intros [Hi Hs Hd Hc] Hg. split.
  - apply Hg.
  - eapply is_single_same; [|exact Hs]. apply Hg.
  - intros m' [i Ei]%list_elem_of_lookup. destruct (coord_good_manager _ _ _ _ _ Hg Ei) as (m & Em & Ea & _).
    apply (dense_args m); [done|]. apply Hd. by eapply list_elem_of_lookup_2.
  - rewrite <-Hc. apply Hg.
Qed.

Lemma dense_base c m : dense_coord c → m ∈ single_type_managers c → base_class (class_of m) ∧ 0 < m_block_size m.
Proof. intros Hc Hm. destruct (dc_dense _ Hc m Hm) as [-> ?]. done. Qed.

(** What an operation of such a coordinator may do. *)
Definition dense_step (c c' : Coordinator) : Prop :=
  dense_coord c' ∧ length (single_type_managers c') = length (single_type_managers c).

Lemma dense_step_good c c' : dense_coord c → coord_good (λ _, 0) c c' → dense_step c c'.
Proof. intros Hc Hg. split; [by eapply dense_good|by eapply coord_good_length]. Qed.

Lemma dense_step_refl c : dense_coord c → dense_step c c.
Proof. by split. Qed.

Lemma dense_each {A} (f : nat → Manager → M mstate A) c :
  dense_coord c → (∀ i s, mgr_inv s → dense (mgr s) → wp (f i (mgr s)) s (λ _ s', good s s')) →
  wp (each_manager f) c (λ _ c', dense_step c c').
Proof.
  intros Hc Hf.
  eapply wp_mono; [|intros l c' Hg; apply dense_step_good; [done|exact Hg]].
  apply (wp_each_manager f c (λ _ c', coord_good (λ _, 0) c c')).
  - apply coord_good_refl, Hc.
  - intros i c' Hg. by eapply coord_good_length.
  - intros i c' m Hg Em. pose proof (dense_good _ _ Hc Hg) as Hc'.
    eapply wp_mono; [apply (Hf i (MState m (coord_pool c')))|].
    + eapply ci_managers; [apply Hc'|done].
    + apply (dc_dense _ Hc'). by eapply list_elem_of_lookup_2.
    + intros a s' Hs. apply (coord_good_trans _ c c'); [done|]. apply (put_manager_good (λ _, 0) ltac:(done) c' i m); [apply Hc'|done|done].
Qed.

(** ** The operations of the coordinator *)

Lemma dense_free c rid : dense_coord c → wp (free rid) c (λ _ c', dense_step c c').
Proof.
  intros Hc. unfold free. wp_step. eapply wp_mono; [apply dense_each; [done|]|].
  - intros _ s Hs Hd. unfold Manager.free. wp_step. wp_step. rewrite (proj1 Hd).
    eapply wp_mono; [apply free_good; [done|by apply dense_align]|]. by intros [] s' [H _].
  - intros l c' H. by wp_step.
Qed.

Lemma dense_new_step c : dense_coord c → wp new_step_starts c (λ _ c', dense_step c c').
Proof.
  intros Hc. unfold new_step_starts. wp_step. eapply wp_mono; [apply dense_each; [done|]|].
  - intros _ s Hs Hd. unfold Manager.new_step_starts. wp_step. wp_step. rewrite (proj1 Hd). wp_step. by apply good_refl.
  - intros l c' H. by wp_step.
Qed.

Lemma dense_common c rid : dense_coord c → wp (get_num_common_prefix_blocks rid) c (λ _ c', dense_step c c').
Proof.
  intros Hc. unfold get_num_common_prefix_blocks. wp_step. wp_step. rewrite (dc_class _ Hc). wp_step.
  by apply dense_step_refl.
Qed.

Lemma dense_take_ids c : dense_coord c →
  wp (each_manager (λ _ _, Base.take_new_block_ids)) c (λ _ c', dense_step c c').
Proof.
  intros Hc. apply dense_each; [done|]. intros _ s Hs _. unfold Base.take_new_block_ids, upd_mgr.
  repeat wp_step. by apply good_fields.
Qed.

Lemma dense_take_offloads c : dense_coord c →
  wp (each_manager (λ _ _, Base.take_pending_boundary_state_offloads)) c (λ _ c', dense_step c c').
Proof.
  intros Hc. apply dense_each; [done|]. intros _ s Hs _. unfold Base.take_pending_boundary_state_offloads, upd_mgr.
  repeat wp_step. by apply good_fields.
Qed.

Lemma dense_skip c rid n np : dense_coord c → wp (remove_skipped_blocks rid n np) c (λ _ c', dense_step c c').
Proof.
  intros Hc. unfold remove_skipped_blocks. wp_step. eapply wp_mono; [apply dense_each; [done|]|].
  - intros _ s Hs Hd. unfold Manager.remove_skipped_blocks. wp_step. wp_step. rewrite (proj1 Hd).
    unfold Base.remove_skipped_blocks. wp_step. wp_step. cbv zeta. rewrite dense_skips by done. simpl. wp_step. by apply good_refl.
  - intros l c' H. by wp_step.
Qed.

(** Without computed blocks the prediction is what the tables miss. *)
Lemma empty_predictable c rid : predictable c rid (replicate (length (single_type_managers c)) []).
Proof.
  intros i m E. exists []. split; [|done]. apply lookup_replicate_2. by eapply lookup_lt_Some.
Qed.

Lemma dense_missing c rid n local external : dense_coord c →
  zsum (missing n rid <$> single_type_managers c) ≤
    zsum (imap (group_prediction c rid n local external (replicate (length (single_type_managers c)) [])) (single_type_managers c)).
Proof.
  intros Hc. rewrite <-(imap_const (missing n rid)). apply zsum_imap_mono. intros i m E.
  pose proof (dc_dense _ Hc m (list_elem_of_lookup_2 _ _ _ E)) as Hd. destruct (empty_predictable c rid i m E) as (bs & Ebs & _).
  pose proof Ebs as [-> _]%lookup_replicate. unfold group_prediction, predicted, missing. rewrite Ebs. simpl.
  destruct (num_cached_block m !! rid); [lia|]. rewrite dense_skips by done.
  pose proof (zlen_nonneg (req_blocks m rid)). change (zlen (@nil loc)) with 0.
  rewrite Z.div_0_l by (destruct Hd; lia). unfold _get_num_evictable_blocks.
  match goal with |- _ ≤ _ + zlen ?l => pose proof (zlen_nonneg l) end. lia.
Qed.

Lemma dense_allocate use_int c rid n n_main enc : dense_coord c →
  zsum (missing n rid <$> single_type_managers c) ≤ free_count (coord_pool c) →
  wp (allocate_new_blocks use_int rid n n_main enc) c (λ _ c', dense_step c c').
Proof.
  intros Hc Hroom. pose proof (λ m, dense_base c m Hc) as Hb.
  eapply wp_mono.
  - apply (filled use_int (λ _, 0) ltac:(done) c (dc_single _ Hc) Hb rid n n_main enc _ c Hroom); [apply coord_good_refl, Hc|lia].
  - intros l c' Hf. apply dense_step_good; [done|apply Hf].
Qed.

(** The pool forgets hashes; no reference changes. *)
Lemma swap_pool_good c p' :
  coord_inv (λ _, 0) c → (∃ st hi, pool_inv p' st hi []) → same_pool (coord_pool c) p' →
  (∀ b, ref p' b = ref (coord_pool c) b) → coord_good (λ _, 0) c (set_pool p' c).
Proof.
  intros [_ Hm Hr] Hp Hs Href. destruct (same_pool_blocks _ _ Hs) as [Eb En].
  split; [split|by split]; simpl.
  - done.
  - intros i m E. destruct (Hm i m E) as [_ H2 H3 H4 H5 H6 H7 H8]. split; simpl in *; try done.
    + by rewrite En.
    + intros rid l El. eapply table_ok_same; [exact Hs|]. by eapply H3.
    + intros b. rewrite Eb, En, Href. apply H4.
  - intros b. rewrite Eb, En, Href. apply Hr.
Qed.

Lemma dense_reset c : dense_coord c →
  wp (zoom coord_pool set_pool Pool.reset_prefix_cache) c (λ _ c', dense_step c c').
Proof.
  intros Hc. destruct (ci_pool _ _ (dc_inv _ Hc)) as (st & hi & Hp). apply wp_zoom.
  eapply wp_mono; [by apply reset_ok|]. intros [|] p'.
  - intros (Hp' & _ & _ & Hs & Hr & _). apply dense_step_good; [done|].
    apply swap_pool_good; [apply Hc|by exists st, hi|done|done].
  - intros [-> _]. replace (set_pool (coord_pool c) c) with c by (by destruct c). by apply dense_step_refl.
Qed.

(** ** The manager *)

(** No prefix caching: nothing is looked up, filed or set aside for later. *)
Record uncached (k : KVCacheManager) : Prop := {
  un_caching : km_enable_caching k = false;
  un_partial : partial_cache k = None;
  un_deferred : _deferred_release k = [];
  un_snapshots : _pending_snapshots k = [];
  un_groups : num_kv_cache_groups k = length (single_type_managers (coordinator k));
  un_coord : dense_coord (coordinator k);
}.

Lemma uncached_coord k c' : uncached k → dense_step (coordinator k) c' → uncached (set_coordinator c' k).
Proof. intros [H1 H2 H3 H4 H5 H6] [Hc Hl]. split; try done. simpl. by rewrite Hl. Qed.

Lemma uncached_on_coord {A} (m : M Coordinator A) k :
  uncached k → wp m (coordinator k) (λ _ c', dense_step (coordinator k) c') → wp (on_coord m) k (λ _ k', uncached k').
Proof. intros Hk Hm. apply wp_on_coord. eapply wp_mono; [exact Hm|]. intros a c'. by apply uncached_coord. Qed.

Lemma uncached_free (r : Request) k : uncached k → wp (km_free r) k (λ _ k', uncached k').
Proof.
  intros Hk. unfold km_free. wp_step. wp_step. wp_step. apply (wp_mono _ _ (λ _ k', uncached k')).
  - apply wp_when; intros _; [|done]. wp_step. by destruct Hk.
  - intros [] k' Hk'. apply uncached_on_coord; [done|]. apply dense_free, Hk'.
Qed.

Lemma uncached_new_step requests use_int k :
  uncached k → wp (km_new_step_starts use_int requests) k (λ _ k', uncached k').
Proof.
  intros [H1 H2 H3 H4 H5 H6]. unfold km_new_step_starts, release_deferred. wp_step. wp_step. wp_step. wp_step. simpl.
  rewrite H3. cbn [due filter list_filter foreach]. wp_step. wp_step. wp_step. wp_step. simpl. rewrite H4. simpl.
  wp_step. wp_step. apply uncached_on_coord; [by split|]. by apply dense_new_step.
Qed.

Lemma uncached_hit (r : KVRequest) k :
  uncached k → wp (get_computed_blocks r) k (λ res k', uncached k' ∧ res.1 = (EmptyBlocks, 0)).
Proof.
  intros Hk. unfold get_computed_blocks. wp_step. wp_step. cbv zeta. rewrite (un_caching _ Hk). simpl. by wp_step.
Qed.

Lemma uncached_cache sha256 use_int (r : Request) n k :
  uncached k → wp (km_cache_blocks sha256 use_int r n) k (λ _ k', uncached k').
Proof.
  intros Hk. unfold km_cache_blocks. wp_step. wp_step. rewrite (un_caching _ Hk). by wp_step.
Qed.

Lemma uncached_take_ids k : uncached k → wp km_take_new_block_ids k (λ _ k', uncached k').
Proof.
  intros Hk. unfold km_take_new_block_ids. wp_step.
  eapply wp_mono; [apply uncached_on_coord; [done|]; by apply dense_take_ids, Hk|]. intros l k' Hk'. by wp_step.
Qed.

Lemma uncached_take_offloads k : uncached k → wp take_boundary_state_offloads k (λ _ k', uncached k').
Proof.
  intros Hk. unfold take_boundary_state_offloads. wp_step.
  eapply wp_mono; [apply uncached_on_coord; [done|]; by apply dense_take_offloads, Hk|]. intros l k' Hk'.
  wp_step. wp_step. by wp_step.
Qed.

Lemma uncached_take_copies k : uncached k → wp take_block_copies k (λ _ k', uncached k').
Proof. intros []. unfold take_block_copies. wp_step. wp_step. wp_step. wp_step. by wp_step. Qed.

Lemma uncached_reset k : uncached k → wp km_reset_prefix_cache k (λ _ k', uncached k').
Proof.
  intros Hk. unfold km_reset_prefix_cache. wp_step. wp_step. wp_step. rewrite (un_partial _ Hk).
  rewrite bool_decide_eq_false_2 by (by intros [x ?]). simpl. wp_step.
  apply uncached_on_coord; [done|]. by apply dense_reset, Hk.
Qed.

(** ** Allocation *)

(** The blocks handed to an allocation: none, since nothing is looked up. *)
Lemma uncached_predictable k (rid : string) : uncached k →
  predictable (coordinator k) rid (blocks_of k EmptyBlocks).
Proof. intros Hk. simpl. rewrite (un_groups _ Hk). apply empty_predictable. Qed.

Lemma uncached_gate (r : Request) a k :
  uncached k → new_computed_blocks a = EmptyBlocks → wp (full_sequence_fits r a) k (λ _ k', k' = k).
Proof.
  intros Hk Ha. unfold full_sequence_fits. wp_step. wp_step. destruct (negb _); [by wp_step|]. cbv zeta. wp_step.
  apply wp_on_coord. rewrite Ha. eapply wp_mono; [apply coord_predict_reads|].
  - intros m. apply dense_base, Hk.
  - by apply uncached_predictable.
  - intros needed c ->. rewrite set_coordinator_same. eapply wp_mono; [apply reclaim_plain, Hk|]. by intros b k' [-> _].
Qed.

Lemma uncached_step_fits (r : KVRequest) a k :
  uncached k → new_computed_blocks a = EmptyBlocks →
  wp (step_fits r a) k (λ b k', k' = k ∧ (b = true →
    zsum (missing (num_tokens_need_slot k r a) (request_id r) <$> single_type_managers (coordinator k)) ≤ free_count (km_pool k))).
Proof.
  intros Hk Ha. unfold step_fits. wp_step. wp_step. wp_step. apply wp_on_coord. rewrite Ha. pose proof (un_coord _ Hk) as Hc.
  eapply wp_intro.
  { apply coord_predicts; [apply Hc|intros m; by apply dense_base|by apply uncached_predictable]. }
  rewrite set_coordinator_same. unfold entry_of. rewrite Ha. simpl. rewrite Z.add_0_r.
  eapply wp_mono; [apply reclaim_plain, Hk|]. intros b k' [-> ->]. split; [done|]. intros Hle%Z.leb_le.
  etrans; [by apply (dense_missing _ _ _ (num_local_computed_tokens r a) (num_external_computed_tokens a))|].
  rewrite (un_groups _ Hk) in Hle. exact Hle.
Qed.

Lemma uncached_allocate sha256 use_int (r : KVRequest) a k :
  uncached k → new_computed_blocks a = EmptyBlocks → num_external_computed_tokens a = 0 →
  wpe (allocate_slots sha256 use_int r a) k (λ _ k', uncached k') (λ _ _, num_new_tokens a = 0).
Proof.
  intros Hk Ha Hext. unfold allocate_slots. wpe_step. wpe_step.
  destruct ((num_new_tokens a =? 0) && _) eqn:E0; [apply andb_true_iff in E0 as [E0%Z.eqb_eq _]; by wpe_step|].
  apply wp_wpe. wp_step. eapply wp_mono; [by apply uncached_gate|]. intros [|] k1 ->; simpl; [|by wp_step].
  wp_step. apply wp_on_coord. eapply wp_mono; [apply dense_skip, Hk|]. intros [] c2 Hc2.
  pose proof (uncached_coord k c2 Hk Hc2) as Hk2. wp_step.
  eapply wp_mono; [by apply uncached_step_fits|]. intros [|] k3 [-> Hroom]; simpl; [|by wp_step]. specialize (Hroom eq_refl).
  wp_step. unfold add_computed. wp_step. wp_step. rewrite Ha, Hext. simpl. wp_step. wp_step.
  eapply wp_mono; [apply uncached_on_coord; [done|]; apply dense_allocate; [apply Hc2|exact Hroom]|].
  intros bl k4 Hk4. wp_step. unfold cache_step. wp_step. wp_step. rewrite (un_caching _ Hk4). simpl. wp_step. by wp_step.
Qed.

(** ** The constructor *)

(** A group whose manager is the full-attention one. *)
Definition dense_spec (spec : KVCacheSpec) : Prop :=
  spec_manager_map (spec_type spec) = Some FullAttentionManager ∧ 0 < spec_block_size spec.

Lemma dense_spec_ok spec : dense_spec spec → spec_ok spec.
Proof. intros [H _]. split; [intros k E|intros mode k E]; by rewrite E in H. Qed.

Lemma new_managers_dense in_flight max_len caching dcp pcp : 0 < dcp → 0 < pcp →
  ∀ (l : list (Z * KVCacheGroupSpec)) p ms p', (∀ e, e ∈ l → dense_spec (group_spec e.2)) →
  mapM_list (λ e, get_manager_for_kv_cache_spec (group_spec e.2) in_flight max_len caching e.1 dcp pcp) l p
    = (Ret ms, p') →
  length ms = length l ∧ ∀ m, m ∈ ms → dense m.
Proof.
  intros Hd Hp. induction l as [|e l IH]; intros p ms p' Hl E; cbn [mapM_list] in E.
  { unfold mret, M_ret in E. simplify_eq. split; [done|]. by intros m ?%not_elem_of_nil. }
  destruct (Hl e ltac:(by left)) as [Hs Hb]. unfold get_manager_for_kv_cache_spec in E.
  unfold mbind, M_bind, mret, M_ret in E. cbn beta in E. rewrite Hs in E. cbn in E.
  destruct (mapM_list _ l p) as [[ms1|] p2] eqn:El; [|done]. simplify_eq.
  destruct (IH p ms1 p' ltac:(intros; apply Hl; by right) El) as [Hlen Hms]. split; [simpl; by rewrite Hlen|].
  intros m [->|Hm]%elem_of_cons; [|by apply Hms]. split; [exact Hs|]. simpl. unfold global_block_size.
  destruct (dcp_sharded _); [|done]. by repeat apply Z.mul_pos_pos.
Qed.

Lemma base_init_dense config max_len in_flight eagle events dcp pcp hbs coll c :
  (∀ g, g ∈ kv_cache_groups config → dense_spec (group_spec g)) → device_state_blocks config = 0 → 0 < dcp → 0 < pcp →
  KVCacheCoordinator_init NoPrefixCache config max_len in_flight eagle false events dcp pcp hbs coll = Ret c →
  dense_coord c ∧ length (single_type_managers c) = length (kv_cache_groups config) ∧ coord_enable_caching c = false ∧
  ∀ m, m ∈ single_type_managers c → req_to_blocks m = ∅.
Proof.
  intros Hg Hds Hd Hp E. assert (Hf : coord_fresh c).
  { eapply base_init_fresh; [|exact E]. intros g Hin. by apply dense_spec_ok, Hg. }
  unfold KVCacheCoordinator_init in E. rewrite Hds in E.
  destruct (Pool.init _ _ _ _ _ _ _) as [p|] eqn:Ep; [|done]. cbn [obind] in E.
  destruct (mapM_list _ _ p) as [[ms|] p'] eqn:Em; [|done]. injection E as <-.
  destruct (decide (0 < num_blocks config)) as [Hn|Hn].
  2:{ unfold Pool.init in Ep. by rewrite (proj2 (Z.ltb_ge 0 (num_blocks config))) in Ep by lia. }
  destruct (init_ok (num_blocks config) false hbs events coll 0 (device_state_group_ids config) Hn ltac:(by left))
    as (p0 & E0 & Hi & _ & _ & _ & _ & _ & _ & Hq).
  rewrite Ep in E0. injection E0 as <-.
  assert (p' = p) as ->.
  { eapply new_managers_fresh in Em as [-> _]; [done|exact Hi|].
    intros [z g] He. apply dense_spec_ok, Hg. by apply elem_of_zip_r in He. }
  apply new_managers_dense in Em as [Hlen Hms]; [|done|done|].
  2:{ intros [z g] He. apply Hg. by apply elem_of_zip_r in He. }
  split; [split; simpl|split; [|split]].
  - by apply fresh_inv.
  - unfold is_single. destruct (free_block_queue p); [done|]. by destruct Hq.
  - done.
  - done.
  - simpl. rewrite Hlen, length_zip, length_fmap, length_seq. lia.
  - done.
  - intros m Hm. by apply (cf_managers _ Hf).
Qed.

(** The constructor, with prefix caching off. *)
Lemma uncached_init config max_len hbs in_flight eagle events dcp pcp coll retention partial v41 k :
  (∀ g, g ∈ kv_cache_groups config → dense_spec (group_spec g)) → device_state_blocks config = 0 → 0 < dcp → 0 < pcp →
  KVCacheManager_init config max_len hbs in_flight false eagle events dcp pcp coll retention partial v41 = Ret k →
  uncached k ∧ ∀ m, m ∈ single_type_managers (coordinator k) → req_to_blocks m = ∅.
Proof.
  intros Hg Hds Hd Hp E. unfold KVCacheManager_init, get_kv_cache_coordinator in E. cbn [negb] in E.
  destruct (KVCacheCoordinator_init _ _ _ _ _ _ _ _ _ _ _) as [c|] eqn:Ec; [|done]. cbn [obind] in E.
  apply base_init_dense in Ec as ([Hi Hs Hm Hc] & Hlen & Hoff & Hempty); [|done..].
  assert (Er : configure_prefix_cache_retention retention c = (Ret tt, set_retention retention c)).
  { unfold configure_prefix_cache_retention, mbind, M_bind, modify, get. simpl. rewrite Hoff.
    by destruct retention. }
  rewrite Er, andb_false_r in E. injection E as <-. split; [|exact Hempty].
  split; try done. split; [|done..]. by destruct Hi.
Qed.
