(* ===== verification/KVManagerRuns.v ===== *)
(** * A run of the KV-cache manager with partial entries

    A step that needs blocks may release partial entries, the entry that this
    very request has just hit included. *)

From Stdlib Require Import Strings.Byte.
From S2P Require Import Prelude.
From S2P Require Import FreeQueue.
From S2P Require Import Request.
From S2P Require Import BlockHash.
From S2P Require Import BlockPool.
From S2P Require Import KVCacheSpec.
From S2P Require Import SingleType.
From S2P Require Import CacheHit.
From S2P Require Import Coordinator.
From S2P Require Import PartialCache.
From S2P Require Import KVManager.
Local Open Scope Z_scope.

(** A full-attention and an aligned Mamba group over [n] blocks of 4 tokens. *)
Definition hybrid_config (n : Z) : KVCacheConfig :=
  mkConfig n
    [ mkGroup (mkSpec FullAttentionSpec 4 true) 0 false;
      mkGroup (mkSpec (MambaSpec "align" 0) 4 false) 0 false ] 0 [].

Definition new_manager (n : Z) : outcome KVCacheManager :=
  KVCacheManager_init (hybrid_config n) 100 4 None true false false 1 1 false None true false.

Definition run_on_new {A} (n : Z) (m : M KVCacheManager A) : outcome A :=
  obind (λ k, (m k).1) (new_manager n).

Definition text (rid : string) (toks : list Z) (hashes : list BlockHash) (boundaries : list Z) : KVRequest :=
  mkKVReq
    (mkRequest (mkArgs rid 0 0 0 None None (Some toks) None None None [] 16 (zlen toks) boundaries true false false)
       WAITING None [] toks [] 0 0 0 0 0 hashes ∅) None.

(** The first turn stops at the boundary 3, is snapshotted into a partial entry
    and freed; its copies are done three steps later. *)
Definition first_turn : KVRequest := text "a" [1; 2; 3; 4; 5; 6] [] [3].
Definition first_turn_done : M KVCacheManager unit :=
  allocate_slots id false first_turn (mkAllocate 3 0 EmptyBlocks 0 0 false 0 false) ;;
  km_new_step_starts false {[0 := kv_req first_turn]} ;;
  km_free first_turn ;;
  km_new_step_starts false ∅ ;;
  km_new_step_starts false ∅ ;;
  km_new_step_starts false ∅.

(** The second turn shares the first three tokens and adds two. *)
Definition second_turn : KVRequest := text "b" [1; 2; 3; 9; 9] [[x07]] [].
Definition second_turn_hit : M KVCacheManager (list (list loc) * Z * Z * KVRequest) :=
  first_turn_done ;;
  hit ← get_computed_blocks second_turn;
  k ← get;
  let '(blocks, n, request) := hit in
  mret (blocks_of k blocks, n, Pool.get_num_free_blocks (km_pool k) None, request).

Definition second_turn_slots : M KVCacheManager (option KVCacheBlocks) :=
  hit ← second_turn_hit;
  let '(blocks, n, _, request) := hit in
  r ← allocate_slots id false request (mkAllocate 2 n (Blocks blocks) 0 0 false 0 false);
  mret r.1.

(** What [run_on_new] answers, without the request. *)
Definition hit_of (n : Z) : outcome (list (list loc) * Z * Z) :=
  obind (λ h, Ret h.1) (run_on_new n second_turn_hit).

(** [_reclaim_partial_blocks] may release the partial entry the request is
    about to resume from.  Here the second turn hits the entry of the first (3
    tokens, blocks 3 and 4).  With 7 blocks, 4 are free and the step succeeds.
    With 6 blocks, 3 are free where 4 are needed; the only entry, the one just
    hit, is released, which makes 5 blocks free, so the step is admitted; but two
    of those are the entry's own blocks, which the request takes up again, and
    [get_new_blocks] raises [ValueError] instead of the request being refused. *)
Theorem reclaim_releases_own_hit :
  hit_of 7 = Ret ([[3%nat]; [4%nat]], 3, 4) ∧
  run_on_new 7 second_turn_slots = Ret (Some (Blocks [[5%nat]; [6%nat]])) ∧
  hit_of 6 = Ret ([[3%nat]; [4%nat]], 3, 3) ∧
  run_on_new 6 second_turn_slots = Raise ValueError.
Proof. vm_compute. auto. Qed.
