(* ===== verification/Offload.v ===== *)
(** * Cache policies of the CPU offloading manager

    [vllm/v1/kv_offload/cpu/policies]: which offloaded blocks a CPU cache keeps.
    [CachePolicy] is the interface the manager uses; [Lru] and [Arc] implement it.
    A [BlockStatus] object is reachable from one slot of one dictionary, so the
    writes to it are writes of that slot ([policy_put]).

    The adaptive target of the ARC policy is a Python [int] or [float]; floats are
    IEEE-754 binary64 numbers ([SpecFloat] with precision 53). *)

From Stdlib Require Import Strings.Byte SpecFloat.
From S2P Require Import Prelude.
From S2P Require Import PyNumber.
From S2P Require Import OrderedDict.
From S2P Require Import FreeQueue.
Local Open Scope Z_scope.

(** [OffloadKey]: a block hash followed by a group index. *)
Abbreviation OffloadKey := bytes.

(** A [ctypes.c_int32] field wraps around. *)
Definition wrap_int32 (z : Z) : Z := (z + 2 ^ 31) mod 2 ^ 32 - 2 ^ 31.

Record BlockStatus : Type := mkStatus {
  bs_ref_cnt : Z;
  bs_block_id : Z;
}.

#[export] Instance block_status_eq_dec : EqDecision BlockStatus.
Proof. solve_decision. Defined.

(** A new block is not ready: [ref_cnt = -1]. *)
Definition new_status (block_id : Z) : BlockStatus := mkStatus (-1) block_id.
Definition is_ready (b : BlockStatus) : bool := 0 <=? bs_ref_cnt b.
Definition set_ref_cnt (v : Z) (b : BlockStatus) : BlockStatus := mkStatus (wrap_int32 v) (bs_block_id b).

(** The interface [CachePolicy], and the write of a block's fields. *)
Class CachePolicy (P : Type) : Type := {
  policy_get : OffloadKey → P → option BlockStatus;
  policy_insert : OffloadKey → BlockStatus → P → P;
  policy_remove : OffloadKey → M P unit;
  policy_touch : list OffloadKey → P → P;
  policy_demote : list OffloadKey → P → P;
  policy_evict : Z → gset OffloadKey → M P (option (list (OffloadKey * BlockStatus)));
  policy_clear : P → P;
  policy_put : OffloadKey → BlockStatus → P → P;
}.

Abbreviation statuses := (list (OffloadKey * BlockStatus)).

(** ** LRU *)

Module Lru.

Record LRUCachePolicy : Type := mkLru { blocks : statuses }.

Definition new : LRUCachePolicy := mkLru [].

Definition get (key : OffloadKey) (p : LRUCachePolicy) : option BlockStatus := od_get key (blocks p).

Definition insert (key : OffloadKey) (block : BlockStatus) (p : LRUCachePolicy) : LRUCachePolicy :=
  mkLru (od_set key block (blocks p)).

Definition remove (key : OffloadKey) : M LRUCachePolicy unit :=
  p ← Prelude.get;
  if od_mem key (blocks p) then Prelude.put (mkLru (od_del key (blocks p))) else raise KeyError.

(** [move_to_end] of the present keys, the last key first. *)
Definition touch (keys : list OffloadKey) (p : LRUCachePolicy) : LRUCachePolicy :=
  mkLru (foldl (λ d key, od_to_end key d) (blocks p) (rev keys)).

Definition demote (keys : list OffloadKey) (p : LRUCachePolicy) : LRUCachePolicy :=
  mkLru (foldl (λ d key, od_to_front key d) (blocks p) (rev keys)).

Definition clear (p : LRUCachePolicy) : LRUCachePolicy := mkLru [].

(** The scan for [n] candidates, stopped as soon as there are [n]. *)
Fixpoint collect (n : Z) (protected : gset OffloadKey) (items candidates : statuses) : statuses :=
  match items with
  | [] => candidates
  | (key, block) :: rest =>
      if (bs_ref_cnt block =? 0) && bool_decide (key ∉ protected) then
        let candidates := candidates ++ [(key, block)] in
        if zlen candidates =? n then candidates else collect n protected rest candidates
      else collect n protected rest candidates
  end.

Definition evict (n : Z) (protected : gset OffloadKey) : M LRUCachePolicy (option statuses) :=
  p ← Prelude.get;
  if n =? 0 then mret (Some [])
  else
    let candidates := collect n protected (blocks p) [] in
    if zlen candidates <? n then mret None
    else
      Prelude.put (mkLru (foldl (λ d e, od_del e.1 d) (blocks p) candidates)) ;;
      mret (Some candidates).

Definition put (key : OffloadKey) (block : BlockStatus) (p : LRUCachePolicy) : LRUCachePolicy :=
  mkLru (od_set key block (blocks p)).

End Lru.

#[export] Instance lru_policy : CachePolicy Lru.LRUCachePolicy := {|
  policy_get := Lru.get;
  policy_insert := Lru.insert;
  policy_remove := Lru.remove;
  policy_touch := Lru.touch;
  policy_demote := Lru.demote;
  policy_evict := Lru.evict;
  policy_clear := Lru.clear;
  policy_put := Lru.put;
|}.

(** ** ARC *)

Module Arc.

(** Ghost lists are ordered dictionaries with the value [None]. *)
Abbreviation ghosts := (list (OffloadKey * unit)).

Record ARCCachePolicy : Type := mkArc {
  cache_capacity : Z;
  target_t1_size : number;
  t1 : statuses;
  t2 : statuses;
  b1 : ghosts;
  b2 : ghosts;
}.

Definition new (cache_capacity : Z) : ARCCachePolicy :=
  mkArc cache_capacity (PyFloat (S754_zero false)) [] [] [] [].

Definition set_t (x y : statuses) (p : ARCCachePolicy) : ARCCachePolicy :=
  mkArc (cache_capacity p) (target_t1_size p) x y (b1 p) (b2 p).
Definition set_b (x y : ghosts) (p : ARCCachePolicy) : ARCCachePolicy :=
  mkArc (cache_capacity p) (target_t1_size p) (t1 p) (t2 p) x y.
Definition set_target (v : number) (p : ARCCachePolicy) : ARCCachePolicy :=
  mkArc (cache_capacity p) v (t1 p) (t2 p) (b1 p) (b2 p).

Definition get (key : OffloadKey) (p : ARCCachePolicy) : option BlockStatus :=
  match od_get key (t1 p) with Some b => Some b | None => od_get key (t2 p) end.

Definition insert (key : OffloadKey) (block : BlockStatus) (p : ARCCachePolicy) : ARCCachePolicy :=
  set_b (od_del key (b1 p)) (od_del key (b2 p)) (set_t (od_set key block (t1 p)) (t2 p) p).

Definition remove (key : OffloadKey) : M ARCCachePolicy unit :=
  modify (λ p, if od_mem key (t1 p) then set_t (od_del key (t1 p)) (t2 p) p
               else set_t (t1 p) (od_del key (t2 p)) p).

(** One key of [touch]. *)
Definition touch_key (key : OffloadKey) (p : ARCCachePolicy) : ARCCachePolicy :=
  match od_get key (t1 p) with
  | Some block =>
      let rest := od_del key (t1 p) in
      if negb (is_ready block) then set_t (od_set key block rest) (t2 p) p
      else set_t rest (od_set key block (t2 p)) p
  | None =>
      if od_mem key (t2 p) then set_t (t1 p) (od_to_end key (t2 p)) p
      else if od_mem key (b1 p) then
        let delta := py_max (PyInt 1) (int_div (zlen (b2 p)) (zlen (b1 p))) in
        set_b (od_to_end key (b1 p)) (b2 p)
          (set_target (py_min (num_add (target_t1_size p) delta) (PyInt (cache_capacity p))) p)
      else if od_mem key (b2 p) then
        let delta := py_max (PyInt 1) (int_div (zlen (b1 p)) (zlen (b2 p))) in
        set_b (b1 p) (od_to_end key (b2 p))
          (set_target (py_max (num_sub (target_t1_size p) delta) (PyInt 0)) p)
      else p
  end.

Definition touch (keys : list OffloadKey) (p : ARCCachePolicy) : ARCCachePolicy :=
  foldl (λ p key, touch_key key p) p (rev keys).

(** The policy does not override [demote]. *)
Definition demote (keys : list OffloadKey) (p : ARCCachePolicy) : ARCCachePolicy := p.

Definition clear (p : ARCCachePolicy) : ARCCachePolicy :=
  mkArc (cache_capacity p) (PyFloat (S754_zero false)) [] [] [] [].

(** The first evictable entry of a list. *)
Fixpoint first_evictable (protected already_selected : gset OffloadKey) (items : statuses)
    : option (OffloadKey * BlockStatus) :=
  match items with
  | [] => None
  | (key, block) :: rest =>
      if (bs_ref_cnt block =? 0) && bool_decide (key ∉ protected) && bool_decide (key ∉ already_selected)
      then Some (key, block)
      else first_evictable protected already_selected rest
  end.

(** The candidate of one round and whether it comes from [t1]. *)
Definition pick (p : ARCCachePolicy) (protected already_selected : gset OffloadKey) (virtual_t1_size target : Z)
    : option (OffloadKey * BlockStatus * bool) :=
  match (if target <=? virtual_t1_size then first_evictable protected already_selected (t1 p) else None) with
  | Some e => Some (e, true)
  | None => (λ e, (e, false)) <$> first_evictable protected already_selected (t2 p)
  end.

(** [for _ in range(n)]: collect without changing anything. *)
Fixpoint collect (n : nat) (p : ARCCachePolicy) (protected already_selected : gset OffloadKey)
    (virtual_t1_size target : Z) (candidates : list (OffloadKey * BlockStatus * bool))
    : option (list (OffloadKey * BlockStatus * bool)) :=
  match n with
  | O => Some candidates
  | S n =>
      match pick p protected already_selected virtual_t1_size target with
      | None => None
      | Some c =>
          collect n p protected ({[c.1.1]} ∪ already_selected)
            (if c.2 then virtual_t1_size - 1 else virtual_t1_size) target (candidates ++ [c])
      end
  end.

(** One eviction moves its key to the ghost list of its side. *)
Definition apply_eviction (p : ARCCachePolicy) (c : OffloadKey * BlockStatus * bool) : ARCCachePolicy :=
  let '(key, _, from_t1) := c in
  if from_t1
  then set_b (od_set key tt (b1 p)) (b2 p) (set_t (od_del key (t1 p)) (t2 p) p)
  else set_b (b1 p) (od_set key tt (b2 p)) (set_t (t1 p) (od_del key (t2 p)) p).

(** [popitem(last=False)] as often as the list is too long. *)
Definition trim (capacity : Z) (ghost : ghosts) : ghosts := drop (Z.to_nat (zlen ghost - capacity)) ghost.

Definition evict (n : Z) (protected : gset OffloadKey) : M ARCCachePolicy (option statuses) :=
  p ← Prelude.get;
  if n =? 0 then mret (Some [])
  else
    target ← (if 0 <? n then of_outcome (py_int (target_t1_size p)) else mret 0);
    match collect (Z.to_nat n) p protected ∅ (zlen (t1 p)) target [] with
    | None => mret None
    | Some candidates =>
        let p := foldl apply_eviction p candidates in
        Prelude.put (set_b (trim (cache_capacity p) (b1 p)) (trim (cache_capacity p) (b2 p)) p) ;;
        mret (Some candidates.*1)
    end.

Definition put (key : OffloadKey) (block : BlockStatus) (p : ARCCachePolicy) : ARCCachePolicy :=
  if od_mem key (t1 p) then set_t (od_set key block (t1 p)) (t2 p) p
  else set_t (t1 p) (od_set key block (t2 p)) p.

End Arc.

#[export] Instance arc_policy : CachePolicy Arc.ARCCachePolicy := {|
  policy_get := Arc.get;
  policy_insert := Arc.insert;
  policy_remove := Arc.remove;
  policy_touch := Arc.touch;
  policy_demote := Arc.demote;
  policy_evict := Arc.evict;
  policy_clear := Arc.clear;
  policy_put := Arc.put;
|}.
