(* ===== verification/OffloadSpec.v ===== *)
(** * The cache policies meet their interface

    [CachePolicyLaws] is what the offloading manager relies on: a policy is a
    finite map from keys to blocks, only insertions, removals and evictions change
    it, and an eviction takes exactly the asked number of idle, unprotected blocks
    or changes nothing.  LRU and ARC are proved to satisfy it. *)

From Stdlib Require Import Strings.Byte SpecFloat.
From S2P Require Import Prelude.
From S2P Require Import OrderedDict.
From S2P Require Import FreeQueue.
From S2P Require Import PyNumber.
From S2P Require Import Offload.
Local Open Scope Z_scope.

Abbreviation statusmap := (gmap OffloadKey BlockStatus).

Definition idle (protected : gset OffloadKey) (e : OffloadKey * BlockStatus) : Prop :=
  bs_ref_cnt e.2 = 0 ∧ e.1 ∉ protected.

#[export] Instance idle_dec protected e : Decision (idle protected e).
Proof. unfold idle. apply _. Defined.

(** What an eviction of [n] blocks answers and leaves. *)
Definition evicted (n : Z) (protected : gset OffloadKey) (m m' : statusmap) (l : statuses) : Prop :=
  zlen l = n ∧ NoDup l.*1 ∧ (∀ k b, (k, b) ∈ l → m !! k = Some b ∧ idle protected (k, b)) ∧
  ∀ k, m' !! k = if decide (k ∈ l.*1) then None else m !! k.

Class CachePolicyLaws (P : Type) `{CachePolicy P} : Type := {
  policy_ok : P → Prop;
  policy_view : P → statusmap;
  (** the states in which an eviction raises *)
  policy_faulty : P → Prop;
  law_get k p : policy_ok p → policy_get k p = policy_view p !! k;
  law_insert k b p : policy_ok p → policy_view p !! k = None →
    policy_ok (policy_insert k b p) ∧ policy_view (policy_insert k b p) = <[k := b]> (policy_view p);
  law_put k b p : policy_ok p → is_Some (policy_view p !! k) →
    policy_ok (policy_put k b p) ∧ policy_view (policy_put k b p) = <[k := b]> (policy_view p);
  law_remove k p : policy_ok p → is_Some (policy_view p !! k) →
    wp (policy_remove k) p (λ _ p', policy_ok p' ∧ policy_view p' = delete k (policy_view p));
  law_touch ks p : policy_ok p →
    policy_ok (policy_touch ks p) ∧ policy_view (policy_touch ks p) = policy_view p;
  law_demote ks p : policy_ok p →
    policy_ok (policy_demote ks p) ∧ policy_view (policy_demote ks p) = policy_view p;
  law_evict n protected p : policy_ok p → 0 < n →
    wpe (policy_evict n protected) p
      (λ r p', match r with
               | None => p' = p
               | Some l => policy_ok p' ∧ evicted n protected (policy_view p) (policy_view p') l
               end)
      (λ _ p', p' = p ∧ policy_faulty p);
  law_clear p : policy_ok p → policy_ok (policy_clear p) ∧ policy_view (policy_clear p) = ∅;
}.

(** ** Ordered dictionaries as maps *)

(** Deleting the keys of [l] one after the other. *)
Lemma od_del_all {A} (l d : list (OffloadKey * A)) :
  foldl (λ d e, od_del e.1 d) d l = filter (λ e, e.1 ∉ l.*1) d.
Proof.
  revert d. induction l as [|e l IH]; intros d; cbn [foldl fmap list_fmap].
  - symmetry. apply filter_true. intros x _. apply not_elem_of_nil.
  - rewrite IH. unfold od_del. induction d as [|x d IHd]; [done|]. rewrite !filter_cons.
    destruct (decide (x.1 ≠ e.1)) as [Hne|Heq].
    + rewrite filter_cons, IHd. apply decide_ext. rewrite not_elem_of_cons. tauto.
    + rewrite IHd, decide_False; [done|]. rewrite not_elem_of_cons. tauto.
Qed.

Lemma filter_ok {A} (P : OffloadKey * A → Prop) `{∀ e, Decision (P e)} (d : list (OffloadKey * A)) :
  od_ok d → od_ok (filter P d).
Proof.
  unfold od_ok. induction d as [|e d IH]; [done|]. rewrite filter_cons, fmap_cons, NoDup_cons. intros [Hk Hd].
  case_decide; [|by apply IH]. rewrite fmap_cons, NoDup_cons. split; [|by apply IH].
  intros (e' & E & He')%list_elem_of_fmap. apply Hk. rewrite E. apply list_elem_of_filter in He' as [_ He'].
  by apply list_elem_of_fmap_2.
Qed.
Section od_map.
Implicit Types (d : statuses) (k : OffloadKey) (b : BlockStatus).

Definition od_map d : statusmap := list_to_map d.

Lemma od_map_get d k : od_map d !! k = od_get k d.
Proof.
  unfold od_map. induction d as [|[k' b] d IH]; simpl; [apply lookup_empty|].
  destruct (decide (k' = k)) as [->|Hne]; [by rewrite lookup_insert_eq|by rewrite lookup_insert_ne].
Qed.

Lemma od_map_set k b d : od_map (od_set k b d) = <[k := b]> (od_map d).
Proof.
  apply map_eq. intros k'. rewrite od_map_get, od_get_set. destruct (decide (k = k')) as [->|Hne].
  - by rewrite lookup_insert_eq.
  - by rewrite lookup_insert_ne, od_map_get.
Qed.

Lemma od_map_del k d : od_map (od_del k d) = delete k (od_map d).
Proof.
  apply map_eq. intros k'. rewrite od_map_get, od_get_del. destruct (decide (k = k')) as [->|Hne].
  - by rewrite lookup_delete_eq.
  - by rewrite lookup_delete_ne, od_map_get.
Qed.

Lemma od_map_perm d d' : od_ok d → d ≡ₚ d' → od_map d = od_map d'.
Proof. intros Hd Hp. by apply list_to_map_proper. Qed.

Lemma filter_keys_get (l : list OffloadKey) d k :
  od_get k (filter (λ e : OffloadKey * BlockStatus, e.1 ∉ l) d) = if decide (k ∈ l) then None else od_get k d.
Proof.
  induction d as [|[k' b] d IH]; [by case_decide|]. rewrite filter_cons. simpl.
  destruct (decide (k' ∉ l)) as [Hn|Hn]; simpl; rewrite IH.
  - destruct (decide (k' = k)) as [->|]; [by rewrite decide_False|done].
  - destruct (decide (k' = k)) as [->|]; [|done]. apply dec_stable in Hn. by destruct (decide (k ∈ l)).
Qed.

End od_map.

(** ** LRU *)

Section lru.
Implicit Types (p : Lru.LRUCachePolicy).

Lemma lru_collect n protected items : ∀ acc,
  zlen acc < n →
  Lru.collect n protected items acc =
    acc ++ take (Z.to_nat (n - zlen acc)) (filter (idle protected) items).
Proof.
  induction items as [|[k b] items IH]; intros acc Hn; cbn [Lru.collect].
  { by rewrite filter_nil, take_nil, app_nil_r. }
  rewrite filter_cons.
  assert (Hc : (bs_ref_cnt b =? 0) && bool_decide (k ∉ protected) = bool_decide (idle protected (k, b))).
  { unfold idle. destruct (Z.eqb_spec (bs_ref_cnt b) 0), (decide (k ∉ protected)) as [Hk|Hk]; symmetry.
    all: first [rewrite (bool_decide_eq_true_2 (k ∉ protected)) by done
               |rewrite (bool_decide_eq_false_2 (k ∉ protected)) by done].
    all: first [by apply bool_decide_eq_true|apply bool_decide_eq_false; simpl; tauto]. }
  rewrite Hc. clear Hc. destruct (decide (idle protected (k, b))) as [Hi|Hi].
  2:{ rewrite bool_decide_eq_false_2 by done. by apply IH. }
  rewrite bool_decide_eq_true_2 by done. rewrite zlen_app, zlen_cons, zlen_nil.
  replace (Z.to_nat (n - zlen acc)) with (S (Z.to_nat (n - (zlen acc + (0 + 1))))) by lia. cbn [take].
  destruct (Z.eqb_spec (zlen acc + (0 + 1)) n) as [->|Hne].
  - by rewrite Z.sub_diag.
  - rewrite IH by (rewrite zlen_app, zlen_cons, zlen_nil; lia).
    rewrite zlen_app, zlen_cons, zlen_nil, <-(assoc_L (++)). done.
Qed.

(** The candidates of LRU: the [n] oldest idle entries. *)
Definition oldest_idle (n : Z) (protected : gset OffloadKey) p : statuses :=
  take (Z.to_nat n) (filter (idle protected) (Lru.blocks p)).

Lemma lru_evict_run n protected p :
  0 < n →
  Lru.evict n protected p =
    if zlen (filter (idle protected) (Lru.blocks p)) <? n then (Ret None, p)
    else (Ret (Some (oldest_idle n protected p)),
          Lru.mkLru (filter (λ e, e.1 ∉ (oldest_idle n protected p).*1) (Lru.blocks p))).
Proof.
  intros Hn. unfold Lru.evict, mbind, M_bind, Prelude.get. rewrite (proj2 (Z.eqb_neq n 0)) by lia.
  rewrite lru_collect by (rewrite zlen_nil; lia). rewrite zlen_nil, Z.sub_0_r, app_nil_l.
  fold (oldest_idle n protected p). set (l := filter (idle protected) (Lru.blocks p)) in *.
  assert (Hlen : zlen (oldest_idle n protected p) = Z.min n (zlen l)).
  { unfold oldest_idle, zlen. rewrite length_take. fold l. lia. }
  rewrite Hlen. destruct (Z.ltb_spec (zlen l) n) as [Hlt|Hge].
  - by rewrite (proj2 (Z.ltb_lt _ _)) by lia.
  - rewrite (proj2 (Z.ltb_ge _ _)) by lia. unfold Prelude.put, mret, M_ret. by rewrite od_del_all.
Qed.

Lemma oldest_idle_elem n protected p e :
  e ∈ oldest_idle n protected p → e ∈ Lru.blocks p ∧ idle protected e.
Proof.
  intros He. unfold oldest_idle in He. apply subseteq_take in He.
  apply list_elem_of_filter in He. tauto.
Qed.

Lemma lru_evicted n protected p :
  od_ok (Lru.blocks p) → 0 < n → ¬ zlen (filter (idle protected) (Lru.blocks p)) < n →
  evicted n protected (od_map (Lru.blocks p))
    (od_map (filter (λ e, e.1 ∉ (oldest_idle n protected p).*1) (Lru.blocks p))) (oldest_idle n protected p).
Proof.
  intros Hok Hn Hlen. split; [|split; [|split]].
  - unfold oldest_idle, zlen in *. rewrite length_take. lia.
  - unfold oldest_idle. rewrite fmap_take. eapply sublist_NoDup; [|apply sublist_take]. by apply filter_ok.
  - intros k b He. apply oldest_idle_elem in He as [Hin Hi]. split; [|done].
    rewrite od_map_get. by apply od_get_elem.
  - intros k. by rewrite !od_map_get, filter_keys_get.
Qed.

Lemma lru_moved (f : OffloadKey → statuses → statuses) ks d :
  (∀ k d, od_ok d → f k d ≡ₚ d) → od_ok d → foldl (λ d k, f k d) d ks ≡ₚ d.
Proof.
  intros Hf. revert d. induction ks as [|k ks IH]; intros d Hd; [done|]. simpl.
  pose proof (Hf k d Hd) as Hp. rewrite IH; [done|]. by eapply od_ok_perm.
Qed.

#[export, program] Instance lru_laws : CachePolicyLaws Lru.LRUCachePolicy := {|
  policy_ok p := od_ok (Lru.blocks p);
  policy_view p := od_map (Lru.blocks p);
  policy_faulty _ := False;
|}.
Next Obligation. intros k p _. simpl. by rewrite od_map_get. Qed.
Next Obligation. intros k b p Hp _. simpl. split; [by apply od_set_ok|apply od_map_set]. Qed.
Next Obligation. intros k b p Hp _. simpl. split; [by apply od_set_ok|apply od_map_set]. Qed.
Next Obligation.
  intros k p Hp Hk. simpl in *. unfold Lru.remove. wp_step. wp_step. rewrite od_map_get in Hk.
  assert (E : od_mem k (Lru.blocks p) = true) by by apply bool_decide_eq_true.
  rewrite E. wp_step. split; [by apply od_del_ok|apply od_map_del].
Qed.
Next Obligation.
  intros ks p Hp. simpl.
  pose proof (lru_moved od_to_end (rev ks) (Lru.blocks p) (λ k d, od_to_end_perm k d) Hp) as Hm.
  split; [eapply od_ok_perm; [symmetry; exact Hm|done]|]. symmetry. by apply od_map_perm.
Qed.
Next Obligation.
  intros ks p Hp. simpl.
  pose proof (lru_moved od_to_front (rev ks) (Lru.blocks p) (λ k d, od_to_front_perm k d) Hp) as Hm.
  split; [eapply od_ok_perm; [symmetry; exact Hm|done]|]. symmetry. by apply od_map_perm.
Qed.
Next Obligation.
  intros n protected p Hp Hn. simpl. apply wp_wpe. unfold wp. rewrite lru_evict_run by done.
  destruct (Z.ltb_spec (zlen (filter (idle protected) (Lru.blocks p))) n); [done|]. simpl.
  split; [by apply filter_ok|]. apply lru_evicted; [done..|lia].
Qed.
Next Obligation. intros p _. split; [constructor|done]. Qed.
End lru.
