(* ===== verification/OffloadArc.v ===== *)
(** * The ARC policy meets the interface

    The two resident lists and the two ghost lists of ARC stay disjoint, the ghost
    lists stay within the capacity, and the policy satisfies
    [CachePolicyLaws]. *)

From Stdlib Require Import Strings.Byte SpecFloat.
From S2P Require Import Prelude.
From S2P Require Import OrderedDict.
From S2P Require Import FreeQueue.
From S2P Require Import PyNumber.
From S2P Require Import Offload.
From S2P Require Import OffloadSpec.
Local Open Scope Z_scope.

Lemma od_get_app (d d' : statuses) k :
  od_get k (d ++ d') = match od_get k d with Some b => Some b | None => od_get k d' end.
Proof.
  induction d as [|[k' b] d IH]; simpl; [done|]. by destruct (decide (k' = k)).
Qed.

Lemma od_set_app k b (d d' : statuses) :
  od_set k b (d ++ d') = if decide (k ∈ d.*1) then od_set k b d ++ d' else d ++ od_set k b d'.
Proof.
  induction d as [|[k' b'] d IH]; simpl; [done|].
  destruct (decide (k' = k)) as [->|Hne].
  - by rewrite decide_True by by left.
  - rewrite IH. destruct (decide (k ∈ d.*1)) as [Hk|Hk].
    + by rewrite decide_True by by right.
    + by rewrite decide_False by by intros [->|?]%elem_of_cons.
Qed.

Lemma od_del_app {A} k (d d' : list (OffloadKey * A)) : od_del k (d ++ d') = od_del k d ++ od_del k d'.
Proof. apply filter_app. Qed.

Lemma od_ok_app {A} (d d' : list (OffloadKey * A)) :
  od_ok (d ++ d') ↔ od_ok d ∧ (∀ k, k ∈ d.*1 → k ∉ d'.*1) ∧ od_ok d'.
Proof. unfold od_ok. by rewrite fmap_app, NoDup_app. Qed.

Lemma zlen_del {A} k (d : list (OffloadKey * A)) : zlen (od_del k d) ≤ zlen d.
Proof. unfold zlen, od_del. pose proof (length_filter (λ e : OffloadKey * A, e.1 ≠ k) d). lia. Qed.

#[export] Instance zlen_proper {A} : Proper ((≡ₚ) ==> eq) (@zlen A).
Proof. intros l l' H. unfold zlen. by rewrite H. Qed.

(** ** The lists of ARC *)

Section arc.
Import Arc.
Implicit Types (p : ARCCachePolicy).

Abbreviation residents p := (t1 p ++ t2 p).
Abbreviation all_ghosts p := (b1 p ++ b2 p).

(** No key is in two lists. *)
Record arc_disjoint p : Prop := {
  ad_residents : od_ok (residents p);
  ad_ghosts : od_ok (all_ghosts p);
  ad_apart : ∀ k, k ∈ (residents p).*1 → k ∉ (all_ghosts p).*1;
}.

Definition arc_ok p : Prop :=
  arc_disjoint p ∧ zlen (b1 p) ≤ cache_capacity p ∧ zlen (b2 p) ≤ cache_capacity p.

Definition arc_view p : statusmap := od_map (residents p).

Lemma arc_get k p : Arc.get k p = arc_view p !! k.
Proof. unfold arc_view. by rewrite od_map_get, od_get_app. Qed.

(** Two states with the same residents and ghosts, in another order. *)
Definition arc_moved p p' : Prop :=
  residents p' ≡ₚ residents p ∧ all_ghosts p' ≡ₚ all_ghosts p ∧ cache_capacity p' = cache_capacity p ∧
  zlen (b1 p') = zlen (b1 p) ∧ zlen (b2 p') = zlen (b2 p).

Lemma arc_moved_ok p p' : arc_moved p p' → arc_ok p → arc_ok p' ∧ arc_view p' = arc_view p.
Proof.
  intros (Ht & Hb & Hc & H1 & H2) [[Hrt Hrb Ha] Hlen]. unfold arc_ok. split; [|].
  - split; [split|by rewrite H1, H2, Hc].
    + by eapply od_ok_perm.
    + by eapply od_ok_perm.
    + intros k. rewrite Ht, Hb. apply Ha.
  - unfold arc_view. apply od_map_perm; [|done]. by eapply od_ok_perm.
Qed.

Lemma arc_moved_refl p : arc_moved p p.
Proof. done. Qed.

Lemma touch_key_moved k p : arc_disjoint p → arc_moved p (touch_key k p).
Proof.
  intros [Ht Hb Ha]. pose proof Ht as Ht0. pose proof Hb as Hb0.
  apply od_ok_app in Ht0 as (Ht1 & Ht12 & Ht2). apply od_ok_app in Hb0 as (Hb1 & _ & Hb2).
  unfold touch_key. destruct (od_get k (t1 p)) as [b|] eqn:E1.
  - apply od_get_elem in E1; [|done]. pose proof (od_del_perm k b (t1 p) Ht1 E1) as Hp.
    assert (Hk1 : k ∉ (od_del k (t1 p)).*1) by (rewrite od_del_keys; tauto).
    assert (Hk2 : k ∉ (t2 p).*1) by (apply Ht12, elem_of_keys; by exists b).
    destruct (is_ready b); cbn [negb]; (split; [|done]); simpl.
    + rewrite (od_set_absent k b (t2 p)) by done. rewrite Hp at 2. simpl.
      rewrite (assoc_L (++)), Permutation_app_comm. done.
    + rewrite (od_set_absent k b) by done. rewrite Hp at 2. rewrite <-(assoc_L (++)). simpl. by rewrite Permutation_middle.
  - destruct (od_mem k (t2 p)).
    { split; [|done]. simpl. by rewrite od_to_end_perm. }
    destruct (od_mem k (b1 p)).
    { split; [done|]. simpl. by rewrite od_to_end_perm by done. }
    destruct (od_mem k (b2 p)); [|apply arc_moved_refl].
    split; [done|]. simpl. by rewrite od_to_end_perm by done.
Qed.

Lemma arc_touch_ok ks p : arc_ok p → arc_ok (touch ks p) ∧ arc_view (touch ks p) = arc_view p.
Proof.
  unfold touch. generalize (rev ks). intros l. revert p. induction l as [|k l IH]; intros p Hp; [done|]. simpl.
  destruct (arc_moved_ok p _ (touch_key_moved k p (proj1 Hp)) Hp) as [Hp1 Hv1].
  destruct (IH _ Hp1) as [Hp2 Hv2]. by rewrite Hv2.
Qed.

Lemma insert_ok k b p :
  arc_ok p → arc_view p !! k = None →
  arc_ok (insert k b p) ∧ arc_view (insert k b p) = <[k := b]> (arc_view p).
Proof.
  intros [[Ht Hb Ha] [Hl1 Hl2]] Hk. unfold arc_view in Hk. rewrite od_map_get, od_get_none in Hk.
  assert (Hk1 : k ∉ (t1 p).*1) by (intros ?; apply Hk; rewrite fmap_app; apply elem_of_app; by left).
  assert (Hp : od_set k b (t1 p) ++ t2 p ≡ₚ (k, b) :: residents p).
  { rewrite od_set_absent by done. rewrite <-(assoc_L (++)). simpl. by rewrite Permutation_middle. }
  split.
  - split; [split; simpl|simpl].
    + eapply od_ok_perm; [symmetry; exact Hp|]. by apply od_ok_cons.
    + rewrite <-od_del_app. by apply od_del_ok.
    + intros k' Hk'. rewrite <-od_del_app, od_del_keys. rewrite Hp in Hk'. csimpl in Hk'.
      intros [Hne Hin]. apply elem_of_cons in Hk' as [->|Hk']; [done|]. by eapply Ha.
    + pose proof (zlen_del k (b1 p)). pose proof (zlen_del k (b2 p)). lia.
  - unfold arc_view. simpl. rewrite (od_map_perm _ _ (od_ok_perm _ _ (symmetry Hp) (proj2 (od_ok_cons _ _ _) (conj Hk Ht))) Hp).
    done.
Qed.

Lemma put_ok k b p :
  arc_ok p → is_Some (arc_view p !! k) →
  arc_ok (put k b p) ∧ arc_view (put k b p) = <[k := b]> (arc_view p).
Proof.
  intros [[Ht Hb Ha] Hl] [b0 Hk]. unfold arc_view in Hk. rewrite od_map_get in Hk. apply od_get_mem in Hk.
  assert (E : residents (put k b p) = od_set k b (residents p) ∧ all_ghosts (put k b p) = all_ghosts p ∧
    cache_capacity (put k b p) = cache_capacity p ∧ b1 (put k b p) = b1 p ∧ b2 (put k b p) = b2 p).
  { unfold put. rewrite od_set_app. destruct (od_mem k (t1 p)) eqn:Em.
    - apply od_mem_true in Em. by rewrite decide_True.
    - apply od_mem_false in Em. by rewrite decide_False. }
  destruct E as (Er & Eg & Ec & E1 & E2). split.
  - split; [split|by rewrite E1, E2, Ec]; rewrite ?Er, ?Eg; [by apply od_set_ok|done|].
    intros k'. rewrite od_set_keys, decide_True by done. apply Ha.
  - unfold arc_view. by rewrite Er, od_map_set.
Qed.

(** Taking a resident key away. *)
Lemma residents_del k p :
  od_ok (residents p) →
  (if od_mem k (t1 p) then od_del k (t1 p) ++ t2 p else t1 p ++ od_del k (t2 p)) = od_del k (residents p).
Proof.
  intros (H1 & H12 & H2)%od_ok_app. rewrite od_del_app. destruct (od_mem k (t1 p)) eqn:Em.
  - apply od_mem_true in Em. by rewrite (od_del_absent k (t2 p)) by by apply H12.
  - apply od_mem_false in Em. by rewrite (od_del_absent k (t1 p)) by done.
Qed.

Lemma remove_ok k p :
  arc_ok p → wp (remove k) p (λ _ p', arc_ok p' ∧ arc_view p' = delete k (arc_view p)).
Proof.
  intros [[Ht Hb Ha] Hl]. unfold remove. wp_step.
  assert (Er : residents (if od_mem k (t1 p) then set_t (od_del k (t1 p)) (t2 p) p
    else set_t (t1 p) (od_del k (t2 p)) p) = od_del k (residents p)).
  { rewrite <-residents_del by done. by destruct (od_mem k (t1 p)). }
  set (p' := if od_mem k (t1 p) then set_t (od_del k (t1 p)) (t2 p) p else set_t (t1 p) (od_del k (t2 p)) p) in *.
  assert (Eg : b1 p' = b1 p ∧ b2 p' = b2 p ∧ cache_capacity p' = cache_capacity p).
  { unfold p'. by destruct (od_mem k (t1 p)). }
  destruct Eg as (E1 & E2 & Ec). split.
  - split; [split|by rewrite E1, E2, Ec]; rewrite ?Er, ?E1, ?E2; [by apply od_del_ok|done|].
    intros k' [_ Hk']%od_del_keys. by apply Ha.
  - unfold arc_view. by rewrite Er, od_map_del.
Qed.

(** ** Eviction *)

Lemma first_evictable_spec protected sel items e :
  first_evictable protected sel items = Some e → e ∈ items ∧ idle protected e ∧ e.1 ∉ sel.
Proof.
  induction items as [|[k b] items IH]; simpl; [done|].
  destruct (_ && _ && _) eqn:E.
  - intros [= <-]. rewrite !andb_true_iff, !bool_decide_eq_true, Z.eqb_eq in E. destruct E as [[? ?] ?].
    split; [by left|]. by split.
  - intros H. destruct (IH H) as (? & ? & ?). split; [by right|done].
Qed.

(** A candidate lies in the list it is said to come from. *)
Definition from_list p (c : OffloadKey * BlockStatus * bool) : Prop :=
  c.1 ∈ (if c.2 then t1 p else t2 p).

Lemma pick_spec p protected sel v target c :
  pick p protected sel v target = Some c → from_list p c ∧ idle protected c.1 ∧ c.1.1 ∉ sel.
Proof.
  unfold pick, from_list. destruct (target <=? v); [destruct (first_evictable _ _ (t1 p)) as [e|] eqn:E1|].
  - intros [= <-]. simpl. by apply first_evictable_spec.
  - destruct (first_evictable _ _ (t2 p)) as [e|] eqn:E2; [|done]. intros [= <-]. simpl.
    by apply first_evictable_spec.
  - destruct (first_evictable _ _ (t2 p)) as [e|] eqn:E2; [|done]. intros [= <-]. simpl.
    by apply first_evictable_spec.
Qed.

Lemma collect_spec n : ∀ p protected sel v target cs res,
  collect n p protected sel v target cs = Some res →
  ∃ new, res = cs ++ new ∧ length new = n ∧ NoDup new.*1.*1 ∧
    ∀ c, c ∈ new → from_list p c ∧ idle protected c.1 ∧ c.1.1 ∉ sel.
Proof.
  induction n as [|n IH]; intros p protected sel v target cs res; cbn [collect].
  { intros [= <-]. exists []. rewrite app_nil_r. split; [done|]. split; [done|]. split; [constructor|].
    by intros c ?%not_elem_of_nil. }
  destruct (pick _ _ _ _ _) as [c|] eqn:Ec; [|done]. intros H.
  apply pick_spec in Ec as (Hf & Hi & Hs). apply IH in H as (new & -> & Hlen & Hnd & Hnew).
  exists (c :: new). rewrite <-(assoc_L (++)). split; [done|]. split; [simpl; lia|]. split.
  - csimpl. apply NoDup_cons. split; [|done]. intros (e & Ee & (c' & -> & Hc')%list_elem_of_fmap)%list_elem_of_fmap.
    destruct (Hnew c' Hc') as (_ & _ & Hn). set_solver.
  - intros c' [->|Hc']%elem_of_cons; [done|]. destruct (Hnew c' Hc') as (? & ? & Hn). split; [done|]. split; [done|].
    set_solver.
Qed.

(** An eviction moves its key from the residents to the ghosts. *)
Lemma apply_eviction_spec p c :
  arc_disjoint p → from_list p c →
  let p' := apply_eviction p c in
  arc_disjoint p' ∧ residents p' = od_del c.1.1 (residents p) ∧ cache_capacity p' = cache_capacity p ∧
  ∀ c', from_list p c' → c'.1.1 ≠ c.1.1 → from_list p' c'.
Proof.
  destruct c as [[k b] f]. unfold from_list. intros [Ht Hb Ha] Hin. cbn [fst snd] in Hin |- *.
  pose proof Ht as Ht0. apply od_ok_app in Ht0 as (H1 & H12 & H2).
  assert (Hkin : k ∈ (residents p).*1).
  { rewrite fmap_app, elem_of_app. destruct f; [left|right]; apply elem_of_keys; by exists b. }
  assert (Hkb : (k ∉ (b1 p).*1) ∧ k ∉ (b2 p).*1).
  { apply Ha in Hkin. rewrite fmap_app, elem_of_app in Hkin. tauto. }
  assert (Er : residents (apply_eviction p (k, b, f)) = od_del k (residents p)).
  { rewrite od_del_app. unfold apply_eviction. destruct f; simpl.
    - rewrite (od_del_absent k (t2 p)); [done|]. apply H12, elem_of_keys. by exists b.
    - rewrite (od_del_absent k (t1 p)); [done|]. intros Hk. apply (H12 k Hk), elem_of_keys. by exists b. }
  assert (Eg : all_ghosts (apply_eviction p (k, b, f)) ≡ₚ (k, tt) :: all_ghosts p).
  { unfold apply_eviction. destruct f; simpl.
    - rewrite od_set_absent by tauto. rewrite <-(assoc_L (++)). simpl. by rewrite Permutation_middle.
    - rewrite od_set_absent by tauto. rewrite (assoc_L (++)). by rewrite Permutation_app_comm. }
  split; [split|split; [exact Er|split]].
  - rewrite Er. by apply od_del_ok.
  - eapply od_ok_perm; [symmetry; exact Eg|]. apply od_ok_cons. split; [|done]. rewrite fmap_app, elem_of_app. tauto.
  - intros k'. rewrite Er, Eg, od_del_keys. csimpl. intros [Hne Hk'] [->|?]%elem_of_cons; [done|]. by eapply Ha.
  - by destruct f.
  - intros [[k' b'] f'] Hin' Hne. simpl in *. unfold apply_eviction. destruct f, f'; simpl; try done; by apply od_del_elem.
Qed.

Lemma apply_evictions_spec cs : ∀ p,
  arc_disjoint p → NoDup cs.*1.*1 → (∀ c, c ∈ cs → from_list p c) →
  let p' := foldl apply_eviction p cs in
  arc_disjoint p' ∧ residents p' = filter (λ e, e.1 ∉ cs.*1.*1) (residents p) ∧
  cache_capacity p' = cache_capacity p.
Proof.
  intros p Hp Hnd Hin. cbv zeta. rewrite <-(od_del_all cs.*1). revert p Hp Hnd Hin.
  induction cs as [|c cs IH]; intros p Hp Hnd Hin; [done|]. csimpl. csimpl in Hnd. apply NoDup_cons in Hnd as [Hk Hnd].
  destruct (apply_eviction_spec p c Hp (Hin c ltac:(by left))) as (Hp1 & Er & Ec & Hkeep).
  destruct (IH (apply_eviction p c) Hp1 Hnd) as (Hp2 & Er2 & Ec2).
  - intros c' Hc'. apply Hkeep; [apply Hin; by right|]. intros Heq. apply Hk. rewrite <-Heq.
    by do 2 apply list_elem_of_fmap_2.
  - split; [done|]. rewrite Er2, Er, Ec2, Ec. done.
Qed.

Lemma trim_spec p :
  arc_disjoint p → 0 ≤ cache_capacity p →
  arc_ok (set_b (trim (cache_capacity p) (b1 p)) (trim (cache_capacity p) (b2 p)) p).
Proof.
  intros [Ht Hb Ha] Hc. assert (Hsub : trim (cache_capacity p) (b1 p) ++ trim (cache_capacity p) (b2 p) `sublist_of` all_ghosts p).
  { apply sublist_app; apply sublist_drop. }
  split; [split; simpl; [done| |]|simpl].
  - unfold od_ok. eapply sublist_NoDup; [exact Hb|]. by apply fmap_sublist.
  - intros k Hk Hin. apply (Ha k Hk). eapply sublist_subseteq; [|exact Hin]. by apply fmap_sublist.
  - unfold trim, zlen. rewrite !length_drop. lia.
Qed.

Lemma evict_ok n protected p :
  arc_ok p → 0 < n →
  wpe (evict n protected) p
    (λ r p', match r with
             | None => p' = p
             | Some l => arc_ok p' ∧ evicted n protected (arc_view p) (arc_view p') l
             end)
    (λ e p', p' = p ∧ py_int (target_t1_size p) = Raise e).
Proof.
  intros [Hd Hl] Hn. unfold evict. wpe_step. wpe_step. rewrite (proj2 (Z.eqb_neq n 0)) by lia.
  rewrite (proj2 (Z.ltb_lt 0 n)) by lia. wpe_step.
  destruct (py_int (target_t1_size p)) as [target|e] eqn:Et; cbn [of_outcome]; [|by wpe_step].
  wpe_step. destruct (collect _ _ _ _ _ _ _) as [cs|] eqn:Ec; [|by wpe_step].
  apply collect_spec in Ec as (new & -> & Hlen & Hnd & Hnew). rewrite app_nil_l. cbv zeta.
  destruct (apply_evictions_spec new p Hd Hnd) as (Hd' & Er & Ecap).
  { intros c Hc. by apply Hnew. }
  apply wp_wpe. wp_step. wp_step. wp_step. split.
  - apply trim_spec; [done|]. rewrite Ecap. pose proof (zlen_nonneg (b1 p)). lia.
  - split; [unfold zlen; rewrite length_fmap; lia|]. split; [done|]. split.
    + intros k b (c & Ekb & Hc)%list_elem_of_fmap. destruct (Hnew c Hc) as (Hf & Hi & _). rewrite Ekb. split; [|done].
      unfold arc_view. rewrite od_map_get. apply od_get_elem; [apply Hd|]. rewrite Ekb. apply elem_of_app.
      unfold from_list in Hf. destruct c.2; tauto.
    + intros k. unfold arc_view. simpl. rewrite Er, !od_map_get, filter_keys_get. done.
Qed.
End arc.

(** An eviction raises only when the target has become infinite or NaN. *)
#[export, program] Instance arc_laws : CachePolicyLaws Arc.ARCCachePolicy := {|
  policy_ok := arc_ok;
  policy_view := arc_view;
  policy_faulty p := ∃ e, py_int (Arc.target_t1_size p) = Raise e;
|}.
Next Obligation. intros k p _. apply arc_get. Qed.
Next Obligation. intros. by apply insert_ok. Qed.
Next Obligation. intros. by apply put_ok. Qed.
Next Obligation. intros. by apply remove_ok. Qed.
Next Obligation. intros. by apply arc_touch_ok. Qed.
Next Obligation. done. Qed.
Next Obligation.
  intros n protected p Hp Hn. eapply wpe_mono; [by apply evict_ok| |].
  - by intros [l|] p' H.
  - intros e p' [-> H]. split; [done|]. by exists e.
Qed.
Next Obligation.
  intros p [_ Hl]. split; [|done]. split; [|simpl; change (zlen (@nil (OffloadKey * unit))) with 0; pose proof (zlen_nonneg (Arc.b1 p)); lia].
  split; simpl; [constructor|constructor|]. by intros k ?%not_elem_of_nil.
Qed.
