(* ===== verification/OffloadManager.v ===== *)
(** * The CPU offloading manager

    [vllm/v1/kv_offload/cpu/manager.py]: [CPUOffloadingManager] hands out the
    blocks of a CPU buffer, keeps them in a cache policy (any instance of
    [CachePolicy]) and tracks which are being read or written.  The constructor's
    dispatch on the policy name is the sum type [any_policy]. *)

From Stdlib Require Import Strings.Byte.
From S2P Require Import Prelude.
From S2P Require Import OrderedDict.
From S2P Require Import FreeQueue.
From S2P Require Import BlockHash.
From S2P Require Import PyNumber.
From S2P Require Import Offload.
Local Open Scope Z_scope.

(** ** Keys *)

(** [make_offload_key], [get_offload_block_hash], [get_offload_group_idx] *)
Definition make_offload_key (block_hash : bytes) (group_idx : Z) : outcome OffloadKey :=
  make_block_hash_with_group_id block_hash group_idx.
Definition get_offload_block_hash (key : OffloadKey) : bytes := get_block_hash key.
Definition get_offload_group_idx (key : OffloadKey) : Z := get_group_id key.

Record OffloadingEvent : Type := mkEvent {
  ev_keys : list OffloadKey;
  ev_medium : string;
  ev_removed : bool;
}.

(** [LoadStoreSpec]: the block ids; [PrepareStoreOutput]. *)
Record PrepareStoreOutput : Type := mkStoreOutput {
  keys_to_store : list OffloadKey;
  store_spec : list Z;
  evicted_keys : list OffloadKey;
}.

Section manager.
Context {P : Type} `{!CachePolicy P}.

Record CPUOffloadingManager : Type := mkCPU {
  _num_blocks : Z;
  _num_allocated_blocks : Z;
  _free_list : list Z;
  events : option (list OffloadingEvent);
  _policy : P;
  store_threshold : Z;
  max_tracker_size : Z;
  counts : option (list (OffloadKey * Z));
}.

Definition set_pool_ids (allocated : Z) (free : list Z) (m : CPUOffloadingManager) : CPUOffloadingManager :=
  mkCPU (_num_blocks m) allocated free (events m) (_policy m) (store_threshold m) (max_tracker_size m) (counts m).
Definition set_events (v : option (list OffloadingEvent)) (m : CPUOffloadingManager) : CPUOffloadingManager :=
  mkCPU (_num_blocks m) (_num_allocated_blocks m) (_free_list m) v (_policy m) (store_threshold m)
    (max_tracker_size m) (counts m).
Definition set_policy (v : P) (m : CPUOffloadingManager) : CPUOffloadingManager :=
  mkCPU (_num_blocks m) (_num_allocated_blocks m) (_free_list m) (events m) v (store_threshold m)
    (max_tracker_size m) (counts m).
Definition set_counts (v : option (list (OffloadKey * Z))) (m : CPUOffloadingManager) : CPUOffloadingManager :=
  mkCPU (_num_blocks m) (_num_allocated_blocks m) (_free_list m) (events m) (_policy m) (store_threshold m)
    (max_tracker_size m) v.

(** The constructor, for a policy already built. *)
Definition cpu_manager (num_blocks : Z) (policy : P) (enable_events : bool) (store_threshold max_tracker_size : Z)
    : CPUOffloadingManager :=
  mkCPU num_blocks 0 [] (if enable_events then Some [] else None) policy store_threshold max_tracker_size
    (if 2 <=? store_threshold then Some [] else None).

Definition on_policy {A} (m : M P A) : M CPUOffloadingManager A := zoom _policy set_policy m.

(** ** The block pool *)

Definition _get_num_free_blocks (m : CPUOffloadingManager) : Z :=
  zlen (_free_list m) + _num_blocks m - _num_allocated_blocks m.

(** [BlockStatus(self._free_list.pop())] *)
Fixpoint reuse_blocks (n : nat) (blocks : list BlockStatus) : M CPUOffloadingManager (list BlockStatus) :=
  match n with
  | O => mret blocks
  | S n =>
      m ← get;
      id ← of_option IndexError (last (_free_list m));
      put (set_pool_ids (_num_allocated_blocks m) (removelast (_free_list m)) m) ;;
      reuse_blocks n (blocks ++ [new_status id])
  end.

Fixpoint fresh_blocks (n : nat) (blocks : list BlockStatus) : M CPUOffloadingManager (list BlockStatus) :=
  match n with
  | O => mret blocks
  | S n =>
      m ← get;
      put (set_pool_ids (_num_allocated_blocks m + 1) (_free_list m) m) ;;
      fresh_blocks n (blocks ++ [new_status (_num_allocated_blocks m)])
  end.

Definition _allocate_blocks (keys : list OffloadKey) : M CPUOffloadingManager (list BlockStatus) :=
  m ← get;
  let num_fresh := Z.min (zlen keys) (_num_blocks m - _num_allocated_blocks m) in
  let num_reused := zlen keys - num_fresh in
  py_assert (num_reused <=? zlen (_free_list m)) ;;
  blocks ← fresh_blocks (Z.to_nat num_fresh) [];
  reuse_blocks (Z.to_nat num_reused) blocks.

Definition _free_block (block : BlockStatus) : M CPUOffloadingManager unit :=
  modify (λ m, set_pool_ids (_num_allocated_blocks m) (_free_list m ++ [bs_block_id block]) m).

(** ** The interface *)

Definition policy_lookup (key : OffloadKey) : M CPUOffloadingManager (option BlockStatus) :=
  m ← get; mret (policy_get key (_policy m)).
Definition policy_write (key : OffloadKey) (block : BlockStatus) : M CPUOffloadingManager unit :=
  modify (λ m, set_policy (policy_put key block (_policy m)) m).

(** The reference tracker of [lookup]. *)
Definition count_lookup (key : OffloadKey) : M CPUOffloadingManager unit :=
  m ← get;
  match counts m with
  | None => mret tt
  | Some counts =>
      match od_get key counts with
      | Some n => put (set_counts (Some (od_set key (n + 1) (od_to_end key counts))) m)
      | None =>
          kept ← (if max_tracker_size m <=? zlen counts then
                    match counts with [] => raise KeyError | _ :: rest => mret rest end
                  else mret counts);
          put (set_counts (Some (od_set key 1 kept)) m)
      end
  end.

(** [Some true]: ready, [Some false]: absent, [None]: retry. *)
Definition lookup (key : OffloadKey) : M CPUOffloadingManager (option bool) :=
  count_lookup key ;;
  block ← policy_lookup key;
  match block with
  | None => mret (Some false)
  | Some block => mret (if is_ready block then Some true else None)
  end.

Fixpoint load_loop (keys : list OffloadKey) (blocks : list BlockStatus)
    : M CPUOffloadingManager (list BlockStatus) :=
  match keys with
  | [] => mret blocks
  | key :: rest =>
      block ← policy_lookup key;
      block ← of_option AssertionError block;
      py_assert (is_ready block) ;;
      let block := set_ref_cnt (bs_ref_cnt block + 1) block in
      policy_write key block ;;
      load_loop rest (blocks ++ [block])
  end.

Definition prepare_load (keys : list OffloadKey) : M CPUOffloadingManager (list Z) :=
  blocks ← load_loop keys [];
  mret (bs_block_id <$> blocks).

Definition touch (keys : list OffloadKey) : M CPUOffloadingManager unit :=
  modify (λ m, set_policy (policy_touch keys (_policy m)) m).
Definition demote (keys : list OffloadKey) : M CPUOffloadingManager unit :=
  modify (λ m, set_policy (policy_demote keys (_policy m)) m).

Definition complete_load (keys : list OffloadKey) : M CPUOffloadingManager unit :=
  foreach keys (λ key,
    block ← policy_lookup key;
    block ← of_option AssertionError block;
    py_assert (0 <? bs_ref_cnt block) ;;
    policy_write key (set_ref_cnt (bs_ref_cnt block - 1) block)).

(** The keys often enough looked up. *)
Definition popular (m : CPUOffloadingManager) (keys : list OffloadKey) : list OffloadKey :=
  match counts m with
  | None => keys
  | Some counts => filter (λ k, store_threshold m ≤ default 0 (od_get k counts)) keys
  end.

Definition add_event (keys : list OffloadKey) (removed : bool) : M CPUOffloadingManager unit :=
  modify (λ m,
    match keys, events m with
    | _ :: _, Some l => set_events (Some (l ++ [mkEvent keys "CPU" removed])) m
    | _, _ => m
    end).

(** Make room: [None] when the policy cannot evict enough. *)
Definition make_room (n : Z) (keys : list OffloadKey) : M CPUOffloadingManager (option (list OffloadKey)) :=
  if 0 <? n then
    evicted ← on_policy (policy_evict n (list_to_set keys));
    match evicted with
    | None => mret None
    | Some evicted =>
        foreach evicted (λ e, _free_block e.2) ;;
        mret (Some evicted.*1)
    end
  else mret (Some []).

Definition prepare_store (keys : list OffloadKey) : M CPUOffloadingManager (option PrepareStoreOutput) :=
  m ← get;
  let keys := popular m keys in
  let to_store := filter (λ k, policy_get k (_policy m) = None) keys in
  if is_nil to_store then mret (Some (mkStoreOutput [] [] []))
  else
    let num_blocks_to_evict := zlen to_store - _get_num_free_blocks m in
    to_evict ← make_room num_blocks_to_evict keys;
    match to_evict with
    | None => mret None
    | Some to_evict =>
        add_event to_evict true ;;
        blocks ← _allocate_blocks to_store;
        py_assert (zlen blocks =? zlen to_store) ;;
        modify (λ m, set_policy
          (foldl (λ p e, policy_insert e.1 e.2 p) (_policy m) (zip to_store blocks)) m) ;;
        mret (Some (mkStoreOutput to_store (bs_block_id <$> blocks) to_evict))
    end.

(** One key of [complete_store]. *)
Definition complete_key (success : bool) (stored_keys : list OffloadKey) (key : OffloadKey)
    : M CPUOffloadingManager (list OffloadKey) :=
  block ← policy_lookup key;
  match block with
  | Some block =>
      if is_ready block then mret stored_keys
      else if success then
        policy_write key (set_ref_cnt 0 block) ;;
        mret (stored_keys ++ [key])
      else
        on_policy (policy_remove key) ;;
        _free_block block ;;
        mret stored_keys
  | None => mret stored_keys
  end.

Definition complete_store (keys : list OffloadKey) (success : bool) : M CPUOffloadingManager unit :=
  stored_keys ← foldM (complete_key success) keys [];
  add_event stored_keys false.

Definition reset_cache : M CPUOffloadingManager unit :=
  modify (λ m, set_pool_ids 0 [] (set_policy (policy_clear (_policy m)) m)).

Definition take_events : M CPUOffloadingManager (list OffloadingEvent) :=
  m ← get;
  match events m with
  | None => mret []
  | Some l => put (set_events (Some []) m) ;; mret l
  end.
End manager.
Arguments CPUOffloadingManager P : clear implicits.

(** ** The policy by name *)

Inductive any_policy : Type :=
  | AnyLru (p : Lru.LRUCachePolicy)
  | AnyArc (p : Arc.ARCCachePolicy).

(** The operation of whichever policy is inside. *)
Definition on_any {A} (lru : M Lru.LRUCachePolicy A) (arc : M Arc.ARCCachePolicy A) : M any_policy A := λ p,
  match p with
  | AnyLru p => let '(o, p) := lru p in (o, AnyLru p)
  | AnyArc p => let '(o, p) := arc p in (o, AnyArc p)
  end.

Definition map_any (lru : Lru.LRUCachePolicy → Lru.LRUCachePolicy) (arc : Arc.ARCCachePolicy → Arc.ARCCachePolicy)
    (p : any_policy) : any_policy :=
  match p with AnyLru p => AnyLru (lru p) | AnyArc p => AnyArc (arc p) end.

#[export] Instance any_cache_policy : CachePolicy any_policy := {|
  policy_get k p := match p with AnyLru p => policy_get k p | AnyArc p => policy_get k p end;
  policy_insert k b := map_any (policy_insert k b) (policy_insert k b);
  policy_remove k := on_any (policy_remove k) (policy_remove k);
  policy_touch ks := map_any (policy_touch ks) (policy_touch ks);
  policy_demote ks := map_any (policy_demote ks) (policy_demote ks);
  policy_evict n protected := on_any (policy_evict n protected) (policy_evict n protected);
  policy_clear := map_any policy_clear policy_clear;
  policy_put k b := map_any (policy_put k b) (policy_put k b);
|}.

(** [CPUOffloadingManager.__init__] *)
Definition CPUOffloadingManager_init (num_blocks : Z) (cache_policy : string) (enable_events : bool)
    (store_threshold max_tracker_size : Z) : outcome (CPUOffloadingManager any_policy) :=
  if String.eqb cache_policy "lru" then
    Ret (cpu_manager num_blocks (AnyLru Lru.new) enable_events store_threshold max_tracker_size)
  else if String.eqb cache_policy "arc" then
    Ret (cpu_manager num_blocks (AnyArc (Arc.new num_blocks)) enable_events store_threshold max_tracker_size)
  else Raise ValueError.
