(* ===== verification/OffloadManagerSpec.v ===== *)
(** * The block accounting of the CPU offloading manager

    Proved against [CachePolicyLaws], so for every policy: each block id handed
    out so far is either in the free list or held by exactly one key, and
    [prepare_store] makes room, allocates and inserts as documented. *)

From Stdlib Require Import Strings.Byte.
From S2P Require Import Prelude.
From S2P Require Import OrderedDict.
From S2P Require Import FreeQueue.
From S2P Require Import BlockHash.
From S2P Require Import PyNumber.
From S2P Require Import Offload.
From S2P Require Import OffloadSpec.
From S2P Require Import OffloadManager.
Local Open Scope Z_scope.

(** ** The ids in a map *)

Definition stored_ids (m : statusmap) : list Z := (λ e, bs_block_id e.2) <$> map_to_list m.

Lemma stored_ids_empty : stored_ids ∅ = [].
Proof. unfold stored_ids. by rewrite map_to_list_empty. Qed.

Lemma stored_ids_insert m k b : m !! k = None → stored_ids (<[k := b]> m) ≡ₚ bs_block_id b :: stored_ids m.
Proof. intros H. unfold stored_ids. by rewrite map_to_list_insert. Qed.

Lemma stored_ids_delete m k b : m !! k = Some b → stored_ids m ≡ₚ bs_block_id b :: stored_ids (delete k m).
Proof. intros H. unfold stored_ids. by rewrite <-(map_to_list_delete m k b H). Qed.

Lemma stored_ids_update m k b b' :
  m !! k = Some b → bs_block_id b' = bs_block_id b → stored_ids (<[k := b']> m) ≡ₚ stored_ids m.
Proof.
  intros H E. rewrite (stored_ids_delete m k b H). rewrite <-insert_delete_eq.
  rewrite stored_ids_insert by apply lookup_delete_eq. by rewrite E.
Qed.

Lemma stored_ids_evicted n protected m m' l :
  evicted n protected m m' l → stored_ids m ≡ₚ ((λ e, bs_block_id e.2) <$> l) ++ stored_ids m'.
Proof.
  intros (_ & Hnd & Hl & Hm'). unfold stored_ids. rewrite <-fmap_app. apply fmap_Permutation.
  apply NoDup_Permutation.
  - apply NoDup_map_to_list.
  - apply NoDup_app. split; [by eapply NoDup_fmap_1|]. split; [|apply NoDup_map_to_list].
    intros [k b] Hin Hin'. apply elem_of_map_to_list in Hin'. rewrite Hm', decide_True in Hin'; [done|].
    apply list_elem_of_fmap. by exists (k, b).
  - intros [k b]. rewrite elem_of_app, !elem_of_map_to_list, Hm'. split.
    + intros Hk. destruct (decide (k ∈ l.*1)) as [Hin|Hin]; [|by right]. left.
      apply list_elem_of_fmap in Hin as ([k' b'] & -> & Hin). simpl in *. destruct (Hl _ _ Hin) as [E _].
      congruence.
    + intros [Hin|Hk]; [by apply Hl|]. by case_decide.
Qed.

Lemma in_stored_ids m k b : m !! k = Some b → bs_block_id b ∈ stored_ids m.
Proof.
  intros H. apply list_elem_of_fmap. exists (k, b). split; [done|]. by apply elem_of_map_to_list.
Qed.

Lemma stored_ids_elem m i : i ∈ stored_ids m → ∃ k b, m !! k = Some b ∧ bs_block_id b = i.
Proof.
  intros ([k b] & -> & H%elem_of_map_to_list)%list_elem_of_fmap. by exists k, b.
Qed.

Section manager.
Context {P : Type} `{!CachePolicy P} `{!CachePolicyLaws P}.
Implicit Types (m : CPUOffloadingManager P).

Abbreviation view m := (policy_view (_policy m)).

(** Every id below the high-water mark is free or held by one key. *)
Record om_inv m : Prop := {
  oi_policy : policy_ok (_policy m);
  oi_ids : stored_ids (view m) ++ _free_list m ≡ₚ seqZ 0 (_num_allocated_blocks m);
  oi_bound : 0 ≤ _num_allocated_blocks m ≤ _num_blocks m;
}.

Lemma om_same_ids m m' :
  policy_ok (_policy m') → stored_ids (view m') ≡ₚ stored_ids (view m) → _free_list m' = _free_list m →
  _num_allocated_blocks m' = _num_allocated_blocks m → _num_blocks m' = _num_blocks m → om_inv m → om_inv m'.
Proof. intros Hp Hs Hf Ha Hn [_ Hi Hb]. split; [done|by rewrite Hs, Hf, Ha|by rewrite Ha, Hn]. Qed.

Lemma om_write m k b b' :
  om_inv m → view m !! k = Some b → bs_block_id b' = bs_block_id b →
  let m' := set_policy (policy_put k b' (_policy m)) m in
  om_inv m' ∧ view m' = <[k := b']> (view m).
Proof.
  intros Hi Hk Hid. destruct (law_put k b' (_policy m)) as [Hok Hv]; [apply Hi|by exists b|]. simpl.
  split; [|done]. apply (om_same_ids m); try done. simpl. rewrite Hv. by eapply stored_ids_update.
Qed.

(** ** Allocation *)

Lemma fresh_blocks_spec n : ∀ m bs,
  wp (fresh_blocks n bs) m (λ r m',
    r = bs ++ (new_status <$> seqZ (_num_allocated_blocks m) (Z.of_nat n)) ∧
    m' = set_pool_ids (_num_allocated_blocks m + Z.of_nat n) (_free_list m) m).
Proof.
  induction n as [|n IH]; intros m bs; cbn [fresh_blocks].
  { wp_step. split; [by rewrite app_nil_r|]. rewrite Z.add_0_r. by destruct m. }
  wp_step. wp_step. wp_step. wp_step. eapply wp_mono; [apply IH|]. intros r m' [-> ->]. simpl.
  rewrite <-(assoc_L (++)). split.
  - rewrite Nat2Z.inj_succ, (seqZ_cons (_num_allocated_blocks m)) by lia. by rewrite Z.pred_succ.
  - unfold set_pool_ids. simpl. f_equal. lia.
Qed.

Lemma reuse_blocks_spec n : ∀ m bs,
  (n ≤ length (_free_list m))%nat →
  wp (reuse_blocks n bs) m (λ r m', ∃ rest taken, _free_list m = rest ++ taken ∧ length taken = n ∧
    r = bs ++ (new_status <$> rev taken) ∧ m' = set_pool_ids (_num_allocated_blocks m) rest m).
Proof.
  induction n as [|n IH]; intros m bs Hn; cbn [reuse_blocks].
  { wp_step. exists (_free_list m), []. rewrite !app_nil_r. split; [done|]. split; [done|]. split; [done|].
    by destruct m. }
  destruct (_free_list m) as [|x l _] eqn:E using rev_ind; [simpl in Hn; lia|].
  wp_step. wp_step. wp_step. eapply wp_of_option; [by rewrite E, last_snoc|].
  wp_step. wp_step. rewrite E, removelast_last. eapply wp_mono.
  { apply IH. simpl. rewrite length_app in Hn. simpl in Hn. lia. }
  intros r m' (rest & taken & El & Hlen & -> & ->). simpl in El. exists rest, (taken ++ [x]).
  rewrite El, <-(assoc_L (++)). split; [done|]. rewrite length_app. split; [simpl; lia|].
  rewrite rev_app_distr. simpl. rewrite <-(assoc_L (++)). by split.
Qed.

(** The blocks given out are new, distinct and within the buffer. *)
Lemma allocate_spec m (ids : list Z) keys :
  ids ++ _free_list m ≡ₚ seqZ 0 (_num_allocated_blocks m) → 0 ≤ _num_allocated_blocks m ≤ _num_blocks m →
  zlen keys ≤ _get_num_free_blocks m →
  wp (_allocate_blocks keys) m (λ r m', ∃ got alloc free,
    r = new_status <$> got ∧ zlen got = zlen keys ∧ m' = set_pool_ids alloc free m ∧
    got ++ ids ++ free ≡ₚ seqZ 0 alloc ∧ 0 ≤ alloc ≤ _num_blocks m).
Proof.
  intros Hids Hb Hlen. unfold _get_num_free_blocks in Hlen. unfold _allocate_blocks. wp_step. wp_step. cbv zeta.
  set (nf := Z.min (zlen keys) (_num_blocks m - _num_allocated_blocks m)).
  pose proof (zlen_nonneg keys). pose proof (zlen_nonneg (_free_list m)). assert (Hnf : 0 ≤ nf) by lia.
  wp_step. apply wp_assert; [apply Z.leb_le; lia|]. wp_step. eapply wp_mono; [apply fresh_blocks_spec|].
  intros r m1 [-> ->]. rewrite Z2Nat.id by done. eapply wp_mono.
  { apply reuse_blocks_spec. simpl. unfold zlen in *. lia. }
  intros r m' (rest & taken & El & Htl & -> & ->). simpl in *.
  exists (seqZ (_num_allocated_blocks m) nf ++ rev taken), (_num_allocated_blocks m + nf), rest.
  split; [by rewrite fmap_app|]. split.
  { unfold zlen in *. rewrite length_app, length_seqZ, length_rev, Htl. lia. }
  split; [done|]. split; [|lia].
  rewrite El in Hids. rewrite (seqZ_app 0 (_num_allocated_blocks m) nf) by lia. rewrite <-Hids, Z.add_0_l.
  rewrite <-(Permutation_rev taken). etrans; [|apply Permutation_app_comm].
  rewrite <-(assoc_L (++)). apply Permutation_app_head. rewrite (assoc_L (++) ids rest taken).
  apply Permutation_app_comm.
Qed.

(** ** Making room *)

Lemma free_all_spec (l : statuses) : ∀ m,
  wp (foreach l (λ e, _free_block e.2)) m (λ _ m',
    m' = set_pool_ids (_num_allocated_blocks m) (_free_list m ++ ((λ e, bs_block_id e.2) <$> l)) m).
Proof.
  induction l as [|e l IH]; intros m; cbn [foreach].
  { wp_step. rewrite app_nil_r. by destruct m. }
  wp_step. unfold _free_block at 1. wp_step. eapply wp_mono; [apply IH|]. intros [] m' ->. simpl.
  by rewrite <-(assoc_L (++)).
Qed.

Lemma make_room_spec n keys m :
  om_inv m →
  wpe (make_room n keys) m
    (λ r m', match r with
             | None => m' = m
             | Some ks => ∃ l p', ks = l.*1 ∧ policy_ok p' ∧
                 evicted (Z.max 0 n) (list_to_set keys) (view m) (policy_view p') l ∧
                 m' = set_pool_ids (_num_allocated_blocks m)
                        (_free_list m ++ ((λ e, bs_block_id e.2) <$> l)) (set_policy p' m)
             end)
    (λ _ m', m' = m ∧ policy_faulty (_policy m)).
Proof.
  intros [Hp _ _]. unfold make_room. destruct (Z.ltb_spec 0 n) as [Hn|Hn].
  - wpe_step. unfold on_policy. apply wpe_zoom. eapply wpe_mono; [by apply law_evict|..].
    + intros [l|] p' Hr; [|subst p'; wpe_step; by destruct m]. destruct Hr as [Hp' He].
      apply wp_wpe. wp_step. eapply wp_mono; [apply free_all_spec|]. intros [] m' ->. wp_step.
      exists l, p'. rewrite Z.max_r by lia. done.
    + intros e p' [-> Hf]. split; [by destruct m|done].
  - apply wp_wpe. wp_step. exists [], (_policy m). split; [done|]. split; [done|]. split.
    + rewrite Z.max_l by lia. split; [done|]. split; [constructor|]. split; [by intros k b ?%not_elem_of_nil|].
      intros k. by rewrite decide_False by apply not_elem_of_nil.
    + rewrite app_nil_r. by destruct m.
Qed.

(** ** Inserting *)

Lemma insert_all_spec ks : ∀ (bs : list BlockStatus) p,
  policy_ok p → NoDup ks → (∀ k, k ∈ ks → policy_view p !! k = None) → length bs = length ks →
  let p' := foldl (λ p e, policy_insert e.1 e.2 p) p (zip ks bs) in
  policy_ok p' ∧ stored_ids (policy_view p') ≡ₚ (bs_block_id <$> bs) ++ stored_ids (policy_view p) ∧
  (∀ i k b, ks !! i = Some k → bs !! i = Some b → policy_view p' !! k = Some b) ∧
  ∀ k, k ∉ ks → policy_view p' !! k = policy_view p !! k.
Proof.
  induction ks as [|k ks IH]; intros bs p Hp Hnd Hnone Hlen; destruct bs as [|b bs]; try done.
  apply NoDup_cons in Hnd as [Hk Hnd]. destruct (law_insert k b p Hp (Hnone k ltac:(by left))) as [Hp1 Hv1].
  injection Hlen as Hlen. cbn [zip zip_with foldl fst snd]. cbv zeta.
  destruct (IH bs (policy_insert k b p) Hp1 Hnd) as (Hp2 & Hs & Hin & Hout); [|done|].
  { intros k' Hk'. rewrite Hv1, lookup_insert_ne; [apply Hnone; by right|]. by intros ->. }
  split; [done|]. split; [|split].
  - rewrite Hs, Hv1, stored_ids_insert by (apply Hnone; by left). simpl. by rewrite Permutation_middle.
  - intros [|i] k' b' Ek Eb; simpl in *; [|by eapply Hin]. simplify_eq.
    rewrite Hout, Hv1 by done. by rewrite lookup_insert_eq.
  - intros k' [Hne Hk']%not_elem_of_cons. rewrite Hout, Hv1 by done. by rewrite lookup_insert_ne.
Qed.

(** ** [prepare_store] *)

(** The keys that are missing. *)
Definition missing_keys m (keys : list OffloadKey) : list OffloadKey :=
  filter (λ k, view m !! k = None) (popular m keys).

(** The events after [keys] were added or removed. *)
Definition noted (keys : list OffloadKey) (removed : bool) (o : option (list OffloadingEvent)) :
    option (list OffloadingEvent) :=
  match keys, o with _ :: _, Some l => Some (l ++ [mkEvent keys "CPU" removed]) | _, _ => o end.

(** What a successful [prepare_store] answers and does. *)
Record stored m m' (keys : list OffloadKey) (out : PrepareStoreOutput) : Prop := {
  st_inv : om_inv m';
  st_keys : keys_to_store out = missing_keys m keys;
  st_spec : length (store_spec out) = length (keys_to_store out);
  st_new : ∀ i k id, keys_to_store out !! i = Some k → store_spec out !! i = Some id →
    view m' !! k = Some (new_status id);
  st_evicted : (keys_to_store out = [] → evicted_keys out = []) ∧
    (keys_to_store out ≠ [] →
      zlen (evicted_keys out) = Z.max 0 (zlen (keys_to_store out) - _get_num_free_blocks m));
  st_victims : NoDup (evicted_keys out) ∧ ∀ k, k ∈ evicted_keys out →
    ∃ b, view m !! k = Some b ∧ bs_ref_cnt b = 0 ∧ (k ∉ popular m keys) ∧ view m' !! k = None;
  st_kept : ∀ k, k ∉ keys_to_store out → k ∉ evicted_keys out → view m' !! k = view m !! k;
  st_events : events m' = noted (evicted_keys out) true (events m);
  st_counts : counts m' = counts m;
}.

Lemma popular_nodup m keys : NoDup keys → NoDup (popular m keys).
Proof. intros H. unfold popular. destruct (counts m); [by apply NoDup_filter|done]. Qed.

Lemma popular_sub m keys k : k ∈ popular m keys → k ∈ keys.
Proof.
  unfold popular. destruct (counts m); [|done]. intros H. by apply list_elem_of_filter in H as [_ H].
Qed.

Lemma prepare_store_spec m keys :
  om_inv m → NoDup keys →
  wpe (prepare_store keys) m
    (λ r m', match r with
             | None => m' = m ∧ missing_keys m keys ≠ []
             | Some out => stored m m' keys out
             end)
    (λ _ m', m' = m ∧ policy_faulty (_policy m)).
Proof.
  intros Hi Hnd. unfold prepare_store. wpe_step. wpe_step. cbv zeta.
  assert (Ems : filter (λ k, policy_get k (_policy m) = None) (popular m keys) = missing_keys m keys).
  { unfold missing_keys. apply list_filter_iff. intros k. by rewrite law_get by apply Hi. }
  rewrite Ems. set (ms := missing_keys m keys) in *.
  assert (Hms : NoDup ms ∧ ∀ k, k ∈ ms → view m !! k = None ∧ k ∈ popular m keys).
  { split; [by apply NoDup_filter, popular_nodup|]. intros k Hk. by apply list_elem_of_filter in Hk. }
  destruct Hms as [Hnd' Hms]. destruct (is_nil ms) eqn:Enil.
  { assert (ms = []) as E0 by by destruct ms. wpe_step. split; simpl; try done.
    split; [constructor|]. by intros k ?%not_elem_of_nil. }
  assert (Hne : ms ≠ []) by by destruct ms.
  wpe_step. eapply wpe_mono; [by apply make_room_spec| |by intros].
  intros [evk|] m1; [|intros ->; by wpe_step]. intros (l & p' & -> & Hp' & Hev & ->).
  pose proof (stored_ids_evicted _ _ _ _ _ Hev) as Hids. destruct Hi as [Hp Hall Hb].
  set (n := zlen ms - _get_num_free_blocks m) in *. apply wp_wpe.
  wp_step. unfold add_event. wp_step.
  set (m2 := match l.*1, _ with _ :: _, Some _ => _ | _, _ => _ end).
  assert (Hm2 : m2 = set_events (noted l.*1 true (events m)) (set_pool_ids (_num_allocated_blocks m)
    (_free_list m ++ ((λ e, bs_block_id e.2) <$> l)) (set_policy p' m))).
  { unfold m2, noted, set_events, set_pool_ids, set_policy. simpl. destruct l.*1; [done|]. by destruct (events m). }
  clearbody m2. subst m2. wp_step. eapply wp_mono.
  { apply (allocate_spec _ (stored_ids (policy_view p'))); simpl; [|done|].
    - rewrite <-Hall, Hids, <-!(assoc_L (++)). rewrite (Permutation_app_comm (_ <$> l)), <-!(assoc_L (++)). done.
    - unfold _get_num_free_blocks. simpl. rewrite zlen_app. unfold zlen at 3. rewrite length_fmap. fold (zlen l).
      destruct Hev as [-> _]. unfold n, _get_num_free_blocks. lia. }
  intros blocks m3 (got & alloc & free & -> & Hgot & -> & Hperm & Hbd). wp_step.
  apply wp_assert; [apply Z.eqb_eq; unfold zlen in *; by rewrite length_fmap|]. wp_step. wp_step. wp_step.
  simpl in *.
  assert (Hev_none : ∀ k, k ∈ ms → policy_view p' !! k = None).
  { intros k Hk. destruct Hev as (_ & _ & _ & Hl). rewrite Hl. case_decide; [done|]. by apply Hms. }
  destruct (insert_all_spec ms (new_status <$> got) p' Hp' Hnd' Hev_none) as (Hp2 & Hs2 & Hin2 & Hout2).
  { unfold zlen in Hgot. rewrite length_fmap. lia. }
  rewrite <-list_fmap_compose in Hs2. change (bs_block_id ∘ new_status) with (λ x : Z, x) in Hs2.
  rewrite list_fmap_id in Hs2.
  assert (Eout : bs_block_id <$> (new_status <$> got) = got).
  { rewrite <-list_fmap_compose. apply list_fmap_id. }
  split; simpl; rewrite ?Eout.
  - split; simpl; [done| |done]. rewrite Hs2, <-(assoc_L (++)). exact Hperm.
  - done.
  - unfold zlen in Hgot. lia.
  - intros i k id Ek Eid. apply (Hin2 i); [done|]. by rewrite list_lookup_fmap, Eid.
  - split; [done|]. intros _. destruct Hev as [Hl _]. unfold zlen in *. rewrite length_fmap. lia.
  - destruct Hev as (_ & Hndl & Hl & Hm'). split; [done|]. intros k Hk.
    apply list_elem_of_fmap in Hk as ([k' b] & -> & Hkb). destruct (Hl k' b Hkb) as [Hv [H0 Hprot]].
    simpl in *. exists b. split; [done|]. split; [done|].
    rewrite elem_of_list_to_set in Hprot. split; [done|]. rewrite Hout2.
    + rewrite Hm', decide_True; [done|]. by apply (list_elem_of_fmap_2 fst _ _ Hkb).
    + intros Hk'. apply Hms in Hk' as [? _]. congruence.
  - intros k Hk Hke. rewrite Hout2 by done. destruct Hev as (_ & _ & _ & ->). by rewrite decide_False.
  - done.
  - done.
Qed.
End manager.
