(* ===== verification/OffloadTheorems.v ===== *)
(** * Transfers of the CPU offloading manager are safe

    The worker copies blocks in and out of the CPU buffer while the scheduler goes
    on: a load runs from [prepare_load] to [complete_load], a store from
    [prepare_store] to [complete_store].  The protocol below keeps, beside the
    manager, the transfers in flight with the block ids the manager answered. *)

From Stdlib Require Import Strings.Byte SpecFloat.
From S2P Require Import Prelude.
From S2P Require Import OrderedDict.
From S2P Require Import FreeQueue.
From S2P Require Import BlockHash.
From S2P Require Import PyNumber.
From S2P Require Import Offload.
From S2P Require Import OffloadSpec.
From S2P Require Import OffloadArc.
From S2P Require Import OffloadManager.
From S2P Require Import OffloadManagerSpec.
Local Open Scope Z_scope.

Abbreviation transfers := (list (OffloadKey * Z)).

(** How many of the transfers concern [k]. *)
Definition occ (k : OffloadKey) (l : transfers) : Z := zlen (filter (λ e, e.1 = k) l).

Lemma occ_nonneg k l : 0 ≤ occ k l.
Proof. apply zlen_nonneg. Qed.

Lemma occ_cons k e l : occ k (e :: l) = (if decide (e.1 = k) then 1 else 0) + occ k l.
Proof. unfold occ. rewrite filter_cons. case_decide; rewrite ?zlen_cons; lia. Qed.

Lemma occ_perm k l l' : l ≡ₚ l' → occ k l = occ k l'.
Proof. intros H. unfold occ. by rewrite H. Qed.

Lemma occ_pos k id l : (k, id) ∈ l → 0 < occ k l.
Proof.
  intros H. unfold occ. assert (Hin : (k, id) ∈ filter (λ e : OffloadKey * Z, e.1 = k) l) by by apply list_elem_of_filter.
  destruct (filter _ l); [by apply not_elem_of_nil in Hin|]. rewrite zlen_cons. pose proof (zlen_nonneg l0). lia.
Qed.

Lemma occ_le k l : occ k l ≤ zlen l.
Proof. unfold occ, zlen. pose proof (length_filter (λ e : OffloadKey * Z, e.1 = k) l). lia. Qed.

Lemma wrap_int32_id z : - 2 ^ 31 ≤ z < 2 ^ 31 → wrap_int32 z = z.
Proof. intros H. unfold wrap_int32. rewrite Z.mod_small; lia. Qed.

Section protocol.
Context {P : Type} `{!CachePolicy P} `{!CachePolicyLaws P}.
Implicit Types (m : CPUOffloadingManager P).

Abbreviation view m := (policy_view (_policy m)).

(** The blocks and the transfers in flight agree. *)
Record tinv m (loads stores : transfers) : Prop := {
  ti_inv : om_inv m;
  ti_ref : ∀ k b, view m !! k = Some b →
    bs_ref_cnt b = occ k loads ∨ bs_ref_cnt b = -1 ∧ occ k loads = 0 ∧ (k, bs_block_id b) ∈ stores;
  ti_loads : ∀ k id, (k, id) ∈ loads → ∃ b, view m !! k = Some b ∧ bs_block_id b = id;
  ti_stores : NoDup stores.*1 ∧ ∀ k id, (k, id) ∈ stores → view m !! k = Some (mkStatus (-1) id);
}.

Lemma tinv_perm m loads loads' stores stores' :
  loads ≡ₚ loads' → stores ≡ₚ stores' → tinv m loads stores → tinv m loads' stores'.
Proof.
  intros Hl Hs [Hi Hr Hld [Hnd Hst]]. split; [done| | |split].
  - intros k b Hk. rewrite <-(occ_perm k _ _ Hl), <-Hs. by apply Hr.
  - intros k id. rewrite <-Hl. apply Hld.
  - by rewrite <-Hs.
  - intros k id. rewrite <-Hs. apply Hst.
Qed.

Lemma tinv_view m m' loads stores :
  tinv m loads stores → om_inv m' → view m' = view m → tinv m' loads stores.
Proof. intros [_ Hr Hl Hs] Hi Hv. split; rewrite ?Hv; done. Qed.

(** A block that is read is ready. *)
Lemma tinv_ready m loads stores k b :
  tinv m loads stores → view m !! k = Some b → is_ready b = true → bs_ref_cnt b = occ k loads.
Proof. intros [_ Hr _ _] Hk Hb. destruct (Hr k b Hk) as [?|(E & _)]; [done|]. unfold is_ready in Hb. by rewrite E in Hb. Qed.

(** Writing the reference count of a ready block. *)
Lemma tinv_write m loads stores k b v loads' :
  tinv m loads stores → view m !! k = Some b → is_ready b = true → 0 ≤ v < 2 ^ 31 → v = occ k loads' →
  (∀ k', k' ≠ k → occ k' loads' = occ k' loads) →
  (∀ k' id, (k', id) ∈ loads' → (k', id) ∈ loads ∨ k' = k ∧ id = bs_block_id b) →
  let m' := set_policy (policy_put k (set_ref_cnt v b) (_policy m)) m in
  tinv m' loads' stores ∧ view m' = <[k := mkStatus v (bs_block_id b)]> (view m).
Proof.
  intros Ht Hk Hready Hv Ev Hocc Hsub. destruct (om_write m k b (set_ref_cnt v b) (ti_inv _ _ _ Ht) Hk eq_refl) as [Hi' Hv'].
  unfold set_ref_cnt in Hv' at 2. rewrite wrap_int32_id in Hv' by lia. cbv zeta. split; [|done].
  destruct Ht as [Hi Hr Hl [Hnd Hs]]. split; [done| | |split; [done|]].
  - intros k' b' Hk'. rewrite Hv' in Hk'. destruct (decide (k = k')) as [<-|Hne].
    + rewrite lookup_insert_eq in Hk'. simplify_eq/=. by left.
    + rewrite lookup_insert_ne in Hk' by done. rewrite Hocc by done. by apply Hr.
  - intros k' id Hin. rewrite Hv'. destruct (decide (k = k')) as [<-|Hne].
    + rewrite lookup_insert_eq. eexists; split; [done|]. simpl. destruct (Hsub k id Hin) as [Hin'|[_ ->]]; [|done].
      destruct (Hl k id Hin') as (b0 & E & <-). by simplify_eq.
    + rewrite lookup_insert_ne by done. destruct (Hsub k' id Hin) as [Hin'|[-> _]]; [|done]. by apply Hl.
  - intros k' id Hin. rewrite Hv'. destruct (decide (k = k')) as [<-|Hne].
    + specialize (Hs k id Hin). rewrite Hk in Hs. by simplify_eq.
    + rewrite lookup_insert_ne by done. by apply Hs.
Qed.

(** ** Loads *)

Definition ready_key m (k : OffloadKey) : Prop :=
  ∃ b, policy_get k (_policy m) = Some b ∧ is_ready b = true.

Lemma load_loop_spec keys : ∀ m bs loads stores,
  tinv m loads stores → (∀ k, k ∈ keys → ready_key m k) → zlen loads + zlen keys < 2 ^ 31 →
  wp (load_loop keys bs) m (λ r m', ∃ new : transfers, new.*1 = keys ∧
    bs_block_id <$> r = (bs_block_id <$> bs) ++ new.*2 ∧ tinv m' (loads ++ new) stores).
Proof.
  induction keys as [|k keys IH]; intros m bs loads stores Ht Hready Hbound; cbn [load_loop].
  { wp_step. exists []. by rewrite !app_nil_r. }
  destruct (Hready k ltac:(by left)) as (b & Hb & Hbr). rewrite law_get in Hb by apply Ht. pose proof (tinv_ready _ _ _ _ _ Ht Hb Hbr) as Href.
  rewrite zlen_cons in Hbound. pose proof (zlen_nonneg keys). pose proof (occ_le k loads). pose proof (occ_nonneg k loads).
  wp_step. unfold policy_lookup at 1. wp_step. wp_step. wp_step. rewrite law_get, Hb by apply (ti_inv _ _ _ Ht).
  wp_step. eapply wp_of_option; [done|]. wp_step. apply wp_assert; [done|]. cbv zeta. wp_step. unfold policy_write at 1. wp_step.
  assert (Hsnoc : ∀ k', occ k' (loads ++ [(k, bs_block_id b)]) = (if decide (k = k') then 1 else 0) + occ k' loads).
  { intros k'. rewrite (occ_perm k' _ ((k, bs_block_id b) :: loads)) by apply Permutation_app_comm. apply occ_cons. }
  destruct (tinv_write m loads stores k b (bs_ref_cnt b + 1) (loads ++ [(k, bs_block_id b)]) Ht Hb Hbr) as [Ht' Hv'].
  - lia.
  - rewrite Hsnoc, decide_True by done. lia.
  - intros k' Hne. rewrite Hsnoc, decide_False by done. lia.
  - intros k' id [Hin|[= -> ->]%list_elem_of_singleton]%elem_of_app; auto.
  - eapply wp_mono.
    { apply (IH _ _ _ _ Ht').
      - intros k' Hk'. unfold ready_key. rewrite law_get, Hv' by apply Ht'. destruct (decide (k = k')) as [<-|Hne].
        + rewrite lookup_insert_eq. eexists; split; [done|]. apply Z.leb_le. simpl. lia.
        + rewrite lookup_insert_ne, <-law_get by (done || apply Ht). apply Hready. by right.
      - rewrite zlen_app, zlen_cons, zlen_nil. lia. }
    intros r m' (new & Ek & Er & Htn). exists ((k, bs_block_id b) :: new). csimpl. rewrite Ek, Er.
    split; [done|]. rewrite fmap_app, <-(assoc_L (++)). simpl. split; [done|]. by rewrite <-(assoc_L (++)) in Htn.
Qed.

Lemma complete_load_spec keys : ∀ m loads stores (gone : transfers),
  gone.*1 = keys → zlen (gone ++ loads) < 2 ^ 31 →
  tinv m (gone ++ loads) stores → wp (complete_load keys) m (λ _ m', tinv m' loads stores).
Proof.
  unfold complete_load.
  induction keys as [|k keys IH]; intros m loads stores gone Hg Hbound Ht; cbn [foreach].
  { wp_step. by destruct gone. }
  destruct gone as [|[k' id] gone]; [done|]. csimpl in Hg. injection Hg as -> Hg.
  destruct (ti_loads _ _ _ Ht k id) as (b & Hb & Hid); [by left|].
  assert (Hocc : occ k (((k, id) :: gone) ++ loads) = 1 + occ k (gone ++ loads)).
  { rewrite <-app_comm_cons, occ_cons, decide_True by done. done. }
  pose proof (occ_nonneg k (gone ++ loads)).
  assert (Href : bs_ref_cnt b = 1 + occ k (gone ++ loads)).
  { destruct (ti_ref _ _ _ Ht k b Hb) as [->|(_ & E & _)]; [done|]. rewrite Hocc in E. lia. }
  pose proof (occ_le k (((k, id) :: gone) ++ loads)).
  wp_step. unfold policy_lookup at 1. wp_step. wp_step. wp_step. wp_step. rewrite law_get, Hb by apply (ti_inv _ _ _ Ht).
  wp_step. eapply wp_of_option; [done|]. wp_step. apply wp_assert; [apply Z.ltb_lt; lia|]. unfold policy_write at 1. wp_step.
  assert (Hready : is_ready b = true) by (apply Z.leb_le; lia).
  destruct (tinv_write m _ stores k b (bs_ref_cnt b - 1) (gone ++ loads) Ht Hb Hready) as [Ht' _].
  - lia.
  - lia.
  - intros k' Hne. rewrite <-app_comm_cons, occ_cons, decide_False by (simpl; congruence). lia.
  - intros k' id' Hin. left. rewrite <-app_comm_cons. by right.
  - apply (IH _ _ _ gone); [done| |done]. rewrite <-app_comm_cons, zlen_cons in Hbound. lia.
Qed.

(** ** Stores *)

Lemma fst_zip_eq (ks : list OffloadKey) (ids : list Z) : length ids = length ks → (zip ks ids).*1 = ks.
Proof. intros H. apply fst_zip. lia. Qed.

Lemma stored_tinv m m' keys out loads stores :
  tinv m loads stores → NoDup keys → stored m m' keys out →
  tinv m' loads (stores ++ zip (keys_to_store out) (store_spec out)).
Proof.
  intros [Hi Hr Hl [Hnd Hs]] Hkeys [Hi' Ek Hlen Hnew _ [_ Hvict] Hkept _ _].
  assert (Hmiss : ∀ k, k ∈ keys_to_store out → view m !! k = None).
  { intros k. rewrite Ek. by intros [? _]%list_elem_of_filter. }
  assert (Hzip : ∀ k id, (k, id) ∈ zip (keys_to_store out) (store_spec out) → view m' !! k = Some (new_status id)).
  { intros k id (i & Hi2)%list_elem_of_lookup. apply lookup_zip_with_Some in Hi2 as (k' & id' & [= -> ->] & H1 & H2).
    by eapply Hnew. }
  assert (Hsame : ∀ k b, view m !! k = Some b → bs_ref_cnt b ≠ 0 → view m' !! k = Some b).
  { intros k b Hk Hne. rewrite Hkept; [done|by intros E%Hmiss; congruence|].
    intros (b' & E & H0 & _)%Hvict. congruence. }
  assert (Hload : ∀ k id, (k, id) ∈ loads → ∃ b, view m' !! k = Some b ∧ bs_block_id b = id).
  { intros k id Hin. destruct (Hl k id Hin) as (b & Hk & Hid). exists b. split; [|done]. apply Hsame; [done|].
    pose proof (occ_pos k id loads Hin). destruct (Hr k b Hk) as [?|(? & ? & _)]; lia. }
  split; [done| |done|split].
  - intros k b Hk. destruct (decide (k ∈ keys_to_store out)) as [Hin|Hin].
    + right. apply list_elem_of_lookup in Hin as Hin'. destruct Hin' as (i & Hki).
      assert (∃ id, store_spec out !! i = Some id) as (id & Hid).
      { apply lookup_lt_is_Some. rewrite Hlen. by eapply lookup_lt_Some. }
      rewrite (Hnew i k id Hki Hid) in Hk. injection Hk as <-. split; [done|]. split.
      * destruct (Z.eq_dec (occ k loads) 0) as [|Hne]; [done|]. exfalso. apply Hne. clear Hne.
        unfold occ. destruct (filter _ loads) as [|[k' id'] l] eqn:E; [done|].
        assert ((k', id') ∈ filter (λ e : OffloadKey * Z, e.1 = k) loads) as H by (rewrite E; by left).
        apply list_elem_of_filter in H as [<- H]. destruct (Hl _ _ H) as (b & Hb & _).
        rewrite (Hmiss k' Hin) in Hb. done.
      * apply elem_of_app. right. apply list_elem_of_lookup. exists i. apply lookup_zip_with_Some. by exists k, id.
    + destruct (decide (k ∈ evicted_keys out)) as [(b' & _ & _ & _ & E)%Hvict|Hev]; [congruence|].
      rewrite Hkept in Hk by done. destruct (Hr k b Hk) as [?|(? & ? & ?)]; [by left|right].
      rewrite elem_of_app. auto.
  - rewrite fmap_app, fst_zip_eq by done. apply NoDup_app. split; [done|]. split.
    + intros k ([k' id] & -> & Hin)%list_elem_of_fmap Hk. apply Hs in Hin. apply Hmiss in Hk. simpl in Hk. congruence.
    + rewrite Ek. by apply NoDup_filter, popular_nodup.
  - intros k id [Hin|Hin]%elem_of_app; [|by apply Hzip]. by apply Hsame; [apply Hs|].
Qed.

(** One in-flight store ends. *)
Lemma complete_key_spec success acc k id m loads stores :
  tinv m loads ((k, id) :: stores) → wp (complete_key success acc k) m (λ _ m', tinv m' loads stores).
Proof.
  intros [Hi Hr Hl [Hnd Hs]]. csimpl in Hnd. apply NoDup_cons in Hnd as [Hk Hnd].
  pose proof (Hs k id ltac:(by left)) as Hv. unfold complete_key.
  assert (H0 : occ k loads = 0).
  { destruct (Hr k _ Hv) as [H|(_ & ? & _)]; [|done]. simpl in H. pose proof (occ_nonneg k loads). lia. }
  assert (Hno : ∀ id', (k, id') ∉ loads) by (intros id' Hin; pose proof (occ_pos k id' loads Hin); lia).
  assert (Hne : ∀ k' id', (k', id') ∈ stores → k' ≠ k).
  { intros k' id' Hin ->. apply Hk. by apply (list_elem_of_fmap_2 fst _ _ Hin). }
  wp_step. unfold policy_lookup. wp_step. wp_step. wp_step. rewrite law_get, Hv by apply Hi. cbv iota.
  change (is_ready (mkStatus (-1) id)) with false. cbv iota. destruct success.
  - wp_step. unfold policy_write. wp_step. wp_step.
    destruct (om_write m k (mkStatus (-1) id) (mkStatus 0 id) Hi Hv eq_refl) as [Hi' Hv'].
    change (set_ref_cnt 0 (mkStatus (-1) id)) with (mkStatus 0 id). split; [done| | |split; [done|]].
    + intros k' b'. rewrite Hv'. destruct (decide (k = k')) as [<-|Hnk].
      * rewrite lookup_insert_eq. intros [= <-]. left. done.
      * rewrite lookup_insert_ne by done. intros H. destruct (Hr _ _ H) as [?|(? & ? & Hin)]; [by left|right].
        apply elem_of_cons in Hin as [[= ? ?]|?]; [congruence|done].
    + intros k' id' Hin. destruct (Hl _ _ Hin) as (b' & ? & ?). exists b'. rewrite Hv', lookup_insert_ne; [done|].
      intros <-. by apply (Hno id').
    + intros k' id' Hin. rewrite Hv', lookup_insert_ne by (symmetry; by eapply Hne). apply Hs. by right.
  - wp_step. unfold on_policy. apply wp_zoom. eapply wp_mono; [apply law_remove; [apply Hi|by eexists]|].
    intros [] p' [Hp' Hv']. wp_step. unfold _free_block. wp_step. wp_step. split; [|..|split]; simpl; rewrite ?Hv'; try done.
    + destruct Hi as [_ Hids Hb]. split; simpl; [done| |done]. rewrite <-Hids, Hv'.
      rewrite (stored_ids_delete (view m) k _ Hv). simpl. rewrite (assoc_L (++)), Permutation_app_comm. done.
    + intros k' b'. destruct (decide (k = k')) as [<-|Hnk]; [by rewrite lookup_delete_eq|].
      rewrite lookup_delete_ne by done. intros H. destruct (Hr _ _ H) as [?|(? & ? & Hin)]; [by left|right].
      apply elem_of_cons in Hin as [[= ? ?]|?]; [congruence|done].
    + intros k' id' Hin. destruct (Hl _ _ Hin) as (b' & ? & ?). exists b'. rewrite lookup_delete_ne; [done|].
      intros <-. by apply (Hno id').
    + intros k' id' Hin. rewrite lookup_delete_ne by (symmetry; by eapply Hne). apply Hs. by right.
Qed.

Lemma complete_store_spec success m loads stores (gone : transfers) :
  tinv m loads (gone ++ stores) → wp (complete_store gone.*1 success) m (λ _ m', tinv m' loads stores).
Proof.
  intros Ht. unfold complete_store. wp_step.
  assert (Hloop : ∀ (g : transfers) acc m, tinv m loads (g ++ stores) →
    wp (foldM (complete_key success) g.*1 acc) m (λ _ m', tinv m' loads stores)).
  { clear. intros g. induction g as [|[k id] g IH]; intros acc m Ht; csimpl; cbn [foldM].
    - by wp_step.
    - wp_step. eapply wp_mono; [by eapply complete_key_spec|]. intros acc' m' Ht'. by apply IH. }
  eapply wp_mono; [by apply Hloop|]. intros acc m' Ht'. unfold add_event. wp_step.
  apply (tinv_view m'); [done|..].
  - destruct acc, (events m'); destruct (ti_inv _ _ _ Ht'); by split.
  - by destruct acc, (events m').
Qed.

(** ** The protocol *)

Record protocol : Type := mkProtocol { mgr : CPUOffloadingManager P; loads : transfers; stores : transfers }.

Inductive action : Type :=
  | Lookup (key : OffloadKey)
  | Touch (keys : list OffloadKey)
  | Demote (keys : list OffloadKey)
  | PrepareLoad (keys : list OffloadKey)
  | CompleteLoad (gone rest : transfers)
  | PrepareStore (keys : list OffloadKey)
  | CompleteStore (gone rest : transfers) (success : bool)
  | TakeEvents
  | ResetCache.

Definition on_mgr {A} (m : M (CPUOffloadingManager P) A) : M protocol A :=
  zoom mgr (λ v s, mkProtocol v (loads s) (stores s)) m.
Definition set_loads (v : transfers) : M protocol unit := modify (λ s, mkProtocol (mgr s) v (stores s)).
Definition set_stores (v : transfers) : M protocol unit := modify (λ s, mkProtocol (mgr s) (loads s) v).

(** The calls the scheduler makes, and the transfers it has in flight after them. *)
Definition perform (a : action) : M protocol unit :=
  match a with
  | Lookup key => on_mgr (lookup key) ;; mret tt
  | Touch keys => on_mgr (touch keys)
  | Demote keys => on_mgr (demote keys)
  | PrepareLoad keys =>
      s ← get; ids ← on_mgr (prepare_load keys); set_loads (loads s ++ zip keys ids)
  | CompleteLoad gone rest => on_mgr (complete_load gone.*1) ;; set_loads rest
  | PrepareStore keys =>
      s ← get;
      out ← on_mgr (prepare_store keys);
      match out with
      | None => mret tt
      | Some out => set_stores (stores s ++ zip (keys_to_store out) (store_spec out))
      end
  | CompleteStore gone rest success => on_mgr (complete_store gone.*1 success) ;; set_stores rest
  | TakeEvents => on_mgr take_events ;; mret tt
  | ResetCache => on_mgr reset_cache ;; set_loads [] ;; set_stores []
  end.

(** When the scheduler makes a call: loads of keys that [lookup] found ready,
    completions of transfers in flight, stores of distinct keys. *)
Definition enabled (a : action) (s : protocol) : Prop :=
  match a with
  | Lookup _ => 0 < max_tracker_size (mgr s)
  | PrepareLoad keys => (∀ k, k ∈ keys → ready_key (mgr s) k) ∧ zlen (loads s) + zlen keys < 2 ^ 31
  | CompleteLoad gone rest => loads s ≡ₚ gone ++ rest
  | PrepareStore keys => NoDup keys
  | CompleteStore gone rest _ => stores s ≡ₚ gone ++ rest
  | _ => True
  end.

Inductive reachable (s0 : protocol) : protocol → Prop :=
  | reach_init : reachable s0 s0
  | reach_step s a s' : reachable s0 s → enabled a s → perform a s = (Ret tt, s') → reachable s0 s'.

Definition pinv (s : protocol) : Prop := tinv (mgr s) (loads s) (stores s) ∧ zlen (loads s) < 2 ^ 31.

Lemma count_lookup_spec key m :
  0 < max_tracker_size m →
  wp (count_lookup key) m (λ _ m', ∃ c, m' = set_counts c m).
Proof.
  intros Hsize. unfold count_lookup. wp_step. wp_step. destruct (counts m) as [c|] eqn:E.
  2:{ wp_step. exists None. destruct m; simpl in *. by subst. }
  destruct (od_get key c); [wp_step; by eexists|]. wp_step.
  destruct (Z.leb_spec (max_tracker_size m) (zlen c)) as [Hle|]; [|wp_step; wp_step; by eexists].
  destruct c; [rewrite zlen_nil in Hle; lia|]. wp_step. wp_step. by eexists.
Qed.

Lemma perform_spec a s :
  pinv s → enabled a s →
  wpe (perform a) s (λ _ s', pinv s')
    (λ _ s', s' = s ∧ (∃ keys, a = PrepareStore keys) ∧ policy_faulty (_policy (mgr s))).
Proof.
  destruct s as [m ld st]. intros [Ht Hb] Ha. simpl in Ht, Hb. pose proof (ti_inv _ _ _ Ht) as Hi.
  destruct a as [k|ks|ks|ks|gone rest|ks|gone rest success| |]; simpl in Ha; cbn [perform]; unfold on_mgr, set_loads, set_stores.
  6:{ wpe_step. wpe_step. wpe_step. apply wpe_zoom. eapply wpe_mono; [by apply prepare_store_spec|..].
      - intros [out|] m' Hr; simpl.
        + wpe_step. split; [|done]. by eapply stored_tinv.
        + destruct Hr as [-> _]. wpe_step. by split.
      - intros e m' [-> Hf]. split; [done|]. split; [by eexists|done]. }
  all: apply wp_wpe.
  - wp_step. apply wp_zoom. unfold lookup. wp_step. eapply wp_mono; [by apply count_lookup_spec|].
    intros [] m' (c & ->). wp_step. unfold policy_lookup. wp_step. wp_step. wp_step.
    destruct (policy_get _ _); wp_step; wp_step; split; try done; by apply (tinv_view m); [|destruct Hi; split|].
  - apply wp_zoom. unfold touch. wp_step. destruct (law_touch ks (_policy m)) as [Hp Hv]; [apply Hi|].
    split; [|done]. apply (tinv_view m); [done| |done]. apply (om_same_ids m); simpl; try done. by rewrite Hv.
  - apply wp_zoom. unfold demote. wp_step. destruct (law_demote ks (_policy m)) as [Hp Hv]; [apply Hi|].
    split; [|done]. apply (tinv_view m); [done| |done]. apply (om_same_ids m); simpl; try done. by rewrite Hv.
  - destruct Ha as [Hready Hlen]. wp_step. wp_step. wp_step. apply wp_zoom. unfold prepare_load. wp_step.
    eapply wp_mono; [by eapply load_loop_spec|]. intros r m' (new & Ek & Er & Htn). wp_step. wp_step.
    simpl in Er. rewrite Er, <-Ek, zip_fst_snd. split; [done|]. simpl. rewrite zlen_app.
    replace (zlen new) with (zlen ks); [done|]. rewrite <-Ek. unfold zlen. by rewrite length_fmap.
  - wp_step. apply wp_zoom. eapply wp_mono.
    { eapply (complete_load_spec _ _ rest st gone eq_refl).
      - by rewrite <-Ha.
      - by eapply tinv_perm. }
    intros [] m' Ht'. wp_step. split; [done|]. simpl. rewrite Ha, zlen_app in Hb. pose proof (zlen_nonneg gone). simpl. lia.
  - wp_step. apply wp_zoom. eapply wp_mono.
    { eapply (complete_store_spec success _ ld rest gone). by eapply tinv_perm. }
    intros [] m' Ht'. wp_step. by split.
  - wp_step. apply wp_zoom. unfold take_events. wp_step. wp_step. simpl. destruct (events m) as [l|].
    + wp_step. wp_step. wp_step. split; [|done]. apply (tinv_view m); [done| |done]. destruct Hi; by split.
    + wp_step. wp_step. by split.
  - wp_step. apply wp_zoom. unfold reset_cache. wp_step. wp_step. wp_step. wp_step.
    destruct (law_clear (_policy m)) as [Hp Hv]; [apply Hi|]. split; [|simpl; rewrite zlen_nil; lia].
    destruct Hi as [_ _ Hbd]. split; simpl; rewrite ?Hv.
    + split; simpl; [done| |lia]. by rewrite Hv, stored_ids_empty.
    + by intros k b ?%lookup_empty_Some.
    + by intros k id ?%not_elem_of_nil.
    + split; [constructor|]. by intros k id ?%not_elem_of_nil.
Qed.
End protocol.

(** ** The size of the buffer is constant *)

Section buffer.
Context {P : Type} `{!CachePolicy P}.
Abbreviation manager := (CPUOffloadingManager P).

Definition keeps {A} (n : Z) (m : M manager A) : Prop := ∀ s, _num_blocks s = n → _num_blocks (m s).2 = n.

Lemma keeps_bind {A B} n (m : M manager A) (f : A → M manager B) :
  keeps n m → (∀ a, keeps n (f a)) → keeps n (m ≫= f).
Proof.
  intros Hm Hf s Hs. specialize (Hm s Hs). unfold mbind, M_bind. destruct (m s) as [[a|e] s']; [by apply Hf|done].
Qed.
Lemma keeps_get {A} n (f : manager → M manager A) :
  (∀ s, _num_blocks s = n → keeps n (f s)) → keeps n (get ≫= f).
Proof. intros Hf s Hs. by apply Hf. Qed.
Lemma keeps_ret {A} n (a : A) : keeps n (mret a).
Proof. by intros s. Qed.
Lemma keeps_raise {A} n e : keeps n (raise e : M manager A).
Proof. by intros s. Qed.
Lemma keeps_put n (s' : manager) : _num_blocks s' = n → keeps n (put s').
Proof. by intros Hs s _. Qed.
Lemma keeps_modify n (f : manager → manager) :
  (∀ s, _num_blocks (f s) = _num_blocks s) → keeps n (modify f).
Proof. intros Hf s Hs. unfold modify. simpl. by rewrite Hf. Qed.
Lemma keeps_assert n b : keeps n (py_assert b).
Proof. by destruct b; intros s. Qed.
Lemma keeps_of_option {A} n e (o : option A) : keeps n (of_option e o).
Proof. by destruct o; intros s. Qed.
Lemma keeps_on_policy {A} n (m : M P A) : keeps n (on_policy m).
Proof. intros s Hs. unfold on_policy, zoom. by destruct (m (_policy s)). Qed.
Lemma keeps_foreach {A} n (l : list A) (body : A → M manager unit) :
  (∀ x, keeps n (body x)) → keeps n (foreach l body).
Proof. intros Hb. induction l; cbn [foreach]; [apply keeps_ret|by apply keeps_bind]. Qed.
Lemma keeps_foldM {A B} n (f : B → A → M manager B) l b : (∀ b x, keeps n (f b x)) → keeps n (foldM f l b).
Proof. intros Hf. revert b. induction l; intros b; cbn [foldM]; [apply keeps_ret|by apply keeps_bind]. Qed.

Ltac keep :=
  repeat first
    [ done
    | lazymatch goal with
      | |- keeps _ (mret _) => apply keeps_ret
      | |- keeps _ (py_assert _) => apply keeps_assert
      | |- keeps _ (of_option _ _) => apply keeps_of_option
      | |- keeps _ (raise _) => apply keeps_raise
      | |- keeps _ (on_policy _) => apply keeps_on_policy
      | |- keeps _ (put _) => apply keeps_put; done
      | |- keeps _ (modify _) => apply keeps_modify; intros ?; repeat case_match; done
      | |- keeps _ (foreach _ _) => apply keeps_foreach; intros ?
      | |- keeps _ (foldM _ _ _) => apply keeps_foldM; intros ? ?
      | |- keeps _ (get ≫= _) => apply keeps_get; intros ? ?
      | |- keeps _ (_ ≫= _) => apply keeps_bind; [|intros ?]
      end
    | progress (unfold policy_lookup, policy_write, count_lookup, add_event, _free_block, complete_key)
    | case_match ].

Lemma keeps_fresh n c : ∀ bs, keeps n (fresh_blocks c bs).
Proof. induction c; intros bs; cbn [fresh_blocks]; keep. Qed.
Lemma keeps_reuse n c : ∀ bs, keeps n (reuse_blocks c bs).
Proof. induction c; intros bs; cbn [reuse_blocks]; keep. Qed.
Lemma keeps_load_loop n keys : ∀ bs, keeps n (load_loop keys bs).
Proof. induction keys; intros bs; cbn [load_loop]; keep. Qed.

Lemma keeps_lookup n k : keeps n (lookup k).
Proof. unfold lookup. keep. Qed.
Lemma keeps_prepare_load n keys : keeps n (prepare_load keys).
Proof. unfold prepare_load. keep. apply keeps_load_loop. Qed.
Lemma keeps_complete_load n keys : keeps n (complete_load keys).
Proof. unfold complete_load. keep. Qed.
Lemma keeps_prepare_store n keys : keeps n (prepare_store keys).
Proof.
  unfold prepare_store, make_room, _allocate_blocks. keep; first [apply keeps_fresh|apply keeps_reuse].
Qed.
Lemma keeps_complete_store n keys success : keeps n (complete_store keys success).
Proof. unfold complete_store. keep. Qed.
Lemma keeps_take_events n : keeps n take_events.
Proof. unfold take_events. keep. Qed.

Lemma perform_num_blocks a (s : protocol (P := P)) : _num_blocks (mgr (perform a s).2) = _num_blocks (mgr s).
Proof.
  assert (Hon : ∀ {A} (m : M manager A) s, keeps (_num_blocks (mgr s)) m →
    _num_blocks (mgr (on_mgr m s).2) = _num_blocks (mgr s)).
  { intros A m t Hm. specialize (Hm (mgr t) eq_refl). unfold on_mgr, zoom. by destruct (m (mgr t)). }
  destruct a as [k|ks|ks|ks|gone rest|ks|gone rest success| |]; cbn [perform];
    unfold mbind, M_bind, get, touch, demote, reset_cache, set_loads, set_stores; try done.
  - specialize (Hon _ _ s (keeps_lookup _ k)). by destruct (on_mgr _ s) as [[]].
  - specialize (Hon _ _ s (keeps_prepare_load _ ks)). by destruct (on_mgr _ s) as [[]].
  - specialize (Hon _ _ s (keeps_complete_load _ gone.*1)). by destruct (on_mgr _ s) as [[]].
  - specialize (Hon _ _ s (keeps_prepare_store _ ks)). by destruct (on_mgr _ s) as [[[]|]].
  - specialize (Hon _ _ s (keeps_complete_store _ gone.*1 success)). by destruct (on_mgr _ s) as [[]].
  - specialize (Hon _ _ s (keeps_take_events _)). by destruct (on_mgr _ s) as [[]].
Qed.
End buffer.

(** ** The policy chosen by name *)

#[export, program] Instance any_laws : CachePolicyLaws any_policy := {|
  policy_ok p := match p with AnyLru p => policy_ok p | AnyArc p => policy_ok p end;
  policy_view p := match p with AnyLru p => policy_view p | AnyArc p => policy_view p end;
  policy_faulty p := match p with AnyLru _ => False | AnyArc p => policy_faulty p end;
|}.
Next Obligation. intros k [p|p] Hp; by apply (law_get k p). Qed.
Next Obligation. intros k b [p|p] Hp Hk; by apply (law_insert k b p). Qed.
Next Obligation. intros k b [p|p] Hp Hk; by apply (law_put k b p). Qed.
Next Obligation.
  intros k [p|p] Hp Hk; pose proof (law_remove k p Hp Hk) as H; unfold wp in *; simpl in *.
  - by destruct (Lru.remove k p) as [[]].
  - by destruct (Arc.remove k p) as [[]].
Qed.
Next Obligation. intros ks [p|p] Hp; by apply (law_touch ks p). Qed.
Next Obligation. intros ks [p|p] Hp; by apply (law_demote ks p). Qed.
Next Obligation.
  intros n protected [p|p] Hp Hn; pose proof (law_evict n protected p Hp Hn) as H; unfold wpe in *; simpl in *.
  - destruct (Lru.evict n protected p) as [[[l|]|e] p']; [done|by subst|]. by destruct H.
  - destruct (Arc.evict n protected p) as [[[l|]|e] p']; [done|by subst|]. destruct H as [-> H]. done.
Qed.
Next Obligation. intros [p|p] Hp; by apply (law_clear p). Qed.

Section offload.
Implicit Types (m : CPUOffloadingManager any_policy).

Lemma reachable_pinv (s0 s : protocol (P := any_policy)) : pinv s0 → reachable s0 s → pinv s.
Proof.
  intros H0. induction 1 as [|s a s' _ IH Ha E]; [done|]. pose proof (perform_spec a s IH Ha) as H.
  unfold wpe in H. by rewrite E in H.
Qed.

Lemma reachable_num_blocks (s0 s : protocol (P := any_policy)) :
  reachable s0 s → _num_blocks (mgr s) = _num_blocks (mgr s0).
Proof.
  induction 1 as [|s a s' _ IH _ E]; [done|]. pose proof (perform_num_blocks a s) as H. by rewrite E, IH in H.
Qed.

Lemma cpu_init_inv n policy ev thr size m :
  0 ≤ n → CPUOffloadingManager_init n policy ev thr size = Ret m →
  om_inv m ∧ policy_view (_policy m) = ∅ ∧ _num_blocks m = n.
Proof.
  intros Hn. unfold CPUOffloadingManager_init.
  destruct (String.eqb policy "lru"); [|destruct (String.eqb policy "arc"); [|done]]; intros [= <-];
    (split; [split; simpl; [|done|lia]|done]); [constructor|].
  split; [split; [constructor|constructor|by intros k ?%not_elem_of_nil]|]. split; simpl; rewrite zlen_nil; lia.
Qed.

(** A block id belongs to one key and is not free. *)
Lemma stored_apart m k b :
  om_inv m → policy_view (_policy m) !! k = Some b →
  0 ≤ bs_block_id b < _num_blocks m ∧ (bs_block_id b ∉ _free_list m) ∧
  ∀ k' b', policy_view (_policy m) !! k' = Some b' → bs_block_id b' = bs_block_id b → k' = k.
Proof.
  intros [_ Hids Hb] Hk. pose proof (in_stored_ids _ _ _ Hk) as Hin.
  assert (Hnd : NoDup (stored_ids (policy_view (_policy m)) ++ _free_list m)).
  { rewrite Hids. apply NoDup_seqZ. }
  apply NoDup_app in Hnd as (Hnd & Hfree & _). split; [|split].
  - assert (bs_block_id b ∈ seqZ 0 (_num_allocated_blocks m)) as Hs.
    { rewrite <-Hids. apply elem_of_app. by left. }
    apply elem_of_seqZ in Hs. lia.
  - by apply Hfree.
  - intros k' b' Hk' E. destruct (decide (k' = k)) as [|Hne]; [done|]. exfalso.
    rewrite (stored_ids_delete _ _ _ Hk) in Hnd. apply NoDup_cons in Hnd as [Hn _]. apply Hn. rewrite <-E.
    apply (in_stored_ids _ k'). by rewrite lookup_delete_ne.
Qed.

Lemma pinv_transfer (s : protocol (P := any_policy)) k id :
  pinv s → (k, id) ∈ loads s ++ stores s →
  ∃ b, policy_view (_policy (mgr s)) !! k = Some b ∧ bs_block_id b = id.
Proof.
  intros [Ht _] [Hin|Hin]%elem_of_app; [by apply (ti_loads _ _ _ Ht)|].
  apply (proj2 (ti_stores _ _ _ Ht)) in Hin. eauto.
Qed.

(** The facts of the transfers that the invariant gives. *)
Lemma pinv_held (s : protocol (P := any_policy)) :
  pinv s →
  (∀ k id, (k, id) ∈ loads s → policy_view (_policy (mgr s)) !! k = Some (mkStatus (occ k (loads s)) id)) ∧
  ∀ k id, (k, id) ∈ stores s → policy_view (_policy (mgr s)) !! k = Some (mkStatus (-1) id).
Proof.
  intros [Ht _]. split; [|apply (ti_stores _ _ _ Ht)].
  intros k id Hin. destruct (ti_loads _ _ _ Ht k id Hin) as (b & Hk & Hid). pose proof (occ_pos k id (loads s) Hin).
  destruct (ti_ref _ _ _ Ht k b Hk) as [Hr|(_ & Hr & _)]; [|lia]. rewrite Hk, <-Hr, <-Hid. by destruct b.
Qed.

Lemma pinv_inj (s : protocol (P := any_policy)) k k' id :
  pinv s → (k, id) ∈ loads s ++ stores s → (k', id) ∈ loads s ++ stores s → k = k'.
Proof.
  intros Hp H1 H2. destruct (pinv_transfer _ _ _ Hp H1) as (b & E & Hb1), (pinv_transfer _ _ _ Hp H2) as (b' & E' & Hb2).
  destruct Hp as [Ht _]. destruct (stored_apart _ k' b' (ti_inv _ _ _ Ht) E') as (_ & _ & H). apply (H k b E). congruence.
Qed.

Lemma pinv_init m0 : om_inv m0 → policy_view (_policy m0) = ∅ → pinv (mkProtocol m0 [] []).
Proof.
  intros Hi Hv. split; [|cbn [loads]; rewrite zlen_nil; lia]. split; cbn [mgr loads stores]; [done| | |split; [constructor|]].
  - intros k b. by rewrite Hv, lookup_empty.
  - by intros k id ?%not_elem_of_nil.
  - by intros k id ?%not_elem_of_nil.
Qed.

(** C36: Transfers of the CPU offloading manager are safe. From any manager the
    constructor builds, with either cache policy, and after any sequence of calls
    the scheduler makes: every block being loaded is still held by its key under
    the id that [prepare_load] answered, with a reference count that is the number
    of loads in flight; every block being stored is still held by its key, not
    ready; the ids of the transfers lie in the buffer, none is free for another
    allocation, and two transfers share an id only if they load the same key;
    no further call fails, except [prepare_store] when the target size of ARC is
    not a number. *)
Theorem offload_transfers_safe n policy ev thr size m0 (s : protocol (P := any_policy)) :
  0 ≤ n → CPUOffloadingManager_init n policy ev thr size = Ret m0 → reachable (mkProtocol m0 [] []) s →
  let m := mgr s in
  (∀ k id, (k, id) ∈ loads s → policy_get k (_policy m) = Some (mkStatus (occ k (loads s)) id)) ∧
  (∀ k id, (k, id) ∈ stores s → policy_get k (_policy m) = Some (mkStatus (-1) id)) ∧
  (∀ k id, (k, id) ∈ loads s ++ stores s → 0 ≤ id < n ∧ id ∉ _free_list m) ∧
  (∀ k k' id, (k, id) ∈ loads s ++ stores s → (k', id) ∈ loads s ++ stores s → k = k') ∧
  NoDup (stores s).*2 ∧
  (∀ k id, (k, id) ∈ stores s → (k, id) ∉ loads s) ∧
  (∀ a, enabled a s → match (perform a s).1 with
                      | Ret _ => True
                      | Raise _ => (∃ keys, a = PrepareStore keys) ∧ policy_faulty (_policy m)
                      end).
Proof.
  intros Hn Hinit Hreach m. destruct (cpu_init_inv _ _ _ _ _ _ Hn Hinit) as (Hi0 & Hv0 & En).
  pose proof (reachable_pinv _ _ (pinv_init _ Hi0 Hv0) Hreach) as Hp.
  pose proof (reachable_num_blocks _ _ Hreach) as Enb. cbn [mgr] in Enb. rewrite En in Enb.
  destruct (pinv_held s Hp) as [Hl Hs]. assert (Hi : om_inv m) by apply Hp.
  split; [|split; [|split; [|split; [|split; [|split]]]]].
  - intros k id Hin. rewrite law_get by apply Hi. by apply Hl.
  - intros k id Hin. rewrite law_get by apply Hi. by apply Hs.
  - intros k id Hin. destruct (pinv_transfer _ _ _ Hp Hin) as (b & E & <-). rewrite <-Enb.
    by destruct (stored_apart (mgr s) k b Hi E) as (? & ? & _).
  - intros k k' id. by apply pinv_inj.
  - apply NoDup_snd; [apply (ti_stores _ _ _ (proj1 Hp))|].
    intros k k' id H1 H2. apply (pinv_inj s k k' id); [done|apply elem_of_app; by right..].
  - intros k id Hst Hld. apply Hs in Hst. pose proof (occ_pos _ _ _ Hld). apply Hl in Hld.
    rewrite Hld in Hst. injection Hst as Hst. lia.
  - intros a Ha. pose proof (perform_spec a s Hp Ha) as H. unfold wpe in H.
    destruct (perform a s) as [[|e] s']; [done|]. by destruct H as (_ & H & H').
Qed.
End offload.

(** ** Witnesses *)

Abbreviation demo_key n := [n; x00; x00; x00; x00].
Abbreviation demo_manager := (cpu_manager 2 (AnyLru Lru.new) true 0 10).

(** Two keys are stored, one of them is read and the other makes room for a third. *)
Abbreviation demo_trace :=
  [PrepareStore [demo_key x01; demo_key x02];
   CompleteStore [(demo_key x02, 1)] [(demo_key x01, 0)] true;
   CompleteStore [(demo_key x01, 0)] [] true;
   PrepareLoad [demo_key x01];
   PrepareStore [demo_key x03]].

Lemma reach_perform (s0 s : protocol (P := any_policy)) a :
  reachable s0 s → enabled a s → (perform a s).1 = Ret tt → reachable s0 (perform a s).2.
Proof. intros Hs Ha E. apply (reach_step s0 s a); [done..|]. rewrite <-E. by destruct (perform a s). Qed.

(** Every call of the trace is enabled and succeeds. *)
Fixpoint trace_ok (l : list action) (s : protocol (P := any_policy)) : Prop :=
  match l with [] => True | a :: l => enabled a s ∧ (perform a s).1 = Ret tt ∧ trace_ok l (perform a s).2 end.

Lemma reach_trace (l : list action) : ∀ s0 s : protocol (P := any_policy),
  reachable s0 s → trace_ok l s → reachable s0 (foldl (λ s a, (perform a s).2) s l).
Proof.
  induction l as [|a l IH]; intros s0 s Hs Hl; [done|]. destruct Hl as (Ha & E & Hl). simpl.
  apply IH; [|done]. by apply reach_perform.
Qed.

Lemma offload_transfers_safe_witness :
  let s := foldl (λ s a, (perform a s).2) (mkProtocol demo_manager [] []) demo_trace in
  (loads s, stores s) = ([(demo_key x01, 0)], [(demo_key x03, 1)]) ∧
  policy_get (demo_key x01) (_policy (mgr s)) = Some (mkStatus 1 0) ∧ (1 ∉ _free_list (mgr s)).
Proof.
  intros s. assert (Hr : reachable (mkProtocol demo_manager [] []) s).
  { apply reach_trace; [apply reach_init|]. cbn [trace_ok].
    split_and!; try (vm_compute; reflexivity); try exact I; try by apply (bool_decide_unpack _).
    - apply Permutation_swap.
    - split; [|vm_compute; reflexivity]. intros k ->%list_elem_of_singleton. eexists. split; vm_compute; reflexivity. }
  destruct (offload_transfers_safe 2 "lru" true 0 10 demo_manager s) as (Hl & _ & Hf & _); [lia|reflexivity|done|].
  split; [vm_compute; reflexivity|]. split.
  - rewrite (Hl (demo_key x01) 0); [vm_compute; reflexivity|]. vm_compute. by left.
  - apply (Hf (demo_key x03) 1). vm_compute. right. by left.
Defined.

(** ** Which blocks the policies evict *)

(** LRU evicts the oldest idle blocks and keeps the order of the rest: with
    fewer than [n] idle unprotected blocks it answers [None] and changes nothing,
    otherwise it answers the first [n] of them from the oldest on. *)
Theorem lru_evicts_oldest n protected p :
  0 < n →
  Lru.evict n protected p =
    let victims := take (Z.to_nat n) (filter (idle protected) (Lru.blocks p)) in
    if decide (zlen (filter (idle protected) (Lru.blocks p)) < n) then (Ret None, p)
    else (Ret (Some victims), Lru.mkLru (filter (λ e, e.1 ∉ victims.*1) (Lru.blocks p))).
Proof.
  intros Hn. rewrite lru_evict_run by done. cbv zeta. fold (oldest_idle n protected p).
  destruct (Z.ltb_spec (zlen (filter (idle protected) (Lru.blocks p))) n), (decide _); done || lia.
Qed.

Lemma lru_evicts_oldest_witness :
  0 < 1 ∧ (Lru.evict 1 {[demo_key x01]}
    (Lru.mkLru [(demo_key x01, mkStatus 0 0); (demo_key x02, mkStatus 1 1); (demo_key x03, mkStatus 0 2)])).1 =
  Ret (Some [(demo_key x03, mkStatus 0 2)]).
Proof. split; [lia|]. rewrite lru_evicts_oldest by lia. vm_compute. reflexivity. Defined.

(** A full ARC cache: one block in [t2] that is being loaded, one idle block in
    [t1], and two hits on the ghost list that raise the target. *)
Abbreviation arc_manager := (cpu_manager 2 (AnyArc (Arc.new 2)) true 0 10).
Abbreviation arc_trace :=
  [PrepareStore [demo_key x01; demo_key x02];
   CompleteStore [(demo_key x01, 0); (demo_key x02, 1)] [] true;
   Touch [demo_key x01];
   PrepareStore [demo_key x03];
   CompleteStore [(demo_key x03, 1)] [] true;
   Touch [demo_key x02]; Touch [demo_key x02];
   PrepareLoad [demo_key x01]].

(** ARC can refuse an eviction that is possible. From an empty manager the
    scheduler's calls reach a state in which an idle block is held that a store of
    another key may evict, and [prepare_store] of that key answers [None]: [t1],
    where the idle block is, is below its target, and the only block of [t2] is
    being loaded. The interface documents [None] for evictions that cannot be
    satisfied. *)
Theorem arc_refuses_evictable :
  CPUOffloadingManager_init 2 "arc" true 0 10 = Ret arc_manager ∧
  ∃ s, reachable (mkProtocol arc_manager [] []) s ∧
    policy_get (demo_key x03) (_policy (mgr s)) = Some (mkStatus 0 1) ∧
    (prepare_store [demo_key x04] (mgr s)).1 = Ret None.
Proof.
  split; [done|]. exists (foldl (λ s a, (perform a s).2) (mkProtocol arc_manager [] []) arc_trace). split.
  2:{ split; vm_compute; reflexivity. }
  apply reach_trace; [apply reach_init|]. cbn [trace_ok].
  split_and!; try (vm_compute; reflexivity); try exact I; try by apply (bool_decide_unpack _).
  split; [|vm_compute; reflexivity]. intros k ->%list_elem_of_singleton. eexists. split; vm_compute; reflexivity.
Qed.
