(* ===== verification/MixedPrefill.v ===== *)
(** * The token budget of mixed prefill steps

    [MixedPrefillBudget] of [vllm/v1/core/sched/mixed_prefill.py]: how many prefill
    tokens may share a step with decoding requests, learnt from the times of
    completed steps.  The arithmetic is that of Python's floats, so that samples for
    which it leaves the finite numbers are covered too. *)

From Stdlib Require Import SpecFloat.
From S2P Require Import Prelude.
From S2P Require Import PyNumber.
Local Open Scope Z_scope.

Record MixedPrefillTiming : Type := mkTiming {
  mt_prefill_tokens : Z;
  mt_decode_tokens : Z;
  mt_budget_tokens : Z;
  elapsed_ms : float;
  cuda_graph : bool;
}.

Record MixedPrefillBudget : Type := mkMixed {
  mp_max_tokens : Z;
  target_ms : float;
  mp_min_tokens : Z;
  mp_tokens : Z;
  ms_per_token : option float;
  _fit : float * float * float * float * float;
}.
Definition set_tokens (v : Z) (b : MixedPrefillBudget) : MixedPrefillBudget :=
  mkMixed (mp_max_tokens b) (target_ms b) (mp_min_tokens b) v (ms_per_token b) (_fit b).
Definition set_fit ms v (b : MixedPrefillBudget) : MixedPrefillBudget :=
  mkMixed (mp_max_tokens b) (target_ms b) (mp_min_tokens b) (mp_tokens b) ms v.

Module Mixed.

Definition zero : float := S754_zero false.
Definition DECAY : float := float_literal 3 (-2).
(** The literals [0.75], [0.5], [1.25], [2.0] and [0.01] *)
Definition f0_75 : float := float_literal 3 (-2).
Definition f0_5 : float := float_literal 1 (-1).
Definition f1_25 : float := float_literal 5 (-2).
Definition f2_0 : float := float_of_int 2.
Definition f0_01 : float := float_literal 5764607523034235 (-59).

Definition MixedPrefillBudget_init (max_tokens : Z) (target_ms : float) (min_tokens : Z) : MixedPrefillBudget :=
  let min_tokens := Z.min min_tokens max_tokens in
  mkMixed max_tokens target_ms min_tokens (Z.max (Z.min 512 max_tokens) min_tokens) None
    (zero, zero, zero, zero, zero).

(** The budget of the fitted step cost, [None] before the fit is determined. *)
Definition _affine_budget (b : MixedPrefillBudget) : outcome (option float) :=
  let '(w, sx, sy, sxx, sxy) := _fit b in
  let spread := float_sub (float_mul w sxx) (float_mul sx sx) in
  if SFltb w f2_0 || SFleb spread (float_mul (float_mul f0_01 sx) sx) then Ret None
  else
    obind (λ per_token,
      obind (λ mean_rest,
        let fixed := float_max zero mean_rest in
        if SFleb per_token zero then Ret (Some (float_of_int (mp_max_tokens b)))
        else obind (λ budget, Ret (Some budget))
               (float_truediv (float_max (float_sub (target_ms b) fixed) fixed) per_token))
        (float_truediv (float_sub sy (float_mul per_token sx)) w))
      (float_truediv (float_sub (float_mul w sxy) (float_mul sx sy)) spread).

(** A sample the budget does not learn from. *)
Definition ignored (b : MixedPrefillBudget) (sample : MixedPrefillTiming) : bool :=
  SFleb (target_ms b) zero || (mt_prefill_tokens sample <=? 0) || (mt_decode_tokens sample <=? 0) ||
  negb (float_isfinite (elapsed_ms sample)) || SFleb (elapsed_ms sample) zero ||
  num_lt (PyInt (mt_prefill_tokens sample)) (PyFloat (float_mul (float_of_int (mt_budget_tokens sample)) f0_75)).

(** The sample added to the decayed sums and to the running cost per token. *)
Definition learn (sample : MixedPrefillTiming) (b : MixedPrefillBudget) : outcome MixedPrefillBudget :=
  let x := float_of_int (mt_prefill_tokens sample) in
  let y := elapsed_ms sample in
  let '(w, sx, sy, sxx, sxy) := _fit b in
  let decayed v := float_mul v DECAY in
  obind (λ cost,
    Ret (set_fit
      (Some (match ms_per_token b with
             | None => cost
             | Some ms => float_add (float_mul f0_5 ms) (float_mul f0_5 cost)
             end))
      (float_add (decayed w) (float_of_int 1), float_add (decayed sx) x, float_add (decayed sy) y,
       float_add (decayed sxx) (float_mul x x), float_add (decayed sxy) (float_mul x y)) b))
    (float_truediv y x).

(** The new number of tokens for a desired one. *)
Definition next_tokens (b : MixedPrefillBudget) (desired : float) (growth : float) : outcome Z :=
  let quantum := Z.min 16 (mp_max_tokens b) in
  let limit := py_max (PyFloat (float_mul (float_of_int (mp_tokens b)) growth)) (PyInt (mp_tokens b + quantum)) in
  obind (λ n,
    if quantum =? 0 then Raise ZeroDivisionError
    else Ret (Z.max (Z.max quantum (mp_min_tokens b)) (Z.min (mp_max_tokens b) (n / quantum * quantum))))
    (py_int (py_min (PyFloat desired) limit)).

Definition update (sample : option MixedPrefillTiming) : M MixedPrefillBudget unit :=
  b ← get;
  match sample with
  | None => mret tt
  | Some sample =>
      if ignored b sample then mret tt
      else
        (if cuda_graph sample then mret tt else b ← of_outcome (learn sample b); put b) ;;
        b ← get;
        affine ← of_outcome (_affine_budget b);
        match affine, ms_per_token b with
        | Some desired, _ =>
            n ← of_outcome (next_tokens b desired f2_0);
            modify (set_tokens n)
        | None, Some ms =>
            if cuda_graph sample then mret tt
            else
              desired ← of_outcome (float_truediv (target_ms b) ms);
              n ← of_outcome (next_tokens b desired f1_25);
              modify (set_tokens n)
        | None, None => mret tt
        end
  end.

(** ** The budget stays within its bounds *)

(** The least budget: a quantum, or the configured minimum. *)
Definition least (b : MixedPrefillBudget) : Z := Z.max (Z.min 16 (mp_max_tokens b)) (mp_min_tokens b).

Record bounded (b : MixedPrefillBudget) : Prop := {
  mb_max : 1 ≤ mp_max_tokens b;
  mb_min : mp_min_tokens b ≤ mp_max_tokens b;
  mb_tokens : least b ≤ mp_tokens b ≤ mp_max_tokens b;
}.

Lemma init_bounded max_tokens target min_tokens :
  1 ≤ max_tokens → bounded (MixedPrefillBudget_init max_tokens target min_tokens).
Proof. intros H. split; unfold least; simpl; lia. Qed.

Definition same_limits (b b' : MixedPrefillBudget) : Prop :=
  mp_max_tokens b' = mp_max_tokens b ∧ mp_min_tokens b' = mp_min_tokens b ∧ target_ms b' = target_ms b.

Lemma next_tokens_bounds b desired growth n :
  1 ≤ mp_max_tokens b → mp_min_tokens b ≤ mp_max_tokens b → next_tokens b desired growth = Ret n →
  least b ≤ n ≤ mp_max_tokens b ∧
  (n = mp_min_tokens b ∨ n = mp_max_tokens b ∨ n mod Z.min 16 (mp_max_tokens b) = 0).
Proof.
  intros Hmax Hmin. unfold next_tokens. cbn zeta. destruct (py_int _) as [z|e]; cbn [obind]; [|done].
  set (q := Z.min 16 (mp_max_tokens b)). assert (Hq : 0 < q) by (unfold q; lia).
  rewrite (proj2 (Z.eqb_neq q 0)) by lia. intros [= <-]. unfold least. fold q. split; [lia|].
  assert (Hm : (z / q * q) mod q = 0) by (apply Z_mod_mult). assert (Hqq : q mod q = 0) by (apply Z_mod_same_full).
  destruct (Z.max_spec (Z.max q (mp_min_tokens b)) (Z.min (mp_max_tokens b) (z / q * q))) as [[_ ->]|[_ ->]].
  - destruct (Z.min_spec (mp_max_tokens b) (z / q * q)) as [[_ ->]|[_ ->]]; auto.
  - destruct (Z.max_spec q (mp_min_tokens b)) as [[_ ->]|[_ ->]]; auto.
Qed.

Lemma learn_limits sample b b' : learn sample b = Ret b' → same_limits b b' ∧ mp_tokens b' = mp_tokens b.
Proof.
  unfold learn. destruct (_fit b) as [[[[w sx] sy] sxx] sxy]. destruct (float_truediv _ _); cbn [obind]; [|done].
  by intros [= <-].
Qed.

(** What one sample does to the budget, whether it raises or not. *)
Definition stepped (b b' : MixedPrefillBudget) : Prop :=
  same_limits b b' ∧ least b ≤ mp_tokens b' ≤ mp_max_tokens b ∧
  (mp_tokens b' = mp_tokens b ∨ mp_tokens b' = mp_min_tokens b ∨ mp_tokens b' = mp_max_tokens b ∨
   mp_tokens b' mod Z.min 16 (mp_max_tokens b) = 0).

Lemma stepped_same b b' : bounded b → same_limits b b' → mp_tokens b' = mp_tokens b → stepped b b'.
Proof. intros [H1 H2 H3] Hl E. split; [done|]. rewrite E. auto. Qed.

Lemma set_next_stepped b b1 desired growth :
  bounded b → same_limits b b1 → mp_tokens b1 = mp_tokens b →
  wpe (n ← of_outcome (next_tokens b1 desired growth); modify (set_tokens n)) b1 (λ _ b', stepped b b') (λ _ b', stepped b b').
Proof.
  intros Hb Hl Et. pose proof Hb as [H1 H2 _]. destruct Hl as (E1 & E2 & E3). wpe_step.
  destruct (next_tokens b1 desired growth) as [n|e] eqn:En; cbn [of_outcome]; [|wpe_step; by apply stepped_same].
  apply next_tokens_bounds in En as [Hn Hm]; [|lia|lia]. wpe_step. wpe_step. unfold stepped, least in *. simpl.
  rewrite E1, E2 in Hn, Hm. split; [done|]. split; [done|]. by right.
Qed.

(** C40: Whatever times are reported, a sample changes the budget only to the
    configured minimum, to the maximum or to a multiple of the quantum, between the
    least and the greatest budget; also when the arithmetic raises, and the limits
    themselves never change. *)
Theorem mixed_budget_bounded b sample :
  bounded b → wpe (update sample) b (λ _ b', stepped b b') (λ _ b', stepped b b').
Proof.
  intros Hb. assert (Hrefl : stepped b b) by by apply stepped_same. unfold update. wpe_step. wpe_step.
  destruct sample as [sample|]; [|by wpe_step]. destruct (ignored b sample); [by wpe_step|]. wpe_step.
  assert (Hlearn : wpe (if cuda_graph sample then mret tt else b ← of_outcome (learn sample b); put b) b
    (λ _ b1, same_limits b b1 ∧ mp_tokens b1 = mp_tokens b) (λ _ b', stepped b b')).
  { destruct (cuda_graph sample); [by wpe_step|]. wpe_step. destruct (learn sample b) as [b1|e] eqn:El; cbn [of_outcome]; [|by wpe_step].
    wpe_step. apply wpe_put. by apply learn_limits in El. }
  eapply wpe_mono; [exact Hlearn| |done]. intros [] b1 [Hl Et]. wpe_step. wpe_step. wpe_step.
  destruct (_affine_budget b1) as [affine|e]; cbn [of_outcome]; [|wpe_step; by apply stepped_same]. wpe_step.
  destruct affine as [desired|]; [by apply set_next_stepped|].
  destruct (ms_per_token b1) as [ms|]; [|wpe_step; by apply stepped_same].
  destruct (cuda_graph sample); [wpe_step; by apply stepped_same|]. wpe_step.
  destruct (float_truediv _ ms) as [desired|e]; cbn [of_outcome]; [|wpe_step; by apply stepped_same].
  wpe_step. by apply set_next_stepped.
Qed.

(** The first sample of a step: 100 ms for 512 prefill tokens, of a target of 50. *)
Lemma mixed_budget_bounded_witness :
  let b := MixedPrefillBudget_init 2048 (float_of_int 50) 0 in
  let b' := (update (Some (mkTiming 512 8 512 (float_of_int 100) false)) b).2 in
  mp_tokens b = 512 ∧ mp_tokens b' = 256 ∧ stepped b b'.
Proof.
  cbn zeta. split; [done|]. split; [by vm_compute|].
  pose proof (mixed_budget_bounded (MixedPrefillBudget_init 2048 (float_of_int 50) 0)
    (Some (mkTiming 512 8 512 (float_of_int 100) false)) ltac:(apply init_bounded; lia)) as H.
  unfold wpe in H. destruct (update _ _) as [[]]; exact H.
Defined.

End Mixed.
