(* ===== verification/SchedInterface.v ===== *)
(** * What the scheduler asks of its components

    The scheduler of [vllm/v1/core/sched/scheduler.py] drives a KV-cache manager,
    an encoder cache and request queues.  [KVCache] is the interface of the first,
    with the manager of KVManager.v as an instance; [KVCacheLaws] is what the
    scheduler's invariants need of it, and [QueueLaws] what they need of a queue:
    how its contents change, up to their order. *)

From S2P Require Import Prelude.
From S2P Require Import FreeQueue.
From S2P Require Import Request.
From S2P Require Import BlockPool.
From S2P Require Import KVCacheSpec.
From S2P Require Import SingleType.
From S2P Require Import Coordinator.
From S2P Require Import Heapq.
From S2P Require Import RequestQueue.
From S2P Require Import RequestQueueSpec.
From S2P Require Import EncoderCache.
From S2P Require Import PartialCache.
From S2P Require Import KVManager.
Local Open Scope Z_scope.

(** ** The KV cache *)

Class KVCache (K : Type) : Type := {
  kv_new_step_starts : gmap Z Request → M K unit;
  kv_get_computed_blocks : KVRequest → M K (KVCacheBlocks * Z * KVRequest);
  kv_allocate_slots : KVRequest → AllocateArgs → M K (option KVCacheBlocks * KVRequest);
  kv_free : Request → M K unit;
  kv_cache_blocks : Request → Z → M K Request;
  kv_get_blocks : string → K → KVCacheBlocks;
  kv_get_block_ids : KVCacheBlocks → bool → K → option (list (list Z));
  kv_partial_prefix_stops : Request → K → Z → Z → list Z;
  kv_get_num_common_prefix_blocks : string → M K (list Z);
  kv_take_new_block_ids : M K (list Z);
  kv_take_boundary_state_offloads : M K (gmap string (list (Z * Z * Z)));
  kv_take_block_copies : M K (list (Z * Z));
  kv_reset_prefix_cache : M K bool;
}.

(** [partial_prefix_stops] raises only for a boundary beyond the hashed blocks,
    which its guard excludes. *)
Definition stops_of (o : outcome (list Z)) : list Z := match o with Ret l => l | Raise _ => [] end.

Section instance.
Context (sha256 : bytes → bytes) (use_int : bool).

Definition kv_cache_manager : KVCache KVCacheManager := {|
  kv_new_step_starts := km_new_step_starts use_int;
  kv_get_computed_blocks := get_computed_blocks;
  kv_allocate_slots := allocate_slots sha256 use_int;
  kv_free := km_free;
  kv_cache_blocks := km_cache_blocks sha256 use_int;
  kv_get_blocks rid k := km_get_blocks k rid;
  kv_get_block_ids b allow_none k := get_block_ids (km_pool k) (blocks_of k b) allow_none;
  kv_partial_prefix_stops r k start end_ := stops_of (partial_prefix_stops k r start end_);
  kv_get_num_common_prefix_blocks := km_get_num_common_prefix_blocks;
  kv_take_new_block_ids := km_take_new_block_ids;
  kv_take_boundary_state_offloads := take_boundary_state_offloads;
  kv_take_block_copies := take_block_copies;
  kv_reset_prefix_cache := km_reset_prefix_cache;
|}.
End instance.

(** ** Queues as collections *)

Class QueueLaws (Q : Type) `{RequestQueue Q} : Type := {
  queue_ok : Q → Prop;
  queue_view : Q → list RequestArgs;
  law_empty : queue_ok empty_queue ∧ queue_view empty_queue = [];
  law_add r q : queue_ok q →
    wp (add_request r) q (λ _ q', queue_ok q' ∧ queue_view q' ≡ₚ r :: queue_view q);
  law_peek q : queue_ok q → queue_view q ≠ [] →
    ∃ r q', peek_request q = (Ret r, q) ∧ pop_request q = (Ret r, q') ∧ queue_ok q' ∧
      queue_view q ≡ₚ r :: queue_view q';
  law_prepend r q : queue_ok q →
    wp (prepend_request r) q (λ _ q', queue_ok q' ∧ queue_view q' ≡ₚ r :: queue_view q);
  law_prepend_all rs q : queue_ok q →
    wp (prepend_requests rs) q (λ _ q', queue_ok q' ∧ queue_view q' ≡ₚ rs ++ queue_view q);
  law_remove_all rs q : queue_ok q →
    wp (remove_requests rs) q (λ _ q', queue_ok q' ∧ queue_view q' ≡ₚ without rs (queue_view q));
  law_bool q : queue_ok q → queue_bool q = (Ret (bool_decide (queue_view q ≠ [])), q);
  law_len q : queue_ok q → queue_len q = (Ret (zlen (queue_view q)), q);
  law_iter q : queue_ok q → ∃ l, queue_iter q = (Ret l, q) ∧ l ≡ₚ queue_view q;
}.

#[export, program] Instance fcfs_laws : QueueLaws FCFSRequestQueue := {|
  queue_ok _ := True;
  queue_view := deque;
|}.
Next Obligation. done. Qed.
Next Obligation.
  intros r q _. simpl. unfold Fcfs.add_request. wp_step. split; [done|]. simpl. by rewrite Permutation_app_comm.
Qed.
Next Obligation.
  intros [[|r l]] _ Hne; [done|]. by exists r, (mkFCFS l).
Qed.
Next Obligation. intros r q _. simpl. unfold Fcfs.prepend_request. by wp_step. Qed.
Next Obligation.
  intros rs q _. simpl. unfold wp. rewrite extendleft. split; [done|]. simpl.
  revert q. induction rs as [|r rs IH]; intros [l]; [done|]. simpl. rewrite (IH (mkFCFS (r :: l))). simpl.
  by rewrite Permutation_middle.
Qed.
Next Obligation. intros rs q _. simpl. unfold Fcfs.remove_requests. by wp_step. Qed.
Next Obligation.
  intros [[|r l]] _; [done|]. simpl. unfold gets. simpl. by do 2 f_equal.
Qed.
Next Obligation. done. Qed.
Next Obligation. intros q _. by exists (deque q). Qed.

#[export, program] Instance priority_laws : QueueLaws PriorityRequestQueue := {|
  queue_ok q := heap request_lt (_heap q);
  queue_view := _heap;
|}.
Next Obligation. split; [apply heap_nil|done]. Qed.
Next Obligation.
  intros r [h] Hq. simpl. unfold Priority.add_request. wp_step.
  by apply (heappush_spec request_lt request_lt_leb request_leb_trans).
Qed.
Next Obligation.
  intros [h] Hq Hne. simpl in *.
  pose proof (heappop_spec request_lt request_lt_leb request_leb_trans h Hq) as Hpop.
  destruct (heappop request_lt h) as [[r h']|] eqn:E; [|done]. destruct Hpop as (Hp & Hh & _).
  exists r, (mkPriority h'). unfold Priority.peek_request, Priority.pop_request, mbind, M_bind, Prelude.get. simpl.
  rewrite (heappop_head _ _ _ _ E), bool_decide_eq_false_2, E by done. done.
Qed.
Next Obligation.
  intros r [h] Hq. simpl. unfold Priority.prepend_request, Priority.add_request. wp_step.
  by apply (heappush_spec request_lt request_lt_leb request_leb_trans).
Qed.
Next Obligation.
  intros rs q Hq. simpl. unfold Priority.prepend_requests. revert q Hq.
  induction rs as [|r rs IH]; intros [h] Hq; cbn [foreach]; [by wp_step|]. wp_step.
  unfold Priority.add_request at 1. wp_step. simpl in *.
  destruct (heappush_spec request_lt request_lt_leb request_leb_trans h r Hq) as [Hh Hp].
  eapply wp_mono; [by apply (IH (mkPriority (heappush request_lt h r)))|]. intros [] q' [Hq' Hp']. split; [done|].
  rewrite Hp'. simpl. rewrite Hp. by rewrite Permutation_middle.
Qed.
Next Obligation.
  intros rs [h] Hq. simpl. unfold Priority.remove_requests. wp_step.
  apply (heapify_spec request_lt request_lt_leb request_leb_trans).
Qed.
Next Obligation. done. Qed.
Next Obligation. done. Qed.
Next Obligation.
  intros [h] Hq. exists (Priority.iter (mkPriority h)). split; [done|].
  by apply (drain_spec request_lt request_lt_leb request_leb_trans).
Qed.

(** ** What the invariants need of the cache *)

(** The attributes of a request that the cache does not write. *)
Definition kv_same (r r' : Request) : Prop :=
  req_args r' = req_args r ∧ status r' = status r ∧ stop_reason r' = stop_reason r ∧
  _output_token_ids r' = _output_token_ids r ∧ _all_token_ids r' = _all_token_ids r ∧
  spec_token_ids r' = spec_token_ids r ∧ num_computed_tokens r' = num_computed_tokens r ∧
  num_output_placeholders r' = num_output_placeholders r ∧
  num_in_flight_tokens r' = num_in_flight_tokens r ∧ num_preemptions r' = num_preemptions r.

Lemma kv_same_refl r : kv_same r r.
Proof. by unfold kv_same. Qed.

Lemma kv_same_trans r1 r2 r3 : kv_same r1 r2 → kv_same r2 r3 → kv_same r1 r3.
Proof. unfold kv_same. intuition congruence. Qed.

(** How a state [k] of a cache becomes [k'], for the predicates [holds] (the request
    holds blocks) and [ready] below. *)
Section steps.
Context {K : Type} (holds : K → string → Prop) (ready : K → Prop).

(** Blocks may be released; may be given to [rid]; all those of [rid] are released.
    Only an allocation gives, and what it keeps ready is stated with it. *)
Definition cache_keeps (k k' : K) : Prop :=
  (ready k → ready k') ∧ ∀ rid, holds k' rid → holds k rid.
Definition cache_gives (rid0 : string) (k k' : K) : Prop :=
  ∀ rid, holds k' rid → holds k rid ∨ rid = rid0.
Definition cache_frees (rid0 : string) (k k' : K) : Prop :=
  (ready k → ready k') ∧ ∀ rid, holds k' rid → holds k rid ∧ rid ≠ rid0.

Lemma cache_keeps_refl k : cache_keeps k k.
Proof. by split. Qed.

Lemma cache_keeps_trans k1 k2 k3 : cache_keeps k1 k2 → cache_keeps k2 k3 → cache_keeps k1 k3.
Proof. intros [T1 H1] [T2 H2]. split; auto. Qed.
End steps.

(** [kv_holds k rid]: the request holds blocks.  [kv_ready k]: the operations do
    not raise, and a hit leaves a token to compute; [kv_given] are the blocks a
    hit of such a state hands to the allocation. *)
Class KVCacheLaws (K : Type) `{KVCache K} : Type := {
  kv_holds : K → string → Prop;
  kv_ready : K → Prop;
  kv_given : KVCacheBlocks → Prop;
  law_kv_none : kv_given EmptyBlocks;
  law_kv_step objs k : wpe (kv_new_step_starts objs) k
    (λ _ k', cache_keeps kv_holds kv_ready k k') (λ _ _, ¬ kv_ready k);
  law_kv_hit r k : wpe (kv_get_computed_blocks r) k
    (λ res k', kv_same r res.2 ∧ cache_keeps kv_holds kv_ready k k' ∧
       (kv_ready k → kv_given res.1.1 ∧ (0 < num_tokens r → res.1.2 < num_tokens r)))
    (λ _ _, ¬ kv_ready k);
  law_kv_alloc r a k : wpe (kv_allocate_slots r a) k
    (λ res k', kv_same r res.2 ∧ cache_gives kv_holds (request_id r) k k' ∧
       (res.1 = None → ∀ rid, kv_holds k' rid → kv_holds k rid) ∧
       (kv_ready k → kv_given (new_computed_blocks a) → num_external_computed_tokens a = 0 → kv_ready k'))
    (λ _ _, kv_ready k → kv_given (new_computed_blocks a) → num_external_computed_tokens a = 0 →
       num_new_tokens a ≤ 0);
  law_kv_free r k : wpe (kv_free r) k
    (λ _ k', cache_frees kv_holds kv_ready (request_id r) k k') (λ _ _, ¬ kv_ready k);
  law_kv_cache r n k : wpe (kv_cache_blocks r n) k
    (λ r' k', kv_same r r' ∧ cache_keeps kv_holds kv_ready k k') (λ _ _, ¬ kv_ready k);
  law_kv_common rid0 k : wpe (kv_get_num_common_prefix_blocks rid0) k
    (λ _ k', cache_keeps kv_holds kv_ready k k') (λ _ _, ¬ kv_ready k);
  law_kv_ids k : wpe kv_take_new_block_ids k
    (λ _ k', cache_keeps kv_holds kv_ready k k') (λ _ _, ¬ kv_ready k);
  law_kv_offloads k : wpe kv_take_boundary_state_offloads k
    (λ _ k', cache_keeps kv_holds kv_ready k k') (λ _ _, ¬ kv_ready k);
  law_kv_copies k : wpe kv_take_block_copies k
    (λ _ k', cache_keeps kv_holds kv_ready k k') (λ _ _, ¬ kv_ready k);
  law_kv_reset k : wpe kv_reset_prefix_cache k
    (λ _ k', cache_keeps kv_holds kv_ready k k') (λ _ _, ¬ kv_ready k);
}.

Abbreviation kv_keeps := (cache_keeps kv_holds kv_ready).
Abbreviation kv_gives := (cache_gives kv_holds).
Abbreviation kv_frees := (cache_frees kv_holds kv_ready).

(** ** What they need of the encoder cache

    A request without encoder inputs is freed without an exception. *)
Class EncoderLaws (E : Type) `{EncoderCache E} : Prop := {
  law_enc_free ord (r : Request) e : (∀ l, ord l ≡ₚ l) → mm_features r = [] →
    wp (free_inputs ord r) e (λ _ _, True);
  law_enc_freed e : wp get_freed_mm_hashes e (λ _ _, True);
}.

#[export] Instance shared_enc_laws : EncoderLaws EncoderCacheManager.
Proof.
  split.
  - intros ord r e Hord Hr. simpl. unfold Shared.free, Shared.get_cached_input_ids. wp_step. wp_step. wp_step. wp_step.
    rewrite Hr. change (EncoderCache.py_range (zlen [])) with (@nil Z). rewrite filter_nil, (proj1 (Permutation_nil_r _) (Hord [])). cbn [foreach]. by wp_step.
  - intros e. simpl. unfold Shared.get_freed_mm_hashes. wp_step. wp_step. wp_step. by wp_step. 
Qed.

#[export] Instance encoder_decoder_enc_laws : EncoderLaws EncoderDecoderCacheManager.
Proof.
  split.
  - intros ord r e _ Hr. simpl. unfold EncDec.free. rewrite Hr. by apply wp_ret.
  - intros e. simpl. unfold EncDec.get_freed_mm_hashes. wp_step. wp_step. wp_step. by wp_step.
Qed.
