(* ===== verification/Sched.v ===== *)
(** * The scheduler's state

    [vllm/v1/core/sched/scheduler.py]: the attributes of [Scheduler], its request
    objects and its waiting queues, against the interfaces [KVCache],
    [EncoderCache] and [RequestQueue].

    Modelled is a scheduler without KV connector, encoder connector, DDTree
    drafts, routed experts, streaming sessions ([resumable] requests) and
    statistics; the conditions on these are constant then, and the two flags about
    structured output that a step announces to the workers are left out.  [grammar_ready] answers
    whether the grammar of a request has been compiled (by threads outside the
    scheduler), and [set_order] is the iteration order of Python's sets.

    Request objects are shared: the queues, the running list and the dictionary
    [requests] hold references, [objects] maps the identity of an object to its
    current attributes.  The queues compare attributes that never change, so they
    hold these attributes with the identity. *)

From S2P Require Import Prelude.
From S2P Require Import OrderedDict.
From S2P Require Import FreeQueue.
From S2P Require Import Request.
From S2P Require Import BlockHash.
From S2P Require Import RequestQueue.
From S2P Require Import SchedUtils.
From S2P Require Import SchedPrefill.
From S2P Require Import EncoderCache.
From S2P Require Import KVManager.
From S2P Require Import MixedPrefill.
From S2P Require Import SchedInterface.
Local Open Scope Z_scope.

(** ** Request objects *)

Definition set_computed (v : Z) (x : Request) : Request :=
  mkRequest (req_args x) (status x) (stop_reason x) (_output_token_ids x) (_all_token_ids x)
    (spec_token_ids x) v (num_output_placeholders x) (num_in_flight_tokens x)
    (num_preemptions x) (shared_prefix_boundary x) (block_hashes x)
    (_prompt_embeds_per_block_hashes x).
Definition set_spec (v : list Z) (x : Request) : Request :=
  mkRequest (req_args x) (status x) (stop_reason x) (_output_token_ids x) (_all_token_ids x) v
    (num_computed_tokens x) (num_output_placeholders x) (num_in_flight_tokens x)
    (num_preemptions x) (shared_prefix_boundary x) (block_hashes x)
    (_prompt_embeds_per_block_hashes x).
Definition set_placeholders (v : Z) (x : Request) : Request :=
  mkRequest (req_args x) (status x) (stop_reason x) (_output_token_ids x) (_all_token_ids x)
    (spec_token_ids x) (num_computed_tokens x) v (num_in_flight_tokens x) (num_preemptions x)
    (shared_prefix_boundary x) (block_hashes x) (_prompt_embeds_per_block_hashes x).
Definition set_in_flight (v : Z) (x : Request) : Request :=
  mkRequest (req_args x) (status x) (stop_reason x) (_output_token_ids x) (_all_token_ids x)
    (spec_token_ids x) (num_computed_tokens x) (num_output_placeholders x) v (num_preemptions x)
    (shared_prefix_boundary x) (block_hashes x) (_prompt_embeds_per_block_hashes x).
Definition set_preemptions (v : Z) (x : Request) : Request :=
  mkRequest (req_args x) (status x) (stop_reason x) (_output_token_ids x) (_all_token_ids x)
    (spec_token_ids x) (num_computed_tokens x) (num_output_placeholders x)
    (num_in_flight_tokens x) v (shared_prefix_boundary x) (block_hashes x)
    (_prompt_embeds_per_block_hashes x).

(** A request with the attributes only the scheduler uses.
    [prefill_stats_pending]: [prefill_stats] is not [None]. *)
Record SRequest : Type := mkSReq {
  s_kv :> KVRequest;
  is_prefill_chunk : bool;
  next_decode_eligible_step : Z;
  async_tokens_to_discard : Z;
  prefill_stats_pending : bool;
}.
Definition set_kv (v : KVRequest) (x : SRequest) : SRequest :=
  mkSReq v (is_prefill_chunk x) (next_decode_eligible_step x) (async_tokens_to_discard x)
    (prefill_stats_pending x).
Definition set_prefill_chunk (v : bool) (x : SRequest) : SRequest :=
  mkSReq (s_kv x) v (next_decode_eligible_step x) (async_tokens_to_discard x)
    (prefill_stats_pending x).
Definition set_eligible_step (v : Z) (x : SRequest) : SRequest :=
  mkSReq (s_kv x) (is_prefill_chunk x) v (async_tokens_to_discard x) (prefill_stats_pending x).
Definition set_discard (v : Z) (x : SRequest) : SRequest :=
  mkSReq (s_kv x) (is_prefill_chunk x) (next_decode_eligible_step x) v (prefill_stats_pending x).
Definition set_stats_pending (v : bool) (x : SRequest) : SRequest :=
  mkSReq (s_kv x) (is_prefill_chunk x) (next_decode_eligible_step x) (async_tokens_to_discard x)
    v.

Definition on_req (f : Request → Request) (r : SRequest) : SRequest :=
  set_kv (mkKVReq (f r) (partial_prefix_entry r)) r.

(** [Request.has_encoder_inputs], [Request.use_structured_output] *)
Definition has_encoder_inputs (r : Request) : bool := 0 <? zlen (mm_features r).
Definition use_structured_output (r : Request) : bool :=
  match sampling_params r with Some sp => has_structured_outputs sp | None => false end.

Inductive PauseState : Set := UNPAUSED | PAUSED_NEW | PAUSED_ALL.

#[export] Instance pause_state_eq_dec : EqDecision PauseState.
Proof. solve_decision. Defined.

(** ** The settings *)

Record SchedConfig : Type := mkSchedConfig {
  policy : SchedulingPolicy;
  max_num_running_reqs : Z;
  max_num_scheduled_tokens : Z;
  sc_max_model_len : Z;
  config_long_prefill_token_threshold : Z;
  adaptive_long_prefill_threshold : bool;
  enable_chunked_prefill : bool;
  disable_chunked_mm_input : bool;
  mixed_prefill_enabled : bool;
  mixed_prefill_latency_set : bool;
  pipeline_parallel_size : Z;
  is_encoder_decoder : bool;
  max_num_encoder_input_tokens : Z;
  num_spec_tokens : Z;
  config_num_lookahead_tokens : Z;
  scheduler_reserve_full_isl : bool;
  max_loras : option Z;
  num_kv_groups : nat;
  needs_kv_cache_zeroing : bool;
  use_v2_model_runner : bool;
  async_scheduling : bool;
  drafter_max_model_len : Z;
  prefill : PrefillConfig;
}.

Section scheduler.
Context {Q K E : Type} `{!RequestQueue Q} `{!KVCache K} `{!EncoderCache E}.

Record Scheduler : Type := mkSched {
  objects : gmap Z SRequest;
  requests : list (string * Z);
  waiting : Q;
  skipped_waiting : Q;
  running : list Z;
  finished_req_ids : gset string;
  prev_step_scheduled_req_ids : gset string;
  current_step : Z;
  pause_state : PauseState;
  mixed_prefill_budget : MixedPrefillBudget;
  kv_state : K;
  enc_state : E;
}.
Definition set_objects (v : gmap Z SRequest) (x : Scheduler) : Scheduler :=
  mkSched v (requests x) (waiting x) (skipped_waiting x) (running x) (finished_req_ids x)
    (prev_step_scheduled_req_ids x) (current_step x) (pause_state x) (mixed_prefill_budget x)
    (kv_state x) (enc_state x).
Definition set_requests (v : list (string * Z)) (x : Scheduler) : Scheduler :=
  mkSched (objects x) v (waiting x) (skipped_waiting x) (running x) (finished_req_ids x)
    (prev_step_scheduled_req_ids x) (current_step x) (pause_state x) (mixed_prefill_budget x)
    (kv_state x) (enc_state x).
Definition set_waiting (v : Q) (x : Scheduler) : Scheduler :=
  mkSched (objects x) (requests x) v (skipped_waiting x) (running x) (finished_req_ids x)
    (prev_step_scheduled_req_ids x) (current_step x) (pause_state x) (mixed_prefill_budget x)
    (kv_state x) (enc_state x).
Definition set_skipped (v : Q) (x : Scheduler) : Scheduler :=
  mkSched (objects x) (requests x) (waiting x) v (running x) (finished_req_ids x)
    (prev_step_scheduled_req_ids x) (current_step x) (pause_state x) (mixed_prefill_budget x)
    (kv_state x) (enc_state x).
Definition set_running (v : list Z) (x : Scheduler) : Scheduler :=
  mkSched (objects x) (requests x) (waiting x) (skipped_waiting x) v (finished_req_ids x)
    (prev_step_scheduled_req_ids x) (current_step x) (pause_state x) (mixed_prefill_budget x)
    (kv_state x) (enc_state x).
Definition set_finished_ids (v : gset string) (x : Scheduler) : Scheduler :=
  mkSched (objects x) (requests x) (waiting x) (skipped_waiting x) (running x) v
    (prev_step_scheduled_req_ids x) (current_step x) (pause_state x) (mixed_prefill_budget x)
    (kv_state x) (enc_state x).
Definition set_prev_ids (v : gset string) (x : Scheduler) : Scheduler :=
  mkSched (objects x) (requests x) (waiting x) (skipped_waiting x) (running x)
    (finished_req_ids x) v (current_step x) (pause_state x) (mixed_prefill_budget x) (kv_state x)
    (enc_state x).
Definition set_current_step (v : Z) (x : Scheduler) : Scheduler :=
  mkSched (objects x) (requests x) (waiting x) (skipped_waiting x) (running x)
    (finished_req_ids x) (prev_step_scheduled_req_ids x) v (pause_state x)
    (mixed_prefill_budget x) (kv_state x) (enc_state x).
Definition set_pause_state (v : PauseState) (x : Scheduler) : Scheduler :=
  mkSched (objects x) (requests x) (waiting x) (skipped_waiting x) (running x)
    (finished_req_ids x) (prev_step_scheduled_req_ids x) (current_step x) v
    (mixed_prefill_budget x) (kv_state x) (enc_state x).
Definition set_mixed_budget (v : MixedPrefillBudget) (x : Scheduler) : Scheduler :=
  mkSched (objects x) (requests x) (waiting x) (skipped_waiting x) (running x)
    (finished_req_ids x) (prev_step_scheduled_req_ids x) (current_step x) (pause_state x)
    v (kv_state x) (enc_state x).
Definition set_kv_state (v : K) (x : Scheduler) : Scheduler :=
  mkSched (objects x) (requests x) (waiting x) (skipped_waiting x) (running x)
    (finished_req_ids x) (prev_step_scheduled_req_ids x) (current_step x) (pause_state x)
    (mixed_prefill_budget x) v (enc_state x).
Definition set_enc_state (v : E) (x : Scheduler) : Scheduler :=
  mkSched (objects x) (requests x) (waiting x) (skipped_waiting x) (running x)
    (finished_req_ids x) (prev_step_scheduled_req_ids x) (current_step x) (pause_state x)
    (mixed_prefill_budget x) (kv_state x) v.

(** [Scheduler.__init__], for given components *)
Definition new_scheduler (budget : MixedPrefillBudget) (kv : K) (enc : E) : Scheduler :=
  mkSched ∅ [] empty_queue empty_queue [] ∅ ∅ 0 UNPAUSED budget kv enc.

Definition on_kv {A} (m : M K A) : M Scheduler A := zoom kv_state set_kv_state m.
Definition on_enc {A} (m : M E A) : M Scheduler A := zoom enc_state set_enc_state m.
Definition on_waiting {A} (m : M Q A) : M Scheduler A := zoom waiting set_waiting m.
Definition on_skipped {A} (m : M Q A) : M Scheduler A := zoom skipped_waiting set_skipped m.

(** The object a reference points to; every reference points to one. *)
Definition obj (o : Z) : M Scheduler SRequest :=
  s ← get; of_option KeyError (objects s !! o).
Definition upd (o : Z) (f : SRequest → SRequest) : M Scheduler unit :=
  modify (λ s, set_objects (alter f o (objects s)) s).

(** A call of the KV cache with the request as its argument. *)
Definition kv_call {A} (o : Z) (m : KVRequest → M K (A * KVRequest)) : M Scheduler A :=
  obj o ≫= λ r : SRequest,
  res ← on_kv (m r);
  upd o (set_kv res.2) ;;
  mret res.1.

(** The request of an id: [self.requests[req_id]]. *)
Definition lookup_request (rid : string) : M Scheduler Z :=
  s ← get; of_option KeyError (od_get rid (requests s)).

(** ** Queues *)

Definition _is_blocked_waiting_status (st : RequestStatus) : bool :=
  match st with
  | WAITING_FOR_STRUCTURED_OUTPUT_GRAMMAR | WAITING_FOR_REMOTE_KVS | WAITING_FOR_STREAMING_REQ => true
  | _ => false
  end.

Definition _enqueue_waiting_request (r : Request) : M Scheduler unit :=
  if _is_blocked_waiting_status (status r) then on_skipped (add_request r) else on_waiting (add_request r).

(** The two waiting queues. *)
Inductive which_queue : Set := FromWaiting | FromSkipped.
Definition on_queue {A} (w : which_queue) (m : M Q A) : M Scheduler A :=
  match w with FromWaiting => on_waiting m | FromSkipped => on_skipped m end.

Section config.
Context (c : SchedConfig) (grammar_ready : Z → bool) (set_order : list Z → list Z).

Definition _select_waiting_queue_for_scheduling : M Scheduler (option which_queue) :=
  w ← on_waiting queue_bool;
  k ← on_skipped queue_bool;
  match policy c with
  | FCFS => mret (if (k : bool) then Some FromSkipped else if (w : bool) then Some FromWaiting else None)
  | PRIORITY =>
      if (w : bool) && (k : bool) then
        waiting_req ← on_waiting peek_request;
        skipped_req ← on_skipped peek_request;
        mret (Some (if request_lt waiting_req skipped_req then FromWaiting else FromSkipped))
      else mret (if (w : bool) then Some FromWaiting else if (k : bool) then Some FromSkipped else None)
  end.

(** Without a connector no request is ever received from a remote cache, and
    without sessions none waits for streaming input. *)
Definition _try_promote_blocked_waiting_request (o : Z) : M Scheduler bool :=
  obj o ≫= λ r : SRequest,
  match status r with
  | WAITING_FOR_REMOTE_KVS => mret false
  | WAITING_FOR_STRUCTURED_OUTPUT_GRAMMAR =>
      if negb (grammar_ready o) then mret false
      else upd o (on_req (λ r, set_status WAITING (stop_reason r) r)) ;; mret true
  | WAITING_FOR_STREAMING_REQ => mret false
  | _ => raise AssertionError
  end.

(** ** Preemption *)

Definition preempted (r : Request) : Request :=
  set_preemptions (num_preemptions r + 1) (set_spec [] (set_computed 0
    (set_status PREEMPTED (stop_reason r) r))).

Definition _preempt_request (o : Z) : M Scheduler unit :=
  obj o ≫= λ r : SRequest,
  py_assert (bool_decide (status r = RUNNING)) ;;
  on_kv (kv_free r) ;;
  on_enc (free_inputs set_order r) ;;
  upd o (on_req preempted) ;;
  on_waiting (prepend_request r).

(** ** Arrivals and departures *)

(** A second request with the id of a live one is refused by an assertion. *)
Definition add_request_ (r : SRequest) : M Scheduler unit :=
  s ← get;
  match od_get (request_id r) (requests s) with
  | Some _ => raise AssertionError
  | None =>
      put (set_objects (<[req_obj r := r]> (objects s)) s) ;;
      _enqueue_waiting_request r ;;
      modify (λ s, set_requests (od_set (request_id r) (req_obj r) (requests s)) s)
  end.

Definition _free_blocks (o : Z) : M Scheduler unit :=
  obj o ≫= λ r : SRequest,
  py_assert (is_finished r) ;;
  on_kv (kv_free r) ;;
  s ← get;
  if od_mem (request_id r) (requests s)
  then put (set_requests (od_del (request_id r) (requests s)) s)
  else raise KeyError.

Definition _free_request (o : Z) : M Scheduler unit :=
  obj o ≫= λ r : SRequest,
  py_assert (is_finished r) ;;
  on_enc (free_inputs set_order r) ;;
  modify (λ s, set_finished_ids ({[request_id r]} ∪ finished_req_ids s) s) ;;
  _free_blocks o.

(** The request an id names, unless it is finished. *)
Definition live_request (s : Scheduler) (rid : string) : option (Z * SRequest) :=
  match od_get rid (requests s) with
  | None => None
  | Some o =>
      match (objects s !! o : option SRequest) with
      | Some r => if is_finished r then None else Some (o, r)
      | None => None
      end
  end.

(** [request_ids] is the set of ids in iteration order; [None] is every request.
    The answer leaves out the client index. *)
Definition finish_requests (request_ids : option (list string)) (finished_status : RequestStatus)
    : M Scheduler (list string) :=
  py_assert (status_is_finished finished_status) ;;
  s ← get;
  let valid := omap (live_request s) (default (requests s).*1 request_ids) in
  let running_ := filter (λ e : Z * SRequest, status e.2 = RUNNING) valid in
  let others := filter (λ e : Z * SRequest, status e.2 ≠ RUNNING) valid in
  modify (λ s, set_running (remove_all (running s) (list_to_set running_.*1)) s) ;;
  when (negb (is_nil others)) (
    on_waiting (remove_requests ((λ e : Z * SRequest, req_args e.2) <$> others)) ;;
    on_skipped (remove_requests ((λ e : Z * SRequest, req_args e.2) <$> others))) ;;
  foreach valid (λ e,
    upd e.1 (on_req (λ r, set_status finished_status (stop_reason r) r)) ;;
    _free_request e.1) ;;
  mret ((λ e : Z * SRequest, request_id e.2) <$> valid).

(** ** Counters and pauses *)

Definition get_request_counts : M Scheduler (Z * Z) :=
  s ← get;
  w ← on_waiting queue_len;
  k ← on_skipped queue_len;
  mret (zlen (running s), w + k).

Definition get_num_unfinished_requests : M Scheduler Z :=
  s ← get;
  match pause_state s with
  | PAUSED_ALL => mret 0
  | PAUSED_NEW => mret (zlen (running s))
  | UNPAUSED =>
      w ← on_waiting queue_len;
      k ← on_skipped queue_len;
      mret (w + k + zlen (running s))
  end.

Definition has_finished_requests (s : Scheduler) : bool := bool_decide (finished_req_ids s ≠ ∅).

(** ** Resetting the prefix cache *)

(** [while self.running]: the last running request first. *)
Fixpoint preempt_all (fuel : nat) : M Scheduler unit :=
  s ← get;
  match last (running s) with
  | None => mret tt
  | Some o =>
      match fuel with
      | O => raise OutOfFuel
      | S fuel =>
          put (set_running (removelast (running s)) s) ;;
          _preempt_request o ;;
          upd o (λ r, on_req (set_placeholders 0) (set_discard (num_output_placeholders r) r)) ;;
          preempt_all fuel
      end
  end.

Definition sched_reset_prefix_cache (reset_running_requests : bool) : M Scheduler bool :=
  s ← get;
  when reset_running_requests (
    preempt_all (length (running s)) ;;
    modify (set_prev_ids ∅)) ;;
  reset_successful ← on_kv kv_reset_prefix_cache;
  if reset_running_requests && negb reset_successful then raise RuntimeError
  else mret reset_successful.
End config.
End scheduler.
Arguments Scheduler Q K E : clear implicits.
