(* ===== verification/Schedule.v ===== *)
(** * One scheduling step

    [Scheduler.schedule] of [vllm/v1/core/sched/scheduler.py]: the running requests
    first, preempting others when the cache is full, then the waiting ones, until
    the token budget is used; then the output for the workers, and the requests
    advanced by what was scheduled.  The local variables of the method are the
    record [Step]. *)

From S2P Require Import Prelude.
From S2P Require Import OrderedDict.
From S2P Require Import FreeQueue.
From S2P Require Import Request.
From S2P Require Import BlockHash.
From S2P Require Import RequestQueue.
From S2P Require Import SchedUtils.
From S2P Require Import SchedPrefill.
From S2P Require Import EncoderCache.
From S2P Require Import SchedEncoder.
From S2P Require Import KVManager.
From S2P Require Import MixedPrefill.
From S2P Require Import SchedInterface.
From S2P Require Import Sched.
Local Open Scope Z_scope.

(** The data of a request the workers see for the first time. *)
Record NewRequestData : Type := mkNewData {
  nr_request : RequestArgs;
  nr_block_ids : option (list (list Z));
  nr_num_computed_tokens : Z;
  nr_prefill_token_ids : option (list Z);
}.

Record CachedRequestData : Type := mkCachedData {
  cr_req_ids : list string;
  cr_resumed_req_ids : gset string;
  cr_new_token_ids : list (list Z);
  cr_all_token_ids : list (string * list Z);
  cr_new_block_ids : list (option (list (list Z)));
  cr_num_computed_tokens : list Z;
  cr_num_output_tokens : list Z;
}.

Record SchedulerOutput : Type := mkOutput {
  so_new_reqs : list NewRequestData;
  so_cached_reqs : CachedRequestData;
  so_num_scheduled_tokens : list (string * Z);
  so_total_num_scheduled_tokens : Z;
  so_mixed_prefill_tokens : Z;
  so_mixed_decode_tokens : Z;
  so_mixed_prefill_budget : Z;
  so_spec_decode_tokens : list (string * list Z);
  so_encoder_inputs : list (string * list Z);
  so_num_common_prefix_blocks : list Z;
  so_preempted_req_ids : list string;
  so_finished_req_ids : gset string;
  so_free_encoder_mm_hashes : list string;
  so_new_block_ids_to_zero : option (list Z);
  so_kv_block_copies : option (list (Z * Z));
}.

(** [x or None] of a list *)
Definition or_none {A} (l : list A) : option (list A) := match l with [] => None | _ => Some l end.

(** [sum(d.values())] *)
Definition dict_sum (d : list (string * Z)) : Z := foldr (λ e acc, e.2 + acc) 0 d.

Section schedule.
Context {Q K E : Type} `{!RequestQueue Q} `{!KVCache K} `{!EncoderCache E}.
Context (c : SchedConfig) (grammar_ready : Z → bool) (set_order : list Z → list Z).

Abbreviation Sch := (Scheduler Q K E).

(** ** The local variables *)

Record Step : Type := mkStep {
  scheduled_new_reqs : list Z;
  scheduled_resumed_reqs : list Z;
  scheduled_running_reqs : list Z;
  preempted_reqs : list Z;
  req_to_new_blocks : list (string * KVCacheBlocks);
  num_scheduled_tokens : list (string * Z);
  token_budget : Z;
  prefill_remaining : list (string * Z);
  scheduled_encoder_inputs : list (string * list Z);
  encoder_compute_budget : Z;
  scheduled_spec_decode_tokens : list (string * list Z);
  scheduled_loras : gset Z;
  req_index : Z;
  step_skipped_waiting : Q;
}.
Definition set_new (v : list Z) (x : Step) : Step :=
  mkStep v (scheduled_resumed_reqs x) (scheduled_running_reqs x) (preempted_reqs x)
    (req_to_new_blocks x) (num_scheduled_tokens x) (token_budget x) (prefill_remaining x)
    (scheduled_encoder_inputs x) (encoder_compute_budget x) (scheduled_spec_decode_tokens x)
    (scheduled_loras x) (req_index x) (step_skipped_waiting x).
Definition set_resumed (v : list Z) (x : Step) : Step :=
  mkStep (scheduled_new_reqs x) v (scheduled_running_reqs x) (preempted_reqs x)
    (req_to_new_blocks x) (num_scheduled_tokens x) (token_budget x) (prefill_remaining x)
    (scheduled_encoder_inputs x) (encoder_compute_budget x) (scheduled_spec_decode_tokens x)
    (scheduled_loras x) (req_index x) (step_skipped_waiting x).
Definition set_running_reqs (v : list Z) (x : Step) : Step :=
  mkStep (scheduled_new_reqs x) (scheduled_resumed_reqs x) v (preempted_reqs x)
    (req_to_new_blocks x) (num_scheduled_tokens x) (token_budget x) (prefill_remaining x)
    (scheduled_encoder_inputs x) (encoder_compute_budget x) (scheduled_spec_decode_tokens x)
    (scheduled_loras x) (req_index x) (step_skipped_waiting x).
Definition set_preempted (v : list Z) (x : Step) : Step :=
  mkStep (scheduled_new_reqs x) (scheduled_resumed_reqs x) (scheduled_running_reqs x) v
    (req_to_new_blocks x) (num_scheduled_tokens x) (token_budget x) (prefill_remaining x)
    (scheduled_encoder_inputs x) (encoder_compute_budget x) (scheduled_spec_decode_tokens x)
    (scheduled_loras x) (req_index x) (step_skipped_waiting x).
Definition set_new_blocks (v : list (string * KVCacheBlocks)) (x : Step) : Step :=
  mkStep (scheduled_new_reqs x) (scheduled_resumed_reqs x) (scheduled_running_reqs x)
    (preempted_reqs x) v (num_scheduled_tokens x) (token_budget x) (prefill_remaining x)
    (scheduled_encoder_inputs x) (encoder_compute_budget x) (scheduled_spec_decode_tokens x)
    (scheduled_loras x) (req_index x) (step_skipped_waiting x).
Definition set_scheduled (v : list (string * Z)) (x : Step) : Step :=
  mkStep (scheduled_new_reqs x) (scheduled_resumed_reqs x) (scheduled_running_reqs x)
    (preempted_reqs x) (req_to_new_blocks x) v (token_budget x) (prefill_remaining x)
    (scheduled_encoder_inputs x) (encoder_compute_budget x) (scheduled_spec_decode_tokens x)
    (scheduled_loras x) (req_index x) (step_skipped_waiting x).
Definition set_budget (v : Z) (x : Step) : Step :=
  mkStep (scheduled_new_reqs x) (scheduled_resumed_reqs x) (scheduled_running_reqs x)
    (preempted_reqs x) (req_to_new_blocks x) (num_scheduled_tokens x) v (prefill_remaining x)
    (scheduled_encoder_inputs x) (encoder_compute_budget x) (scheduled_spec_decode_tokens x)
    (scheduled_loras x) (req_index x) (step_skipped_waiting x).
Definition set_prefill (v : list (string * Z)) (x : Step) : Step :=
  mkStep (scheduled_new_reqs x) (scheduled_resumed_reqs x) (scheduled_running_reqs x)
    (preempted_reqs x) (req_to_new_blocks x) (num_scheduled_tokens x) (token_budget x) v
    (scheduled_encoder_inputs x) (encoder_compute_budget x) (scheduled_spec_decode_tokens x)
    (scheduled_loras x) (req_index x) (step_skipped_waiting x).
Definition set_enc_inputs (v : list (string * list Z)) (x : Step) : Step :=
  mkStep (scheduled_new_reqs x) (scheduled_resumed_reqs x) (scheduled_running_reqs x)
    (preempted_reqs x) (req_to_new_blocks x) (num_scheduled_tokens x) (token_budget x)
    (prefill_remaining x) v (encoder_compute_budget x) (scheduled_spec_decode_tokens x)
    (scheduled_loras x) (req_index x) (step_skipped_waiting x).
Definition set_enc_budget (v : Z) (x : Step) : Step :=
  mkStep (scheduled_new_reqs x) (scheduled_resumed_reqs x) (scheduled_running_reqs x)
    (preempted_reqs x) (req_to_new_blocks x) (num_scheduled_tokens x) (token_budget x)
    (prefill_remaining x) (scheduled_encoder_inputs x) v (scheduled_spec_decode_tokens x)
    (scheduled_loras x) (req_index x) (step_skipped_waiting x).
Definition set_spec_tokens (v : list (string * list Z)) (x : Step) : Step :=
  mkStep (scheduled_new_reqs x) (scheduled_resumed_reqs x) (scheduled_running_reqs x)
    (preempted_reqs x) (req_to_new_blocks x) (num_scheduled_tokens x) (token_budget x)
    (prefill_remaining x) (scheduled_encoder_inputs x) (encoder_compute_budget x) v
    (scheduled_loras x) (req_index x) (step_skipped_waiting x).
Definition set_loras (v : gset Z) (x : Step) : Step :=
  mkStep (scheduled_new_reqs x) (scheduled_resumed_reqs x) (scheduled_running_reqs x)
    (preempted_reqs x) (req_to_new_blocks x) (num_scheduled_tokens x) (token_budget x)
    (prefill_remaining x) (scheduled_encoder_inputs x) (encoder_compute_budget x)
    (scheduled_spec_decode_tokens x) v (req_index x) (step_skipped_waiting x).
Definition set_index (v : Z) (x : Step) : Step :=
  mkStep (scheduled_new_reqs x) (scheduled_resumed_reqs x) (scheduled_running_reqs x)
    (preempted_reqs x) (req_to_new_blocks x) (num_scheduled_tokens x) (token_budget x)
    (prefill_remaining x) (scheduled_encoder_inputs x) (encoder_compute_budget x)
    (scheduled_spec_decode_tokens x) (scheduled_loras x) v (step_skipped_waiting x).
Definition set_step_skipped (v : Q) (x : Step) : Step :=
  mkStep (scheduled_new_reqs x) (scheduled_resumed_reqs x) (scheduled_running_reqs x)
    (preempted_reqs x) (req_to_new_blocks x) (num_scheduled_tokens x) (token_budget x)
    (prefill_remaining x) (scheduled_encoder_inputs x) (encoder_compute_budget x)
    (scheduled_spec_decode_tokens x) (scheduled_loras x) (req_index x) v.

(** The scheduler and the locals of the step. *)
Record Loop : Type := mkLoop { sch : Sch; stp : Step }.
Definition on_sch {A} (m : M Sch A) : M Loop A := zoom sch (λ v l, mkLoop v (stp l)) m.
Definition on_step (f : Step → Step) : M Loop unit := modify (λ l, mkLoop (sch l) (f (stp l))).
Definition on_step_skipped {A} (m : M Q A) : M Loop A :=
  zoom (λ l, step_skipped_waiting (stp l)) (λ v l, mkLoop (sch l) (set_step_skipped v (stp l))) m.

(** What the step computes once, before it schedules anything. *)
Record StepSettings : Type := mkSettings {
  resident_tokens : list (string * Z);
  control_mixed_prefill : bool;
  long_prefill_token_threshold : Z;
}.

(** The objects of references. *)
Definition objects_of (s : Sch) (os : list Z) : list SRequest := omap (λ o, objects s !! o) os.
Definition running_reqs (s : Sch) : list SRequest := objects_of s (running s).

(** The prompt tokens, and the tokens to recompute after a preemption, still to
    be computed. *)
Definition prefill_left (r : Request) (computed : Z) : Z := Z.max 0 (prefill_end r - computed).

Definition resident (step : Z) (r : SRequest) : Z :=
  if (prefill_left r (num_computed_tokens r) =? 0) && (0 <? num_output_tokens r) &&
     (next_decode_eligible_step r <=? step)
  then Z.max 0 (num_tokens_with_spec r + num_output_placeholders r - num_computed_tokens r) else 0.

Definition step_settings (s : Sch) (num_waiting num_skipped : Z) : StepSettings :=
  let residents := filter (λ e : string * Z, 0 < e.2)
    ((λ r : SRequest, (request_id r, resident (current_step s) r)) <$> running_reqs s) in
  let num_eligible_reqs := zlen (running s) + num_waiting + num_skipped in
  let threshold := if 1 <? num_eligible_reqs then config_long_prefill_token_threshold c else 0 in
  mkSettings residents
    (mixed_prefill_enabled c && negb (is_nil residents) && mixed_prefill_latency_set c &&
     enable_chunked_prefill c && negb (disable_chunked_mm_input c) &&
     (pipeline_parallel_size c =? 1) && negb (is_encoder_decoder c))
    (if (0 <? threshold) && adaptive_long_prefill_threshold c
     then Z.max threshold (max_num_scheduled_tokens c / num_eligible_reqs) else threshold).

Definition initial_step (s : Sch) : Step :=
  mkStep [] [] [] [] [] []
    (if bool_decide (pause_state s = PAUSED_ALL) then 0 else max_num_scheduled_tokens c)
    ((λ r : SRequest, (request_id r, prefill_left r (num_computed_tokens r))) <$> running_reqs s)
    [] (max_num_encoder_input_tokens c) [] ∅ 0 empty_queue.

Section step.
Context (g : StepSettings).

(** [limit_prefill] *)
Definition limit_prefill (mixed_tokens : Z) (st : Step) (req_id : string) (tokens : Z) : Z :=
  let left rid := default 0 (od_get rid (prefill_remaining st)) in
  if negb (control_mixed_prefill g) || (left req_id <=? 0) then tokens
  else
    let used := dict_sum ((λ e, (e.1, Z.min e.2 (left e.1))) <$> num_scheduled_tokens st) in
    let reserve := dict_sum (filter (λ e, od_get e.1 (num_scheduled_tokens st) = None) (resident_tokens g)) in
    Z.max 0 (Z.min tokens (Z.min (mixed_tokens - used) (token_budget st - reserve))).

Definition apply_threshold (n : Z) : Z :=
  if (0 <? long_prefill_token_threshold g) && (long_prefill_token_threshold g <? n)
  then long_prefill_token_threshold g else n.

(** Encoder inputs and block alignment, the same for running and waiting
    requests: the inputs to compute, the tokens, the budget left and the inputs
    to load. *)
Definition encoder_part (r : Request) (computed n : Z) : M Loop (list Z * Z * Z * list Z) :=
  l ← get;
  if has_encoder_inputs r then
    on_sch (on_enc (_try_schedule_encoder_inputs (is_encoder_decoder c) (disable_chunked_mm_input c) None
      r computed n (encoder_compute_budget (stp l)) (if use_eagle (prefill c) then 1 else 0)))
  else mret ([], n, encoder_compute_budget (stp l), []).

Definition align_part (r : Request) (n local_computed : Z) : M Loop Z :=
  l ← get;
  if need_mamba_block_aligned_split (prefill c) then
    w ← on_sch (on_waiting queue_len);
    mret (_mamba_block_aligned_split (prefill c) (kv_partial_prefix_stops r (kv_state (sch l)))
            (zlen (running (sch l)) + w) r n local_computed 0)
  else mret n.

(** ** Running requests *)

(** The next step is sure to be the last one already. *)
Definition at_max_tokens (r : Request) : bool :=
  (0 <? num_output_placeholders r) &&
  (num_prompt_tokens r + max_tokens r <=? num_computed_tokens r + 2 - num_output_placeholders r).

Definition running_tokens (l : Loop) (r : Request) : Z :=
  let n := num_tokens_with_spec r + num_output_placeholders r - num_computed_tokens r in
  let n := Z.min (apply_threshold n) (token_budget (stp l)) in
  let n := _balanced_prefill_chunk (prefill c) r (num_computed_tokens r) n in
  let n := limit_prefill (mp_tokens (mixed_prefill_budget (sch l))) (stp l) (request_id r) n in
  Z.min n (sc_max_model_len c - 1 - num_computed_tokens r).

(** [max(self.running, key=lambda r: (r.priority, r.arrival_time))]: the first of
    the greatest. *)
Definition key_lt (a b : RequestArgs) : bool :=
  (priority a <? priority b) || (priority a =? priority b) && (arrival_time a <? arrival_time b).
Fixpoint max_running (s : Sch) (best : Z * SRequest) (l : list Z) : Z :=
  match l with
  | [] => best.1
  | o :: l =>
      match (objects s !! o : option SRequest) with
      | Some r => max_running s (if key_lt (req_args best.2) (req_args r) then (o, r) else best) l
      | None => max_running s best l
      end
  end.

(** A victim that was scheduled in this step gives back what it got. *)
Definition undo_scheduled (victim : Z) : M Loop unit :=
  on_sch (obj victim) ≫= λ r : SRequest,
  let rid := request_id r in
  on_step (λ st, set_running_reqs (list_remove victim (scheduled_running_reqs st)) st) ;;
  l ← get;
  n ← of_option KeyError (od_get rid (num_scheduled_tokens (stp l)));
  on_step (λ st, set_budget (token_budget st + n) (set_scheduled (od_del rid (num_scheduled_tokens st)) st)) ;;
  (if od_mem rid (req_to_new_blocks (stp l)) then mret tt else raise KeyError) ;;
  on_step (λ st, set_new_blocks (od_del rid (req_to_new_blocks st))
                   (set_spec_tokens (od_del rid (scheduled_spec_decode_tokens st)) st)) ;;
  embeds ← foldM (λ acc i, e ← get_num_encoder_embeds r i; mret (acc + e))
    (default [] (od_get rid (scheduled_encoder_inputs (stp l)))) 0;
  on_step (λ st, set_index (req_index st - 1)
    (set_enc_budget (encoder_compute_budget st + embeds)
      (set_enc_inputs (od_del rid (scheduled_encoder_inputs st)) st))).

Definition pop_victim : M Loop Z :=
  l ← get;
  let s := sch l in
  match policy c with
  | PRIORITY =>
      first ← of_option ValueError (head (running s));
      on_sch (obj first) ≫= λ r : SRequest,
      let victim := max_running s (first, r) (tail (running s)) in
      on_sch (put (set_running (list_remove victim (running s)) s)) ;;
      when (bool_decide (victim ∈ scheduled_running_reqs (stp l))) (undo_scheduled victim) ;;
      mret victim
  | FCFS =>
      victim ← of_option IndexError (last (running s));
      on_sch (put (set_running (removelast (running s)) s)) ;;
      mret victim
  end.

Definition running_args (n : Z) : AllocateArgs :=
  mkAllocate n 0 EmptyBlocks (config_num_lookahead_tokens c) 0 false 0 false.

(** Allocate the slots, preempting requests until they fit or the request itself
    has been preempted.  Each round takes a request off the running list. *)
Fixpoint allocate_or_preempt (fuel : nat) (o n : Z) : M Loop (option KVCacheBlocks) :=
  match fuel with
  | O => raise OutOfFuel
  | S fuel =>
      new_blocks ← on_sch (kv_call o (λ r, kv_allocate_slots r (running_args n)));
      match new_blocks with
      | Some b => mret (Some b)
      | None =>
          victim ← pop_victim;
          on_sch (_preempt_request set_order victim) ;;
          on_step (λ st, set_preempted (preempted_reqs st ++ [victim]) st) ;;
          if victim =? o then mret None else allocate_or_preempt fuel o n
      end
  end.

Definition next_index : M Loop unit := on_step (λ st, set_index (req_index st + 1) st).

(** The draft tokens that fit, the others are dropped. *)
Definition schedule_spec_tokens (o n : Z) : M Loop unit :=
  on_sch (obj o) ≫= λ r : SRequest,
  if is_nil (spec_token_ids r) then mret tt
  else
    let num_scheduled_spec_tokens :=
      n + num_computed_tokens r - num_tokens r - num_output_placeholders r in
    when (0 <? num_scheduled_spec_tokens) (on_step (λ st,
      set_spec_tokens (od_set (request_id r) (py_slice (spec_token_ids r) 0 num_scheduled_spec_tokens)
                         (scheduled_spec_decode_tokens st)) st)) ;;
    on_sch (upd o (on_req (set_spec []))).

(** The encoder inputs of a scheduled request. *)
Definition schedule_encoder (o : Z) (inputs external : list Z) (new_budget : Z) : M Loop unit :=
  on_sch (obj o) ≫= λ r : SRequest,
  when (negb (is_nil inputs)) (
    on_step (λ st, set_enc_inputs (od_set (request_id r) inputs (scheduled_encoder_inputs st)) st) ;;
    on_sch (on_enc (foreach inputs (λ i, allocate r i))) ;;
    on_step (set_enc_budget new_budget)) ;;
  on_sch (on_enc (foreach external (λ i, allocate r i))).

(** Book [n] tokens for the request. *)
Definition book (rid : string) (b : KVCacheBlocks) (n : Z) (st : Step) : Step :=
  set_budget (token_budget st - n)
    (set_scheduled (od_set rid n (num_scheduled_tokens st))
      (set_new_blocks (od_set rid b (req_to_new_blocks st)) st)).

(** One turn of the first loop; [false] leaves it. *)
Definition running_turn : M Loop bool :=
  l ← get;
  o ← of_option IndexError (py_get (running (sch l)) (req_index (stp l)));
  on_sch (obj o) ≫= λ r : SRequest,
  if (current_step (sch l) <? next_decode_eligible_step r) || at_max_tokens r
  then next_index ;; mret true
  else
    '(inputs, n, new_budget, external) ← encoder_part r (num_computed_tokens r) (running_tokens l r);
    n ← align_part r n 0;
    if n =? 0 then next_index ;; mret true
    else
      l ← get;
      new_blocks ← allocate_or_preempt (S (length (running (sch l)))) o n;
      match new_blocks with
      | None => mret false
      | Some b =>
          on_step (λ st, set_running_reqs (scheduled_running_reqs st ++ [o]) st) ;;
          on_step (book (request_id r) b n) ;;
          next_index ;;
          schedule_spec_tokens o n ;;
          schedule_encoder o inputs external new_budget ;;
          mret true
      end.

(** [while req_index < len(self.running) and token_budget > 0] *)
Fixpoint running_loop (fuel : nat) : M Loop unit :=
  l ← get;
  if (req_index (stp l) <? zlen (running (sch l))) && (0 <? token_budget (stp l)) then
    match fuel with
    | O => raise OutOfFuel
    | S fuel =>
        more ← running_turn;
        if (more : bool) then running_loop fuel else mret tt
    end
  else mret tt.

(** The LoRA adapters of the scheduled running requests. *)
Definition lora_ids (s : Sch) (os : list Z) : gset Z :=
  list_to_set (omap (λ o,
    match (objects s !! o : option SRequest) with
    | Some r => match lora_request r with
                | Some a => if 0 <? lora_int_id a then Some (lora_int_id a) else None
                | None => None
                end
    | None => None
    end) os).

Definition record_loras : M Loop unit :=
  l ← get;
  match max_loras c with
  | None => mret tt
  | Some n =>
      let ids := lora_ids (sch l) (scheduled_running_reqs (stp l)) in
      py_assert (Z.of_nat (size ids) <=? n) ;;
      on_step (set_loras ids)
  end.

(** ** Waiting requests *)

Definition over_max_loras (st : Step) (r : Request) : bool :=
  match max_loras c, lora_request r with
  | Some n, Some a =>
      (Z.of_nat (size (scheduled_loras st)) =? n) && negb (bool_decide (lora_int_id a ∈ scheduled_loras st))
  | _, _ => false
  end.

(** Take the request off its queue and set it aside for this step. *)
Definition skip_waiting (w : which_queue) : M Loop bool :=
  r ← on_sch (on_queue w pop_request);
  on_step_skipped (prepend_request r) ;;
  mret true.

(** The computed blocks, their tokens, and the tokens computed in all. *)
Definition cached_part (o : Z) : M Loop (KVCacheBlocks * Z * Z) :=
  on_sch (obj o) ≫= λ r : SRequest,
  if num_computed_tokens r =? 0 then
    '(b, n) ← on_sch (kv_call o kv_get_computed_blocks);
    py_assert (n <=? num_tokens r) ;;
    py_assert (negb (prefill_stats_pending r) || (n <=? num_prompt_tokens r)) ;;
    mret (b, n, n)
  else mret (EmptyBlocks, 0, num_computed_tokens r).

(** The tokens of a waiting request; [None] stops the loop. *)
Definition waiting_tokens (r : Request) (computed : Z) : M Loop (option Z) :=
  l ← get;
  let n := apply_threshold (num_tokens r - computed) in
  if negb (enable_chunked_prefill c) && (token_budget (stp l) <? n) then mret None
  else
    let n := Z.min n (token_budget (stp l)) in
    py_assert (0 <? n) ;;
    let n := _balanced_prefill_chunk (prefill c) r computed n in
    on_step (λ st, set_prefill (od_set (request_id r) (prefill_left r computed) (prefill_remaining st)) st) ;;
    l ← get;
    let n := limit_prefill (mp_tokens (mixed_prefill_budget (sch l))) (stp l) (request_id r) n in
    mret (if n =? 0 then None else Some n).

(** [sum(request.get_num_encoder_embeds(i) for i in inputs)] for cross attention *)
Definition cross_tokens (r : Request) (inputs : list Z) : M Loop Z :=
  if is_encoder_decoder c && has_encoder_inputs r && negb (is_nil inputs)
  then foldM (λ acc i, e ← get_num_encoder_embeds r i; mret (acc + e)) inputs 0
  else mret 0.

Definition waiting_args (n hit : Z) (b : KVCacheBlocks) (encoder_tokens : Z) : AllocateArgs :=
  mkAllocate n hit b (config_num_lookahead_tokens c) 0 false encoder_tokens (scheduler_reserve_full_isl c).

(** The request starts to run. *)
Definition enter_running (w : which_queue) (o n computed : Z) (inputs external : list Z) (new_budget : Z)
    : M Loop unit :=
  on_sch (on_queue w pop_request) ;;
  on_sch (modify (λ s, set_running (running s ++ [o]) s)) ;;
  on_sch (obj o) ≫= λ r : SRequest,
  match status r with
  | WAITING => on_step (λ st, set_new (scheduled_new_reqs st ++ [o]) st)
  | PREEMPTED => on_step (λ st, set_resumed (scheduled_resumed_reqs st ++ [o]) st)
  | _ => raise RuntimeError
  end ;;
  match max_loras c, lora_request r with
  | Some _, Some a => on_step (λ st, set_loras ({[lora_int_id a]} ∪ scheduled_loras st) st)
  | _, _ => mret tt
  end ;;
  l ← get;
  on_step (book (request_id r) (kv_get_blocks (request_id r) (kv_state (sch l))) n) ;;
  on_sch (upd o (on_req (λ r, set_computed computed (set_status RUNNING (stop_reason r) r)))) ;;
  schedule_encoder o inputs external new_budget.

(** One turn of the second loop, after the request has been found admissible. *)
Definition schedule_waiting (w : which_queue) (o : Z) : M Loop bool :=
  '(b, hit, computed) ← cached_part o;
  on_sch (obj o) ≫= λ r : SRequest,
  n ← waiting_tokens r computed;
  match n with
  | None => mret false
  | Some n =>
      '(inputs, n, new_budget, external) ← encoder_part r computed n;
      if n =? 0 then mret false
      else
        n ← align_part r n hit;
        if n =? 0 then mret false
        else
          encoder_tokens ← cross_tokens r inputs;
          new_blocks ← on_sch (kv_call o (λ r, kv_allocate_slots r (waiting_args n hit b encoder_tokens)));
          match new_blocks with
          | None =>
              when (has_encoder_inputs r) (on_sch (on_enc (free_inputs set_order r))) ;;
              mret false
          | Some _ => enter_running w o n computed inputs external new_budget ;; mret true
          end
  end.

Definition waiting_turn : M Loop bool :=
  w ← on_sch (_select_waiting_queue_for_scheduling c);
  w ← of_option AssertionError w;
  request ← on_sch (on_queue w peek_request);
  let o := req_obj request in
  on_sch (obj o) ≫= λ r : SRequest,
  schedulable ← (if _is_blocked_waiting_status (status r)
                 then on_sch (_try_promote_blocked_waiting_request grammar_ready o) else mret true);
  l ← get;
  if negb schedulable || over_max_loras (stp l) r then skip_waiting w else schedule_waiting w o.

(** [while (self.waiting or self.skipped_waiting) and token_budget > 0] *)
Fixpoint waiting_loop (fuel : nat) : M Loop unit :=
  l ← get;
  some_waiting ← on_sch (on_waiting queue_bool);
  some_skipped ← on_sch (on_skipped queue_bool);
  if ((some_waiting : bool) || (some_skipped : bool)) && (0 <? token_budget (stp l)) &&
     negb (zlen (running (sch l)) =? max_num_running_reqs c)
  then
    match fuel with
    | O => raise OutOfFuel
    | S fuel =>
        more ← waiting_turn;
        if (more : bool) then waiting_loop fuel else mret tt
    end
  else mret tt.

Definition schedule_waiting_reqs : M Loop unit :=
  l ← get;
  if is_nil (preempted_reqs (stp l)) && bool_decide (pause_state (sch l) = UNPAUSED) then
    num_waiting ← on_sch (on_waiting queue_len);
    num_skipped ← on_sch (on_skipped queue_len);
    waiting_loop (Z.to_nat (num_waiting + num_skipped)) ;;
    some_skipped ← on_step_skipped queue_bool;
    if (some_skipped : bool) then
      skipped ← on_step_skipped queue_iter;
      on_sch (on_skipped (prepend_requests skipped))
    else mret tt
  else mret tt.

(** ** The output *)

(** The assertions after the loops. *)
Definition check_constraints : M Loop unit :=
  l ← get;
  let st := stp l in
  py_assert (dict_sum (num_scheduled_tokens st) <=? max_num_scheduled_tokens c) ;;
  py_assert (0 <=? token_budget st) ;;
  py_assert (zlen (running (sch l)) <=? max_num_running_reqs c) ;;
  py_assert (zlen (scheduled_new_reqs st) + zlen (scheduled_resumed_reqs st) +
             zlen (scheduled_running_reqs st) <=? zlen (running (sch l))).

Definition common_prefix_blocks : M Sch (list Z) :=
  s ← get;
  match running s with
  | [] => mret (replicate (num_kv_groups c) 0)
  | o :: _ => obj o ≫= λ r : SRequest, on_kv (kv_get_num_common_prefix_blocks (request_id r))
  end.

(** The ids of the blocks handed to a request in this step. *)
Definition new_block_ids (st : Step) (rid : string) (allow_none : bool) : M Sch (option (list (list Z))) :=
  b ← of_option KeyError (od_get rid (req_to_new_blocks st));
  s ← get;
  mret (kv_get_block_ids b allow_none (kv_state s)).

Definition new_request_data (st : Step) (o : Z) : M Sch NewRequestData :=
  obj o ≫= λ r : SRequest,
  ids ← new_block_ids st (request_id r) false;
  mret (mkNewData (req_args r) ids (num_computed_tokens r)
          (if use_v2_model_runner c then Some (_all_token_ids r) else None)).

(** One request of [_make_cached_request_data]; [resumed] says that it is in the
    second of the chained lists. *)
Definition cached_request (st : Step) (acc : CachedRequestData) (e : Z * bool) : M Sch CachedRequestData :=
  let '(o, resumed) := e in
  obj o ≫= λ r : SRequest,
  s ← get;
  let rid := request_id r in
  new_tokens ←
    (if (1 <? pipeline_parallel_size c) && negb (async_scheduling c) then
       n ← of_option KeyError (od_get rid (num_scheduled_tokens st));
       let n := n - zlen (default [] (od_get rid (scheduled_spec_decode_tokens st))) in
       mret [py_slice (_all_token_ids r) (num_computed_tokens r) (num_computed_tokens r + n)]
     else mret []);
  let scheduled_in_prev_step := bool_decide (rid ∈ prev_step_scheduled_req_ids s) in
  py_assert (negb (resumed && scheduled_in_prev_step)) ;;
  ids ← new_block_ids st rid true;
  mret (mkCachedData (cr_req_ids acc ++ [rid])
    (if resumed then {[rid]} ∪ cr_resumed_req_ids acc else cr_resumed_req_ids acc)
    (cr_new_token_ids acc ++ new_tokens)
    (if negb scheduled_in_prev_step && negb (use_v2_model_runner c)
     then od_set rid (_all_token_ids r) (cr_all_token_ids acc) else cr_all_token_ids acc)
    (cr_new_block_ids acc ++ [ids])
    (cr_num_computed_tokens acc ++ [num_computed_tokens r])
    (cr_num_output_tokens acc ++ [num_output_tokens r + num_output_placeholders r])).

Definition _make_cached_request_data (st : Step) (running_ resumed : list Z) : M Sch CachedRequestData :=
  foldM (cached_request st) (((λ o, (o, false)) <$> running_) ++ ((λ o, (o, true)) <$> resumed))
    (mkCachedData [] ∅ [] [] [] [] []).

Definition make_output (st : Step) : M Sch SchedulerOutput :=
  common ← common_prefix_blocks;
  let new := if use_v2_model_runner c then scheduled_new_reqs st ++ scheduled_resumed_reqs st
             else scheduled_new_reqs st in
  let resumed := if use_v2_model_runner c then [] else scheduled_resumed_reqs st in
  new_data ← mapM_list (new_request_data st) new;
  cached_data ← _make_cached_request_data st (scheduled_running_reqs st) resumed;
  modify (set_prev_ids (list_to_set (num_scheduled_tokens st).*1)) ;;
  to_zero ← (if needs_kv_cache_zeroing c then ids ← on_kv kv_take_new_block_ids; mret (or_none ids)
             else mret None);
  on_kv kv_take_boundary_state_offloads ;;
  s ← get;
  let preempted_ids := (λ r : SRequest, request_id r) <$> objects_of s (preempted_reqs st) in
  freed ← on_enc get_freed_mm_hashes;
  copies ← on_kv kv_take_block_copies;
  let scheduled := num_scheduled_tokens st in
  let mixed n := if control_mixed_prefill g then n else 0 in
  mret (mkOutput new_data cached_data scheduled (dict_sum scheduled)
    (mixed (dict_sum ((λ e, (e.1, Z.min e.2 (default 0 (od_get e.1 (prefill_remaining st))))) <$> scheduled)))
    (mixed (dict_sum (filter (λ e, is_Some (od_get e.1 (resident_tokens g))) scheduled)))
    (mixed (mp_tokens (mixed_prefill_budget s)))
    (scheduled_spec_decode_tokens st) (scheduled_encoder_inputs st) common
    preempted_ids (finished_req_ids s) freed to_zero (or_none copies)).
End step.

(** ** After the step *)

Definition advance (n : Z) (r : SRequest) : SRequest :=
  let r := on_req (λ r, set_in_flight (num_in_flight_tokens r + n) (set_computed (num_computed_tokens r + n) r)) r in
  set_prefill_chunk (num_computed_tokens r <? num_tokens r + num_output_placeholders r) r.

(** [AsyncScheduler]: placeholders for the tokens the step will produce. *)
Definition advance_async (step num_spec : Z) (r : SRequest) : SRequest :=
  if is_prefill_chunk r then r
  else
    let r := on_req (λ r, set_placeholders (num_output_placeholders r + 1 + num_spec)
      (set_spec (if num_computed_tokens r + num_spec_tokens c <=? drafter_max_model_len c
                 then replicate (Z.to_nat (num_spec_tokens c)) (-1) else []) r)) r in
    if use_v2_model_runner c then set_eligible_step (step + pipeline_parallel_size c) r else r.

Definition _update_after_schedule (out : SchedulerOutput) : M Sch unit :=
  foreach (so_num_scheduled_tokens out) (λ e,
    o ← lookup_request e.1;
    upd o (advance e.2)) ;;
  modify (set_finished_ids ∅) ;;
  when (async_scheduling c) (
    s ← get;
    foreach (so_num_scheduled_tokens out) (λ e,
      o ← lookup_request e.1;
      upd o (advance_async (current_step s)
               (zlen (default [] (od_get e.1 (so_spec_decode_tokens out))))))).

(** ** The step *)

Definition run_step (m : M Loop unit) (st : Step) : M Sch Step := λ s,
  let '(o, l) := m (mkLoop s st) in
  (match o with Ret _ => Ret (stp l) | Raise e => Raise e end, sch l).

Definition schedule : M Sch SchedulerOutput :=
  modify (λ s, set_current_step (current_step s + 1) s) ;;
  s ← get;
  on_kv (kv_new_step_starts ((λ r : SRequest, kv_req (s_kv r)) <$> objects s)) ;;
  num_waiting ← on_waiting queue_len;
  num_skipped ← on_skipped queue_len;
  let g := step_settings s num_waiting num_skipped in
  st ← run_step (
    running_loop g (length (running s)) ;;
    record_loras ;;
    schedule_waiting_reqs g ;;
    check_constraints) (initial_step s);
  out ← make_output g st;
  _update_after_schedule out ;;
  mret out.
End schedule.
