(* ===== verification/SchedUpdate.v ===== *)
(** * Processing the output of a step

    [Scheduler.update_from_output] of [vllm/v1/core/sched/scheduler.py], with the
    override of [AsyncScheduler]: sampled tokens are appended, rejected draft tokens
    taken back, encoder inputs released, and requests that stop leave the
    scheduler; and the draft tokens of the next step.

    [model_runner_output] is the worker's answer.  [grammar_rejects] tells that the
    structured-output manager advances the request's grammar and the grammar does
    not accept the tokens; [validate_tokens] is the part of the draft tokens that
    the grammar allows (all of them without a grammar).  Log probabilities, cache
    events, statistics and the grouping of the answers by client are left out. *)

From S2P Require Import Prelude.
From S2P Require Import OrderedDict.
From S2P Require Import FreeQueue.
From S2P Require Import Request.
From S2P Require Import BlockHash.
From S2P Require Import RequestQueue.
From S2P Require Import SchedUtils.
From S2P Require Import EncoderCache.
From S2P Require Import KVManager.
From S2P Require Import MixedPrefill.
From S2P Require Import SchedInterface.
From S2P Require Import Sched.
From S2P Require Import Schedule.
Local Open Scope Z_scope.

Record ModelRunnerOutput : Type := mkRunnerOutput {
  req_id_to_index : gmap string Z;
  sampled_token_ids : list (list Z);
  pooler_output : list (option Tensor);
  mixed_prefill_timing : option MixedPrefillTiming;
}.

Record EngineCoreOutput : Type := mkEngineOutput {
  eo_request_id : string;
  eo_new_token_ids : list Z;
  eo_finish_reason : option FinishReason;
  eo_stop_reason : option StopReason;
  eo_pooling_output : option Tensor;
}.

Section update.
Context {Q K E : Type} `{!RequestQueue Q} `{!KVCache K} `{!EncoderCache E}.
Context (c : SchedConfig) (set_order : list Z → list Z).
Context (block_hasher : option (M Request (list BlockHash))).
Context (grammar_rejects : Request → list Z → bool) (validate_tokens : Request → list Z → list Z).

Abbreviation Sch := (Scheduler Q K E).

(** A method of the budget for mixed steps. *)
Definition on_budget {A} (m : M MixedPrefillBudget A) : M Sch A := zoom mixed_prefill_budget set_mixed_budget m.

(** A method of the request object. *)
Definition on_request {A} (o : Z) (m : M Request A) : M Sch A :=
  obj o ≫= λ r : SRequest,
  let '(res, r') := m r in
  upd o (on_req (λ _, r')) ;;
  match res with Ret a => mret a | Raise e => raise e end.

Definition _free_encoder_inputs (o : Z) : M Sch unit :=
  obj o ≫= λ r : SRequest,
  ids ← on_enc (get_cached_input_ids r);
  foreach (set_order ids) (λ input_id,
    f ← of_option IndexError (py_get (mm_features r) input_id);
    if is_encoder_decoder c && (0 <? num_computed_tokens r)
    then on_enc (free_encoder_input r input_id)
    else if offset (mm_position f) + length_ (mm_position f) <=? num_computed_tokens r
    then on_enc (free_encoder_input r input_id)
    else mret tt).

(** Draft tokens that were not accepted are taken back. *)
Definition reject (num_rejected : Z) (r : Request) : Request :=
  let r := if 0 <? num_computed_tokens r then set_computed (num_computed_tokens r - num_rejected) r else r in
  if 0 <? num_output_placeholders r
  then set_placeholders (num_output_placeholders r - num_rejected) r else r.

(** [_update_request_with_output] of either scheduler. *)
Definition append_tokens (o : Z) (new_token_ids : list Z) : M Sch (list Z * bool) :=
  obj o ≫= λ r : SRequest,
  if negb (async_scheduling c) then
    on_request o (_update_request_with_output block_hasher (sc_max_model_len c) new_token_ids)
  else if 0 <? async_tokens_to_discard r then
    upd o (set_discard (async_tokens_to_discard r - 1)) ;;
    mret ([], false)
  else
    '(kept, stopped) ←
      on_request o (_update_request_with_output block_hasher (sc_max_model_len c) new_token_ids);
    upd o (on_req (λ r, set_placeholders (num_output_placeholders r - zlen kept) r)) ;;
    obj o ≫= λ r' : SRequest,
    py_assert (0 <=? num_output_placeholders r') ;;
    when (bool_decide (status r = RUNNING)) (
      r'' ← on_kv (kv_cache_blocks r' (num_computed_tokens r' - num_output_placeholders r'));
      upd o (on_req (λ _, r''))) ;;
    mret (kept, stopped).

(** What the loop over the requests gathers. *)
Record Gathered : Type := mkGathered {
  stopped_running_reqs : gset Z;
  stopped_preempted_reqs : list RequestArgs;
  engine_outputs : list EngineCoreOutput;
}.

(** A sampled batch row: the tokens and the pooling output. *)
Definition row_of (mro : ModelRunnerOutput) (rid : string) : M Sch (list Z * option Tensor) :=
  i ← of_option KeyError (req_id_to_index mro !! rid);
  tokens ← (if is_nil (sampled_token_ids mro) then mret []
            else of_option IndexError (py_get (sampled_token_ids mro) i));
  pooled ← (if is_nil (pooler_output mro) then mret None
            else of_option IndexError (py_get (pooler_output mro) i));
  mret (tokens, pooled).

(** The tokens are appended, or the pooling output ends the request. *)
Definition advance_request (o : Z) (tokens : list Z) (pooled : option Tensor) : M Sch (list Z * bool) :=
  obj o ≫= λ r : SRequest,
  '(kept, stopped) ←
    (if negb (is_nil tokens) then append_tokens o tokens
     else if bool_decide (is_Some (pooling_params r)) && bool_decide (is_Some pooled) then
       upd o (on_req (λ r, set_status FINISHED_STOPPED (stop_reason r) r)) ;;
       mret (tokens, true)
     else mret (tokens, false));
  obj o ≫= λ r : SRequest,
  if negb (is_nil kept) && grammar_rejects r kept then
    upd o (on_req (λ r, set_status FINISHED_ERROR (stop_reason r) r)) ;;
    mret (kept, true)
  else mret (kept, stopped).

Definition update_request (out : SchedulerOutput) (mro : ModelRunnerOutput) (acc : Gathered)
    (e : string * Z) : M Sch Gathered :=
  let '(rid, num_tokens_scheduled) := e in
  py_assert (0 <? num_tokens_scheduled) ;;
  s ← get;
  match od_get rid (requests s) with
  | None => mret acc
  | Some o =>
      upd o (on_req (λ r, set_in_flight (num_in_flight_tokens r - num_tokens_scheduled) r)) ;;
      obj o ≫= λ r : SRequest,
      if is_finished r then mret acc
      else
        '(generated, pooled) ← row_of mro rid;
        let drafts := default [] (od_get rid (so_spec_decode_tokens out)) in
        when (negb (is_nil drafts) && negb (is_nil generated))
          (upd o (on_req (reject (zlen drafts - (zlen generated - 1))))) ;;
        when (has_encoder_inputs r) (_free_encoder_inputs o) ;;
        '(kept, stopped) ← advance_request o generated pooled;
        obj o ≫= λ r' : SRequest,
        when stopped (_free_request set_order o) ;;
        let acc :=
          if negb stopped then acc
          else if bool_decide (status r = RUNNING)
          then mkGathered ({[o]} ∪ stopped_running_reqs acc) (stopped_preempted_reqs acc) (engine_outputs acc)
          else mkGathered (stopped_running_reqs acc) (stopped_preempted_reqs acc ++ [req_args r'])
                 (engine_outputs acc) in
        if negb (is_nil kept) || bool_decide (is_Some pooled) || stopped then
          upd o (set_stats_pending false) ;;
          mret (mkGathered (stopped_running_reqs acc) (stopped_preempted_reqs acc)
            (engine_outputs acc ++
             [mkEngineOutput rid kept (if stopped then get_finished_reason (status r') else None)
                (stop_reason r') pooled]))
        else mret acc
  end.

Definition update_from_output (out : SchedulerOutput) (mro : ModelRunnerOutput)
    : M Sch (list EngineCoreOutput) :=
  on_budget (Mixed.update (mixed_prefill_timing mro)) ;;
  acc ← foldM (update_request out mro) (so_num_scheduled_tokens out) (mkGathered ∅ [] []);
  modify (λ s, set_running (remove_all (running s) (stopped_running_reqs acc)) s) ;;
  when (negb (is_nil (stopped_preempted_reqs acc)))
    (on_waiting (remove_requests (stopped_preempted_reqs acc))) ;;
  mret (engine_outputs acc).

(** ** Draft tokens *)

Definition set_drafts (tokens : list Z) (r : SRequest) : SRequest :=
  if is_prefill_chunk r then on_req (set_spec []) r
  else on_req (set_spec (validate_tokens r tokens)) r.

Definition update_draft_token_ids (drafts : list (string * list Z)) : M Sch unit :=
  foreach drafts (λ e,
    s ← get;
    match od_get e.1 (requests s) with
    | None => mret tt
    | Some o =>
        obj o ≫= λ r : SRequest,
        if is_finished r then mret tt else upd o (set_drafts e.2)
    end).

(** The drafts of requests in the output of the step, padded to the number that
    was scheduled; the answer also has the number of padding tokens by request. *)
Definition draft_in_output (acc : list (string * list Z) * list (string * Z)) (e : string * list Z)
    : M Sch (list (string * list Z) * list (string * Z)) :=
  let '(scheduled, invalid) := acc in
  s ← get;
  match od_get e.1 (requests s) with
  | None => mret acc
  | Some o =>
      obj o ≫= λ r : SRequest,
      if is_finished r then mret acc
      else
        match default [] (od_get e.1 scheduled) with
        | [] => mret acc
        | placeholders =>
            let tokens := validate_tokens r (py_slice e.2 0 (zlen placeholders)) in
            let num_invalid := zlen placeholders - zlen tokens in
            let padded := tokens ++ replicate (Z.to_nat num_invalid) (-1) in
            mret (od_set e.1 padded scheduled,
                  if num_invalid =? 0 then invalid else od_set e.1 num_invalid invalid)
        end
  end.

Definition update_draft_token_ids_in_output (drafts : list (string * list Z)) (out : SchedulerOutput)
    : M Sch (list (string * list Z) * list (string * Z)) :=
  foldM draft_in_output drafts (so_spec_decode_tokens out, []).
End update.
