(* ===== verification/SchedInv.v ===== *)
(** * The invariant of the scheduler

    Every request the scheduler knows is in one place: the running list, one of
    the two waiting queues or, inside a step, among those set aside.  Where it is
    and its status agree, and only running requests hold blocks. *)

From S2P Require Import Prelude.
From S2P Require Import FreeQueue.
From S2P Require Import Request.
From S2P Require Import BlockHash.
From S2P Require Import OrderedDict.
From S2P Require Import RequestQueue.
From S2P Require Import SchedUtils.
From S2P Require Import SchedPrefill.
From S2P Require Import EncoderCache.
From S2P Require Import KVManager.
From S2P Require Import SchedInterface.
From S2P Require Import Sched.
Local Open Scope Z_scope.

(** A request that waits has computed nothing. *)
Definition waits (r : Request) : Prop :=
  status r ≠ RUNNING ∧ is_finished r = false ∧ num_computed_tokens r = 0.

Section inv.
Context {Q K E : Type} `{!RequestQueue Q} `{!QueueLaws Q} `{!KVCache K} `{!KVCacheLaws K} `{!EncoderCache E}.
Context (c : SchedConfig) (total : Prop).
Implicit Types (s : Scheduler Q K E) (xr : list Z) (ex : list RequestArgs).

(** The requests in the queues and those set aside; all places together.  [xr]
    are requests just taken off the running list. *)
Definition queued ex s : list RequestArgs := queue_view (waiting s) ++ queue_view (skipped_waiting s) ++ ex.
Definition active xr s : list Z := xr ++ running s.
Definition placed xr ex s : list Z := active xr s ++ (req_obj <$> queued ex s).

(** The id of an object's request. *)
Definition name s (o : Z) : string := match (objects s !! o : option SRequest) with Some r => request_id r | None => "" end.

(** The requests the theorems are about: within the model's length, and text only
    where exceptions are excluded.  [min_tokens] defers the length limit of the
    stop check, so it has to leave room for the prompt. *)
Definition rok (r : SRequest) : Prop :=
  0 < num_tokens r < sc_max_model_len c ∧ num_output_placeholders r = 0 ∧
  (prefill_stats_pending r = true → num_tokens r ≤ num_prompt_tokens r) ∧ (total → mm_features r = []) ∧
  num_tokens r = num_prompt_tokens r + num_output_tokens r ∧
  (pooling_params r = None →
    ∃ sp, sampling_params r = Some sp ∧ num_prompt_tokens r + min_tokens sp ≤ sc_max_model_len c).

Record sinv xr ex s : Prop := {
  si_queues : queue_ok (waiting s) ∧ queue_ok (skipped_waiting s);
  si_refs : ∀ a, a ∈ queued ex s → ∃ r : SRequest, objects s !! req_obj a = Some r ∧ req_args r = a ∧ waits r;
  si_run : ∀ o, o ∈ active xr s → ∃ r : SRequest, objects s !! o = Some r ∧ status r = RUNNING;
  si_known : placed xr ex s ≡ₚ (requests s).*2;
  si_dict : od_ok (requests s);
  si_names : ∀ rid o, (rid, o) ∈ requests s →
    ∃ r : SRequest, objects s !! o = Some r ∧ request_id r = rid ∧ req_obj r = o ∧ rok r;
  si_holds : ∀ rid, kv_holds (kv_state s) rid → ∃ o, o ∈ active xr s ∧ name s o = rid;
  si_limit : zlen (active xr s) ≤ max_num_running_reqs c;
  si_ready : total → kv_ready (kv_state s);
}.

Lemma sinv_placed xr ex s o :
  sinv xr ex s → o ∈ placed xr ex s →
  ∃ r : SRequest, objects s !! o = Some r ∧ req_obj r = o ∧ rok r ∧ (request_id r, o) ∈ requests s.
Proof.
  intros Hi Ho. rewrite (si_known _ _ _ Hi) in Ho. apply list_elem_of_fmap in Ho as ([rid o'] & -> & Hin).
  destruct (si_names _ _ _ Hi _ _ Hin) as (r & H & <- & H' & Hr). by exists r.
Qed.

Lemma sinv_nodup xr ex s : sinv xr ex s → NoDup (placed xr ex s).
Proof.
  intros Hi. rewrite (si_known _ _ _ Hi). apply NoDup_snd; [apply Hi|].
  intros k k' o H1 H2. destruct (si_names _ _ _ Hi _ _ H1) as (r & Er & <- & _), (si_names _ _ _ Hi _ _ H2) as (r' & Er' & <- & _).
  congruence.
Qed.

Lemma sinv_inj xr ex s o o' :
  sinv xr ex s → o ∈ placed xr ex s → o' ∈ placed xr ex s → name s o = name s o' → o = o'.
Proof.
  intros Hi Ho Ho' En. destruct (sinv_placed _ _ _ _ Hi Ho) as (r & H1 & _ & _ & Hin),
    (sinv_placed _ _ _ _ Hi Ho') as (r' & H1' & _ & _ & Hin').
  unfold name in En. rewrite H1, H1' in En. rewrite En in Hin. apply (od_get_elem _ _ _ (si_dict _ _ _ Hi)) in Hin, Hin'. congruence.
Qed.

Lemma active_placed xr ex s o : o ∈ active xr s → o ∈ placed xr ex s.
Proof. intros H. apply elem_of_app. by left. Qed.

Lemma queued_placed xr ex s a : a ∈ queued ex s → req_obj a ∈ placed xr ex s.
Proof. intros H. apply elem_of_app. right. by apply list_elem_of_fmap_2. Qed.

(** No request is at once active and queued. *)
Lemma active_not_queued xr ex s a : sinv xr ex s → a ∈ queued ex s → req_obj a ∉ active xr s.
Proof.
  intros Hi Ha Hin. pose proof (sinv_nodup _ _ _ Hi) as Hnd. apply NoDup_app in Hnd as (_ & Hnd & _).
  apply (Hnd _ Hin). by apply list_elem_of_fmap_2.
Qed.

(** ** Changes that keep the invariant *)

(** Only what the invariant does not read changes, and blocks may be released. *)
Lemma sinv_same xr ex s s' :
  sinv xr ex s → objects s' = objects s → requests s' = requests s → waiting s' = waiting s →
  skipped_waiting s' = skipped_waiting s → running s' = running s →
  kv_keeps (kv_state s) (kv_state s') → sinv xr ex s'.
Proof.
  intros [H1 H2 H3 H4 H5 H6 H7 H8 H9] Eo Er Ew Ek Erun [Ht Hh].
  split; unfold placed, queued, active, name in *; rewrite ?Eo, ?Er, ?Ew, ?Ek, ?Erun; auto.
Qed.

Lemma name_alter s o (f : SRequest → SRequest) o' :
  (∀ r : SRequest, objects s !! o = Some r → req_args (f r) = req_args r) →
  name (set_objects (alter f o (objects s)) s) o' = name s o'.
Proof.
  intros Hf. unfold name. simpl. destruct (decide (o = o')) as [<-|Hne].
  - rewrite lookup_alter_eq. destruct (objects s !! o) as [r|]; [|done]. simpl. by rewrite Hf.
  - by rewrite lookup_alter_ne.
Qed.

Lemma sinv_alter xr ex s o (f : SRequest → SRequest) :
  sinv xr ex s →
  (∀ r : SRequest, objects s !! o = Some r → req_args (f r) = req_args r ∧ (rok r → rok (f r)) ∧
     (status r = RUNNING → status (f r) = RUNNING) ∧ (waits r → waits (f r))) →
  sinv xr ex (set_objects (alter f o (objects s)) s).
Proof.
  intros [H1 H2 H3 H4 H5 H6 H7 H8 H9] Hf.
  assert (Hlook : ∀ o' (r : SRequest), objects s !! o' = Some r → ∃ r' : SRequest, alter f o (objects s) !! o' = Some r' ∧
    req_args r' = req_args r ∧ (rok r → rok r') ∧ (status r = RUNNING → status r' = RUNNING) ∧ (waits r → waits r')).
  { intros o' r Hr. destruct (decide (o = o')) as [<-|Hne].
    - rewrite lookup_alter_eq, Hr. simpl. eexists; split; [done|]. by apply Hf.
    - rewrite lookup_alter_ne by done. exists r. auto. }
  split; try done.
  - intros a Ha. destruct (H2 a Ha) as (r & Hr & Ea & Hw). destruct (Hlook _ _ Hr) as (r' & Hr' & Ea' & _ & _ & Hw').
    exists r'. split; [done|]. split; [by rewrite Ea'|by apply Hw'].
  - intros o' Ho'. destruct (H3 o' Ho') as (r & Hr & Hs). destruct (Hlook _ _ Hr) as (r' & Hr' & _ & _ & Hs' & _).
    exists r'. split; [done|by apply Hs'].
  - intros rid o' Hin. destruct (H6 rid o' Hin) as (r & Hr & <- & <- & Hok).
    destruct (Hlook _ _ Hr) as (r' & Hr' & Ea' & Hok' & _). exists r'. split; [done|]. rewrite Ea'. auto.
  - intros rid Hh. destruct (H7 rid Hh) as (o' & Ho' & <-). exists o'. split; [done|].
    apply name_alter. intros r Hr. by apply Hf.
Qed.

(** The running list and the requests taken off it are rearranged. *)
Lemma sinv_run xr xr' ex s run :
  sinv xr ex s → active xr s ≡ₚ xr' ++ run → sinv xr' ex (set_running run s).
Proof.
  intros [H1 H2 H3 H4 H5 H6 H7 H8 H9] Hp. split; try done; unfold placed, active in *; simpl.
  - intros o. rewrite <-Hp. apply H3.
  - by rewrite <-Hp.
  - intros rid Hh. destruct (H7 rid Hh) as (o & Ho & Hn). exists o. by rewrite <-Hp.
  - unfold zlen in *. rewrite <-(Permutation_length Hp). done.
Qed.

(** ** The queues *)

(** The queues change their contents by [xr] and [ex] alone. *)
Lemma sinv_queues xr ex ex' s s' :
  sinv xr ex s → objects s' = objects s → requests s' = requests s → running s' = running s →
  kv_state s' = kv_state s → queue_ok (waiting s') → queue_ok (skipped_waiting s') →
  queued ex' s' ≡ₚ queued ex s → sinv xr ex' s'.
Proof.
  intros [H1 H2 H3 H4 H5 H6 H7 H8 H9] Eo Er Erun Ek Hw Hs Hq.
  split; unfold placed, active, name in *; rewrite ?Eo, ?Er, ?Erun, ?Ek; auto.
  - intros a. rewrite Hq. apply H2.
  - by rewrite Hq.
Qed.

(** ** Departure *)

Lemma sinv_remove xr xr' ex ex' s s' o (r : SRequest) :
  sinv xr ex s → objects s !! o = Some r → (∀ o', o' ≠ o → objects s' !! o' = objects s !! o') →
  requests s' = od_del (request_id r) (requests s) → placed xr ex s ≡ₚ o :: placed xr' ex' s' →
  (∀ x, x ∈ active xr' s' → x ∈ active xr s) → (∀ a, a ∈ queued ex' s' → a ∈ queued ex s) →
  queue_ok (waiting s') ∧ queue_ok (skipped_waiting s') →
  kv_frees (request_id r) (kv_state s) (kv_state s') →
  zlen (active xr' s') ≤ zlen (active xr s) → sinv xr' ex' s'.
Proof.
  intros Hi Hr Hobj Hreq Hp Hact Hqu Hok [Hready Hhold] Hlen. pose proof (sinv_nodup _ _ _ Hi) as Hnd.
  assert (Ho : o ∈ placed xr ex s) by (rewrite Hp; by left).
  destruct (sinv_placed _ _ _ _ Hi Ho) as (r0 & Hr0 & _ & _ & Hin). assert (r0 = r) as -> by congruence.
  rewrite Hp in Hnd. apply NoDup_cons in Hnd as [Hno _]. destruct Hi as [H1 H2 H3 H4 H5 H6 H7 H8 H9]. split; try done.
  - intros a Ha. rewrite Hobj; [by apply H2, Hqu|]. intros <-. apply Hno. by apply queued_placed.
  - intros o' Ho'. rewrite Hobj; [by apply H3, Hact|]. intros ->. apply Hno. by apply active_placed.
  - rewrite Hreq. apply (Permutation_cons_inv (a := o)). rewrite <-Hp, H4.
    by rewrite (od_del_perm (request_id r) o (requests s) H5 Hin) at 1.
  - rewrite Hreq. by apply od_del_ok.
  - intros rid o' Hin'. rewrite Hreq in Hin'. apply od_del_elem in Hin' as [Hne Hin'].
    destruct (H6 rid o' Hin') as (r' & Hr' & Hid & H). exists r'. split; [|done]. rewrite Hobj; [done|]. intros ->. congruence.
  - intros rid Hh. destruct (Hhold rid Hh) as [Hh' Hne]. destruct (H7 rid Hh') as (o' & Ho' & Hn).
    assert (o' ≠ o) as Hne'. { intros ->. unfold name in Hn. rewrite Hr in Hn. congruence. }
    exists o'. split; [|unfold name in *; by rewrite Hobj].
    assert (Hp' : o' ∈ placed xr ex s) by by apply active_placed. rewrite Hp in Hp'.
    apply elem_of_cons in Hp' as [?|Hp']; [done|]. apply elem_of_app in Hp' as [?|Hq]; [done|].
    exfalso. apply list_elem_of_fmap in Hq as (a & -> & Ha). apply Hqu in Ha.
    destruct (H2 a Ha) as (ra & Hra & _ & Hw & _). destruct (H3 _ Ho') as (rb & Hrb & Hst). congruence.
  - lia.
  - intros Ht. by apply Hready, H9.
Qed.
End inv.

(** * Preemption, arrival and departure keep the invariant *)

Section ops.
Context {Q K E : Type} `{!RequestQueue Q} `{!QueueLaws Q} `{!KVCache K} `{!KVCacheLaws K}
  `{!EncoderCache E} `{!EncoderLaws E}.
Context (c : SchedConfig) (total : Prop) (set_order : list Z → list Z).
Hypothesis set_order_perm : ∀ l, set_order l ≡ₚ l.
Implicit Types (s : Scheduler Q K E) (xr : list Z) (ex : list RequestArgs).

Abbreviation sinv := (sinv c total).
Abbreviation rok := (rok c total).

Lemma wpe_obj s o (r : SRequest) (P : SRequest → Scheduler Q K E → Prop) X :
  objects s !! o = Some r → P r s → wpe (obj o) s P X.
Proof. intros Hr HP. unfold obj. wpe_step. wpe_step. apply wpe_of_option; [|congruence]. intros a Ha. by simplify_eq. Qed.

Lemma wpe_upd s o f (P : unit → Scheduler Q K E → Prop) X :
  P tt (set_objects (alter f o (objects s)) s) → wpe (upd o f) s P X.
Proof. intros HP. unfold upd. by wpe_step. Qed.

(** Freeing the encoder inputs of a request only changes the encoder cache. *)
Lemma enc_free_spec s (r : SRequest) :
  (total → mm_features r = []) →
  wpe (on_enc (free_inputs set_order r)) s (λ _ s', ∃ e, s' = set_enc_state e s) (λ _ _, ¬ total).
Proof.
  intros Hr. unfold on_enc. apply wpe_zoom. destruct (mm_features r) eqn:Ef.
  - apply wp_wpe. eapply wp_mono; [by apply law_enc_free|]. intros [] e' _. by exists e'.
  - unfold wpe. destruct (free_inputs set_order r (enc_state s)) as [[[]|e] e']; [by exists e'|].
    intros Ht. by specialize (Hr Ht).
Qed.

Lemma preempted_waits (r : SRequest) : waits (on_req preempted r).
Proof. by split_and!. Qed.

Lemma preempted_rok (r : SRequest) : rok r → rok (on_req preempted r).
Proof. done. Qed.

(** A request just taken off the running list goes back to the waiting queue. *)
Lemma preempt_spec ex s o :
  sinv [o] ex s →
  wpe (_preempt_request set_order o) s (λ _ s',
    sinv [] ex s' ∧ running s' = running s ∧ objects s' = alter (on_req preempted) o (objects s) ∧
    requests s' = requests s ∧ skipped_waiting s' = skipped_waiting s ∧
    prev_step_scheduled_req_ids s' = prev_step_scheduled_req_ids s)
    (λ _ _, ¬ total).
Proof.
  intros Hi. destruct (si_run _ _ _ _ _ Hi o ltac:(by left)) as (r & Hr & Hs).
  destruct (sinv_placed _ _ _ _ _ o Hi) as (r0 & Hr0 & Hobj & Hok & _); [by apply active_placed; left|].
  assert (r0 = r) as -> by congruence.
  unfold _preempt_request. wpe_step. eapply wpe_obj; [done|]. wpe_step.
  apply wpe_assert; [intros _|by rewrite bool_decide_eq_false]. wpe_step.
  unfold on_kv. apply wpe_zoom. eapply wpe_mono; [apply law_kv_free| |by intros e s' H Ht; apply H, (si_ready _ _ _ _ _ Hi)].
  intros [] k' [Ht' Hk']. wpe_step. eapply wpe_mono; [apply enc_free_spec; apply Hok| |done].
  intros [] s' (e & ->). wpe_step. apply wpe_upd. unfold on_waiting. apply wpe_zoom. simpl.
  apply wp_wpe. eapply wp_mono; [apply law_prepend; apply Hi|]. intros [] q' [Hq Hp]. simpl.
  split; [|done]. destruct Hi as [H1 H2 H3 H4 H5 H6 H7 H8 H9] eqn:Ei. clear Ei.
  assert (Hperm : queued ex (set_waiting q' s) ≡ₚ req_args r :: queued ex s).
  { unfold queued. simpl. by rewrite Hp. }
  assert (Hno : o ∉ running s ++ (req_obj <$> queued ex s)).
  { pose proof (sinv_nodup c total [o] ex s ltac:(by split)) as Hnd. by apply NoDup_cons in Hnd as [? _]. }
  assert (Hlook : ∀ o', o' ≠ o → alter (on_req preempted) o (objects s) !! o' = objects s !! o').
  { intros o' Hne. by rewrite lookup_alter_ne by congruence. }
  assert (Halter : alter (on_req preempted) o (objects s) !! o = Some (on_req preempted r)).
  { by rewrite lookup_alter_eq, Hr. }
  split.
  - by split; [|apply H1].
  - intros a Ha. change (a ∈ queued ex (set_waiting q' s)) in Ha. rewrite Hperm in Ha.
    apply elem_of_cons in Ha as [->|Ha].
    + exists (on_req preempted r). simpl. rewrite Hobj. split; [done|]. split; [done|apply preempted_waits].
    + simpl. rewrite Hlook; [by apply H2|]. intros <-. apply Hno. apply elem_of_app. right. by apply list_elem_of_fmap_2.
  - intros o' Ho'. simpl. rewrite Hlook; [by apply H3; right|]. intros ->. apply Hno. apply elem_of_app. by left.
  - change (running s ++ (req_obj <$> queued ex (set_waiting q' s)) ≡ₚ (requests s).*2). rewrite Hperm, <-H4.
    csimpl. rewrite Hobj. unfold placed, active. simpl. by rewrite Permutation_middle.
  - done.
  - intros rid o' Hin. destruct (H6 rid o' Hin) as (r' & Hr' & Hrid & Ho' & Hok'). simpl.
    destruct (decide (o' = o)) as [->|Hne]; [|rewrite Hlook by done; eauto].
    exists (on_req preempted r). assert (r' = r) as -> by congruence. split; [done|]. by split_and!.
  - intros rid Hh. simpl in Hh. apply Hk' in Hh as [Hh Hne]. destruct (H7 rid Hh) as (o' & Ho' & Hn).
    apply elem_of_cons in Ho' as [->|Ho'].
    + unfold name in Hn. rewrite Hr in Hn. by subst rid.
    + exists o'. split; [done|]. rewrite <-Hn. apply (name_alter s o (on_req preempted)). by intros r' _.
  - unfold active in *. simpl in *. rewrite zlen_cons in H8. lia.
  - intros Ht. by apply Ht', H9.
Qed.

(** A finished request gives up its blocks and its name. *)
Lemma free_request_spec s o (r : SRequest) :
  objects s !! o = Some r → is_finished r = true → (total → mm_features r = []) →
  request_id r ∈ (requests s).*1 → (total → kv_ready (kv_state s)) →
  wpe (_free_request set_order o) s (λ _ s', ∃ k e fin,
    s' = set_requests (od_del (request_id r) (requests s)) (set_kv_state k (set_finished_ids fin (set_enc_state e s))) ∧
    kv_frees (request_id r) (kv_state s) k) (λ _ _, ¬ total).
Proof.
  intros Hr Hfin Hmm Hin Hready. unfold _free_request. wpe_step. eapply wpe_obj; [done|]. wpe_step.
  apply wpe_assert; [intros _|by rewrite Hfin]. wpe_step. eapply wpe_mono; [by apply enc_free_spec| |done].
  intros [] s1 (e & ->). wpe_step. wpe_step. unfold _free_blocks. wpe_step. eapply wpe_obj; [done|]. wpe_step.
  apply wpe_assert; [intros _|by rewrite Hfin]. wpe_step. unfold on_kv. wpe_step.
  eapply wpe_mono; [apply law_kv_free| |by intros x k' H Ht; apply H, Hready]. intros [] k Hk. wpe_step. wpe_step. simpl.
  rewrite (proj2 (od_mem_true _ _) Hin). wpe_step. do 3 eexists. split; [done|]. exact Hk.
Qed.
End ops.
