(* ===== verification/ScheduleInv.v ===== *)
(** * The invariant inside a scheduling step

    What is booked for this step and the scheduler's state agree: the requests
    that got tokens run, no request got tokens twice, and the tokens given out and
    the budget left add up.  Preempting a request keeps this. *)

From S2P Require Import Prelude.
From S2P Require Import FreeQueue.
From S2P Require Import Request.
From S2P Require Import BlockHash.
From S2P Require Import OrderedDict.
From S2P Require Import RequestQueue.
From S2P Require Import SchedUtils.
From S2P Require Import SchedPrefill.
From S2P Require Import EncoderCache.
From S2P Require Import KVManager.
From S2P Require Import SchedInterface.
From S2P Require Import Sched.
From S2P Require Import Schedule.
From S2P Require Import SchedInv.
Local Open Scope Z_scope.

(** ** Lists and dictionaries *)

Lemma list_remove_perm (x : Z) l : x ∈ l → l ≡ₚ x :: list_remove x l.
Proof.
  induction l as [|y l IH]; intros H; [by apply not_elem_of_nil in H|]. simpl.
  destruct (decide (y = x)) as [->|Hne]; [done|]. apply elem_of_cons in H as [H|H]; [by subst|].
  rewrite (IH H) at 1. apply Permutation_swap.
Qed.

Lemma list_remove_app (x : Z) l l' :
  list_remove x (l ++ l') = if decide (x ∈ l) then list_remove x l ++ l' else l ++ list_remove x l'.
Proof.
  induction l as [|y l IH]; simpl; [done|]. destruct (decide (y = x)) as [->|Hne].
  - by rewrite decide_True by by left.
  - rewrite IH. destruct (decide (x ∈ l)) as [H|H].
    + by rewrite decide_True by by right.
    + by rewrite decide_False by by intros [->|?]%elem_of_cons.
Qed.

Lemma list_remove_sub (x y : Z) l : y ∈ list_remove x l → y ∈ l.
Proof.
  induction l as [|z l IH]; simpl; [done|]. destruct (decide (z = x)); [by right|]. rewrite !elem_of_cons. naive_solver.
Qed.

Lemma elem_of_list_remove (x y : Z) l : NoDup l → y ∈ list_remove x l ↔ y ≠ x ∧ y ∈ l.
Proof.
  intros Hnd. destruct (decide (x ∈ l)) as [Hx|Hx].
  - pose proof (list_remove_perm x l Hx) as Hp. rewrite Hp in Hnd. apply NoDup_cons in Hnd as [Hn _].
    rewrite Hp at 2. rewrite elem_of_cons. split; [|naive_solver]. intros Hy. split; [congruence|by right].
  - assert (E : list_remove x l = l).
    { clear Hnd. induction l as [|z l IH]; [done|]. simpl. apply not_elem_of_cons in Hx as [H1 H2].
      rewrite decide_False by congruence. by rewrite IH. }
    rewrite E. split; [|by intros [_ H]]. intros H. split; [congruence|done].
Qed.

Lemma zlen_list_remove (x : Z) l : x ∈ l → zlen (list_remove x l) = zlen l - 1.
Proof. intros H. apply list_remove_perm, Permutation_length in H. unfold zlen. simpl in H. lia. Qed.

Lemma dict_sum_perm d d' : d ≡ₚ d' → dict_sum d = dict_sum d'.
Proof. unfold dict_sum. induction 1; simpl in *; lia. Qed.

Lemma dict_sum_del k n d : od_ok d → od_get k d = Some n → dict_sum d = n + dict_sum (od_del k d).
Proof. intros Hd Hk. rewrite (dict_sum_perm _ _ (od_del_perm k n d Hd (proj1 (od_get_elem _ _ _ Hd) Hk))). done. Qed.

Lemma od_del_keys_perm {A} k v (d : list (string * A)) :
  od_ok d → od_get k d = Some v → d.*1 ≡ₚ k :: (od_del k d).*1.
Proof. intros Hd Hk. by rewrite (od_del_perm k v d Hd (proj1 (od_get_elem _ _ _ Hd) Hk)) at 1. Qed.

Lemma dict_sum_set k n d : k ∉ d.*1 → dict_sum (od_set k n d) = dict_sum d + n.
Proof.
  intros H. rewrite od_set_absent by done. unfold dict_sum. rewrite foldr_app. simpl.
  clear H. induction d as [|e d IH]; simpl; lia.
Qed.

(** ** The invariant *)

Section step.
Context {Q K E : Type} `{!RequestQueue Q} `{!QueueLaws Q} `{!KVCache K} `{!KVCacheLaws K}
  `{!EncoderCache E} `{!EncoderLaws E}.
Context (c : SchedConfig) (total : Prop) (set_order : list Z → list Z).
Hypothesis set_order_perm : ∀ l, set_order l ≡ₚ l.

Abbreviation Sch := (Scheduler Q K E).
Abbreviation Loop := (Loop (Q := Q) (K := K) (E := E)).
Abbreviation sinv := (sinv c total).
Implicit Types (s : Sch) (l : Loop) (st : Step (Q := Q)) (xr : list Z).

(** The requests that got tokens in this step. *)
Definition booked st : list Z :=
  scheduled_running_reqs st ++ scheduled_new_reqs st ++ scheduled_resumed_reqs st.

(** [n] tokens, [k] of them drafts, take a request to the end of its tokens at
    most, and not to the model's length. *)
Definition advance_ok (r : Request) (n k : Z) : Prop :=
  num_computed_tokens r + n ≤ num_tokens r + k ∧ (0 < k → num_computed_tokens r + n = num_tokens r + k) ∧
  num_computed_tokens r + n < sc_max_model_len c.

Definition drafts_of st (rid : string) : Z := zlen (default [] (od_get rid (scheduled_spec_decode_tokens st))).

(** A waiting request that was preempted was not scheduled in the step before. *)
Definition prev_ok ex s : Prop := ∀ a (r : SRequest),
  a ∈ queued ex s → objects s !! req_obj a = Some r → status r = PREEMPTED →
  request_id r ∉ prev_step_scheduled_req_ids s.

Record linv xr (budget : Z) l : Prop := {
  li_s : sinv xr (queue_view (step_skipped_waiting (stp l))) (sch l);
  li_skipped : queue_ok (step_skipped_waiting (stp l));
  li_room : ∀ o (r : SRequest), o ∈ active xr (sch l) → objects (sch l) !! o = Some r →
    num_computed_tokens r ≤ num_tokens r;
  li_budget : dict_sum (num_scheduled_tokens (stp l)) + token_budget (stp l) = budget ∧ 0 ≤ token_budget (stp l);
  li_keys : (num_scheduled_tokens (stp l)).*1 ≡ₚ name (sch l) <$> booked (stp l);
  li_blocks : (req_to_new_blocks (stp l)).*1 ≡ₚ name (sch l) <$> booked (stp l);
  li_booked : NoDup (booked (stp l)) ∧ ∀ o, o ∈ booked (stp l) → o ∈ running (sch l);
  li_counts : ∀ e, e ∈ num_scheduled_tokens (stp l) → 0 < e.2;
  li_advance : ∀ o (r : SRequest) n, o ∈ booked (stp l) → objects (sch l) !! o = Some r →
    od_get (request_id r) (num_scheduled_tokens (stp l)) = Some n →
    advance_ok r n (drafts_of (stp l) (request_id r));
  li_drafts : ∀ k, k ∈ (scheduled_spec_decode_tokens (stp l)).*1 → k ∈ (num_scheduled_tokens (stp l)).*1;
  li_inputs : total → scheduled_encoder_inputs (stp l) = [];
  li_prev : preempted_reqs (stp l) = [] → prev_ok (queue_view (step_skipped_waiting (stp l))) (sch l);
  li_resumed : ∀ o, o ∈ scheduled_resumed_reqs (stp l) → name (sch l) o ∉ prev_step_scheduled_req_ids (sch l);
}.

Lemma booked_names xr budget l : linv xr budget l → NoDup (name (sch l) <$> booked (stp l)).
Proof.
  intros Hl. destruct (li_booked _ _ _ Hl) as [Hnd Hsub]. apply NoDup_fmap_2_strong; [|done].
  intros o o' Ho Ho' En. eapply sinv_inj; [apply Hl|..|done]; apply active_placed, elem_of_app; right; by apply Hsub.
Qed.

Lemma scheduled_ok xr budget l : linv xr budget l → od_ok (num_scheduled_tokens (stp l)).
Proof. intros Hl. unfold od_ok. rewrite (li_keys _ _ _ Hl). by eapply booked_names. Qed.

Lemma blocks_ok xr budget l : linv xr budget l → od_ok (req_to_new_blocks (stp l)).
Proof. intros Hl. unfold od_ok. rewrite (li_blocks _ _ _ Hl). by eapply booked_names. Qed.

(** A placed request has tokens exactly when it is booked. *)
Lemma booked_key xr budget l o :
  linv xr budget l → o ∈ placed xr (queue_view (step_skipped_waiting (stp l))) (sch l) →
  name (sch l) o ∈ (num_scheduled_tokens (stp l)).*1 ↔ o ∈ booked (stp l).
Proof.
  intros Hl Ho. rewrite (li_keys _ _ _ Hl). split; [|by apply list_elem_of_fmap_2].
  intros (o' & En & Ho')%list_elem_of_fmap.
  rewrite (sinv_inj _ _ _ _ _ o o' (li_s _ _ _ Hl)); [done|done| |done].
  apply active_placed, elem_of_app. right. by apply (li_booked _ _ _ Hl).
Qed.

(** ** Changes of the scheduler *)

Definition same_progress (r r' : Request) : Prop :=
  request_id r' = request_id r ∧ num_computed_tokens r' = num_computed_tokens r ∧ num_tokens r' = num_tokens r.

Lemma kv_same_progress r r' : kv_same r r' → same_progress r r'.
Proof. intros (Ea & _ & _ & _ & Et & _ & Ec & _). unfold same_progress, num_tokens. by rewrite Ea, Et, Ec. Qed.

(** The running list may lose and gain requests, if those that are booked stay as
    they are. *)
Lemma linv_sch xr xr' budget l s' :
  linv xr budget l → sinv xr' (queue_view (step_skipped_waiting (stp l))) s' →
  (∀ o, o ∈ booked (stp l) → o ∈ running s') →
  (∀ o (r' : SRequest), o ∈ active xr' s' → objects s' !! o = Some r' →
     (∃ r : SRequest, o ∈ active xr (sch l) ∧ objects (sch l) !! o = Some r ∧ same_progress r r') ∨
     (o ∉ booked (stp l)) ∧ num_computed_tokens r' ≤ num_tokens r') →
  prev_step_scheduled_req_ids s' = prev_step_scheduled_req_ids (sch l) →
  (preempted_reqs (stp l) = [] → prev_ok (queue_view (step_skipped_waiting (stp l))) s') →
  linv xr' budget (mkLoop s' (stp l)).
Proof.
  intros Hl Hs Hrun Hobj Eprev Hprev.
  assert (Hin : ∀ o, o ∈ booked (stp l) → o ∈ active xr' s') by (intros o Ho; apply elem_of_app; right; auto).
  assert (Hbook : ∀ o (r' : SRequest), o ∈ booked (stp l) → objects s' !! o = Some r' →
    ∃ r : SRequest, objects (sch l) !! o = Some r ∧ same_progress r r').
  { intros o r' Ho Hr'. destruct (Hobj o r' (Hin o Ho) Hr') as [(r & _ & H)|[H _]]; [by exists r|done]. }
  assert (Hname : ∀ o, o ∈ booked (stp l) → name s' o = name (sch l) o).
  { intros o Ho. destruct (si_run _ _ _ _ _ Hs o (Hin o Ho)) as (r' & Hr' & _).
    destruct (Hbook o r' Ho Hr') as (r & Hr & Eid & _). unfold name. by rewrite Hr', Hr, Eid. }
  assert (Hnames : name s' <$> booked (stp l) = name (sch l) <$> booked (stp l)).
  { apply list_fmap_ext. intros i o Ho. apply Hname. by eapply list_elem_of_lookup_2. }
  split; simpl; try apply Hl; try done.
  - intros o r' Ho Hr'. destruct (Hobj o r' Ho Hr') as [(r & Ha & Hr & _ & Ec & En)|[_ H]]; [|done].
    rewrite Ec, En. by apply (li_room _ _ _ Hl o).
  - rewrite Hnames. apply Hl.
  - rewrite Hnames. apply Hl.
  - split; [apply Hl|done].
  - intros o r' n Ho Hr'. destruct (Hbook o r' Ho Hr') as (r & Hr & Eid & Ec & En).
    rewrite Eid. unfold advance_ok. rewrite Ec, En. by apply (li_advance _ _ _ Hl o).
  - intros o Ho. rewrite Eprev, Hname; [by apply Hl|]. apply elem_of_app. right. apply elem_of_app. by right.
Qed.

(** The same objects up to what the cache writes, the same running list. *)
Lemma linv_same xr budget l s' :
  linv xr budget l → sinv xr (queue_view (step_skipped_waiting (stp l))) s' →
  running s' = running (sch l) → prev_step_scheduled_req_ids s' = prev_step_scheduled_req_ids (sch l) →
  waiting s' = waiting (sch l) → skipped_waiting s' = skipped_waiting (sch l) →
  (∀ o (r' : SRequest), objects s' !! o = Some r' → ∃ r : SRequest, objects (sch l) !! o = Some r ∧
     same_progress r r' ∧ (status r' = PREEMPTED → status r = PREEMPTED)) →
  linv xr budget (mkLoop s' (stp l)).
Proof.
  intros Hl Hs Hrun Eprev Ew Ek Hobj. apply (linv_sch xr); try done.
  - intros o Ho. rewrite Hrun. by apply (li_booked _ _ _ Hl).
  - intros o r' Ho Hr'. left. destruct (Hobj o r' Hr') as (r & Hr & Hp & _). exists r.
    unfold active in *. by rewrite Hrun in Ho.
  - intros Hnone a r' Ha Hr' Hst. unfold queued in Ha. rewrite Ew, Ek in Ha. rewrite Eprev.
    destruct (Hobj _ r' Hr') as (r & Hr & (Eid & _) & Est). rewrite Eid. by apply (li_prev _ _ _ Hl Hnone a); auto.
Qed.

(** ** Changes of the step *)

(** A request gets [n] tokens and the drafts [ds]. *)
Definition with_drafts (rid : string) (ds : list Z) (d : list (string * list Z)) : list (string * list Z) :=
  match ds with [] => d | _ => od_set rid ds d end.

Lemma linv_book xr budget l o (r : SRequest) n b ds st' :
  linv xr budget l → o ∈ running (sch l) → (o ∉ booked (stp l)) → objects (sch l) !! o = Some r →
  0 < n ≤ token_budget (stp l) → advance_ok r n (zlen ds) →
  booked st' ≡ₚ o :: booked (stp l) →
  num_scheduled_tokens st' = od_set (request_id r) n (num_scheduled_tokens (stp l)) →
  token_budget st' = token_budget (stp l) - n →
  req_to_new_blocks st' = od_set (request_id r) b (req_to_new_blocks (stp l)) →
  scheduled_spec_decode_tokens st' = with_drafts (request_id r) ds (scheduled_spec_decode_tokens (stp l)) →
  step_skipped_waiting st' = step_skipped_waiting (stp l) → preempted_reqs st' = preempted_reqs (stp l) →
  (total → scheduled_encoder_inputs st' = []) →
  (∀ o, o ∈ scheduled_resumed_reqs st' → name (sch l) o ∉ prev_step_scheduled_req_ids (sch l)) →
  linv xr budget (mkLoop (sch l) st').
Proof.
  intros Hl Ho Hnb Hr Hn Hadv Hbook Hsched Hbud Hblocks Hspec Hskip Hpre Hinp Hres.
  assert (Hpl : o ∈ placed xr (queue_view (step_skipped_waiting (stp l))) (sch l)).
  { apply active_placed, elem_of_app. by right. }
  assert (Hname : name (sch l) o = request_id r) by (unfold name; by rewrite Hr).
  assert (Hkey : request_id r ∉ (num_scheduled_tokens (stp l)).*1) by (rewrite <-Hname; by rewrite booked_key).
  assert (Hbkey : request_id r ∉ (req_to_new_blocks (stp l)).*1).
  { rewrite (li_blocks _ _ _ Hl), <-(li_keys _ _ _ Hl). done. }
  assert (Hdkey : request_id r ∉ (scheduled_spec_decode_tokens (stp l)).*1) by (intros H; by apply Hkey, Hl).
  split; simpl; rewrite ?Hskip; try apply Hl; try done.
  - rewrite Hsched, dict_sum_set, Hbud by done. pose proof (li_budget _ _ _ Hl). lia.
  - rewrite Hsched, od_set_absent, fmap_app by done. rewrite Hbook, (li_keys _ _ _ Hl). csimpl.
    rewrite Hname. by rewrite Permutation_app_comm.
  - rewrite Hblocks, od_set_absent, fmap_app by done. rewrite Hbook, (li_blocks _ _ _ Hl). csimpl.
    rewrite Hname. by rewrite Permutation_app_comm.
  - split.
    + rewrite Hbook. apply NoDup_cons. split; [done|apply Hl].
    + intros o'. rewrite Hbook. intros [->|H]%elem_of_cons; [done|by apply (li_booked _ _ _ Hl)].
  - intros e. rewrite Hsched, od_set_absent by done. intros [H|H%list_elem_of_singleton]%elem_of_app; [by apply Hl|].
    subst e. simpl. lia.
  - intros o' r' m Ho' Hr'. rewrite Hsched, od_get_set. unfold drafts_of. rewrite Hspec. unfold with_drafts.
    destruct (decide (request_id r = request_id r')) as [Eq|Hne].
    + assert (o' = o) as ->.
      { apply (sinv_inj _ _ _ _ _ _ _ (li_s _ _ _ Hl)); [|done|unfold name; by rewrite Hr, Hr'].
        rewrite Hbook in Ho'. apply elem_of_cons in Ho' as [->|Ho']; [done|].
        apply active_placed, elem_of_app. right. by apply (li_booked _ _ _ Hl). }
      assert (r' = r) as -> by congruence. intros [= <-]. destruct ds as [|d ds]; [|by rewrite od_get_set, decide_True].
      rewrite (proj2 (od_get_none _ _) Hdkey). done.
    + rewrite Hbook in Ho'. apply elem_of_cons in Ho' as [->|Ho']; [congruence|].
      intros Hm. pose proof (li_advance _ _ _ Hl o' r' m Ho' Hr' Hm) as Ha. unfold drafts_of in Ha.
      destruct ds as [|d ds]; [done|]. by rewrite od_get_set, decide_False.
  - intros k. rewrite Hspec, Hsched, od_set_keys. rewrite decide_False by done. unfold with_drafts.
    destruct ds as [|d ds]; [intros Hk; apply elem_of_app; left; by apply Hl|].
    rewrite od_set_keys, decide_False by done. intros [Hk|Hk]%elem_of_app; apply elem_of_app; [left; by apply Hl|by right].
  - rewrite Hpre. apply Hl.
Qed.

(** What a step gives back when a request it scheduled is preempted. *)
Definition undone (o : Z) (rid : string) (n embeds : Z) st : Step :=
  set_index (req_index st - 1)
    (set_enc_budget (encoder_compute_budget st + embeds)
      (set_enc_inputs (od_del rid (scheduled_encoder_inputs st))
        (set_new_blocks (od_del rid (req_to_new_blocks st))
          (set_spec_tokens (od_del rid (scheduled_spec_decode_tokens st))
            (set_budget (token_budget st + n)
              (set_scheduled (od_del rid (num_scheduled_tokens st))
                (set_running_reqs (list_remove o (scheduled_running_reqs st)) st))))))).

Lemma linv_undo xr budget l o (r : SRequest) n embeds :
  linv xr budget l → o ∈ scheduled_running_reqs (stp l) → objects (sch l) !! o = Some r →
  od_get (request_id r) (num_scheduled_tokens (stp l)) = Some n →
  linv xr budget (mkLoop (sch l) (undone o (request_id r) n embeds (stp l))) ∧
  o ∉ booked (undone o (request_id r) n embeds (stp l)).
Proof.
  intros Hl Ho Hr Hn. set (st' := undone _ _ _ _ _).
  assert (Hbook : booked (stp l) ≡ₚ o :: booked st').
  { unfold booked, st'. simpl. by rewrite (list_remove_perm o _ Ho) at 1. }
  assert (Hb : o ∈ booked (stp l)) by (apply elem_of_app; by left).
  destruct (li_booked _ _ _ Hl) as [Hnd Hsub]. pose proof Hnd as Hnd'. rewrite Hbook in Hnd'.
  apply NoDup_cons in Hnd' as [Hno Hnd']. split; [|done].
  assert (Hin : ∀ o', o' ∈ booked st' → o' ∈ booked (stp l)) by (intros o' H; rewrite Hbook; by right).
  assert (Hname : name (sch l) o = request_id r) by (unfold name; by rewrite Hr).
  assert (Hne : ∀ o' (r' : SRequest), o' ∈ booked st' → objects (sch l) !! o' = Some r' → request_id r ≠ request_id r').
  { intros o' r' Ho' Hr' Eq. apply Hno. rewrite (sinv_inj _ _ _ _ _ o o' (li_s _ _ _ Hl)); [done|..].
    - apply active_placed, elem_of_app. right. by apply Hsub.
    - apply active_placed, elem_of_app. right. by apply Hsub, Hin.
    - unfold name. by rewrite Hr, Hr', Eq. }
  pose proof (scheduled_ok _ _ _ Hl) as Hok. pose proof (blocks_ok _ _ _ Hl) as Hbok.
  assert (Hnames : name (sch l) <$> booked (stp l) ≡ₚ request_id r :: (name (sch l) <$> booked st')).
  { rewrite Hbook. csimpl. by rewrite Hname. }
  assert (Hkeys : (num_scheduled_tokens st').*1 ≡ₚ name (sch l) <$> booked st').
  { apply (Permutation_cons_inv (a := request_id r)). rewrite <-Hnames, <-(li_keys _ _ _ Hl). symmetry. by eapply od_del_keys_perm. }
  split; cbn [sch stp].
  - exact (li_s _ _ _ Hl).
  - exact (li_skipped _ _ _ Hl).
  - exact (li_room _ _ _ Hl).
  - pose proof (li_budget _ _ _ Hl) as [H1 H2]. rewrite (dict_sum_del _ _ _ Hok Hn) in H1.
    pose proof (li_counts _ _ _ Hl _ (proj1 (od_get_elem _ _ _ Hok) Hn)) as H3. simpl in *. lia.
  - exact Hkeys.
  - assert (Hm : request_id r ∈ (req_to_new_blocks (stp l)).*1).
    { rewrite (li_blocks _ _ _ Hl), <-Hname. by apply list_elem_of_fmap_2. }
    apply elem_of_keys in Hm as [b Hm]. apply od_get_elem in Hm; [|done].
    apply (Permutation_cons_inv (a := request_id r)). rewrite <-Hnames, <-(li_blocks _ _ _ Hl). symmetry. by eapply od_del_keys_perm.
  - split; [done|]. intros o' Ho'. by apply Hsub, Hin.
  - intros [k m]. simpl. intros [_ He]%od_del_elem. by apply (li_counts _ _ _ Hl _ He).
  - intros o' r' m Ho' Hr'. pose proof (Hne o' r' Ho' Hr') as Hd. simpl. rewrite od_get_del, decide_False by done.
    intros Hm. pose proof (li_advance _ _ _ Hl o' r' m (Hin _ Ho') Hr' Hm) as Ha. unfold drafts_of in *. simpl.
    by rewrite od_get_del, decide_False.
  - intros k. simpl. rewrite !od_del_keys. intros [? H]. split; [done|by apply Hl].
  - intros Ht. simpl. by rewrite (li_inputs _ _ _ Hl Ht).
  - exact (li_prev _ _ _ Hl).
  - exact (li_resumed _ _ _ Hl).
Qed.
End step.

(** * Allocation with preemption

    [allocate_or_preempt] of a scheduling step: each round preempts a request, so
    it ends; whether it allocates or preempts the request itself, the invariant of
    the step holds afterwards, and the requests before the current one stay where
    they are. *)

Section evict.
Context {Q K E : Type} `{!RequestQueue Q} `{!QueueLaws Q} `{!KVCache K} `{!KVCacheLaws K}
  `{!EncoderCache E} `{!EncoderLaws E}.
Context (c : SchedConfig) (total : Prop) (set_order : list Z → list Z).
Hypothesis set_order_perm : ∀ l, set_order l ≡ₚ l.

Abbreviation Sch := (Scheduler Q K E).
Abbreviation Loop := (Loop (Q := Q) (K := K) (E := E)).
Abbreviation sinv := (sinv c total).
Abbreviation linv := (linv c total).
Implicit Types (s : Sch) (l : Loop) (st : Step (Q := Q)) (xr : list Z).

(** ** The two states *)

Lemma wpe_on_sch {A} (m : M Sch A) l (P : A → Loop → Prop) X :
  wpe m (sch l) (λ a s', P a (mkLoop s' (stp l))) (λ e s', X e (mkLoop s' (stp l))) → wpe (on_sch m) l P X.
Proof. intros H. unfold on_sch. apply wpe_zoom. exact H. Qed.

Lemma wpe_on_obj l o (r : SRequest) (P : SRequest → Loop → Prop) X :
  objects (sch l) !! o = Some r → P r l → wpe (on_sch (obj o)) l P X.
Proof. intros Hr HP. apply wpe_on_sch. eapply wpe_obj; [done|]. by destruct l. Qed.

Lemma wpe_on_step f l (P : unit → Loop → Prop) X :
  P tt (mkLoop (sch l) (f (stp l))) → wpe (on_step f) l P X.
Proof. done. Qed.

Lemma loop_eta l : mkLoop (sch l) (stp l) = l.
Proof. by destruct l. Qed.

(** ** Calls of the cache *)

Lemma kv_call_spec {A} s o (r : SRequest) (m : KVRequest → M K (A * KVRequest)) P X :
  objects s !! o = Some r → wpe (m r) (kv_state s) P X →
  wpe (kv_call o m) s
    (λ a s', ∃ kr k', P (a, kr) k' ∧ s' = set_objects (alter (set_kv kr) o (objects s)) (set_kv_state k' s))
    (λ e _, ∃ k', X e k').
Proof.
  intros Hr Hm. unfold kv_call. wpe_step. eapply wpe_obj; [done|]. cbn beta. wpe_step. unfold on_kv. wpe_step.
  eapply wpe_mono; [apply Hm| |intros e k' He; by exists k']. intros [a kr] k' HP. wpe_step. apply wpe_upd. wpe_step.
  by exists kr, k'.
Qed.

Lemma sinv_holds xr ex s k' :
  sinv xr ex s → (total → kv_ready k') →
  (∀ rid, kv_holds k' rid → kv_holds (kv_state s) rid ∨ ∃ o, o ∈ active xr s ∧ name s o = rid) →
  sinv xr ex (set_kv_state k' s).
Proof.
  intros Hs Hready Hk. pose proof Hs as [H1 H2 H3 H4 H5 H6 H7 H8 H9]. split; try done.
  intros rid Hrid. destruct (Hk rid Hrid) as [H|H]; [by apply H7|done].
Qed.

Lemma sinv_keeps xr ex s k' :
  sinv xr ex s → kv_keeps (kv_state s) k' → sinv xr ex (set_kv_state k' s).
Proof.
  intros Hs [Hready Hk]. apply sinv_holds; [done|intros Ht; apply Hready, Hs, Ht|]. intros rid H. left. by apply Hk. Qed.

Lemma sinv_kv xr ex s o (r : SRequest) (kr : KVRequest) k' :
  sinv xr ex s → objects s !! o = Some r → kv_same r kr → (total → kv_ready k') →
  (∀ rid, kv_holds k' rid → kv_holds (kv_state s) rid ∨ rid = request_id r ∧ o ∈ active xr s) →
  sinv xr ex (set_objects (alter (set_kv kr) o (objects s)) (set_kv_state k' s)).
Proof.
  intros Hs Hr Hsame Hready Hk. apply (sinv_alter c total xr ex (set_kv_state k' s)).
  - apply sinv_holds; [done|done|]. intros rid Hrid. destruct (Hk rid Hrid) as [?|[-> ?]]; [by left|right].
    exists o. unfold name. by rewrite Hr.
  - intros r' Hr'. simpl in Hr'. assert (r' = r) as -> by congruence.
    destruct Hsame as (Ea & Es & _ & Eo & Et & _ & Ec & Ep & _). simpl.
    unfold rok, waits, is_finished, num_tokens. simpl. rewrite Ea, Es, Et, Ec, Ep. unfold num_output_tokens. simpl. by rewrite Eo.
Qed.

(** A call for a placed request keeps the invariant of the step. *)
Lemma linv_kv xr budget l o (r : SRequest) (kr : KVRequest) k' :
  linv xr budget l → objects (sch l) !! o = Some r → kv_same r kr → (total → kv_ready k') →
  (∀ rid, kv_holds k' rid → kv_holds (kv_state (sch l)) rid ∨ rid = request_id r ∧ o ∈ active xr (sch l)) →
  linv xr budget (mkLoop (set_objects (alter (set_kv kr) o (objects (sch l))) (set_kv_state k' (sch l))) (stp l)).
Proof.
  intros Hl Hr Hsame Hready Hk. apply (linv_same c total); try done; [by apply (sinv_kv _ _ _ o r kr k'); first apply Hl|].
  simpl. intros o' r' Hr'. destruct (decide (o = o')) as [<-|Hne].
  - rewrite lookup_alter_eq, Hr in Hr'. injection Hr' as <-. exists r. split; [done|]. split; [exact (kv_same_progress _ _ Hsame)|].
    simpl. destruct Hsame as (_ & -> & _). done.
  - rewrite lookup_alter_ne in Hr' by done. by exists r'.
Qed.

(** ** The turn of a running request *)

(** The request under consideration: those scheduled stand before it. *)
Definition around o l : Prop := ∃ pre post,
  running (sch l) = pre ++ o :: post ∧ zlen pre ≤ req_index (stp l) ∧
  ∀ o', o' ∈ scheduled_running_reqs (stp l) → o' ∈ pre.

(** Only running requests have been scheduled, and none has been set aside. *)
Definition phase1 l : Prop := scheduled_new_reqs (stp l) = [] ∧ scheduled_resumed_reqs (stp l) = [] ∧
  queue_view (step_skipped_waiting (stp l)) = [].

(** The request's object, up to what the cache writes. *)
Definition turn_req o (r : SRequest) l : Prop := ∃ r' : SRequest, objects (sch l) !! o = Some r' ∧ kv_same r r'.

Lemma phase1_booked l : phase1 l → booked (stp l) = scheduled_running_reqs (stp l).
Proof. intros (H1 & H2 & _). unfold booked. by rewrite H1, H2, !app_nil_r. Qed.

Lemma running_nodup xr budget l : linv xr budget l → NoDup (running (sch l)).
Proof.
  intros Hl. pose proof (sinv_nodup _ _ _ _ _ (li_s _ _ _ _ _ Hl)) as H. apply NoDup_app in H as (H & _).
  by apply NoDup_app in H as (_ & _ & H).
Qed.

(** Taking a request off the running list. *)
Lemma linv_pop budget l v run :
  linv [] budget l → running (sch l) ≡ₚ v :: run → (v ∉ booked (stp l)) →
  linv [v] budget (mkLoop (set_running run (sch l)) (stp l)).
Proof.
  intros Hl Hp Hv. pose proof (li_s _ _ _ _ _ Hl) as Hs. apply (linv_sch c total []); try done.
  - by apply (sinv_run c total []).
  - intros o Ho. simpl. pose proof (proj2 (li_booked _ _ _ _ _ Hl) o Ho) as Hin. rewrite Hp in Hin.
    apply elem_of_cons in Hin as [->|Hin]; [done|done].
  - intros o r' Ho Hr'. left. exists r'. split; [|done]. unfold active in *. simpl in *. by rewrite Hp.
  - apply Hl.
Qed.

Lemma list_remove_app_l (x : Z) pre post :
  x ∈ pre → list_remove x (pre ++ post) = list_remove x pre ++ post.
Proof. intros H. by rewrite list_remove_app, decide_True. Qed.

(** Summing the embeddings of a request's inputs. *)
Lemma embeds_spec (r : Request) is_ acc l :
  (total → is_ = []) →
  wpe (foldM (λ acc i, e ← get_num_encoder_embeds r i; mret (acc + e)) is_ acc) l (λ _ l', l' = l) (λ _ _, ¬ total).
Proof.
  intros Hnil. revert acc. induction is_ as [|i is_ IH]; intros acc; cbn [foldM]; [by wpe_step|].
  assert (Hnt : ¬ total) by (intros Ht; by specialize (Hnil Ht)).
  wpe_step. wpe_step. unfold get_num_encoder_embeds. wpe_step. apply wpe_assert; [|done]. intros _. wpe_step.
  apply wpe_of_option; [|done]. intros f _. wpe_step. wpe_step. by apply IH.
Qed.

(** The victim gives back what it got; the budget grows. *)
Lemma undo_spec xr budget l s' v (r : SRequest) :
  linv xr budget l → v ∈ scheduled_running_reqs (stp l) → objects (sch l) !! v = Some r → rok c total r →
  objects s' = objects (sch l) →
  wpe (undo_scheduled v) (mkLoop s' (stp l))
    (λ _ l', ∃ n embeds, od_get (request_id r) (num_scheduled_tokens (stp l)) = Some n ∧
       l' = mkLoop s' (undone v (request_id r) n embeds (stp l))) (λ _ _, ¬ total).
Proof.
  intros Hl Hv Hr Hok Eo. unfold undo_scheduled. wpe_step. eapply wpe_on_obj; [by simpl; rewrite Eo|].
  assert (Hb : v ∈ booked (stp l)) by (apply elem_of_app; by left).
  assert (Hname : name (sch l) v = request_id r) by (unfold name; by rewrite Hr).
  assert (Hk : request_id r ∈ (num_scheduled_tokens (stp l)).*1).
  { rewrite (li_keys _ _ _ _ _ Hl), <-Hname. by apply list_elem_of_fmap_2. }
  assert (Hkb : request_id r ∈ (req_to_new_blocks (stp l)).*1).
  { rewrite (li_blocks _ _ _ _ _ Hl), <-(li_keys _ _ _ _ _ Hl). done. }
  wpe_step. apply wpe_on_step. wpe_step. wpe_step. simpl. wpe_step. apply wpe_of_option; [|by rewrite od_get_none].
  intros n Hn. wpe_step. apply wpe_on_step. simpl. rewrite (proj2 (od_mem_true _ _) Hkb). wpe_step. wpe_step. wpe_step.
  apply wpe_on_step. simpl. wpe_step.
  eapply wpe_mono; [apply embeds_spec| |done].
  - intros Ht. by rewrite (li_inputs _ _ _ _ _ Hl Ht).
  - intros embeds l' ->. apply wpe_on_step. exists n, embeds. split; [done|]. done.
Qed.

(** ** The choice of a victim *)

Lemma max_running_elem s best os : max_running s best os ∈ best.1 :: os.
Proof.
  revert best. induction os as [|o os IH]; intros best; simpl; [by left|].
  destruct (objects s !! o) as [r|].
  - specialize (IH (if key_lt (req_args best.2) (req_args r) then (o, r) else best)).
    destruct (key_lt _ _); simpl in IH; set_solver.
  - specialize (IH best). set_solver.
Qed.

Lemma removelast_remove (os : list Z) v : NoDup os → last os = Some v → removelast os = list_remove v os.
Proof.
  intros Hnd Hv. pose proof (last_split os v Hv) as Es. rewrite Es in Hnd |- * at 2. apply NoDup_app in Hnd as (_ & Hnd & _).
  rewrite list_remove_app, decide_False; [|intros H; apply (Hnd _ H); by left]. simpl. by rewrite decide_True, app_nil_r.
Qed.

Lemma remove_around pre (o : Z) post v :
  NoDup (pre ++ o :: post) → v ∈ pre ++ o :: post → v ≠ o →
  ∃ pre' post', list_remove v (pre ++ o :: post) = pre' ++ o :: post' ∧
    zlen pre' = zlen pre - (if decide (v ∈ pre) then 1 else 0) ∧ ∀ x, x ∈ pre → x ≠ v → x ∈ pre'.
Proof.
  intros Hnd Hv Hne. apply NoDup_app in Hnd as (Hnd & _ & _). rewrite list_remove_app. destruct (decide (v ∈ pre)) as [H|H].
  - exists (list_remove v pre), post. split; [done|]. split; [by apply zlen_list_remove|].
    intros x Hx Hxv. by apply elem_of_list_remove.
  - exists pre, (list_remove v post). simpl. rewrite decide_False by congruence. split; [done|]. split; [lia|done].
Qed.

Definition popped budget o (r : SRequest) l v l' : Prop :=
  linv [v] budget l' ∧ phase1 l' ∧ (v ≠ o → around o l') ∧ turn_req o r l' ∧
  length (running (sch l)) = S (length (running (sch l'))) ∧ token_budget (stp l) ≤ token_budget (stp l') ∧
  req_index (stp l) - 1 ≤ req_index (stp l').

(** The victim was not scheduled. *)
Lemma popped_idle budget o r l v :
  linv [] budget l → phase1 l → around o l → turn_req o r l → v ∈ running (sch l) →
  v ∉ scheduled_running_reqs (stp l) →
  popped budget o r l v (mkLoop (set_running (list_remove v (running (sch l))) (sch l)) (stp l)).
Proof.
  intros Hl Hph Har Hreq Hv Hn. pose proof (list_remove_perm _ _ Hv) as Hp.
  pose proof (running_nodup _ _ _ Hl) as Hnd. unfold popped. split_and!; try done.
  - apply linv_pop; [done|done|]. by rewrite phase1_booked.
  - intros Hne. destruct Har as (pre & post & Er & Hi & Hsub). rewrite Er in *.
    destruct (remove_around pre o post v Hnd Hv Hne) as (pre' & post' & Er' & Hz & Hin).
    exists pre', post'. simpl. split; [done|]. split; [destruct (decide (v ∈ pre)); lia|].
    intros x Hx. apply Hin; [by apply Hsub|congruence].
  - simpl. by rewrite Hp at 1.
  - simpl. lia.
Qed.

(** The victim was scheduled. *)
Lemma popped_booked budget o r l v (rv : SRequest) n embeds :
  linv [] budget l → phase1 l → around o l → turn_req o r l → v ∈ running (sch l) →
  v ∈ scheduled_running_reqs (stp l) → objects (sch l) !! v = Some rv →
  od_get (request_id rv) (num_scheduled_tokens (stp l)) = Some n →
  popped budget o r l v (mkLoop (set_running (list_remove v (running (sch l))) (sch l))
    (undone v (request_id rv) n embeds (stp l))).
Proof.
  intros Hl Hph Har Hreq Hv Hin Hrv Hn. pose proof (list_remove_perm _ _ Hv) as Hp.
  destruct (linv_undo c total [] budget l v rv n embeds Hl Hin Hrv Hn) as [Hl' Hno].
  pose proof (running_nodup _ _ _ Hl) as Hnd. unfold popped. split_and!; try done.
  - apply (linv_pop budget (mkLoop (sch l) (undone v (request_id rv) n embeds (stp l)))); done.
  - intros Hne. destruct Har as (pre & post & Er & Hi & Hsub). rewrite Er in *.
    destruct (remove_around pre o post v Hnd Hv Hne) as (pre' & post' & Er' & Hz & Hpre).
    exists pre', post'. simpl. split; [done|]. rewrite decide_True in Hz by by apply Hsub. split; [lia|].
    assert (Hs : NoDup (scheduled_running_reqs (stp l))).
    { rewrite <-phase1_booked by done. apply Hl. }
    intros x [Hxv Hx]%elem_of_list_remove; [|done]. by apply Hpre; [apply Hsub|].
  - simpl. by rewrite Hp at 1.
  - pose proof (li_counts _ _ _ _ _ Hl _ (proj1 (od_get_elem _ _ _ (scheduled_ok _ _ _ _ _ Hl)) Hn)) as H3. simpl in *. lia.
Qed.

Lemma victim_spec budget l o r :
  linv [] budget l → phase1 l → around o l → turn_req o r l →
  wpe (pop_victim c) l (popped budget o r l) (λ _ _, ¬ total).
Proof.
  intros Hl Hph Har Hreq. pose proof (running_nodup _ _ _ Hl) as Hnd.
  assert (Hobj : ∀ v, v ∈ running (sch l) → ∃ rv : SRequest, objects (sch l) !! v = Some rv ∧ rok c total rv).
  { intros v Hv. destruct (sinv_placed _ _ _ _ _ v (li_s _ _ _ _ _ Hl)) as (rv & H1 & _ & H2 & _); [|by exists rv].
    by apply active_placed, elem_of_app; right. }
  assert (Hne : running (sch l) ≠ []).
  { destruct Har as (pre & post & -> & _). by destruct pre. }
  unfold pop_victim. wpe_step. wpe_step. destruct (policy c).
  - wpe_step. destruct (last (running (sch l))) as [v|] eqn:Ev; [|by apply last_None in Ev].
    assert (Hv : v ∈ running (sch l)) by (by apply last_Some_elem_of).
    apply wpe_of_option; [|done]. intros v' [= <-]. wpe_step. apply wpe_on_sch. simpl. apply wpe_ret.
    rewrite (removelast_remove _ v) by done. apply popped_idle; try done.
    destruct Har as (pre & post & Er & _ & Hsub). intros Hin. apply Hsub in Hin. rewrite Er in Hnd, Ev.
    rewrite last_app, last_cons in Ev. apply NoDup_app in Hnd as (_ & Hnd & _). apply (Hnd _ Hin).
    destruct (last post) as [x|] eqn:Ex; injection Ev as ->; [right; by apply last_Some_elem_of|by left].
  - wpe_step. assert (∃ first rest, running (sch l) = first :: rest) as (first & rest & Erun).
    { destruct (running (sch l)); [done|]. by do 2 eexists. }
    destruct (Hobj first) as (rf & Hrf & _); [by rewrite Erun; left|].
    apply wpe_of_option; [|by rewrite Erun]. intros f' Hf'. rewrite Erun in Hf'. injection Hf' as <-.
    replace (tail (running (sch l))) with rest by by rewrite Erun. wpe_step. eapply wpe_on_obj; [done|]. cbn beta zeta.
    set (v := max_running _ _ _).
    assert (Hv : v ∈ running (sch l)).
    { pose proof (max_running_elem (sch l) (first, rf) rest) as H. unfold v. by rewrite Erun. }
    destruct (Hobj v Hv) as (rv & Hrv & Hok). wpe_step. apply wpe_on_sch. wpe_step. cbn beta. wpe_step.
    apply wpe_when; intros Hin.
    + apply bool_decide_eq_true in Hin. eapply wpe_mono; [apply (undo_spec [] budget l _ v rv); done| |done].
      intros [] l' (n & embeds & Hn & ->). wpe_step. by eapply popped_booked.
    + apply bool_decide_eq_false in Hin. wpe_step. by apply popped_idle.
Qed.

(** ** The loop *)

Lemma linv_preempted xr budget l v :
  linv xr budget l → linv xr budget (mkLoop (sch l) (set_preempted (preempted_reqs (stp l) ++ [v]) (stp l))).
Proof. intros []. split; try done. simpl. intros H. by destruct (preempted_reqs (stp l)). Qed.

(** The victim goes back to the waiting queue. *)
Lemma requeue_spec budget l v :
  linv [v] budget l →
  wpe (_preempt_request set_order v) (sch l) (λ _ s',
    linv [] budget (mkLoop s' (set_preempted (preempted_reqs (stp l) ++ [v]) (stp l))) ∧
    running s' = running (sch l) ∧ ∀ o, o ≠ v → objects s' !! o = objects (sch l) !! o) (λ _ _, ¬ total).
Proof.
  intros Hl. pose proof (li_s _ _ _ _ _ Hl) as Hs.
  eapply wpe_mono; [by apply (preempt_spec c total set_order set_order_perm _ _ _ Hs)| |done].
  intros [] s' (Hs' & Hrun & Hobj & _ & _ & Hprev).
  assert (Hlook : ∀ o, o ≠ v → objects s' !! o = objects (sch l) !! o).
  { intros o Hne. by rewrite Hobj, lookup_alter_ne by congruence. }
  split; [|done]. apply (linv_sch c total [v] [] budget _ s' (linv_preempted _ _ _ v Hl)); try done.
  - intros o Ho. rewrite Hrun. by apply (li_booked _ _ _ _ _ Hl).
  - intros o r' Ho Hr'. left. exists r'. unfold active in Ho. simpl in *. rewrite Hrun in Ho.
    assert (o ≠ v).
    { intros ->. pose proof (sinv_nodup _ _ _ _ _ Hs) as Hnd. apply NoDup_app in Hnd as (Hnd & _). by apply NoDup_cons in Hnd as [? _]. }
    split; [by right|]. by rewrite <-Hlook.
  - simpl. intros H. by destruct (preempted_reqs (stp l)).
Qed.

Lemma turn_req_kv o (r r1 : SRequest) (kr : KVRequest) l k' :
  objects (sch l) !! o = Some r1 → kv_same r r1 → kv_same r1 kr →
  turn_req o r (mkLoop (set_objects (alter (set_kv kr) o (objects (sch l))) (set_kv_state k' (sch l))) (stp l)).
Proof.
  intros H1 H2 H3. exists (set_kv kr r1). simpl. rewrite lookup_alter_eq, H1. split; [done|].
  exact (kv_same_trans _ _ _ H2 H3).
Qed.

Lemma preempting_allocate_spec budget o r n fuel : ∀ l,
  linv [] budget l → phase1 l → around o l → turn_req o r l → 0 < n → (length (running (sch l)) < fuel)%nat →
  wpe (allocate_or_preempt c set_order fuel o n) l (λ res l',
    linv [] budget l' ∧ phase1 l' ∧ token_budget (stp l) ≤ token_budget (stp l') ∧
    zlen (running (sch l')) - req_index (stp l') ≤ zlen (running (sch l)) - req_index (stp l) ∧
    (res ≠ None → around o l' ∧ turn_req o r l')) (λ _ _, ¬ total).
Proof.
  induction fuel as [|fuel IH]; intros l Hl Hph Har Hreq Hn Hfuel; [lia|]. cbn [allocate_or_preempt].
  destruct Hreq as (r1 & Hr1 & Hsame).
  assert (Hact : o ∈ active [] (sch l)).
  { destruct Har as (pre & post & Er & _). unfold active. rewrite Er. set_solver. }
  wpe_step. apply wpe_on_sch. eapply wpe_mono.
  { apply (kv_call_spec (sch l) o r1); [done|]. apply law_kv_alloc. }
  - intros res s' (kr & k' & (Hkr & Hhold & _ & Hready) & ->). simpl in Hkr, Hready, Hhold.
    assert (Hl' : linv [] budget (mkLoop (set_objects (alter (set_kv kr) o (objects (sch l))) (set_kv_state k' (sch l))) (stp l))).
    { apply (linv_kv _ _ _ o r1); try done.
      { intros Ht. apply Hready; [apply (li_s _ _ _ _ _ Hl), Ht|apply law_kv_none|done]. }
      intros rid [?| ->]%Hhold; [by left|by right]. }
    assert (Hreq' := turn_req_kv o r r1 kr l k' Hr1 Hsame Hkr). clear Hkr Hready Hhold.
    set (l1 := mkLoop _ _) in Hl', Hreq' |- *. cbn beta.
    destruct res as [b|]; [by wpe_step|]. wpe_step.
    eapply wpe_mono; [by apply (victim_spec budget l1 o r)| |done].
    intros v l2 (Hl2 & Hph2 & Har2 & Hreq2 & Hlen & Hbud & Hidx). wpe_step. apply wpe_on_sch.
    eapply wpe_mono; [by apply requeue_spec| |done]. intros [] s3 (Hl3 & Hrun3 & Hobj3). cbn beta. wpe_step. apply wpe_on_step.
    assert (Hm : zlen (running s3) - req_index (stp l2) ≤ zlen (running (sch l)) - req_index (stp l)).
    { unfold zlen in *. rewrite Hrun3. simpl in *. lia. }
    simpl. destruct (Z.eqb_spec v o) as [->|Hne]; [by wpe_step|].
    eapply wpe_mono; [apply IH| |done]; try done.
    + destruct (Har2 Hne) as (pre & post & Er & H). exists pre, post. simpl. by rewrite Hrun3.
    + destruct Hreq2 as (r2 & Hr2 & H2). exists r2. simpl. by rewrite Hobj3 by congruence.
    + simpl in *. rewrite Hrun3. lia.
    + intros res l4 (H1 & H2 & H3 & H4 & H5). split_and!; [done|done|simpl in *; lia|simpl in *; lia|done].
  - intros e s' [k' He]. intros Ht. specialize (He (si_ready _ _ _ _ _ (li_s _ _ _ _ _ Hl) Ht) law_kv_none eq_refl). simpl in He. lia.
Qed.
End evict.
