(* ===== verification/ScheduleRunning.v ===== *)
(** * The running requests of a scheduling step

    The first loop of [schedule]: the tokens of a request stay within what is left
    of it, of the budget and of the model's length; a turn keeps the invariant of
    the step; the loop ends. *)

From S2P Require Import Prelude.
From S2P Require Import OrderedDict.
From S2P Require Import FreeQueue.
From S2P Require Import Request.
From S2P Require Import BlockHash.
From S2P Require Import RequestQueue.
From S2P Require Import SchedUtils.
From S2P Require Import SchedPrefill.
From S2P Require Import EncoderCache.
From S2P Require Import SchedEncoder.
From S2P Require Import KVManager.
From S2P Require Import MixedPrefill.
From S2P Require Import SchedInterface.
From S2P Require Import Sched.
From S2P Require Import Schedule.
From S2P Require Import SchedInv.
From S2P Require Import ScheduleInv.
Local Open Scope Z_scope.

(** The settings the theorems are about: the synchronous scheduler, with block
    sizes that are sizes. *)
Record config_ok (c : SchedConfig) : Prop := {
  co_sync : async_scheduling c = false;
  co_block : 0 < cache_block_size (prefill c);
  co_mamba : ∀ b, mamba_state_block_size (prefill c) = Some b → 0 < b;
  co_tokens : 0 ≤ max_num_scheduled_tokens c;
}.

(** ** Encoder inputs *)

Section encoder.
Context {E : Type} `{!EncoderCache E}.

(** Where the step ends before an input, it has become shorter. *)
Lemma encoder_turn_bounds dec chunk (r : Request) nc shift i f p (e : E) :
  0 ≤ plan_num_new_tokens p →
  wpe (encoder_turn dec chunk None r nc shift i f p) e (λ res _,
    match res with
    | inl p' => plan_num_new_tokens p' = plan_num_new_tokens p
    | inr p' => 0 ≤ plan_num_new_tokens p' ≤ plan_num_new_tokens p
    end) (λ _ _, True).
Proof.
  intros Hn. unfold encoder_turn. cbn zeta. destruct (Z.leb_spec (nc + plan_num_new_tokens p + shift) (offset (mm_position f))).
  { wpe_step. lia. }
  destruct (dec && (0 <? nc)). { wpe_step. apply wpe_assert; [|done]. intros _. by wpe_step. }
  destruct (_ <=? nc); [by wpe_step|]. wpe_step.
  assert (Hany : ∀ {A} (m : M E A) e, wpe m e (λ _ _, True) (λ _ _, True)).
  { intros A m e0. unfold wpe. by destruct (m e0) as [[]]. }
  eapply wpe_mono; [apply Hany| |done]. intros [] e' _; [by wpe_step|].
  destruct (chunk && _ && _). { wpe_step. simpl. lia. }
  wpe_step. eapply wpe_mono; [apply Hany| |done]. intros [] e'' _; cbn [negb].
  - wpe_step. apply wpe_of_option; [|done]. intros [a b] _. destruct (_ =? 0); by wpe_step.
  - wpe_step. simpl. destruct (Z.ltb_spec (nc + shift) (offset (mm_position f))); lia.
Qed.

Lemma encoder_loop_bounds dec chunk (r : Request) nc shift fs : ∀ i p (e : E),
  0 ≤ plan_num_new_tokens p →
  wpe (encoder_loop dec chunk None r nc shift i fs p) e
    (λ p' _, 0 ≤ plan_num_new_tokens p' ≤ plan_num_new_tokens p) (λ _ _, True).
Proof.
  induction fs as [|f fs IH]; intros i p e Hn; cbn [encoder_loop]; [wpe_step; lia|]. wpe_step.
  eapply wpe_mono; [by apply encoder_turn_bounds| |done]. intros [p'|p'] e' Hp; [|by wpe_step].
  rewrite <-Hp. apply IH. lia.
Qed.

(** Nothing happens for a request without inputs. *)
Lemma try_schedule_bounds dec chunk (r : Request) nc n budget shift (e : E) :
  0 ≤ n →
  wpe (_try_schedule_encoder_inputs dec chunk None r nc n budget shift) e
    (λ res _, 0 ≤ res.1.1.2 ≤ n ∧ (mm_features r = [] → res.1.1.1 = [] ∧ res.2 = []))
    (λ _ _, mm_features r ≠ []).
Proof.
  intros Hn. unfold _try_schedule_encoder_inputs. destruct ((n =? 0) || (zlen (mm_features r) =? 0)) eqn:Eq.
  { wpe_step. simpl. split; [lia|done]. }
  assert (Hne : mm_features r ≠ []). { intros E0. rewrite E0, orb_true_r in Eq. done. }
  wpe_step. apply wpe_assert; [|done]. intros _. wpe_step.
  eapply wpe_mono; [by apply encoder_loop_bounds| |done]. intros p e' Hp. wpe_step. simpl in *. split; [done|by intros ?].
Qed.
End encoder.

Section running.
Context {Q K E : Type} `{!RequestQueue Q} `{!QueueLaws Q} `{!KVCache K} `{!KVCacheLaws K}
  `{!EncoderCache E} `{!EncoderLaws E}.
Context (c : SchedConfig) (total : Prop) (set_order : list Z → list Z) (g : StepSettings).
Hypothesis set_order_perm : ∀ l, set_order l ≡ₚ l.
Hypothesis Hc : config_ok c.

Abbreviation Sch := (Scheduler Q K E).
Abbreviation Loop := (Loop (Q := Q) (K := K) (E := E)).
Abbreviation sinv := (sinv c total).
Abbreviation linv := (linv c total).
Abbreviation rok := (rok c total).
Implicit Types (s : Sch) (l : Loop) (st : Step (Q := Q)) (xr : list Z).

(** ** How many tokens *)

Lemma threshold_bounds n : 0 ≤ n → 0 ≤ apply_threshold g n ≤ n ∧ (0 < n → 0 < apply_threshold g n).
Proof.
  intros Hn. unfold apply_threshold. destruct (Z.ltb_spec 0 (long_prefill_token_threshold g)); simpl; [|lia].
  destruct (Z.ltb_spec (long_prefill_token_threshold g) n); lia.
Qed.

Lemma limit_bounds mixed st rid n : 0 ≤ n → 0 ≤ limit_prefill g mixed st rid n ≤ n.
Proof. intros Hn. unfold limit_prefill. destruct (_ || _); lia. Qed.

Lemma chunk_bounds (r : Request) computed n :
  0 ≤ n → 0 ≤ _balanced_prefill_chunk (prefill c) r computed n ≤ n ∧
  (0 < n → 0 < _balanced_prefill_chunk (prefill c) r computed n).
Proof.
  intros Hn. destruct (decide (n = 0)) as [->|Hne].
  - unfold _balanced_prefill_chunk. rewrite orb_true_r. lia.
  - pose proof (balanced_bounds (prefill c) r computed n (co_block _ Hc) (co_mamba _ Hc) ltac:(lia)). lia.
Qed.

(** Within the request, the budget and the model's length. *)
Lemma running_tokens_bounds l (r : SRequest) :
  rok r → num_computed_tokens r ≤ num_tokens r → 0 ≤ token_budget (stp l) →
  0 ≤ running_tokens c g l r ≤ token_budget (stp l) ∧
  num_computed_tokens r + running_tokens c g l r ≤ num_tokens r + zlen (spec_token_ids r) ∧
  num_computed_tokens r + running_tokens c g l r < sc_max_model_len c.
Proof.
  intros (Hlen & Hph & _) Hroom Hb. unfold running_tokens, num_tokens_with_spec. rewrite Hph. unfold num_tokens in *.
  pose proof (zlen_nonneg (spec_token_ids r)). set (n0 := _ - num_computed_tokens r).
  destruct (threshold_bounds n0 ltac:(lia)) as [H1 _]. set (n1 := Z.min (apply_threshold g n0) _).
  destruct (chunk_bounds r (num_computed_tokens r) n1 ltac:(lia)) as [H2 _]. set (n2 := _balanced_prefill_chunk _ _ _ _) in *.
  pose proof (limit_bounds (mp_tokens (mixed_prefill_budget (sch l))) (stp l) (request_id r) n2 ltac:(lia)). lia.
Qed.

Lemma mamba_block_pos : 0 < mamba_block_size (prefill c).
Proof.
  unfold mamba_block_size. destruct (mamba_state_block_size (prefill c)) eqn:Em; simpl; [by apply (co_mamba _ Hc)|apply Hc].
Qed.

(** ** The parts of a turn *)

Lemma linv_enc xr budget l e :
  linv xr budget l → linv xr budget (mkLoop (set_enc_state e (sch l)) (stp l)).
Proof.
  intros Hl. apply (linv_same c total); try done.
  - by eapply sinv_same; [apply Hl|..].
  - simpl. intros o r' Hr'. by exists r'.
Qed.

Lemma encoder_part_spec l (r : SRequest) computed n :
  rok r → 0 ≤ n →
  wpe (encoder_part c r computed n) l (λ res l',
    (∃ e, l' = mkLoop (set_enc_state e (sch l)) (stp l)) ∧ 0 ≤ res.1.1.2 ≤ n ∧
    (total → res.1.1.1 = [] ∧ res.2 = [])) (λ _ _, ¬ total).
Proof.
  intros Hok Hn. pose proof Hok as (_ & _ & _ & Hmm & _). unfold encoder_part. wpe_step. wpe_step. destruct (has_encoder_inputs r).
  - apply wpe_on_sch. unfold on_enc. wpe_step. eapply wpe_mono; [by apply try_schedule_bounds|..].
    + intros res e' [H1 H2]. split; [by exists e'|]. split; [done|]. intros Ht. by apply H2, Hmm.
    + intros ? e1 Hne Ht. by apply Hne, Hmm.
  - wpe_step. split; [exists (enc_state (sch l)); by destruct l as [[] ?]|]. simpl. split; [lia|done].
Qed.

Lemma align_part_spec l (r : Request) n hit :
  queue_ok (waiting (sch l)) → 0 ≤ n →
  wpe (align_part c r n hit) l (λ n' l', l' = l ∧ 0 ≤ n' ≤ n) (λ _ _, ¬ total).
Proof.
  intros Hq Hn. unfold align_part. wpe_step. wpe_step. destruct (need_mamba_block_aligned_split _).
  - wpe_step. apply wpe_on_sch. unfold on_waiting. wpe_step. unfold wpe. rewrite law_len by done. cbn beta iota.
    apply wpe_ret. split; [by destruct l as [[] ?]|]. apply mamba_split_bounds; [apply mamba_block_pos|done].
  - wpe_step. split; [done|lia].
Qed.

(** The encoder inputs of a scheduled request; without inputs nothing changes. *)
Lemma schedule_encoder_spec l o (r : SRequest) inputs external nb :
  objects (sch l) !! o = Some r → (total → inputs = [] ∧ external = []) →
  wpe (schedule_encoder o inputs external nb) l (λ _ l', ∃ e enc_inputs b,
    l' = mkLoop (set_enc_state e (sch l)) (set_enc_budget b (set_enc_inputs enc_inputs (stp l))) ∧
    (total → enc_inputs = scheduled_encoder_inputs (stp l))) (λ _ _, ¬ total).
Proof.
  intros Hr Ht.
  assert (Hloop : ∀ is_ l0, (total → is_ = []) →
    wpe (on_sch (on_enc (foreach is_ (λ i, allocate r i)))) l0 (λ _ l', ∃ e, l' = mkLoop (set_enc_state e (sch l0)) (stp l0)) (λ _ _, ¬ total)).
  { intros is_ l0 Hnil. destruct is_ as [|i is_].
    - exists (enc_state (sch l0)). by destruct l0 as [[] ?].
    - apply wpe_on_sch. unfold on_enc. wpe_step. unfold wpe. destruct (foreach _ _ _) as [[]]; [by eexists|].
      intros H. by specialize (Hnil H). }
  unfold schedule_encoder. wpe_step. eapply wpe_on_obj; [done|]. cbn beta. wpe_step. apply wpe_when; intros Hi.
  - assert (Hnt : ¬ total). { intros H. by rewrite (proj1 (Ht H)) in Hi. }
    wpe_step. apply wpe_on_step. wpe_step. eapply wpe_mono; [by apply Hloop| |done]. intros [] l1 (e1 & ->).
    apply wpe_on_step. eapply wpe_mono; [by apply Hloop| |done]. intros [] l2 (e2 & ->).
    by do 3 eexists.
  - eapply wpe_mono; [apply Hloop; by intros H; apply Ht| |done]. intros [] l2 (e2 & ->).
    exists e2, (scheduled_encoder_inputs (stp l)), (encoder_compute_budget (stp l)). split; [|done].
    by destruct l as [? []].
Qed.

(** The drafts that are scheduled take the request exactly to its end. *)
Lemma spec_tokens_spec l o (r : SRequest) n :
  objects (sch l) !! o = Some r → num_output_placeholders r = 0 →
  num_computed_tokens r + n ≤ num_tokens r + zlen (spec_token_ids r) →
  num_computed_tokens r + n < sc_max_model_len c →
  wpe (schedule_spec_tokens o n) l (λ _ l', ∃ ds, advance_ok c r n (zlen ds) ∧
    stp l' = set_spec_tokens (with_drafts (request_id r) ds (scheduled_spec_decode_tokens (stp l))) (stp l) ∧
    (sch l' = sch l ∨ sch l' = set_objects (alter (on_req (set_spec [])) o (objects (sch l))) (sch l)))
    (λ _ _, ¬ total).
Proof.
  intros Hr Hph Hn Hlen. assert (Hsame : ∀ l, stp l = set_spec_tokens (scheduled_spec_decode_tokens (stp l)) (stp l)) by by intros [? []].
  unfold schedule_spec_tokens. wpe_step. eapply wpe_on_obj; [done|]. cbn beta zeta. destruct (is_nil (spec_token_ids r)) eqn:En.
  - wpe_step. destruct (spec_token_ids r); [|done]. exists []. split; [unfold advance_ok; rewrite zlen_nil in *; lia|].
    split; [apply Hsame|by left].
  - rewrite Hph. set (k := _ - 0). wpe_step. apply wpe_when; intros Hk.
    + apply Z.ltb_lt in Hk. apply wpe_on_step. apply wpe_on_sch. apply wpe_upd. simpl.
      set (ds := py_slice (spec_token_ids r) 0 k).
      assert (Hds : zlen ds = k).
      { unfold ds. rewrite py_slice_nonneg by lia. unfold zlen in *. rewrite length_take, drop_0. lia. }
      exists ds. split; [unfold advance_ok; lia|]. split; [|by right].
      unfold with_drafts. destruct ds eqn:Eds; [rewrite zlen_nil in Hds; lia|]. by rewrite <-Eds.
    + apply Z.ltb_ge in Hk. apply wpe_on_sch. apply wpe_upd. exists []. simpl.
      split; [unfold advance_ok; rewrite zlen_nil; lia|]. split; [apply Hsame|by right].
Qed.

Lemma linv_clear_spec xr budget l o :
  linv xr budget l →
  linv xr budget (mkLoop (set_objects (alter (on_req (set_spec [])) o (objects (sch l))) (sch l)) (stp l)).
Proof.
  intros Hl. apply (linv_same c total); try done.
  - apply (sinv_alter c total); [apply Hl|]. by intros r _.
  - simpl. intros o' r'. destruct (decide (o = o')) as [<-|Hne].
    + rewrite lookup_alter_eq. destruct (objects (sch l) !! o) as [r|]; [|done]. intros [= <-]. by exists r.
    + rewrite lookup_alter_ne by done. intros Hr'. by exists r'.
Qed.

Lemma alter_spec_lookup s o (r : SRequest) s' :
  objects s !! o = Some r →
  s' = s ∨ s' = set_objects (alter (on_req (set_spec [])) o (objects s)) s →
  ∃ r' : SRequest, objects s' !! o = Some r'.
Proof. intros Hr [->| ->]; [by exists r|]. simpl. rewrite lookup_alter_eq, Hr. by eexists. Qed.

(** What follows a successful allocation. *)
Lemma running_booked budget l o (r r' : SRequest) b n inputs external nb :
  linv [] budget l → phase1 l → around o l → objects (sch l) !! o = Some r' → kv_same r r' →
  0 < n ≤ token_budget (stp l) → num_output_placeholders r = 0 →
  num_computed_tokens r + n ≤ num_tokens r + zlen (spec_token_ids r) →
  num_computed_tokens r + n < sc_max_model_len c →
  (total → inputs = [] ∧ external = []) →
  wpe (on_step (λ st, set_running_reqs (scheduled_running_reqs st ++ [o]) st) ;;
       on_step (book (request_id r) b n) ;;
       next_index ;;
       schedule_spec_tokens o n ;;
       schedule_encoder o inputs external nb ;;
       mret true) l
    (λ more l', linv [] budget l' ∧ phase1 l' ∧ running (sch l') = running (sch l) ∧
       req_index (stp l') = req_index (stp l) + 1 ∧
       scheduled_running_reqs (stp l') = scheduled_running_reqs (stp l) ++ [o]) (λ _ _, ¬ total).
Proof.
  intros Hl Hph Har Hr' Hsame Hn Hpl Htok Hlen Hin. pose proof Hsame as (Ea & _ & _ & _ & Et & Es & Ec & Ep & _).
  destruct Har as (pre & post & Erun & Hi & Hsub).
  assert (Ho : o ∈ running (sch l)) by (rewrite Erun; set_solver).
  assert (Hno : o ∉ booked (stp l)).
  { rewrite phase1_booked by done. intros H%Hsub. pose proof (running_nodup _ _ _ _ _ Hl) as Hnd. rewrite Erun in Hnd.
    apply NoDup_app in Hnd as (_ & Hnd & _). apply (Hnd _ H). by left. }
  wpe_step. apply wpe_on_step. wpe_step. apply wpe_on_step. wpe_step. apply wpe_on_step. wpe_step. cbn [sch stp].
  set (l1 := mkLoop _ _).
  eapply wpe_mono; [apply (spec_tokens_spec l1 o r')| |done].
  - done.
  - by rewrite Ep.
  - unfold num_tokens. rewrite Ec, Et, Es. done.
  - by rewrite Ec.
  - intros [] l2 (ds & Hadv & Est & Esch). destruct (alter_spec_lookup _ o r' _ Hr' Esch) as [r2 Hr2]. wpe_step.
    eapply wpe_mono; [by apply (schedule_encoder_spec l2 o r2)| |done]. intros [] l3 (e & ei & eb & -> & Hei). wpe_step.
    set (st3 := set_enc_budget eb (set_enc_inputs ei (stp l2))).
    assert (Est3 : st3 = set_enc_budget eb (set_enc_inputs ei (set_spec_tokens
      (with_drafts (request_id r') ds (scheduled_spec_decode_tokens (stp l1))) (stp l1)))) by (unfold st3; by rewrite Est).
    assert (Hl3 : linv [] budget (mkLoop (sch l) st3)).
    { eapply (linv_book c total [] budget l o r' n b ds); try (rewrite Est3; done); try done.
      - rewrite Est3. unfold booked, l1. simpl. rewrite <-(assoc_L (++)). simpl. by rewrite <-Permutation_middle.
      - rewrite Est3. unfold l1. simpl. by rewrite Ea.
      - rewrite Est3. unfold l1. simpl. by rewrite Ea.
      - intros Ht. change (ei = []). rewrite (Hei Ht), Est. by apply Hl.
      - rewrite Est3. unfold l1. simpl. apply Hl. }
    split; [|rewrite Est3; simpl; destruct Hph; destruct Esch as [-> | ->]; by split_and!].
    apply (linv_enc [] budget (mkLoop (sch l2) st3) e). destruct Esch as [-> | ->]; [done|].
    by apply (linv_clear_spec [] budget (mkLoop (sch l) st3)).
Qed.

(** ** The loop *)

(** Between two turns: those scheduled stand before the index. *)
Definition between l : Prop := ∃ pre post,
  running (sch l) = pre ++ post ∧ zlen pre ≤ req_index (stp l) ∧
  ∀ o, o ∈ scheduled_running_reqs (stp l) → o ∈ pre.

Definition left_to_visit l : Z := zlen (running (sch l)) - req_index (stp l).

Lemma between_around l o :
  between l → py_get (running (sch l)) (req_index (stp l)) = Some o → around o l.
Proof.
  intros (pre & post & Er & Hi & Hsub) Ho. pose proof (zlen_nonneg pre). rewrite py_get_nonneg in Ho by lia.
  exists (take (Z.to_nat (req_index (stp l))) (running (sch l))), (drop (S (Z.to_nat (req_index (stp l)))) (running (sch l))).
  split; [by rewrite take_drop_middle|]. split; [unfold zlen; rewrite length_take; lia|].
  intros o' Ho'. rewrite Er, take_app_ge by (unfold zlen in Hi; lia). apply elem_of_app. left. by apply Hsub.
Qed.

Lemma around_next l l' o :
  around o l → running (sch l') = running (sch l) → req_index (stp l') = req_index (stp l) + 1 →
  (∀ x, x ∈ scheduled_running_reqs (stp l') → x ∈ scheduled_running_reqs (stp l) ∨ x = o) → between l'.
Proof.
  intros (pre & post & Er & Hi & Hsub) Erun Ei Hs. exists (pre ++ [o]), post. rewrite Erun, Er, <-(assoc_L (++)).
  split; [done|]. split; [rewrite zlen_app, zlen_cons, zlen_nil; lia|].
  intros x [H| ->]%Hs; apply elem_of_app; [left; by apply Hsub|right; by left].
Qed.

Lemma linv_index xr budget l i :
  linv xr budget l → linv xr budget (mkLoop (sch l) (set_index i (stp l))).
Proof. by intros []. Qed.

Definition turned budget l (more : bool) l' : Prop :=
  linv [] budget l' ∧ phase1 l' ∧ (more = true → between l' ∧ left_to_visit l' < left_to_visit l).

Lemma turn_skipped budget l e o :
  linv [] budget l → phase1 l → around o l →
  turned budget l true (mkLoop (set_enc_state e (sch l)) (set_index (req_index (stp l) + 1) (stp l))).
Proof.
  intros Hl Hph Har. split; [|split; [done|]].
  - apply (linv_enc _ _ (mkLoop (sch l) _) e). by apply linv_index.
  - intros _. split; [eapply (around_next l); eauto|unfold left_to_visit; simpl; lia].
Qed.

Lemma running_turn_spec budget l :
  linv [] budget l → phase1 l → between l → 0 < left_to_visit l → 0 < token_budget (stp l) →
  wpe (running_turn c set_order g) l (turned budget l) (λ _ _, ¬ total).
Proof.
  intros Hl Hph Hbet Hidx Hbud. unfold running_turn. wpe_step. wpe_step. wpe_step.
  apply wpe_of_option; cycle 1.
  { destruct Hbet as (pre & post & Er & Hi & _). pose proof (zlen_nonneg pre). rewrite py_get_nonneg by lia.
    intros H0%lookup_ge_None. unfold left_to_visit, zlen in *. lia. }
  intros o Ho. pose proof (between_around l o Hbet Ho) as Har.
  assert (Hrun : o ∈ running (sch l)). { destruct Har as (pre & post & -> & _). set_solver. }
  destruct (sinv_placed _ _ _ _ _ o (li_s _ _ _ _ _ Hl)) as (r & Hr & _ & Hok & _); [by apply active_placed, elem_of_app; right|].
  pose proof (li_room _ _ _ _ _ Hl o r ltac:(by apply elem_of_app; right) Hr) as Hroom.
  assert (Hskip : ∀ l1 e, l1 = mkLoop (set_enc_state e (sch l)) (stp l) →
    wpe (next_index ;; mret true) l1 (turned budget l) (λ _ _, ¬ total)).
  { intros l1 e ->. wpe_step. apply wpe_on_step. wpe_step. exact (turn_skipped budget l e o Hl Hph Har). }
  wpe_step. eapply wpe_on_obj; [done|]. cbn beta.
  destruct ((current_step (sch l) <? next_decode_eligible_step r) || at_max_tokens r).
  { apply (Hskip _ (enc_state (sch l))). by destruct l as [[] ?]. }
  destruct (running_tokens_bounds l r Hok Hroom ltac:(lia)) as (Hn & Htok & Hmax). set (n0 := running_tokens c g l r) in *.
  wpe_step. eapply wpe_mono; [apply encoder_part_spec; [done|lia]| |done].
  intros [[[inputs n1] nb] external] l1 ((e & ->) & Hn1 & Hin). simpl in Hn1, Hin. wpe_step.
  eapply wpe_mono; [apply align_part_spec; [apply Hl|lia]| |done]. intros n2 l2 [-> Hn2].
  destruct (Z.eqb_spec n2 0) as [_|Hne]; [by eapply Hskip|].
  wpe_step. wpe_step. wpe_step. set (l1 := mkLoop _ _).
  assert (Hl1 : linv [] budget l1) by by apply linv_enc.
  eapply wpe_mono; [apply (preempting_allocate_spec c total set_order set_order_perm budget o r n2 _ l1)| |done]; try done.
  { exists r. split; [done|apply kv_same_refl]. } { lia. } { simpl. lia. }
  intros [b|] l3 (Hl3 & Hph3 & Hb3 & Hm3 & Hsome); [|by wpe_step].
  destruct (Hsome ltac:(done)) as [Har3 (r3 & Hr3 & Hsame3)]. simpl in Hb3, Hm3.
  eapply wpe_mono; [eapply (running_booked budget l3 o r r3); try done; [lia|apply Hok|lia|lia]| |done].
  intros more l4 (Hl4 & Hph4 & Erun4 & Ei4 & Es4). split; [done|]. split; [done|]. intros _. split.
  - eapply (around_next l3); [done|done|done|]. intros x. rewrite Es4. intros [?| ?%list_elem_of_singleton]%elem_of_app; auto.
  - unfold left_to_visit in *. simpl in *. rewrite Erun4, Ei4. lia.
Qed.

Lemma running_loop_spec budget fuel : ∀ l,
  linv [] budget l → phase1 l → between l → left_to_visit l ≤ Z.of_nat fuel →
  wpe (running_loop c set_order g fuel) l (λ _ l', linv [] budget l' ∧ phase1 l') (λ _ _, ¬ total).
Proof.
  induction fuel as [|fuel IH]; intros l Hl Hph Hbet Hf; cbn [running_loop].
  - wpe_step. wpe_step. destruct (_ && _) eqn:Eq; [|by wpe_step]. apply andb_true_iff in Eq as [Eq%Z.ltb_lt _].
    unfold left_to_visit in Hf. lia.
  - wpe_step. wpe_step. destruct (_ && _) eqn:Eq; [|by wpe_step]. apply andb_true_iff in Eq as [E1%Z.ltb_lt E2%Z.ltb_lt].
    wpe_step. eapply wpe_mono; [apply (running_turn_spec budget l); try done; unfold left_to_visit; lia| |done].
    intros [] l' (Hl' & Hph' & Hmore); [|by wpe_step]. destruct (Hmore eq_refl). apply IH; try done. lia.
Qed.

(** Without adapters nothing is recorded. *)
Lemma record_loras_spec budget l :
  (total → max_loras c = None) → linv [] budget l → phase1 l →
  wpe (record_loras c) l (λ _ l', linv [] budget l' ∧ phase1 l') (λ _ _, ¬ total).
Proof.
  intros Hlora Hl Hph. unfold record_loras. wpe_step. wpe_step. destruct (max_loras c); [|by wpe_step].
  wpe_step. apply wpe_assert; [intros _|by intros _ Ht; specialize (Hlora Ht)]. apply wpe_on_step.
  split; [by destruct Hl|done].
Qed.
End running.
