(* ===== verification/ScheduleWaiting.v ===== *)
(** * The waiting requests of a scheduling step

    The second loop of [schedule]: a waiting request is set aside, left at the head
    of its queue, or starts to run with its tokens booked; each of these keeps the
    invariant of the step, and the loop ends. *)

From S2P Require Import Prelude.
From S2P Require Import OrderedDict.
From S2P Require Import FreeQueue.
From S2P Require Import Request.
From S2P Require Import BlockHash.
From S2P Require Import RequestQueue.
From S2P Require Import SchedUtils.
From S2P Require Import SchedPrefill.
From S2P Require Import EncoderCache.
From S2P Require Import KVManager.
From S2P Require Import SchedInterface.
From S2P Require Import Sched.
From S2P Require Import Schedule.
From S2P Require Import SchedInv.
From S2P Require Import ScheduleInv.
From S2P Require Import ScheduleRunning.
Local Open Scope Z_scope.

Section waiting.
Context {Q K E : Type} `{!RequestQueue Q} `{!QueueLaws Q} `{!KVCache K} `{!KVCacheLaws K}
  `{!EncoderCache E} `{!EncoderLaws E}.
Context (c : SchedConfig) (total : Prop) (grammar_ready : Z → bool) (set_order : list Z → list Z)
  (g : StepSettings).
Hypothesis set_order_perm : ∀ l, set_order l ≡ₚ l.
Hypothesis Hc : config_ok c.

Abbreviation Sch := (Scheduler Q K E).
Abbreviation Loop := (Loop (Q := Q) (K := K) (E := E)).
Abbreviation sinv := (sinv c total).
Abbreviation linv := (linv c total).
Abbreviation rok := (rok c total).
Implicit Types (s : Sch) (l : Loop) (st : Step (Q := Q)) (xr : list Z) (w : which_queue).

(** ** The two queues *)

Definition queue_of w s : Q := match w with FromWaiting => waiting s | FromSkipped => skipped_waiting s end.
Definition set_queue w (q : Q) s : Sch := match w with FromWaiting => set_waiting q s | FromSkipped => set_skipped q s end.

Lemma wpe_on_queue {A} w (m : M Q A) s a q (P : A → Sch → Prop) X :
  m (queue_of w s) = (Ret a, q) → P a (set_queue w q s) → wpe (on_queue w m) s P X.
Proof. intros Hm HP. destruct w; unfold wpe; simpl in *; unfold on_waiting, on_skipped, zoom; by rewrite Hm. Qed.

Lemma set_queue_same w s : set_queue w (queue_of w s) s = s.
Proof. by destruct w, s. Qed.

Lemma queue_of_ok w xr ex s : sinv xr ex s → queue_ok (queue_of w s).
Proof. intros Hs. destruct w; apply Hs. Qed.

Lemma queued_pop w ex s a q :
  queue_view (queue_of w s) ≡ₚ a :: queue_view q → queued ex s ≡ₚ a :: queued ex (set_queue w q s).
Proof.
  intros Hp. unfold queued. destruct w; simpl in *; rewrite Hp; [done|].
  simpl. by rewrite <-Permutation_middle.
Qed.

Definition num_queued s : nat := length (queue_view (waiting s)) + length (queue_view (skipped_waiting s)).

Lemma num_queued_pop w s a q :
  queue_view (queue_of w s) ≡ₚ a :: queue_view q → num_queued s = S (num_queued (set_queue w q s)).
Proof. intros Hp%Permutation_length. unfold num_queued. destruct w; simpl in *; lia. Qed.

(** The request at the head of a queue. *)
Definition peeked w a s : Prop := ∃ q, peek_request (queue_of w s) = (Ret a, queue_of w s) ∧
  pop_request (queue_of w s) = (Ret a, q) ∧ queue_ok q ∧ queue_view (queue_of w s) ≡ₚ a :: queue_view q.

Lemma peeked_of w xr ex s : sinv xr ex s → queue_view (queue_of w s) ≠ [] → ∃ a, peeked w a s.
Proof.
  intros Hs Hne. destruct (law_peek (queue_of w s)) as (a & q & H1 & H2 & H3 & H4); [by eapply queue_of_ok|done|].
  by exists a, q.
Qed.

Lemma peeked_queued w a ex s : peeked w a s → a ∈ queued ex s.
Proof. intros (q & _ & _ & _ & Hp). rewrite (queued_pop _ _ _ _ _ Hp). by left. Qed.

(** A queue with a request is selected, and nothing changes. *)
Lemma select_spec ex s (P : option which_queue → Sch → Prop) X :
  sinv [] ex s → num_queued s ≠ 0%nat →
  (∀ w, queue_view (queue_of w s) ≠ [] → P (Some w) s) →
  wpe (_select_waiting_queue_for_scheduling c) s P X.
Proof.
  intros Hs Hne HP. pose proof (HP FromWaiting) as Hw. pose proof (HP FromSkipped) as Hk. simpl in Hw, Hk. clear HP.
  destruct (si_queues _ _ _ _ _ Hs) as [Hqw Hqk]. unfold num_queued in Hne.
  assert (Ew : set_waiting (waiting s) s = s) by by destruct s. assert (Ek : set_skipped (skipped_waiting s) s = s) by by destruct s.
  unfold _select_waiting_queue_for_scheduling. wpe_step.
  apply (wpe_on_queue FromWaiting queue_bool s _ _ _ _ (law_bool _ Hqw)). simpl. rewrite Ew. wpe_step.
  apply (wpe_on_queue FromSkipped queue_bool s _ _ _ _ (law_bool _ Hqk)). simpl. rewrite Ek.
  destruct (policy c).
  - wpe_step. destruct (bool_decide_reflect (queue_view (skipped_waiting s) ≠ [])) as [H|H]; [by apply Hk|].
    destruct (bool_decide_reflect (queue_view (waiting s) ≠ [])) as [H'|H']; [by apply Hw|].
    apply dec_stable in H, H'. rewrite H, H' in Hne. done.
  - destruct (bool_decide_reflect (queue_view (waiting s) ≠ [])) as [H'|H'];
      destruct (bool_decide_reflect (queue_view (skipped_waiting s) ≠ [])) as [H|H]; cbn [andb].
    + destruct (law_peek _ Hqw H') as (a & q & Hp & _). destruct (law_peek _ Hqk H) as (a' & q' & Hp' & _).
      wpe_step. apply (wpe_on_queue FromWaiting peek_request s _ _ _ _ Hp). simpl. rewrite Ew. wpe_step.
      apply (wpe_on_queue FromSkipped peek_request s _ _ _ _ Hp'). simpl. rewrite Ek. wpe_step.
      destruct (request_lt a a'); [by apply Hw|by apply Hk].
    + wpe_step. by apply Hw.
    + wpe_step. by apply Hk.
    + apply dec_stable in H, H'. by rewrite H, H' in Hne.
Qed.

(** ** Setting a request aside *)

(** The queues and the requests set aside change their places. *)
Lemma linv_places xr budget l s' q' :
  linv xr budget l → objects s' = objects (sch l) → requests s' = requests (sch l) → running s' = running (sch l) →
  kv_state s' = kv_state (sch l) → prev_step_scheduled_req_ids s' = prev_step_scheduled_req_ids (sch l) →
  queue_ok (waiting s') → queue_ok (skipped_waiting s') → queue_ok q' →
  queued (queue_view q') s' ≡ₚ queued (queue_view (step_skipped_waiting (stp l))) (sch l) →
  linv xr budget (mkLoop s' (set_step_skipped q' (stp l))).
Proof.
  intros Hl Eo Er Erun Ek Eprev H1 H2 H3 Hp.
  assert (Hname : ∀ o, name s' o = name (sch l) o) by (intros o; unfold name; by rewrite Eo).
  assert (Hnames : ∀ os : list Z, name s' <$> os = name (sch l) <$> os).
  { intros os. apply list_fmap_ext. intros i o _. apply Hname. }
  destruct Hl as [L1 L2 L3 L4 L5 L6 L7 L8 L9 L10 L11 L12 L13].
  split; simpl; unfold active in *; rewrite ?Hnames, ?Erun, ?Eo, ?Eprev; try done.
  - by eapply (sinv_queues c total).
  - intros Hnone a r Ha. rewrite Hp in Ha. rewrite Eo, Eprev. by apply L12.
  - intros o Ho. rewrite Hname. by apply L13.
Qed.

Lemma skip_spec budget l w a :
  linv [] budget l → peeked w a (sch l) →
  wpe (skip_waiting w) l (λ more l', linv [] budget l' ∧ preempted_reqs (stp l') = preempted_reqs (stp l) ∧
    num_queued (sch l) = S (num_queued (sch l')) ∧ token_budget (stp l') = token_budget (stp l)) (λ _ _, ¬ total).
Proof.
  intros Hl (q & _ & Hpop & Hq & Hp). unfold skip_waiting. wpe_step. apply wpe_on_sch.
  eapply wpe_on_queue; [exact Hpop|]. wpe_step. unfold on_step_skipped. apply wpe_zoom, wp_wpe. simpl.
  eapply wp_mono; [apply law_prepend; apply Hl|]. intros [] q' [Hq' Hp']. simpl. wpe_step.
  split_and!; [|done|by eapply num_queued_pop|done].
  pose proof (si_queues _ _ _ _ _ (li_s _ _ _ _ _ Hl)) as [Hw Hk].
  apply (linv_places [] budget l); try done; try (by destruct w).
  rewrite (queued_pop w _ (sch l) a q Hp). unfold queued. rewrite Hp'.
  destruct w; simpl; rewrite !(assoc_L (++)), <-Permutation_middle; done.
Qed.

(** A blocked request stays blocked or, its grammar compiled, waits for its turn. *)
Lemma promote_spec budget l o (r : SRequest) :
  linv [] budget l → objects (sch l) !! o = Some r → _is_blocked_waiting_status (status r) = true →
  wpe (on_sch (_try_promote_blocked_waiting_request grammar_ready o)) l
    (λ (ok : bool) l', linv [] budget l' ∧ stp l' = stp l ∧
       (∃ r' : SRequest, objects (sch l') !! o = Some r' ∧ (ok = true → status r' = WAITING)) ∧
       (∀ w, queue_of w (sch l') = queue_of w (sch l)) ∧ running (sch l') = running (sch l)) (λ _ _, ¬ total).
Proof.
  intros Hl Hr Hb. unfold _try_promote_blocked_waiting_request. apply wpe_on_sch. wpe_step. eapply wpe_obj; [done|]. cbn beta.
  assert (Hno : linv [] budget (mkLoop (sch l) (stp l)) ∧ stp (mkLoop (sch l) (stp l)) = stp l ∧
    (∃ r' : SRequest, objects (sch (mkLoop (sch l) (stp l))) !! o = Some r' ∧ (false = true → status r' = WAITING)) ∧
    (∀ w, queue_of w (sch (mkLoop (sch l) (stp l))) = queue_of w (sch l)) ∧ running (sch l) = running (sch l)).
  { rewrite loop_eta. split_and!; try done. by exists r. }
  destruct (status r) eqn:Est; try done; try (by wpe_step). destruct (negb _); [by wpe_step|].
  wpe_step. apply wpe_upd. wpe_step. set (f := on_req _). split_and!; try done.
  - apply (linv_same c total); try done.
    + apply (sinv_alter c total); [apply Hl|]. intros r' Hr'. assert (r' = r) as -> by congruence.
      split; [done|]. split; [done|]. split; [by rewrite Est|]. by intros (_ & _ & H).
    + simpl. intros o' r'. destruct (decide (o = o')) as [<-|Hne].
      * rewrite lookup_alter_eq, Hr. intros [= <-]. by exists r.
      * rewrite lookup_alter_ne by done. intros Hr'. by exists r'.
  - exists (f r). simpl. by rewrite lookup_alter_eq, Hr.
Qed.

(** ** The computed tokens *)

Definition kv_written (kr : KVRequest) (o : Z) k' s : Sch :=
  set_objects (alter (set_kv kr) o (objects s)) (set_kv_state k' s).

(** A waiting request looks its tokens up in the cache. *)
Lemma cached_part_spec budget l o (r : SRequest) :
  linv [] budget l → objects (sch l) !! o = Some r → rok r → waits r →
  wpe (cached_part o) l (λ res l', ∃ (kr : KVRequest) k', kv_same r kr ∧ l' = mkLoop (kv_written kr o k' (sch l)) (stp l) ∧
    linv [] budget l' ∧ res.2 ≤ num_tokens r ∧ (total → kv_given res.1.1 ∧ res.2 < num_tokens r)) (λ _ _, ¬ total).
Proof.
  intros Hl Hr Hok (_ & _ & Hc0). pose proof (si_ready _ _ _ _ _ (li_s _ _ _ _ _ Hl)) as Htot. pose proof Hok as (Hlen & _ & Hpend & _). unfold cached_part. wpe_step.
  eapply wpe_on_obj; [done|]. cbn beta. rewrite Hc0. cbn. wpe_step. apply wpe_on_sch.
  eapply wpe_mono; [apply (kv_call_spec (sch l) o r _ _ _ Hr (law_kv_hit _ _))| |by intros e s' [k' H] Ht; apply H, Htot].
  intros [b n] s' (kr & k' & (Hkr & [Hready Hhold] & Hhit) & ->). simpl in Hkr, Hready, Hhold, Hhit. cbn beta iota.
  wpe_step. apply wpe_assert; cycle 1.
  { intros Hn Ht. apply Z.leb_gt in Hn. destruct (Hhit (Htot Ht)) as [_ Hlt]. lia. }
  intros Hn. apply Z.leb_le in Hn. wpe_step. apply wpe_assert; cycle 1.
  { intros Hp Ht. apply orb_false_iff in Hp as [Hp%negb_false_iff Hn'%Z.leb_gt]. destruct (Hhit (Htot Ht)) as [_ Hlt].
    specialize (Hpend Hp). lia. }
  intros _. wpe_step. exists kr, k'. split; [done|]. split; [done|]. split; [|split; [done|]].
  - apply (linv_kv _ _ _ _ _ o r); try done; [intros Ht; by apply Hready, Htot|]. intros rid H. left. by apply Hhold.
  - intros Ht. destruct (Hhit (Htot Ht)) as [Hgiven Hlt]. split; [done|]. apply Hlt. lia.
Qed.

Lemma linv_prefill xr budget l d : linv xr budget l → linv xr budget (mkLoop (sch l) (set_prefill d (stp l))).
Proof. by intros []. Qed.

(** Within the request and the budget. *)
Lemma waiting_tokens_spec l (r : Request) computed :
  computed ≤ num_tokens r → (total → computed < num_tokens r) → 0 < token_budget (stp l) →
  wpe (waiting_tokens c g r computed) l (λ res l', (∃ d, l' = mkLoop (sch l) (set_prefill d (stp l))) ∧
    ∀ n, res = Some n → 0 < n ≤ token_budget (stp l) ∧ computed + n ≤ num_tokens r) (λ _ _, ¬ total).
Proof.
  intros Hle Htot Hbud. unfold waiting_tokens. wpe_step. wpe_step. cbn zeta.
  destruct (threshold_bounds g (num_tokens r - computed) ltac:(lia)) as [H1 H2]. set (n1 := apply_threshold _ _) in *.
  destruct (negb (enable_chunked_prefill c) && (token_budget (stp l) <? n1)).
  { wpe_step. split; [exists (prefill_remaining (stp l)); by destruct l as [? []]|by intros ?]. }
  wpe_step. apply wpe_assert; cycle 1.
  { intros Hn Ht. apply Z.ltb_ge in Hn. specialize (Htot Ht). lia. }
  intros Hn%Z.ltb_lt. wpe_step. apply wpe_on_step. wpe_step. wpe_step. wpe_step. split; [by eexists|].
  destruct (chunk_bounds c Hc r computed (Z.min n1 (token_budget (stp l))) ltac:(lia)) as [H3 _].
  set (n2 := _balanced_prefill_chunk _ _ _ _) in *. cbn [sch stp].
  set (n3 := limit_prefill _ _ _ _ _). assert (H4 : 0 ≤ n3 ≤ n2) by (apply limit_bounds; lia). intros n. destruct (Z.eqb_spec n3 0); [done|]. intros [= <-]. lia.
Qed.

Lemma cross_tokens_spec l (r : Request) inputs :
  (total → inputs = []) → wpe (cross_tokens c r inputs) l (λ _ l', l' = l) (λ _ _, ¬ total).
Proof.
  intros Hin. unfold cross_tokens. destruct (_ && _); [|by wpe_step]. by apply (embeds_spec total r).
Qed.

(** ** Admission *)

Definition starts (computed : Z) : SRequest → SRequest :=
  on_req (λ r, set_computed computed (set_status RUNNING (stop_reason r) r)).
Definition admitted w q o computed s : Sch :=
  set_objects (alter (starts computed) o (objects s)) (set_running (running s ++ [o]) (set_queue w q s)).

Lemma admitted_fields w q o computed s :
  requests (admitted w q o computed s) = requests s ∧ kv_state (admitted w q o computed s) = kv_state s ∧
  prev_step_scheduled_req_ids (admitted w q o computed s) = prev_step_scheduled_req_ids s.
Proof. by destruct w. Qed.

Lemma queued_admitted w q o computed ex s : queued ex (admitted w q o computed s) = queued ex (set_queue w q s).
Proof. by destruct w. Qed.

(** The request held no blocks before its allocation ([k0]). *)
Lemma sinv_admit ex s k0 w a q o (r : SRequest) computed :
  sinv [] ex (set_kv_state k0 s) → kv_gives (request_id r) k0 (kv_state s) → (total → kv_ready (kv_state s)) →
  queue_view (queue_of w s) ≡ₚ a :: queue_view q → queue_ok q → objects s !! o = Some r → req_obj a = o →
  zlen (running s) < max_num_running_reqs c →
  sinv [] ex (admitted w q o computed s).
Proof.
  intros Hs Hhold Hready Hp Hq Hr Ea Hlim. pose proof (sinv_nodup _ _ _ _ _ Hs) as Hnd.
  destruct (admitted_fields w q o computed s) as (Ereq & Ekv & _).
  pose proof (queued_pop w ex s a q Hp) as Hqp. destruct Hs as [H1 H2 H3 H4 H5 H6 H7 H8 H9].
  unfold placed, active in Hnd, H4, H8. simpl in Hnd, H4, H8, H6, H7.
  change (queued ex (set_kv_state k0 s)) with (queued ex s) in *. rewrite Hqp in Hnd, H4. csimpl in Hnd. csimpl in H4. rewrite Ea in Hnd, H4.
  rewrite <-Permutation_middle in Hnd. apply NoDup_cons in Hnd as [Hno Hnd].
  assert (Hlook : ∀ o', o' ≠ o → objects (admitted w q o computed s) !! o' = objects s !! o').
  { intros o' Hne. unfold admitted. simpl. by rewrite lookup_alter_ne. }
  assert (Halter : objects (admitted w q o computed s) !! o = Some (starts computed r)).
  { unfold admitted. simpl. by rewrite lookup_alter_eq, Hr. }
  split; unfold placed, active; rewrite ?queued_admitted, ?Ereq, ?Ekv; try done.
  - by destruct w; split; apply H1 || done.
  - intros a' Ha'. rewrite Hlook; [apply H2; rewrite Hqp; by right|]. intros Eo. apply Hno, elem_of_app. right.
    rewrite <-Eo. by apply list_elem_of_fmap_2.
  - simpl. intros o' [Ho'| ->%list_elem_of_singleton]%elem_of_app; [|by exists (starts computed r)].
    rewrite Hlook; [by apply H3|]. intros ->. apply Hno, elem_of_app. by left.
  - simpl. rewrite <-H4, <-(assoc_L (++)). done.
  - intros rid o' Hin. destruct (H6 rid o' Hin) as (r' & Hr' & Hid & Ho' & Hok).
    destruct (decide (o' = o)) as [->|Hne]; [|rewrite Hlook by done; by exists r'].
    exists (starts computed r). assert (r' = r) as -> by congruence. by split_and!.
  - intros rid Hh. simpl. assert (Hrid : kv_holds k0 rid ∨ rid = request_id r) by by apply Hhold.
    destruct Hrid as [Hh'|Hrid].
    + destruct (H7 rid Hh') as (o' & Ho' & Hn). exists o'. split; [apply elem_of_app; by left|].
      unfold name in *. rewrite Hlook; [done|]. intros ->. apply Hno, elem_of_app. by left.
    + subst rid. exists o. split; [apply elem_of_app; right; by left|]. unfold name. by rewrite Halter.
  - simpl. rewrite zlen_app, zlen_cons, zlen_nil. lia.
Qed.

(** The step's invariant with the request running, before its tokens are booked. *)
Lemma linv_admit budget l k0 w a q o (r : SRequest) computed :
  linv [] budget (mkLoop (set_kv_state k0 (sch l)) (stp l)) →
  kv_gives (request_id r) k0 (kv_state (sch l)) → (total → kv_ready (kv_state (sch l))) →
  queue_view (queue_of w (sch l)) ≡ₚ a :: queue_view q → queue_ok q → objects (sch l) !! o = Some r → req_obj a = o →
  zlen (running (sch l)) < max_num_running_reqs c → computed ≤ num_tokens r →
  linv [] budget (mkLoop (admitted w q o computed (sch l)) (stp l)) ∧ o ∉ booked (stp l).
Proof.
  intros Hl Hhold Hready Hp Hq Hr Ea Hlim Hcomp. pose proof (queued_pop w (queue_view (step_skipped_waiting (stp l))) _ a q Hp) as Hqp.
  assert (Hno : o ∉ running (sch l)).
  { rewrite <-Ea. apply (active_not_queued c total [] _ _ _ (li_s _ _ _ _ _ Hl)).
    change (a ∈ queued (queue_view (step_skipped_waiting (stp l))) (sch l)). rewrite Hqp. by left. }
  split; [|intros H; by apply (li_booked _ _ _ _ _ Hl) in H].
  pose proof (sinv_admit _ (sch l) k0 w a q o r computed (li_s _ _ _ _ _ Hl) Hhold Hready Hp Hq Hr Ea Hlim) as Hs.
  assert (Hlook : ∀ o', o' ≠ o → objects (admitted w q o computed (sch l)) !! o' = objects (sch l) !! o').
  { intros o' Hne. unfold admitted. simpl. by rewrite lookup_alter_ne. }
  apply (linv_sch c total [] [] budget (mkLoop (set_kv_state k0 (sch l)) (stp l))); try done; cbn [sch stp].
  - intros o' Ho'. simpl. apply elem_of_app. left. by apply (li_booked _ _ _ _ _ Hl).
  - unfold active. simpl. intros o' r' Ho' Hr'. destruct (decide (o' = o)) as [->|Hne].
    + right. split; [intros H; by apply (li_booked _ _ _ _ _ Hl) in H|].
      rewrite lookup_alter_eq, Hr in Hr'. by injection Hr' as <-.
    + left. exists r'. apply elem_of_app in Ho' as [Ho'|?%list_elem_of_singleton]; [|done].
      split; [done|]. split; [|done]. by rewrite <-(Hlook _ Hne).
  - by destruct w.
  - intros Hnone a' r' Ha' Hr' Hst. rewrite queued_admitted in Ha'.
    destruct (admitted_fields w q o computed (sch l)) as (_ & _ & ->).
    assert (Hne : req_obj a' ≠ o).
    { intros Eo. pose proof (sinv_nodup _ _ _ _ _ (li_s _ _ _ _ _ Hl)) as Hnd. apply NoDup_app in Hnd as (_ & _ & Hnd).
      change (NoDup (req_obj <$> queued (queue_view (step_skipped_waiting (stp l))) (sch l))) in Hnd.
      rewrite Hqp in Hnd. csimpl in Hnd. apply NoDup_cons in Hnd as [Hnd _]. apply Hnd. rewrite Ea, <-Eo.
      by apply list_elem_of_fmap_2. }
    rewrite (Hlook _ Hne) in Hr'. apply (li_prev _ _ _ _ _ Hl Hnone a'); [|done|done].
    change (a' ∈ queued (queue_view (step_skipped_waiting (stp l))) (sch l)). rewrite Hqp. by right.
Qed.

(** The changes of the step when a request is admitted. *)
Definition admit_step (r : SRequest) o n b loras st : Step :=
  book (request_id r) b n (set_loras loras
    (if bool_decide (status r = WAITING) then set_new (scheduled_new_reqs st ++ [o]) st
     else set_resumed (scheduled_resumed_reqs st ++ [o]) st)).

Lemma linv_admitted budget l k0 w a q o (r : SRequest) computed n b loras :
  linv [] budget (mkLoop (set_kv_state k0 (sch l)) (stp l)) →
  kv_gives (request_id r) k0 (kv_state (sch l)) → (total → kv_ready (kv_state (sch l))) →
  queue_view (queue_of w (sch l)) ≡ₚ a :: queue_view q → queue_ok q → objects (sch l) !! o = Some r → req_obj a = o →
  zlen (running (sch l)) < max_num_running_reqs c → computed + n ≤ num_tokens r → 0 < n ≤ token_budget (stp l) →
  preempted_reqs (stp l) = [] → status r = WAITING ∨ status r = PREEMPTED →
  linv [] budget (mkLoop (admitted w q o computed (sch l)) (admit_step r o n b loras (stp l))).
Proof.
  intros Hl Hhold Hready Hp Hq Hr Ea Hlim Hcomp Hn Hpre Hst.
  destruct (linv_admit budget l k0 w a q o r computed Hl Hhold Hready Hp Hq Hr Ea Hlim ltac:(lia)) as [Hl' Hno].
  assert (Halter : objects (admitted w q o computed (sch l)) !! o = Some (starts computed r)).
  { unfold admitted. simpl. by rewrite lookup_alter_eq, Hr. }
  unfold admit_step.
  eapply (linv_book c total [] budget (mkLoop (admitted w q o computed (sch l)) (stp l)) o (starts computed r) n b []);
    try done; try (by destruct (bool_decide _)).
  - simpl. apply elem_of_app. right. by left.
  - unfold advance_ok. rewrite zlen_nil.
    change (computed + n ≤ num_tokens r + 0 ∧ (0 < 0 → computed + n = num_tokens r + 0) ∧ computed + n < sc_max_model_len c).
    destruct (sinv_placed _ _ _ _ _ o (li_s _ _ _ _ _ Hl')) as (r' & Hr' & _ & Hok & _).
    { apply active_placed. unfold active. cbn [sch]. simpl. set_solver. }
    cbn [sch] in Hr'. rewrite Halter in Hr'. injection Hr' as <-. destruct Hok as (Hlen & _).
    change (0 < num_tokens r < sc_max_model_len c) in Hlen. lia.
  - cbn [stp]. unfold booked. destruct (bool_decide _); simpl.
    + rewrite <-(assoc_L (++)). simpl. by rewrite <-!Permutation_middle.
    + rewrite !(assoc_L (++)). by rewrite (Permutation_app_comm _ [o]).
  - intros Ht. destruct (bool_decide _); by apply Hl.
  - cbn [sch]. intros o' Ho'.
    assert (Ho : o' ∈ scheduled_resumed_reqs (stp l) ∨ o' = o ∧ status r = PREEMPTED).
    { destruct (bool_decide_reflect (status r = WAITING)) as [E1|E1]; simpl in Ho'; [by left|].
      apply elem_of_app in Ho' as [?| ->%list_elem_of_singleton]; [by left|right]. split; [done|]. by destruct Hst. }
    destruct Ho as [Ho|[-> Hs]]; [by apply (li_resumed _ _ _ _ _ Hl')|].
    unfold name. rewrite Halter. destruct (admitted_fields w q o computed (sch l)) as (_ & _ & ->).
    change (request_id (starts computed r)) with (request_id r).
    apply (li_prev _ _ _ _ _ Hl Hpre a); [|simpl; by rewrite Ea|done].
    change (a ∈ queued (queue_view (step_skipped_waiting (stp l))) (sch l)).
    rewrite (queued_pop w _ (sch l) a q Hp). by left.
Qed.

Lemma enter_running_spec budget l k0 w a o (r : SRequest) n computed inputs external nb :
  linv [] budget (mkLoop (set_kv_state k0 (sch l)) (stp l)) →
  kv_gives (request_id r) k0 (kv_state (sch l)) → (total → kv_ready (kv_state (sch l))) →
  peeked w a (sch l) → objects (sch l) !! o = Some r → req_obj a = o →
  zlen (running (sch l)) < max_num_running_reqs c → computed + n ≤ num_tokens r → 0 < n ≤ token_budget (stp l) →
  preempted_reqs (stp l) = [] → status r = WAITING ∨ status r = PREEMPTED →
  (total → inputs = [] ∧ external = []) →
  wpe (enter_running c w o n computed inputs external nb) l (λ _ l', linv [] budget l' ∧ preempted_reqs (stp l') = [] ∧
    num_queued (sch l) = S (num_queued (sch l'))) (λ _ _, ¬ total).
Proof.
  intros Hl Hhold Hready (q & _ & Hpop & Hq & Hp) Hr Ea Hlim Hcomp Hn Hpre Hst Hin. unfold enter_running.
  wpe_step. apply wpe_on_sch. eapply wpe_on_queue; [exact Hpop|]. wpe_step. apply wpe_on_sch. wpe_step.
  set (s1 := set_running _ _). assert (Hr1 : objects s1 !! o = Some r) by (unfold s1; by destruct w).
  assert (Hrun1 : running s1 = running (sch l) ++ [o]) by (unfold s1; by destruct w). cbn [stp].
  wpe_step. eapply wpe_on_obj; [done|]. cbn beta. wpe_step.
  set (st1 := if bool_decide (status r = WAITING) then set_new (scheduled_new_reqs (stp l) ++ [o]) (stp l)
     else set_resumed (scheduled_resumed_reqs (stp l) ++ [o]) (stp l)).
  assert (Hfirst : ∀ P X, P tt (mkLoop s1 st1) →
    wpe (match status r with
         | WAITING => on_step (λ st, set_new (scheduled_new_reqs st ++ [o]) st)
         | PREEMPTED => on_step (λ st, set_resumed (scheduled_resumed_reqs st ++ [o]) st)
         | _ => raise RuntimeError
         end) (mkLoop s1 (stp l)) P X).
  { intros P X HP. unfold st1 in HP. destruct Hst as [Es|Es]; rewrite Es in *; by apply wpe_on_step. }
  apply Hfirst. clear Hfirst. wpe_step.
  assert (Hsecond : ∀ P X, (∀ loras, P tt (mkLoop s1 (set_loras loras st1))) →
    wpe (match max_loras c, lora_request r with
         | Some _, Some a => on_step (λ st, set_loras ({[lora_int_id a]} ∪ scheduled_loras st) st)
         | _, _ => mret tt
         end) (mkLoop s1 st1) P X).
  { intros P X HP. assert (H0 : P tt (mkLoop s1 st1)).
    { specialize (HP (scheduled_loras st1)). by destruct st1. }
    destruct (max_loras c); [|by wpe_step]. destruct (lora_request r); [by apply wpe_on_step|by wpe_step]. }
  apply Hsecond. clear Hsecond. intros loras. wpe_step. wpe_step. wpe_step. apply wpe_on_step. cbn [sch stp].
  wpe_step. apply wpe_on_sch. apply wpe_upd.
  set (b := kv_get_blocks _ _). set (l2 := mkLoop _ _).
  assert (E2 : l2 = mkLoop (admitted w q o computed (sch l)) (admit_step r o n b loras (stp l))).
  { unfold l2, admitted, admit_step. f_equal. unfold s1. by destruct w. }
  assert (Hl2 : linv [] budget l2) by (rewrite E2; by eapply linv_admitted).
  assert (Hq2 : num_queued (sch l) = S (num_queued (sch l2))).
  { rewrite E2, (num_queued_pop w _ a q Hp). by destruct w. }
  assert (Hpre2 : preempted_reqs (stp l2) = []).
  { rewrite E2. cbn [stp]. unfold admit_step. by destruct (bool_decide _). }
  assert (Hr2 : objects (sch l2) !! o = Some (starts computed r)).
  { rewrite E2. simpl. by rewrite lookup_alter_eq, Hr. }
  clearbody l2. eapply wpe_mono; [by apply (schedule_encoder_spec total l2 o (starts computed r))| |done].
  intros [] l3 (e & ei & eb & -> & Hei). split; [|done].
  apply (linv_enc c total [] budget (mkLoop (sch l2) _) e).
  destruct Hl2 as [L1 L2 L3 L4 L5 L6 L7 L8 L9 L10 L11 L12 L13]. split; try done.
  intros Ht. simpl. rewrite (Hei Ht). by apply L11.
Qed.

(** ** A turn *)

(** A turn keeps the invariant; if the loop goes on, a request has left the queues. *)
Definition waited budget l (more : bool) l' : Prop :=
  linv [] budget l' ∧ preempted_reqs (stp l') = [] ∧
  (more = true → num_queued (sch l) = S (num_queued (sch l'))).

Lemma waited_stop budget l l' :
  linv [] budget l' → preempted_reqs (stp l') = [] → waited budget l false l'.
Proof. intros H1 H2. by split_and!. Qed.

(** The allocation for a request that waits. *)
Lemma waiting_alloc_spec budget l o (r : SRequest) args :
  linv [] budget l → objects (sch l) !! o = Some r → 0 < num_new_tokens args →
  (total → kv_given (new_computed_blocks args)) → num_external_computed_tokens args = 0 →
  wpe (on_sch (kv_call o (λ r, kv_allocate_slots r args))) l (λ res l', ∃ (kr : KVRequest) k',
    kv_same r kr ∧ l' = mkLoop (kv_written kr o k' (sch l)) (stp l) ∧
    linv [] budget (mkLoop (set_kv_state (kv_state (sch l)) (sch l')) (stp l')) ∧
    kv_gives (request_id r) (kv_state (sch l)) k' ∧ (total → kv_ready k') ∧
    (res = None → linv [] budget l')) (λ _ _, ¬ total).
Proof.
  intros Hl Hr Hn Hgiven Hext. apply wpe_on_sch. eapply wpe_mono; [apply (kv_call_spec (sch l) o r _ _ _ Hr (law_kv_alloc _ _ _))|..].
  - intros res s' (kr & k' & (Hkr & Hgive & Hnone & Hkeep) & ->). simpl in Hkr, Hgive, Hnone, Hkeep. exists kr, k'. split; [done|]. split; [done|].
    assert (Hready : total → kv_ready (kv_state (sch l))) by apply (li_s _ _ _ _ _ Hl).
    assert (Hready' : total → kv_ready k') by auto.
    split; [|split; [done|split; [done|]]].
    + apply (linv_kv c total [] budget l o r kr (kv_state (sch l))); try done. intros rid H. by left.
    + intros ->. apply (linv_kv c total [] budget l o r kr k'); try done. intros rid H. left. by apply Hnone.
  - intros e s' [k' He] Ht. specialize (He (si_ready _ _ _ _ _ (li_s _ _ _ _ _ Hl) Ht) (Hgiven Ht) Hext). lia.
Qed.

Lemma kv_written_lookup kr o k' s (r : SRequest) :
  objects s !! o = Some r → objects (kv_written kr o k' s) !! o = Some (set_kv kr r).
Proof. intros Hr. unfold kv_written. simpl. by rewrite lookup_alter_eq, Hr. Qed.

Lemma queue_of_written w kr o k' s : queue_of w (kv_written kr o k' s) = queue_of w s.
Proof. by destruct w. Qed.

Lemma rok_written (kr : KVRequest) (r : SRequest) : kv_same r kr → rok r → rok (set_kv kr r).
Proof.
  intros (Ea & Es & _ & Eo & Et & _ & Ec & Ep & _). unfold SchedInv.rok, num_tokens, num_output_tokens. simpl. by rewrite Ea, Et, Ep, Eo.
Qed.

Lemma schedule_waiting_spec budget l w a o (r : SRequest) :
  linv [] budget l → preempted_reqs (stp l) = [] → peeked w a (sch l) → req_obj a = o →
  objects (sch l) !! o = Some r → rok r → waits r → status r = WAITING ∨ status r = PREEMPTED →
  zlen (running (sch l)) < max_num_running_reqs c → 0 < token_budget (stp l) →
  wpe (schedule_waiting c set_order g w o) l (waited budget l) (λ _ _, ¬ total).
Proof.
  intros Hl Hpre Hpk Ea Hr Hok Hw Hst Hlim Hbud. unfold schedule_waiting. wpe_step.
  eapply wpe_mono; [by apply (cached_part_spec budget l o r)| |done].
  intros [[b hit] computed] l1 (kr & k1 & Hsame & -> & Hl1 & Hle & Htot). simpl in Hle, Htot. cbn beta iota.
  pose proof (kv_written_lookup kr o k1 _ r Hr) as Hr1. set (r1 := set_kv kr r) in *.
  pose proof (rok_written kr r Hsame Hok) as Hok1.
  pose proof Hsame as (Eargs & Estat & _ & _ & Etok & _).
  assert (Hnt : num_tokens r1 = num_tokens r) by (unfold num_tokens; simpl; by rewrite Etok).
  assert (Hpk1 : peeked w a (kv_written kr o k1 (sch l))) by (unfold peeked; by rewrite queue_of_written).
  wpe_step. eapply wpe_on_obj; [exact Hr1|]. wpe_step.
  eapply wpe_mono; [apply waiting_tokens_spec; [by rewrite Hnt|by rewrite Hnt; intros Ht; apply Htot|done]| |done].
  intros [n|] l2 ((d & ->) & Hn); cbn [sch stp]; [|wpe_step; apply waited_stop; [by apply (linv_prefill [] budget (mkLoop _ _))|done]].
  destruct (Hn n eq_refl) as [Hn1 Hn2]. clear Hn. rewrite Hnt in Hn2. cbn [stp] in Hn1.
  pose proof (linv_prefill [] budget _ d Hl1) as Hl2. cbn [sch stp] in Hl2. set (st2 := set_prefill d (stp l)) in *.
  wpe_step. eapply wpe_mono; [apply (encoder_part_spec c total _ r1); [done|lia]| |done].
  intros [[[inputs n1] nb] external] l3 ((e & ->) & Hb1 & Hin). cbn [sch stp fst snd] in *.
  pose proof (linv_enc c total [] budget _ e Hl2) as Hl3. cbn [sch stp] in Hl3. set (s3 := set_enc_state e _) in *.
  destruct (Z.eqb_spec n1 0) as [_|Hne1]; [wpe_step; by apply waited_stop|]. wpe_step.
  eapply wpe_mono; [apply (align_part_spec c total Hc); [apply Hl3|lia]| |done]. intros n2 l4 [-> Hb2].
  destruct (Z.eqb_spec n2 0) as [_|Hne2]; [wpe_step; by apply waited_stop|]. wpe_step.
  eapply wpe_mono; [apply cross_tokens_spec; by intros Ht; apply Hin| |done]. intros et l5 ->. wpe_step.
  eapply wpe_mono; [apply (waiting_alloc_spec budget _ o r1); [done|done|simpl; lia|by intros Ht; apply Htot|done]| |done].
  intros res l6 (kr6 & k6 & Hsame6 & -> & Hl6 & Hhold6 & Hready6 & Hnone6). cbn [sch stp] in *.
  pose proof (kv_written_lookup kr6 o k6 s3 r1 Hr1) as Hr6. set (r6 := set_kv kr6 r1) in *.
  destruct res as [b6|]; wpe_step.
  - pose proof Hsame6 as (Eargs6 & Estat6 & _ & _ & Etok6 & _).
    eapply wpe_mono; [apply (enter_running_spec budget _ (kv_state s3) w a o r6); try done|..].
    + simpl. rewrite Eargs6. exact Hhold6.
    + unfold num_tokens. simpl. rewrite Etok6. change (computed + n2 ≤ num_tokens r1). lia.
    + cbn [stp]. unfold st2. simpl. lia.
    + simpl. rewrite Estat6. simpl. by rewrite Estat.
    + intros [] l7 (H1 & H2 & H3). wpe_step. split; [done|]. split; [done|]. intros _.
      rewrite <-H3. by destruct w.
    + done.
  - specialize (Hnone6 eq_refl). apply wpe_when; intros _.
    + apply wpe_on_sch. eapply wpe_mono; [apply (enc_free_spec total); [done|]; change (total → mm_features r1 = []); apply Hok1| |done]. intros [] s7 (e7 & ->). wpe_step.
      apply waited_stop; [|done]. by apply (linv_enc c total [] budget (mkLoop _ _) e7).
    + wpe_step. by apply waited_stop.
Qed.

Lemma waiting_turn_spec budget l :
  linv [] budget l → preempted_reqs (stp l) = [] → num_queued (sch l) ≠ 0%nat →
  zlen (running (sch l)) < max_num_running_reqs c → 0 < token_budget (stp l) →
  wpe (waiting_turn c grammar_ready set_order g) l (waited budget l) (λ _ _, ¬ total).
Proof.
  intros Hl Hpre Hq Hlim Hbud. pose proof (li_s _ _ _ _ _ Hl) as Hs. unfold waiting_turn. wpe_step. apply wpe_on_sch.
  eapply select_spec; [done|done|]. intros w Hne. rewrite loop_eta. wpe_step. apply wpe_of_option; [|done]. intros w' [= <-].
  destruct (peeked_of w [] _ (sch l) Hs Hne) as [a Hpk]. pose proof Hpk as (q & Hpeek & _ & _ & Hp).
  wpe_step. apply wpe_on_sch. eapply wpe_on_queue; [exact Hpeek|]. rewrite set_queue_same, loop_eta. cbn zeta.
  assert (Hin : a ∈ queued (queue_view (step_skipped_waiting (stp l))) (sch l)) by by eapply peeked_queued.
  destruct (si_refs _ _ _ _ _ Hs a Hin) as (r & Hr & Eargs & Hw).
  destruct (sinv_placed _ _ _ _ _ (req_obj a) Hs) as (r0 & Hr0 & _ & Hok & _); [by apply queued_placed|].
  assert (r0 = r) as -> by congruence.
  wpe_step. eapply wpe_on_obj; [done|]. cbn beta. wpe_step.
  assert (Hrest : ∀ (ok : bool) l1 (r1 : SRequest), linv [] budget l1 → stp l1 = stp l →
    objects (sch l1) !! req_obj a = Some r1 → (∀ w, queue_of w (sch l1) = queue_of w (sch l)) →
    running (sch l1) = running (sch l) → (ok = true → status r1 = WAITING ∨ status r1 = PREEMPTED) →
    wpe (l ← get; if negb ok || over_max_loras c (stp l) r then skip_waiting w
         else schedule_waiting c set_order g w (req_obj a)) l1 (waited budget l) (λ _ _, ¬ total)).
  { intros ok l1 r1 Hl1 Est Hr1 Hqs Hrun Hstat.
    assert (Hpk1 : peeked w a (sch l1)) by (unfold peeked; by rewrite Hqs).
    assert (Hnum : num_queued (sch l1) = num_queued (sch l)).
    { pose proof (Hqs FromWaiting). pose proof (Hqs FromSkipped). unfold num_queued. simpl in *. congruence. }
    wpe_step. wpe_step. unfold waited. rewrite <-Hnum. destruct (negb ok || _) eqn:Eb.
    - eapply wpe_mono; [by apply (skip_spec budget l1 w a)| |done]. intros more l2 (H1 & H2 & H3 & _).
      split; [done|]. split; [|done]. by rewrite H2, Est.
    - apply orb_false_iff in Eb as [->%negb_false_iff _].
      destruct (si_refs _ _ _ _ _ (li_s _ _ _ _ _ Hl1) a) as (r2 & Hr2 & _ & Hw2); [by eapply peeked_queued|].
      destruct (sinv_placed _ _ _ _ _ (req_obj a) (li_s _ _ _ _ _ Hl1)) as (r3 & Hr3 & _ & Hok3 & _).
      { apply queued_placed. by eapply peeked_queued. }
      assert (r2 = r1) as -> by congruence. assert (r3 = r1) as -> by congruence.
      apply (schedule_waiting_spec budget l1 w a (req_obj a) r1); try done; rewrite ?Est, ?Hrun; auto. }
  destruct (_is_blocked_waiting_status (status r)) eqn:Eb.
  - eapply wpe_mono; [by apply (promote_spec budget l _ r)| |done]. intros ok l1 (H1 & H2 & (r1 & H3 & H4) & H5 & H6).
    apply (Hrest ok l1 r1); auto.
  - wpe_step. apply (Hrest true l r); try done. intros _. destruct Hw as (H1 & H2 & _).
    unfold is_finished in H2. destruct (status r); auto; done.
Qed.

Lemma waiting_loop_spec budget fuel : ∀ l,
  linv [] budget l → preempted_reqs (stp l) = [] → (num_queued (sch l) ≤ fuel)%nat →
  wpe (waiting_loop c grammar_ready set_order g fuel) l (λ _ l', linv [] budget l' ∧ preempted_reqs (stp l') = []) (λ _ _, ¬ total).
Proof.
  assert (Hread : ∀ l (P : bool → Loop → Prop) X w, linv [] budget l →
    P (bool_decide (queue_view (queue_of w (sch l)) ≠ [])) l → wpe (on_sch (on_queue w queue_bool)) l P X).
  { intros l P X w Hl HP. apply wpe_on_sch. eapply wpe_on_queue; [apply law_bool; eapply queue_of_ok, Hl|].
    by rewrite set_queue_same, loop_eta. }
  assert (Hhead : ∀ l f (P : unit → Loop → Prop) X, linv [] budget l →
    (num_queued (sch l) ≠ 0%nat → zlen (running (sch l)) < max_num_running_reqs c → 0 < token_budget (stp l) → wpe f l P X) →
    P tt l →
    wpe (l ← get; w ← on_sch (on_waiting queue_bool); k ← on_sch (on_skipped queue_bool);
         if ((w : bool) || (k : bool)) && (0 <? token_budget (stp l)) && negb (zlen (running (sch l)) =? max_num_running_reqs c)
         then f else mret tt) l P X).
  { intros l f P X Hl Hf HP. wpe_step. wpe_step. wpe_step. apply (Hread l _ _ FromWaiting); [done|]. wpe_step.
    apply (Hread l _ _ FromSkipped); [done|]. destruct (_ && _ && _) eqn:Eq; [|by wpe_step].
    apply andb_true_iff in Eq as [[E1 E2%Z.ltb_lt]%andb_true_iff E3%negb_true_iff%Z.eqb_neq].
    pose proof (si_limit _ _ _ _ _ (li_s _ _ _ _ _ Hl)) as Hlim. unfold active in Hlim. simpl in Hlim.
    apply Hf; [|lia|done]. unfold num_queued. intros H0.
    apply Nat.eq_add_0 in H0 as [H0%nil_length_inv H1%nil_length_inv]. simpl in E1. by rewrite H0, H1 in E1. }
  induction fuel as [|fuel IH]; intros l Hl Hpre Hf; cbn [waiting_loop].
  - apply Hhead; [done| |done]. intros. lia.
  - apply Hhead; [done| |done]. intros Hq Hlim Hbud. wpe_step.
    eapply wpe_mono; [by apply waiting_turn_spec| |done]. intros [] l' (H1 & H2 & H3); [|by wpe_step].
    apply IH; [done|done|]. specialize (H3 eq_refl). lia.
Qed.
End waiting.
