(* ===== verification/ScheduleSpec.v ===== *)
(** * A scheduling step

    [schedule] as a whole: from a state that satisfies the scheduler's invariant it
    returns an output within the limits of the configuration, and leaves the
    requests advanced by what the output says. *)

From S2P Require Import Prelude.
From S2P Require Import OrderedDict.
From S2P Require Import FreeQueue.
From S2P Require Import Request.
From S2P Require Import BlockHash.
From S2P Require Import RequestQueue.
From S2P Require Import SchedUtils.
From S2P Require Import SchedPrefill.
From S2P Require Import EncoderCache.
From S2P Require Import KVManager.
From S2P Require Import SchedInterface.
From S2P Require Import Sched.
From S2P Require Import Schedule.
From S2P Require Import SchedInv.
From S2P Require Import ScheduleInv.
From S2P Require Import ScheduleRunning.
From S2P Require Import ScheduleWaiting.
Local Open Scope Z_scope.

Section spec.
Context {Q K E : Type} `{!RequestQueue Q} `{!QueueLaws Q} `{!KVCache K} `{!KVCacheLaws K}
  `{!EncoderCache E} `{!EncoderLaws E}.
Context (c : SchedConfig) (total : Prop) (grammar_ready : Z → bool) (set_order : list Z → list Z).

Abbreviation Sch := (Scheduler Q K E).
Abbreviation Loop := (Loop (Q := Q) (K := K) (E := E)).
Abbreviation sinv := (sinv c total).
Abbreviation linv := (linv c total).
Abbreviation rok := (rok c total).
Implicit Types (s : Sch) (l : Loop) (st : Step (Q := Q)).

(** Between two steps: no request has computed tokens it does not have. *)
Record ready s : Prop := {
  rd_inv : sinv [] [] s;
  rd_room : ∀ o (r : SRequest), o ∈ running s → objects s !! o = Some r → num_computed_tokens r ≤ num_tokens r;
  rd_prev : prev_ok [] s;
}.

(** The drafts scheduled for a request. *)
Definition drafts_in (out : SchedulerOutput) (rid : string) : Z :=
  zlen (default [] (od_get rid (so_spec_decode_tokens out))).

(** A request after the step: its computed tokens end at its tokens and drafts. *)
Definition advanced (out : SchedulerOutput) (r : Request) : Prop :=
  let k := drafts_in out (request_id r) in
  num_computed_tokens r ≤ num_tokens r + k ∧ (0 < k → num_computed_tokens r = num_tokens r + k) ∧
  num_computed_tokens r < sc_max_model_len c.

(** What a step hands to the workers, and the state it leaves. *)
Record scheduled (out : SchedulerOutput) s : Prop := {
  sd_inv : sinv [] [] s;
  sd_prev : prev_ok [] s;
  sd_total : so_total_num_scheduled_tokens out = dict_sum (so_num_scheduled_tokens out) ∧
    so_total_num_scheduled_tokens out ≤ max_num_scheduled_tokens c;
  sd_ids : od_ok (so_num_scheduled_tokens out);
  sd_counts : ∀ e, e ∈ so_num_scheduled_tokens out → 0 < e.2;
  sd_running : ∀ rid, rid ∈ (so_num_scheduled_tokens out).*1 →
    ∃ o (r : SRequest), o ∈ running s ∧ objects s !! o = Some r ∧ request_id r = rid ∧ advanced out r;
  sd_others : ∀ o (r : SRequest), o ∈ running s → objects s !! o = Some r →
    request_id r ∉ (so_num_scheduled_tokens out).*1 → num_computed_tokens r ≤ num_tokens r;
}.

Hypothesis set_order_perm : ∀ os, set_order os ≡ₚ os.
Hypothesis Hc : config_ok c.
Hypothesis no_loras : total → max_loras c = None.

(** ** The loops *)

(** At the end of the loops nothing is set aside any more. *)
Definition settled budget l : Prop := linv [] budget (mkLoop (sch l) (set_step_skipped empty_queue (stp l))).

Lemma linv_settled budget l :
  linv [] budget l → queue_view (step_skipped_waiting (stp l)) = [] → settled budget l.
Proof.
  intros Hl Hv. pose proof (si_queues _ _ _ _ _ (li_s _ _ _ _ _ Hl)) as [Hw Hk]. destruct law_empty as [He Hev].
  apply (linv_places c total [] budget l); try done. by rewrite Hv, Hev.
Qed.

Lemma schedule_waiting_reqs_spec g budget l :
  linv [] budget l → phase1 l →
  wpe (schedule_waiting_reqs c grammar_ready set_order g) l (λ _ l', settled budget l') (λ _ _, ¬ total).
Proof.
  intros Hl (_ & _ & Hv). pose proof (si_queues _ _ _ _ _ (li_s _ _ _ _ _ Hl)) as [Hw Hk].
  unfold schedule_waiting_reqs. wpe_step. wpe_step. destruct (_ && _) eqn:Eq; [|wpe_step; by apply linv_settled].
  apply andb_true_iff in Eq as [Hpre _]. assert (Hpre' : preempted_reqs (stp l) = []) by by destruct (preempted_reqs (stp l)).
  wpe_step. apply wpe_on_sch. apply (wpe_on_queue FromWaiting queue_len _ _ _ _ _ (law_len _ Hw)).
  change (set_queue FromWaiting (waiting (sch l)) (sch l)) with (set_queue FromWaiting (queue_of FromWaiting (sch l)) (sch l)).
  rewrite set_queue_same, loop_eta. wpe_step. apply wpe_on_sch.
  apply (wpe_on_queue FromSkipped queue_len _ _ _ _ _ (law_len _ Hk)).
  change (set_queue FromSkipped (skipped_waiting (sch l)) (sch l)) with (set_queue FromSkipped (queue_of FromSkipped (sch l)) (sch l)).
  rewrite set_queue_same, loop_eta. wpe_step.
  eapply wpe_mono; [apply (waiting_loop_spec c total grammar_ready set_order g set_order_perm Hc budget); [done|done|]| |done].
  { unfold num_queued, zlen. lia. }
  intros [] l1 [Hl1 _]. pose proof (li_skipped _ _ _ _ _ Hl1) as Hs1. wpe_step. unfold on_step_skipped. wpe_step.
  unfold wpe. rewrite law_bool by done. cbn beta iota. replace (mkLoop _ _) with l1 by by destruct l1 as [? []].
  case_bool_decide as Hne; cycle 1.
  { cbn. by apply linv_settled. }
  change (wpe (skipped ← on_step_skipped queue_iter; on_sch (on_skipped (prepend_requests skipped))) l1
    (λ _ l', settled budget l') (λ _ _, ¬ total)).
  wpe_step. unfold on_step_skipped. wpe_step. destruct (law_iter _ Hs1) as (sk & Hsk & Hp). unfold wpe. rewrite Hsk. cbn beta iota.
  replace (mkLoop _ _) with l1 by by destruct l1 as [? []].
  change (wpe (on_sch (on_skipped (prepend_requests sk))) l1 (λ _ l', settled budget l') (λ _ _, ¬ total)).
  apply wpe_on_sch. unfold on_skipped. wpe_step. apply wp_wpe.
  pose proof (si_queues _ _ _ _ _ (li_s _ _ _ _ _ Hl1)) as [Hw1 Hk1]. destruct law_empty as [He Hev].
  eapply wp_mono; [by apply law_prepend_all|]. intros [] q [Hq Hqp].
  apply (linv_places c total [] budget l1); try done.
  unfold queued. simpl. rewrite Hqp, Hev, app_nil_r, Hp. by rewrite (Permutation_app_comm (queue_view (skipped_waiting _))).
Qed.

(** The assertions after the loops hold. *)
Lemma check_constraints_spec budget l :
  settled budget l → budget ≤ max_num_scheduled_tokens c →
  wp (check_constraints c) l (λ _ l', l' = l).
Proof.
  intros Hl Hb. unfold check_constraints. wp_step. wp_step. pose proof (li_budget _ _ _ _ _ Hl) as [H1 H2]. simpl in H1, H2.
  pose proof (si_limit _ _ _ _ _ (li_s _ _ _ _ _ Hl)) as H3. unfold active in H3. simpl in H3.
  assert (H4 : zlen (scheduled_new_reqs (stp l)) + zlen (scheduled_resumed_reqs (stp l)) + zlen (scheduled_running_reqs (stp l))
    ≤ zlen (running (sch l))).
  { destruct (li_booked _ _ _ _ _ Hl) as [Hnd Hsub]. unfold booked in *. simpl in *.
    pose proof (NoDup_submseteq _ _ Hnd Hsub) as Hlen%submseteq_length. rewrite !length_app in Hlen. unfold zlen. lia. }
  wp_step. apply wp_assert; [by apply Z.leb_le; lia|]. wp_step. apply wp_assert; [by apply Z.leb_le; lia|].
  wp_step. apply wp_assert; [by apply Z.leb_le; lia|]. apply wp_assert; [by apply Z.leb_le; lia|done].
Qed.

Definition step_budget s : Z :=
  if bool_decide (pause_state s = PAUSED_ALL) then 0 else max_num_scheduled_tokens c.

Lemma initial_linv s : ready s → linv [] (step_budget s) (mkLoop s (initial_step c s)).
Proof.
  intros [Hs Hroom Hprev]. destruct law_empty as [He Hev]. split; simpl; rewrite ?Hev; try done.
  - unfold step_budget. split; [lia|]. pose proof (co_tokens c Hc). case_bool_decide; lia.
  - split; [constructor|]. by intros o Ho%not_elem_of_nil.
  - by intros e He'%not_elem_of_nil.
  - by intros o Ho%not_elem_of_nil.
Qed.

Lemma step_budget_le s : step_budget s ≤ max_num_scheduled_tokens c.
Proof. unfold step_budget. pose proof (co_tokens c Hc). case_bool_decide; lia. Qed.

Lemma wpe_run_step (m : M Loop unit) st s (P : Step → Sch → Prop) X :
  wpe m (mkLoop s st) (λ _ l', P (stp l') (sch l')) (λ e l', X e (sch l')) → wpe (run_step m st) s P X.
Proof. unfold wpe, run_step. by destruct (m _) as [[] ?]. Qed.

Lemma loops_spec g s :
  ready s →
  wpe (run_step (running_loop c set_order g (length (running s)) ;;
         record_loras c ;;
         schedule_waiting_reqs c grammar_ready set_order g ;;
         check_constraints c) (initial_step c s)) s
    (λ st s', settled (step_budget s) (mkLoop s' st)) (λ _ _, ¬ total).
Proof.
  intros Hs. pose proof (initial_linv s Hs) as Hl. destruct law_empty as [He Hev]. apply wpe_run_step. wpe_step.
  eapply wpe_mono; [apply (running_loop_spec c total set_order g set_order_perm Hc (step_budget s))| |done].
  - done.
  - done.
  - exists [], (running s). split; [done|]. split; [done|]. by intros o Ho%not_elem_of_nil.
  - unfold left_to_visit. simpl. unfold zlen. lia.
  - intros [] l1 [Hl1 Hph1]. wpe_step. eapply wpe_mono; [by apply (record_loras_spec c total (step_budget s))| |done].
    intros [] l2 [Hl2 Hph2]. wpe_step. eapply wpe_mono; [by apply (schedule_waiting_reqs_spec g (step_budget s))| |done].
    intros [] l3 Hl3. apply wp_wpe.
    eapply wp_mono; [apply (check_constraints_spec (step_budget s)); [done|apply step_budget_le]|].
    intros [] l4 ->. by rewrite loop_eta.
Qed.

(** ** The output *)

(** Reading a list of objects. *)
Lemma wpe_mapM_read {A B} (f : A → M Sch B) (os : list A) s X :
  (∀ o, o ∈ os → wpe (f o) s (λ _ s', s' = s) X) → wpe (mapM_list f os) s (λ _ s', s' = s) X.
Proof.
  induction os as [|o os IH]; intros Hf; cbn [mapM_list]; [by wpe_step|]. wpe_step.
  eapply wpe_mono; [apply Hf; by left| |done]. intros b s1 ->. wpe_step.
  eapply wpe_mono; [apply IH; intros o' Ho'; apply Hf; by right| |done]. intros bs s2 ->. by wpe_step.
Qed.

Lemma wpe_foldM_read {A B} (f : B → A → M Sch B) (os : list A) acc s X :
  (∀ acc o, o ∈ os → wpe (f acc o) s (λ _ s', s' = s) X) → wpe (foldM f os acc) s (λ _ s', s' = s) X.
Proof.
  revert acc. induction os as [|o os IH]; intros acc Hf; cbn [foldM]; [by wpe_step|]. wpe_step.
  eapply wpe_mono; [apply Hf; by left| |done]. intros b s1 ->. apply IH. intros acc' o' Ho'. apply Hf. by right.
Qed.

Section output.
Context (g : StepSettings) (budget : Z) (st : Step (Q := Q)) (s : Sch).
Hypothesis Hl : settled budget (mkLoop s st).

Lemma booked_object o : o ∈ booked st → ∃ r : SRequest, objects s !! o = Some r ∧ o ∈ running s ∧
  is_Some (od_get (request_id r) (num_scheduled_tokens st)) ∧ is_Some (od_get (request_id r) (req_to_new_blocks st)).
Proof.
  intros Ho. pose proof (proj2 (li_booked _ _ _ _ _ Hl) o Ho) as Hrun. simpl in Hrun.
  destruct (si_run _ _ _ _ _ (li_s _ _ _ _ _ Hl) o) as (r & Hr & _); [by apply elem_of_app; right|].
  cbn [sch stp] in Hr. exists r. split; [done|]. split; [done|]. assert (Hn : name s o = request_id r) by (unfold name; by rewrite Hr).
  split.
  - destruct (od_get _ _) eqn:Eg; [by eexists|]. apply od_get_none in Eg. destruct Eg.
    rewrite (li_keys _ _ _ _ _ Hl), <-Hn. by apply (list_elem_of_fmap_2 (name s)).
  - destruct (od_get _ _) eqn:Eg; [by eexists|]. apply od_get_none in Eg. destruct Eg.
    rewrite (li_blocks _ _ _ _ _ Hl), <-Hn. by apply (list_elem_of_fmap_2 (name s)).
Qed.

Lemma new_request_data_spec o X : o ∈ booked st → wpe (new_request_data c st o) s (λ _ s', s' = s) X.
Proof.
  intros Ho. destruct (booked_object o Ho) as (r & Hr & _ & _ & Hb). unfold new_request_data, new_block_ids.
  wpe_step. eapply wpe_obj; [done|]. wpe_step. wpe_step. apply wpe_of_option; [|intros E0; rewrite E0 in Hb; by destruct Hb].
  intros b _. by wpe_steps.
Qed.

(** A resumed request was not scheduled in the step before. *)
Lemma cached_request_spec acc o resumed X :
  o ∈ booked st → (resumed = true → o ∈ scheduled_resumed_reqs st) →
  wpe (cached_request c st acc (o, resumed)) s (λ _ s', s' = s) X.
Proof.
  intros Ho Hres. destruct (booked_object o Ho) as (r & Hr & _ & Hn & Hb). unfold cached_request, new_block_ids. cbn beta iota.
  wpe_step. eapply wpe_obj; [done|]. wpe_step. wpe_step. cbn zeta. wpe_step.
  assert (Htok : ∀ P : list (list Z) → Sch → Prop, (∀ ts, P ts s) →
    wpe (if (1 <? pipeline_parallel_size c) && negb (async_scheduling c) then
           n ← of_option KeyError (od_get (request_id r) (num_scheduled_tokens st));
           let n := n - zlen (default [] (od_get (request_id r) (scheduled_spec_decode_tokens st))) in
           mret [py_slice (_all_token_ids r) (num_computed_tokens r) (num_computed_tokens r + n)]
         else mret []) s P X).
  { intros P HP. destruct (_ && _); [|by wpe_step]. wpe_step.
    apply wpe_of_option; [|intros E0; rewrite E0 in Hn; by destruct Hn]. intros n _. cbn zeta. wpe_step. apply HP. }
  apply Htok. intros ts. wpe_step. apply wpe_assert; cycle 1.
  { intros Hf. exfalso. apply negb_false_iff, andb_true_iff in Hf as [Hr1 Hp%bool_decide_eq_true].
    apply (li_resumed _ _ _ _ _ Hl o); [by apply Hres|]. simpl. unfold name. by rewrite Hr. }
  intros _. wpe_step. wpe_step. apply wpe_of_option; [|intros E0; rewrite E0 in Hb; by destruct Hb].
  intros b _. by wpe_steps.
Qed.

Lemma common_prefix_spec :
  wpe (common_prefix_blocks c) s (λ _ s', ∃ k', s' = set_kv_state k' s ∧ kv_keeps (kv_state s) k')
    (λ _ _, ¬ total).
Proof.
  unfold common_prefix_blocks. wpe_step. wpe_step. destruct (running s) as [|o run] eqn:Erun.
  - wpe_step. exists (kv_state s). split; [by destruct s|apply cache_keeps_refl].
  - destruct (si_run _ _ _ _ _ (li_s _ _ _ _ _ Hl) o) as (r & Hr & _).
    { apply elem_of_app. right. simpl. rewrite Erun. by left. }
    cbn [sch stp] in Hr.
    wpe_step. eapply wpe_obj; [done|]. unfold on_kv. wpe_step.
    eapply wpe_mono; [apply law_kv_common| |by intros e k' H Ht; apply H, (si_ready _ _ _ _ _ (li_s _ _ _ _ _ Hl))]. intros ids k' Hk. by exists k'.
Qed.
End output.

Lemma settled_kv budget st s k' :
  settled budget (mkLoop s st) → kv_keeps (kv_state s) k' →
  settled budget (mkLoop (set_kv_state k' s) st).
Proof.
  intros Hl Hk. apply (linv_same c total [] budget (mkLoop s (set_step_skipped empty_queue st))); try done.
  - apply sinv_keeps; [apply Hl|done].
  - simpl. intros o r' Hr'. by exists r'.
Qed.

(** The cache gives up its books, and keeps what it holds. *)
Lemma wpe_on_kv_shrink {A} (m : M K A) s (P : A → Sch → Prop) :
  (total → kv_ready (kv_state s)) →
  (∀ k, wpe m k (λ _ k', kv_keeps k k') (λ _ _, ¬ kv_ready k)) →
  (∀ a k', kv_keeps (kv_state s) k' → P a (set_kv_state k' s)) →
  wpe (on_kv m) s P (λ _ _, ¬ total).
Proof.
  intros Hready Hm HP. unfold on_kv. wpe_step. eapply wpe_mono; [apply Hm| |by intros e k' H Ht; apply H, Hready].
  intros a k' Hk. by apply HP.
Qed.

Lemma make_output_spec g budget st s :
  settled budget (mkLoop s st) →
  wpe (make_output c g st) s (λ out s', ∃ k e,
    s' = set_enc_state e (set_prev_ids (list_to_set (num_scheduled_tokens st).*1) (set_kv_state k s)) ∧
    kv_keeps (kv_state s) k ∧
    so_num_scheduled_tokens out = num_scheduled_tokens st ∧
    so_total_num_scheduled_tokens out = dict_sum (num_scheduled_tokens st) ∧
    so_spec_decode_tokens out = scheduled_spec_decode_tokens st) (λ _ _, ¬ total).
Proof.
  intros Hl. unfold make_output. wpe_step. eapply wpe_mono; [by eapply common_prefix_spec| |done].
  intros common s1 (k1 & -> & Hk1). cbn zeta. pose proof (settled_kv budget st s k1 Hl Hk1) as Hl1. wpe_step.
  eapply wpe_mono; [apply (wpe_mapM_read _ _ _ (λ _ _, ¬ total))| |done].
  { intros o Ho. eapply new_request_data_spec; [exact Hl1|]. unfold booked. destruct (use_v2_model_runner c); set_solver. }
  intros new s2 ->. wpe_step. eapply wpe_mono; [apply (wpe_foldM_read _ _ _ _ (λ _ _, ¬ total))| |done].
  { intros acc [o resumed] Ho. eapply (cached_request_spec budget); [exact Hl1|..]; apply elem_of_app in Ho as [Ho|Ho];
      apply list_elem_of_fmap in Ho as (o' & [= -> ->] & Ho); try done; try (unfold booked; set_solver);
      destruct (use_v2_model_runner c); try (unfold booked; set_solver). }
  intros cached s3 ->. wpe_step. wpe_step. wpe_step.
  pose proof (si_ready _ _ _ _ _ (li_s _ _ _ _ _ Hl)) as Hready. cbn [sch] in Hready.
  assert (Hzero : ∀ s (P : option (list Z) → Sch → Prop), (total → kv_ready (kv_state s)) →
    (∀ a k', kv_keeps (kv_state s) k' → P a (set_kv_state k' s)) →
    wpe (if needs_kv_cache_zeroing c then ids ← on_kv kv_take_new_block_ids; mret (or_none ids) else mret None) s P (λ _ _, ¬ total)).
  { intros s0 P H0 HP. destruct (needs_kv_cache_zeroing c).
    - wpe_step. apply wpe_on_kv_shrink; [done|apply law_kv_ids|]. intros a k' Hk. wpe_step. by apply HP.
    - wpe_step. specialize (HP None (kv_state s0) (cache_keeps_refl _ _ _)). by destruct s0. }
  apply Hzero; clear Hzero; [intros Ht; by apply Hk1, Hready|]. intros zero k2 Hk2.
  assert (Hk12 := cache_keeps_trans _ _ _ _ _ Hk1 Hk2). wpe_step.
  apply wpe_on_kv_shrink; [intros Ht; by apply Hk12, Hready|apply law_kv_offloads|].
  intros offl k3 Hk3. assert (Hk13 := cache_keeps_trans _ _ _ _ _ Hk12 Hk3). wpe_step. wpe_step. wpe_step. unfold on_enc. wpe_step. apply wp_wpe.
  eapply wp_mono; [apply law_enc_freed|]. intros freed e _. wpe_step.
  apply wpe_on_kv_shrink; [intros Ht; by apply Hk13, Hready|apply law_kv_copies|].
  intros copies k4 Hk4. wpe_step. exists k4, e. split; [done|]. split; [|done].
  exact (cache_keeps_trans _ _ _ _ _ Hk13 Hk4).
Qed.

(** ** After the step *)

Lemma advance_same n (r : SRequest) :
  req_args (advance n r) = req_args r ∧ status (advance n r) = status r ∧ (rok r → rok (advance n r)) ∧
  num_computed_tokens (advance n r) = num_computed_tokens r + n ∧ num_tokens (advance n r) = num_tokens r.
Proof. by split_and!. Qed.

Lemma advance_step xr ex s rid n :
  sinv xr ex s → (∃ o, o ∈ active xr s ∧ name s o = rid) →
  wp (o ← lookup_request rid; upd o (advance n)) s (λ _ s', ∃ o (r : SRequest),
    o ∈ active xr s ∧ objects s !! o = Some r ∧ request_id r = rid ∧
    s' = set_objects (alter (advance n) o (objects s)) s ∧ sinv xr ex s').
Proof.
  intros Hs (o & Ho & Hn). destruct (sinv_placed _ _ _ _ _ o Hs (active_placed _ _ _ _ Ho)) as (r & Hr & _ & _ & Hin).
  unfold name in Hn. rewrite Hr in Hn. subst rid. unfold lookup_request. wp_step. wp_step. wp_step.
  eapply wp_of_option; [by apply od_get_elem; [apply Hs|]|]. unfold upd. wp_step. exists o, r. split_and!; try done.
  apply (sinv_alter c total); [done|]. intros r' Hr'. assert (r' = r) as -> by congruence.
  destruct (si_run _ _ _ _ _ Hs o Ho) as (r' & Hr'' & Hst). assert (r' = r) as -> by congruence.
  split; [done|]. split; [done|]. split; [done|]. by intros (H & _).
Qed.

(** The requests of the scheduled tokens are advanced, each once. *)
Definition advance_by (todo : list (string * Z)) (r : SRequest) : SRequest :=
  match od_get (request_id r) todo with Some n => advance n r | None => r end.

Lemma advance_all ex todo : ∀ s,
  sinv [] ex s → od_ok todo → (∀ rid, rid ∈ todo.*1 → ∃ o, o ∈ running s ∧ name s o = rid) →
  wp (foreach todo (λ e, o ← lookup_request e.1; upd o (advance e.2))) s (λ _ s',
    sinv [] ex s' ∧ (∃ objs, s' = set_objects objs s) ∧
    ∀ o (r : SRequest), objects s !! o = Some r →
      objects s' !! o = Some (if decide (o ∈ running s) then advance_by todo r else r)).
Proof.
  induction todo as [|[rid n] todo IH]; intros s Hs Hok Hrun; cbn [foreach].
  - wp_step. split; [done|]. split; [exists (objects s); by destruct s|]. intros o r Hr. by destruct (decide _).
  - apply od_ok_cons in Hok as [Hno Hok]. wp_step.
    eapply wp_mono; [apply (advance_step [] ex); [done|]|].
    { destruct (Hrun rid) as (o & Ho & Hn); [by left|]. exists o. split; [|done]. by apply elem_of_app; right. }
    intros [] s1 (o & r & Ho & Hr & Hrid & Es1 & Hs1).
    assert (Hnames : ∀ o', name s1 o' = name s o').
    { intros o'. rewrite Es1. apply name_alter. intros r' _. apply advance_same. }
    assert (Hrun1 : running s1 = running s) by by rewrite Es1.
    eapply wp_mono; [apply IH; [done|done|]|].
    { intros k Hk. destruct (Hrun k) as (o' & Ho' & Hn'); [by right|]. exists o'. by rewrite Hrun1, Hnames. }
    intros [] s2 (H1 & (objs & E2) & H3). split; [done|]. split; [exists objs; by rewrite E2, Es1|].
    intros o' r' Hr'. rewrite Hrun1 in H3. unfold active in Ho. simpl in Ho. destruct (decide (o' = o)) as [->|Hne].
    + assert (r' = r) as -> by congruence. rewrite decide_True by done.
      rewrite (H3 o (advance n r)) by by rewrite Es1; simpl; rewrite lookup_alter_eq, Hr. rewrite decide_True by done.
      unfold advance_by. change (request_id (advance n r)) with (request_id r). simpl. rewrite Hrid, decide_True by done.
      by rewrite (proj2 (od_get_none _ _) Hno).
    + rewrite (H3 o' r') by by rewrite Es1; simpl; rewrite lookup_alter_ne by congruence.
      destruct (decide (o' ∈ running s)) as [Ho'|]; [|done]. unfold advance_by. simpl.
      rewrite decide_False; [done|]. intros E1. apply Hne.
      apply (sinv_inj _ _ _ _ _ o' o Hs); [by apply active_placed, elem_of_app; right|by apply active_placed, elem_of_app; right|].
      unfold name. by rewrite Hr, Hr', Hrid.
Qed.

Lemma settled_output budget st s k e prev :
  settled budget (mkLoop s st) → kv_keeps (kv_state s) k →
  sinv [] [] (set_enc_state e (set_prev_ids prev (set_kv_state k s))).
Proof.
  intros Hl Hk. pose proof (li_s _ _ _ _ _ Hl) as Hs. destruct law_empty as [_ Hev]. simpl in Hs. rewrite Hev in Hs.
  eapply sinv_same; [exact Hs|done..].
Qed.

(** What [_update_after_schedule] makes of the state of the loops. *)
Lemma update_after_spec budget st s k e out :
  settled budget (mkLoop s st) → kv_keeps (kv_state s) k → budget ≤ max_num_scheduled_tokens c →
  so_num_scheduled_tokens out = num_scheduled_tokens st → so_total_num_scheduled_tokens out = dict_sum (num_scheduled_tokens st) →
  so_spec_decode_tokens out = scheduled_spec_decode_tokens st →
  wp (_update_after_schedule c out) (set_enc_state e (set_prev_ids (list_to_set (num_scheduled_tokens st).*1) (set_kv_state k s)))
    (λ _ s', scheduled out s').
Proof.
  intros Hl Hk Hb Hnum Htot Hspec. set (s0 := set_enc_state _ _).
  pose proof (settled_output budget st s k e (list_to_set (num_scheduled_tokens st).*1) Hl Hk) as Hs0. fold s0 in Hs0.
  pose proof (scheduled_ok _ _ _ _ _ Hl) as Hok. simpl in Hok. pose proof (li_keys _ _ _ _ _ Hl) as Hkeys. simpl in Hkeys.
  assert (Hbook : ∀ rid, rid ∈ (num_scheduled_tokens st).*1 → ∃ o, o ∈ booked st ∧ o ∈ running s0 ∧ name s0 o = rid).
  { intros rid. rewrite Hkeys. intros (o & -> & Ho)%list_elem_of_fmap. exists o. split; [done|]. split; [|done].
    by apply (li_booked _ _ _ _ _ Hl). }
  unfold _update_after_schedule. rewrite Hnum. wp_step.
  eapply wp_mono; [apply (advance_all [] _ s0 Hs0 Hok)|].
  { intros rid Hrid. destruct (Hbook rid Hrid) as (o & _ & H). by exists o. }
  intros [] s1 (Hs1 & (objs & E1) & Hobj). wp_step. wp_step. rewrite (co_sync _ Hc). apply wp_ret.
  assert (Hrun1 : running s1 = running s) by by rewrite E1.
  assert (Hback : ∀ o (r1 : SRequest), o ∈ running s → objects s1 !! o = Some r1 →
    ∃ r : SRequest, objects s !! o = Some r ∧ r1 = advance_by (num_scheduled_tokens st) r).
  { intros o r1 Ho Hr1. destruct (si_run _ _ _ _ _ Hs0 o) as (r & Hr & _); [by apply elem_of_app; right|].
    exists r. split; [done|]. rewrite (Hobj o r Hr), decide_True in Hr1 by done. by injection Hr1. }
  split; simpl.
  - by eapply sinv_same; [exact Hs1|..].
  - intros a r Ha Hr _. simpl in *. rewrite E1. simpl. intros Hin%elem_of_list_to_set.
    destruct (Hbook _ Hin) as (o & _ & Ho & Hn).
    assert (Ha0 : a ∈ queued [] s1) by done.
    apply (active_not_queued _ _ _ _ _ _ Hs1 Ha0). unfold active. simpl. rewrite Hrun1.
    assert (Ho1 : o ∈ placed [] [] s1) by (apply active_placed, elem_of_app; right; by rewrite Hrun1).
    rewrite (sinv_inj _ _ _ _ _ (req_obj a) o Hs1); [done|by apply queued_placed|done|]. unfold name. rewrite Hr.
    destruct (si_run _ _ _ _ _ Hs1 o) as (r1 & Hr1 & _); [apply elem_of_app; right; by rewrite Hrun1|].
    rewrite Hr1. destruct (Hback o r1 Ho Hr1) as (r0 & Hr0 & ->).
    unfold name in Hn. change (objects s0) with (objects s) in Hn. rewrite Hr0 in Hn. rewrite <-Hn. unfold advance_by.
    by destruct (od_get _ _).
  - rewrite Htot, Hnum. split; [done|]. pose proof (li_budget _ _ _ _ _ Hl) as [H1 H2]. simpl in H1, H2. lia.
  - by rewrite Hnum.
  - rewrite Hnum. apply (li_counts _ _ _ _ _ Hl).
  - rewrite Hnum. intros rid Hrid. destruct (Hbook rid Hrid) as (o & Hob & Ho & Hn).
    destruct (si_run _ _ _ _ _ Hs0 o) as (r & Hr & _); [by apply elem_of_app; right|].
    unfold name in Hn. rewrite Hr in Hn. destruct (od_get rid (num_scheduled_tokens st)) as [n|] eqn:En; [|by apply od_get_none in En].
    exists o, (advance n r). split; [by rewrite Hrun1|]. split.
    { simpl. rewrite (Hobj o r Hr), decide_True by done. unfold advance_by. by rewrite Hn, En. }
    split; [done|]. rewrite <-Hn in En. pose proof (li_advance _ _ _ _ _ Hl o r n Hob Hr En) as Ha.
    unfold advanced, drafts_in. rewrite Hspec. exact Ha.
  - rewrite Hnum. intros o r1 Ho Hr1 Hno. rewrite Hrun1 in Ho. destruct (Hback o r1 Ho Hr1) as (r & Hr & ->).
    unfold advance_by in *. destruct (od_get (request_id r) (num_scheduled_tokens st)) as [n|] eqn:En.
    + destruct Hno. by eapply od_get_mem.
    + apply (li_room _ _ _ _ _ Hl o); [by apply elem_of_app; right|done].
Qed.

(** ** The whole step *)

Lemma ready_kv s k :
  ready s → kv_keeps (kv_state s) k → ready (set_kv_state k s).
Proof.
  intros [H1 H2 H3] Hk. split; [|done|done]. by apply sinv_keeps.
Qed.

Lemma schedule_spec s :
  ready s → wpe (schedule c grammar_ready set_order) s (λ out s', scheduled out s') (λ _ _, ¬ total).
Proof.
  intros Hs. unfold schedule. wpe_step. wpe_step. set (s1 := set_current_step _ s).
  assert (Hs1 : ready s1). { destruct Hs as [H1 H2 H3]. split; [|done|done]. by eapply sinv_same; [exact H1|..]. }
  wpe_step. wpe_step. wpe_step. apply wpe_on_kv_shrink; [apply Hs1|intros k0; apply law_kv_step|]. intros [] k Hk.
  pose proof (ready_kv s1 k Hs1 Hk) as Hs2. set (s2 := set_kv_state k s1) in *.
  destruct (si_queues _ _ _ _ _ (rd_inv _ Hs2)) as [Hw Hkq]. wpe_step.
  apply (wpe_on_queue FromWaiting queue_len _ _ _ _ _ (law_len _ Hw)).
  change (set_queue FromWaiting (waiting s2) s2) with (set_queue FromWaiting (queue_of FromWaiting s2) s2). rewrite set_queue_same.
  wpe_step. apply (wpe_on_queue FromSkipped queue_len _ _ _ _ _ (law_len _ Hkq)).
  change (set_queue FromSkipped (skipped_waiting s2) s2) with (set_queue FromSkipped (queue_of FromSkipped s2) s2). rewrite set_queue_same.
  cbn zeta. set (g := step_settings c s1 _ _). wpe_step.
  change (initial_step c s1) with (initial_step c s2). change (running s1) with (running s2).
  eapply wpe_mono; [by apply (loops_spec g s2 Hs2)| |done]. intros st s3 Hl. wpe_step.
  eapply wpe_mono; [by apply (make_output_spec g (step_budget s2))| |done].
  intros out s4 (k4 & e4 & -> & Hk4 & Hn & Ht & Hsp). wpe_step. apply wp_wpe.
  eapply wp_mono; [apply (update_after_spec (step_budget s2) st s3 k4 e4 out); try done; apply step_budget_le|].
  intros [] s5 H5. by wpe_step.
Qed.
End spec.
