(* ===== verification/SchedUpdateSpec.v ===== *)
(** * The output of a step

    [update_from_output]: the tokens of each scheduled request are appended, drafts
    that were not accepted are taken back, and a request that stops leaves the
    scheduler with its blocks.  Between two calls of [schedule] the invariant of
    the scheduler is restored. *)

From S2P Require Import Prelude.
From S2P Require Import OrderedDict.
From S2P Require Import FreeQueue.
From S2P Require Import Request.
From S2P Require Import BlockHash.
From S2P Require Import RequestQueue.
From S2P Require Import SchedUtils.
From S2P Require Import SchedUtilsSpec.
From S2P Require Import SchedPrefill.
From S2P Require Import EncoderCache.
From S2P Require Import KVManager.
From S2P Require Import MixedPrefill.
From S2P Require Import SchedInterface.
From S2P Require Import Sched.
From S2P Require Import Schedule.
From S2P Require Import SchedUpdate.
From S2P Require Import SchedInv.
From S2P Require Import ScheduleInv.
From S2P Require Import ScheduleRunning.
From S2P Require Import ScheduleSpec.
Local Open Scope Z_scope.

(** [remove_all] drops exactly the elements of the set. *)
Lemma remove_all_filter (l : list Z) (X : gset Z) : NoDup l → remove_all l X = filter (λ o, o ∉ X) l.
Proof.
  intros Hnd. unfold remove_all. pose proof (elem_of_elements X) as Hel. destruct (elements X) as [|x [|y rest]] eqn:E0; [..|done].
  - symmetry. apply filter_true. intros o _ Ho. by apply Hel, not_elem_of_nil in Ho.
  - assert (HX : ∀ o, o ∈ X ↔ o = x) by (intros o; rewrite <-Hel; apply list_elem_of_singleton). clear Hel E0.
    induction l as [|z l IH]; [done|]. apply NoDup_cons in Hnd as [Hz Hnd]. simpl. destruct (decide (z = x)) as [->|Hne].
    + rewrite filter_cons_False by (intros H; apply H; by apply HX). symmetry. apply filter_true.
      intros o Ho Hx%HX. congruence.
    + rewrite filter_cons_True by (by rewrite HX). f_equal. by apply IH.
Qed.

(** ** One request's tokens *)

Section tokens.
Context (block_hasher : option (M Request (list BlockHash))) (max_model_len : Z).
Context (Hhasher : hasher_ok block_hasher).

(** What neither the tokens nor the stop check touch. *)
Definition progress_kept (r r' : Request) : Prop :=
  num_computed_tokens r' = num_computed_tokens r ∧ num_output_placeholders r' = num_output_placeholders r.

Lemma check_stop_kept r :
  wpe (check_stop max_model_len) r (λ _ r', progress_kept r r') (λ _ _, True).
Proof.
  unfold check_stop. wpe_step. wpe_step. wpe_step. apply wpe_assert; [intros _|done]. wpe_step.
  apply wpe_of_option; [|done]. intros sp _. destruct (_ <? _); [by wpe_step|]. wpe_step.
  apply wpe_of_option; [|done]. intros t _.
  repeat (case_bool_decide; [wpe_step; wpe_step; by wpe_step|]). destruct (_ || _); [wpe_step; wpe_step; by wpe_step|].
  destruct (repetition_detection sp); [|by wpe_step]. wpe_step. apply wpe_of_option; [|done].
  intros [] _; [wpe_step; wpe_step; by wpe_step|by wpe_step].
Qed.

Lemma append_kept tokens : ∀ r,
  wpe (append_until_stop block_hasher max_model_len tokens) r (λ _ r', progress_kept r r') (λ _ _, True).
Proof using Hhasher.
  induction tokens as [|t tokens IH]; intros r; cbn [append_until_stop]; [by wpe_step|]. wpe_step.
  assert (Happ : wp (append_output_token_ids block_hasher [t]) r (λ _ r', progress_kept r r')).
  { unfold append_output_token_ids, update_block_hashes. wp_step. wp_step. destruct block_hasher as [f|]; [|by wp_step].
    wp_step. eapply wp_mono; [by apply Hhasher|]. intros hs r' (m & ->). by wp_step. }
  apply wp_wpe. eapply wp_mono; [exact Happ|]. intros [] r1 [H1 H1']. wpe_step.
  eapply wpe_mono; [apply check_stop_kept| |done]. intros [] r2 [H2 H2']; [wpe_step; split; congruence|]. wpe_step.
  eapply wpe_mono; [apply IH| |done]. intros [kept stopped] r3 [H3 H3']. wpe_step. split; congruence.
Qed.

Lemma wp_wpe_and {S A} (m : M S A) s P Q : wp m s P → wpe m s Q (λ _ _, True) → wp m s (λ a s', P a s' ∧ Q a s').
Proof. unfold wp, wpe. by destruct (m s) as [[] ?]. Qed.

(** The outcome for a generation request: all tokens are kept and the request
    stays below the model's length, or it is finished. *)
Definition token_outcome (r : Request) (tokens : list Z) (res : list Z * bool) (r' : Request) : Prop :=
  req_args r' = req_args r ∧ progress_kept r r' ∧
  (res.2 = true → is_finished r' = true) ∧
  (res.2 = false → status r' = status r ∧ res.1 = tokens ∧
     num_tokens r' = num_tokens r + zlen tokens ∧ num_output_tokens r' = num_output_tokens r + zlen tokens).

Lemma append_outcome sp tokens (r : Request) :
  pooling_params r = None → sampling_params r = Some sp → num_tokens r < max_model_len →
  num_tokens r = num_prompt_tokens r + num_output_tokens r → num_prompt_tokens r + min_tokens sp ≤ max_model_len →
  wp (_update_request_with_output block_hasher max_model_len tokens) r (λ res r',
    token_outcome r tokens res r' ∧ (res.2 = false → num_tokens r' < max_model_len)).
Proof using Hhasher.
  intros Hpool Hsp Hlen Hsum Hmin. eapply wp_mono.
  { apply wp_wpe_and; [by apply (append_until_stop_wp block_hasher max_model_len sp Hhasher)|apply append_kept]. }
  intros [kept stopped] r' [Hpost Hkept]. destruct Hpost as ((rest & Etok & Hrest) & Ea & Eo & Eall & Hno & Hst).
  assert (Hnt : num_tokens r' = num_tokens r + zlen kept) by (unfold num_tokens; by rewrite Eall, zlen_app).
  assert (Hnot : num_output_tokens r' = num_output_tokens r + zlen kept) by (unfold num_output_tokens; by rewrite Eo, zlen_app).
  assert (Hkeep : stopped = false → kept = tokens) by (intros E0; rewrite Etok, (Hrest E0), app_nil_r; done).
  split; [split; [done|split; [done|]]; simpl; split|].
  - intros ->. destruct Hst as (_ & _ & Hst). unfold is_finished. destruct Hst as [[_ ->]|[(_ & _ & ->)|(_ & _ & ->)]]; done.
  - intros E0. rewrite E0 in Hst. rewrite <-(Hkeep E0). done.
  - simpl. intros ->. destruct (decide (kept = [])) as [->|Hne]; [rewrite zlen_nil in Hnt; lia|].
    destruct (exists_last Hne) as (p & t & Ek). specialize (Hno p t [] ltac:(by rewrite Ek) ltac:(done)).
    rewrite <-Ek in Hno. apply Znot_ge_lt. intros Hge. apply Hno. unfold stops. rewrite <-Eo, <-Hnt. split.
    + unfold num_output_tokens in *. lia.
    + right. left. left. lia.
Qed.
End tokens.

(** ** The state with one object replaced *)

Section update.
Context {Q K E : Type} `{!RequestQueue Q} `{!QueueLaws Q} `{!KVCache K} `{!KVCacheLaws K}
  `{!EncoderCache E} `{!EncoderLaws E}.
Context (c : SchedConfig) (total : Prop) (set_order : list Z → list Z).
Context (block_hasher : option (M Request (list BlockHash))).
Context (grammar_rejects : Request → list Z → bool).
Hypothesis set_order_perm : ∀ os, set_order os ≡ₚ os.
Hypothesis Hc : config_ok c.
Hypothesis Hhasher : hasher_ok block_hasher.

Abbreviation Sch := (Scheduler Q K E).
Abbreviation sinv := (sinv c total).
Abbreviation rok := (rok c total).
Implicit Types (s : Sch).

Definition put_obj o (r : SRequest) s : Sch := set_objects (<[o := r]> (objects s)) s.

Lemma wpe_upd_obj s o (r : SRequest) f (P : unit → Sch → Prop) X :
  objects s !! o = Some r → P tt (put_obj o (f r) s) → wpe (upd o f) s P X.
Proof.
  intros Hr HP. apply wpe_upd. replace (set_objects _ s) with (put_obj o (f r) s); [done|].
  unfold put_obj. f_equal. apply map_eq. intros o'. destruct (decide (o = o')) as [<-|Hne].
  - by rewrite lookup_insert_eq, lookup_alter_eq, Hr.
  - by rewrite lookup_insert_ne, lookup_alter_ne.
Qed.

Lemma put_obj_put o (r r' : SRequest) s : put_obj o r' (put_obj o r s) = put_obj o r' s.
Proof. unfold put_obj. simpl. by rewrite insert_insert_eq. Qed.

Lemma put_obj_lookup o (r : SRequest) s : objects (put_obj o r s) !! o = Some r.
Proof. apply lookup_insert_eq. Qed.

(** A method of the request. *)
Lemma on_request_spec {A} s o (r : SRequest) (m : M Request A) P :
  objects s !! o = Some r → wp m r P →
  wpe (on_request o m) s (λ a s', ∃ r', P a r' ∧ s' = put_obj o (on_req (λ _, r') r) s) (λ _ _, False).
Proof.
  intros Hr Hm. unfold on_request. wpe_step. eapply wpe_obj; [done|]. cbn beta. unfold wp in Hm.
  destruct (m r) as [[a|e] r']; [|done]. wpe_step. eapply wpe_upd_obj; [done|]. wpe_step. by exists r'.
Qed.

(** The attributes of the tokens' outcome, on the scheduler's record. *)
Definition sr_outcome (r : SRequest) (tokens : list Z) (res : list Z * bool) (r' : SRequest) : Prop :=
  token_outcome r tokens res r' ∧ (res.2 = false → num_tokens r' < sc_max_model_len c) ∧
  prefill_stats_pending r' = prefill_stats_pending r.

(** [advance_request], where only generation requests get tokens. *)
Lemma advance_request_spec s o (r : SRequest) tokens pooled :
  objects s !! o = Some r → num_tokens r < sc_max_model_len c →
  num_tokens r = num_prompt_tokens r + num_output_tokens r →
  (tokens ≠ [] → ∃ sp, pooling_params r = None ∧ sampling_params r = Some sp ∧
     num_prompt_tokens r + min_tokens sp ≤ sc_max_model_len c) →
  wpe (advance_request c block_hasher grammar_rejects o tokens pooled) s (λ res s', ∃ r',
    s' = put_obj o r' s ∧ sr_outcome r tokens res r') (λ _ _, False).
Proof.
  intros Hr Hlen Hsum Hgen. unfold advance_request. wpe_step. eapply wpe_obj; [done|]. wpe_step.
  assert (Hsame : s = put_obj o r s).
  { unfold put_obj. rewrite insert_id by done. by destruct s. }
  assert (Hrefl : sr_outcome r [] ([], false) r).
  { split; [|done]. split; [done|]. split; [done|]. split; [done|]. intros _. simpl. rewrite zlen_nil. split_and!; lia || done. }
  assert (Hfirst : wpe (if negb (is_nil tokens) then append_tokens c block_hasher o tokens
     else if bool_decide (is_Some (pooling_params r)) && bool_decide (is_Some pooled) then
       upd o (on_req (λ r, set_status FINISHED_STOPPED (stop_reason r) r)) ;; mret (tokens, true)
     else mret (tokens, false)) s (λ res s', ∃ r', s' = put_obj o r' s ∧ sr_outcome r tokens res r') (λ _ _, False)).
  { destruct tokens as [|t tokens]; cbn [is_nil negb].
    - destruct (_ && _).
      + wpe_step. eapply wpe_upd_obj; [done|]. wpe_step. eexists. split; [done|]. split; [|done].
        split; [done|]. split; [done|]. split; done.
      + wpe_step. by exists r.
    - destruct (Hgen ltac:(done)) as (sp & H1 & H2 & H3). unfold append_tokens. wpe_step. eapply wpe_obj; [done|].
      rewrite (co_sync _ Hc). cbn [negb]. eapply wpe_mono; [eapply (on_request_spec s o r); [done|by apply (append_outcome _ _ Hhasher sp)]| |done].
      intros res s' (r' & [Ho Hl] & ->). eexists. split; [done|]. split; [exact Ho|]. split; [exact Hl|done]. }
  eapply wpe_mono; [exact Hfirst| |done]. clear Hfirst Hrefl. intros [kept stopped] s1 (r1 & -> & Ho & Hl & Hp). wpe_step.
  eapply wpe_obj; [apply put_obj_lookup|]. destruct (negb (is_nil kept) && grammar_rejects r1 kept).
  - wpe_step. eapply wpe_upd_obj; [apply put_obj_lookup|]. wpe_step. eexists. rewrite put_obj_put. split; [done|].
    destruct Ho as (H1 & H2 & _ & _). split; [|done]. split; [done|]. split; [done|]. split; done.
  - wpe_step. by exists r1.
Qed.

(** ** Waiting for the output *)

(** The worker's row of a request. *)
Definition row (mro : ModelRunnerOutput) (rid : string) : option (list Z * option Tensor) :=
  i ← req_id_to_index mro !! rid;
  tokens ← (if is_nil (sampled_token_ids mro) then Some [] else py_get (sampled_token_ids mro) i);
  pooled ← (if is_nil (pooler_output mro) then Some None else py_get (pooler_output mro) i);
  Some (tokens, pooled).

Lemma row_of_spec mro rid x s : row mro rid = Some x → wp (row_of mro rid) s (λ y s', y = x ∧ s' = s).
Proof.
  unfold row, row_of. intros Hx. apply bind_Some in Hx as (i & Hi & Hx). apply bind_Some in Hx as (ts & Hts & Hx).
  apply bind_Some in Hx as (po & Hpo & Hx). injection Hx as <-. wp_step. eapply wp_of_option; [done|]. wp_step.
  assert (H1 : ∀ P : list Z → Sch → Prop, P ts s → wp (if is_nil (sampled_token_ids mro) then mret []
            else of_option IndexError (py_get (sampled_token_ids mro) i)) s P).
  { intros P HP. destruct (is_nil (sampled_token_ids mro)); [simplify_eq; by wp_step|]. by eapply wp_of_option. }
  apply H1. clear H1. wp_step.
  assert (H2 : ∀ P : option Tensor → Sch → Prop, P po s → wp (if is_nil (pooler_output mro) then mret None
            else of_option IndexError (py_get (pooler_output mro) i)) s P).
  { intros P HP. destruct (is_nil (pooler_output mro)); [simplify_eq; by wp_step|]. by eapply wp_of_option. }
  apply H2. by wp_step.
Qed.

(** The worker answers a request: with drafts it accepts some of them and adds a
    token, and only generation requests get tokens. *)
Definition answered (out : SchedulerOutput) (mro : ModelRunnerOutput) (r : Request) : Prop :=
  ∃ tokens pooled, row mro (request_id r) = Some (tokens, pooled) ∧
    (0 < drafts_in out (request_id r) → 1 ≤ zlen tokens ≤ drafts_in out (request_id r) + 1) ∧
    (tokens ≠ [] → pooling_params r = None).

(** The state between [schedule] and [update_from_output]: a scheduled request
    runs, with the tokens of the step counted as computed, or has left. *)
Record awaits (out : SchedulerOutput) s : Prop := {
  aw_inv : sinv [] [] s;
  aw_prev : prev_ok [] s;
  aw_ids : od_ok (so_num_scheduled_tokens out);
  aw_counts : ∀ e, e ∈ so_num_scheduled_tokens out → 0 < e.2;
  aw_scheduled : ∀ rid o, rid ∈ (so_num_scheduled_tokens out).*1 → od_get rid (requests s) = Some o →
    o ∈ running s ∧ ∃ r : SRequest, objects s !! o = Some r ∧ advanced c out r;
  aw_others : ∀ o (r : SRequest), o ∈ running s → objects s !! o = Some r →
    request_id r ∉ (so_num_scheduled_tokens out).*1 → num_computed_tokens r ≤ num_tokens r;
}.

Lemma scheduled_awaits out s : scheduled c total out s → awaits out s.
Proof.
  intros [H1 H2 H3 H4 H5 H6 H7]. split; try done. intros rid o Hrid Ho.
  destruct (H6 rid Hrid) as (o' & r & Ho' & Hr & Hid & Hadv).
  destruct (sinv_placed _ _ _ _ _ o' H1) as (r0 & Hr0 & _ & _ & Hin); [by apply active_placed, elem_of_app; right|].
  assert (r0 = r) as -> by congruence. rewrite Hid in Hin. apply (od_get_elem _ _ _ (si_dict _ _ _ _ _ H1)) in Hin.
  assert (o' = o) as -> by congruence. split; [done|]. by exists r.
Qed.

(** While the requests are gone through: those of [X] have stopped, those of
    [todo] are still to come. *)
Definition alive (X : gset Z) s : Sch := set_running (filter (λ o, o ∉ X) (running s)) s.

Record updating (out : SchedulerOutput) (mro : ModelRunnerOutput) (todo : list string) (X : gset Z) s : Prop := {
  up_nodup : NoDup (running s);
  up_inv : sinv [] [] (alive X s);
  up_prev : prev_ok [] s;
  up_todo : ∀ rid o, rid ∈ todo → od_get rid (requests s) = Some o →
    o ∈ running (alive X s) ∧ ∃ r : SRequest, objects s !! o = Some r ∧ advanced c out r ∧ answered out mro r;
  up_room : ∀ o (r : SRequest), o ∈ running (alive X s) → objects s !! o = Some r →
    request_id r ∉ todo → num_computed_tokens r ≤ num_tokens r;
}.

Lemma alive_name X s o (r : SRequest) :
  sinv [] [] (alive X s) → o ∈ running (alive X s) → objects s !! o = Some r →
  od_get (request_id r) (requests s) = Some o ∧ status r = RUNNING ∧ rok r.
Proof.
  intros Hs Ho Hr. destruct (sinv_placed _ _ _ _ _ o Hs) as (r0 & Hr0 & _ & Hok & Hin); [by apply active_placed, elem_of_app; right|].
  destruct (si_run _ _ _ _ _ Hs o) as (r1 & Hr1 & Hst); [by apply elem_of_app; right|]. simpl in Hr0, Hr1.
  assert (r0 = r) as -> by congruence. assert (r1 = r) as -> by congruence. split; [|done].
  by apply (od_get_elem _ _ _ (si_dict _ _ _ _ _ Hs)).
Qed.

(** A request goes on. *)
Lemma updating_keep out mro rid todo X s o (r r' : SRequest) e :
  updating out mro (rid :: todo) X s → o ∈ running (alive X s) → objects s !! o = Some r → request_id r = rid → rid ∉ todo →
  req_args r' = req_args r → status r' = RUNNING → rok r' → num_computed_tokens r' ≤ num_tokens r' →
  updating out mro todo X (set_enc_state e (put_obj o r' s)).
Proof.
  intros [H0 H1 H2 H3 H4] Ho Hr Hid Hno Ea Est Hok Hroom. destruct (alive_name X s o r H1 Ho Hr) as (Hget & Hrun & Hrok).
  assert (Hlook : ∀ o' (r0 : SRequest), objects (put_obj o r' s) !! o' = Some r0 →
    o' = o ∧ r0 = r' ∨ o' ≠ o ∧ objects s !! o' = Some r0).
  { intros o' r0. destruct (decide (o' = o)) as [->|Hne]; [rewrite put_obj_lookup; intros [= <-]; by left|].
    unfold put_obj. simpl. rewrite lookup_insert_ne by congruence. by right. }
  assert (Hs : sinv [] [] (alive X (put_obj o r' s))).
  { replace (alive X (put_obj o r' s)) with (set_objects (alter (λ _, r') o (objects (alive X s))) (alive X s)).
    - apply (sinv_alter c total); [done|]. simpl. intros r0 Hr0. assert (r0 = r) as -> by congruence. split_and!; try done.
      by intros [? _].
    - assert (Em : <[o := r']> (objects s) = alter (λ _, r') o (objects s)).
      { apply map_eq. intros o'. destruct (decide (o = o')) as [<-|Hne].
        - by rewrite lookup_alter_eq, lookup_insert_eq, Hr.
        - by rewrite lookup_alter_ne, lookup_insert_ne. }
      unfold put_obj. by rewrite Em. }
  split; [done|..].
  - by refine (sinv_same c total [] [] (alive X (put_obj o r' s)) (alive X (set_enc_state e (put_obj o r' s))) Hs eq_refl eq_refl eq_refl eq_refl eq_refl _).
  - intros a r0 Ha Hr0 Hst. simpl in *. destruct (Hlook _ _ Hr0) as [[_ ->]|[_ Hr0']]; [congruence|]. by apply (H2 a).
  - intros rid' o' Hin Hget'. simpl in Hget'. destruct (H3 rid' o') as [Ho' (r0 & Hr0 & H)]; [by right|done|]. split; [done|].
    exists r0. split; [|done]. simpl. rewrite lookup_insert_ne; [done|]. intros <-. apply Hno. rewrite <-Hid.
    destruct (alive_name X s o r0 H1 Ho Hr0) as (Hget0 & _). assert (r0 = r) as -> by congruence.
    pose proof (od_get_elem rid' o (requests s) (si_dict _ _ _ _ _ H1)) as HA.
    apply HA in Hget'. destruct (si_names _ _ _ _ _ H1 rid' o Hget') as (r2 & Hr2 & Hid2 & _). simpl in Hr2.
    assert (r2 = r) as -> by congruence. by rewrite Hid2.
  - intros o' r0 Ho' Hr0 Hn. destruct (Hlook o' r0 Hr0) as [[-> ->]|[Hne Hr0']]; [done|].
    apply (H4 o' r0); [done|done|]. intros [E1|?]%elem_of_cons; [|done]. apply Hne.
    destruct (alive_name X s o' r0 H1 Ho' Hr0') as (Hget0 & _). rewrite E1, <-Hid in Hget0. congruence.
Qed.

(** A request has stopped and left. *)
Lemma updating_drop out mro rid todo X s s' o (r : SRequest) :
  updating out mro (rid :: todo) X s → o ∈ running (alive X s) → objects s !! o = Some r → request_id r = rid → rid ∉ todo →
  (∀ o', o' ≠ o → objects s' !! o' = objects s !! o') → requests s' = od_del rid (requests s) → running s' = running s →
  waiting s' = waiting s → skipped_waiting s' = skipped_waiting s →
  prev_step_scheduled_req_ids s' = prev_step_scheduled_req_ids s →
  kv_frees rid (kv_state s) (kv_state s') →
  updating out mro todo ({[o]} ∪ X) s'.
Proof.
  intros [H0 H1 H2 H3 H4] Ho Hr Hid Hno Hobj Hreq Hrun Ew Ek Eprev Hhold.
  pose proof (sinv_nodup _ _ _ _ _ H1) as Hnd. unfold placed, active in Hnd. simpl in Hnd. apply NoDup_app in Hnd as (Hnd & _).
  assert (Erun : running (alive ({[o]} ∪ X) s') = list_remove o (running (alive X s))).
  { unfold alive. simpl. rewrite Hrun. transitivity (remove_all (filter (λ o, o ∉ X) (running s)) {[o]}).
    - rewrite remove_all_filter by done. rewrite list_filter_filter. apply list_filter_iff. set_solver.
    - unfold remove_all. by rewrite elements_singleton. }
  pose proof (list_remove_perm _ _ Ho) as Hp. rewrite <-Erun in Hp.
  assert (Hqu : queued [] (alive ({[o]} ∪ X) s') = queued [] (alive X s)) by (unfold queued; simpl; by rewrite Ew, Ek).
  assert (Hs : sinv [] [] (alive ({[o]} ∪ X) s')).
  { apply (sinv_remove c total [] [] [] [] (alive X s) _ o r); try done.
    - by rewrite Hid.
    - unfold placed, active. rewrite Hqu, app_nil_l, Hp. done.
    - unfold active. rewrite !app_nil_l. intros x Hx. rewrite Hp. by right.
    - by rewrite Hqu.
    - simpl. rewrite Ew, Ek. apply H1.
    - by rewrite Hid.
    - unfold active. rewrite !app_nil_l. unfold zlen. rewrite Hp. simpl. lia. }
  assert (Hne : ∀ x, x ∈ running (alive ({[o]} ∪ X) s') → x ≠ o ∧ x ∈ running (alive X s)).
  { intros x Hx. rewrite Erun in Hx. by apply elem_of_list_remove in Hx. }
  split; [by rewrite Hrun|done|..].
  - intros a r0 Ha Hr0 Hst. rewrite Eprev. apply (H2 a); [by unfold queued in *; rewrite Ew, Ek in Ha| |done].
    rewrite <-Hobj; [done|]. intros E0. apply (active_not_queued c total [] [] (alive X s) a H1).
    + unfold queued in *. simpl. by rewrite Ew, Ek in Ha.
    + rewrite E0. by apply elem_of_app; right.
  - intros rid' o' Hin Hget. rewrite Hreq, od_get_del in Hget. destruct (decide (rid = rid')) as [|Hd]; [done|].
    destruct (H3 rid' o') as [Ho' (r0 & Hr0 & H)]; [by right|done|].
    assert (o' ≠ o).
    { intros ->. destruct (alive_name X s o r0 H1 Ho' Hr0) as (Hg & _). assert (r0 = r) as -> by congruence.
      apply (od_get_elem _ _ _ (si_dict _ _ _ _ _ H1)) in Hget. destruct (si_names _ _ _ _ _ H1 rid' o Hget) as (r2 & Hr2 & Hid2 & _).
      simpl in Hr2. congruence. }
    split; [rewrite Erun; by apply elem_of_list_remove|]. exists r0. by rewrite Hobj.
  - intros o' r0 Ho' Hr0 Hn. destruct (Hne o' Ho') as [Hd Ho1]. rewrite Hobj in Hr0 by done. apply (H4 o' r0); [done|done|].
    intros [E1|?]%elem_of_cons; [|done]. apply Hd. destruct (alive_name X s o' r0 H1 Ho1 Hr0) as (Hg & _).
    destruct (alive_name X s o r H1 Ho Hr) as (Hg' & _). congruence.
Qed.

(** ** One request *)

(** After the drafts that were not accepted are taken back, the computed tokens
    end before the sampled ones. *)
Lemma reject_room out (r : Request) (tokens : list Z) :
  0 < num_tokens r → num_output_placeholders r = 0 → advanced c out r →
  (0 < drafts_in out (request_id r) → 1 ≤ zlen tokens ≤ drafts_in out (request_id r) + 1) →
  let drafts := default [] (od_get (request_id r) (so_spec_decode_tokens out)) in
  let r' := if negb (is_nil drafts) && negb (is_nil tokens) then reject (zlen drafts - (zlen tokens - 1)) r else r in
  num_computed_tokens r' ≤ num_tokens r + zlen tokens ∧ num_output_placeholders r' = 0.
Proof.
  intros Hpos Hph (H1 & H2 & _) Hacc. cbn zeta. unfold drafts_in in *. set (ds := default [] _) in *.
  pose proof (zlen_nonneg tokens). destruct ds as [|d ds]; [rewrite zlen_nil in *; simpl; lia|].
  assert (Hk : 0 < zlen (d :: ds)) by (rewrite zlen_cons; pose proof (zlen_nonneg ds); lia).
  specialize (H2 Hk). specialize (Hacc Hk). destruct tokens as [|t tokens]; [rewrite zlen_nil in Hacc; lia|].
  simpl. unfold reject. rewrite (proj2 (Z.ltb_lt 0 (num_computed_tokens r))) by lia. simpl. rewrite Hph. simpl. lia.
Qed.

Lemma free_encoder_inputs_spec s o (r : SRequest) :
  objects s !! o = Some r → mm_features r ≠ [] → (total → mm_features r = []) →
  wpe (_free_encoder_inputs c set_order o) s (λ _ s', ∃ e, s' = set_enc_state e s) (λ _ _, ¬ total).
Proof.
  intros Hr Hne Hmm. assert (Hnt : ¬ total) by (intros Ht; by apply Hne, Hmm).
  assert (Hany : ∀ {A} (m : M E A) s0, wpe (on_enc m) s0 (λ _ s', ∃ e, s' = set_enc_state e s0) (λ _ _, ¬ total)).
  { intros A m s0. unfold on_enc. wpe_step. unfold wpe. destruct (m (enc_state s0)) as [[] e]; [by exists e|done]. }
  unfold _free_encoder_inputs. wpe_step. eapply wpe_obj; [done|]. wpe_step. eapply wpe_mono; [apply Hany| |done].
  intros ids s1 (e1 & ->). generalize (set_order ids) as l. intros l. revert e1.
  induction l as [|i l IH]; intros e1; cbn [foreach]; [wpe_step; by exists e1|]. wpe_step. wpe_step.
  apply wpe_of_option; [|done]. intros f _.
  assert (Hone : ∀ m : M E unit, wpe (on_enc m) (set_enc_state e1 s)
    (λ _ s', wpe (foreach l (λ input_id, f ← of_option IndexError (py_get (mm_features r) input_id);
        if is_encoder_decoder c && (0 <? num_computed_tokens r) then on_enc (free_encoder_input r input_id)
        else if offset (mm_position f) + length_ (mm_position f) <=? num_computed_tokens r
        then on_enc (free_encoder_input r input_id) else mret tt)) s' (λ _ s'', ∃ e, s'' = set_enc_state e s) (λ _ _, ¬ total)) (λ _ _, ¬ total)).
  { intros m. eapply wpe_mono; [apply Hany| |done]. intros [] s2 (e2 & ->). apply IH. }
  destruct (_ && _); [apply Hone|]. destruct (_ <=? _); [apply Hone|]. wpe_step. apply IH.
Qed.

Lemma put_obj_enc o r e s : put_obj o r (set_enc_state e s) = set_enc_state e (put_obj o r s).
Proof. done. Qed.

Lemma update_request_spec out mro acc rid n todo s :
  updating out mro (rid :: todo) (stopped_running_reqs acc) s → stopped_preempted_reqs acc = [] → rid ∉ todo → 0 < n →
  wpe (update_request c set_order block_hasher grammar_rejects out mro acc (rid, n)) s (λ acc' s',
    stopped_preempted_reqs acc' = [] ∧ updating out mro todo (stopped_running_reqs acc') s') (λ _ _, ¬ total).
Proof.
  intros Hup Hacc Hno Hn. unfold update_request. wpe_step. apply wpe_assert; [intros _|by rewrite (proj2 (Z.ltb_lt 0 n))].
  wpe_step. wpe_step. pose proof Hup as [H0 H1 H2 H3 H4]. destruct (od_get rid (requests s)) as [o|] eqn:Eo; cycle 1.
  { wpe_step. split; [done|]. split; [done|done|done| |].
    - intros rid' o Hin. apply H3. by right.
    - intros o r Ho Hr Hn'. apply (H4 o r Ho Hr). intros [E0|?]%elem_of_cons; [|done].
      destruct (alive_name _ s o r H1 Ho Hr) as (Hg & _). congruence. }
  destruct (H3 rid o) as (Ho & r & Hr & Hadv & (tokens & pooled & Hrow & Hacct & Hgen)); [by left|done|].
  destruct (alive_name _ s o r H1 Ho Hr) as (Hget & Hst & Hok).
  assert (Hid : request_id r = rid).
  { apply (od_get_elem _ _ _ (si_dict _ _ _ _ _ H1)) in Eo. destruct (si_names _ _ _ _ _ H1 rid o Eo) as (r2 & Hr2 & Hid2 & _).
    simpl in Hr2. congruence. }
  destruct Hok as (Hlen & Hph & Hpend & Hmm & Hsum & Hmin).
  wpe_step. eapply wpe_upd_obj; [done|]. set (r1 := on_req _ r). wpe_step. eapply wpe_obj; [apply put_obj_lookup|]. cbn beta.
  assert (Hfin : is_finished r1 = false) by (unfold is_finished, r1; simpl; by rewrite Hst). rewrite Hfin.
  wpe_step. apply wp_wpe. rewrite Hid in Hrow. eapply wp_mono; [by apply row_of_spec|]. intros [ts po] s1 [[= -> ->] ->]. cbn zeta.
  set (drafts := default [] (od_get rid (so_spec_decode_tokens out))).
  set (r2 := if negb (is_nil drafts) && negb (is_nil tokens) then on_req (reject (zlen drafts - (zlen tokens - 1))) r1 else r1).
  assert (Hr2 : req_args r2 = req_args r ∧ status r2 = RUNNING ∧ _all_token_ids r2 = _all_token_ids r ∧
    _output_token_ids r2 = _output_token_ids r ∧ prefill_stats_pending r2 = prefill_stats_pending r ∧
    num_computed_tokens r2 ≤ num_tokens r + zlen tokens ∧ num_output_placeholders r2 = 0).
  { pose proof (reject_room out r1 tokens ltac:(apply Hlen) Hph Hadv Hacct) as Hroom. cbn zeta in Hroom.
    change (request_id r1) with (request_id r) in Hroom. rewrite Hid in Hroom. fold drafts in Hroom.
    unfold r2. destruct (negb (is_nil drafts) && negb (is_nil tokens)).
    - split_and!; try done; simpl; try apply Hroom; unfold reject; repeat destruct (_ <? _); done.
    - split_and!; try done; apply Hroom. }
  destruct Hr2 as (Ea2 & Est2 & Eall2 & Eout2 & Epend2 & Hroom2 & Hph2).
  assert (Hnt2 : num_tokens r2 = num_tokens r) by (unfold num_tokens; by rewrite Eall2).
  assert (Hno2 : num_output_tokens r2 = num_output_tokens r) by (unfold num_output_tokens; by rewrite Eout2).
  wpe_step.
  assert (Hrej : ∀ P X, P tt (put_obj o r2 s) →
    wpe (when (negb (is_nil drafts) && negb (is_nil tokens)) (upd o (on_req (reject (zlen drafts - (zlen tokens - 1))))))
      (put_obj o r1 s) P X).
  { intros P X HP. unfold r2 in HP. apply wpe_when; intros Eb; rewrite Eb in HP; [|done].
    eapply wpe_upd_obj; [apply put_obj_lookup|]. by rewrite put_obj_put. }
  apply Hrej. clear Hrej. clearbody r2. wpe_step.
  assert (Henc : wpe (when (has_encoder_inputs r1) (_free_encoder_inputs c set_order o)) (put_obj o r2 s)
    (λ _ s', ∃ e, s' = set_enc_state e (put_obj o r2 s)) (λ _ _, ¬ total)).
  { apply wpe_when; intros Hh.
    - apply (free_encoder_inputs_spec _ o r2); [apply put_obj_lookup| |by rewrite Ea2].
      rewrite Ea2. intros E0. unfold has_encoder_inputs, r1 in Hh. simpl in Hh. by rewrite E0 in Hh.
    - exists (enc_state s). by destruct s. }
  eapply wpe_mono; [exact Henc| |done]. clear Henc. intros [] s2 (e & ->). wpe_step.
  eapply wpe_mono; [apply (advance_request_spec _ o r2 tokens pooled)| |done].
  { apply put_obj_lookup. } { lia. } { rewrite Hnt2, Hno2, Ea2. done. }
  { intros Hne. rewrite Ea2. specialize (Hgen Hne). destruct (Hmin Hgen) as (sp & H5 & H6). by exists sp. }
  intros [kept stopped] s3 (r3 & -> & (Ea3 & (Ec3 & Ep3) & Hfin3 & Hgo3) & Hlen3 & Hpend3).
  simpl in Hfin3, Hgo3, Hlen3. rewrite put_obj_enc, put_obj_put. wpe_step. eapply wpe_obj; [apply put_obj_lookup|].
  destruct stopped; cbn beta.
  - (* it stops *)
    specialize (Hfin3 eq_refl). wpe_step. cbn [when].
    eapply wpe_mono; [apply (free_request_spec total set_order set_order_perm _ o r3); [apply put_obj_lookup|done|by rewrite Ea3, Ea2|..]| |done].
    { rewrite Ea3, Ea2, Hid. simpl. by eapply od_get_mem. } { exact (si_ready _ _ _ _ _ H1). }
    intros [] s4 (k & e4 & fin & -> & Hk). rewrite orb_true_r. wpe_step.
    assert (Hr4 : objects (set_requests (od_del (request_id r3) (requests (put_obj o r3 s)))
      (set_kv_state k (set_finished_ids fin (set_enc_state e4 (set_enc_state e (put_obj o r3 s)))))) !! o = Some r3)
      by apply put_obj_lookup.
    eapply wpe_upd_obj; [exact Hr4|]. wpe_step. change (status r1) with (status r). rewrite Hst. cbn [negb].
    rewrite bool_decide_eq_true_2 by done. simpl. split; [done|].
    apply (updating_drop out mro rid todo _ s _ o r); try done.
    + intros o' Hne. simpl. by rewrite !lookup_insert_ne by congruence.
    + simpl. by rewrite Ea3, Ea2, Hid.
    + rewrite Ea3, Ea2, Hid in Hk. exact Hk.
  - (* it goes on *)
    destruct (Hgo3 eq_refl) as (Est3 & -> & Hnt3 & Hno3). specialize (Hlen3 eq_refl). wpe_step. cbn [when negb]. wpe_step.
    assert (Hkeep : ∀ r4 : SRequest, kv_req (s_kv r4) = kv_req (s_kv r3) →
      (prefill_stats_pending r4 = true → num_tokens r4 ≤ num_prompt_tokens r4) →
      updating out mro todo (stopped_running_reqs acc) (set_enc_state e (put_obj o r4 s))).
    { intros r4 E4 Hp4. apply (updating_keep out mro rid todo _ s o r); try done.
      - by rewrite E4, Ea3, Ea2.
      - rewrite E4. congruence.
      - pose proof (zlen_nonneg tokens). unfold SchedInv.rok. rewrite E4, Ep3, Ea3, Ea2, Hnt3, Hno3, Hnt2, Hno2, <-Hnt2, <-Hno2.
        rewrite E4 in Hp4. rewrite Ea3, Ea2, Hnt3 in Hp4. split_and!; try done; lia.
      - rewrite E4, Ec3, Hnt3, Hnt2. done. }
    rewrite orb_false_r. destruct (negb (is_nil tokens) || bool_decide (is_Some pooled)) eqn:Eany.
    + wpe_step. eapply wpe_upd_obj; [apply put_obj_lookup|]. wpe_step. rewrite put_obj_enc, put_obj_put.
      split; [done|]. simpl. apply (Hkeep (set_stats_pending false r3)); [done|]. done.
    + wpe_step. split; [done|]. apply Hkeep; [done|]. apply orb_false_iff in Eany as [En _].
      assert (tokens = []) as -> by by destruct tokens. rewrite zlen_nil in Hnt3. intros Hp. rewrite Hpend3, Epend2 in Hp.
      rewrite Ea3, Ea2. specialize (Hpend Hp). lia.
Qed.

(** ** All requests *)

(** The worker's answers cover the requests that are still known, and the time it
    reports is one the token budget can learn from. *)
Definition answers (out : SchedulerOutput) (mro : ModelRunnerOutput) s : Prop :=
  (∀ rid o (r : SRequest), rid ∈ (so_num_scheduled_tokens out).*1 → od_get rid (requests s) = Some o →
    objects s !! o = Some r → answered out mro r) ∧
  wp (Mixed.update (mixed_prefill_timing mro)) (mixed_prefill_budget s) (λ _ _, True).

Lemma update_all out mro todo : ∀ acc s,
  od_ok todo → (∀ e, e ∈ todo → 0 < e.2) →
  updating out mro todo.*1 (stopped_running_reqs acc) s → stopped_preempted_reqs acc = [] →
  wpe (foldM (update_request c set_order block_hasher grammar_rejects out mro) todo acc) s (λ acc' s',
    stopped_preempted_reqs acc' = [] ∧ updating out mro [] (stopped_running_reqs acc') s') (λ _ _, ¬ total).
Proof.
  induction todo as [|[rid n] todo IH]; intros acc s Hok Hpos Hup Hacc; cbn [foldM]; [by wpe_step|].
  apply od_ok_cons in Hok as [Hno Hok]. wpe_step. eapply wpe_mono; [apply (update_request_spec out mro acc rid n todo.*1)| |done].
  - done.
  - done.
  - done.
  - apply (Hpos (rid, n)). by left.
  - intros acc' s' [H1 H2]. apply IH; [done| |done|done]. intros e He. apply Hpos. by right.
Qed.

(** The budget is not part of the invariants. *)
Lemma awaits_budget b out s : awaits out s → awaits out (set_mixed_budget b s).
Proof. intros [H1 H2 H3 H4 H5 H6]. split; try done. by apply (sinv_same c total [] [] s). Qed.

Lemma update_from_output_spec out mro s :
  awaits out s → answers out mro s →
  wpe (update_from_output c set_order block_hasher grammar_rejects out mro) s (λ _ s', ready c total s') (λ _ _, ¬ total).
Proof.
  intros Haw [Hans Htime]. unfold update_from_output, on_budget. wpe_step. wpe_step. apply wp_wpe.
  eapply wp_mono; [exact Htime|]. intros [] b _. apply (awaits_budget b) in Haw. revert Hans Haw.
  change (objects s) with (objects (set_mixed_budget b s)). change (requests s) with (requests (set_mixed_budget b s)).
  generalize (set_mixed_budget b s). clear s Htime. intros s Hans [H1 H2 H3 H4 H5 H6]. wpe_step.
  assert (Halive : alive ∅ s = s).
  { unfold alive. rewrite filter_true; [by destruct s|]. set_solver. }
  eapply wpe_mono; [apply (update_all out mro _ _ s H3 H4)| |done].
  - simpl. split; rewrite ?Halive; try done.
    + pose proof (sinv_nodup _ _ _ _ _ H1) as Hnd. by apply NoDup_app in Hnd as (Hnd & _).
    + intros rid o Hin Hget. destruct (H5 rid o Hin Hget) as (Ho & r & Hr & Hadv).
      split; [done|]. exists r. split_and!; try done. by apply (Hans rid o).
  - done.
  - intros acc s' [Hpre [U0 U1 U2 U3 U4]]. wpe_step. wpe_step. wpe_step. rewrite Hpre. cbn [when is_nil negb]. wpe_step. wpe_step.
    rewrite remove_all_filter by done. fold (alive (stopped_running_reqs acc) s'). split; [done| |done].
    intros o r Ho Hr. apply (U4 o r Ho Hr). apply not_elem_of_nil.
Qed.
End update.
