(* ===== verification/SchedLife.v ===== *)
(** * Arrival and departure of requests

    [add_request], [finish_requests], [update_draft_token_ids] and
    [reset_prefix_cache]: each keeps the invariant of the scheduler, both between
    two steps and while the output of a step is awaited. *)

From S2P Require Import Prelude.
From S2P Require Import FreeQueue.
From S2P Require Import Request.
From S2P Require Import BlockHash.
From S2P Require Import OrderedDict.
From S2P Require Import RequestQueue.
From S2P Require Import SchedUtils.
From S2P Require Import SchedUtilsSpec.
From S2P Require Import SchedPrefill.
From S2P Require Import EncoderCache.
From S2P Require Import KVManager.
From S2P Require Import SchedInterface.
From S2P Require Import Sched.
From S2P Require Import Schedule.
From S2P Require Import SchedUpdate.
From S2P Require Import SchedInv.
From S2P Require Import ScheduleInv.
From S2P Require Import ScheduleRunning.
From S2P Require Import ScheduleSpec.
From S2P Require Import SchedUpdateSpec.
Local Open Scope Z_scope.

Lemma without_perm (args l : list RequestArgs) :
  NoDup (req_obj <$> l) → NoDup args → (∀ a, a ∈ args → a ∈ l) → l ≡ₚ args ++ without args l.
Proof.
  intros Hnd Ha Hsub. pose proof (NoDup_fmap_1 _ _ Hnd) as Hl.
  assert (Hmem : ∀ x, x ∈ l → existsb (same_object x) args = true ↔ x ∈ args).
  { intros x Hx. rewrite existsb_exists. split.
    - intros (y & Hy & E0). apply list_elem_of_In in Hy. unfold same_object in E0. apply Z.eqb_eq in E0.
      apply list_elem_of_lookup in Hx as (i & Hi). pose proof (Hsub y Hy) as Hy'. apply list_elem_of_lookup in Hy' as (j & Hj).
      assert (i = j) as ->.
      { apply (NoDup_lookup _ i j (req_obj x) Hnd); rewrite list_lookup_fmap; [by rewrite Hi|by rewrite Hj, E0]. }
      congruence.
    - intros Hin. exists x. split; [by apply list_elem_of_In|]. unfold same_object. by rewrite Z.eqb_refl. }
  unfold without. apply NoDup_Permutation; [done| |].
  - apply NoDup_app. split; [done|]. split; [|by apply NoDup_filter]. intros a Hin. rewrite list_elem_of_filter. intros [H1 H2].
    apply (Hmem a H2) in Hin. congruence.
  - intros a. rewrite elem_of_app, list_elem_of_filter. split.
    + intros H. destruct (existsb (same_object a) args) eqn:E0; [left; by apply Hmem|by right].
    + intros [H|[_ H]]; auto.
Qed.

Lemma without_app args l l' : without args (l ++ l') = without args l ++ without args l'.
Proof. apply filter_app. Qed.

Section life.
Context {Q K E : Type} `{!RequestQueue Q} `{!QueueLaws Q} `{!KVCache K} `{!KVCacheLaws K}
  `{!EncoderCache E} `{!EncoderLaws E}.
Context (c : SchedConfig) (total : Prop) (set_order : list Z → list Z).
Hypothesis set_order_perm : ∀ os, set_order os ≡ₚ os.

Abbreviation Sch := (Scheduler Q K E).
Abbreviation sinv := (sinv c total).
Abbreviation rok := (rok c total).
Abbreviation ready := (ready c total).
Abbreviation awaits := (awaits c total).
Implicit Types (s : Sch).

(** ** Arrival *)

(** A request object the scheduler does not know, that has computed nothing. *)
Record newcomer (r : SRequest) s : Prop := {
  nc_object : objects s !! req_obj r = None;
  nc_name : od_get (request_id r) (requests s) = None;
  nc_rok : rok r;
  nc_waits : waits r;
  nc_fresh : status r ≠ PREEMPTED;
}.

(** The rest of the scheduler after an arrival. *)
Definition grown (r : SRequest) s s' : Prop :=
  running s' = running s ∧ (∀ o, o ≠ req_obj r → objects s' !! o = objects s !! o) ∧
  requests s' = requests s ++ [(request_id r, req_obj r)] ∧ objects s !! req_obj r = None.

Lemma add_request_spec (r : SRequest) s :
  sinv [] [] s → prev_ok [] s → newcomer r s →
  wp (add_request_ r) s (λ _ s', sinv [] [] s' ∧ prev_ok [] s' ∧ grown r s s').
Proof.
  intros Hs Hprev [N1 N2 N3 N4 N5]. unfold add_request_. wp_step. wp_step. rewrite N2. wp_step. wp_step. wp_step.
  set (s0 := set_objects (<[req_obj r:=r]> (objects s)) s).
  assert (Hq : wp (_enqueue_waiting_request r) s0 (λ _ s1, ∃ w k, s1 = set_skipped k (set_waiting w s0) ∧
    queue_ok w ∧ queue_ok k ∧ queue_view w ++ queue_view k ≡ₚ req_args r :: queue_view (waiting s) ++ queue_view (skipped_waiting s))).
  { destruct (si_queues _ _ _ _ _ Hs) as [Hw Hk]. unfold _enqueue_waiting_request, on_skipped, on_waiting.
    destruct (_is_blocked_waiting_status (status r)); wp_step.
    - eapply wp_mono; [by apply law_add|]. intros [] k [Hk' Hp]. exists (waiting s), k. split_and!; try done.
      rewrite Hp. by rewrite Permutation_middle.
    - eapply wp_mono; [by apply law_add|]. intros [] w [Hw' Hp]. exists w, (skipped_waiting s). split_and!; try done.
      by rewrite Hp. }
  eapply wp_mono; [exact Hq|]. clear Hq. intros [] s1 (w & k & -> & Hw & Hk & Hp). wp_step.
  assert (Hset : od_set (request_id r) (req_obj r) (requests s) = requests s ++ [(request_id r, req_obj r)]).
  { apply od_set_absent. by apply od_get_none. }
  change (requests (set_skipped k (set_waiting w s0))) with (requests s). rewrite Hset. set (s' := set_requests _ _).
  assert (Hlook : ∀ o, o ≠ req_obj r → objects s' !! o = objects s !! o).
  { intros o Hne. simpl. by rewrite lookup_insert_ne by congruence. }
  assert (Hnew : objects s' !! req_obj r = Some r) by (simpl; by rewrite lookup_insert_eq).
  assert (Hold : ∀ o (x : SRequest), objects s !! o = Some x → objects s' !! o = Some x).
  { intros o x Hx. rewrite Hlook; [done|]. intros ->. congruence. }
  assert (Hqu : queued [] s' ≡ₚ req_args r :: queued [] s).
  { unfold queued. simpl. by rewrite !app_nil_r. }
  destruct Hs as [H1 H2 H3 H4 H5 H6 H7 H8 H9]. split; [|split; [|done]].
  - split; try done.
    + intros a Ha. rewrite Hqu in Ha. apply elem_of_cons in Ha as [->|Ha]; [by exists r|].
      destruct (H2 a Ha) as (x & Hx & H). exists x. split; [by apply Hold|done].
    + intros o Ho. destruct (H3 o Ho) as (x & Hx & H). exists x. split; [by apply Hold|done].
    + unfold placed. change (active [] s') with (active [] s). rewrite Hqu. csimpl. rewrite <-Permutation_middle.
      change (requests s') with (requests s ++ [(request_id r, req_obj r)]). rewrite fmap_app. csimpl.
      rewrite <-H4. unfold placed. by rewrite (Permutation_app_comm _ [req_obj r]).
    + unfold od_ok. simpl. rewrite fmap_app. csimpl. apply NoDup_app. split; [done|]. split; [|repeat constructor; set_solver].
      intros x Hx ->%list_elem_of_singleton. by apply od_get_none in N2.
    + intros rid o Hin. simpl in Hin. apply elem_of_app in Hin as [Hin|[= -> ->]%list_elem_of_singleton]; [|by exists r].
      destruct (H6 rid o Hin) as (x & Hx & H). exists x. split; [by apply Hold|done].
    + intros rid Hh. destruct (H7 rid Hh) as (o & Ho & Hn). exists o. split; [done|]. destruct (H3 o Ho) as (x & Hx & _).
      unfold name in *. by rewrite (Hold _ _ Hx), Hx in *.
  - intros a x Ha Hx Hst. rewrite Hqu in Ha. apply elem_of_cons in Ha as [->|Ha]; [congruence|].
    destruct (H2 a Ha) as (y & Hy & _). rewrite (Hold _ _ Hy) in Hx. injection Hx as ->. by apply (Hprev a).
Qed.

Lemma add_ready r s : ready s → newcomer r s → wp (add_request_ r) s (λ _ s', ready s').
Proof.
  intros [R1 R2 R3] Hn. eapply wp_mono; [by apply add_request_spec|]. intros [] s' (H1 & H2 & Hrun & Hobj & _ & Hno).
  split; [done| |done]. intros o x Ho Hx. rewrite Hrun in Ho. apply (R2 o); [done|]. rewrite <-Hobj; [done|]. intros ->.
  destruct (si_run _ _ _ _ _ R1 (req_obj r)) as (y & Hy & _); [by apply elem_of_app; right|congruence].
Qed.

Lemma add_awaits out r s :
  awaits out s → newcomer r s → request_id r ∉ (so_num_scheduled_tokens out).*1 →
  wp (add_request_ r) s (λ _ s', awaits out s').
Proof.
  intros [R1 R2 R3 R4 R5 R6] Hn Hid. eapply wp_mono; [by apply add_request_spec|]. intros [] s' (H1 & H2 & Hrun & Hobj & Hreq & Hno).
  assert (Hrunning : ∀ o, o ∈ running s → objects s' !! o = objects s !! o).
  { intros o Ho. apply Hobj. intros ->.
    destruct (si_run _ _ _ _ _ R1 (req_obj r)) as (y & Hy & _); [by apply elem_of_app; right|congruence]. }
  split; try done.
  - intros rid o Hrid Hget. apply (od_get_elem _ _ _ (si_dict _ _ _ _ _ H1)) in Hget. rewrite Hreq in Hget.
    apply elem_of_app in Hget as [Hget|[= -> ->]%list_elem_of_singleton]; [|done].
    apply (od_get_elem _ _ _ (si_dict _ _ _ _ _ R1)) in Hget. destruct (R5 rid o Hrid Hget) as (Ho & x & Hx & Ha).
    rewrite Hrun. split; [done|]. exists x. by rewrite Hrunning.
  - intros o x Ho Hx. rewrite Hrun in Ho. rewrite Hrunning in Hx by done. by apply (R6 o).
Qed.

(** ** Departure *)

Implicit Types (v : list (Z * SRequest)).

Definition is_running (e : Z * SRequest) : Prop := status e.2 = RUNNING.
#[local] Instance is_running_dec e : Decision (is_running e).
Proof. unfold is_running. solve_decision. Defined.

(** The running and the queued requests among those that leave. *)
Definition leave_running v : list Z := (filter is_running v).*1.
Definition leave_queued v : list RequestArgs := (λ e : Z * SRequest, req_args e.2) <$> filter (λ e, ¬ is_running e) v.

Lemma leave_cons (o : Z) (r : SRequest) v :
  status r = RUNNING ∧ leave_running ((o, r) :: v) = o :: leave_running v ∧ leave_queued ((o, r) :: v) = leave_queued v ∨
  status r ≠ RUNNING ∧ leave_running ((o, r) :: v) = leave_running v ∧ leave_queued ((o, r) :: v) = req_args r :: leave_queued v.
Proof.
  unfold leave_running, leave_queued. rewrite !filter_cons. destruct (decide (is_running (o, r))) as [H|H].
  - left. rewrite (decide_False (P := ¬ is_running (o, r))) by tauto. done.
  - right. rewrite decide_True by done. done.
Qed.

(** What the departure of the requests [v] leaves of the state. *)
Definition departed v s s' : Prop :=
  running s' = running s ∧ waiting s' = waiting s ∧ skipped_waiting s' = skipped_waiting s ∧
  prev_step_scheduled_req_ids s' = prev_step_scheduled_req_ids s ∧
  (∀ o, o ∉ v.*1 → objects s' !! o = objects s !! o) ∧
  (∀ rid o, od_get rid (requests s') = Some o → od_get rid (requests s) = Some o).

Lemma leave_one fin o (r : SRequest) v s :
  status_is_finished fin = true → sinv (leave_running ((o, r) :: v)) (leave_queued ((o, r) :: v)) s →
  objects s !! o = Some r → req_obj r = o →
  wpe (upd o (on_req (λ r, set_status fin (stop_reason r) r)) ;; _free_request set_order o) s
    (λ _ s', sinv (leave_running v) (leave_queued v) s' ∧ departed [(o, r)] s s') (λ _ _, ¬ total).
Proof.
  intros Hfin Hs Hr Hobj.
  assert (Hpl : o ∈ placed (leave_running ((o, r) :: v)) (leave_queued ((o, r) :: v)) s).
  { destruct (leave_cons o r v) as [(_ & E1 & _)|(_ & _ & E1)]; unfold placed, active, queued; rewrite E1.
    - by left.
    - rewrite !fmap_app. csimpl. rewrite Hobj. rewrite !elem_of_app, elem_of_cons. auto. }
  destruct (sinv_placed _ _ _ _ _ o Hs Hpl) as (r0 & Hr0 & _ & Hok & Hin). assert (r0 = r) as -> by congruence.
  wpe_step. eapply wpe_upd_obj; [done|]. set (r' := on_req _ r).
  eapply wpe_mono; [apply (free_request_spec total set_order set_order_perm _ o r')| |done].
  { apply put_obj_lookup. } { done. } { apply Hok. }
  { simpl. change (request_id r') with (request_id r). by apply (list_elem_of_fmap_2 fst _ _ Hin). } { apply Hs. }
  intros [] s' (k & e & fi & -> & Hk). change (request_id r') with (request_id r) in *. split.
  - apply (sinv_remove c total _ _ _ _ s _ o r Hs Hr); try done.
    + intros o' Hne. simpl. by rewrite lookup_insert_ne by congruence.
    + destruct (leave_cons o r v) as [(_ & -> & ->)|(_ & -> & ->)]; unfold placed, active, queued; simpl; [done|].
      rewrite !fmap_app. csimpl. rewrite Hobj. by rewrite !(assoc_L (++)), <-Permutation_middle.
    + destruct (leave_cons o r v) as [(_ & -> & _)|(_ & -> & _)]; unfold active; simpl; set_solver.
    + destruct (leave_cons o r v) as [(_ & _ & ->)|(_ & _ & ->)]; unfold queued; simpl; set_solver.
    + apply Hs.
    + destruct (leave_cons o r v) as [(_ & -> & _)|(_ & -> & _)]; unfold active, zlen; simpl; lia.
  - split_and!; try done.
    + intros o' Ho'. simpl. rewrite lookup_insert_ne; [done|]. intros ->. apply Ho'. by left.
    + intros rid o'. simpl. rewrite od_get_del. by destruct (decide _).
Qed.

Lemma departed_trans v v' s1 s2 s3 : departed v s1 s2 → departed v' s2 s3 → departed (v ++ v') s1 s3.
Proof.
  intros (A1 & A2 & A3 & A4 & A5 & A6) (B1 & B2 & B3 & B4 & B5 & B6). split_and!; try congruence; [|auto].
  intros o Ho. rewrite fmap_app, not_elem_of_app in Ho. rewrite B5 by apply Ho. apply A5, Ho.
Qed.

Lemma leave_all fin v : ∀ s,
  status_is_finished fin = true → sinv (leave_running v) (leave_queued v) s →
  NoDup v.*1 → (∀ o (r : SRequest), (o, r) ∈ v → objects s !! o = Some r ∧ req_obj r = o) →
  wpe (foreach v (λ e, upd e.1 (on_req (λ r, set_status fin (stop_reason r) r)) ;; _free_request set_order e.1)) s
    (λ _ s', sinv [] [] s' ∧ departed v s s') (λ _ _, ¬ total).
Proof.
  induction v as [|[o r] v IH]; intros s Hfin Hs Hnd Hv; cbn [foreach]; [wpe_step; by split_and!|].
  csimpl in Hnd. apply NoDup_cons in Hnd as [Hno Hnd]. destruct (Hv o r) as [Hr Hobj]; [by left|].
  wpe_step. eapply wpe_mono; [by apply leave_one| |done]. intros [] s1 [H1 H2].
  eapply wpe_mono; [apply IH; [done|done|done|]| |done].
  - intros o' r' Hin. destruct (Hv o' r') as [Hr' H']; [by right|]. split; [|done].
    destruct H2 as (_ & _ & _ & _ & H2 & _). rewrite H2; [done|]. intros ->%list_elem_of_singleton. apply Hno.
    by apply (list_elem_of_fmap_2 fst _ _ Hin).
  - intros [] s2 [H3 H4]. split; [done|]. by apply (departed_trans [(o, r)] v s s1).
Qed.

(** The requests a list of ids names. *)
Lemma live_spec s rid o (r : SRequest) :
  sinv [] [] s → live_request s rid = Some (o, r) ↔
  od_get rid (requests s) = Some o ∧ objects s !! o = Some r.
Proof.
  intros Hs. unfold live_request. destruct (od_get rid (requests s)) as [o'|] eqn:Eo; [|naive_solver].
  pose proof (proj1 (od_get_elem _ _ _ (si_dict _ _ _ _ _ Hs)) Eo) as Hin.
  destruct (si_names _ _ _ _ _ Hs _ _ Hin) as (r' & Hr' & _). rewrite Hr'.
  assert (Hfin : is_finished r' = false).
  { assert (Hp : o' ∈ placed [] [] s) by (rewrite (si_known _ _ _ _ _ Hs); apply (list_elem_of_fmap_2 snd _ _ Hin)).
    apply elem_of_app in Hp as [Hp|Hp].
    - destruct (si_run _ _ _ _ _ Hs o' Hp) as (x & Hx & Hst). assert (x = r') as -> by congruence.
      unfold is_finished. by rewrite Hst.
    - apply list_elem_of_fmap in Hp as (a & -> & Ha). destruct (si_refs _ _ _ _ _ Hs a Ha) as (x & Hx & _ & _ & Hf & _).
      by assert (x = r') as -> by congruence. }
  rewrite Hfin. naive_solver.
Qed.

Definition named_requests s (ids : list string) : list (Z * SRequest) := omap (live_request s) ids.

Lemma named_spec s ids o (r : SRequest) :
  sinv [] [] s → (o, r) ∈ named_requests s ids →
  objects s !! o = Some r ∧ req_obj r = o ∧ o ∈ placed [] [] s ∧ request_id r ∈ ids.
Proof.
  intros Hs (rid & Hrid & Hl)%list_elem_of_omap. apply live_spec in Hl as [Hget Hr]; [|done].
  apply (od_get_elem _ _ _ (si_dict _ _ _ _ _ Hs)) in Hget. destruct (si_names _ _ _ _ _ Hs _ _ Hget) as (x & Hx & Hid & Hobj & _).
  assert (x = r) as -> by congruence. split_and!; [done|done| |by rewrite Hid].
  rewrite (si_known _ _ _ _ _ Hs). by apply (list_elem_of_fmap_2 snd _ _ Hget).
Qed.

Lemma named_nodup s ids : sinv [] [] s → NoDup ids → NoDup (named_requests s ids).*1.
Proof.
  intros Hs. unfold named_requests. induction ids as [|rid ids IH]; intros Hnd; [constructor|].
  apply NoDup_cons in Hnd as [Hno Hnd]. cbn [omap list_omap]. destruct (live_request s rid) as [[o r]|] eqn:El; [|by apply IH].
  csimpl. apply NoDup_cons. split; [|by apply IH]. intros ([o' r'] & E0 & Hin)%list_elem_of_fmap. simpl in E0. subst o'.
  apply live_spec in El as [Hget Hr]; [|done]. destruct (named_spec s ids o r' Hs Hin) as (Hr' & _ & _ & Hin').
  apply (od_get_elem _ _ _ (si_dict _ _ _ _ _ Hs)) in Hget. destruct (si_names _ _ _ _ _ Hs _ _ Hget) as (x & Hx & Hid & _).
  assert (x = r) as -> by congruence. assert (r' = r) as -> by congruence. by rewrite Hid in Hin'.
Qed.

Lemma filter_out_perm (xr l : list Z) :
  NoDup l → NoDup xr → (∀ o, o ∈ xr → o ∈ l) → l ≡ₚ xr ++ remove_all l (list_to_set xr).
Proof.
  intros Hl Hx Hsub. rewrite remove_all_filter by done. apply NoDup_Permutation; [done| |].
  - apply NoDup_app. split; [done|]. split; [|by apply NoDup_filter]. intros o Ho. rewrite list_elem_of_filter. set_solver.
  - intros o. rewrite elem_of_app, list_elem_of_filter, elem_of_list_to_set. split; [|naive_solver].
    intros H. destruct (decide (o ∈ xr)); auto.
Qed.

Lemma leave_running_in v s :
  sinv [] [] s → (∀ o (r : SRequest), (o, r) ∈ v → objects s !! o = Some r ∧ req_obj r = o ∧ o ∈ placed [] [] s) →
  ∀ o, o ∈ leave_running v → o ∈ running s.
Proof.
  intros Hs Hv o ([o' r] & -> & Hin)%list_elem_of_fmap. apply list_elem_of_filter in Hin as [Hrun Hin]. simpl.
  destruct (Hv o' r Hin) as (Hr & _ & Hp). apply elem_of_app in Hp as [Hp|Hp]; [done|].
  apply list_elem_of_fmap in Hp as (a & -> & Ha). destruct (si_refs _ _ _ _ _ Hs a Ha) as (x & Hx & _ & Hw & _).
  assert (x = r) as -> by congruence. done.
Qed.

Lemma leave_queued_in v s :
  sinv [] [] s → (∀ o (r : SRequest), (o, r) ∈ v → objects s !! o = Some r ∧ req_obj r = o ∧ o ∈ placed [] [] s) →
  ∀ a, a ∈ leave_queued v → a ∈ queued [] s.
Proof.
  intros Hs Hv a ([o r] & -> & Hin)%list_elem_of_fmap. apply list_elem_of_filter in Hin as [Hrun Hin]. simpl.
  destruct (Hv o r Hin) as (Hr & Hobj & Hp). apply elem_of_app in Hp as [Hp|Hp].
  - destruct (si_run _ _ _ _ _ Hs o Hp) as (x & Hx & Hst). assert (x = r) as -> by congruence. done.
  - apply list_elem_of_fmap in Hp as (a & Ea & Ha). destruct (si_refs _ _ _ _ _ Hs a Ha) as (x & Hx & Eargs & _).
    rewrite <-Ea in Hx. assert (x = r) as -> by congruence. by rewrite Eargs.
Qed.

Lemma leave_nodup v : NoDup v.*1 → (∀ o (r : SRequest), (o, r) ∈ v → req_obj r = o) →
  NoDup (leave_running v) ∧ NoDup (leave_queued v).
Proof.
  intros Hnd Hv. induction v as [|[o r] v IH]; [split; constructor|]. csimpl in Hnd. apply NoDup_cons in Hnd as [Hno Hnd].
  destruct IH as [H1 H2]; [done|intros o' r' H; apply Hv; by right|].
  destruct (leave_cons o r v) as [(_ & -> & ->)|(_ & -> & ->)].
  - split; [|done]. apply NoDup_cons. split; [|done]. intros (e & -> & He%list_elem_of_filter)%list_elem_of_fmap. apply Hno.
    by apply list_elem_of_fmap_2, He.
  - split; [done|]. apply NoDup_cons. split; [|done]. intros ([o' r'] & Ea & [_ He]%list_elem_of_filter)%list_elem_of_fmap. simpl in Ea. apply Hno.
    assert (o' = o) as <-.
    { rewrite <-(Hv o' r'), <-(Hv o r); [by rewrite Ea|by left|by right]. }
    by apply (list_elem_of_fmap_2 fst _ _ He).
Qed.

(** Each of them leaves the running list or a queue. *)
Lemma leave_perm v : (∀ o (r : SRequest), (o, r) ∈ v → req_obj r = o) →
  leave_running v ++ (req_obj <$> leave_queued v) ≡ₚ v.*1.
Proof.
  induction v as [|[o r] v IH]; intros Hv; [done|]. csimpl.
  rewrite <-IH by (intros o' r' H; apply Hv; by right). destruct (leave_cons o r v) as [(_ & -> & ->)|(_ & -> & ->)].
  - done.
  - csimpl. rewrite (Hv o r) by by left. by rewrite Permutation_middle.
Qed.

(** The queues without the requests that leave. *)
Lemma leave_queues_spec xr v s :
  sinv xr [] s → NoDup (leave_queued v) → (∀ a, a ∈ leave_queued v → a ∈ queued [] s) →
  wp (when (negb (is_nil (filter (λ e : Z * SRequest, status e.2 ≠ RUNNING) v))) (
        on_waiting (remove_requests (leave_queued v)) ;; on_skipped (remove_requests (leave_queued v)))) s
    (λ _ s', sinv xr (leave_queued v) s' ∧ (∀ a, a ∈ queued [] s' → a ∈ queued [] s) ∧
       ∃ w k, s' = set_skipped k (set_waiting w s)).
Proof.
  intros Hs Hnd Hsub. destruct (si_queues _ _ _ _ _ Hs) as [Hw Hk]. apply wp_when; intros Hn.
  - unfold on_waiting, on_skipped. wp_step. wp_step. eapply wp_mono; [by apply law_remove_all|]. intros [] w [Hw' Hpw].
    wp_step. eapply wp_mono; [by apply law_remove_all|]. intros [] k [Hk' Hpk]. simpl in Hpk.
    assert (Hp : queued [] s ≡ₚ leave_queued v ++ without (leave_queued v) (queued [] s)).
    { apply without_perm; [|done|done]. pose proof (sinv_nodup _ _ _ _ _ Hs) as Hq. by apply NoDup_app in Hq as (_ & _ & Hq). }
    assert (Hq : queued [] (set_skipped k (set_waiting w s)) ≡ₚ without (leave_queued v) (queued [] s)).
    { unfold queued. simpl. by rewrite Hpw, Hpk, !app_nil_r, without_app. }
    split; [|split; [|by exists w, k]].
    + apply (sinv_queues c total xr [] (leave_queued v) s); try done.
      transitivity (leave_queued v ++ queued [] (set_skipped k (set_waiting w s))).
      * unfold queued. rewrite app_nil_r, (assoc_L (++)). by rewrite Permutation_app_comm.
      * by rewrite Hq.
    + intros a Ha. rewrite Hq in Ha. rewrite Hp. apply elem_of_app. by right.
  - assert (leave_queued v = []) as ->.
    { unfold leave_queued, is_running. by destruct (filter (λ e : Z * SRequest, status e.2 ≠ RUNNING) v). }
    split; [done|]. split; [done|]. exists (waiting s), (skipped_waiting s). by destruct s.
Qed.

(** Requests have left, and nothing else has changed. *)
Definition shrunk s s' : Prop :=
  (∀ o, o ∈ running s' → o ∈ running s ∧ objects s' !! o = objects s !! o) ∧
  (∀ a, a ∈ queued [] s' → a ∈ queued [] s ∧ objects s' !! req_obj a = objects s !! req_obj a) ∧
  (∀ rid o, od_get rid (requests s') = Some o → od_get rid (requests s) = Some o) ∧
  prev_step_scheduled_req_ids s' = prev_step_scheduled_req_ids s.

Lemma finish_requests_spec ids fin s :
  sinv [] [] s → status_is_finished fin = true → (∀ l, ids = Some l → NoDup l) →
  wpe (finish_requests set_order ids fin) s (λ rids s', sinv [] [] s' ∧ shrunk s s' ∧
    let v := named_requests s (default (requests s).*1 ids) in
    rids = (λ e : Z * SRequest, request_id e.2) <$> v ∧ placed [] [] s ≡ₚ v.*1 ++ placed [] [] s') (λ _ _, ¬ total).
Proof.
  intros Hs Hfin Hids. unfold finish_requests. wpe_step. apply wpe_assert; [intros _|by rewrite Hfin]. wpe_step. wpe_step. cbn zeta.
  change (omap (live_request s) (default (requests s).*1 ids)) with (named_requests s (default (requests s).*1 ids)).
  set (v := named_requests s _).
  assert (Hnd : NoDup v.*1).
  { apply named_nodup; [done|]. destruct ids as [l|]; [by apply Hids|apply Hs]. }
  assert (Hv : ∀ o (r : SRequest), (o, r) ∈ v → objects s !! o = Some r ∧ req_obj r = o ∧ o ∈ placed [] [] s).
  { intros o r Hin. destruct (named_spec s _ o r Hs Hin) as (H1 & H2 & H3 & _). done. }
  destruct (leave_nodup v Hnd ltac:(intros o r H; by apply Hv)) as [Hnr Hnq].
  pose proof (leave_running_in v s Hs Hv) as Hinr. pose proof (leave_queued_in v s Hs Hv) as Hinq.
  pose proof (sinv_nodup _ _ _ _ _ Hs) as Hndr. apply NoDup_app in Hndr as (Hndr & _). unfold active in Hndr. simpl in Hndr.
  pose proof (filter_out_perm _ _ Hndr Hnr Hinr) as Hperm.
  change ((filter (λ e : Z * SRequest, status e.2 = RUNNING) v).*1) with (leave_running v).
  change ((λ e : Z * SRequest, req_args e.2) <$> filter (λ e : Z * SRequest, status e.2 ≠ RUNNING) v) with (leave_queued v).
  wpe_step. wpe_step. set (s1 := set_running _ s).
  assert (Hs1 : sinv (leave_running v) [] s1) by by apply (sinv_run c total []).
  wpe_step. apply wp_wpe. eapply wp_mono; [by apply leave_queues_spec|]. intros [] s2 (Hs2 & Hq2 & w & k & E2).
  wpe_step. eapply wpe_mono; [apply (leave_all fin v s2); [done|done|done|]| |done].
  { intros o r Hin. rewrite E2. destruct (Hv o r Hin) as (H1 & H2 & _). done. }
  intros [] s3 (Hs3 & D1 & D2 & D3 & D4 & D5 & D6). wpe_step. split; [done|].
  assert (Hpl : placed [] [] s3 = placed [] [] s2) by (unfold placed, active, queued; by rewrite D1, D2, D3).
  assert (Hleft : placed [] [] s ≡ₚ v.*1 ++ placed [] [] s3).
  { rewrite <-(leave_perm v) by (intros o r H; by apply Hv). rewrite (si_known _ _ _ _ _ Hs).
    replace (requests s) with (requests s2) by by rewrite E2. rewrite <-(si_known _ _ _ _ _ Hs2), Hpl.
    unfold placed, active, queued. rewrite !fmap_app. simpl. rewrite app_nil_r. rewrite <-!(assoc_L (++)). f_equiv.
    rewrite !(assoc_L (++)). by rewrite Permutation_app_comm, !(assoc_L (++)). }
  assert (Hobj : ∀ o, o ∈ placed [] [] s3 → objects s3 !! o = objects s !! o).
  { intros o Ho. transitivity (objects s2 !! o); [|by rewrite E2]. apply D5. intros Hin.
    pose proof (sinv_nodup _ _ _ _ _ Hs) as Hnd2. rewrite Hleft in Hnd2. apply NoDup_app in Hnd2 as (_ & Hd & _). by apply (Hd o). }
  split; [|by split].
  split_and!.
  - intros o Ho. split; [|apply Hobj; by apply active_placed, elem_of_app; right].
    rewrite D1, E2 in Ho. unfold s1 in Ho. simpl in Ho. rewrite Hperm. apply elem_of_app. by right.
  - intros a Ha. split; [|apply Hobj; by apply queued_placed]. apply (Hq2 a). unfold queued in *. by rewrite D2, D3 in Ha.
  - intros rid o Hget. apply D6 in Hget. by rewrite E2 in Hget.
  - rewrite D4, E2. done.
Qed.

(** The ids it answers, and the requests that are known afterwards. *)
Lemma named_ids s ids : sinv [] [] s →
  (λ e : Z * SRequest, request_id e.2) <$> named_requests s ids = filter (λ rid, is_Some (od_get rid (requests s))) ids.
Proof.
  intros Hs. unfold named_requests. induction ids as [|rid ids IH]; [done|]. cbn [omap list_omap]. rewrite filter_cons.
  destruct (live_request s rid) as [[o r]|] eqn:El.
  - apply live_spec in El as [Hget Hr]; [|done]. rewrite decide_True by (by rewrite Hget). csimpl. f_equal; [|exact IH].
    apply (od_get_elem _ _ _ (si_dict _ _ _ _ _ Hs)) in Hget. destruct (si_names _ _ _ _ _ Hs _ _ Hget) as (x & Hx & Hid & _).
    by assert (x = r) as -> by congruence.
  - rewrite decide_False; [exact IH|]. intros [o Hget]. pose proof (proj1 (od_get_elem _ _ _ (si_dict _ _ _ _ _ Hs)) Hget) as Hin.
    destruct (si_names _ _ _ _ _ Hs _ _ Hin) as (x & Hx & _). pose proof (proj2 (live_spec s rid o x Hs) (conj Hget Hx)). congruence.
Qed.

Lemma known_placed s rid o : sinv [] [] s → od_get rid (requests s) = Some o → o ∈ placed [] [] s.
Proof.
  intros Hs Hget. rewrite (si_known _ _ _ _ _ Hs).
  apply (od_get_elem _ _ _ (si_dict _ _ _ _ _ Hs)) in Hget. by apply (list_elem_of_fmap_2 snd _ _ Hget).
Qed.

Lemma known_name s rid o : sinv [] [] s → od_get rid (requests s) = Some o → name s o = rid.
Proof.
  intros Hs Hget. apply (od_get_elem _ _ _ (si_dict _ _ _ _ _ Hs)) in Hget.
  destruct (si_names _ _ _ _ _ Hs _ _ Hget) as (x & Hx & Hid & _). unfold name. by rewrite Hx.
Qed.

Lemma finish_effect ids fin s :
  sinv [] [] s → status_is_finished fin = true → (∀ l, ids = Some l → NoDup l) →
  wpe (finish_requests set_order ids fin) s (λ rids s', let asked := default (requests s).*1 ids in
    rids = filter (λ rid, is_Some (od_get rid (requests s))) asked ∧
    ∀ rid, od_get rid (requests s') = if decide (rid ∈ asked) then None else od_get rid (requests s)) (λ _ _, ¬ total).
Proof.
  intros Hs Hfin Hids. eapply wpe_mono; [by apply finish_requests_spec| |done].
  intros rids s' (Hs' & (_ & _ & Hsub & _) & -> & Hp). cbn zeta. set (asked := default _ ids) in *. split; [by apply named_ids|].
  pose proof (sinv_nodup _ _ _ _ _ Hs) as Hnd. rewrite Hp in Hnd. apply NoDup_app in Hnd as (_ & Hnd & _). intros rid.
  destruct (od_get rid (requests s')) as [o|] eqn:Eo.
  - pose proof (Hsub rid o Eo) as Eo0. rewrite decide_False; [done|]. intros Hin.
    apply (Hnd o); [|by apply (known_placed s' rid)]. destruct (sinv_placed _ _ _ _ _ o Hs (known_placed s rid o Hs Eo0)) as (r & Hr & _).
    apply (list_elem_of_fmap_2 fst _ (o, r)). apply list_elem_of_omap. exists rid. split; [done|]. by apply live_spec.
  - destruct (decide _) as [|Hno]; [done|]. destruct (od_get rid (requests s)) as [o|] eqn:Eo0; [|done]. exfalso.
    pose proof (known_placed s rid o Hs Eo0) as Ho. rewrite Hp in Ho. apply elem_of_app in Ho as [Ho|Ho].
    + apply list_elem_of_fmap in Ho as ([o' r] & -> & Hin). apply Hno. destruct (named_spec s _ _ _ Hs Hin) as (Hr & _ & _ & Hr').
      rewrite <-(known_name s rid _ Hs Eo0). unfold name. simpl. by rewrite Hr.
    + destruct (sinv_placed _ _ _ _ _ o Hs' Ho) as (r & Hr & _ & _ & Hin).
      apply (od_get_elem _ _ _ (si_dict _ _ _ _ _ Hs')) in Hin. pose proof (Hsub _ _ Hin) as Hin0.
      assert (request_id r = rid) as E1 by (rewrite <-(known_name s _ _ Hs Hin0); by apply known_name). congruence.
Qed.

Lemma shrunk_prev s s' : prev_ok [] s → shrunk s s' → prev_ok [] s'.
Proof.
  intros Hp (_ & Hq & _ & Eprev) a r Ha Hr Hst. destruct (Hq a Ha) as [Ha' Eo]. rewrite Eo in Hr. rewrite Eprev. by apply (Hp a).
Qed.

Lemma finish_ready ids fin s :
  ready s → status_is_finished fin = true → (∀ l, ids = Some l → NoDup l) →
  wpe (finish_requests set_order ids fin) s (λ _ s', ready s') (λ _ _, ¬ total).
Proof.
  intros [R1 R2 R3] Hfin Hids. eapply wpe_mono; [by apply finish_requests_spec| |done]. intros res s' (Hs' & Hsh & _).
  split; [done| |by eapply shrunk_prev]. destruct Hsh as (H1 & _). intros o r Ho Hr. destruct (H1 o Ho) as [Ho' Eo].
  rewrite Eo in Hr. by apply (R2 o).
Qed.

Lemma finish_awaits out ids fin s :
  awaits out s → status_is_finished fin = true → (∀ l, ids = Some l → NoDup l) →
  wpe (finish_requests set_order ids fin) s (λ _ s', awaits out s') (λ _ _, ¬ total).
Proof.
  intros [R1 R2 R3 R4 R5 R6] Hfin Hids. eapply wpe_mono; [by apply finish_requests_spec| |done]. intros res s' (Hs' & Hsh & _).
  split; try done; [by eapply shrunk_prev| |]; destruct Hsh as (H1 & Hq & Hget & _).
  - intros rid o Hrid Ho. pose proof (Hget _ _ Ho) as Ho0. destruct (R5 rid o Hrid Ho0) as (Hrun & r & Hr & Ha).
    apply (od_get_elem _ _ _ (si_dict _ _ _ _ _ Hs')) in Ho.
    assert (Hp : o ∈ placed [] [] s') by (rewrite (si_known _ _ _ _ _ Hs'); apply (list_elem_of_fmap_2 snd _ _ Ho)).
    apply elem_of_app in Hp as [Hp|Hp].
    + unfold active in Hp. simpl in Hp. destruct (H1 o Hp) as [_ Eo]. split; [done|]. exists r. by rewrite Eo.
    + apply list_elem_of_fmap in Hp as (a & -> & Hqa). destruct (Hq a Hqa) as [Hqa' _].
      exfalso. apply (active_not_queued _ _ _ _ _ a R1 Hqa'). by apply elem_of_app; right.
  - intros o r Ho Hr. destruct (H1 o Ho) as [Ho' Eo]. rewrite Eo in Hr. by apply (R6 o).
Qed.

(** ** Draft tokens *)

Section drafts.
Context (validate_tokens : Request → list Z → list Z).

Lemma set_drafts_kept tokens (r : SRequest) :
  req_args (set_drafts validate_tokens tokens r) = req_args r ∧ status (set_drafts validate_tokens tokens r) = status r ∧
  num_computed_tokens (set_drafts validate_tokens tokens r) = num_computed_tokens r ∧
  num_tokens (set_drafts validate_tokens tokens r) = num_tokens r ∧ (rok r → rok (set_drafts validate_tokens tokens r)) ∧
  (waits r → waits (set_drafts validate_tokens tokens r)).
Proof. unfold set_drafts. by destruct (is_prefill_chunk r). Qed.

(** Only drafts change. *)
Definition redrafted s s' : Prop := ∃ objs : gmap Z SRequest, s' = set_objects objs s ∧
  ∀ o (r' : SRequest), objs !! o = Some r' → ∃ r : SRequest, objects s !! o = Some r ∧ req_args r' = req_args r ∧
    status r' = status r ∧ num_computed_tokens r' = num_computed_tokens r ∧ num_tokens r' = num_tokens r.

Lemma update_drafts_spec drafts : ∀ s, sinv [] [] s →
  wp (update_draft_token_ids validate_tokens drafts) s (λ _ s', sinv [] [] s' ∧ redrafted s s').
Proof.
  assert (Hrefl : ∀ s, redrafted s s).
  { intros s. exists (objects s). split; [by destruct s|]. intros o r Hr. by exists r. }
  unfold update_draft_token_ids. induction drafts as [|[rid tokens] drafts IH]; intros s Hs; cbn [foreach]; [by wp_step|].
  wp_step. wp_step. wp_step. simpl. destruct (od_get rid (requests s)) as [o|] eqn:Eo; [|wp_step; by apply IH].
  apply (od_get_elem _ _ _ (si_dict _ _ _ _ _ Hs)) in Eo. destruct (si_names _ _ _ _ _ Hs _ _ Eo) as (r & Hr & _).
  wp_step. unfold obj. wp_step. wp_step. eapply wp_of_option; [done|]. destruct (is_finished r); [wp_step; by apply IH|].
  unfold upd. wp_step. set (s1 := set_objects _ s).
  assert (Hs1 : sinv [] [] s1).
  { apply (sinv_alter c total); [done|]. intros x Hx. assert (x = r) as -> by congruence.
    destruct (set_drafts_kept tokens r) as (H1 & H2 & _ & _ & H3 & H4). split_and!; [done|done|by rewrite H2|done]. }
  eapply wp_mono; [by apply IH|]. intros [] s2 [Hs2 (objs & -> & Hobjs)]. split; [done|]. exists objs. split; [done|].
  intros o' r' Hr'. destruct (Hobjs o' r' Hr') as (x & Hx & H1 & H2 & H3 & H4). simpl in Hx.
  destruct (decide (o = o')) as [<-|Hne]; [|rewrite lookup_alter_ne in Hx by done; by exists x].
  rewrite lookup_alter_eq, Hr in Hx. injection Hx as <-. exists r. split; [done|].
  destruct (set_drafts_kept tokens r) as (G1 & G2 & G3 & G4 & _). split_and!; congruence.
Qed.

Lemma redrafted_prev s s' : prev_ok [] s → redrafted s s' → prev_ok [] s'.
Proof.
  intros Hp (objs & -> & Hobjs) a r Ha Hr Hst. simpl in *. destruct (Hobjs _ _ Hr) as (x & Hx & Ea & Es & _). rewrite Ea.
  apply (Hp a); [done|done|congruence].
Qed.

Lemma drafts_ready drafts s :
  ready s → wp (update_draft_token_ids validate_tokens drafts) s (λ _ s', ready s').
Proof.
  intros [R1 R2 R3]. eapply wp_mono; [by apply update_drafts_spec|]. intros [] s' [Hs' Hd].
  split; [done| |by eapply redrafted_prev]. destruct Hd as (objs & -> & Hobjs). intros o r Ho Hr. simpl in *.
  destruct (Hobjs _ _ Hr) as (x & Hx & _ & _ & -> & ->). by apply (R2 o).
Qed.

Lemma drafts_awaits out drafts s :
  awaits out s → wp (update_draft_token_ids validate_tokens drafts) s (λ _ s', awaits out s').
Proof.
  intros [R1 R2 R3 R4 R5 R6]. eapply wp_mono; [by apply update_drafts_spec|]. intros [] s' [Hs' Hd].
  split; try done; [by eapply redrafted_prev| |]; destruct Hd as (objs & -> & Hobjs); simpl in *.
  - intros rid o Hrid Ho. destruct (R5 rid o Hrid Ho) as (Hrun & r & Hr & Ha). split; [done|].
    destruct (si_run _ _ _ _ _ Hs' o) as (r' & Hr' & _); [by apply elem_of_app; right|]. simpl in Hr'. exists r'. split; [done|].
    destruct (Hobjs o r' Hr') as (x & Hx & Ea & _ & Ec & Et). assert (x = r) as -> by congruence.
    unfold advanced in *. by rewrite Ea, Ec, Et.
  - intros o r Ho Hr Hn. destruct (Hobjs _ _ Hr) as (x & Hx & Ea & _ & -> & ->). rewrite Ea in Hn. by apply (R6 o).
Qed.
End drafts.

(** ** Resetting the prefix cache *)

Lemma reset_object_kept (r : SRequest) :
  let r' := on_req (set_placeholders 0) (set_discard (num_output_placeholders r) r) in
  req_args r' = req_args r ∧ (rok r → rok r') ∧ (status r = RUNNING → status r' = RUNNING) ∧ (waits r → waits r').
Proof. cbn zeta. split_and!; try done. intros (H1 & _ & H2). split; [exact H1|]. split; [done|exact H2]. Qed.

Lemma preempt_all_spec fuel : ∀ s,
  sinv [] [] s → (length (running s) ≤ fuel)%nat →
  wpe (preempt_all set_order fuel) s (λ _ s', sinv [] [] s' ∧ running s' = []) (λ _ _, ¬ total).
Proof.
  induction fuel as [|fuel IH]; intros s Hs Hf; cbn [preempt_all]; wpe_step; wpe_step.
  - destruct (last (running s)) as [o|] eqn:El; [|wpe_step; split; [done|by apply last_None]].
    apply last_Some_elem_of in El. destruct (running s); [by apply not_elem_of_nil in El|simpl in Hf; lia].
  - destruct (last (running s)) as [o|] eqn:El; [|wpe_step; split; [done|by apply last_None]].
    pose proof (last_split _ _ El) as Es. wpe_step. wpe_step. set (s1 := set_running _ s).
    assert (Hs1 : sinv [o] [] s1).
    { apply (sinv_run c total []); [done|]. unfold active. simpl. rewrite Es at 1. by rewrite Permutation_app_comm. }
    wpe_step. eapply wpe_mono; [by apply (preempt_spec c total set_order set_order_perm [] s1 o Hs1)| |done].
    intros [] s2 (Hs2 & Hrun & _). wpe_step. apply wpe_upd. apply IH.
    + apply (sinv_alter c total); [done|]. intros r _. apply reset_object_kept.
    + simpl. rewrite Hrun. simpl. rewrite Es, length_app in Hf. simpl in Hf. lia.
Qed.

(** It raises [RuntimeError] where the cache refuses the reset. *)
Lemma reset_ready reset_running s :
  ready s →
  wpe (sched_reset_prefix_cache set_order reset_running) s (λ _ s', ready s') (λ e _, total → e = RuntimeError).
Proof.
  intros [R1 R2 R3]. unfold sched_reset_prefix_cache. wpe_step. wpe_step. wpe_step.
  assert (Hkv : ∀ s0, ready s0 → wpe (on_kv kv_reset_prefix_cache) s0 (λ _ s', ready s') (λ e _, total → e = RuntimeError)).
  { intros s0 [S1 S2 S3]. unfold on_kv. wpe_step. eapply wpe_mono; [apply law_kv_reset| |].
    - intros b k Hk. split; [|done|done]. by apply sinv_keeps.
    - intros e k H Ht. by destruct H; apply (si_ready _ _ _ _ _ S1). }
  assert (Hrest : ∀ s0, ready s0 → wpe (reset_successful ← on_kv kv_reset_prefix_cache;
      if reset_running && negb reset_successful then raise RuntimeError else mret reset_successful) s0
      (λ _ s', ready s') (λ e _, total → e = RuntimeError)).
  { intros s0 H0. wpe_step. eapply wpe_mono; [by apply Hkv| |done]. intros b s1 H1. destruct (_ && _); by wpe_step. }
  apply wpe_when; intros _; [|by apply Hrest]. wpe_step.
  eapply wpe_mono; [by apply preempt_all_spec| |by intros e s' H Ht; destruct H]. intros [] s1 [Hs1 Hrun]. wpe_step. apply Hrest.
  split.
  - by eapply sinv_same; [exact Hs1|..].
  - simpl. rewrite Hrun. by intros o r Ho%not_elem_of_nil.
  - intros a r _ _ _. simpl. apply not_elem_of_empty.
Qed.
End life.

(** * The scheduler as the engine drives it

    The engine calls [schedule], has the output executed and passes the answer to
    [update_from_output]; requests arrive and are aborted at any time, drafts
    arrive, and the prefix cache is reset between steps.  [reachable] are the states
    of these runs, with the output that is awaited.  In all of them the scheduler's
    invariant holds, and no call raises where the cache does not. *)

Lemma wpe_ret_inv {S A} (m : M S A) s a s' P X : wpe m s P X → m s = (Ret a, s') → P a s'.
Proof. unfold wpe. intros H E0. by rewrite E0 in H. Qed.

Lemma wp_ret_inv {S A} (m : M S A) s a s' P : wp m s P → m s = (Ret a, s') → P a s'.
Proof. unfold wp. intros H E0. by rewrite E0 in H. Qed.

Lemma wpe_total {S A} (m : M S A) s P : wpe m s P (λ _ _, ¬ True) → wp m s P.
Proof. unfold wpe, wp. destruct (m s) as [[] ?]; [done|tauto]. Qed.

Section protocol.
Context {Q K E : Type} `{!RequestQueue Q} `{!QueueLaws Q} `{!KVCache K} `{!KVCacheLaws K}
  `{!EncoderCache E} `{!EncoderLaws E}.
Context (c : SchedConfig) (total : Prop) (grammar_ready : Z → bool) (set_order : list Z → list Z).
Context (block_hasher : option (M Request (list BlockHash))).
Context (grammar_rejects : Request → list Z → bool) (validate_tokens : Request → list Z → list Z).

Abbreviation Sch := (Scheduler Q K E).
Implicit Types (s : Sch).

(** The output that is awaited, if any, and the scheduler. *)
Inductive reachable : option SchedulerOutput → Sch → Prop :=
  | reach_new mixed kv enc :
      (∀ rid, ¬ kv_holds kv rid) → (total → kv_ready kv) → reachable None (new_scheduler mixed kv enc)
  | reach_add p (r : SRequest) s s' :
      reachable p s → newcomer c total r s →
      (∀ out, p = Some out → request_id r ∉ (so_num_scheduled_tokens out).*1) →
      add_request_ r s = (Ret tt, s') → reachable p s'
  | reach_schedule s out s' :
      reachable None s → schedule c grammar_ready set_order s = (Ret out, s') → reachable (Some out) s'
  | reach_update out mro outs s s' :
      reachable (Some out) s → answers out mro s →
      update_from_output c set_order block_hasher grammar_rejects out mro s = (Ret outs, s') → reachable None s'
  | reach_finish p ids fin rids s s' :
      reachable p s → (∀ l, ids = Some l → NoDup l) →
      finish_requests set_order ids fin s = (Ret rids, s') → reachable p s'
  | reach_drafts p drafts s s' :
      reachable p s → update_draft_token_ids validate_tokens drafts s = (Ret tt, s') → reachable p s'
  | reach_reset reset_running b s s' :
      reachable None s → sched_reset_prefix_cache set_order reset_running s = (Ret b, s') → reachable None s'.

Hypothesis set_order_perm : ∀ os, set_order os ≡ₚ os.
Hypothesis Hc : config_ok c.
Hypothesis Hslots : 0 ≤ max_num_running_reqs c.
Hypothesis no_loras : total → max_loras c = None.
Hypothesis Hhasher : hasher_ok block_hasher.

Definition run_inv (p : option SchedulerOutput) s : Prop :=
  match p with None => ready c total s | Some out => awaits c total out s end.

Lemma new_ready mixed (kv : K) (enc : E) : (∀ rid, ¬ kv_holds kv rid) → (total → kv_ready kv) → ready c total (new_scheduler mixed kv enc).
Proof.
  intros Hkv Hready. destruct law_empty as [He Hev]. assert (Hq : queued [] (new_scheduler mixed kv enc) = []).
  { unfold queued. simpl. by rewrite Hev. }
  split.
  - split; try done.
    + intros a. rewrite Hq. by intros Ha%not_elem_of_nil.
    + by intros o Ho%not_elem_of_nil.
    + unfold placed. rewrite Hq. done.
    + constructor.
    + by intros rid o Ho%not_elem_of_nil.
    + intros rid H. by destruct (Hkv rid).
  - by intros o r Ho%not_elem_of_nil.
  - intros a r. rewrite Hq. by intros Ha%not_elem_of_nil.
Qed.

(** [finish_requests] returns for a finished status only. *)
Lemma finish_status ids fin rids s s' :
  finish_requests set_order ids fin s = (Ret rids, s') → status_is_finished fin = true.
Proof. unfold finish_requests, mbind, M_bind. by destruct (status_is_finished fin). Qed.

Lemma run_reachable p s : reachable p s → run_inv p s.
Proof.
  induction 1 as [mixed kv enc Hkv Hready|p r s s' _ IH Hn Hid Es|s out s' _ IH Es|out mro outs s s' _ IH Hans Es|p ids fin rids s s' _ IH Hids Es
    |p drafts s s' _ IH Es|reset_running b s s' _ IH Es].
  - by apply new_ready.
  - destruct p as [out|]; simpl in *.
    + exact (wp_ret_inv _ _ _ _ _ (add_awaits c total set_order set_order_perm out r s IH Hn (Hid out eq_refl)) Es).
    + exact (wp_ret_inv _ _ _ _ _ (add_ready c total set_order set_order_perm r s IH Hn) Es).
  - apply scheduled_awaits.
    exact (wpe_ret_inv _ _ _ _ _ _ (schedule_spec c total grammar_ready set_order set_order_perm Hc no_loras s IH) Es).
  - exact (wpe_ret_inv _ _ _ _ _ _ (update_from_output_spec c total set_order block_hasher grammar_rejects
      set_order_perm Hc Hhasher out mro s IH Hans) Es).
  - pose proof (finish_status _ _ _ _ _ Es) as Hf. destruct p as [out|]; simpl in *.
    + exact (wpe_ret_inv _ _ _ _ _ _ (finish_awaits c total set_order set_order_perm out ids fin s IH Hf Hids) Es).
    + exact (wpe_ret_inv _ _ _ _ _ _ (finish_ready c total set_order set_order_perm ids fin s IH Hf Hids) Es).
  - destruct p as [out|]; simpl in *.
    + exact (wp_ret_inv _ _ _ _ _ (drafts_awaits c total validate_tokens out drafts s IH) Es).
    + exact (wp_ret_inv _ _ _ _ _ (drafts_ready c total validate_tokens drafts s IH) Es).
  - exact (wpe_ret_inv _ _ _ _ _ _ (reset_ready c total set_order set_order_perm reset_running s IH) Es).
Qed.

Lemma run_sinv p s : run_inv p s → sinv c total [] [] s.
Proof. destruct p; intros H; apply H. Qed.
End protocol.
