(* ===== verification/KVTables.v ===== *)
(** * Which requests hold blocks

    The scheduler's invariants need one fact of the KV-cache manager: the operations
    give blocks to no request but the one they are called for, and [free] takes them
    all.  [yields R P m]: when [m] returns, its result satisfies [P] and the states
    before and after are related by the preorder [R]; for the states that contain
    block tables [R] is [gains A]: a request that holds blocks afterwards held some
    before or satisfies [A].  The manager of KVManager.v is thereby an instance of
    [KVCacheLaws]. *)

From S2P Require Import Prelude.
From S2P Require Import FreeQueue.
From S2P Require Import Request.
From S2P Require Import BlockHash.
From S2P Require Import BlockPool.
From S2P Require Import KVCacheSpec.
From S2P Require Import SingleType.
From S2P Require Import Coordinator.
From S2P Require Import CacheHit.
From S2P Require Import PartialCache.
From S2P Require Import KVManager.
From S2P Require Import KVReady.
From S2P Require Import SchedInterface.
Local Open Scope Z_scope.

(** ** The rules *)

Definition yields {S A} (R : relation S) (P : A → Prop) (m : M S A) : Prop :=
  ∀ s, wpe m s (λ a s', P a ∧ R s s') (λ _ _, True).

Section rules.
Context {S : Type} (R : relation S) `{!PreOrder R}.

Lemma yields_ret {A} (P : A → Prop) a : P a → yields R P (mret a).
Proof. intros HP s. apply wpe_ret. by split. Qed.

Lemma yields_raise {A} (P : A → Prop) e : yields R P (raise e).
Proof. by intros s. Qed.

Lemma yields_bind {A B} (Q : A → Prop) (P : B → Prop) (m : M S A) (f : A → M S B) :
  yields R Q m → (∀ a, Q a → yields R P (f a)) → yields R P (m ≫= f).
Proof.
  intros Hm Hf s. apply wpe_bind. eapply wpe_mono; [apply Hm| |done]. intros a s' [Ha Hs].
  eapply wpe_mono; [by apply Hf| |done]. intros b s'' [Hb Hs']. split; [done|]. by transitivity s'.
Qed.

Lemma yields_weaken {A} (Q P : A → Prop) (m : M S A) : yields R Q m → (∀ a, Q a → P a) → yields R P m.
Proof. intros Hm HQ s. eapply wpe_mono; [apply Hm| |done]. intros a s' [Ha Hs]. auto. Qed.

Lemma yields_get {A} (P : A → Prop) (f : S → M S A) : (∀ s, yields R P (f s)) → yields R P (get ≫= f).
Proof. intros Hf s. apply wpe_bind, wpe_get. apply Hf. Qed.

Lemma yields_gets {A} (f : S → A) : yields R (λ _, True) (gets f).
Proof. intros s. by split. Qed.

Lemma yields_modify f : (∀ s, R s (f s)) → yields R (λ _, True) (modify f).
Proof. intros Hf s. by split. Qed.

Lemma yields_assert b : yields R (λ _, True) (py_assert b).
Proof. destruct b; [by apply yields_ret|apply yields_raise]. Qed.

Lemma yields_of_option {A} e (o : option A) : yields R (λ _, True) (of_option e o).
Proof. destruct o; [by apply yields_ret|apply yields_raise]. Qed.

Lemma yields_of_outcome {A} (o : outcome A) : yields R (λ _, True) (of_outcome o).
Proof. destruct o; [by apply yields_ret|apply yields_raise]. Qed.

Lemma yields_when b m : yields R (λ _, True) m → yields R (λ _, True) (when b m).
Proof. intros Hm. destruct b; [done|by apply yields_ret]. Qed.

Lemma yields_foreach {A} (l : list A) f :
  (∀ a, yields R (λ _, True) (f a)) → yields R (λ _, True) (foreach l f).
Proof.
  intros Hf. induction l as [|a l IH]; cbn [foreach]; [by apply yields_ret|]. by eapply yields_bind.
Qed.

Lemma yields_foldM {A B} (P : B → Prop) (l : list A) f b :
  (∀ b a, P b → yields R P (f b a)) → P b → yields R P (foldM f l b).
Proof.
  intros Hf. revert b. induction l as [|a l IH]; intros b Hb; cbn [foldM]; [by apply yields_ret|].
  eapply yields_bind; [by apply Hf|done].
Qed.

Lemma yields_mapM {A B} (l : list A) (f : A → M S B) :
  (∀ a, yields R (λ _, True) (f a)) → yields R (λ _, True) (mapM_list f l).
Proof.
  intros Hf. induction l as [|a l IH]; cbn [mapM_list]; [by apply yields_ret|].
  eapply yields_bind; [done|]. intros b _. eapply yields_bind; [done|]. intros. by apply yields_ret.
Qed.
End rules.

Lemma yields_zoom {S T A} (R : relation S) (R' : relation T) (P : A → Prop) proj upd (m : M T A) :
  yields R' P m → (∀ s t, R' (proj s) t → R s (upd t s)) → yields R P (zoom proj upd m).
Proof. intros Hm HR s. apply wpe_zoom. eapply wpe_mono; [apply Hm| |done]. naive_solver. Qed.

(** Any operation, where nothing is asked of the state. *)
Definition anything {S} : relation S := λ _ _, True.

#[export] Instance anything_preorder {S} : PreOrder (@anything S).
Proof. by split. Qed.

Lemma yields_anything {S A} (m : M S A) : yields anything (λ _, True) m.
Proof. intros s. unfold wpe. by destruct (m s) as [[]]. Qed.

Create HintDb yields.
#[export] Hint Resolve yields_anything yields_gets yields_assert yields_of_option yields_of_outcome yields_raise : yields.

(** Walk through the code; what is left are the calls and the writes. *)
Ltac yields_step :=
  lazymatch goal with
  | |- yields _ _ (get ≫= _) => apply yields_get; intros
  | |- yields _ _ (_ ≫= _) =>
      first [eapply (yields_bind _); [solve [eauto with nocore]|intros ? ?] | eapply (yields_bind _ (λ _, True)); [|intros ? _]]
  | |- yields _ _ (mret _) => apply yields_ret; try done
  | |- yields _ _ (when _ _) => apply yields_when
  | |- yields _ _ (foreach _ _) => apply yields_foreach; intros
  | |- yields _ _ (mapM_list _ _) => apply yields_mapM; intros
  | |- yields _ _ (let '(_, _) := ?x in _) => destruct x
  | |- yields _ _ (match ?x with _ => _ end) => destruct x
  end.
Ltac yields_auto := repeat first [progress eauto with yields typeclass_instances | yields_step].

(** ** Hashing a request's blocks *)

#[export] Instance kv_same_preorder : PreOrder kv_same.
Proof. split; [exact kv_same_refl|exact kv_same_trans]. Qed.

Lemma yields_mm_keys (r : RequestArgs) a b i :
  yields kv_same (λ _, True) (_gen_mm_extra_hash_keys r a b i).
Proof. unfold _gen_mm_extra_hash_keys. yields_auto. Qed.

Lemma yields_extra_keys sha256 a b i :
  yields kv_same (λ _, True) (generate_block_hash_extra_keys sha256 a b i).
Proof.
  unfold generate_block_hash_extra_keys, _gen_prompt_embeds_extra_hash_keys. pose proof yields_mm_keys. yields_auto.
  apply yields_modify. done.
Qed.

Lemma yields_keys_of_run sha256 bs l i acc :
  yields kv_same (λ _, True) (Pool.keys_of_run sha256 bs l i acc).
Proof.
  revert i acc. induction l as [|j l IH]; intros i acc; cbn [Pool.keys_of_run]; pose proof yields_extra_keys; yields_auto.
Qed.

Lemma yields_emit_runs sha256 use_int hs bs g runs i (r0 r : Request) :
  kv_same r0 r → yields anything (kv_same r0) (Pool.emit_runs sha256 use_int hs bs g runs i r).
Proof.
  revert i r. induction runs as [|run runs IH]; intros i r Hr; cbn [Pool.emit_runs].
  { by apply yields_ret. }
  pose proof (yields_keys_of_run sha256 bs run i [] r) as Hk. unfold wpe in Hk.
  destruct (Pool.keys_of_run _ _ _ _ _ r) as [[[keys j]|e] r']; [|apply yields_raise]. destruct Hk as [_ Hk].
  yields_step; [auto with yields|]. yields_step; [auto with yields|]. apply IH. by transitivity r.
Qed.

Lemma yields_cache_full_blocks sha256 use_int (r : Request) bs nc nf b g mask :
  yields anything (kv_same r) (Pool.cache_full_blocks sha256 use_int r bs nc nf b g mask).
Proof.
  unfold Pool.cache_full_blocks. pose proof (yields_emit_runs sha256 use_int). yields_auto; [done..|].
  apply yields_emit_runs. done.
Qed.

(** ** Block tables *)

(** [held s rid]: [rid] holds blocks in [s]. *)
Definition gains {S} (held : S → string → Prop) (A : string → Prop) : relation S := λ s s',
  ∀ rid, held s' rid → held s rid ∨ A rid.

#[export] Instance gains_preorder {S} (held : S → string → Prop) A : PreOrder (gains held A).
Proof.
  split.
  - intros s rid H. by left.
  - intros s1 s2 s3 H12 H23 rid H. destruct (H23 rid H) as [H2|H2]; [by apply H12|by right].
Qed.

(** Nobody, and one request. *)
Abbreviation nobody := (λ _ : string, False).
Abbreviation only rid := (λ rid' : string, rid' = rid).

Lemma yields_nobody {S X} (held : S → string → Prop) A (P : X → Prop) m :
  yields (gains held nobody) P m → yields (gains held A) P m.
Proof.
  intros Hm s. eapply wpe_mono; [apply Hm| |done]. intros a s' [Ha Hs]. split; [done|]. intros rid H.
  by destruct (Hs rid H) as [|[]]; left.
Qed.

(** ** One group's table *)

Definition holds (s : mstate) (rid : string) : Prop := req_blocks (mgr s) rid ≠ [].

Lemma yields_on_pool {X} A (P : X → Prop) m : yields anything P m → yields (gains holds A) P (on_pool m).
Proof. intros Hm. eapply yields_zoom; [exact Hm|]. intros s p _ rid H. by left. Qed.

Lemma yields_on_pool_any {X} A (m : M BlockPool X) : yields (gains holds A) (λ _, True) (on_pool m).
Proof. apply yields_on_pool, yields_anything. Qed.

(** Writes of attributes other than the table. *)
Lemma yields_upd_mgr A f :
  (∀ m, req_to_blocks (f m) = req_to_blocks m) → yields (gains holds A) (λ _, True) (upd_mgr f).
Proof.
  intros Hf. apply yields_modify. intros s rid H. left. unfold holds, req_blocks in *. simpl in H. by rewrite Hf in H.
Qed.

Lemma yields_extend_new A bs : yields (gains holds A) (λ _, True) (extend_new_block_ids bs).
Proof. apply yields_modify. intros s rid H. by left. Qed.

Lemma yields_put_own rid l : yields (gains holds (only rid)) (λ _, True) (put_req_blocks rid l).
Proof.
  apply yields_modify. intros s rid' H. destruct (decide (rid' = rid)) as [->|Hne]; [by right|left].
  unfold holds, req_blocks in *. simpl in H. by rewrite lookup_insert_ne in H.
Qed.

Lemma yields_get_req_blocks A rid : yields (gains holds A) (λ _, True) (get_req_blocks rid).
Proof.
  intros s. unfold get_req_blocks. wpe_step. wpe_step. cbn zeta. destruct (req_to_blocks (mgr s) !! rid) as [l|] eqn:E.
  - wpe_step. split; [done|reflexivity].
  - wpe_step. unfold upd_mgr. wpe_step. wpe_step. split; [done|]. intros rid' H. left. unfold holds, req_blocks in *.
    simpl in H. destruct (decide (rid' = rid)) as [->|Hne]; [by rewrite lookup_insert_eq in H|].
    by rewrite lookup_insert_ne in H.
Qed.

(** Replacing a list that was not empty. *)
Lemma put_held A rid l s : (l ≠ [] → holds s rid) → gains holds A s (MState (set_req_to_blocks (<[rid := l]> (req_to_blocks (mgr s))) (mgr s)) (block_pool s)).
Proof.
  intros Hl rid' H. left. unfold holds, req_blocks in *. simpl in H. destruct (decide (rid' = rid)) as [->|Hne].
  - rewrite lookup_insert_eq in H. by apply Hl.
  - by rewrite lookup_insert_ne in H.
Qed.

#[export] Hint Resolve yields_on_pool_any yields_extend_new yields_put_own yields_get_req_blocks : yields.
#[export] Hint Extern 1 (yields _ _ (upd_mgr _)) => (apply yields_upd_mgr; intros; reflexivity) : yields.

(** *** Allocation *)

Section allocation.
Context (use_int : bool) (rid : string).
Abbreviation own := (gains holds (only rid)).

Lemma yields_base_computed bs a b : yields own (λ _, True) (Base.allocate_new_computed_blocks use_int rid bs a b).
Proof. unfold Base.allocate_new_computed_blocks. yields_auto. Qed.

Lemma yields_base_new a b : yields own (λ _, True) (Base.allocate_new_blocks use_int rid a b).
Proof. unfold Base.allocate_new_blocks. yields_auto. Qed.

Lemma yields_claim : yields own (λ _, True) (OneBlock.claim use_int rid).
Proof. unfold OneBlock.claim. yields_auto. Qed.

Lemma yields_mamba_new a b : yields own (λ _, True) (Mamba.allocate_new_blocks use_int rid a b).
Proof. unfold Mamba.allocate_new_blocks, Mamba.record_last_state. pose proof yields_base_new. yields_auto. Qed.

Lemma yields_computed bs a b : yields own (λ _, True) (Manager.allocate_new_computed_blocks use_int rid bs a b).
Proof.
  unfold Manager.allocate_new_computed_blocks, OneBlock.ring_allocate_new_computed_blocks, OneBlock.tail_allocate_new_computed_blocks.
  pose proof yields_base_computed. pose proof yields_claim. yields_auto.
Qed.

Lemma yields_new a b : yields own (λ _, True) (Manager.allocate_new_blocks use_int rid a b).
Proof.
  unfold Manager.allocate_new_blocks. pose proof yields_base_new. pose proof yields_claim. pose proof yields_mamba_new. yields_auto.
Qed.

Lemma yields_redirect_group e i : yields own (λ _, True) (redirect_group use_int rid e i).
Proof. unfold redirect_group. yields_auto. Qed.
End allocation.

(** *** Operations that give no block *)

Section no_gain.
Abbreviation none := (gains holds nobody).

Lemma yields_base_demand rid n bs t u b : yields none (λ _, True) (Base.get_num_blocks_to_allocate rid n bs t u b).
Proof. unfold Base.get_num_blocks_to_allocate. yields_auto. Qed.

Lemma yields_demand rid n bs t u b : yields none (λ _, True) (Manager.get_num_blocks_to_allocate rid n bs t u b).
Proof.
  unfold Manager.get_num_blocks_to_allocate, OneBlock.ring_get_num_blocks_to_allocate,
    OneBlock.tail_get_num_blocks_to_allocate, Mamba.get_num_blocks_to_allocate.
  pose proof yields_base_demand. yields_auto.
Qed.

Lemma yields_common rid : yields none (λ _, True) (Manager.get_num_common_prefix_blocks rid).
Proof. unfold Manager.get_num_common_prefix_blocks, Full.get_num_common_prefix_blocks. yields_auto. Qed.

Lemma yields_step_starts : yields none (λ _, True) Manager.new_step_starts.
Proof. unfold Manager.new_step_starts, Mamba.new_step_starts. yields_auto. Qed.

Lemma yields_take_ids : yields none (λ _, True) Base.take_new_block_ids.
Proof. unfold Base.take_new_block_ids. yields_auto. Qed.

Lemma yields_take_offloads : yields none (λ _, True) Base.take_pending_boundary_state_offloads.
Proof. unfold Base.take_pending_boundary_state_offloads. yields_auto. Qed.

Lemma yields_record_cached rid bs l : yields none (λ _, True) (Mamba.record_cached rid bs l).
Proof. induction l as [|i l IH]; cbn [Mamba.record_cached]; yields_auto. Qed.

(** The request it returns differs from the given one in its caches only. *)
Lemma yields_cache sha256 use_int (r : Request) n a ri bd :
  yields none (kv_same r) (Manager.cache_blocks sha256 use_int r n a ri bd).
Proof.
  unfold Manager.cache_blocks, Mamba.cache_blocks, Base.cache_blocks. pose proof yields_record_cached.
  pose proof (λ bs nc nf b g mask, yields_on_pool nobody _ _ (yields_cache_full_blocks sha256 use_int r bs nc nf b g mask)) as Hc.
  yields_auto; try reflexivity.
Qed.

(** [_remove_blocks_in_range]: an empty table stays empty. *)
Lemma remove_loop_nil null hold l freed replay bs f r :
  Base.remove_loop null hold l [] freed replay = Some (bs, f, r) → bs = [].
Proof. destruct l as [|i l]; cbn; [naive_solver|]. unfold py_get. simpl. by destruct (i <? 0), (i <? - zlen []). Qed.

Lemma yields_remove_range rid a b hold first :
  yields none (λ _, True) (Base._remove_blocks_in_range rid a b hold first).
Proof.
  intros s. unfold Base._remove_blocks_in_range. wpe_step. wpe_step. cbn zeta.
  destruct (req_to_blocks (mgr s) !! rid) as [l|] eqn:E; [|wpe_step; split; [done|reflexivity]].
  destruct (b <=? a); [wpe_step; split; [done|reflexivity]|]. wpe_step. apply wpe_of_option; [|done].
  intros [[l' freed] replay] El. wpe_step. unfold put_req_blocks, upd_mgr. wpe_step.
  match goal with |- wpe _ ?s1 _ _ => set (s' := s1) end. assert (Hs : none s s').
  { apply put_held. intros Hl. unfold holds, req_blocks. rewrite E. simpl. intros ->. apply Hl. by eapply remove_loop_nil. }
  assert (Hrest : yields none (λ _, True) (when (0 <? zlen freed) (on_pool (Pool.free_blocks freed first)) ;;
    when (0 <? zlen replay) (on_pool (Pool.free_blocks replay false)))) by yields_auto.
  eapply wpe_mono; [apply Hrest| |done]. intros [] s2 [_ H2]. split; [done|]. by transitivity s'.
Qed.

Lemma yields_base_skipped rid n p : yields none (λ _, True) (Base.remove_skipped_blocks rid n p).
Proof. unfold Base.remove_skipped_blocks. pose proof yields_remove_range. yields_auto. Qed.

(** The loop reads a block before it writes one. *)
Lemma py_get_nonempty {X} (l : list X) i x : py_get l i = Some x → l ≠ [].
Proof. intros H ->. unfold py_get in H. simpl in H. by destruct (i <? - zlen []), (i <? 0). Qed.

Lemma yields_release_loop rid n l keep : yields none (λ _, True) (Mamba.release_loop rid n l keep).
Proof.
  revert keep. induction l as [|i l IH]; intros keep; cbn [Mamba.release_loop]; [by apply (yields_ret _)|].
  destruct (i <? n); [|apply IH]. intros s. wpe_step. wpe_step. cbn zeta. wpe_step.
  apply wpe_of_option; [|done]. intros b Hb. wpe_step. destruct (decide _) as [Hn|Hn]; [|wpe_step; apply IH].
  wpe_step. eapply wpe_mono; [apply (yields_on_pool_any nobody)| |done]. intros [] s1 [_ H1]. wpe_step.
  apply wpe_of_option; [|done]. intros bs' _. unfold put_req_blocks, upd_mgr. wpe_step.
  match goal with |- wpe _ ?s1 _ _ => set (s' := s1) end. eapply wpe_mono; [apply (IH keep s')| |done].
  intros keep' s2 [_ H2]. split; [done|]. transitivity s'; [|done]. intros rid' H'. left.
  destruct (decide (rid' = rid)) as [->|Hne].
  - unfold holds. by eapply py_get_nonempty.
  - destruct (H1 rid') as [|[]]; [|done]. unfold holds, req_blocks in *. simpl in H'. by rewrite lookup_insert_ne in H'.
Qed.

Lemma yields_skipped rid n p : yields none (λ _, True) (Manager.remove_skipped_blocks rid n p).
Proof.
  unfold Manager.remove_skipped_blocks, Mamba.remove_skipped_blocks, PrefixAnchored.remove_skipped_blocks.
  pose proof yields_base_skipped. pose proof yields_remove_range. pose proof yields_release_loop. yields_auto.
Qed.

(** [free] takes the table away. *)
Lemma free_takes rid s :
  wpe (Manager.free rid) s (λ _ s', none s s' ∧ ¬ holds s' rid) (λ _ _, True).
Proof.
  assert (Hb : ∀ s, wpe (Base.free rid) s (λ _ s', none s s' ∧ ¬ holds s' rid) (λ _ _, True)).
  { clear s. intros s. unfold Base.free. wpe_step. wpe_step. wpe_step. unfold upd_mgr. wpe_step. wpe_step.
    unfold on_pool. wpe_step. unfold wpe at 1. destruct (Pool.free_blocks _ _ _) as [[[]|] p]; [|done].
    wpe_step. split.
    - intros rid' H. left. unfold holds, req_blocks in *. simpl in H. destruct (decide (rid' = rid)) as [->|Hne].
      + by rewrite lookup_delete_eq in H.
      + by rewrite lookup_delete_ne in H.
    - unfold holds, req_blocks. simpl. rewrite lookup_delete_eq. intros H. by apply H. }
  unfold Manager.free. wpe_step. wpe_step.
  assert (Hm : wpe (Mamba.free rid) s (λ _ s', none s s' ∧ ¬ holds s' rid) (λ _ _, True)).
  { unfold Mamba.free. wpe_step. wpe_step. wpe_step. unfold upd_mgr. apply wpe_when; intros _; [wpe_step|]; [|apply Hb].
    eapply wpe_mono; [apply Hb| |done]. intros [] s' [Hs Hr]. split; [|done]. intros rid' H. by apply Hs. }
  destruct (class_of (mgr s)) as [[]|]; try apply Hb; apply Hm.
Qed.
End no_gain.

(** ** The coordinator's tables *)

Definition cholds (c : Coordinator) (rid : string) : Prop :=
  ∃ m, m ∈ single_type_managers c ∧ req_blocks m rid ≠ [].

Lemma yields_on_manager {X} A (P : X → Prop) i m :
  yields (gains holds A) P m → yields (gains cholds A) P (on_manager i m).
Proof.
  intros Hm c. unfold on_manager, wpe. destruct (single_type_managers c !! i) as [x|] eqn:Ex; [|done].
  specialize (Hm (MState x (coord_pool c))). unfold wpe in Hm. destruct (m _) as [[a|e] s']; [|done].
  destruct Hm as [Ha Hm]. split; [done|]. intros rid (y & Hy & Hr). simpl in Hy.
  apply list_elem_of_lookup in Hy as [j Hj]. apply list_lookup_insert_Some in Hj as [(-> & <- & _)|[_ Hj]].
  - destruct (Hm rid Hr) as [Hx|?]; [left|by right]. exists x. split; [by eapply list_elem_of_lookup_2|done].
  - left. exists y. split; [by eapply list_elem_of_lookup_2|done].
Qed.

Lemma yields_each_manager {X} A (f : nat → Manager → M mstate X) :
  (∀ i m, yields (gains holds A) (λ _, True) (f i m)) → yields (gains cholds A) (λ _, True) (each_manager f).
Proof.
  intros Hf. unfold each_manager. yields_auto. apply yields_on_manager. yields_auto.
Qed.

(** Writes of attributes other than the managers. *)
Lemma yields_coord A f :
  (∀ c, single_type_managers (f c) = single_type_managers c) → yields (gains cholds A) (λ _, True) (modify f).
Proof. intros Hf. apply yields_modify. intros c rid H. left. unfold cholds in *. by rewrite Hf in H. Qed.

#[export] Hint Extern 1 (yields (gains cholds _) _ (modify _)) => (apply yields_coord; intros; reflexivity) : yields.
#[export] Hint Resolve yields_on_manager yields_each_manager : yields.

Section coordinator.
Context (use_int : bool) (rid : string).
Abbreviation own := (gains cholds (only rid)).
Abbreviation none := (gains cholds nobody).

Lemma yields_coord_computed bs a b : yields own (λ _, True) (Coordinator.allocate_new_computed_blocks use_int rid bs a b).
Proof.
  unfold Coordinator.allocate_new_computed_blocks, group_blocks. pose proof (yields_computed use_int rid). yields_auto.
  apply yields_each_manager. intros. yields_auto.
Qed.

Lemma yields_coord_new a b n : yields own (λ _, True) (Coordinator.allocate_new_blocks use_int rid a b n).
Proof.
  unfold Coordinator.allocate_new_blocks. pose proof (yields_new use_int rid). apply yields_each_manager. intros. yields_auto.
Qed.

Lemma yields_coord_demand n bs ne t u b :
  yields none (λ _, True) (Coordinator.get_num_blocks_to_allocate rid n bs ne t u b).
Proof.
  unfold Coordinator.get_num_blocks_to_allocate, group_blocks. yields_auto.
  apply yields_each_manager. intros. pose proof yields_demand. yields_auto.
Qed.

Lemma yields_coord_common : yields none (λ _, True) (Coordinator.get_num_common_prefix_blocks rid).
Proof.
  unfold Coordinator.get_num_common_prefix_blocks. pose proof yields_common. yields_auto; apply yields_each_manager; auto.
Qed.

Lemma yields_coord_skipped n p : yields none (λ _, True) (Coordinator.remove_skipped_blocks rid n p).
Proof.
  unfold Coordinator.remove_skipped_blocks. pose proof yields_skipped. yields_auto.
Qed.

Lemma yields_coord_starts : yields none (λ _, True) Coordinator.new_step_starts.
Proof.
  unfold Coordinator.new_step_starts. pose proof yields_step_starts. yields_auto.
Qed.

Lemma yields_coord_hit h n : yields none (λ _, True) (coord_find_longest_cache_hit h n).
Proof. unfold coord_find_longest_cache_hit. yields_auto. Qed.

(** The request that is handed on differs from the given one in its caches only. *)
Lemma yields_caching f (r : Request) :
  (∀ i m r, yields none (kv_same r) (f i m r)) → yields none (kv_same r) (each_manager_caching f r).
Proof.
  intros Hf. unfold each_manager_caching. yields_step. apply yields_foldM; [apply _| |reflexivity].
  intros r1 i H1. yields_step. yields_step; [auto with yields typeclass_instances|].
  eapply yields_weaken; [apply Hf|]. intros r2 H2. by transitivity r1.
Qed.

Lemma yields_cache_manager sha256 i m (r : Request) n a :
  yields none (kv_same r) (_cache_manager_blocks sha256 use_int i m r n a).
Proof. unfold _cache_manager_blocks. pose proof (yields_cache sha256 use_int). yields_auto. Qed.

Lemma yields_coord_cache sha256 (r : Request) n :
  yields none (kv_same r) (Coordinator.cache_blocks sha256 use_int r n).
Proof.
  unfold Coordinator.cache_blocks, base_cache_blocks, hybrid_cache_blocks.
  yields_auto; apply yields_caching; intros; apply yields_cache_manager.
Qed.

(** Every manager's table is visited. *)
Lemma coord_free_takes c :
  wpe (Coordinator.free rid) c (λ _ c', none c c' ∧ ¬ cholds c' rid) (λ _ _, True).
Proof.
  unfold Coordinator.free, each_manager. wpe_step. wpe_step. wpe_step.
  assert (Hl : ∀ k i c', length (single_type_managers c') = (i + k)%nat → none c c' →
    (∀ j m, (j < i)%nat → single_type_managers c' !! j = Some m → req_blocks m rid = []) →
    wpe (mapM_list (λ i, on_manager i (s ← get; Manager.free rid)) (seq i k)) c'
      (λ _ c', none c c' ∧ ¬ cholds c' rid) (λ _ _, True)).
  { induction k as [|k IH]; intros i c' Hlen Hc Hj; cbn [seq mapM_list].
    - wpe_step. split; [done|]. intros (m & Hm & Hr). apply list_elem_of_lookup in Hm as [j Hm].
      apply Hr, (Hj j); [|done]. apply lookup_lt_Some in Hm. lia.
    - wpe_step. unfold on_manager at 1, wpe at 1. destruct (single_type_managers c' !! i) as [x|] eqn:Ex; [|done].
      pose proof (free_takes rid (MState x (coord_pool c'))) as Hf. unfold wpe in Hf. change ((s ← get; Manager.free rid) ?a) with (Manager.free rid a).
      destruct (Manager.free rid _) as [[[]|e] s']; [|done]. destruct Hf as [Hg Hn]. wpe_step.
      eapply wpe_mono; [apply IH| |done].
      + simpl. rewrite length_insert. lia.
      + transitivity c'; [done|]. intros rid' (y & Hy & Hr). simpl in Hy. left.
        apply list_elem_of_lookup in Hy as [j Hy]. apply list_lookup_insert_Some in Hy as [(-> & <- & _)|[_ Hy]].
        * destruct (Hg rid' Hr) as [Hx|[]]. exists x. split; [by eapply list_elem_of_lookup_2|done].
        * exists y. split; [by eapply list_elem_of_lookup_2|done].
      + intros j m Hlt Hm. simpl in Hm. apply list_lookup_insert_Some in Hm as [(_ & <- & _)|[Hne Hm]].
        * unfold holds in Hn. by destruct (decide (req_blocks (mgr s') rid = [])).
        * apply (Hj j); [lia|done].
      + intros l c2 H2. by wpe_step. }
  eapply wpe_mono; [apply (Hl (length (single_type_managers c)) 0%nat c)| |done]; [done|reflexivity|lia|].
  intros l c' H. by wpe_step.
Qed.
End coordinator.

(** ** The manager's tables *)

Definition kholds (k : KVCacheManager) (rid : string) : Prop := cholds (coordinator k) rid.

Lemma yields_on_coord {X} A (P : X → Prop) m :
  yields (gains cholds A) P m → yields (gains kholds A) P (on_coord m).
Proof. intros Hm. eapply yields_zoom; [exact Hm|]. intros k c H rid Hr. by apply H. Qed.

Lemma yields_on_km_pool {X} A (m : M BlockPool X) : yields (gains kholds A) (λ _, True) (on_km_pool m).
Proof.
  apply yields_on_coord. eapply yields_zoom; [apply yields_anything|]. intros c p _ rid H. by left.
Qed.

Lemma yields_on_partial {X} A (m : M pcstate X) : yields (gains kholds A) (λ _, True) (on_partial m).
Proof.
  intros k. unfold on_partial, wpe. destruct (partial_cache k); [|done]. destruct (m _) as [[a|e] s']; [|done].
  split; [done|]. intros rid H. by left.
Qed.

Lemma yields_km A f :
  (∀ k, coordinator (f k) = coordinator k) → yields (gains kholds A) (λ _, True) (modify f).
Proof. intros Hf. apply yields_modify. intros k rid H. left. unfold kholds in *. by rewrite Hf in H. Qed.

#[export] Hint Extern 1 (yields (gains kholds _) _ (modify _)) => (apply yields_km; intros; reflexivity) : yields.
#[export] Hint Resolve yields_on_km_pool yields_on_partial yields_on_coord yields_nobody : yields.

Section manager.
Context (sha256 : bytes → bytes) (use_int : bool).
Abbreviation none := (gains kholds nobody).

Lemma yields_release_deferred l : yields none (λ _, True) (release_deferred l).
Proof. unfold release_deferred. yields_auto. Qed.

Lemma yields_make_room n d : yields none (λ _, True) (make_room n d).
Proof. induction n as [|n IH]; cbn [make_room]; yields_auto. Qed.

Lemma yields_reclaim_loop n b : yields none (λ _, True) (reclaim_loop n b).
Proof. induction n as [|n IH]; cbn [reclaim_loop]; yields_auto. Qed.

Lemma yields_reclaim n : yields none (λ _, True) (_reclaim_partial_blocks n).
Proof. unfold _reclaim_partial_blocks. pose proof yields_reclaim_loop. yields_auto. Qed.

Lemma yields_materialize requests p : yields none (λ _, True) (materialize_one use_int requests p).
Proof.
  unfold materialize_one, snapshot_group, _defer_release. destruct p as [[o b] n]. pose proof yields_make_room. yields_auto.
Qed.

Lemma yields_km_starts requests : yields none (λ _, True) (km_new_step_starts use_int requests).
Proof.
  unfold km_new_step_starts, _materialize_snapshots. pose proof yields_release_deferred.
  pose proof yields_materialize. pose proof yields_coord_starts. yields_auto.
Qed.

Lemma yields_partial_loop r a b c d l : yields none (λ _, True) (partial_hit_loop r a b c d l).
Proof. induction l as [|i l IH]; cbn [partial_hit_loop]; yields_auto. Qed.

Lemma yields_partial_hit r a b : yields none (λ _, True) (_partial_prefix_hit r a b).
Proof. unfold _partial_prefix_hit. pose proof yields_partial_loop. yields_auto. Qed.

Lemma yields_computed_blocks (r : KVRequest) :
  yields none (λ res : KVCacheBlocks * Z * KVRequest, kv_same r res.2) (get_computed_blocks r).
Proof.
  unfold get_computed_blocks. pose proof yields_coord_hit. pose proof yields_partial_hit. yields_auto.
Qed.

Lemma yields_redirect rid e : yields (gains kholds (only rid)) (λ _, True) (_redirect_partial_hit use_int rid e).
Proof.
  unfold _redirect_partial_hit, _defer_release. yields_step. yields_step; [|by yields_auto].
  apply yields_foldM; [apply _| |done]. intros l i _. pose proof (yields_redirect_group use_int rid). yields_auto.
Qed.

Lemma yields_fits r a : yields none (λ _, True) (full_sequence_fits r a).
Proof. unfold full_sequence_fits. pose proof yields_reclaim. pose proof yields_coord_demand. yields_auto. Qed.

Lemma yields_step_fits r a : yields none (λ _, True) (step_fits r a).
Proof. unfold step_fits. pose proof yields_reclaim. pose proof yields_coord_demand. yields_auto. Qed.

Lemma yields_add_computed (r : KVRequest) a :
  yields (gains kholds (only (request_id r))) (λ r' : KVRequest, kv_req r' = kv_req r) (add_computed use_int r a).
Proof.
  unfold add_computed. pose proof (yields_coord_computed use_int). pose proof yields_redirect. yields_auto.
Qed.

Lemma yields_cache_step (r : KVRequest) a :
  yields none (λ r' : KVRequest, kv_same r r') (cache_step sha256 use_int r a).
Proof.
  unfold cache_step, note_snapshot. pose proof (λ r n, yields_on_coord nobody _ _ (yields_coord_cache use_int sha256 r n)). yields_auto.
Qed.

Lemma yields_km_cache (r : Request) n : yields none (kv_same r) (km_cache_blocks sha256 use_int r n).
Proof. unfold km_cache_blocks. pose proof (λ r n, yields_on_coord nobody _ _ (yields_coord_cache use_int sha256 r n)). yields_auto; reflexivity. Qed.
End manager.

(** ** The instance *)

(** Blocks are given only when the allocation succeeds. *)
Lemma allocate_holds sha256 use_int (r : KVRequest) a k :
  wpe (allocate_slots sha256 use_int r a) k (λ res k', kv_same r res.2 ∧
    ∀ rid, kholds k' rid → kholds k rid ∨ rid = request_id r ∧ res.1 ≠ None) (λ _ _, True).
Proof.
  unfold allocate_slots. wpe_step. wpe_step. destruct (_ && _); [done|]. wpe_step.
  eapply wpe_mono; [apply yields_fits| |done]. intros [|] k1 [_ H1]; simpl; cycle 1.
  { wpe_step. split; [apply kv_same_refl|]. intros rid H. by destruct (H1 rid H) as [|[]]; left. }
  wpe_step. eapply wpe_mono; [apply yields_on_coord, yields_coord_skipped| |done]. intros [] k2 [_ H2].
  wpe_step. eapply wpe_mono; [apply yields_step_fits| |done]. intros [|] k3 [_ H3]; simpl.
  - assert (H03 : gains kholds (only (request_id r)) k k3).
    { intros rid H. destruct (H3 rid H) as [H'|[]]. destruct (H2 rid H') as [H''|[]]. destruct (H1 rid H'') as [|[]]. by left. }
    wpe_step. eapply wpe_mono; [apply yields_add_computed| |done]. intros r1 k4 [Hr H4].
    wpe_step. rewrite Hr. eapply wpe_mono; [apply yields_on_coord, yields_coord_new| |done]. intros bs k5 [_ H5].
    wpe_step. eapply wpe_mono; [apply yields_cache_step| |done]. intros r2 k6 [Hs H6]. wpe_step.
    split; [by rewrite <-Hr|]. intros rid H. destruct (H6 rid H) as [H'|[]].
    destruct (H5 rid H') as [H''| ->]; [|by right]. destruct (H4 rid H'') as [H3'| ->]; [|by right].
    destruct (H03 rid H3') as [| ->]; [by left|by right].
  - wpe_step. split; [apply kv_same_refl|]. intros rid H. left.
    destruct (H3 rid H) as [H'|[]]. destruct (H2 rid H') as [H''|[]]. by destruct (H1 rid H'') as [|[]].
Qed.

Lemma free_holds (r : Request) k :
  wpe (km_free r) k (λ _ k', ∀ rid, kholds k' rid → kholds k rid ∧ rid ≠ request_id r) (λ _ _, True).
Proof.
  unfold km_free. wpe_step. wpe_step. wpe_step.
  eapply wpe_mono; [apply (yields_when (gains kholds nobody)), yields_km; done| |done]. intros [] k1 [_ H1].
  unfold on_coord. wpe_step. eapply wpe_mono; [apply coord_free_takes| |done]. intros [] c [Hc Hn] rid H.
  split.
  - destruct (Hc rid H) as [H'|[]]. by destruct (H1 rid H') as [|[]].
  - intros ->. by apply Hn.
Qed.

Section instance.
Context (sha256 : bytes → bytes) (use_int : bool).
#[local] Existing Instance kv_cache_manager.

(** What a call keeps of the tables, and what it keeps of [uncached]. *)
Lemma ready_law {A} (m : M KVCacheManager A) (P : A → KVCacheManager → Prop) k :
  wpe m k P (λ _ _, True) → (uncached k → wp m k (λ _ k', uncached k')) →
  wpe m k (λ a k', P a k' ∧ (uncached k → uncached k')) (λ _ _, ¬ uncached k).
Proof. unfold wpe, wp. destruct (m k) as [[a|e] k']; [done|]. intros _ H Hk. by apply H. Qed.

Lemma yields_law {X} (P : X → Prop) (m : M KVCacheManager X) k :
  yields (gains kholds nobody) P m → (uncached k → wp m k (λ _ k', uncached k')) →
  wpe m k (λ a k', P a ∧ cache_keeps kholds uncached k k') (λ _ _, ¬ uncached k).
Proof.
  intros Hm Hr. eapply wpe_mono; [apply ready_law; [apply Hm|done]| |done]. intros a k' [[Ha H] Hk]. split; [done|].
  split; [done|]. intros rid Hrid. by destruct (H rid Hrid) as [|[]].
Qed.

Lemma yields_frame {X} (m : M KVCacheManager X) k :
  yields (gains kholds nobody) (λ _, True) m → (uncached k → wp m k (λ _ k', uncached k')) →
  wpe m k (λ _ k', cache_keeps kholds uncached k k') (λ _ _, ¬ uncached k).
Proof. intros Hm Hr. eapply wpe_mono; [by apply yields_law| |done]. by intros a k' [_ H]. Qed.

#[export, program] Instance kv_cache_manager_laws : @KVCacheLaws _ (kv_cache_manager sha256 use_int) := {|
  kv_holds := kholds;
  kv_ready := uncached;
  kv_given b := b = EmptyBlocks;
|}.
Next Obligation. done. Qed.
Next Obligation. intros objs k. apply yields_frame; [apply yields_km_starts|apply uncached_new_step]. Qed.
Next Obligation.
  intros r k. simpl. pose proof (uncached_hit r k) as Hr.
  assert (Hy := yields_law _ _ k (yields_computed_blocks r)).
  specialize (Hy ltac:(intros Hk; eapply wp_mono; [by apply Hr|]; by intros a k' [H _])).
  unfold wpe, wp in *. destruct (get_computed_blocks r k) as [[[[b n] r']|e] k']; [|done]. destruct Hy as [H1 H2].
  split; [done|]. split; [done|]. intros Hk. destruct (Hr Hk) as [_ [= -> ->]]. by split.
Qed.
Next Obligation.
  intros r a k. assert (Hh := allocate_holds sha256 use_int r a k).
  assert (Hr := uncached_allocate sha256 use_int r a k). unfold wpe in *. simpl.
  destruct (allocate_slots sha256 use_int r a k) as [[res|e] k'].
  - destruct Hh as [Hs Hh]. split; [done|]. split; [|split].
    + intros rid Hrid. destruct (Hh rid Hrid) as [|[-> _]]; [by left|by right].
    + intros Hnone rid Hrid. by destruct (Hh rid Hrid) as [|[_ ?]].
    + auto.
  - intros Hk Hb Hext. rewrite (Hr Hk Hb Hext). done.
Qed.
Next Obligation.
  intros r k. eapply wpe_mono; [apply ready_law; [apply free_holds|apply uncached_free]| |done].
  by intros [] k' [H Hk].
Qed.
Next Obligation. intros r n k. apply yields_law; [apply yields_km_cache|apply uncached_cache]. Qed.
Next Obligation.
  intros rid0 k. apply yields_frame; [apply yields_on_coord, yields_coord_common|].
  intros Hk. apply uncached_on_coord; [done|]. apply dense_common, Hk.
Qed.
Next Obligation.
  intros k. apply yields_frame; [|apply uncached_take_ids]. simpl. unfold km_take_new_block_ids.
  pose proof yields_take_ids. yields_auto.
Qed.
Next Obligation.
  intros k. apply yields_frame; [|apply uncached_take_offloads]. simpl. unfold take_boundary_state_offloads.
  pose proof yields_take_offloads. yields_auto.
Qed.
Next Obligation.
  intros k. apply yields_frame; [|apply uncached_take_copies]. simpl. unfold take_block_copies. yields_auto.
Qed.
Next Obligation.
  intros k. apply yields_frame; [|apply uncached_reset]. simpl. unfold km_reset_prefix_cache.
  pose proof yields_release_deferred. yields_auto.
Qed.
End instance.
