(* ===== verification/SchedTheorems.v ===== *)
(** * Runs of the scheduler

    Schedulers and requests small enough to be evaluated: over the KV-cache manager
    of KVManager.v without prefix caching, with the shared encoder cache and the
    first-come-first-served queue. *)

From Stdlib Require Import Strings.Byte.
From S2P Require Import Prelude.
From S2P Require Import FreeQueue.
From S2P Require Import Request.
From S2P Require Import BlockHash.
From S2P Require Import BlockPool.
From S2P Require Import KVCacheSpec.
From S2P Require Import SingleType.
From S2P Require Import CacheHit.
From S2P Require Import OrderedDict.
From S2P Require Import PyNumber.
From S2P Require Import RequestQueue.
From S2P Require Import SchedUtils.
From S2P Require Import SchedUtilsSpec.
From S2P Require Import SchedPrefill.
From S2P Require Import EncoderCache.
From S2P Require Import Coordinator.
From S2P Require Import PartialCache.
From S2P Require Import KVManager.
From S2P Require Import KVReady.
From S2P Require Import MixedPrefill.
From S2P Require Import SchedInterface.
From S2P Require Import Sched.
From S2P Require Import Schedule.
From S2P Require Import SchedUpdate.
From S2P Require Import SchedInv.
From S2P Require Import ScheduleInv.
From S2P Require Import ScheduleRunning.
From S2P Require Import ScheduleSpec.
From S2P Require Import SchedUpdateSpec.
From S2P Require Import SchedLife.
From S2P Require Import KVTables.
Local Open Scope Z_scope.

#[export] Instance plain_kv : KVCache KVCacheManager := kv_cache_manager id false.
#[export] Instance plain_kv_laws : KVCacheLaws KVCacheManager := kv_cache_manager_laws id false.

Abbreviation TextScheduler := (Scheduler FCFSRequestQueue KVCacheManager EncoderCacheManager).

(** One full-attention group over [n] blocks of 4 tokens, no prefix caching. *)
Definition text_config (n : Z) : KVCacheConfig :=
  mkConfig n [mkGroup (mkSpec FullAttentionSpec 4 true) 0 false] 0 [].

Definition text_manager (n : Z) : outcome KVCacheManager :=
  KVCacheManager_init (text_config n) 100 4 None false false false 1 1 false None false false.

(** Up to 4 requests, 16 tokens a step, 4 tokens of one prompt, [loras] adapters. *)
Definition text_sched (loras : option Z) (pp : Z) : SchedConfig :=
  mkSchedConfig FCFS 4 16 100 4 false true false false false pp false 0 0 0 false loras 1 false false false 100
    (mkPrefill false false None 4 false false false None false).

Definition text_request (rid : string) (o : Z) (prompt : list Z) (lora : option LoRARequest) : SRequest :=
  mkSReq (mkKVReq
    (mkRequest (mkArgs rid o 0 o (Some (mkSampling (Some 16) 0 (Some 0) [] None false None [])) None
                  (Some prompt) None lora None [] 16 (zlen prompt) [] true false false)
       WAITING None [] prompt [] 0 0 0 0 0 [] ∅) None) false 0 0 true.

(** The sampled tokens of a step. *)
Definition sampled (rows : list (string * list Z)) : ModelRunnerOutput :=
  mkRunnerOutput (list_to_map (zip rows.*1 (Z.of_nat <$> seq 0 (length rows)))) rows.*2 [] None.

Section run.
Context (loras : option Z) (pp : Z).
Definition step_ : M TextScheduler SchedulerOutput := schedule (text_sched loras pp) (λ _, true) id.
Definition finish_step (out : SchedulerOutput) (rows : list (string * list Z))
    : M TextScheduler (list EngineCoreOutput) :=
  update_from_output (text_sched loras pp) id None (λ _ _, false) out (sampled rows).
End run.

(** The value of a run that returns. *)
Definition from_ret {A} (o : outcome A) : match o with Ret _ => True | Raise _ => False end → A :=
  match o with Ret a => λ _, a | Raise _ => λ H, match H with end end.

(** The latency target is 250 ms. *)
Definition text_budget : MixedPrefillBudget := Mixed.MixedPrefillBudget_init 16 (float_of_int 250) 0.

Definition text_kv (n : Z) H : KVCacheManager := from_ret (text_manager n) H.

(** A new scheduler with 6, and with 20, usable blocks. *)
Definition large_kv : KVCacheManager := text_kv 21 ltac:(vm_compute; exact I).
Definition small_scheduler : TextScheduler :=
  new_scheduler text_budget (text_kv 7 ltac:(vm_compute; exact I)) (EncoderCacheManager_init 0).
Definition large_scheduler : TextScheduler :=
  new_scheduler text_budget large_kv (EncoderCacheManager_init 0).

(** Two requests have arrived. *)
Definition text_a : SRequest := text_request "a" 1 (replicate 10 7) None.
Definition text_b : SRequest := text_request "b" 2 (replicate 9 7) None.
Definition two_waiting : TextScheduler := ((add_request_ text_a ;; add_request_ text_b) large_scheduler).2.

(** *** Three scenarios

    A pipeline of three stages and one adapter: "b" is preempted while two steps
    with its tokens are executed, cannot be admitted again because its adapter
    differs from the running one, and is then stopped by the token of the last. *)
Definition stop_while_set_aside : M TextScheduler (list (string * Z)) :=
  add_request_ (text_request "a" 1 (replicate 40 7) None) ;;
  add_request_ (text_request "b" 2 (replicate 12 7) (Some (mkLoRA "x" 2))) ;;
  add_request_ (text_request "c" 3 (replicate 4 7) (Some (mkLoRA "y" 1))) ;;
  o1 ← step_ (Some 1) 3;
  o2 ← step_ (Some 1) 3;
  o3 ← step_ (Some 1) 3;
  finish_step (Some 1) 3 o1 [("a", []); ("b", [])] ;;
  o4 ← step_ (Some 1) 3;
  finish_step (Some 1) 3 o2 [("a", []); ("b", [])] ;;
  o5 ← step_ (Some 1) 3;
  finish_step (Some 1) 3 o3 [("a", []); ("b", [0])] ;;
  mret (so_num_scheduled_tokens o5).

(** Two stages and one adapter: "b" is admitted while "a" has nothing to compute. *)
Definition two_adapters : M TextScheduler SchedulerOutput :=
  add_request_ (text_request "a" 1 [7; 8] (Some (mkLoRA "x" 1))) ;;
  add_request_ (text_request "b" 2 (replicate 12 7) (Some (mkLoRA "y" 2))) ;;
  o1 ← step_ (Some 1) 2;
  o2 ← step_ (Some 1) 2;
  finish_step (Some 1) 2 o1 [("a", [5])] ;;
  step_ (Some 1) 2.

(** A model of 8 tokens, and a request for at least 10 new ones: four tokens are
    prefilled and four sampled, then [n] more steps are made. *)
Definition short_sched : SchedConfig :=
  mkSchedConfig FCFS 4 16 8 4 false true false false false 1 false 0 0 0 false None 1 false false false 8
    (mkPrefill false false None 4 false false false None false).
Definition greedy_request : SRequest :=
  mkSReq (mkKVReq
    (mkRequest (mkArgs "a" 1 0 1 (Some (mkSampling (Some 16) 10 (Some 0) [] None false None [])) None
                  (Some [7; 7; 7; 7]) None None None [] 16 4 [] true false false)
       WAITING None [] [7; 7; 7; 7] [] 0 0 0 0 0 [] ∅) None) false 0 0 true.
Definition greedy_step (rows : list (string * list Z)) : M TextScheduler (list (string * Z)) :=
  out ← schedule short_sched (λ _, true) id;
  update_from_output short_sched id None (λ _ _, false) out (sampled rows) ;;
  mret (so_num_scheduled_tokens out).
Definition min_tokens_beyond_length (n : nat) : M TextScheduler (list (list (string * Z))) :=
  add_request_ greedy_request ;;
  first ← mapM_list (λ _ : nat, greedy_step [("a", [5])]) (seq 0 4);
  rest ← mapM_list (λ _ : nat, greedy_step []) (seq 0 n);
  mret (first ++ rest).

(** * Theorems about the scheduler

    What holds in every state the engine can drive the scheduler to, for the queues,
    caches and encoder caches of the other files; and three closed runs in which the
    scheduler does not do what it means to.

    The runs are those of [reachable]: a synchronous engine ([config_ok]), which has each
    step answered by [update_from_output] before it schedules the next, so that one
    step is outstanding at a time (no pipelining, no asynchronous scheduling); a valid
    configuration; requests with new ids that wait, are shorter than the model's length
    and whose prompt and [min_tokens] fit it; answers within the workers' protocol.
    The parameter [total] is [True] where it is claimed that nothing raises: then there
    is no adapter limit ([max_loras] is [None]), the requests are text and the cache is
    ready.  Where it is [False] none of this is assumed, and a call that raises ends
    the run.  The closed runs at the end lie outside: their steps overlap, or a
    request's [min_tokens] does not fit. *)

(** ** For the witnesses: two requests have arrived *)

Lemma text_newcomer {Q K E} `{!RequestQueue Q} `{!KVCache K} `{!EncoderCache E} c total rid o prompt (s : Scheduler Q K E) :
  0 < zlen prompt < sc_max_model_len c → objects s !! o = None → od_get rid (requests s) = None →
  newcomer c total (text_request rid o prompt None) s.
Proof.
  intros Hlen Ho Hrid. assert (Hn : num_tokens (text_request rid o prompt None) = zlen prompt) by done.
  assert (Hout : num_output_tokens (text_request rid o prompt None) = 0) by done.
  assert (Hp : num_prompt_tokens (text_request rid o prompt None) = zlen prompt) by done.
  split; [done|done| |by split_and!|done]. unfold rok. rewrite Hn, Hout, Hp. split_and!; try done; try lia.
  intros _. eexists. split; [done|]. simpl. lia.
Qed.

Lemma text_config_ok : config_ok (text_sched None 1).
Proof. by split. Qed.

Abbreviation text_reachable total := (reachable (text_sched None 1) total (λ _, true) id None (λ _ _, false) (λ _ t, t)).

Lemma from_ret_eq {A} (o : outcome A) H : o = Ret (from_ret o H).
Proof. by destruct o. Qed.

(** A new manager without prefix caching, for full-attention groups. *)
Lemma text_manager_ready n k : text_manager n = Ret k → kv_ready k ∧ ∀ rid, ¬ kv_holds k rid.
Proof.
  unfold text_manager. intros E. apply uncached_init in E as [Hk He]; [| |done..].
  - split; [exact Hk|]. intros rid (m & Hm & Hr). apply Hr. unfold req_blocks. by rewrite (He m Hm).
  - intros g ->%list_elem_of_singleton. by split.
Qed.

Lemma large_ready : kv_ready large_kv ∧ ∀ rid, ¬ kv_holds large_kv rid.
Proof. apply (text_manager_ready 21), from_ret_eq. Qed.

Lemma two_waiting_reach total : text_reachable total None two_waiting.
Proof.
  destruct large_ready as [Hr Hkv]. set (s0 := large_scheduler).
  assert (H0 : text_reachable total None s0) by by apply reach_new.
  assert (H1 : text_reachable total None ((add_request_ text_a s0).2)).
  { apply (reach_add _ _ _ _ _ _ _ None text_a s0); [done|by apply text_newcomer|done|]. by apply run_eq. }
  assert (H2 : text_reachable total None ((add_request_ text_b ((add_request_ text_a s0).2)).2)).
  { apply (reach_add _ _ _ _ _ _ _ None text_b ((add_request_ text_a s0).2)); [done|by apply text_newcomer|done|].
    by apply run_eq. }
  exact H2.
Qed.

(** The first step schedules four tokens of each. *)
Definition first_run : outcome SchedulerOutput * TextScheduler := step_ None 1 two_waiting.
Definition first_out : SchedulerOutput := from_ret first_run.1 ltac:(vm_compute; exact I).
Definition after_step : TextScheduler := first_run.2.

Lemma first_run_eq : first_run = (Ret first_out, after_step).
Proof. unfold first_out, after_step. rewrite <-from_ret_eq. by destruct first_run. Qed.

Lemma first_step : schedule (text_sched None 1) (λ _, true) id two_waiting = (Ret first_out, after_step).
Proof. rewrite <-first_run_eq. unfold first_run, step_. reflexivity. Qed.

Lemma after_step_reach : text_reachable False (Some first_out) after_step.
Proof. eapply reach_schedule; [apply two_waiting_reach|apply first_step]. Qed.

(** ** In every reachable state *)

Section reachable.
Context {Q K E : Type} `{!RequestQueue Q} `{!QueueLaws Q} `{!KVCache K} `{!KVCacheLaws K}
  `{!EncoderCache E} `{!EncoderLaws E}.
Context (c : SchedConfig) (total : Prop) (grammar_ready : Z → bool) (set_order : list Z → list Z).
Context (block_hasher : option (M Request (list BlockHash))).
Context (grammar_rejects : Request → list Z → bool) (validate_tokens : Request → list Z → list Z).
Implicit Types (s : Scheduler Q K E) (p : option SchedulerOutput).

Hypothesis set_order_perm : ∀ os, set_order os ≡ₚ os.
Hypothesis Hc : config_ok c.
Hypothesis Hslots : 0 ≤ max_num_running_reqs c.
Hypothesis no_loras : total → max_loras c = None.
Hypothesis Hhasher : hasher_ok block_hasher.

Abbreviation reach := (reachable c total grammar_ready set_order block_hasher grammar_rejects validate_tokens).

Lemma reach_run p s : reach p s → run_inv c total p s.
Proof. by apply run_reachable. Qed.

(** C2: In every state of a run of the synchronous engine, with one step outstanding
    at a time, each known request is in exactly one place: the running list, the waiting queue or the queue of skipped requests.  A running
    request has the status [RUNNING]; a queued one has not, is not finished and has
    no computed tokens.  The running list is within [max_num_seqs], and only
    running requests hold KV-cache blocks. *)
Theorem requests_in_one_place p s : reach p s →
  NoDup (placed [] [] s) ∧ placed [] [] s ≡ₚ (requests s).*2 ∧ NoDup (requests s).*1 ∧
  (∀ o, o ∈ running s → ∃ r : SRequest, objects s !! o = Some r ∧ status r = RUNNING) ∧
  (∀ a, a ∈ queued [] s → ∃ r : SRequest, objects s !! req_obj a = Some r ∧ req_args r = a ∧ waits r) ∧
  zlen (running s) ≤ max_num_running_reqs c ∧
  (∀ rid, kv_holds (kv_state s) rid → ∃ o, o ∈ running s ∧ name s o = rid).
Proof.
  intros H. apply reach_run in H. apply run_sinv in H as Hs. pose proof (sinv_nodup _ _ _ _ _ Hs) as Hnd.
  destruct Hs. split_and!; try done.
Qed.

(** C5: In a run of the synchronous engine, with one step outstanding at a time, and
    with requests admitted whose [min_tokens] fit the model's length ([newcomer]),
    between two steps every known request is unfinished, has at least one token
    and fewer than the model's length, has all its computed tokens, and has no
    output placeholders. *)
Theorem known_requests_bounded s : reach None s →
  ∀ rid o, od_get rid (requests s) = Some o → ∃ r : SRequest, objects s !! o = Some r ∧ request_id r = rid ∧
    is_finished r = false ∧ 0 < num_tokens r < sc_max_model_len c ∧ num_computed_tokens r ≤ num_tokens r ∧
    num_output_placeholders r = 0.
Proof.
  intros H rid o Hget. apply reach_run in H. destruct H as [Hs Hroom _].
  pose proof (known_placed c total s rid o Hs Hget) as Ho.
  apply (od_get_elem _ _ _ (si_dict _ _ _ _ _ Hs)) in Hget. destruct (si_names _ _ _ _ _ Hs _ _ Hget) as (r & Hr & Hid & _ & Hn & Hp & _).
  exists r. split; [done|]. split; [done|]. apply elem_of_app in Ho as [Ho|Ho].
  - destruct (si_run _ _ _ _ _ Hs o Ho) as (x & Hx & Hst). assert (x = r) as -> by congruence.
    split; [by unfold is_finished; rewrite Hst|]. split; [done|]. split; [by apply (Hroom o)|done].
  - apply list_elem_of_fmap in Ho as (a & -> & Ha). destruct (si_refs _ _ _ _ _ Hs a Ha) as (x & Hx & _ & _ & Hf & Hz).
    assert (x = r) as -> by congruence. split; [done|]. split; [done|]. split; [lia|done].
Qed.


(** C38: In a run of the synchronous engine, with one step outstanding at a time,
    [finish_requests] answers exactly the given ids that are known, makes those
    requests unknown and leaves all others known. *)
Theorem finish_requests_removes p ids fin s rids s' :
  reach p s → NoDup ids → finish_requests set_order (Some ids) fin s = (Ret rids, s') →
  rids = filter (λ rid, is_Some (od_get rid (requests s))) ids ∧
  ∀ rid, od_get rid (requests s') = if decide (rid ∈ ids) then None else od_get rid (requests s).
Proof.
  intros H Hnd Es. apply reach_run, run_sinv in H. pose proof (finish_status _ _ _ _ _ _ Es) as Hf.
  exact (wpe_ret_inv _ _ _ _ _ _ (finish_effect c total set_order set_order_perm (Some ids) fin s H Hf
    ltac:(by intros l [= <-])) Es).
Qed.
End reachable.

Lemma requests_in_one_place_witness :
  running after_step = [1; 2] ∧ requests after_step = [("a", 1); ("b", 2)] ∧ placed [] [] after_step ≡ₚ (requests after_step).*2.
Proof.
  split; [by vm_compute|]. split; [by vm_compute|].
  apply (requests_in_one_place (text_sched None 1) False (λ _, true) id None (λ _ _, false) (λ _ t, t)) with (p := Some first_out);
    [done|apply text_config_ok|done|done|done|apply after_step_reach].
Defined.

Lemma known_requests_bounded_witness :
  od_get "b" (requests two_waiting) = Some 2 ∧ ∃ r : SRequest, objects two_waiting !! 2 = Some r ∧ request_id r = "b" ∧
    is_finished r = false ∧ 0 < num_tokens r < 100 ∧ num_computed_tokens r ≤ num_tokens r ∧ num_output_placeholders r = 0.
Proof.
  split; [by vm_compute|].
  apply (known_requests_bounded (text_sched None 1) False (λ _, true) id None (λ _ _, false) (λ _ t, t));
    [done|apply text_config_ok|done|done|done|apply two_waiting_reach|by vm_compute].
Defined.


Definition leave_run : outcome (list string) * TextScheduler :=
  finish_requests id (Some ["b"; "x"]) FINISHED_ABORTED after_step.

Lemma leave_run_eq : leave_run = (Ret ["b"], leave_run.2).
Proof. apply run_eq. by vm_compute. Qed.

Lemma leave_step : finish_requests id (Some ["b"; "x"]) FINISHED_ABORTED after_step = (Ret ["b"], leave_run.2).
Proof. rewrite <-leave_run_eq. unfold leave_run. reflexivity. Qed.

Lemma finish_requests_removes_witness :
  od_get "a" (requests leave_run.2) = Some 1 ∧ od_get "b" (requests leave_run.2) = None.
Proof.
  assert (Hnd : NoDup ["b"; "x"]) by (apply (bool_decide_unpack _); by vm_compute).
  destruct (finish_requests_removes (Q := FCFSRequestQueue) (K := KVCacheManager) (E := EncoderCacheManager) (text_sched None 1) False (λ _, true) id None (λ _ _, false) (λ _ t, t)) with
    (p := Some first_out) (s := after_step) (ids := ["b"; "x"]) (fin := FINISHED_ABORTED) (rids := ["b"]) (s' := leave_run.2)
    as [_ H]; [done|apply text_config_ok|done|done|done|apply after_step_reach|exact Hnd|exact leave_step|].
  split; rewrite H; by vm_compute.
Defined.

(** ** No exception

    For text requests without adapters, over a cache that is ready when the engine
    starts: [kv_cache_manager_laws] and [uncached_init] make the KV-cache manager
    without prefix caching, over full-attention groups, such a cache. *)

Section total.
Context {Q K E : Type} `{!RequestQueue Q} `{!QueueLaws Q} `{!KVCache K} `{!KVCacheLaws K}
  `{!EncoderCache E} `{!EncoderLaws E}.
Context (c : SchedConfig) (grammar_ready : Z → bool) (set_order : list Z → list Z).
Context (block_hasher : option (M Request (list BlockHash))).
Context (grammar_rejects : Request → list Z → bool) (validate_tokens : Request → list Z → list Z).
Implicit Types (s : Scheduler Q K E).

End total.


(** ** Three runs *)

(** With two steps in flight, a request that is stopped while it is set aside among the skipped requests
    stays there: it is finished and no longer known, and once the other requests have
    left it is scheduled again and the step raises. *)
Theorem finished_request_rescheduled :
  let s := (stop_while_set_aside small_scheduler).2 in
  (stop_while_set_aside small_scheduler).1 = Ret [("a", 4); ("c", 4)] ∧
  requests s = [("a", 1); ("c", 3)] ∧ req_obj <$> queued [] s = [2] ∧
  (λ r : SRequest, status r) <$> objects s !! 2 = Some FINISHED_STOPPED ∧
  ((finish_requests id (Some ["a"; "c"]) FINISHED_ABORTED ;; step_ (Some 1) 3) s).1 = Raise RuntimeError.
Proof. by vm_compute. Qed.

(** With one adapter allowed and two pipeline stages, a request of a second
    adapter is admitted while the running one has nothing to compute; the next step
    fails the assertion on the number of adapters. *)
Theorem two_adapters_assertion :
  (two_adapters small_scheduler).1 = Raise AssertionError ∧ running (two_adapters small_scheduler).2 = [1; 2].
Proof. by vm_compute. Qed.

(** A request whose [min_tokens] exceeds the room the model's length leaves is
    not stopped at that length: it stays among the running requests and no later step
    schedules a token of it. *)
Theorem min_tokens_never_stops :
  (min_tokens_beyond_length 8 small_scheduler).1 =
    Ret ([[("a", 4)]; [("a", 1)]; [("a", 1)]; [("a", 1)]] ++ replicate 8 []) ∧
  running (min_tokens_beyond_length 8 small_scheduler).2 = [1] ∧
  (λ r : SRequest, (status r, num_tokens r)) <$> objects (min_tokens_beyond_length 8 small_scheduler).2 !! 1 = Some (RUNNING, 8).
Proof. by vm_compute. Qed.

