(* ===== verification/LayerSpec.v ===== *)
(** * The KV cache of one layer

    [vllm/v1/kv_cache_interface.py] with the layout of the tensors: the bytes of a page
    and of a request, the checks of the constructors, the merging of the specs of several
    layers, and specs of several layers of one type.  [KVCacheSpec] of KVCacheSpec.v is the
    part of a spec the block managers read.

    [LayerSpec] has the fields of all classes; a field that a class does not have holds
    its default.  Divisors (block sizes, compression ratios) are positive for every
    caller. *)

From S2P Require Import Prelude KVCacheSpec.
Local Open Scope Z_scope.

#[export] Instance outcome_ret : MRet outcome := λ A a, Ret a.
#[export] Instance outcome_bind : MBind outcome := λ A B f o, obind f o.

#[export] Instance outcome_fmap : FMap outcome := λ A B f o, obind (λ a, Ret (f a)) o.

Definition oassert (b : bool) : outcome unit := if b then Ret tt else Raise AssertionError.

(** ** Data *)

Inductive KVQuantMode : Set := NONE | FP8_PER_TENSOR | INT8_PER_TOKEN_HEAD | FP8_PER_TOKEN_HEAD | NVFP4.

#[export] Instance KVQuantMode_eq_dec : EqDecision KVQuantMode.
Proof. solve_decision. Defined.

Definition is_per_token_head (m : KVQuantMode) : bool :=
  match m with INT8_PER_TOKEN_HEAD | FP8_PER_TOKEN_HEAD => true | _ => false end.

Definition is_nvfp4 (m : KVQuantMode) : bool := bool_decide (m = NVFP4).

Definition get_kv_quant_mode (kv_cache_dtype : string) : KVQuantMode :=
  if bool_decide (kv_cache_dtype = "int8_per_token_head"%string) then INT8_PER_TOKEN_HEAD
  else if bool_decide (kv_cache_dtype = "fp8_per_token_head"%string) then FP8_PER_TOKEN_HEAD
  else if bool_decide (kv_cache_dtype = "nvfp4"%string) then NVFP4
  else if String.prefix "fp8"%string kv_cache_dtype then FP8_PER_TENSOR
  else NONE.

(** [torch.dtype]: its name and the bytes of an element, [get_dtype_size]. *)
Record torch_dtype : Set := { dtype_name : string; get_dtype_size : Z }.

#[export] Instance torch_dtype_eq_dec : EqDecision torch_dtype.
Proof. solve_decision. Defined.

Record LayerSpec : Type := mkLayer {
  base : KVCacheSpec;
  (* AttentionSpec *)
  num_kv_heads : Z;
  head_size : Z;
  head_size_v : option Z;
  dtype : torch_dtype;
  kv_quant_mode : KVQuantMode;
  page_size_padded : option Z;
  (* FullAttentionSpec *)
  host_backed : bool;
  full_sliding_window : option Z;
  full_chunk_size : option Z;
  tq_slot_size : Z;
  (* MLAAttentionSpec and SlidingWindowMLASpec *)
  cache_dtype_str : option string;
  alignment : option Z;
  compress_ratio : Z;
  model_version : option string;
  (* MambaSpec *)
  shapes : list (list Z);
  dtypes : list torch_dtype;
  mamba_type : string;
  tp_replicated : bool;
}.

#[export] Instance LayerSpec_eq_dec : EqDecision LayerSpec.
Proof. solve_decision. Defined.

Definition cls (s : LayerSpec) : spec_class := spec_type (base s).
Definition block_size (s : LayerSpec) : Z := spec_block_size (base s).
Definition sharded (s : LayerSpec) : bool := dcp_sharded (base s).

Definition is_mla (c : spec_class) : bool :=
  match c with MLAAttentionSpec | HiddenStateCacheSpec => true | _ => false end.
Definition is_swa_mla (c : spec_class) : bool :=
  match c with SlidingWindowMLASpec _ => true | _ => false end.
Definition is_mamba (c : spec_class) : bool :=
  match c with MambaSpec _ _ => true | _ => false end.
Definition is_chunked (c : spec_class) : bool :=
  match c with ChunkedLocalAttentionSpec _ => true | _ => false end.
Definition is_sliding_window (c : spec_class) : bool :=
  bool_decide (is_Some (sliding_window_of c)).
(** Every class but [MambaSpec] is an [AttentionSpec]. *)
Definition is_attention (c : spec_class) : bool := negb (is_mamba c).

(** The writes of the fields the sizing replaces. *)
Definition set_block_size (n : Z) (s : LayerSpec) : LayerSpec :=
  {| base := mkSpec (cls s) n (sharded s); num_kv_heads := num_kv_heads s; head_size := head_size s;
     head_size_v := head_size_v s; dtype := dtype s; kv_quant_mode := kv_quant_mode s;
     page_size_padded := page_size_padded s; host_backed := host_backed s;
     full_sliding_window := full_sliding_window s; full_chunk_size := full_chunk_size s;
     tq_slot_size := tq_slot_size s; cache_dtype_str := cache_dtype_str s; alignment := alignment s;
     compress_ratio := compress_ratio s; model_version := model_version s; shapes := shapes s;
     dtypes := dtypes s; mamba_type := mamba_type s; tp_replicated := tp_replicated s |}.

Definition set_page_size_padded (p : option Z) (s : LayerSpec) : LayerSpec :=
  {| base := base s; num_kv_heads := num_kv_heads s; head_size := head_size s;
     head_size_v := head_size_v s; dtype := dtype s; kv_quant_mode := kv_quant_mode s;
     page_size_padded := p; host_backed := host_backed s;
     full_sliding_window := full_sliding_window s; full_chunk_size := full_chunk_size s;
     tq_slot_size := tq_slot_size s; cache_dtype_str := cache_dtype_str s; alignment := alignment s;
     compress_ratio := compress_ratio s; model_version := model_version s; shapes := shapes s;
     dtypes := dtypes s; mamba_type := mamba_type s; tp_replicated := tp_replicated s |}.

Definition set_quant_mode (m : KVQuantMode) (s : LayerSpec) : LayerSpec :=
  {| base := base s; num_kv_heads := num_kv_heads s; head_size := head_size s;
     head_size_v := head_size_v s; dtype := dtype s; kv_quant_mode := m;
     page_size_padded := page_size_padded s; host_backed := host_backed s;
     full_sliding_window := full_sliding_window s; full_chunk_size := full_chunk_size s;
     tq_slot_size := tq_slot_size s; cache_dtype_str := cache_dtype_str s; alignment := alignment s;
     compress_ratio := compress_ratio s; model_version := model_version s; shapes := shapes s;
     dtypes := dtypes s; mamba_type := mamba_type s; tp_replicated := tp_replicated s |}.

Definition set_head_size_v (v : option Z) (s : LayerSpec) : LayerSpec :=
  {| base := base s; num_kv_heads := num_kv_heads s; head_size := head_size s;
     head_size_v := v; dtype := dtype s; kv_quant_mode := kv_quant_mode s;
     page_size_padded := page_size_padded s; host_backed := host_backed s;
     full_sliding_window := full_sliding_window s; full_chunk_size := full_chunk_size s;
     tq_slot_size := tq_slot_size s; cache_dtype_str := cache_dtype_str s; alignment := alignment s;
     compress_ratio := compress_ratio s; model_version := model_version s; shapes := shapes s;
     dtypes := dtypes s; mamba_type := mamba_type s; tp_replicated := tp_replicated s |}.

(** ** Bytes of a page *)

(** [vllm.utils.torch_utils.nvfp4_kv_cache_full_dim] *)
Definition nvfp4_kv_cache_full_dim (head_size : Z) : Z := head_size / 2 + head_size / 16.

Definition storage_block_size (s : LayerSpec) : Z :=
  if is_mla (cls s) || is_swa_mla (cls s) then block_size s / compress_ratio s else block_size s.

(** [AttentionSpec.real_page_size_bytes] *)
Definition attention_real_page (s : LayerSpec) : Z :=
  if is_nvfp4 (kv_quant_mode s) then
    2 * block_size s * num_kv_heads s * nvfp4_kv_cache_full_dim (head_size s) * get_dtype_size (dtype s)
  else 2 * block_size s * num_kv_heads s * head_size s * get_dtype_size (dtype s).

(** [FullAttentionSpec.real_page_size_bytes], also that of [SlidingWindowSpec]. *)
Definition full_real_page (s : LayerSpec) : outcome Z :=
  match head_size_v s with
  | None => Raise TypeError
  | Some v =>
      Ret (if is_nvfp4 (kv_quant_mode s) then
             block_size s * num_kv_heads s * (nvfp4_kv_cache_full_dim (head_size s) + nvfp4_kv_cache_full_dim v)
             * get_dtype_size (dtype s)
           else block_size s * num_kv_heads s * (head_size s + v) * get_dtype_size (dtype s))
  end.

Definition mla_real_page (s : LayerSpec) : Z :=
  if bool_decide (model_version s = Some "glm5_next"%string)
     && bool_decide (cache_dtype_str s = Some "fp8"%string ∨ cache_dtype_str s = Some "fp8_e4m3"%string)
  then storage_block_size s * 520
  else if bool_decide (cache_dtype_str s = Some "fp8_ds_mla"%string) then
    if bool_decide (model_version s = Some "deepseek_v4"%string) then storage_block_size s * 584
    else block_size s * 656
  else storage_block_size s * num_kv_heads s * head_size s * get_dtype_size (dtype s).

Definition swa_mla_real_page (s : LayerSpec) : outcome Z :=
  if bool_decide (model_version s = Some "deepseek_v4"%string) then Ret (storage_block_size s * 584)
  else
    _ ← oassert (bool_decide (model_version s = None));
    Ret (storage_block_size s * num_kv_heads s * head_size s * get_dtype_size (dtype s)).

Definition circular_real_page (s : LayerSpec) : outcome Z :=
  match head_size_v s with
  | None => Raise TypeError
  | Some v => Ret (block_size s * num_kv_heads s * (head_size s + v) * get_dtype_size (dtype s))
  end.

Definition prod (l : list Z) : Z := foldr Z.mul 1 l.

Definition mamba_real_page (s : LayerSpec) : Z :=
  foldr Z.add 0 (zip_with (λ shape dt, prod shape * get_dtype_size dt) (shapes s) (dtypes s)).

Definition real_page_size_bytes (s : LayerSpec) : outcome Z :=
  match cls s with
  | FullAttentionSpec | PrefixAnchoredSWASpec _ | SinkFullAttentionSpec _
  | SlidingWindowSpec _ | KpoolTailSpec _ => full_real_page s
  | TQFullAttentionSpec =>
      if 0 <? tq_slot_size s then Ret (block_size s * num_kv_heads s * tq_slot_size s) else full_real_page s
  | MLAAttentionSpec | HiddenStateCacheSpec => Ret (mla_real_page s)
  | SlidingWindowMLASpec _ => swa_mla_real_page s
  | CircularBufferSpec => circular_real_page s
  | ChunkedLocalAttentionSpec _ | EncoderOnlyAttentionSpec | CrossAttentionSpec => Ret (attention_real_page s)
  | MambaSpec _ _ => Ret (mamba_real_page s)
  end.

Definition page_size_bytes (s : LayerSpec) : outcome Z :=
  real ← real_page_size_bytes s;
  let real :=
    if is_attention (cls s) && is_per_token_head (kv_quant_mode s) then
      real + 2 * block_size s * num_kv_heads s * 4
    else real in
  match page_size_padded s with
  | Some padded => _ ← oassert (real <=? padded); Ret padded
  | None => Ret real
  end.

(** ** Constructors *)

(** [_bind_cache_dtype_codec] *)
Definition _bind_cache_dtype_codec (s : LayerSpec) : outcome LayerSpec :=
  match cache_dtype_str s with
  | None => Ret s
  | Some str =>
      let codec := get_kv_quant_mode str in
      if decide (kv_quant_mode s = NONE ∨ kv_quant_mode s = codec) then Ret (set_quant_mode codec s)
      else Raise ValueError
  end.

Definition _apply_alignment_padding (s : LayerSpec) : outcome LayerSpec :=
  match alignment s with
  | None => Ret s
  | Some a =>
      actual ← real_page_size_bytes s;
      let padded := round_up actual a in
      Ret (if decide (padded = actual) then s else set_page_size_padded (Some padded) s)
  end.

Definition default_head_size_v (s : LayerSpec) : LayerSpec :=
  match head_size_v s with None => set_head_size_v (Some (head_size s)) s | Some _ => s end.

(** [__post_init__] of each class; [dataclasses.replace] runs it again. *)
Definition post_init (s : LayerSpec) : outcome LayerSpec :=
  match cls s with
  | FullAttentionSpec | TQFullAttentionSpec | SinkFullAttentionSpec _
  | SlidingWindowSpec _ | KpoolTailSpec _ => Ret (default_head_size_v s)
  | PrefixAnchoredSWASpec w => if w <=? 0 then Raise ValueError else Ret (default_head_size_v s)
  | MLAAttentionSpec | HiddenStateCacheSpec =>
      s ← _bind_cache_dtype_codec (default_head_size_v s); _apply_alignment_padding s
  | SlidingWindowMLASpec _ => s ← _bind_cache_dtype_codec s; _apply_alignment_padding s
  | _ => Ret s
  end.

Definition replace_block_size (n : Z) (s : LayerSpec) : outcome LayerSpec := post_init (set_block_size n s).
Definition replace_padding (p : option Z) (s : LayerSpec) : outcome LayerSpec := post_init (set_page_size_padded p s).
Definition replace_both (n : Z) (p : option Z) (s : LayerSpec) : outcome LayerSpec :=
  post_init (set_page_size_padded p (set_block_size n s)).

Definition copy_with_new_block_size (n : Z) (s : LayerSpec) : outcome LayerSpec :=
  if is_mamba (cls s) then replace_block_size n s
  else
    new_spec ← replace_block_size n s;
    match page_size_padded s with
    | None => Ret new_spec
    | Some padded =>
        real ← real_page_size_bytes new_spec;
        if padded <? real then replace_padding (Some real) new_spec else Ret new_spec
    end.

(** ** Bytes of a request *)

Record VllmConfig : Type := {
  max_model_len : Z;
  original_max_model_len : Z;
  decode_context_parallel_size : Z;
  prefill_context_parallel_size : Z;
  max_in_flight_tokens : Z;
  max_num_encoder_input_tokens : Z;
  cfg_mamba_cache_mode : string;
  cfg_block_size : Z;
  cfg_hash_block_size : option Z;
  enable_prefix_caching : bool;
  has_kv_transfer : bool;
  num_gpu_blocks_override : option Z;
  user_specified_mamba_block_size : bool;
  disable_hybrid_kv_cache_manager : bool;
  flash_attn_v100 : bool;  (* the backend, and that of the draft model or none, is FLASH_ATTN_V100 *)
}.

Definition with_max_model_len (n : Z) (c : VllmConfig) : VllmConfig :=
  {| max_model_len := n; original_max_model_len := original_max_model_len c;
     decode_context_parallel_size := decode_context_parallel_size c;
     prefill_context_parallel_size := prefill_context_parallel_size c;
     max_in_flight_tokens := max_in_flight_tokens c;
     max_num_encoder_input_tokens := max_num_encoder_input_tokens c;
     cfg_mamba_cache_mode := cfg_mamba_cache_mode c; cfg_block_size := cfg_block_size c;
     cfg_hash_block_size := cfg_hash_block_size c; enable_prefix_caching := enable_prefix_caching c;
     has_kv_transfer := has_kv_transfer c; num_gpu_blocks_override := num_gpu_blocks_override c;
     user_specified_mamba_block_size := user_specified_mamba_block_size c;
     disable_hybrid_kv_cache_manager := disable_hybrid_kv_cache_manager c;
     flash_attn_v100 := flash_attn_v100 c |}.

(** The blocks a request of a full-attention layer needs on this rank. *)
Definition full_attention_blocks (c : VllmConfig) (s : LayerSpec) : Z :=
  let world := decode_context_parallel_size c * prefill_context_parallel_size c in
  let len := if sharded s && (1 <? world) then cdiv (max_model_len c) world else max_model_len c in
  cdiv len (block_size s).

Definition mamba_blocks (c : VllmConfig) (s : LayerSpec) (num_speculative_blocks : Z) : Z :=
  if bool_decide (cfg_mamba_cache_mode c = "all"%string)
  then cdiv (max_model_len c) (block_size s) + num_speculative_blocks
  else if bool_decide (cfg_mamba_cache_mode c = "align"%string) then 2 + num_speculative_blocks
  else 1 + num_speculative_blocks.

Definition max_memory_usage_bytes (c : VllmConfig) (s : LayerSpec) : outcome Z :=
  let of_blocks n := page ← page_size_bytes s; Ret (n * page) in
  match cls s with
  | FullAttentionSpec | TQFullAttentionSpec | MLAAttentionSpec | HiddenStateCacheSpec
  | PrefixAnchoredSWASpec _ | SinkFullAttentionSpec _ => of_blocks (full_attention_blocks c s)
  | SlidingWindowSpec _ | SlidingWindowMLASpec _ | KpoolTailSpec _ =>
      _ ← oassert (bool_decide (decode_context_parallel_size c = 1));
      of_blocks (default 0 (max_admission_blocks_per_request (base s) (max_in_flight_tokens c) (max_model_len c)))
  | ChunkedLocalAttentionSpec _ =>
      of_blocks (default 0 (max_admission_blocks_per_request (base s) (max_in_flight_tokens c) (max_model_len c)))
  | CircularBufferSpec => page_size_bytes s
  | MambaSpec _ n => of_blocks (mamba_blocks c s n)
  | EncoderOnlyAttentionSpec => Ret 0
  | CrossAttentionSpec => of_blocks (cdiv (max_num_encoder_input_tokens c) (block_size s))
  end.

(** ** Merging the specs of several layers *)

Definition all_same {A} `{EqDecision A} (f : LayerSpec → A) (specs : list LayerSpec) : bool :=
  match specs with [] => false | s :: _ => bool_decide (Forall (λ s', f s' = f s) specs) end.

(** [merge_window_sizes] of the windows that are set. *)
Definition merge_window_sizes (f : LayerSpec → option Z) (specs : list LayerSpec) : outcome (option Z) :=
  match remove_dups (omap f specs) with
  | [] => Ret None
  | [w] => Ret (Some w)
  | _ => Raise ValueError
  end.

(** The fields of [AttentionSpec]. *)
Definition attention_fields (s : LayerSpec) : Z * bool * Z * Z * torch_dtype * KVQuantMode * option Z :=
  (block_size s, sharded s, num_kv_heads s, head_size s, dtype s, kv_quant_mode s, page_size_padded s).

Definition set_windows (sliding_window attention_chunk_size : option Z) (s : LayerSpec) : LayerSpec :=
  {| base := base s; num_kv_heads := num_kv_heads s; head_size := head_size s;
     head_size_v := head_size_v s; dtype := dtype s; kv_quant_mode := kv_quant_mode s;
     page_size_padded := page_size_padded s; host_backed := host_backed s;
     full_sliding_window := sliding_window; full_chunk_size := attention_chunk_size;
     tq_slot_size := tq_slot_size s; cache_dtype_str := cache_dtype_str s; alignment := alignment s;
     compress_ratio := compress_ratio s; model_version := model_version s; shapes := shapes s;
     dtypes := dtypes s; mamba_type := mamba_type s; tp_replicated := tp_replicated s |}.

(** The class called with the fields listed in [FullAttentionSpec.merge]. *)
Definition plain_attention (c : spec_class) (host : bool) (slot : Z) (s : LayerSpec) : LayerSpec :=
  {| base := mkSpec c (block_size s) (sharded s); num_kv_heads := num_kv_heads s; head_size := head_size s;
     head_size_v := head_size_v s; dtype := dtype s; kv_quant_mode := kv_quant_mode s;
     page_size_padded := page_size_padded s; host_backed := host;
     full_sliding_window := None; full_chunk_size := None; tq_slot_size := slot;
     cache_dtype_str := None; alignment := None; compress_ratio := 1; model_version := None;
     shapes := []; dtypes := []; mamba_type := ""%string; tp_replicated := false |}.

(** [FullAttentionSpec.merge] and [SinkFullAttentionSpec.merge] into the class [c]. *)
Definition full_merge (c : spec_class) (first : LayerSpec) (specs : list LayerSpec) : outcome LayerSpec :=
  _ ← oassert (forallb (λ s, is_full_attention (cls s)) specs);
  _ ← oassert (negb (existsb (λ s, is_mla (cls s)) specs));
  sliding_window ← merge_window_sizes full_sliding_window specs;
  attention_chunk_size ← merge_window_sizes full_chunk_size specs;
  merged ← post_init (set_windows sliding_window attention_chunk_size (plain_attention c (host_backed first) 0 first));
  _ ← oassert (forallb (λ s, bool_decide (attention_fields s = attention_fields merged)) specs);
  _ ← oassert (bool_decide (sliding_window = None ∨ attention_chunk_size = None));
  Ret merged.

Definition set_tq_slot_size (n : Z) (s : LayerSpec) : LayerSpec :=
  {| base := base s; num_kv_heads := num_kv_heads s; head_size := head_size s;
     head_size_v := head_size_v s; dtype := dtype s; kv_quant_mode := kv_quant_mode s;
     page_size_padded := page_size_padded s; host_backed := host_backed s;
     full_sliding_window := full_sliding_window s; full_chunk_size := full_chunk_size s;
     tq_slot_size := n; cache_dtype_str := cache_dtype_str s; alignment := alignment s;
     compress_ratio := compress_ratio s; model_version := model_version s; shapes := shapes s;
     dtypes := dtypes s; mamba_type := mamba_type s; tp_replicated := tp_replicated s |}.

(** Only [TQFullAttentionSpec] has the attribute. *)
Fixpoint same_tq_slot_size (n : Z) (specs : list LayerSpec) : outcome unit :=
  match specs with
  | [] => Ret tt
  | s :: specs =>
      if decide (cls s = TQFullAttentionSpec) then _ ← oassert (bool_decide (tq_slot_size s = n)); same_tq_slot_size n specs
      else Raise AttributeError
  end.

Definition tq_merge (first : LayerSpec) (specs : list LayerSpec) : outcome LayerSpec :=
  merged ← full_merge TQFullAttentionSpec first specs;
  _ ← same_tq_slot_size (tq_slot_size first) specs;
  post_init (set_tq_slot_size (tq_slot_size first) merged).

(** The class called with the fields listed in [MLAAttentionSpec.merge] and
    [SlidingWindowMLASpec.merge]; the latter leaves the quantization mode to the codec. *)
Definition plain_mla (c : spec_class) (mode : KVQuantMode) (s : LayerSpec) : LayerSpec :=
  {| base := mkSpec c (block_size s) (sharded s); num_kv_heads := num_kv_heads s; head_size := head_size s;
     head_size_v := None; dtype := dtype s; kv_quant_mode := mode;
     page_size_padded := page_size_padded s; host_backed := false;
     full_sliding_window := None; full_chunk_size := None; tq_slot_size := 0;
     cache_dtype_str := cache_dtype_str s; alignment := None; compress_ratio := compress_ratio s;
     model_version := model_version s; shapes := []; dtypes := []; mamba_type := ""%string; tp_replicated := false |}.

Definition mla_merge (c : spec_class) (first : LayerSpec) (specs : list LayerSpec) : outcome LayerSpec :=
  _ ← oassert (forallb (λ s, is_mla (cls s)) specs);
  _ ← oassert (all_same sharded specs);
  _ ← oassert (all_same cache_dtype_str specs && all_same compress_ratio specs && all_same model_version specs);
  post_init (plain_mla c (kv_quant_mode first) first).

Definition swa_mla_merge (c : spec_class) (first : LayerSpec) (specs : list LayerSpec) : outcome LayerSpec :=
  _ ← oassert (forallb (λ s, is_swa_mla (cls s)) specs);
  _ ← oassert (all_same sharded specs);
  _ ← oassert (all_same cache_dtype_str specs && all_same compress_ratio specs && all_same model_version specs
               && all_same (λ s, sliding_window_of (cls s)) specs);
  post_init (plain_mla c NONE first).

Definition anchored_window (c : spec_class) : option Z :=
  match c with PrefixAnchoredSWASpec w => Some w | _ => None end.

(** [PrefixAnchoredSWASpec.merge] builds the merged spec from [FullAttentionSpec.merge],
    without its [host_backed]. *)
Definition anchored_merge (first : LayerSpec) (specs : list LayerSpec) : outcome LayerSpec :=
  _ ← oassert (forallb (λ s, bool_decide (is_Some (anchored_window (cls s)))) specs);
  _ ← oassert (all_same (λ s, anchored_window (cls s)) specs);
  merged ← full_merge FullAttentionSpec first specs;
  post_init (set_windows (full_sliding_window merged) (full_chunk_size merged) (plain_attention (cls first) false 0 merged)).

(** [specs[0].merge(specs)]; an empty list raises. *)
Definition merge (specs : list LayerSpec) : outcome LayerSpec :=
  match specs with
  | [] => Raise IndexError
  | first :: _ =>
      match cls first with
      | FullAttentionSpec | SinkFullAttentionSpec _ => full_merge (cls first) first specs
      | TQFullAttentionSpec => tq_merge first specs
      | MLAAttentionSpec | HiddenStateCacheSpec => mla_merge (cls first) first specs
      | PrefixAnchoredSWASpec _ => anchored_merge first specs
      | SlidingWindowMLASpec _ => swa_mla_merge (cls first) first specs
      | _ => _ ← oassert (forallb (λ s, bool_decide (s = first)) specs); Ret first
      end
  end.

(** ** Several layers of one type *)

(** The spec of a KV-cache group: that of its layers, or [UniformTypeKVCacheSpecs]. *)
Inductive GroupSpec : Type :=
  | OneSpec (s : LayerSpec)
  | UniformTypeKVCacheSpecs (uniform_block_size : Z) (uniform_sharded : bool) (kv_cache_specs : list (string * LayerSpec)).

#[export] Instance GroupSpec_eq_dec : EqDecision GroupSpec.
Proof. solve_decision. Defined.

(** The test of [is_uniform_type] for one member, given the first. *)
Definition same_type (one s : LayerSpec) : outcome bool :=
  match cls one with
  | SlidingWindowMLASpec w => Ret (is_swa_mla (cls s) && bool_decide (sliding_window_of (cls s) = Some w))
  | CircularBufferSpec => Ret (bool_decide (cls s = CircularBufferSpec))
  | FullAttentionSpec | TQFullAttentionSpec | MLAAttentionSpec | HiddenStateCacheSpec
  | PrefixAnchoredSWASpec _ | SinkFullAttentionSpec _ => Ret (is_full_attention (cls s))
  | CrossAttentionSpec => Ret (bool_decide (cls s = CrossAttentionSpec))
  | SlidingWindowSpec w | KpoolTailSpec w => Ret (bool_decide (sliding_window_of (cls s) = Some w))
  | ChunkedLocalAttentionSpec n => Ret (bool_decide (chunk_size_of (cls s) = Some n))
  | MambaSpec _ n => Ret (bool_decide (snd <$> mamba_fields (cls s) = Some n))
  | EncoderOnlyAttentionSpec => Raise NotImplementedError
  end.

Definition is_uniform_type (kv_cache_specs : list (string * LayerSpec)) (dcp_world_size : Z) : outcome bool :=
  match kv_cache_specs.*2 with
  | [] => Raise StopIteration
  | (one :: _) as specs =>
      if all_same (λ s, global_block_size (base s) dcp_world_size 1) specs
      then bs ← mapM (same_type one) specs; Ret (forallb id bs)
      else Ret false
  end.

Definition from_specs (kv_cache_specs : list (string * LayerSpec)) : outcome (option GroupSpec) :=
  b ← is_uniform_type kv_cache_specs 1;
  match (b : bool), kv_cache_specs.*2 with
  | true, (first :: _) as specs =>
      let representative := default first (head (filter (λ s, sharded s = true) specs)) in
      Ret (Some (UniformTypeKVCacheSpecs (block_size representative) (sharded representative) kv_cache_specs))
  | _, _ => Ret None
  end.

Definition sum_list (l : list Z) : Z := foldr Z.add 0 l.

Definition max_list (l : list Z) : outcome Z :=
  match l with [] => Raise ValueError | x :: l => Ret (foldl Z.max x l) end.

Definition group_page_size_bytes (g : GroupSpec) : outcome Z :=
  match g with
  | OneSpec s => page_size_bytes s
  | UniformTypeKVCacheSpecs _ _ specs => sum_list <$> mapM (λ x : string * LayerSpec, page_size_bytes x.2) specs
  end.

Definition pages_needed (c : VllmConfig) (s : LayerSpec) : outcome Z :=
  bytes ← max_memory_usage_bytes c s; page ← page_size_bytes s; Ret (cdiv bytes page).

Definition group_max_memory_usage_bytes (c : VllmConfig) (g : GroupSpec) : outcome Z :=
  match g with
  | OneSpec s => max_memory_usage_bytes c s
  | UniformTypeKVCacheSpecs _ _ specs =>
      pages ← mapM (λ x : string * LayerSpec, pages_needed c x.2) specs;
      max_num_pages ← max_list pages;
      page ← group_page_size_bytes g;
      Ret (max_num_pages * page)
  end.

Definition group_block_size (g : GroupSpec) : Z :=
  match g with OneSpec s => block_size s | UniformTypeKVCacheSpecs n _ _ => n end.
