(* ===== verification/Grouping.v ===== *)
(** * KV-cache groups

    [vllm/v1/core/kv_cache_utils.py]: how the layers of a model are split into groups that
    share a block table.  The specs of the layers are a dictionary in insertion order, a
    list of pairs here.

    The layouts of three model families (DeepSeek V4, GLM-5.3, Qwen4Exp) are not
    modelled: [get_kv_cache_groups] answers [None] for the specs that lead to them. *)

From S2P Require Import Prelude KVCacheSpec LayerSpec.
Local Open Scope Z_scope.

Definition spec_dict : Type := list (string * LayerSpec).

Record KVCacheGroupSpec : Type := mkGroup {
  layer_names : list string;
  group_spec : GroupSpec;
  is_eagle_group : bool;
}.

Definition lookup_spec (kv_cache_spec : spec_dict) (name : string) : outcome LayerSpec :=
  match list_find (λ x, x.1 = name) kv_cache_spec with
  | Some (_, (_, s)) => Ret s
  | None => Raise KeyError
  end.

Definition create_kv_cache_group_specs (kv_cache_spec : spec_dict) (grouped_layer_names : list (list string))
    : outcome (list KVCacheGroupSpec) :=
  mapM (λ names, specs ← mapM (lookup_spec kv_cache_spec) names; merged ← merge specs; Ret (mkGroup names (OneSpec merged) false))
    grouped_layer_names.

(** An [AssertionError] of the merge answers [False]; other exceptions pass. *)
Definition is_kv_cache_spec_uniform (kv_cache_spec : spec_dict) : outcome bool :=
  match kv_cache_spec with
  | [] => Ret true
  | _ =>
      match merge kv_cache_spec.*2 with
      | Ret _ => Ret true
      | Raise AssertionError => Ret false
      | Raise e => Raise e
      end
  end.

Definition get_uniform_page_size (specs : list GroupSpec) : outcome Z :=
  pages ← mapM group_page_size_bytes specs;
  match remove_dups pages with [p] => Ret p | _ => Raise AssertionError end.

Definition _get_kv_cache_groups_uniform_spec (kv_cache_specs : spec_dict) : outcome (list KVCacheGroupSpec) :=
  create_kv_cache_group_specs kv_cache_specs [kv_cache_specs.*1].

Definition _get_kv_cache_groups_uniform_type (names : list string) (g : GroupSpec) : list KVCacheGroupSpec :=
  [mkGroup names g false].

(** ** The size of the groups *)

(** [l[i::n]] for [0 ≤ i < n] *)
Definition stride {A} (n i : nat) (l : list A) : list A :=
  omap (λ j, l !! j) (filter (λ j, (j mod n = i)%nat) (seq 0 (length l))).

Definition gcd_list (l : list Z) : Z := foldr Z.gcd 0 l.
Definition lcm_all (l : list Z) : Z := foldr Z.lcm 1 l.

(** [range(hi, lo, -1)], from [hi] down to [lo + 1] *)
Definition range_down (hi lo : Z) : list Z := reverse (seqZ (lo + 1) (hi - lo)).

(** [max_num_layers < min_num_layers * 1.5] is exact for layer counts. *)
Definition _select_hybrid_kv_cache_group_size (layer_counts : list Z) : outcome Z :=
  min_num_layers ← (match layer_counts with [] => Raise ValueError | x :: l => Ret (foldl Z.min x l) end);
  max_num_layers ← max_list layer_counts;
  if 2 * max_num_layers <? 3 * min_num_layers then Ret max_num_layers
  else
    let repeated_counts := filter (λ c, 1 < c) layer_counts in
    let total_layers := sum_list layer_counts in
    let found :=
      if bool_decide (min_num_layers = 1) && negb (bool_decide (repeated_counts = [])) then
        let common_divisor := gcd_list repeated_counts in
        head (filter (λ candidate, common_divisor mod candidate = 0 ∧
                        (candidate * sum_list ((λ count, cdiv count candidate) <$> layer_counts) - total_layers) * 5
                        ≤ total_layers)
                (range_down common_divisor 1))
      else None in
    Ret (default min_num_layers found).

(** The layers of each spec, in the order in which the specs first occur. *)
Fixpoint add_layer (s : LayerSpec) (name : string) (d : list (LayerSpec * list string)) : list (LayerSpec * list string) :=
  match d with
  | [] => [(s, [name])]
  | (s', names) :: d => if decide (s' = s) then (s', names ++ [name]) :: d else (s', names) :: add_layer s name d
  end.

Definition same_type_layers (kv_cache_spec : spec_dict) : list (LayerSpec * list string) :=
  foldl (λ d x, add_layer x.2 x.1 d) [] kv_cache_spec.

Definition layer_count (x : LayerSpec * list string) : Z := zlen x.2.

Definition _prefer_padding_sliding_window_layers (same_type : list (LayerSpec * list string)) (group_size : Z) : Z :=
  let sliding_window_counts := layer_count <$> filter (λ x, is_sliding_window (cls x.1) = true) same_type in
  let other_counts := layer_count <$> filter (λ x, is_sliding_window (cls x.1) = false) same_type in
  match sliding_window_counts, other_counts with
  | sw :: sws, _ :: _ =>
      if (group_size <=? 1) || negb (bool_decide (foldl Z.min sw sws = group_size)) then group_size
      else
        let common_divisor := gcd_list other_counts in
        default group_size
          (head (filter (λ candidate, common_divisor mod candidate = 0 ∧
                           Forall (λ count, (- count) mod candidate ≤ count) sliding_window_counts)
                   (range_down common_divisor group_size)))
  | _, _ => group_size
  end.

(** [layers[i::num_groups] for i in range(num_groups)] *)
Definition split_layers (group_size : Z) (layers : list string) : list (list string) :=
  let num_groups := Z.to_nat (cdiv (zlen layers) group_size) in
  (λ i, stride num_groups i layers) <$> seq 0 num_groups.

Definition chosen_group_size (same_type : list (LayerSpec * list string)) : outcome Z :=
  group_size ← _select_hybrid_kv_cache_group_size (layer_count <$> same_type);
  Ret (_prefer_padding_sliding_window_layers same_type group_size).

Definition _get_kv_cache_groups_uniform_page_size (kv_cache_spec : spec_dict) : outcome (list KVCacheGroupSpec) :=
  let same_type := same_type_layers kv_cache_spec in
  group_size ← chosen_group_size same_type;
  create_kv_cache_group_specs kv_cache_spec (same_type ≫= λ x : LayerSpec * list string, split_layers group_size x.2).
