(* ===== verification/PageSize.v ===== *)
(** * One page size for all layers

    [vllm/v1/core/kv_cache_utils.py]: the page sizes of the layers are made equal, by
    larger blocks where they divide and by padding where they do not, after the draft
    layers of a V100 hybrid model have been given smaller blocks; the conversion of all
    layers to one type when the hybrid manager is disabled; and [get_kv_cache_groups],
    which chooses how the layers are grouped. *)

From S2P Require Import Prelude KVCacheSpec LayerSpec Grouping.
Local Open Scope Z_scope.

(** [dict(specs)[name] = s] for a name that is a key *)
Definition assign (name : string) (s : LayerSpec) (d : spec_dict) : spec_dict :=
  (λ x : string * LayerSpec, if decide (x.1 = name) then (x.1, s) else x) <$> d.

Definition page_sizes (specs : list LayerSpec) : outcome (list Z) := mapM page_size_bytes specs.

(** ** Smaller blocks for draft layers *)

(** The divisors of [grid], largest first; [range(1, isqrt(grid) + 1)] with each
    cofactor gives the same set. *)
Definition divisors_down (grid : Z) : list Z := filter (λ d, grid mod d = 0) (range_down grid 0).

(** The loop over the divisors: the first block size that fits decides. *)
Fixpoint compact_loop (spec : LayerSpec) (target_page : Z) (sizes : list Z) : outcome (option LayerSpec) :=
  match sizes with
  | [] => Ret None
  | n :: sizes =>
      if decide (block_size spec ≤ n ∨ n mod 16 ≠ 0) then compact_loop spec target_page sizes
      else
        compact ← replace_block_size n spec;
        page ← page_size_bytes compact;
        if target_page <? page then compact_loop spec target_page sizes
        else if target_page <=? page * 2 then Some <$> replace_padding (Some target_page) compact
        else Ret None
  end.

Definition exact_sliding_window (c : spec_class) : bool :=
  match c with SlidingWindowSpec _ => true | _ => false end.

(** One spec of the first loop. *)
Definition compact_spec (specs : spec_dict) (target_page : Z) (spec : LayerSpec) : outcome (option LayerSpec) :=
  if exact_sliding_window (cls spec) && bool_decide (page_size_padded spec = None) then
    page ← page_size_bytes spec;
    if page <=? target_page then Ret None
    else if negb (page mod target_page =? 0) then
      compact_loop spec target_page (divisors_down (gcd_list ((λ x : string * LayerSpec, block_size x.2) <$> specs)))
    else
      let ratio := page / target_page in
      if negb (block_size spec mod (16 * ratio) =? 0) then Ret None
      else Some <$> replace_block_size (block_size spec / ratio) spec
  else Ret None.

(** One spec of the last loop. *)
Definition round_spec (common_page : Z) (spec : LayerSpec) : outcome LayerSpec :=
  if is_attention (cls spec) then
    page ← page_size_bytes spec;
    replace_block_size (common_page / (page / block_size spec)) spec
  else replace_padding (Some common_page) spec.

Definition on_values (f : LayerSpec → outcome LayerSpec) (d : spec_dict) : outcome spec_dict :=
  mapM (λ x : string * LayerSpec, s ← f x.2; Ret (x.1, s)) d.

Definition roundable (spec : LayerSpec) : bool :=
  match cls spec with
  | FullAttentionSpec | SlidingWindowSpec _ => bool_decide (page_size_padded spec = None)
  | MambaSpec _ _ => true
  | _ => false
  end.

Definition _compact_sm70_hybrid_sliding_window_pages (specs : spec_dict) (c : VllmConfig) : outcome spec_dict :=
  if negb (flash_attn_v100 c) || negb (existsb (λ x : string * LayerSpec, is_mamba (cls x.2)) specs) then Ret specs
  else
    others ← page_sizes (filter (λ s, is_sliding_window (cls s) = false) specs.*2);
    target_page ← max_list others;
    result ← on_values (λ s, o ← compact_spec specs target_page s; Ret (default s o)) specs;
    pages ← page_sizes result.*2;
    widest ← max_list pages;
    if widest <=? target_page then Ret result
    else if negb (forallb (λ x : string * LayerSpec, roundable x.2) result) then Ret result
    else
      units ← mapM (λ s, page ← page_size_bytes s; Ret (16 * page / block_size s))
                   (filter (λ s, is_attention (cls s) = true) result.*2);
      let alignment := lcm_all units in
      let common_page := cdiv target_page alignment * alignment in
      if widest <=? common_page then Ret result else on_values (round_spec common_page) result.

(** ** Equal pages *)

Definition unify_spec (c : VllmConfig) (max_page_size : Z) (spec : LayerSpec) : outcome LayerSpec :=
  page ← page_size_bytes spec;
  if page =? max_page_size then Ret spec
  else if negb (max_page_size mod page =? 0) then
    padded ← replace_padding (Some max_page_size) spec;
    padded_page ← page_size_bytes padded;
    if padded_page =? max_page_size then Ret padded else Raise NotImplementedError
  else
    let ratio := max_page_size / page in
    let new_block_size :=
      if is_mamba (cls spec) && user_specified_mamba_block_size c then block_size spec else block_size spec * ratio in
    new_spec ← copy_with_new_block_size new_block_size spec;
    new_spec ← (if is_mamba (cls spec) || negb (bool_decide (page_size_padded spec = None))
                then replace_both new_block_size (Some max_page_size) spec else Ret new_spec);
    new_page ← page_size_bytes new_spec;
    _ ← oassert (new_page =? max_page_size);
    Ret new_spec.

Definition unify_kv_cache_spec_page_size (kv_cache_spec : spec_dict) (c : VllmConfig) : outcome spec_dict :=
  kv_cache_spec ← _compact_sm70_hybrid_sliding_window_pages kv_cache_spec c;
  pages ← page_sizes kv_cache_spec.*2;
  if decide (length (remove_dups pages) ≤ 1)%nat then Ret kv_cache_spec
  else
    max_page_size ← max_list pages;
    on_values (unify_spec c max_page_size) kv_cache_spec.

(** ** One type for all layers *)

Definition uniform_or_one_type (kv_cache_spec : spec_dict) : outcome bool :=
  b ← is_kv_cache_spec_uniform kv_cache_spec;
  if (b : bool) then Ret true else is_uniform_type kv_cache_spec 1.

(** [MLAAttentionSpec(...)] with the fields of a sliding-window MLA spec *)
Definition swa_mla_to_full (uniform_block_size : option Z) (s : LayerSpec) : outcome LayerSpec :=
  post_init
    {| base := mkSpec MLAAttentionSpec (default (block_size s) uniform_block_size) true;
       num_kv_heads := num_kv_heads s; head_size := head_size s; head_size_v := None; dtype := dtype s;
       kv_quant_mode := NONE; page_size_padded := page_size_padded s; host_backed := false;
       full_sliding_window := None; full_chunk_size := None; tq_slot_size := 0;
       cache_dtype_str := cache_dtype_str s; alignment := alignment s; compress_ratio := compress_ratio s;
       model_version := model_version s; shapes := []; dtypes := []; mamba_type := ""%string; tp_replicated := false |}.

(** [FullAttentionSpec(...)] with the fields of a sliding-window or chunked spec; the
    latter passes no value head size and no quantization mode. *)
Definition to_full (window chunk : option Z) (v : option Z) (mode : KVQuantMode) (s : LayerSpec) : outcome LayerSpec :=
  post_init
    {| base := mkSpec FullAttentionSpec (block_size s) true;
       num_kv_heads := num_kv_heads s; head_size := head_size s; head_size_v := v; dtype := dtype s;
       kv_quant_mode := mode; page_size_padded := page_size_padded s; host_backed := false;
       full_sliding_window := window; full_chunk_size := chunk; tq_slot_size := 0;
       cache_dtype_str := None; alignment := None; compress_ratio := 1;
       model_version := None; shapes := []; dtypes := []; mamba_type := ""%string; tp_replicated := false |}.

Definition convert_spec (uniform_block_size : option Z) (s : LayerSpec) : outcome LayerSpec :=
  match cls s with
  | SlidingWindowMLASpec _ => swa_mla_to_full uniform_block_size s
  | SlidingWindowSpec w | KpoolTailSpec w => to_full (Some w) None (head_size_v s) (kv_quant_mode s) s
  | ChunkedLocalAttentionSpec n => to_full None (Some n) None NONE s
  | _ => Ret s
  end.

(** The dictionary is changed in place: the result is its new contents. *)
Definition unify_hybrid_kv_cache_specs (kv_cache_spec : spec_dict) : outcome spec_dict :=
  one ← uniform_or_one_type kv_cache_spec;
  if (one : bool) then Ret kv_cache_spec
  else
    let specs := kv_cache_spec.*2 in
    let has_full_attention := existsb (λ s, is_full_attention (cls s)) specs in
    let has_sliding_window := existsb (λ s, is_sliding_window (cls s)) specs in
    let has_chunked_local_attention := existsb (λ s, is_chunked (cls s)) specs in
    let has_swa_mla := existsb (λ s, is_swa_mla (cls s)) specs in
    _ ← oassert (negb has_swa_mla || has_full_attention);
    let uniform_block_size :=
      if has_swa_mla then block_size <$> head (filter (λ s, is_full_attention (cls s) = true) specs) else None in
    kv_cache_spec ← (if has_full_attention && (has_sliding_window || has_chunked_local_attention)
                     then on_values (convert_spec uniform_block_size) kv_cache_spec else Ret kv_cache_spec);
    one ← uniform_or_one_type kv_cache_spec;
    if (one : bool) then Ret kv_cache_spec else Raise ValueError.

(** ** The groups of a model *)

(** The specs from which a layout of one of the three model families may be chosen:
    sliding-window MLA layers (DeepSeek V4), circular buffers (Qwen4Exp), or recurrent
    layers beside MLA layers of which some are compressed or with other attention layers
    for a draft model (GLM-5.3).  Without these,
    [group_and_unify_kv_cache_specs], [_get_kv_cache_groups_glm5_next] and
    [_get_kv_cache_groups_csa_linear] return [None]. *)
Definition family_layout (kv_cache_spec : spec_dict) : bool :=
  let specs := kv_cache_spec.*2 in
  existsb (λ s, is_swa_mla (cls s)) specs
  || existsb (λ s, bool_decide (cls s = CircularBufferSpec)) specs
  || (existsb (λ s, is_mamba (cls s)) specs
      && existsb (λ s, bool_decide (cls s = MLAAttentionSpec)) specs
      && existsb (λ s, (bool_decide (cls s = MLAAttentionSpec) && (1 <? compress_ratio s))
                       || bool_decide (cls s = FullAttentionSpec) || exact_sliding_window (cls s)) specs).

Definition is_hidden (s : LayerSpec) : bool := bool_decide (cls s = HiddenStateCacheSpec).

Definition hidden_specs (d : spec_dict) : spec_dict := filter (λ x : string * LayerSpec, is_hidden x.2 = true) d.
Definition filtered_specs (d : spec_dict) : spec_dict := filter (λ x : string * LayerSpec, is_hidden x.2 = false) d.

(** The group of one hidden-state layer. *)
Definition hidden_group (common_page : Z) (x : string * LayerSpec) : outcome KVCacheGroupSpec :=
  let per_token := num_kv_heads x.2 * head_size x.2 * get_dtype_size (dtype x.2) in
  aligned ← replace_both (Z.max (common_page / per_token) 1) (Some common_page) x.2;
  Ret (mkGroup [x.1] (OneSpec aligned) false).

(** The general layout: the specs with their pages made equal, grouped by spec. *)
Definition general_groups (c : VllmConfig) (kv_cache_spec : spec_dict) : outcome (list KVCacheGroupSpec) :=
  filtered_spec ← unify_kv_cache_spec_page_size (filtered_specs kv_cache_spec) c;
  groups ← _get_kv_cache_groups_uniform_page_size filtered_spec;
  match hidden_specs kv_cache_spec with
  | [] => Ret groups
  | _ =>
      common_page ← get_uniform_page_size (group_spec <$> groups);
      hidden ← mapM (hidden_group common_page) (hidden_specs kv_cache_spec);
      Ret (groups ++ hidden)
  end.

(** [get_kv_cache_groups]; with the groups, the specs as [unify_hybrid_kv_cache_specs]
    leaves them. *)
Definition get_kv_cache_groups (c : VllmConfig) (kv_cache_spec : spec_dict)
    : outcome (option (list KVCacheGroupSpec) * spec_dict) :=
  kv_cache_spec ← (if disable_hybrid_kv_cache_manager c then unify_hybrid_kv_cache_specs kv_cache_spec else Ret kv_cache_spec);
  if decide (kv_cache_spec = []) then Ret (Some [], kv_cache_spec)
  else
    uniform ← is_kv_cache_spec_uniform kv_cache_spec;
    if (uniform : bool) then
      groups ← _get_kv_cache_groups_uniform_spec kv_cache_spec; Ret (Some groups, kv_cache_spec)
    else
      uniform_spec ← from_specs kv_cache_spec;
      match uniform_spec with
      | Some g => Ret (Some (_get_kv_cache_groups_uniform_type kv_cache_spec.*1 g), kv_cache_spec)
      | None =>
          if family_layout kv_cache_spec then Ret (None, kv_cache_spec)
          else groups ← general_groups c kv_cache_spec; Ret (Some groups, kv_cache_spec)
      end.
