(* ===== verification/Sizing.v ===== *)
(** * Sizing of the KV cache

    [vllm/v1/core/kv_cache_utils.py]: how many blocks the KV cache of each worker has and
    which tensors it allocates, the memory a request of maximal length needs, the longest
    model length that fits, and [get_kv_cache_configs], which plans all workers.

    A function that several layouts of groups share answers [None] for the layouts of the
    model families Grouping.v leaves out. *)

From S2P Require Import Prelude KVCacheSpec LayerSpec Grouping PageSize.
Local Open Scope Z_scope.

Record KVCacheTensor : Type := mkTensor {
  tensor_size : Z;
  shared_by : list string;
}.

Record KVCacheConfig : Type := mkConfig {
  num_blocks : Z;
  kv_cache_tensors : list KVCacheTensor;
  kv_cache_groups : list KVCacheGroupSpec;
}.

Definition is_uniform_group (g : KVCacheGroupSpec) : bool :=
  match group_spec g with UniformTypeKVCacheSpecs _ _ _ => true | OneSpec _ => false end.

(** ** Blocks and tensors *)

Definition may_override_num_blocks (c : VllmConfig) (n : Z) : Z := default n (num_gpu_blocks_override c).

Definition get_num_blocks (c : VllmConfig) (num_layers available_memory page_size : Z) : Z :=
  may_override_num_blocks c (Z.max (available_memory / page_size / num_layers) 0).

Definition group_size (groups : list KVCacheGroupSpec) : outcome Z :=
  max_list ((λ g, zlen (layer_names g)) <$> groups).

Definition uniform_page_size (groups : list KVCacheGroupSpec) : outcome Z :=
  get_uniform_page_size (group_spec <$> groups).

(** The layers that share the [i]-th tensor: the [i]-th of every group that has one. *)
Definition shared_layers (groups : list KVCacheGroupSpec) (i : nat) : list string :=
  omap (λ g, layer_names g !! i) groups.

(** The general case of [get_kv_cache_config_from_groups]. *)
Definition general_config (c : VllmConfig) (groups : list KVCacheGroupSpec) (available_memory : Z)
    : outcome (Z * list KVCacheTensor) :=
  size ← group_size groups;
  page ← uniform_page_size groups;
  _ ← oassert (0 <? size);
  let n := get_num_blocks c size available_memory page in
  Ret (n, (λ i, mkTensor (page * n) (shared_layers groups i)) <$> seq 0 (Z.to_nat size)).

(** One group of layers of one type: a tensor per layer. *)
Definition uniform_type_config (c : VllmConfig) (names : list string) (g : GroupSpec) (specs : spec_dict)
    (available_memory : Z) : outcome (Z * list KVCacheTensor) :=
  page ← group_page_size_bytes g;
  let n := may_override_num_blocks c (available_memory / page) in
  tensors ← mapM (λ name, s ← lookup_spec specs name; page ← page_size_bytes s; Ret (mkTensor (page * n) [name])) names;
  Ret (n, tensors).

Definition get_kv_cache_config_from_groups (c : VllmConfig) (groups : list KVCacheGroupSpec) (available_memory : Z)
    : outcome (option KVCacheConfig) :=
  let finish r := '(n, tensors) ← r; Ret (Some (mkConfig n tensors groups)) in
  match groups with
  | [] => Ret (Some (mkConfig 1 [] []))
  | [g] =>
      match group_spec g with
      | UniformTypeKVCacheSpecs _ _ specs => finish (uniform_type_config c (layer_names g) (group_spec g) specs available_memory)
      | OneSpec _ => finish (general_config c groups available_memory)
      end
  | _ => if existsb is_uniform_group groups then Ret None else finish (general_config c groups available_memory)
  end.

(** ** Memory of a request *)

Definition _pool_bytes_per_block (groups : list KVCacheGroupSpec) : outcome (option Z) :=
  let general := size ← group_size groups; page ← uniform_page_size groups; Ret (Some (page * size)) in
  match groups with
  | [g] => if is_uniform_group g then Some <$> group_page_size_bytes (group_spec g) else general
  | _ => if existsb is_uniform_group groups then Ret None else general
  end.

Definition general_max_memory (c : VllmConfig) (groups : list KVCacheGroupSpec) : outcome Z :=
  size ← group_size groups;
  page ← uniform_page_size groups;
  blocks ← mapM (λ g, bytes ← group_max_memory_usage_bytes c (group_spec g); Ret (cdiv bytes page)) groups;
  Ret (size * page * sum_list blocks).

Definition _max_memory_usage_bytes_from_groups (c : VllmConfig) (groups : list KVCacheGroupSpec) : outcome (option Z) :=
  match groups with
  | [] => Ret (Some 0)
  | [g] =>
      match group_spec g with
      | UniformTypeKVCacheSpecs _ _ specs =>
          bytes ← mapM (λ x : string * LayerSpec, max_memory_usage_bytes c x.2) specs; Ret (Some (sum_list bytes))
      | OneSpec _ => Some <$> general_max_memory c groups
      end
  | _ => if existsb is_uniform_group groups then Ret None else Some <$> general_max_memory c groups
  end.

(** The needs of one request and of the null block. *)
Definition _kv_cache_memory_needed (c : VllmConfig) (groups : list KVCacheGroupSpec) : outcome (option Z) :=
  match groups with
  | [] => Ret (Some 0)
  | _ =>
      needed ← _max_memory_usage_bytes_from_groups c groups;
      block ← _pool_bytes_per_block groups;
      Ret (n ← needed; b ← block; Some (n + b))
  end.

(** [sum(spec.max_memory_usage_bytes(vllm_config))] *)
Definition max_memory_usage_of_specs (c : VllmConfig) (kv_cache_specs : spec_dict) : outcome Z :=
  sum_list <$> mapM (λ x : string * LayerSpec, max_memory_usage_bytes c x.2) kv_cache_specs.

(** ** The longest model length

    [fits] sets the maximal length in the configuration and computes the memory; the
    [finally] clause sets it back.  The interval halves, so that its length is enough
    fuel. *)
Definition finally {S A} (m : M S A) (last : M S unit) : M S A := λ s,
  let '(o, s) := m s in
  match last s with (Ret _, s) => (o, s) | (Raise e, s) => (Raise e, s) end.

Definition fits (needed : VllmConfig → outcome Z) (available_memory model_len : Z) : M VllmConfig bool :=
  modify (with_max_model_len model_len);;
  c ← get;
  bytes ← of_outcome (needed c);
  mret (bytes <=? available_memory).

Fixpoint search_loop (fuel : nat) (fit : Z → M VllmConfig bool) (left right result : Z) : M VllmConfig Z :=
  if left <=? right then
    match fuel with
    | O => raise OutOfFuel
    | S fuel =>
        let mid := (left + right) / 2 in
        ok ← fit mid;
        if (ok : bool) then search_loop fuel fit (mid + 1) right mid
        else search_loop fuel fit left (mid - 1) result
    end
  else mret result.

Definition longest_fit (needed : VllmConfig → outcome Z) (available_memory : Z) : M VllmConfig Z :=
  c ← get;
  let original := max_model_len c in
  finally
    (ok ← fits needed available_memory 1;
     if negb ok then mret 0
     else search_loop (Z.to_nat original) (fits needed available_memory) 1 original 1)
    (modify (with_max_model_len original)).

Definition estimate_max_model_len (kv_cache_spec : spec_dict) (available_memory : Z) : M VllmConfig Z :=
  longest_fit (λ c, max_memory_usage_of_specs c kv_cache_spec) available_memory.

(** A layout that is left out has no memory need: it raises [NotImplementedError] here,
    and nothing is claimed of it. *)
Definition needed_bytes (groups : list KVCacheGroupSpec) (c : VllmConfig) : outcome Z :=
  o ← _kv_cache_memory_needed c groups;
  match o with Some n => Ret n | None => Raise NotImplementedError end.

Definition _estimate_max_model_len_from_groups (groups : list KVCacheGroupSpec) (available_memory : Z) : M VllmConfig Z :=
  longest_fit (needed_bytes groups) available_memory.

(** The estimate is only part of the message of the error; but computing it may raise. *)
Definition _check_enough_kv_cache_memory (available_memory : Z) (get_needed_memory : VllmConfig → outcome Z)
    (estimate : Z → M VllmConfig Z) : M VllmConfig unit :=
  if available_memory <=? 0 then raise ValueError
  else
    c ← get;
    needed_memory ← of_outcome (get_needed_memory c);
    if available_memory <? needed_memory then estimate available_memory;; raise ValueError else mret tt.

Definition check_enough_kv_cache_memory (kv_cache_spec : spec_dict) (available_memory : Z) : M VllmConfig unit :=
  match kv_cache_spec with
  | [] => mret tt
  | _ => _check_enough_kv_cache_memory available_memory (λ c, max_memory_usage_of_specs c kv_cache_spec)
           (estimate_max_model_len kv_cache_spec)
  end.

(** ** All workers *)

(** [_project_kv_cache_groups_to_worker] *)
Definition project_group (worker_spec : spec_dict) (g : KVCacheGroupSpec) : outcome KVCacheGroupSpec :=
  let worker_layer_names := filter (λ name, name ∈ worker_spec.*1) (layer_names g) in
  spec ← (match group_spec g with
          | UniformTypeKVCacheSpecs n d specs =>
              if decide (worker_layer_names = []) then Ret (group_spec g)
              else
                own ← mapM (λ name, s ← lookup_spec specs name; Ret (name, s)) worker_layer_names;
                Ret (UniformTypeKVCacheSpecs n d own)
          | OneSpec _ => Ret (group_spec g)
          end);
  Ret (mkGroup worker_layer_names spec (is_eagle_group g && negb (bool_decide (worker_layer_names = [])))).

Definition _project_kv_cache_groups_to_worker (groups : list KVCacheGroupSpec) (worker_spec : spec_dict)
    : outcome (list KVCacheGroupSpec) := mapM (project_group worker_spec) groups.

(** The loop over the workers: the least of their lengths. *)
Fixpoint auto_fit_loop (workers : list (list KVCacheGroupSpec * Z)) (auto_fit_max : Z) : M VllmConfig Z :=
  match workers with
  | [] => mret auto_fit_max
  | ([], _) :: workers => auto_fit_loop workers auto_fit_max
  | (groups, avail_mem) :: workers =>
      worker_max ← _estimate_max_model_len_from_groups groups avail_mem;
      auto_fit_loop workers (Z.min auto_fit_max worker_max)
  end.

Definition _auto_fit_max_model_len (workers : list (list KVCacheGroupSpec * Z)) : M VllmConfig unit :=
  c ← get;
  if forallb (λ w : list KVCacheGroupSpec * Z, bool_decide (w.1 = [])) workers then mret tt
  else
    auto_fit_max ← auto_fit_loop workers (max_model_len c);
    if auto_fit_max <=? 0 then raise ValueError
    else when (auto_fit_max <? max_model_len c) (modify (with_max_model_len auto_fit_max)).

(** The specs of all workers in one dictionary. *)
Definition merge_worker (merged worker : spec_dict) : outcome spec_dict :=
  foldl (λ (acc : outcome spec_dict) (x : string * LayerSpec),
           merged ← acc;
           match lookup_spec merged x.1 with
           | Ret s => _ ← oassert (bool_decide (s = x.2)); Ret merged
           | Raise _ => Ret (merged ++ [x])
           end) (Ret merged) worker.

Definition merge_workers (workers : list spec_dict) : outcome spec_dict :=
  foldl (λ (acc : outcome spec_dict) w, merged ← acc; merge_worker merged w) (Ret []) workers.

(** The memory a worker plans with: that of the overridden number of blocks. *)
Definition effective_memory (c : VllmConfig) (groups : list KVCacheGroupSpec) (avail_mem : Z) : outcome (option Z) :=
  match num_gpu_blocks_override c, groups with
  | Some n, _ :: _ => (λ b : option Z, Z.mul n <$> b) <$> _pool_bytes_per_block groups
  | _, _ => Ret (Some avail_mem)
  end.

Definition check_worker (w : list KVCacheGroupSpec * Z) : M VllmConfig unit :=
  match w.1 with
  | [] => mret tt
  | groups => _check_enough_kv_cache_memory w.2 (needed_bytes groups) (_estimate_max_model_len_from_groups groups)
  end.

Definition worker_config (c : VllmConfig) (groups : list KVCacheGroupSpec) (worker_spec : spec_dict) (avail_mem : Z)
    : outcome (option KVCacheConfig) :=
  _ ← oassert (bool_decide (sum_list ((λ g, zlen (layer_names g)) <$> groups) = zlen worker_spec));
  get_kv_cache_config_from_groups c groups avail_mem.

(** The blocks of a request of maximal length, of which [_report_kv_cache_config] logs the
    quotient. *)
Definition report_kv_cache_config (c : VllmConfig) (cfg : KVCacheConfig) : outcome unit :=
  demand ← mapM (λ g, bytes ← group_max_memory_usage_bytes c (group_spec g); page ← group_page_size_bytes (group_spec g);
                      Ret (cdiv bytes page)) (kv_cache_groups cfg);
  if decide (sum_list demand = 0) then Raise ZeroDivisionError else Ret tt.

Definition shrink_tensor (old_blocks min_num_blocks : Z) (t : KVCacheTensor) : outcome KVCacheTensor :=
  if decide (old_blocks = 0) then Raise ZeroDivisionError
  else
    _ ← oassert (tensor_size t mod old_blocks =? 0);
    Ret (mkTensor (tensor_size t / old_blocks * min_num_blocks) (shared_by t)).

Definition shrink_config (c : VllmConfig) (min_num_blocks : Z) (cfg : KVCacheConfig) : outcome KVCacheConfig :=
  tensors ← mapM (shrink_tensor (num_blocks cfg) min_num_blocks) (kv_cache_tensors cfg);
  let cfg := mkConfig min_num_blocks tensors (kv_cache_groups cfg) in
  _ ← (match kv_cache_groups cfg with [] => Ret tt | _ => report_kv_cache_config c cfg end);
  Ret cfg.

(** A layout that is left out makes the whole answer [None]. *)
Definition all_known {A} (l : list (option A)) : option (list A) := mapM id l.

Definition get_kv_cache_configs (kv_cache_specs : list spec_dict) (available_memory : list Z)
    : M VllmConfig (option (list KVCacheConfig)) :=
  c ← get;
  merged ← of_outcome (merge_workers kv_cache_specs);
  found ← of_outcome (get_kv_cache_groups c merged);
  match found.1 with
  | None => mret None
  | Some groups =>
      projected ← of_outcome (mapM (_project_kv_cache_groups_to_worker groups) kv_cache_specs);
      memory ← of_outcome (mapM (λ w : list KVCacheGroupSpec * Z, effective_memory c w.1 w.2) (zip projected available_memory));
      match all_known memory with
      | None => mret None
      | Some memory =>
          when (original_max_model_len c =? -1) (_auto_fit_max_model_len (zip projected memory));;
          foreach (zip projected memory) check_worker;;
          c ← get;
          configs ← of_outcome (mapM (λ w : list KVCacheGroupSpec * (spec_dict * Z), worker_config c w.1 w.2.1 w.2.2)
                                  (zip projected (zip kv_cache_specs memory)));
          match all_known configs with
          | None => mret None
          | Some configs =>
              fewest ← of_outcome (match num_blocks <$> configs with [] => Raise ValueError | n :: ns => Ret (foldl Z.min n ns) end);
              configs ← of_outcome (mapM (shrink_config c fewest) configs);
              mret (Some configs)
          end
      end
  end.

(** [generate_scheduler_kv_cache_config]: the configuration of the first worker, with one
    spec per group. *)
Definition representative (g : GroupSpec) : outcome GroupSpec :=
  match g with
  | OneSpec _ => Ret g
  | UniformTypeKVCacheSpecs n d specs =>
      match filter (λ s, block_size s = n ∧ sharded s = d) specs.*2 with
      | s :: _ => Ret (OneSpec s)
      | [] => Raise StopIteration
      end
  end.

Definition generate_scheduler_kv_cache_config (configs : list KVCacheConfig) : outcome KVCacheConfig :=
  match configs with
  | [] => Raise IndexError
  | cfg :: _ =>
      _ ← oassert (forallb (λ x, num_blocks x =? num_blocks cfg) configs);
      groups ← mapM (λ g, s ← representative (group_spec g); Ret (mkGroup (layer_names g) s (is_eagle_group g)))
                 (kv_cache_groups cfg);
      Ret (mkConfig (num_blocks cfg) (kv_cache_tensors cfg) groups)
  end.

(** ** The block sizes of the scheduler *)

Definition group_global_block_size (dcp : Z) (g : GroupSpec) : Z :=
  match g with
  | OneSpec s => global_block_size (base s) dcp 1
  | UniformTypeKVCacheSpecs n d _ => if d then n * dcp * 1 else n
  end.

Definition group_sharded (g : GroupSpec) : bool :=
  match g with OneSpec s => sharded s | UniformTypeKVCacheSpecs _ d _ => d end.

Definition members (g : GroupSpec) : list LayerSpec :=
  match g with OneSpec s => [s] | UniformTypeKVCacheSpecs _ _ specs => specs.*2 end.

Definition resolve_kv_cache_block_sizes (c : VllmConfig) (groups : list KVCacheGroupSpec) : outcome (Z * Z) :=
  let dcp := decode_context_parallel_size c in
  let pcp := prefill_context_parallel_size c in
  match groups with
  | [] => let bs := cfg_block_size c * dcp * pcp in Ret (bs, bs)
  | [g] => let bs := if group_sharded (group_spec g) then cfg_block_size c * dcp * pcp else cfg_block_size c * 1 * 1 in Ret (bs, bs)
  | _ =>
      if negb (bool_decide (pcp = 1))
         || (negb (bool_decide (dcp = 1))
             && existsb (λ g, existsb (λ s, sharded s && negb (is_full_attention (cls s))) (members (group_spec g))) groups)
      then Raise ValueError
      else
        let group_block_sizes := (λ g, group_global_block_size dcp (group_spec g)) <$> groups in
        let scheduler_block_size := lcm_all group_block_sizes in
        if negb (enable_prefix_caching c || has_kv_transfer c) then Ret (scheduler_block_size, scheduler_block_size)
        else if existsb (λ g, match group_spec g with
                              | OneSpec s => match mamba_fields (cls s) with
                                             | Some (mode, _) => negb (bool_decide (mode = "align"%string))
                                             | None => false
                                             end
                              | UniformTypeKVCacheSpecs _ _ _ => false
                              end) groups
        then Ret (scheduler_block_size, scheduler_block_size)
        else
          let hash_block_size := default (gcd_list group_block_sizes) (cfg_hash_block_size c) in
          if existsb (λ bs, negb (bs mod hash_block_size =? 0)) group_block_sizes then Raise ValueError
          else Ret (scheduler_block_size, hash_block_size)
  end.
