(* ===== verification/GroupingSpec.v ===== *)
(** * The groups partition the layers

    The general grouping puts every layer in exactly one group, with layers of the same
    spec only, and no group is larger than the chosen size. *)

From S2P Require Import Prelude KVCacheSpec LayerSpec Grouping.
Local Open Scope Z_scope.

(** ** Outcomes *)

Lemma obind_ret {A B} (f : A → outcome B) (o : outcome A) b :
  o ≫= f = Ret b ↔ ∃ a, o = Ret a ∧ f a = Ret b.
Proof. destruct o as [a|e]; split; [by exists a|by intros (a' & [= <-] & ?)|done|by intros (? & ? & _)]. Qed.

Lemma omapM_ret {A B} (f : A → outcome B) l ks :
  mapM f l = Ret ks ↔ Forall2 (λ x k, f x = Ret k) l ks.
Proof.
  revert ks. induction l as [|x l IH]; intros ks; simpl.
  - split; [intros [= <-]; constructor|intros H; by inversion H].
  - split.
    + intros (k & Hk & (ks' & Hks & [= <-])%obind_ret)%obind_ret. constructor; [done|by apply IH].
    + intros H. inversion H as [|? k ? ks' Hk Hks]; subst. rewrite Hk. cbn. apply IH in Hks. by rewrite Hks.
Qed.

Lemma ofmap_ret {A B} (f : A → B) (o : outcome A) b : f <$> o = Ret b ↔ ∃ a, o = Ret a ∧ b = f a.
Proof. destruct o as [a|e]; cbn; naive_solver. Qed.

Lemma oassert_ret b : oassert b = Ret tt ↔ b = true.
Proof. by destruct b. Qed.

Lemma Forall2_in_r {A B} (R : A → B → Prop) l ks k : Forall2 R l ks → k ∈ ks → ∃ x, x ∈ l ∧ R x k.
Proof. induction 1 as [|x k' l ks HR _ IH]; set_solver. Qed.

Lemma Forall2_in_l {A B} (R : A → B → Prop) l ks x : Forall2 R l ks → x ∈ l → ∃ k, k ∈ ks ∧ R x k.
Proof. induction 1 as [|x' k l ks HR _ IH]; set_solver. Qed.

(** ** Classes of a list *)

Lemma concat_insert {A} (F G : nat → list A) x k n :
  (k < n)%nat → (∀ i, G i = if decide (i = k) then x :: F i else F i) →
  concat (G <$> seq 0 n) ≡ₚ x :: concat (F <$> seq 0 n).
Proof.
  intros Hk HG.
  assert (Hs : seq 0 n = seq 0 k ++ k :: seq (S k) (n - S k)).
  { replace n with (k + S (n - S k))%nat at 1 by lia. by rewrite seq_app. }
  rewrite Hs, !fmap_app, !concat_app. csimpl. rewrite HG, decide_True by done.
  assert (Hsame : ∀ a m, (k < a ∨ a + m <= k)%nat → G <$> seq a m = F <$> seq a m).
  { intros a m Ha. apply list_fmap_ext. intros i j [-> Hlt]%lookup_seq. rewrite HG, decide_False; [done|lia]. }
  rewrite !Hsame by lia. simpl. by rewrite (Permutation_middle (concat (F <$> seq 0 k))).
Qed.

(** The classes of a list by a key below [n] make up the list. *)
Lemma concat_classes {A} (key : A → nat) n l :
  (∀ x, x ∈ l → (key x < n)%nat) → concat ((λ i, filter (λ x, key x = i) l) <$> seq 0 n) ≡ₚ l.
Proof.
  induction l as [|x l IH]; intros Hkey.
  - clear. generalize (seq 0 n) as s. induction s as [|i s IHs]; [done|]. csimpl. by rewrite IHs.
  - rewrite (concat_insert (λ i, filter (λ x, key x = i) l) _ x (key x)); [by rewrite IH by (intros; apply Hkey; by right)| |].
    + apply Hkey. by left.
    + intros i. rewrite filter_cons. by destruct (decide (key x = i)), (decide (i = key x)).
Qed.

Lemma omap_concat {A B} (f : A → option B) (ls : list (list A)) : omap f (concat ls) = concat ((λ l : list A, omap f l) <$> ls : list (list B)).
Proof. induction ls as [|l ls IH]; [done|]. csimpl. by rewrite omap_app, IH. Qed.

Lemma omap_lookup_seq {A} (l : list A) : omap (λ j, l !! j) (seq 0 (length l)) = l.
Proof.
  induction l as [|x l IH] using rev_ind; [done|]. rewrite length_app, Nat.add_1_r, seq_S, omap_app. csimpl.
  rewrite list_lookup_middle by done. f_equal. rewrite <- IH at 2. apply list_omap_ext. apply Forall2_same_length_lookup_2; [done|].
  intros i j k Hj Hk. rewrite Hj in Hk. simplify_eq. apply lookup_seq in Hj as [-> Hlt]. by rewrite lookup_app_l.
Qed.

Lemma stride_partition {A} (l : list A) n : (0 < n)%nat → concat ((λ i, stride n i l) <$> seq 0 n) ≡ₚ l.
Proof.
  intros Hn. set (classes := (λ i, filter (λ j, j mod n = i)%nat (seq 0 (length l))) <$> seq 0 n).
  trans (concat ((λ js : list nat, omap (λ j, l !! j) js) <$> classes : list (list A))).
  { unfold classes. by rewrite <- list_fmap_compose. }
  rewrite <- omap_concat. unfold classes. rewrite (concat_classes (λ j, j mod n)%nat) by (intros; apply Nat.mod_upper_bound; lia).
  by rewrite omap_lookup_seq.
Qed.

Lemma stride_length_filter {A} (l : list A) n i :
  length (stride n i l) = length (filter (λ j, (j mod n = i)%nat) (seq 0 (length l))).
Proof.
  unfold stride. assert (Hin : ∀ j, j ∈ filter (λ j, (j mod n = i)%nat) (seq 0 (length l)) → is_Some (l !! j)).
  { intros j [_ Hj%elem_of_seq]%list_elem_of_filter. apply lookup_lt_is_Some. lia. }
  revert Hin. generalize (filter (λ j, (j mod n = i)%nat) (seq 0 (length l))) as s. induction s as [|j s IH]; intros Hin; [done|].
  csimpl. destruct (Hin j) as [x ->]; [by left|]. simpl. rewrite IH; [done|]. intros k Hk. apply Hin. by right.
Qed.

Lemma stride_count n i m : (0 < n)%nat →
  let k := length (filter (λ j, (j mod n = i)%nat) (seq 0 m)) in k = O ∨ ((k - 1) * n + i < m)%nat.
Proof.
  intros Hn. cbv zeta. induction m as [|m IH]; [by left|]. rewrite seq_S, filter_app, length_app. simpl.
  destruct (decide (m mod n = i)%nat) as [Hm|Hm].
  - rewrite filter_cons_True by done. simpl. right. pose proof (Nat.div_mod_eq m n) as Hdm. rewrite Hm in Hdm.
    pose proof (Nat.Div0.mod_le m n) as Hle.
    set (k := length _) in *. replace (k + 1 - 1)%nat with k by lia. destruct IH as [->|IH]; [lia|].
    set (q := (m / n)%nat) in *. rewrite Hdm in IH. assert (Hlt : ((k - 1) * n < q * n)%nat) by lia.
    apply Nat.mul_lt_mono_pos_r in Hlt; [|done]. assert (k * n <= q * n)%nat by (apply Nat.mul_le_mono_r; lia). lia.
  - rewrite filter_cons_False by done. simpl. rewrite Nat.add_0_r. destruct IH as [->|IH]; [by left|right; lia].
Qed.

(** ** Splitting the layers of one spec *)

Lemma cdiv_pos_le a b : 0 < b → 0 < a → 1 ≤ cdiv a b ≤ a.
Proof. intros Hb Ha. pose proof (cdiv_spec a b Hb). split; nia. Qed.

Lemma split_layers_spec size layers :
  1 ≤ size → layers ≠ [] →
  concat (split_layers size layers) ≡ₚ layers ∧
  ∀ names, names ∈ split_layers size layers → names ≠ [] ∧ zlen names ≤ size ∧ names ⊆ layers.
Proof.
  intros Hsize Hne. assert (Hlen : 0 < zlen layers) by (destruct layers; [done|rewrite zlen_cons; pose proof (zlen_nonneg layers); lia]).
  pose proof (cdiv_pos_le (zlen layers) size ltac:(lia) Hlen) as Hn. pose proof (cdiv_spec (zlen layers) size ltac:(lia)) as Hc.
  unfold split_layers. set (n := Z.to_nat (cdiv (zlen layers) size)). assert (Hn0 : (0 < n)%nat) by lia.
  split; [by apply stride_partition|]. intros names (i & -> & Hi%elem_of_seq)%list_elem_of_fmap.
  assert (Hil : (i < length layers)%nat) by (unfold zlen in *; lia).
  assert (Hin : ∀ j x, layers !! j = Some x → (j mod n = i)%nat → x ∈ stride n i layers).
  { intros j x Hx Hj. apply list_elem_of_omap. exists j. split; [|done]. apply list_elem_of_filter. split; [done|].
    apply elem_of_seq. apply lookup_lt_Some in Hx. lia. }
  split; [|split].
  - destruct (lookup_lt_is_Some_2 layers i Hil) as [x Hx]. intros E. apply (Hin i x) in Hx; [|by apply Nat.mod_small; lia].
    rewrite E in Hx. by apply elem_of_nil in Hx.
  - unfold zlen. rewrite stride_length_filter. pose proof (stride_count n i (length layers) Hn0) as [->|Hk]; [lia|].
    set (k := length _) in *. unfold zlen in *. nia.
  - intros x (j & _ & Hx)%list_elem_of_omap. by eapply list_elem_of_lookup_2.
Qed.

(** ** Grouping by spec *)

Definition all_names (d : list (LayerSpec * list string)) : list string := concat d.*2.

(** Every entry is filed under the spec of its layers. *)
Definition filed (kv_cache_spec : spec_dict) (d : list (LayerSpec * list string)) : Prop :=
  ∀ s names, (s, names) ∈ d → names ≠ [] ∧ ∀ name, name ∈ names → (name, s) ∈ kv_cache_spec.

Lemma add_layer_names s name d : all_names (add_layer s name d) ≡ₚ name :: all_names d.
Proof.
  induction d as [|[s' names] d IH]; [done|]. cbn [add_layer]. destruct (decide (s' = s)) as [->|Hne]; unfold all_names in *; csimpl.
  - rewrite <- (assoc_L (++)). simpl. by rewrite <- Permutation_middle.
  - rewrite IH. by rewrite <- Permutation_middle.
Qed.

Lemma add_layer_filed spec s name d : filed spec d → (name, s) ∈ spec → filed spec (add_layer s name d).
Proof.
  intros Hd Hin. induction d as [|[s' names] d IH]; cbn [add_layer].
  - intros s1 n1 Hs. apply list_elem_of_singleton in Hs as [= -> ->]. split; [done|]. intros x Hx.
    by apply list_elem_of_singleton in Hx as ->.
  - assert (Hd' : filed spec d) by (intros s1 n1 H1; apply Hd; by right).
    assert (Hhd : (s', names) ∈ (s', names) :: d) by by left. apply Hd in Hhd as [Hne Hnames].
    destruct (decide (s' = s)) as [->|Hneq]; intros s1 n1 [[= -> ->]|Hs]%elem_of_cons.
    + split; [by destruct names|]. intros x [Hx|Hx]%elem_of_app; [by apply Hnames|]. by apply list_elem_of_singleton in Hx as ->.
    + by apply Hd'.
    + done.
    + by apply IH.
Qed.

Lemma same_type_layers_spec spec : all_names (same_type_layers spec) ≡ₚ spec.*1 ∧ filed spec (same_type_layers spec).
Proof.
  unfold same_type_layers. assert (H : ∀ l d, l ⊆ spec → filed spec d →
    all_names (foldl (λ d (x : string * LayerSpec), add_layer x.2 x.1 d) d l) ≡ₚ l.*1 ++ all_names d ∧
    filed spec (foldl (λ d (x : string * LayerSpec), add_layer x.2 x.1 d) d l)).
  { induction l as [|[name s] l IH]; intros d Hl Hd; [done|]. csimpl. destruct (IH (add_layer s name d)) as [H1 H2].
    - set_solver.
    - apply add_layer_filed; [done|set_solver].
    - split; [|done]. rewrite H1, add_layer_names. by rewrite <- Permutation_middle. }
  destruct (H spec []) as [H1 H2]; [done| |].
  - intros s names Hin. by apply elem_of_nil in Hin.
  - split; [|done]. rewrite H1. unfold all_names. simpl. by rewrite app_nil_r.
Qed.

Lemma lookup_spec_ret spec name s : NoDup spec.*1 → (name, s) ∈ spec → lookup_spec spec name = Ret s.
Proof.
  intros Hnd Hin. unfold lookup_spec. destruct (list_find (λ x, x.1 = name) spec) as [[i [n s']]|] eqn:E.
  - apply list_find_Some in E as (Hi & Hn & _). simpl in Hn. subst n. apply list_elem_of_lookup_1 in Hin as [j Hj].
    assert (i = j) as ->; [|congruence]. eapply (NoDup_lookup spec.*1); [done| |]; rewrite list_lookup_fmap; [by rewrite Hi|by rewrite Hj].
  - apply list_find_None in E. rewrite Forall_forall in E. by destruct (E _ Hin).
Qed.

Lemma lookup_spec_inv spec name s : lookup_spec spec name = Ret s → (name, s) ∈ spec.
Proof.
  unfold lookup_spec. destruct (list_find (λ x, x.1 = name) spec) as [[i [n s']]|] eqn:E; [|done]. intros [= ->].
  apply list_find_Some in E as (Hi & Hn & _). simpl in Hn. subst n. by eapply list_elem_of_lookup_2.
Qed.

(** ** The chosen size *)

Lemma max_list_ret l m : max_list l = Ret m → ∀ x, x ∈ l → x ≤ m.
Proof.
  destruct l as [|y l]; [done|]. intros [= <-]. revert y. induction l as [|z l IH]; intros y x Hx; cbn [foldl].
  - by apply list_elem_of_singleton in Hx as ->.
  - pose proof (IH (Z.max y z)) as IHz. apply elem_of_cons in Hx as [->|[->|Hx]%elem_of_cons].
    + etrans; [|apply IHz; by left]. lia.
    + etrans; [|apply IHz; by left]. lia.
    + apply IHz. by right.
Qed.

Lemma max_list_in l m : max_list l = Ret m → m ∈ l.
Proof.
  destruct l as [|y l]; [done|]. intros [= <-]. revert y. induction l as [|z l IH]; intros y; cbn [foldl]; [by left|].
  specialize (IH (Z.max y z)). apply elem_of_cons in IH as [->|IH]; [|by right; right].
  destruct (Z.max_spec y z) as [[_ ->]|[_ ->]]; [by right; left|by left].
Qed.

Lemma min_fold_in y l : foldl Z.min y l ∈ y :: l.
Proof.
  revert y. induction l as [|z l IH]; intros y; cbn [foldl]; [by left|]. specialize (IH (Z.min y z)).
  apply elem_of_cons in IH as [->|IH]; [|by right; right]. destruct (Z.min_spec y z) as [[_ ->]|[_ ->]]; [by left|by right; left].
Qed.

Lemma min_fold_le y l x : x ∈ y :: l → foldl Z.min y l ≤ x.
Proof.
  revert y x. induction l as [|z l IH]; intros y x Hx; cbn [foldl]; [by apply list_elem_of_singleton in Hx as ->|].
  pose proof (IH (Z.min y z)) as IHz. apply elem_of_cons in Hx as [->|[->|Hx]%elem_of_cons].
  - etrans; [apply IHz; by left|lia].
  - etrans; [apply IHz; by left|lia].
  - apply IHz. by right.
Qed.

Lemma range_down_in hi lo x : x ∈ range_down hi lo ↔ lo < x ≤ hi.
Proof. unfold range_down. rewrite elem_of_reverse, elem_of_seqZ. lia. Qed.

Lemma head_filter_in {A} (P : A → Prop) `{∀ x, Decision (P x)} l x : head (filter P l) = Some x → P x ∧ x ∈ l.
Proof.
  intros Hx. assert (x ∈ filter P l) as Hin by (destruct (filter P l); [done|]; simplify_eq/=; by left).
  by apply list_elem_of_filter in Hin.
Qed.

Lemma chosen_group_size_pos d size :
  (∀ s names, (s, names) ∈ d → names ≠ []) → chosen_group_size d = Ret size → 1 ≤ size.
Proof.
  intros Hne. assert (Hcount : ∀ n, n ∈ layer_count <$> d → 1 ≤ n).
  { intros n ([s names] & -> & Hin)%list_elem_of_fmap. apply Hne in Hin. unfold layer_count. simpl. destruct names; [done|].
    rewrite zlen_cons. pose proof (zlen_nonneg names). lia. }
  unfold chosen_group_size. intros (g & Hg & [= <-])%obind_ret.
  assert (H1 : 1 ≤ g).
  { unfold _select_hybrid_kv_cache_group_size in Hg. destruct (layer_count <$> d) as [|y l] eqn:E; [done|].
    apply obind_ret in Hg as (mn & [= <-] & (mx & Hmx & Hg)%obind_ret). destruct (_ <? _) in Hg.
    - injection Hg as <-. by apply Hcount, max_list_in.
    - injection Hg as <-. pose proof (Hcount _ (min_fold_in y l)) as Hmin. destruct (bool_decide _ && _); [|done].
      destruct (head _) as [c|] eqn:Ec; [|done]. apply head_filter_in in Ec as [_ Hc%range_down_in]. simpl. lia. }
  unfold _prefer_padding_sliding_window_layers. cbv zeta.
  destruct (layer_count <$> filter (λ x, is_sliding_window (cls x.1) = true) d); [exact H1|].
  destruct (layer_count <$> filter (λ x, is_sliding_window (cls x.1) = false) d); [exact H1|].
  destruct ((g <=? 1) || _); [exact H1|]. destruct (head _) as [c|] eqn:Ec; [|exact H1]. apply head_filter_in in Ec as [_ Hc%range_down_in]. simpl. lia.
Qed.

(** ** The partition *)

Lemma create_group_specs_ret spec namess groups :
  create_kv_cache_group_specs spec namess = Ret groups →
  Forall2 (λ names g, layer_names g = names ∧ ∃ specs merged, group_spec g = OneSpec merged ∧ merge specs = Ret merged ∧
             Forall2 (λ name s, lookup_spec spec name = Ret s) names specs) namess groups.
Proof.
  intros H%omapM_ret. eapply Forall2_impl; [exact H|]. intros names g (specs & Hspecs%omapM_ret & (m & Hm & [= <-])%obind_ret)%obind_ret.
  split; [done|]. by exists specs, m.
Qed.

Lemma concat_split_layers size d :
  1 ≤ size → (∀ s names, (s, names) ∈ d → names ≠ []) →
  concat (d ≫= λ x : LayerSpec * list string, split_layers size x.2) ≡ₚ all_names d.
Proof.
  intros Hsize. induction d as [|[s names] d IH]; intros Hne; [done|]. unfold all_names. csimpl. rewrite concat_app.
  destruct (split_layers_spec size names Hsize) as [H1 _]; [by eapply Hne; left|]. rewrite H1. f_equiv.
  apply IH. intros s1 n1 Hin. eapply Hne. by right.
Qed.

Lemma group_layer_names spec namess groups :
  create_kv_cache_group_specs spec namess = Ret groups → layer_names <$> groups = namess.
Proof. intros H%create_group_specs_ret. induction H as [|names g namess groups [<- _] _ IH]; [done|]. csimpl. by rewrite IH. Qed.

(** C21: the general grouping puts each layer of the model in exactly one group; the layers
    of a group are not empty, share one spec, of which the group's is the merge, and are no
    more than the chosen group size. *)
Theorem grouping_partitions_layers kv_cache_spec groups :
  NoDup kv_cache_spec.*1 → _get_kv_cache_groups_uniform_page_size kv_cache_spec = Ret groups →
  concat (layer_names <$> groups) ≡ₚ kv_cache_spec.*1 ∧
  ∃ size, chosen_group_size (same_type_layers kv_cache_spec) = Ret size ∧
    ∀ g, g ∈ groups → layer_names g ≠ [] ∧ zlen (layer_names g) ≤ size ∧
      ∃ s merged, group_spec g = OneSpec merged ∧ merge (replicate (length (layer_names g)) s) = Ret merged ∧
        ∀ name, name ∈ layer_names g → (name, s) ∈ kv_cache_spec.
Proof.
  intros Hnd. unfold _get_kv_cache_groups_uniform_page_size. intros (size & Hsize & Hgroups)%obind_ret.
  destruct (same_type_layers_spec kv_cache_spec) as [Hnames Hfiled]. set (d := same_type_layers kv_cache_spec) in *.
  assert (Hne : ∀ s names, (s, names) ∈ d → names ≠ []) by (intros s names Hin; by apply Hfiled in Hin as [? _]).
  pose proof (chosen_group_size_pos d size Hne Hsize) as Hpos. split.
  - rewrite (group_layer_names _ _ _ Hgroups). by rewrite concat_split_layers.
  - exists size. split; [done|]. intros g Hg. apply create_group_specs_ret in Hgroups.
    destruct (Forall2_in_r _ _ _ _ Hgroups Hg) as (names & Hin & -> & specs & merged & Hspec & Hmerge & Hlookup).
    apply list_elem_of_bind in Hin as ([s layers] & Hsplit & Hin). destruct (Hfiled _ _ Hin) as [Hl Hl'].
    destruct (split_layers_spec size layers Hpos Hl) as [_ Hparts]. destruct (Hparts _ Hsplit) as (Hn & Hlen & Hsub).
    split; [done|]. split; [done|]. exists s, merged. split; [done|]. split; [|intros name Hname; by apply Hl', Hsub].
    replace (replicate (length names) s) with specs; [done|]. symmetry. apply replicate_as_Forall. split.
    + symmetry. by eapply Forall2_length.
    + apply Forall_forall. intros s' Hs'. destruct (Forall2_in_r _ _ _ _ Hlookup Hs') as (name & Hname & Hs).
      rewrite (lookup_spec_ret kv_cache_spec name s Hnd) in Hs by (by apply Hl', Hsub). congruence.
Qed.

(** ** A hybrid model *)

Definition bfloat16 : torch_dtype := {| dtype_name := "bfloat16"; get_dtype_size := 2 |}.

Definition layer (c : spec_class) (n : Z) : LayerSpec :=
  {| base := mkSpec c n true; num_kv_heads := 8; head_size := 64; head_size_v := Some 64; dtype := bfloat16;
     kv_quant_mode := NONE; page_size_padded := None; host_backed := false; full_sliding_window := None;
     full_chunk_size := None; tq_slot_size := 0; cache_dtype_str := None; alignment := None; compress_ratio := 1;
     model_version := None; shapes := []; dtypes := []; mamba_type := ""; tp_replicated := false |}.

(** Two full-attention layers and three with a sliding window. *)
Definition hybrid_spec : spec_dict :=
  [("sw.0", layer (SlidingWindowSpec 128) 16); ("full.0", layer FullAttentionSpec 16);
   ("sw.1", layer (SlidingWindowSpec 128) 16); ("full.1", layer FullAttentionSpec 16);
   ("sw.2", layer (SlidingWindowSpec 128) 16)]%string.

Definition hybrid_groups : list KVCacheGroupSpec :=
  [mkGroup ["sw.0"; "sw.2"] (OneSpec (layer (SlidingWindowSpec 128) 16)) false;
   mkGroup ["sw.1"] (OneSpec (layer (SlidingWindowSpec 128) 16)) false;
   mkGroup ["full.0"; "full.1"] (OneSpec (layer FullAttentionSpec 16)) false]%string.

Lemma hybrid_names : NoDup hybrid_spec.*1.
Proof. apply (bool_decide_unpack _). by vm_compute. Qed.

Lemma hybrid_grouping : _get_kv_cache_groups_uniform_page_size hybrid_spec = Ret hybrid_groups.
Proof. by vm_compute. Qed.

Lemma grouping_partitions_layers_witness :
  concat (layer_names <$> hybrid_groups) ≡ₚ hybrid_spec.*1 ∧
  ∃ size, chosen_group_size (same_type_layers hybrid_spec) = Ret size ∧
    ∀ g, g ∈ hybrid_groups → layer_names g ≠ [] ∧ zlen (layer_names g) ≤ size ∧
      ∃ s merged, group_spec g = OneSpec merged ∧ merge (replicate (length (layer_names g)) s) = Ret merged ∧
        ∀ name, name ∈ layer_names g → (name, s) ∈ hybrid_spec.
Proof. exact (grouping_partitions_layers hybrid_spec hybrid_groups hybrid_names hybrid_grouping). Defined.
