(* ===== verification/SizingSpec.v ===== *)
(** * The longest model length that fits

    The memory a request needs grows with its length, for every kind of layer; hence the
    binary search returns the longest length that fits, and it leaves the configuration as
    it was. *)

From S2P Require Import Prelude KVCacheSpec LayerSpec Grouping PageSize Sizing GroupingSpec.
Local Open Scope Z_scope.

(** ** Needs that grow with the length *)

(** The same exception, or a larger number. *)
Definition grows (x y : outcome Z) : Prop :=
  match x, y with
  | Ret a, Ret b => a ≤ b
  | Raise e, Raise e' => e = e'
  | _, _ => False
  end.

Definition grows_with_length (needed : VllmConfig → outcome Z) : Prop :=
  ∀ c n m, 1 ≤ n → n ≤ m → grows (needed (with_max_model_len n c)) (needed (with_max_model_len m c)).

Lemma grows_refl x : grows x x.
Proof. destruct x; cbn; [lia|done]. Qed.

Lemma grows_fmap (f g : Z → Z) x y : (∀ a b, a ≤ b → f a ≤ g b) → grows x y → grows (f <$> x) (g <$> y).
Proof. destruct x, y; cbn; auto. Qed.

Lemma grows_bind {A} (o : outcome A) f g : (∀ a, o = Ret a → grows (f a) (g a)) → grows (o ≫= f) (o ≫= g).
Proof. destruct o as [a|e]; cbn; [auto|done]. Qed.

Lemma grows_bind_both {x y : outcome Z} f g :
  grows x y → (∀ a b, x = Ret a → y = Ret b → a ≤ b → grows (f a) (g b)) → grows (x ≫= f) (y ≫= g).
Proof. destruct x as [a|e], y as [b|e']; cbn; intros H Hf; try done. by apply Hf. Qed.

Lemma grows_sum {A} (f g : A → outcome Z) l :
  (∀ x, x ∈ l → grows (f x) (g x)) → grows (sum_list <$> mapM f l) (sum_list <$> mapM g l).
Proof.
  induction l as [|x l IH]; intros Hl; [done|]. cbn [mapM]. specialize (Hl x (list_elem_of_here _ _)) as Hx.
  specialize (IH (λ y Hy, Hl y (list_elem_of_further _ _ _ Hy))).
  destruct (f x), (g x); cbn in *; try done. destruct (mapM f l), (mapM g l); cbn in *; try done. unfold sum_list in *. simpl. lia.
Qed.

(** ** Bytes of a request *)

(** Positive block sizes and pages, as of every spec the models build. *)
Record layer_ok (s : LayerSpec) : Prop := {
  lo_block : 0 < block_size s;
  lo_page : ∀ p, page_size_bytes s = Ret p → 0 < p;
}.

Definition config_parallel (c : VllmConfig) : Prop :=
  0 < decode_context_parallel_size c * prefill_context_parallel_size c.

Lemma full_blocks_mono c s n m :
  layer_ok s → config_parallel c → n ≤ m →
  full_attention_blocks (with_max_model_len n c) s ≤ full_attention_blocks (with_max_model_len m c) s.
Proof.
  intros [Hb _] Hc Hnm. unfold full_attention_blocks. simpl. apply cdiv_mono; [done|].
  destruct (sharded s && _); [by apply cdiv_mono|done].
Qed.

Lemma admission_blocks_mono s c n m :
  0 < spec_block_size s → n ≤ m →
  default 0 (max_admission_blocks_per_request s c n) ≤ default 0 (max_admission_blocks_per_request s c m).
Proof.
  intros Hb Hnm. pose proof (λ a, cdiv_mono (Z.min a n) (Z.min a m) _ Hb ltac:(lia)) as Hmono.
  unfold max_admission_blocks_per_request. destruct (spec_type s) as [| | | | | |w|w|w|w| | | |]; simpl; try lia.
  - specialize (Hmono (w - 1 + c)). lia.
  - specialize (Hmono (w - 1 + c)). lia.
  - exact (Hmono (w + c)).
Qed.

Lemma page_pos s p : layer_ok s → page_size_bytes s = Ret p → 0 < p.
Proof. intros [_ H]. apply H. Qed.

(** So many blocks of one page each. *)
Lemma of_blocks_grows s a b :
  layer_ok s → a ≤ b →
  grows (page_size_bytes s ≫= λ page, Ret (a * page)) (page_size_bytes s ≫= λ page, Ret (b * page)).
Proof. intros Hs Hab. apply grows_bind. intros p Hp. pose proof (page_pos s p Hs Hp). cbn. nia. Qed.

Lemma max_memory_grows s c n m :
  layer_ok s → config_parallel c → n ≤ m →
  grows (max_memory_usage_bytes (with_max_model_len n c) s) (max_memory_usage_bytes (with_max_model_len m c) s).
Proof.
  intros Hs Hc Hnm. pose proof Hs as [Hb _]. pose proof (full_blocks_mono c s n m Hs Hc Hnm) as Hfull.
  pose proof (admission_blocks_mono (base s) (max_in_flight_tokens c) n m Hb Hnm) as Hadm.
  assert (Hmamba : ∀ k, mamba_blocks (with_max_model_len n c) s k ≤ mamba_blocks (with_max_model_len m c) s k).
  { intros k. unfold mamba_blocks. simpl. pose proof (cdiv_mono n m _ Hb Hnm). repeat case_bool_decide; lia. }
  unfold max_memory_usage_bytes. destruct (cls s); cbn zeta; try (by apply of_blocks_grows); try apply grows_refl.
  all: apply grows_bind; intros _ _; by apply of_blocks_grows.
Qed.

Definition group_ok (g : GroupSpec) : Prop := ∀ s, s ∈ members g → layer_ok s.

Lemma cdiv_bytes_grows a b p : 0 < p → a ≤ b → cdiv a p ≤ cdiv b p.
Proof. intros. by apply cdiv_mono. Qed.

(** ** Bytes of a list of groups *)

Lemma existsb_false {A} (f : A → bool) l : existsb f l = false ↔ ∀ x, x ∈ l → f x = false.
Proof.
  induction l as [|y l IH]; simpl; [split; [intros _ x Hx; by apply elem_of_nil in Hx|done]|].
  rewrite orb_false_iff, IH. split; [intros [H1 H2] x [->|Hx]%elem_of_cons; auto|].
  intros H. split; [apply H; by left|intros x Hx; apply H; by right].
Qed.

(** Groups of single specs only. *)
Definition plain (groups : list KVCacheGroupSpec) : Prop := existsb is_uniform_group groups = false.

Definition pool_block (groups : list KVCacheGroupSpec) : outcome Z :=
  size ← group_size groups; page ← uniform_page_size groups; Ret (page * size).

(** What is needed in the general layout. *)
Lemma needed_bytes_plain c groups :
  groups ≠ [] → plain groups →
  needed_bytes groups c = n ← general_max_memory c groups; b ← pool_block groups; Ret (n + b).
Proof.
  intros Hne Hplain. unfold needed_bytes, _kv_cache_memory_needed, _max_memory_usage_bytes_from_groups, _pool_bytes_per_block, pool_block.
  assert (Hone : ∀ g, g ∈ groups → is_uniform_group g = false) by by apply existsb_false.
  destruct groups as [|g [|g' groups]]; [done| |].
  - specialize (Hone g ltac:(by left)). unfold is_uniform_group in *. destruct (group_spec g) eqn:E; [|done].
    generalize (general_max_memory c [g]) (group_size [g]) (uniform_page_size [g]). by intros [?|?] [?|?] [?|?].
  - unfold plain in Hplain. rewrite Hplain. set (gs := g :: g' :: groups).
    generalize (general_max_memory c gs) (group_size gs) (uniform_page_size gs). by intros [?|?] [?|?] [?|?].
Qed.

Lemma needed_bytes_uniform c g n d specs :
  group_spec g = UniformTypeKVCacheSpecs n d specs →
  needed_bytes [g] c =
    bytes ← mapM (λ x : string * LayerSpec, max_memory_usage_bytes c x.2) specs;
    block ← group_page_size_bytes (group_spec g);
    Ret (sum_list bytes + block).
Proof.
  intros E. unfold needed_bytes, _kv_cache_memory_needed, _max_memory_usage_bytes_from_groups, _pool_bytes_per_block, is_uniform_group.
  rewrite E. destruct (mapM _ specs) at 1 2; cbn; [|done]. by destruct (sum_list <$> mapM _ _).
Qed.

Lemma uniform_page_size_ret groups p :
  uniform_page_size groups = Ret p → groups ≠ [] ∧ ∀ g, g ∈ groups → group_page_size_bytes (group_spec g) = Ret p.
Proof.
  unfold uniform_page_size, get_uniform_page_size. intros (pages & Hpages%omapM_ret & Hp)%obind_ret.
  assert (Hall : remove_dups pages = [p]) by (by destruct (remove_dups pages) as [|? [|? ?]]; simplify_eq).
  split; [intros ->; by inversion Hpages; subst|]. intros g Hg.
  apply (list_elem_of_fmap_2 group_spec) in Hg. destruct (Forall2_in_l _ _ _ _ Hpages Hg) as (q & Hq & Hpage).
  apply elem_of_remove_dups in Hq. rewrite Hall in Hq. by apply list_elem_of_singleton in Hq as <-.
Qed.

Lemma group_size_nonneg groups n : group_size groups = Ret n → 0 ≤ n.
Proof. intros (g & -> & _)%max_list_in%list_elem_of_fmap. apply zlen_nonneg. Qed.

Lemma plain_spec groups g : plain groups → g ∈ groups → ∃ s, group_spec g = OneSpec s.
Proof.
  intros Hplain Hg. apply (proj1 (existsb_false _ _) Hplain) in Hg. unfold is_uniform_group in Hg.
  destruct (group_spec g) as [s|]; [by exists s|done].
Qed.

Lemma plain_page_pos groups p :
  plain groups → (∀ g, g ∈ groups → group_ok (group_spec g)) → uniform_page_size groups = Ret p → 0 < p.
Proof.
  intros Hplain Hok [Hne Hp]%uniform_page_size_ret. destruct groups as [|g groups]; [done|].
  destruct (plain_spec _ g Hplain) as [s E]; [by left|]. specialize (Hp g ltac:(by left)). specialize (Hok g ltac:(by left)).
  rewrite E in *. apply (page_pos s); [apply Hok; by left|done].
Qed.

Lemma grows_scaled {A} (f g : A → outcome Z) l k :
  0 ≤ k → (∀ x, x ∈ l → grows (f x) (g x)) →
  grows (mapM f l ≫= λ bs, Ret (k * sum_list bs)) (mapM g l ≫= λ bs, Ret (k * sum_list bs)).
Proof.
  intros Hk Hl. pose proof (grows_sum f g l Hl) as H. destruct (mapM f l), (mapM g l); cbn in *; try done. nia.
Qed.

Lemma general_max_memory_grows groups c n m :
  plain groups → (∀ g, g ∈ groups → group_ok (group_spec g)) → config_parallel c → n ≤ m →
  grows (general_max_memory (with_max_model_len n c) groups) (general_max_memory (with_max_model_len m c) groups).
Proof.
  intros Hplain Hok Hc Hnm. unfold general_max_memory. apply grows_bind. intros size Hsize. apply grows_bind. intros page Hpage.
  pose proof (plain_page_pos _ _ Hplain Hok Hpage) as Hpos. pose proof (group_size_nonneg _ _ Hsize) as Hsz.
  apply grows_scaled; [nia|]. intros g Hg. destruct (plain_spec _ _ Hplain Hg) as [s E]. rewrite E. cbn [group_max_memory_usage_bytes].
  specialize (Hok g Hg s). rewrite E in Hok. apply (grows_bind_both (λ b, Ret (cdiv b page)) (λ b, Ret (cdiv b page))).
  - apply max_memory_grows; [apply Hok; by left|done|done].
  - intros a b _ _ Hab. cbn. by apply cdiv_bytes_grows.
Qed.

Lemma needed_bytes_grows groups :
  (∀ g, g ∈ groups → group_ok (group_spec g)) →
  ∀ c n m, config_parallel c → n ≤ m → grows (needed_bytes groups (with_max_model_len n c)) (needed_bytes groups (with_max_model_len m c)).
Proof.
  intros Hok c n m Hc Hnm. destruct (decide (groups = [])) as [->|Hne]; [done|].
  destruct (existsb is_uniform_group groups) eqn:Hplain.
  - destruct groups as [|g [|g' groups]]; [done| |].
    + assert (Hu : is_uniform_group g = true) by (simpl in Hplain; by rewrite orb_false_r in Hplain).
      unfold is_uniform_group in Hu. destruct (group_spec g) as [s|k d specs] eqn:E; [done|].
      rewrite !(needed_bytes_uniform _ _ _ _ _ E).
      assert (H : grows (sum_list <$> mapM (λ x : string * LayerSpec, max_memory_usage_bytes (with_max_model_len n c) x.2) specs)
                    (sum_list <$> mapM (λ x : string * LayerSpec, max_memory_usage_bytes (with_max_model_len m c) x.2) specs)).
      { apply grows_sum. intros x Hx. apply max_memory_grows; [|done|done]. specialize (Hok g ltac:(by left)). rewrite E in Hok.
        apply Hok. by apply list_elem_of_fmap_2. }
      destruct (mapM _ specs), (mapM _ specs); cbn in H; try done. cbn [mbind outcome_bind obind].
      apply grows_bind. intros b _. cbn. lia.
    + unfold needed_bytes, _kv_cache_memory_needed, _max_memory_usage_bytes_from_groups, _pool_bytes_per_block. by rewrite Hplain.
  - rewrite !needed_bytes_plain by done. apply grows_bind_both; [by apply general_max_memory_grows|].
    intros a b _ _ Hab. apply grows_bind. intros block _. cbn. lia.
Qed.

(** ** The binary search *)

Section search.
Context (needed : VllmConfig → outcome Z) (available_memory : Z) (c : VllmConfig).
Hypothesis Hgrows : ∀ n m, n ≤ m → grows (needed (with_max_model_len n c)) (needed (with_max_model_len m c)).

Definition fits_in (n : Z) : Prop := ∃ b, needed (with_max_model_len n c) = Ret b ∧ b ≤ available_memory.

Lemma fits_spec n k b :
  needed (with_max_model_len n c) = Ret b →
  fits needed available_memory n (with_max_model_len k c) = (Ret (b <=? available_memory), with_max_model_len n c).
Proof.
  intros Hb. unfold fits. run_method. change (with_max_model_len n (with_max_model_len k c)) with (with_max_model_len n c).
  by rewrite Hb.
Qed.

Lemma needed_ret n m b : n ≤ m → needed (with_max_model_len n c) = Ret b → ∃ b', needed (with_max_model_len m c) = Ret b' ∧ b ≤ b'.
Proof using Hgrows.
  intros Hnm Hb. specialize (Hgrows n m Hnm). rewrite Hb in Hgrows. destruct (needed (with_max_model_len m c)) as [b'|]; [by exists b'|done].
Qed.

Lemma fits_in_le n m : n ≤ m → (∃ b, needed (with_max_model_len n c) = Ret b) → fits_in m → fits_in n.
Proof using Hgrows.
  intros Hnm [b Hb] (b' & Hb' & Hle). destruct (needed_ret n m b Hnm Hb) as (b2 & Hb2 & Hle2). exists b. split; [done|].
  assert (b2 = b') by congruence. lia.
Qed.

Lemma search_loop_spec b1 fuel : ∀ left right result k,
  needed (with_max_model_len 1 c) = Ret b1 → 1 ≤ left → 1 ≤ result → right - left + 1 ≤ Z.of_nat fuel →
  left - 1 ≤ result → fits_in result → (∀ m, right < m → ¬ fits_in m ∨ max_model_len c < m) →
  ∃ r k', search_loop fuel (fits needed available_memory) left right result (with_max_model_len k c)
          = (Ret r, with_max_model_len k' c) ∧
    1 ≤ r ∧ fits_in r ∧ ∀ m, r < m → ¬ fits_in m ∨ max_model_len c < m.
Proof using Hgrows.
  induction fuel as [|fuel IH]; intros left right result k H1 Hleft Hres Hfuel Hlr Hfits Hover; cbn [search_loop].
  { rewrite (proj2 (Z.leb_gt left right)) by lia. exists result, k. split_and!; [done..|]. intros m Hm. apply Hover. lia. }
  destruct (Z.leb_spec left right) as [Hgo|Hend].
  2: { exists result, k. split_and!; [done..|]. intros m Hm. apply Hover. lia. }
  set (mid := (left + right) / 2). assert (Hmid : left ≤ mid ≤ right) by (unfold mid; split; [apply Z.div_le_lower_bound|apply Z.div_le_upper_bound]; lia).
  destruct (needed_ret 1 mid b1 ltac:(lia) H1) as (b & Hb & _). run_method. rewrite (fits_spec _ _ _ Hb).
  destruct (Z.leb_spec b available_memory) as [Hfit|Hfit].
  - apply IH; try lia; [done|by exists b|done].
  - apply IH; try lia; [done|done|]. intros m Hm. left. intros (b' & Hb' & Hle).
    destruct (needed_ret mid m b ltac:(lia) Hb) as (b2 & Hb2 & Hle2). assert (b2 = b') by congruence. lia.
Qed.

(** The search leaves the configuration as it was, and finds the longest length. *)
Lemma longest_fit_spec :
  match needed (with_max_model_len 1 c) with
  | Raise e => longest_fit needed available_memory c = (Raise e, c)
  | Ret _ => ∃ r, longest_fit needed available_memory c = (Ret r, c) ∧
      ((r = 0 ∧ ¬ fits_in 1) ∨ (1 ≤ r ∧ fits_in r ∧ ∀ m, r < m ≤ max_model_len c → ¬ fits_in m))
  end.
Proof using Hgrows.
  assert (Hback : ∀ k, with_max_model_len (max_model_len c) (with_max_model_len k c) = c) by (intros k; by destruct c).
  unfold longest_fit, finally. destruct (needed (with_max_model_len 1 c)) as [b|e] eqn:E.
  2: { unfold fits. run_method. rewrite E. cbn. by rewrite Hback. }
  pose proof (fits_spec 1 (max_model_len c) b E) as Hone. replace (with_max_model_len (max_model_len c) c) with c in Hone by by destruct c.
  run_method. rewrite Hone. destruct (Z.leb_spec b available_memory) as [Hfit|Hfit]; cbn [negb].
  - destruct (search_loop_spec b (Z.to_nat (max_model_len c)) 1 (max_model_len c) 1 1) as (r & k' & Hr & Hpos & Hrf & Hover);
      [exact E|lia|lia|lia|lia|by exists b|intros m Hm; by right|].
    rewrite Hr. rewrite Hback. exists r. split; [done|]. right. split_and!; [done..|].
    intros m [Hm1 Hm2]. destruct (Hover m Hm1) as [|]; [done|lia].
  - rewrite Hback. exists 0. split; [done|]. left. split; [done|]. intros (b' & Hb' & Hle). assert (b = b') by congruence. lia.
Qed.
End search.

(** C9: the estimate of the longest model length is exact: it is the greatest length up to
    the configured one whose memory, the null block included, fits, and 0 exactly when no
    length fits; it raises only what the computation of the need raises, and leaves the
    configuration as it was. *)
Theorem estimated_length_is_longest c groups available_memory :
  (∀ g, g ∈ groups → group_ok (group_spec g)) → config_parallel c →
  ∃ o, _estimate_max_model_len_from_groups groups available_memory c = (o, c) ∧
    (∀ e, o = Raise e → needed_bytes groups (with_max_model_len 1 c) = Raise e) ∧
    (∀ r, o = Ret r →
       (r = 0 ∧ ∀ n, 1 ≤ n → ¬ fits_in (needed_bytes groups) available_memory c n) ∨
       (1 ≤ r ∧ fits_in (needed_bytes groups) available_memory c r ∧
        ∀ n, r < n ≤ max_model_len c → ¬ fits_in (needed_bytes groups) available_memory c n)).
Proof.
  intros Hok Hc. assert (Hgrows := λ n m, needed_bytes_grows groups Hok c n m Hc).
  pose proof (longest_fit_spec (needed_bytes groups) available_memory c Hgrows) as H.
  unfold _estimate_max_model_len_from_groups. destruct (needed_bytes groups (with_max_model_len 1 c)) as [b|e] eqn:E.
  - destruct H as (r & -> & Hr). exists (Ret r). split; [done|]. split; [done|]. intros r' [= <-].
    destruct Hr as [[-> Hno]|Hr]; [left|by right]. split; [done|]. intros n Hn Hfit. apply Hno.
    apply (fits_in_le _ _ _ Hgrows 1 n); [done|by exists b|done].
  - exists (Raise e). split; [done|]. split; [|done]. by intros e' [= <-].
Qed.

(** The hybrid model: 40 blocks of 64 KiB hold a request of 272 tokens. *)
Definition small_config : VllmConfig :=
  {| max_model_len := 4096; original_max_model_len := -1; decode_context_parallel_size := 1;
     prefill_context_parallel_size := 1; max_in_flight_tokens := 32; max_num_encoder_input_tokens := 0;
     cfg_mamba_cache_mode := "none"; cfg_block_size := 16; cfg_hash_block_size := None;
     enable_prefix_caching := true; has_kv_transfer := false; num_gpu_blocks_override := None;
     user_specified_mamba_block_size := false; disable_hybrid_kv_cache_manager := false; flash_attn_v100 := false |}.

Lemma hybrid_groups_ok g : g ∈ hybrid_groups → group_ok (group_spec g).
Proof.
  intros Hg s Hs. repeat (apply elem_of_cons in Hg as [->|Hg]; [cbn in Hs; apply list_elem_of_singleton in Hs as ->; split;
    [by vm_compute|intros p [= <-]; by vm_compute]|]). by apply elem_of_nil in Hg.
Qed.

Lemma estimated_length_is_longest_witness :
  fst (_estimate_max_model_len_from_groups hybrid_groups (40 * 65536) small_config) = Ret 272 ∧
  ∃ o, _estimate_max_model_len_from_groups hybrid_groups (40 * 65536) small_config = (o, small_config) ∧
    (∀ e, o = Raise e → needed_bytes hybrid_groups (with_max_model_len 1 small_config) = Raise e) ∧
    (∀ r, o = Ret r →
       (r = 0 ∧ ∀ n, 1 ≤ n → ¬ fits_in (needed_bytes hybrid_groups) (40 * 65536) small_config n) ∨
       (1 ≤ r ∧ fits_in (needed_bytes hybrid_groups) (40 * 65536) small_config r ∧
        ∀ n, r < n ≤ max_model_len small_config → ¬ fits_in (needed_bytes hybrid_groups) (40 * 65536) small_config n)).
Proof.
  split; [by vm_compute|]. apply (estimated_length_is_longest small_config hybrid_groups (40 * 65536) hybrid_groups_ok). by vm_compute.
Defined.
