(* ===== verification/SizingTheorems.v ===== *)
(** * The planned KV caches fit

    What [get_kv_cache_configs] returns: on every worker each layer has its place in one
    tensor, the tensors fit in the worker's memory, all workers have the same number of
    blocks, and a request of maximal length finds its blocks beside the null block. *)

From S2P Require Import Prelude KVCacheSpec LayerSpec Grouping PageSize Sizing GroupingSpec SizingSpec.
Local Open Scope Z_scope.

(** ** Runs that return *)

Lemma bind_ret {S A B} (m : M S A) (f : A → M S B) s b s' :
  (m ≫= f) s = (Ret b, s') → ∃ a s1, m s = (Ret a, s1) ∧ f a s1 = (Ret b, s').
Proof. unfold mbind, M_bind. destruct (m s) as [[a|e] s1]; [|done]. intros H. by exists a, s1. Qed.

Lemma of_outcome_ret {S A} (o : outcome A) (s : S) a s' : of_outcome o s = (Ret a, s') → o = Ret a ∧ s' = s.
Proof. by destruct o as [a'|e]; cbn; intros [= -> ->]. Qed.

Lemma get_ret {S} (s a s' : S) : get s = (Ret a, s') → a = s ∧ s' = s.
Proof. by intros [= -> ->]. Qed.

(** A state that differs from [c] in the model length only. *)
Definition relen (c s : VllmConfig) : Prop := ∃ k, s = with_max_model_len k c.

Lemma relen_refl c : relen c c.
Proof. exists (max_model_len c). by destruct c. Qed.

Lemma relen_with c s k : relen c s → with_max_model_len k s = with_max_model_len k c.
Proof. by intros [k' ->]. Qed.

Lemma fits_relen needed mem n c s : relen c s → relen c (fits needed mem n s).2.
Proof.
  intros Hs. unfold fits. run_method. rewrite (relen_with c s n Hs). exists n. by destruct (needed _).
Qed.

Lemma search_relen needed mem fuel : ∀ left right result c s,
  relen c s → relen c (search_loop fuel (fits needed mem) left right result s).2.
Proof.
  induction fuel as [|fuel IH]; intros left right result c s Hs; cbn [search_loop]; destruct (left <=? right); try done.
  run_method. pose proof (fits_relen needed mem ((left + right) / 2) c s Hs) as Hf. destruct (fits _ _ _ s) as [[ok|e] s']; [|done].
  destruct ok; by apply IH.
Qed.

(** The [finally] clause restores the configuration. *)
Lemma longest_fit_restores needed mem c : (longest_fit needed mem c).2 = c.
Proof.
  unfold longest_fit, finally. run_method. pose proof (fits_relen needed mem 1 c c (relen_refl c)) as Hf.
  assert (Hback : ∀ s, relen c s → with_max_model_len (max_model_len c) s = c) by (intros s [k ->]; by destruct c).
  destruct (fits needed mem 1 c) as [[ok|e] s]; [|by apply Hback]. destruct ok; cbn [negb]; [|by apply Hback].
  pose proof (search_relen needed mem (Z.to_nat (max_model_len c)) 1 (max_model_len c) 1 c s Hf) as Hl.
  destruct (search_loop _ _ _ _ _ s) as [o s']. by apply Hback.
Qed.

Lemma auto_fit_loop_restores workers : ∀ n c, (auto_fit_loop workers n c).2 = c.
Proof.
  induction workers as [|[[|g gs] mem] workers IH]; intros n c; cbn [auto_fit_loop]; [done|by apply IH|].
  run_method. unfold _estimate_max_model_len_from_groups. pose proof (longest_fit_restores (needed_bytes (g :: gs)) mem c) as Hc.
  destruct (longest_fit _ mem c) as [[r|e] s]; simpl in Hc; subst s; [by apply IH|done].
Qed.

Lemma auto_fit_relen workers c : relen c (_auto_fit_max_model_len workers c).2.
Proof.
  unfold _auto_fit_max_model_len. run_method. destruct (forallb _ workers); [apply relen_refl|].
  pose proof (auto_fit_loop_restores workers (max_model_len c) c) as Hc. destruct (auto_fit_loop _ _ c) as [[n|e] s]; simpl in Hc; subst s.
  - destruct (n <=? 0); [apply relen_refl|]. destruct (_ <? _); [by exists n|apply relen_refl].
  - apply relen_refl.
Qed.

(** A worker that passes the check. *)
Lemma check_worker_ret w c c' :
  check_worker w c = (Ret tt, c') →
  c' = c ∧ (w.1 = [] ∨ 0 < w.2 ∧ ∃ b, needed_bytes w.1 c = Ret b ∧ b ≤ w.2).
Proof.
  unfold check_worker. destruct w as [[|g gs] mem]; cbn [fst snd]; [intros [= <-]; by split; [|left]|].
  unfold _check_enough_kv_cache_memory. destruct (Z.leb_spec mem 0); [done|].
  intros (c1 & s1 & [-> ->]%get_ret & (b & s2 & [Hb ->]%of_outcome_ret & H2)%bind_ret)%bind_ret.
  destruct (Z.ltb_spec mem b).
  - apply bind_ret in H2 as (? & ? & _ & H2). done.
  - injection H2 as <-. split; [done|right]. split; [done|]. by exists b.
Qed.

Lemma check_workers_ret ws : ∀ c c',
  foreach ws check_worker c = (Ret tt, c') →
  c' = c ∧ ∀ w, w ∈ ws → w.1 = [] ∨ 0 < w.2 ∧ ∃ b, needed_bytes w.1 c = Ret b ∧ b ≤ w.2.
Proof.
  induction ws as [|w ws IH]; intros c c' H; cbn [foreach] in H.
  - injection H as <-. split; [done|]. intros w Hw. by apply elem_of_nil in Hw.
  - apply bind_ret in H as ([] & s1 & [-> Hw]%check_worker_ret & [-> Hws]%IH). split; [done|].
    by intros w' [->|Hin]%elem_of_cons; [|apply Hws].
Qed.

(** ** Tensors *)

Lemma omap_seq_lookup {A} (l : list A) n : (length l <= n)%nat → omap (λ i, l !! i) (seq 0 n) = l.
Proof.
  intros Hn. replace n with (length l + (n - length l))%nat by lia. rewrite seq_app, omap_app, omap_lookup_seq.
  assert (H : ∀ k a, (length l <= a)%nat → omap (λ i, l !! i) (seq a k) = []).
  { induction k as [|k IH]; intros a Ha; [done|]. csimpl. rewrite lookup_ge_None_2 by lia. apply IH. lia. }
  rewrite H by lia. by rewrite app_nil_r.
Qed.

(** Reading a table by columns instead of rows. *)
Lemma concat_columns {A} (rows : list (list A)) n :
  (∀ l, l ∈ rows → (length l <= n)%nat) →
  concat ((λ i, omap (λ l : list A, l !! i) rows) <$> seq 0 n) ≡ₚ concat rows.
Proof.
  induction rows as [|l rows IH]; intros Hn.
  - clear. generalize 0%nat. induction n as [|n IHn]; intros a; [done|]. csimpl. apply IHn.
  - trans (omap (λ i, l !! i) (seq 0 n) ++ concat ((λ i, omap (λ l : list A, l !! i) rows) <$> seq 0 n)).
    + generalize (seq 0 n) as s. clear. induction s as [|i s IHs]; [done|]. csimpl. rewrite IHs.
      destruct (l !! i); csimpl; [apply perm_skip|]; rewrite Permutation_app_swap_app; reflexivity.
    + rewrite omap_seq_lookup by (apply Hn; by left). rewrite IH by (intros; apply Hn; by right). done.
Qed.

Lemma shared_layers_rows groups i : shared_layers groups i = omap (λ l : list string, l !! i) (layer_names <$> groups).
Proof. unfold shared_layers. induction groups as [|g groups IH]; [done|]. csimpl. by rewrite IH. Qed.

Definition total_bytes (tensors : list KVCacheTensor) : Z := sum_list (tensor_size <$> tensors).
Definition all_shared (tensors : list KVCacheTensor) : list string := concat (shared_by <$> tensors).

Lemma sum_list_repeat {A} (f : A → Z) k l : (∀ x, x ∈ l → f x = k) → sum_list (f <$> l) = zlen l * k.
Proof.
  induction l as [|x l IH]; intros Hl; [done|]. unfold sum_list in *. csimpl. rewrite IH by (intros; apply Hl; by right).
  rewrite (Hl x) by by left. rewrite zlen_cons. lia.
Qed.

(** The tensors of the general layout. *)
Record general_plan (c : VllmConfig) (groups : list KVCacheGroupSpec) (mem n : Z) (tensors : list KVCacheTensor) : Prop := {
  gp_blocks : ∃ size page, group_size groups = Ret size ∧ uniform_page_size groups = Ret page ∧ 0 < size ∧
    n = get_num_blocks c size mem page ∧ (∀ t, t ∈ tensors → tensor_size t = page * n) ∧ zlen tensors = size;
  gp_layers : all_shared tensors ≡ₚ concat (layer_names <$> groups);
}.

Lemma general_config_plan c groups mem n tensors :
  general_config c groups mem = Ret (n, tensors) → general_plan c groups mem n tensors.
Proof.
  unfold general_config. intros (size & Hsize & (page & Hpage & ([] & Hpos%oassert_ret & [= <- <-])%obind_ret)%obind_ret)%obind_ret.
  apply Z.ltb_lt in Hpos. split.
  - exists size, page. split_and!; try done.
    + by intros t (i & -> & _)%list_elem_of_fmap.
    + unfold zlen. rewrite length_fmap, length_seq. lia.
  - unfold all_shared. rewrite <- list_fmap_compose. unfold compose. cbn [shared_by].
    rewrite (list_fmap_ext (λ i, shared_layers groups i) (λ i, omap (λ l : list string, l !! i) (layer_names <$> groups)))
      by (intros; apply shared_layers_rows).
    apply concat_columns. intros l (g & -> & Hg)%list_elem_of_fmap.
    apply (list_elem_of_fmap_2 (λ g, zlen (layer_names g))), (max_list_ret _ _ Hsize) in Hg. unfold zlen in Hg. lia.
Qed.

(** ** The plan of one worker *)

(** Groups that [get_kv_cache_groups] makes: single specs, or one group of layers of one
    type. *)
Definition known_layout (groups : list KVCacheGroupSpec) : Prop :=
  plain groups ∨ ∃ g n d specs, groups = [g] ∧ group_spec g = UniformTypeKVCacheSpecs n d specs ∧ NoDup specs.*1 ∧
                   (layer_names g = [] ∨ layer_names g = specs.*1).

(** The blocks a request needs, one sum over the groups. *)
Definition request_blocks (c : VllmConfig) (groups : list KVCacheGroupSpec) (blocks : Z) : Prop :=
  ∃ page bs, uniform_page_size groups = Ret page ∧
    mapM (λ g, bytes ← group_max_memory_usage_bytes c (group_spec g); Ret (cdiv bytes page)) groups = Ret bs ∧ blocks = sum_list bs.

(** The memory the worker plans with. *)
Definition planned_memory (c : VllmConfig) (groups : list KVCacheGroupSpec) (avail mem : Z) : Prop :=
  match num_gpu_blocks_override c with
  | None => mem = avail
  | Some k => groups = [] ∨ ∃ b, _pool_bytes_per_block groups = Ret (Some b) ∧ mem = k * b
  end.

Lemma div_div_le m p s n : 0 < p → 0 < s → (n ≤ m / p / s ↔ p * s * n ≤ m).
Proof.
  intros Hp Hs. rewrite Z.div_div by lia. assert (Hd : 0 < p * s) by nia. set (d := p * s) in *. split; intros H.
  - pose proof (Z.mul_div_le m d Hd). nia.
  - apply Z.div_le_lower_bound; nia.
Qed.

(** The number of blocks of the general layout is what the planned memory has room for. *)
Lemma get_num_blocks_fits c mem size page n avail groups :
  0 < page → 0 < size → 0 < mem → group_size groups = Ret size → uniform_page_size groups = Ret page →
  plain groups → groups ≠ [] → planned_memory c groups avail mem → n = get_num_blocks c size mem page →
  page * size * n ≤ mem ∧ ∀ k, page * size * k ≤ mem → k ≤ n.
Proof.
  intros Hp Hs Hm Hsize Hpage Hplain Hne Hplan ->. unfold get_num_blocks, may_override_num_blocks, planned_memory in *.
  destruct (num_gpu_blocks_override c) as [k|]; simpl.
  - destruct Hplan as [|(b & Hb & ->)]; [done|].
    assert (b = page * size) as ->.
    { unfold _pool_bytes_per_block in Hb. rewrite Hsize, Hpage in Hb. unfold plain in Hplain.
      destruct groups as [|g [|g' groups]]; [done| |].
      - simpl in Hplain. rewrite orb_false_r in Hplain. rewrite Hplain in Hb. cbn in Hb. congruence.
      - rewrite Hplain in Hb. cbn in Hb. congruence. }
    assert (Hd : 0 < page * size) by nia. split; [lia|]. intros k' Hk. apply (Z.mul_le_mono_pos_l _ _ _ Hd). lia.
  - subst mem. rewrite Z.max_l by (apply Z.div_pos; [apply Z.div_pos; lia|lia]). split.
    + by apply div_div_le.
    + intros k Hk. by apply div_div_le.
Qed.

Definition pages_positive (groups : list KVCacheGroupSpec) : Prop :=
  ∀ g s p, g ∈ groups → s ∈ members (group_spec g) → page_size_bytes s = Ret p → 0 < p.

(** What the plan of a worker guarantees before the blocks are made equal. *)
Record worker_plan (c : VllmConfig) (groups : list KVCacheGroupSpec) (mem : Z) (cfg : KVCacheConfig) : Prop := {
  wp_groups : kv_cache_groups cfg = groups;
  wp_layers : all_shared (kv_cache_tensors cfg) ≡ₚ concat (layer_names <$> groups);
  wp_blocks : 0 ≤ num_blocks cfg;
  wp_sizes : ∀ t, t ∈ kv_cache_tensors cfg → ∃ u, 0 ≤ u ∧ tensor_size t = u * num_blocks cfg;
  wp_memory : total_bytes (kv_cache_tensors cfg) ≤ Z.max 0 mem;
  wp_request : plain groups → groups ≠ [] → ∀ blocks, request_blocks c groups blocks → blocks + 1 ≤ num_blocks cfg;
  wp_override : ∀ k, num_gpu_blocks_override c = Some k → groups ≠ [] → num_blocks cfg = k;
}.

Lemma uniform_page_member groups p g : uniform_page_size groups = Ret p → plain groups → g ∈ groups →
  ∃ s, s ∈ members (group_spec g) ∧ page_size_bytes s = Ret p.
Proof.
  intros [_ Hp]%uniform_page_size_ret Hplain Hg. destruct (plain_spec _ _ Hplain Hg) as [s E]. specialize (Hp g Hg).
  rewrite E in *. exists s. split; [by left|done].
Qed.

Lemma general_worker c groups avail mem n tensors b :
  general_config c groups mem = Ret (n, tensors) → plain groups → groups ≠ [] → planned_memory c groups avail mem →
  pages_positive groups → 0 < mem → needed_bytes groups c = Ret b → b ≤ mem →
  worker_plan c groups mem (mkConfig n tensors groups).
Proof.
  intros Hcfg Hplain Hne Hplan Hpages Hmem Hb Hle. apply general_config_plan in Hcfg as [(size & page & Hsize & Hpage & Hs & Hn & Hts & Hlen) Hlayers].
  assert (Hp : 0 < page).
  { destruct groups as [|g groups]; [done|]. destruct (uniform_page_member _ _ g Hpage Hplain ltac:(by left)) as (s & Hs' & Hps).
    eapply Hpages; [by left|done..]. }
  destruct (get_num_blocks_fits c mem size page n avail groups Hp Hs Hmem Hsize Hpage Hplain Hne Hplan Hn) as [Hfit Hmost].
  assert (Hn0 : 0 ≤ n) by (apply Hmost; lia). split; cbn [num_blocks kv_cache_tensors kv_cache_groups]; try done.
  - intros t Ht. exists page. split; [lia|]. by apply Hts.
  - unfold total_bytes. rewrite (sum_list_repeat _ (page * n)) by done. rewrite Hlen. lia.
  - intros _ _ blocks (page' & bs & Hpage' & Hbs & ->). assert (page' = page) as -> by congruence.
    apply Hmost. rewrite needed_bytes_plain in Hb by done. unfold general_max_memory, pool_block in Hb. rewrite Hsize, Hpage in Hb.
    cbn [mbind outcome_bind obind] in Hb. rewrite Hbs in Hb. cbn in Hb. injection Hb as <-. lia.
  - intros k Hk _. rewrite Hn. unfold get_num_blocks, may_override_num_blocks. by rewrite Hk.
Qed.

Lemma layer_tensors all (n : Z) specs ps tensors :
  (∀ x, x ∈ specs → lookup_spec all x.1 = Ret x.2) → Forall2 (λ (x : string * LayerSpec) p, page_size_bytes x.2 = Ret p) specs ps →
  Forall2 (λ name t, (s ← lookup_spec all name; page ← page_size_bytes s; Ret (mkTensor (page * n) [name])) = Ret t)
    specs.*1 tensors →
  tensors = zip_with (λ name p, mkTensor (p * n) [name]) specs.*1 ps.
Proof.
  intros Hin Hps. revert tensors. induction Hps as [|x p specs ps Hp _ IH]; intros tensors Hts; inversion Hts as [|? t ? ts Ht Hts']; subst; [done|].
  csimpl. rewrite (Hin x) in Ht by by left. cbn [mbind outcome_bind obind] in Ht. rewrite Hp in Ht. injection Ht as <-. f_equal.
  apply IH; [|done]. intros y Hy. apply Hin. by right.
Qed.

Lemma uniform_totals names ps n :
  length names = length ps →
  total_bytes (zip_with (λ name p, mkTensor (p * n) [name]) names ps) = n * sum_list ps ∧
  all_shared (zip_with (λ name p, mkTensor (p * n) [name]) names ps) = names.
Proof.
  revert ps. induction names as [|name names IH]; intros [|p ps] Hl; try done; [split; [unfold total_bytes, sum_list; simpl; lia|done]|].
  destruct (IH ps) as [H1 H2]; [by injection Hl|]. unfold total_bytes, all_shared, sum_list in *. csimpl. rewrite H1, H2. split; [lia|done].
Qed.

Lemma sum_list_nonneg ps : (∀ p, p ∈ ps → 0 < p) → 0 ≤ sum_list ps ∧ (ps ≠ [] → 0 < sum_list ps).
Proof.
  induction ps as [|p ps IH]; intros Hps; [split; [done|done]|]. unfold sum_list in *. simpl.
  destruct IH as [H _]; [intros; apply Hps; by right|]. pose proof (Hps p ltac:(by left)). split; lia.
Qed.

Lemma uniform_worker c g k d specs avail mem n tensors :
  uniform_type_config c (layer_names g) (group_spec g) specs mem = Ret (n, tensors) →
  group_spec g = UniformTypeKVCacheSpecs k d specs → NoDup specs.*1 → (layer_names g = [] ∨ layer_names g = specs.*1) →
  planned_memory c [g] avail mem → pages_positive [g] → 0 < mem →
  worker_plan c [g] mem (mkConfig n tensors [g]).
Proof.
  intros Hcfg E Hnd Hnames Hplan Hpages Hmem. unfold uniform_type_config in Hcfg. rewrite E in Hcfg.
  apply obind_ret in Hcfg as (page & Hpage & (ts & Hts%omapM_ret & [= <- <-])%obind_ret).
  pose proof Hpage as (ps & Hps%omapM_ret & Epage)%ofmap_ret.
  assert (Hpos : ∀ p, p ∈ ps → 0 < p).
  { intros p Hp. destruct (Forall2_in_r _ _ _ _ Hps Hp) as (x & Hx & Hxp). apply (Hpages g x.2); [by left| |done].
    rewrite E. by apply list_elem_of_fmap_2. }
  destruct (sum_list_nonneg ps Hpos) as [Hsum _]. rewrite <- Epage in Hsum.
  set (n := may_override_num_blocks c (mem / page)) in *.
  assert (Hn : 0 ≤ n ∧ page * n ≤ mem).
  { unfold n, may_override_num_blocks, planned_memory in *. destruct (num_gpu_blocks_override c) as [o|]; simpl.
    - destruct Hplan as [|(b & Hb & Hm)]; [done|]. unfold _pool_bytes_per_block, is_uniform_group in Hb. rewrite E in Hb.
      apply ofmap_ret in Hb as (b' & Hb' & [= <-]). assert (b = page) as -> by congruence. split; nia.
    - destruct (decide (page = 0)) as [->|Hp0]; [rewrite Z.div_0_r; lia|]. split; [apply Z.div_pos; lia|].
      by apply Z.mul_div_le; lia. }
  destruct Hn as [Hn0 Hfit]. assert (Hplan' : worker_plan c [g] mem (mkConfig n ts [g]));
    [|exact Hplan'].
  assert (Hlookup : ∀ x, x ∈ specs → lookup_spec specs x.1 = Ret x.2).
  { intros [name s] Hx. by apply lookup_spec_ret. }
  assert (Hov : ∀ o, num_gpu_blocks_override c = Some o → [g] ≠ [] → n = o).
  { intros o Ho _. unfold n, may_override_num_blocks. by rewrite Ho. }
  destruct Hnames as [Enames|Enames]; rewrite Enames in Hts.
  - inversion Hts; subst. split; cbn [num_blocks kv_cache_tensors kv_cache_groups]; try done.
    + unfold all_shared. csimpl. by rewrite Enames.
    + intros t Ht. by apply elem_of_nil in Ht.
    + unfold total_bytes, sum_list. simpl. lia.
    + unfold plain. simpl. unfold is_uniform_group. by rewrite E.
  - pose proof (layer_tensors _ _ _ _ _ Hlookup Hps Hts) as ->. pose proof (Forall2_length _ _ _ Hps) as Hl.
    destruct (uniform_totals specs.*1 ps n) as [H1 H2]; [by rewrite length_fmap|].
    split; cbn [num_blocks kv_cache_tensors kv_cache_groups]; try done.
    + rewrite H2. csimpl. rewrite Enames. by rewrite app_nil_r.
    + intros t (name & p & -> & Hname & Hp)%elem_of_zip_with. exists p. split; [|done]. apply Hpos in Hp. lia.
    + rewrite H1, <- Epage. lia.
    + unfold plain. simpl. unfold is_uniform_group. by rewrite E.
Qed.

(** ** The groups of a model *)

Lemma on_values_keys f d d' : on_values f d = Ret d' → d'.*1 = d.*1.
Proof.
  intros H%omapM_ret. induction H as [|x y d d' (s & _ & [= <-])%obind_ret _ IH]; [done|]. csimpl. by rewrite IH.
Qed.

Lemma compact_keys specs c d : _compact_sm70_hybrid_sliding_window_pages specs c = Ret d → d.*1 = specs.*1.
Proof.
  unfold _compact_sm70_hybrid_sliding_window_pages. destruct (_ || _); [by intros [= <-]|].
  intros (others & _ & (target & _ & (result & Hr%on_values_keys & (pages & _ & (widest & _ & H)%obind_ret)%obind_ret)%obind_ret)%obind_ret)%obind_ret.
  cbv zeta in H. destruct (_ <=? _); [by injection H as <-|]. destruct (negb _); [by injection H as <-|].
  apply obind_ret in H as (units & _ & H). destruct (_ <=? _); [by injection H as <-|]. apply on_values_keys in H. congruence.
Qed.

Lemma unify_keys specs c d : unify_kv_cache_spec_page_size specs c = Ret d → d.*1 = specs.*1.
Proof.
  unfold unify_kv_cache_spec_page_size. intros (d1 & Hd1%compact_keys & (pages & _ & H)%obind_ret)%obind_ret.
  destruct (decide _); [by injection H as <-|]. apply obind_ret in H as (mx & _ & H%on_values_keys). congruence.
Qed.

Lemma hybrid_keys specs d : unify_hybrid_kv_cache_specs specs = Ret d → d.*1 = specs.*1.
Proof.
  unfold unify_hybrid_kv_cache_specs. intros (one & _ & H)%obind_ret. destruct one; [by injection H as <-|].
  apply obind_ret in H as ([] & _ & (d1 & Hd1 & (one & _ & H)%obind_ret)%obind_ret). destruct one; [|done]. injection H as <-.
  destruct (_ && _); [by eapply on_values_keys|by injection Hd1 as <-].
Qed.

Lemma plain_app gs gs' : plain gs → plain gs' → plain (gs ++ gs').
Proof. unfold plain. rewrite existsb_app. by intros -> ->. Qed.

Lemma create_groups_plain spec namess groups : create_kv_cache_group_specs spec namess = Ret groups → plain groups.
Proof.
  intros H%create_group_specs_ret. apply existsb_false. intros g Hg.
  destruct (Forall2_in_r _ _ _ _ H Hg) as (names & _ & _ & specs & merged & E & _). unfold is_uniform_group. by rewrite E.
Qed.

Lemma filter_partition {A} (f : A → bool) l : filter (λ x, f x = false) l ++ filter (λ x, f x = true) l ≡ₚ l.
Proof.
  induction l as [|x l IH]; [done|]. rewrite !filter_cons. destruct (f x); csimpl; [|by rewrite IH].
  rewrite <- Permutation_middle. by rewrite IH.
Qed.

Lemma general_groups_spec c spec groups :
  NoDup spec.*1 → general_groups c spec = Ret groups → plain groups ∧ concat (layer_names <$> groups) ≡ₚ spec.*1.
Proof.
  intros Hnd. unfold general_groups. set (hidden := hidden_specs spec). set (rest := filtered_specs spec).
  assert (Hsplit : rest.*1 ++ hidden.*1 ≡ₚ spec.*1).
  { rewrite <- fmap_app. apply fmap_Permutation. apply (filter_partition (λ x : string * LayerSpec, is_hidden x.2)). }
  assert (Hrest : NoDup rest.*1).
  { rewrite <- Hsplit in Hnd. by apply NoDup_app in Hnd as [? _]. }
  intros (d & Hd%unify_keys & (gs & Hgs & H)%obind_ret)%obind_ret. rewrite <- Hd in Hrest.
  pose proof (grouping_partitions_layers d gs Hrest Hgs) as [Hpart _]. rewrite Hd in Hpart.
  unfold _get_kv_cache_groups_uniform_page_size in Hgs. apply obind_ret in Hgs as (size & _ & Hgs%create_groups_plain).
  destruct hidden as [|h hs] eqn:Eh.
  - injection H as <-. split; [done|]. rewrite Hpart, <- Hsplit. simpl. by rewrite app_nil_r.
  - rewrite <- Eh in *. apply obind_ret in H as (page & _ & (hg & Hhg%omapM_ret & [= <-])%obind_ret).
    assert (Hh : plain hg ∧ concat (layer_names <$> hg) = hidden.*1).
    { clear -Hhg. induction Hhg as [|x g l gs (s & _ & [= <-])%obind_ret _ [IH1 IH2]]; [done|]. split; [done|]. csimpl. by rewrite IH2. }
    destruct Hh as [Hh1 Hh2]. split; [by apply plain_app|]. rewrite fmap_app, concat_app, Hh2, Hpart. done.
Qed.

(** The groups of a model contain each layer once. *)
Definition groups_of (names : list string) (groups : list KVCacheGroupSpec) : Prop :=
  concat (layer_names <$> groups) ≡ₚ names ∧ known_layout groups.

Lemma get_kv_cache_groups_spec c spec groups spec' :
  NoDup spec.*1 → get_kv_cache_groups c spec = Ret (Some groups, spec') → groups_of spec.*1 groups.
Proof.
  intros Hnd. unfold get_kv_cache_groups. intros (d & Hd & H)%obind_ret.
  assert (Hkeys : d.*1 = spec.*1) by (destruct (disable_hybrid_kv_cache_manager c); [by apply hybrid_keys|by injection Hd as <-]).
  rewrite <- Hkeys in *. clear Hkeys Hd spec. destruct (decide (d = [])) as [->|Hne].
  { injection H as <- <-. split; [done|by left]. }
  apply obind_ret in H as (uniform & _ & H). destruct uniform.
  - apply obind_ret in H as (gs & Hgs & [= <- <-]). split; [|left; by eapply create_groups_plain].
    rewrite (group_layer_names _ _ _ Hgs). csimpl. by rewrite app_nil_r.
  - apply obind_ret in H as (o & Ho & H). destruct o as [g|].
    + injection H as <- <-. unfold from_specs in Ho. apply obind_ret in Ho as (b & _ & Ho).
      destruct b; [|done]. destruct d.*2 as [|first rest] eqn:E2; [done|]. injection Ho as <-.
      split; [csimpl; by rewrite app_nil_r|]. right. eexists _, _, _, d. split_and!; [done|done|done|by right].
    + destruct (family_layout d); [done|]. apply obind_ret in H as (gs & Hgs & [= <- <-]).
      destruct (general_groups_spec c d gs Hnd Hgs) as [H1 H2]. split; [done|by left].
Qed.

(** ** The layers of the workers *)

Lemma foldl_raise {A B} (F : outcome B → A → outcome B) l e :
  (∀ x e, F (Raise e) x = Raise e) → foldl F (Raise e) l = Raise e.
Proof. intros HF. induction l as [|x l IH]; [done|]. cbn [foldl]. by rewrite HF. Qed.

Lemma merge_worker_spec worker : ∀ merged d,
  NoDup merged.*1 → merge_worker merged worker = Ret d → NoDup d.*1 ∧ merged.*1 ⊆ d.*1 ∧ worker.*1 ⊆ d.*1.
Proof.
  unfold merge_worker. induction worker as [|[name s] worker IH]; intros merged d Hnd H; cbn [foldl] in H.
  { injection H as <-. split; [done|]. split; [done|]. set_solver. }
  cbn [mbind outcome_bind obind fst snd] in H. destruct (lookup_spec merged name) as [s'|e] eqn:E.
  - destruct (bool_decide (s' = s)); [|cbn in H; by rewrite foldl_raise in H by done]. cbn in H. destruct (IH merged d Hnd H) as (H1 & H2 & H3).
    split; [done|]. split; [done|]. apply lookup_spec_inv in E. apply (list_elem_of_fmap_2 fst) in E. csimpl. set_solver.
  - destruct (IH (merged ++ [(name, s)]) d) as (H1 & H2 & H3); [|done|].
    + rewrite fmap_app. apply NoDup_app. split; [done|]. csimpl. split; [|by apply NoDup_singleton].
      intros x Hx ->%list_elem_of_singleton. apply list_elem_of_fmap in Hx as ([n s2] & -> & Hin). simpl in E.
      unfold lookup_spec in E. destruct (list_find _ merged) as [[i [n2 s3]]|] eqn:Ef; [done|]. apply list_find_None in Ef.
      rewrite Forall_forall in Ef. by destruct (Ef _ Hin).
    + rewrite fmap_app in H2. csimpl in H2. split; [done|]. csimpl. set_solver.
Qed.

Lemma merge_workers_spec workers d :
  merge_workers workers = Ret d → NoDup d.*1 ∧ ∀ w, w ∈ workers → w.*1 ⊆ d.*1.
Proof.
  unfold merge_workers. assert (H : ∀ ws merged d, NoDup merged.*1 →
    foldl (λ (acc : outcome spec_dict) w, merged ← acc; merge_worker merged w) (Ret merged) ws = Ret d →
    NoDup d.*1 ∧ merged.*1 ⊆ d.*1 ∧ ∀ w, w ∈ ws → w.*1 ⊆ d.*1).
  { clear. induction ws as [|w ws IH]; intros merged d Hnd H; cbn [foldl] in H.
    { injection H as <-. split; [done|]. split; [done|]. intros w Hw. by apply elem_of_nil in Hw. }
    cbn [mbind outcome_bind obind] in H. destruct (merge_worker merged w) as [m|e] eqn:E; [|by rewrite foldl_raise in H by done].
    destruct (merge_worker_spec w merged m Hnd E) as (H1 & H2 & H3). destruct (IH m d H1 H) as (H4 & H5 & H6).
    split; [done|]. split; [set_solver|]. intros w' [->|Hw']%elem_of_cons; [set_solver|by apply H6]. }
  intros Hd. destruct (H workers [] d) as (H1 & _ & H2); [apply NoDup_nil_2|done|]. done.
Qed.

Definition own_layers (worker : spec_dict) (names : list string) : list string := filter (λ name, name ∈ worker.*1) names.

Lemma project_spec groups worker projected :
  _project_kv_cache_groups_to_worker groups worker = Ret projected →
  Forall2 (λ g p, layer_names p = own_layers worker (layer_names g) ∧
             match group_spec g with
             | OneSpec _ => group_spec p = group_spec g
             | UniformTypeKVCacheSpecs n d specs =>
                 (layer_names p = [] ∧ group_spec p = group_spec g) ∨
                 ∃ own, group_spec p = UniformTypeKVCacheSpecs n d own ∧ own.*1 = layer_names p
             end) groups projected.
Proof.
  intros H%omapM_ret. eapply Forall2_impl; [exact H|]. intros g p (spec & Hspec & [= <-])%obind_ret. split; [done|]. cbn [layer_names group_spec].
  destruct (group_spec g) as [s|n d specs]; [by injection Hspec as <-|]. destruct (decide _) as [E|E].
  - injection Hspec as <-. by left.
  - right. apply obind_ret in Hspec as (own & Hown%omapM_ret & [= <-]). exists own. split; [done|].
    clear -Hown. unfold own_layers. induction Hown as [|name x names own (s & _ & [= <-])%obind_ret _ IH]; [done|]. csimpl. by rewrite IH.
Qed.

Lemma project_plain groups worker projected :
  plain groups → _project_kv_cache_groups_to_worker groups worker = Ret projected → group_spec <$> projected = group_spec <$> groups.
Proof.
  intros Hp H%project_spec. unfold plain in Hp. rewrite existsb_false in Hp. induction H as [|g p groups projected [_ Hg] _ IH]; [done|]. csimpl.
  pose proof (Hp g ltac:(by left)) as Hone. unfold is_uniform_group in Hone. destruct (group_spec g); [|done].
  rewrite Hg, IH; [done|]. intros x Hx. apply Hp. by right.
Qed.

Lemma plain_specs groups groups' : group_spec <$> groups = group_spec <$> groups' → plain groups' → plain groups.
Proof.
  intros E Hp. apply existsb_false. intros g Hg. apply (list_elem_of_fmap_2 group_spec) in Hg. rewrite E in Hg.
  apply list_elem_of_fmap in Hg as (g' & Eg & Hg'). apply (proj1 (existsb_false _ _) Hp) in Hg'. unfold is_uniform_group in *. by rewrite Eg.
Qed.

Lemma project_names groups worker projected :
  _project_kv_cache_groups_to_worker groups worker = Ret projected →
  concat (layer_names <$> projected) = own_layers worker (concat (layer_names <$> groups)).
Proof.
  intros H%project_spec. unfold own_layers in *. induction H as [|g p groups projected [Hg _] _ IH]; [done|]. csimpl.
  by rewrite filter_app, Hg, IH.
Qed.

Lemma project_layout names groups worker projected :
  NoDup names → worker.*1 ⊆ names → NoDup worker.*1 → groups_of names groups →
  _project_kv_cache_groups_to_worker groups worker = Ret projected → groups_of worker.*1 projected.
Proof.
  intros Hnd Hsub Hw [Hnames Hlayout] H. assert (Hown : own_layers worker (concat (layer_names <$> groups)) ≡ₚ worker.*1).
  { unfold own_layers. apply NoDup_Permutation; [apply NoDup_filter; by rewrite Hnames|done|]. intros x. rewrite list_elem_of_filter, Hnames. set_solver. }
  split; [by rewrite (project_names _ _ _ H)|]. destruct Hlayout as [Hp|(g & n & d & specs & -> & E & Hs & Hn)].
  - left. eapply plain_specs; [by eapply project_plain|done].
  - right. pose proof (project_names _ _ _ H) as Hpn. rewrite <- Hpn in Hown. apply project_spec in H.
    inversion H as [|? p ? ps [Hl Hg] Hrest]; subst. inversion Hrest; subst. rewrite E in Hg. csimpl in Hown. rewrite app_nil_r in Hown.
    destruct Hg as [[Hnil Hg]|(own & Hg & Hk)].
    + exists p, n, d, specs. split_and!; [done|by rewrite Hg|done|by left].
    + exists p, n, d, own. split_and!; [done|done| |by right]. rewrite Hk. by rewrite Hown.
Qed.

(** ** Equal numbers of blocks *)

Lemma shrink_tensors n fewest ts ts' :
  mapM (shrink_tensor n fewest) ts = Ret ts' → 0 ≤ fewest → fewest ≤ n →
  (∀ t, t ∈ ts → ∃ u, 0 ≤ u ∧ tensor_size t = u * n) →
  all_shared ts' = all_shared ts ∧ total_bytes ts' ≤ total_bytes ts.
Proof.
  intros H%omapM_ret Hf Hn Hu. unfold all_shared, total_bytes, sum_list. induction H as [|t t' ts ts' Ht _ IH]; [done|].
  destruct IH as [IH1 IH2]; [intros; apply Hu; by right|]. destruct (Hu t ltac:(by left)) as (u & Hu0 & Hsize).
  unfold shrink_tensor in Ht. destruct (decide (n = 0)); [done|]. apply obind_ret in Ht as ([] & _ & [= <-]). csimpl. rewrite IH1. split; [done|].
  rewrite Hsize. rewrite Z.div_mul by done. nia.
Qed.

Lemma shrink_config_spec c c1 groups mem fewest cfg cfg' :
  worker_plan c groups mem cfg → shrink_config c1 fewest cfg = Ret cfg' → 0 ≤ fewest → fewest ≤ num_blocks cfg →
  kv_cache_groups cfg' = groups ∧ num_blocks cfg' = fewest ∧
  all_shared (kv_cache_tensors cfg') ≡ₚ concat (layer_names <$> groups) ∧ total_bytes (kv_cache_tensors cfg') ≤ Z.max 0 mem.
Proof.
  intros Hp H Hf Hle. unfold shrink_config in H. apply obind_ret in H as (ts & Hts & (? & _ & [= <-])%obind_ret).
  destruct (shrink_tensors _ _ _ _ Hts Hf Hle (wp_sizes _ _ _ _ Hp)) as [H1 H2]. cbn [kv_cache_groups num_blocks kv_cache_tensors]. split; [by eapply wp_groups|].
  split; [done|]. rewrite H1. split; [by eapply wp_layers|]. pose proof (wp_memory _ _ _ _ Hp). lia.
Qed.

Lemma omapM_fmap {A B C} (f : B → outcome C) (g : A → B) l : mapM (λ x, f (g x)) l = mapM f (g <$> l).
Proof. induction l as [|x l IH]; [done|]. cbn [mapM fmap list_fmap]. by rewrite IH. Qed.

Lemma request_blocks_same c groups groups' blocks :
  group_spec <$> groups = group_spec <$> groups' → request_blocks c groups blocks → request_blocks c groups' blocks.
Proof.
  intros E (page & bs & Hp & Hbs & ->). exists page, bs. unfold uniform_page_size in *. rewrite <- E. split; [done|]. split; [|done].
  rewrite (omapM_fmap (λ s, bytes ← group_max_memory_usage_bytes c s; Ret (cdiv bytes page)) group_spec) in *. by rewrite <- E.
Qed.

Lemma all_known_ret {A} (l : list (option A)) k : all_known l = Some k → l = Some <$> k.
Proof.
  unfold all_known. revert k. induction l as [|o l IH]; intros k; cbn [mapM]; [by intros [= <-]|].
  intros (x & Hx & (k' & Hk & [= <-])%bind_Some)%bind_Some. csimpl. rewrite (IH k' Hk). unfold id in Hx. by rewrite Hx.
Qed.

(** The plan of a worker from the run of [worker_config]. *)
Lemma worker_config_plan c groups spec avail mem cfg :
  worker_config c groups spec mem = Ret (Some cfg) → known_layout groups → planned_memory c groups avail mem →
  pages_positive groups → (groups = [] ∨ 0 < mem ∧ ∃ b, needed_bytes groups c = Ret b ∧ b ≤ mem) →
  worker_plan c groups mem cfg.
Proof.
  unfold worker_config. intros ([] & _ & H)%obind_ret Hlayout Hplan Hpages Hcheck.
  destruct (decide (groups = [])) as [->|Hne].
  { cbn in H. injection H as <-. split; try done; cbn; [by intros t Ht%elem_of_nil|unfold total_bytes, sum_list; simpl; lia]. }
  destruct Hcheck as [|(Hmem & b & Hb & Hle)]; [done|].
  destruct Hlayout as [Hplain|(g & k & d & specs & -> & E & Hnd & Hnames)].
  - assert (Hg : ∃ n ts, general_config c groups mem = Ret (n, ts) ∧ cfg = mkConfig n ts groups).
    { unfold get_kv_cache_config_from_groups in H. cbv zeta in H.
      assert (H' : ('(n, tensors) ← general_config c groups mem; Ret (Some (mkConfig n tensors groups))) = Ret (Some cfg)).
      { destruct groups as [|g [|g' gs]]; [done| |].
        - destruct (plain_spec _ g Hplain) as [s E]; [by left|]. by rewrite E in H.
        - unfold plain in Hplain. by rewrite Hplain in H. }
      apply obind_ret in H' as ([n ts] & Hc & [= <-]). by exists n, ts. }
    destruct Hg as (n & ts & Hg & ->). by eapply general_worker.
  - unfold get_kv_cache_config_from_groups in H. cbv zeta in H. rewrite E in H. rewrite <- E in H.
    apply obind_ret in H as ([n ts] & Hc & [= <-]). by eapply uniform_worker.
Qed.

(** ** All workers *)

(** The intermediate results of a run that returns. *)
Record planning (c c1 : VllmConfig) (specs : list spec_dict) (mems : list Z) (configs : list KVCacheConfig)
    (merged : spec_dict) (groups : list KVCacheGroupSpec) (projected : list (list KVCacheGroupSpec)) (memory : list Z)
    (plans : list KVCacheConfig) (fewest : Z) : Prop := {
  pl_relen : relen c c1;
  pl_merged : merge_workers specs = Ret merged;
  pl_groups : ∃ spec', get_kv_cache_groups c merged = Ret (Some groups, spec');
  pl_projected : Forall2 (λ w p, _project_kv_cache_groups_to_worker groups w = Ret p) specs projected;
  pl_memory : Forall2 (λ (w : list KVCacheGroupSpec * Z) m, effective_memory c w.1 w.2 = Ret (Some m)) (zip projected mems) memory;
  pl_checked : ∀ w, w ∈ zip projected memory → w.1 = [] ∨ 0 < w.2 ∧ ∃ b, needed_bytes w.1 c1 = Ret b ∧ b ≤ w.2;
  pl_plans : Forall2 (λ (w : list KVCacheGroupSpec * (spec_dict * Z)) p, worker_config c1 w.1 w.2.1 w.2.2 = Ret (Some p))
               (zip projected (zip specs memory)) plans;
  pl_fewest : fewest ∈ num_blocks <$> plans ∧ ∀ n, n ∈ num_blocks <$> plans → fewest ≤ n;
  pl_configs : Forall2 (λ p cfg, shrink_config c1 fewest p = Ret cfg) plans configs;
}.

Lemma Forall2_known {A B} (f : A → outcome (option B)) l os ks :
  mapM f l = Ret os → all_known os = Some ks → Forall2 (λ x k, f x = Ret (Some k)) l ks.
Proof. intros H%omapM_ret ->%all_known_ret. by rewrite Forall2_fmap_r in H. Qed.

Lemma planning_run c specs mems configs c1 :
  get_kv_cache_configs specs mems c = (Ret (Some configs), c1) →
  ∃ merged groups projected memory plans fewest, planning c c1 specs mems configs merged groups projected memory plans fewest.
Proof.
  unfold get_kv_cache_configs. intros (? & ? & [-> ->]%get_ret & (merged & ? & [Hmerged ->]%of_outcome_ret & H)%bind_ret)%bind_ret.
  apply bind_ret in H as ([found spec'] & ? & [Hfound ->]%of_outcome_ret & H). cbn [fst] in H. destruct found as [groups|]; [|done].
  apply bind_ret in H as (projected & ? & [Hproj%omapM_ret ->]%of_outcome_ret & H).
  apply bind_ret in H as (os & ? & [Hos ->]%of_outcome_ret & H). destruct (all_known os) as [memory|] eqn:Hmem; [|done].
  apply bind_ret in H as ([] & c2 & Hfit & H). apply bind_ret in H as ([] & c3 & [-> Hchecked]%check_workers_ret & H).
  apply bind_ret in H as (? & ? & [-> ->]%get_ret & H). apply bind_ret in H as (ocfgs & ? & [Hcfgs ->]%of_outcome_ret & H).
  destruct (all_known ocfgs) as [plans|] eqn:Hplans; [|done]. apply bind_ret in H as (fewest & ? & [Hfew ->]%of_outcome_ret & H).
  apply bind_ret in H as (cs & ? & [Hcs%omapM_ret ->]%of_outcome_ret & H). injection H as <- <-.
  exists merged, groups, projected, memory, plans, fewest. split; try done.
  - unfold when in Hfit. destruct (_ =? _).
    + pose proof (auto_fit_relen (zip projected memory) c) as Hr. by rewrite Hfit in Hr.
    + injection Hfit as <-. apply relen_refl.
  - by exists spec'.
  - by eapply Forall2_known.
  - by eapply Forall2_known.
  - destruct (num_blocks <$> plans) as [|n ns]; [done|]. injection Hfew as <-. split; [apply min_fold_in|apply min_fold_le].
Qed.

Lemma effective_memory_planned c groups avail m : effective_memory c groups avail = Ret (Some m) → planned_memory c groups avail m.
Proof.
  unfold effective_memory, planned_memory. destruct (num_gpu_blocks_override c) as [k|]; [|by intros [= ->]].
  destruct groups as [|g gs]; [by left|]. intros (b & Hb & E)%ofmap_ret. right. destruct b as [b|]; [|done]. injection E as ->.
  by exists b.
Qed.

Lemma relen_override c c1 : relen c c1 → num_gpu_blocks_override c1 = num_gpu_blocks_override c.
Proof. by intros [k ->]. Qed.

(** One worker of a plan. *)
Lemma planning_worker c c1 specs mems configs merged groups projected memory plans fewest i spec mem :
  planning c c1 specs mems configs merged groups projected memory plans fewest →
  (∀ spec, spec ∈ specs → NoDup spec.*1) → (∀ cfg, cfg ∈ configs → pages_positive (kv_cache_groups cfg)) →
  specs !! i = Some spec → mems !! i = Some mem →
  ∃ p m plan cfg, projected !! i = Some p ∧ plans !! i = Some plan ∧ configs !! i = Some cfg ∧
    _project_kv_cache_groups_to_worker groups spec = Ret p ∧ groups_of spec.*1 p ∧
    planned_memory c1 p mem m ∧ worker_plan c1 p m plan ∧ shrink_config c1 fewest plan = Ret cfg ∧ kv_cache_groups cfg = p.
Proof.
  intros Hpl Hnd Hpages Hspec Hmem. destruct (pl_groups _ _ _ _ _ _ _ _ _ _ _ Hpl) as [spec' Hgroups].
  destruct (merge_workers_spec _ _ (pl_merged _ _ _ _ _ _ _ _ _ _ _ Hpl)) as [Hmnd Hmsub].
  pose proof (get_kv_cache_groups_spec _ _ _ _ Hmnd Hgroups) as Hof.
  destruct (Forall2_lookup_l _ _ _ _ _ (pl_projected _ _ _ _ _ _ _ _ _ _ _ Hpl) Hspec) as (p & Hp & Hproj).
  assert (Hz : zip projected mems !! i = Some (p, mem)) by (apply lookup_zip_with_Some; by exists p, mem).
  destruct (Forall2_lookup_l _ _ _ _ _ (pl_memory _ _ _ _ _ _ _ _ _ _ _ Hpl) Hz) as (m & Hm & Heff). cbn [fst snd] in Heff.
  assert (Hz2 : zip projected (zip specs memory) !! i = Some (p, (spec, m))).
  { apply lookup_zip_with_Some. exists p, (spec, m). split_and!; [done|done|]. apply lookup_zip_with_Some. by exists spec, m. }
  destruct (Forall2_lookup_l _ _ _ _ _ (pl_plans _ _ _ _ _ _ _ _ _ _ _ Hpl) Hz2) as (plan & Hplan & Hcfg). cbn [fst snd] in Hcfg.
  destruct (Forall2_lookup_l _ _ _ _ _ (pl_configs _ _ _ _ _ _ _ _ _ _ _ Hpl) Hplan) as (cfg & Hc & Hshrink).
  assert (Hof' : groups_of spec.*1 p).
  { eapply (project_layout merged.*1); [done| |apply Hnd|done|done]; [apply Hmsub|]; by eapply list_elem_of_lookup_2. }
  assert (Hkeep : kv_cache_groups cfg = kv_cache_groups plan).
  { unfold shrink_config in Hshrink. apply obind_ret in Hshrink as (ts & _ & (? & _ & [= <-])%obind_ret). done. }
  assert (Hkg : kv_cache_groups plan = p).
  { unfold worker_config in Hcfg. apply obind_ret in Hcfg as ([] & _ & Hcfg). unfold get_kv_cache_config_from_groups in Hcfg.
    cbv zeta in Hcfg. repeat case_match; try done; try (apply obind_ret in Hcfg as ([? ?] & _ & [= <-]); by subst). by injection Hcfg as <-. }
  assert (Hplanned : planned_memory c1 p mem m).
  { apply effective_memory_planned in Heff. unfold planned_memory in *. by rewrite (relen_override _ _ (pl_relen _ _ _ _ _ _ _ _ _ _ _ Hpl)). }
  exists p, m, plan, cfg. split_and!; try done; [|by rewrite Hkeep].
  eapply worker_config_plan; [done|apply Hof'|done| |].
  - rewrite <- Hkg, <- Hkeep. apply Hpages. by eapply list_elem_of_lookup_2.
  - apply (pl_checked _ _ _ _ _ _ _ _ _ _ _ Hpl (p, m)). eapply list_elem_of_lookup_2. apply lookup_zip_with_Some. by exists p, m.
Qed.

Lemma project_plain_inv groups worker projected :
  _project_kv_cache_groups_to_worker groups worker = Ret projected → plain projected → plain groups.
Proof.
  intros H%project_spec. unfold plain. rewrite !existsb_false. intros Hp g Hg. destruct (Forall2_in_l _ _ _ _ H Hg) as (p & Hin & _ & Hs).
  specialize (Hp p Hin). unfold is_uniform_group in *. destruct (group_spec g) as [|n d specs]; [done|].
  destruct Hs as [[_ Hs]|(own & Hs & _)]; by rewrite Hs in Hp.
Qed.

(** The worker with the fewest blocks. *)
Lemma planning_fewest c c1 specs mems configs merged groups projected memory plans fewest :
  planning c c1 specs mems configs merged groups projected memory plans fewest →
  ∃ j plan spec mem, plans !! j = Some plan ∧ num_blocks plan = fewest ∧ specs !! j = Some spec ∧ mems !! j = Some mem.
Proof.
  intros Hpl. destruct (pl_fewest _ _ _ _ _ _ _ _ _ _ _ Hpl) as [(plan & Hn & Hin)%list_elem_of_fmap _].
  apply list_elem_of_lookup_1 in Hin as [j Hj].
  destruct (Forall2_lookup_r _ _ _ _ _ (pl_plans _ _ _ _ _ _ _ _ _ _ _ Hpl) Hj) as ([p [spec m]] & Hz & _).
  apply lookup_zip_with_Some in Hz as (? & ? & [= <- <-] & _ & Hz). apply lookup_zip_with_Some in Hz as (? & ? & [= <- <-] & Hspec & Hm).
  destruct (Forall2_lookup_r _ _ _ _ _ (pl_memory _ _ _ _ _ _ _ _ _ _ _ Hpl) Hm) as ([p' mem] & Hz & _).
  apply lookup_zip_with_Some in Hz as (? & ? & [= <- <-] & _ & Hmem). exists j, plan, spec, mem. by split_and!.
Qed.

(** C8: in the caches planned for the workers in the general layout ([Some configs]),
    with distinct layer names per worker and positive pages, every layer of a worker is in
    exactly one tensor, the tensors fit in the memory the worker has (or all have the
    overridden number of blocks), and every worker has the same number of blocks.  For a
    worker with at least one group, none of them of [UniformTypeKVCacheSpecs] ([plain]),
    these blocks hold a request of the maximal length that was settled on, beside the null
    block; nothing of the configuration
    but that length changes. *)
Theorem planned_caches_fit c c1 specs mems configs :
  (∀ spec, spec ∈ specs → NoDup spec.*1) → get_kv_cache_configs specs mems c = (Ret (Some configs), c1) →
  (∀ cfg, cfg ∈ configs → pages_positive (kv_cache_groups cfg)) →
  relen c c1 ∧ ∃ n, ∀ i spec mem, specs !! i = Some spec → mems !! i = Some mem →
    ∃ cfg, configs !! i = Some cfg ∧ num_blocks cfg = n ∧
      all_shared (kv_cache_tensors cfg) ≡ₚ spec.*1 ∧
      (num_gpu_blocks_override c = None → total_bytes (kv_cache_tensors cfg) ≤ Z.max 0 mem) ∧
      (∀ k, num_gpu_blocks_override c = Some k → kv_cache_groups cfg ≠ [] → n = k) ∧
      (plain (kv_cache_groups cfg) → kv_cache_groups cfg ≠ [] →
         ∀ blocks, request_blocks c1 (kv_cache_groups cfg) blocks → blocks + 1 ≤ n).
Proof.
  intros Hnd Hrun Hpages. destruct (planning_run _ _ _ _ _ Hrun) as (merged & groups & projected & memory & plans & fewest & Hpl).
  split; [by apply (pl_relen _ _ _ _ _ _ _ _ _ _ _ Hpl)|]. exists fewest. intros i spec mem Hspec Hmem.
  destruct (planning_fewest _ _ _ _ _ _ _ _ _ _ _ Hpl) as (j & planj & specj & memj & Hj & Hfew & Hsj & Hmj).
  destruct (planning_worker _ _ _ _ _ _ _ _ _ _ _ _ _ _ Hpl Hnd Hpages Hsj Hmj) as (pj & mj & planj' & cfgj & _ & Hj' & _ & Hprojj & _ & _ & Hwj & _).
  assert (planj' = planj) as -> by congruence. pose proof (wp_blocks _ _ _ _ Hwj) as Hpos. rewrite Hfew in Hpos.
  destruct (planning_worker _ _ _ _ _ _ _ _ _ _ _ _ _ _ Hpl Hnd Hpages Hspec Hmem) as (p & m & plan & cfg & _ & Hplan & Hcfg & Hproj & [Hnames Hlayout] & Hplanned & Hw & Hshrink & Hgroups).
  assert (Hle : fewest ≤ num_blocks plan).
  { apply (pl_fewest _ _ _ _ _ _ _ _ _ _ _ Hpl). apply list_elem_of_fmap_2. by eapply list_elem_of_lookup_2. }
  destruct (shrink_config_spec _ _ _ _ _ _ _ Hw Hshrink Hpos Hle) as (_ & Hn & Hshared & Htotal).
  exists cfg. split_and!; [done|done|by rewrite Hshared| | |].
  - intros Hov. unfold planned_memory in Hplanned. rewrite (relen_override _ _ (pl_relen _ _ _ _ _ _ _ _ _ _ _ Hpl)), Hov in Hplanned. by subst m.
  - rewrite Hgroups. intros k Hov Hne. rewrite <- Hfew. apply (wp_override _ _ _ _ Hwj).
    + by rewrite (relen_override _ _ (pl_relen _ _ _ _ _ _ _ _ _ _ _ Hpl)).
    + intros ->. apply project_spec in Hproj, Hprojj. inversion Hprojj; subst. by inversion Hproj; subst.
  - rewrite Hgroups. intros Hplain Hne blocks Hreq. rewrite <- Hfew.
    pose proof (project_plain_inv _ _ _ Hproj Hplain) as Hpg. pose proof (project_plain _ _ _ Hpg Hproj) as E. pose proof (project_plain _ _ _ Hpg Hprojj) as Ej.
    apply (wp_request _ _ _ _ Hwj).
    + eapply plain_specs; [exact Ej|done].
    + intros ->. rewrite <- E in Ej. by destruct p.
    + eapply request_blocks_same; [|exact Hreq]. congruence.
Qed.

(** A test for positive pages. *)
Definition pages_check (configs : list KVCacheConfig) : bool :=
  forallb (λ cfg, forallb (λ g, forallb (λ s, match page_size_bytes s with Ret p => 0 <? p | Raise _ => true end)
             (members (group_spec g))) (kv_cache_groups cfg)) configs.

Lemma forallb_in {A} (f : A → bool) l x : forallb f l = true → x ∈ l → f x = true.
Proof. intros H Hx. rewrite forallb_forall in H. apply H. by apply list_elem_of_In. Qed.

Lemma pages_check_ok configs : pages_check configs = true → ∀ cfg, cfg ∈ configs → pages_positive (kv_cache_groups cfg).
Proof.
  intros Hall cfg Hc g s p Hg Hs Hp. pose proof (forallb_in _ _ _ (forallb_in _ _ _ (forallb_in _ _ _ Hall Hc) Hg) Hs) as H.
  cbv beta in H. rewrite Hp in H. by apply Z.ltb_lt.
Qed.

(** The hybrid model on two pipeline stages, the second with less memory. *)
Definition stages : list spec_dict := [take 3 hybrid_spec; drop 3 hybrid_spec].
Definition stage_memory : list Z := [40 * 65536; 38 * 65536].

Definition stage_configs : list KVCacheConfig :=
  match get_kv_cache_configs stages stage_memory small_config with
  | (Ret (Some cfgs), _) => cfgs
  | _ => []
  end.

(** The length that fits the second stage. *)
Definition stage_config : VllmConfig := with_max_model_len 848 small_config.

Lemma stage_run :
  get_kv_cache_configs stages stage_memory small_config = (Ret (Some stage_configs), stage_config).
Proof. by vm_compute. Qed.

Lemma stage_names spec : spec ∈ stages → NoDup spec.*1.
Proof.
  intros Hs. apply (bool_decide_unpack _). repeat (apply elem_of_cons in Hs as [->|Hs]; [by vm_compute|]). by apply elem_of_nil in Hs.
Qed.

Lemma stage_pages cfg : cfg ∈ stage_configs → pages_positive (kv_cache_groups cfg).
Proof. apply pages_check_ok. by vm_compute. Qed.

Lemma planned_caches_fit_witness :
  (num_blocks <$> stage_configs) = [76; 76] ∧ relen small_config stage_config ∧ ∃ n, ∀ i spec mem, stages !! i = Some spec → stage_memory !! i = Some mem →
    ∃ cfg, stage_configs !! i = Some cfg ∧ num_blocks cfg = n ∧
      all_shared (kv_cache_tensors cfg) ≡ₚ spec.*1 ∧
      (num_gpu_blocks_override small_config = None → total_bytes (kv_cache_tensors cfg) ≤ Z.max 0 mem) ∧
      (∀ k, num_gpu_blocks_override small_config = Some k → kv_cache_groups cfg ≠ [] → n = k) ∧
      (plain (kv_cache_groups cfg) → kv_cache_groups cfg ≠ [] →
         ∀ blocks, request_blocks stage_config (kv_cache_groups cfg) blocks → blocks + 1 ≤ n).
Proof.
  split; [by vm_compute|]. exact (planned_caches_fit small_config stage_config stages stage_memory stage_configs stage_names stage_run stage_pages).
Defined.

(** ** Two limits of the planning *)

Definition with_head_size_v (v : Z) (s : LayerSpec) : LayerSpec := set_head_size_v (Some v) s.

(** [FullAttentionSpec.merge] compares the fields of [AttentionSpec], to which the value
    head size does not belong: layers whose pages differ count as uniform, and the tensor
    of the wider one is sized by the page of the first. *)
Lemma value_heads_merged :
  let narrow := layer FullAttentionSpec 16 in
  let wide := with_head_size_v 128 narrow in
  let spec := [("a", narrow); ("b", wide)]%string in
  page_size_bytes narrow = Ret 32768 ∧ page_size_bytes wide = Ret 49152 ∧
  is_kv_cache_spec_uniform spec = Ret true ∧
  match (get_kv_cache_configs [spec] [100 * 65536] (with_max_model_len 64 small_config)).1 with
  | Ret (Some [cfg]) => kv_cache_tensors cfg = [mkTensor (100 * 32768) ["a"%string]; mkTensor (100 * 32768) ["b"%string]] ∧ num_blocks cfg = 100
  | _ => False
  end.
Proof. by vm_compute. Qed.

(** The conversion of a chunked-local layer drops its quantization mode, and with it the
    bytes of the per-token scales. *)
Lemma chunked_conversion_loses_scales :
  let s := set_quant_mode INT8_PER_TOKEN_HEAD (set_head_size_v None (layer (ChunkedLocalAttentionSpec 64) 16)) in
  page_size_bytes s = Ret (32768 + 1024) ∧ (s' ← convert_spec None s; page_size_bytes s') = Ret 32768.
Proof. by vm_compute. Qed.
