(* ===== verification/Ngram.v ===== *)
(** * The n-gram proposer

    [vllm/v1/spec_decode/ngram_proposer.py]: draft tokens are the tokens that followed
    an earlier occurrence of the longest suffix of the context.  The code finds it in
    one pass over the reversed tokens with the prefix function of Knuth, Morris and
    Pratt, of which only the first [max_ngram] values are stored; [reference_draft]
    searches for it directly, and the two are proved equal.

    [NgramProposer] is the proposer with the two buffers it preallocates for the batch,
    which keep the drafts of earlier steps.  The number of threads is left out: it does
    not change a result. *)

From S2P Require Import Prelude.

(** The [while] loop: the number of tokens matched and the position they end at.  An
    array access outside its bounds raises. *)
Fixpoint match_loop (fuel : nat) (tokens : list Z) (max_ngram i prev_lps longest_ngram position : nat)
    (lps : list nat) : outcome (nat * nat) :=
  if decide (length tokens <= i) then Ret (longest_ngram, position)
  else
    match fuel with
    | O => Raise OutOfFuel
    | S fuel =>
        match tokens !! prev_lps, tokens !! i with
        | Some a, Some b =>
            if (a =? b)%Z then
              let prev_lps := S prev_lps in
              let longer := bool_decide (longest_ngram <= prev_lps) in
              let longest_ngram := if longer then prev_lps else longest_ngram in
              let position := if longer then i else position in
              let lps := if decide (i < max_ngram) then <[i := prev_lps]> lps else lps in
              if decide (prev_lps = max_ngram) then
                match lps !! (max_ngram - 1) with
                | Some v => match_loop fuel tokens max_ngram (S i) v longest_ngram position lps
                | None => Raise IndexError
                end
              else match_loop fuel tokens max_ngram (S i) prev_lps longest_ngram position lps
            else
              match prev_lps with
              | S p =>
                  match lps !! p with
                  | Some v => match_loop fuel tokens max_ngram i v longest_ngram position lps
                  | None => Raise IndexError
                  end
              | O => match_loop fuel tokens max_ngram (S i) O longest_ngram position lps
              end
        | _, _ => Raise IndexError
        end
    end.

Definition _find_longest_matched_ngram_and_propose_tokens (origin_tokens : list Z) (min_ngram max_ngram : nat)
    (max_model_len k : Z) : outcome (list Z) :=
  let total_token := length origin_tokens in
  if decide (total_token < min_ngram) then Ret []
  else
    let k := Z.min k (max_model_len - Z.of_nat total_token) in
    if (k <=? 0)%Z then Ret []
    else
      obind (λ found : nat * nat,
        let '(longest_ngram, position) := found in
        if decide (longest_ngram < min_ngram) then Ret []
        else
          let start_position := total_token - 1 - position + longest_ngram in
          let k := Z.min k (Z.of_nat (total_token - start_position)) in
          Ret (py_slice origin_tokens (Z.of_nat start_position) (Z.of_nat start_position + k)))
        (match_loop (2 * total_token) (reverse origin_tokens) max_ngram 1 0 0 0 (replicate max_ngram 0)).

(** ** The proposer and its buffers

    The buffers of the batch keep the values of the previous steps. *)
Record NgramProposer := {
  min_n : nat;
  max_n : nat;
  k : nat;
  max_model_len : Z;
  valid_ngram_draft : list (list Z);
  valid_ngram_num_drafts : list nat;
}.

Definition with_buffers (drafts : list (list Z)) (nums : list nat) (st : NgramProposer) : NgramProposer :=
  {| min_n := min_n st; max_n := max_n st; k := k st; max_model_len := max_model_len st;
     valid_ngram_draft := drafts; valid_ngram_num_drafts := nums |}.

(** [__init__], without the number of threads and the warm-up call. *)
Definition NgramProposer_init (prompt_lookup_min prompt_lookup_max : option nat) (num_speculative_tokens max_num_seqs : nat)
    (model_len : Z) : outcome NgramProposer :=
  match prompt_lookup_min, prompt_lookup_max with
  | Some lo, Some hi =>
      Ret {| min_n := lo; max_n := hi; k := num_speculative_tokens; max_model_len := model_len;
             valid_ngram_draft := replicate max_num_seqs (replicate num_speculative_tokens 0%Z);
             valid_ngram_num_drafts := replicate max_num_seqs 0 |}
  | _, _ => Raise AssertionError
  end.

(** The body of [batch_propose_numba]: the iterations write distinct rows, so that their
    order does not matter. *)
Definition batch_propose_one (num_tokens_no_spec : list nat) (token_ids_cpu : list (list Z)) (idx : nat)
    : M NgramProposer unit :=
  num_tokens ← of_option IndexError (num_tokens_no_spec !! idx);
  row ← of_option IndexError (token_ids_cpu !! idx);
  st ← get;
  drafter_output ← of_outcome (_find_longest_matched_ngram_and_propose_tokens (take num_tokens row)
                                 (min_n st) (max_n st) (max_model_len st) (Z.of_nat (k st)));
  _ ← of_option IndexError (valid_ngram_num_drafts st !! idx);
  modify (λ st, with_buffers (valid_ngram_draft st) (<[idx := length drafter_output]> (valid_ngram_num_drafts st)) st);;
  when (bool_decide (drafter_output ≠ []))
    (draft ← of_option IndexError (valid_ngram_draft st !! idx);
     if decide (length drafter_output <= length draft) then
       modify (λ st, with_buffers (<[idx := drafter_output ++ drop (length drafter_output) draft]> (valid_ngram_draft st))
                       (valid_ngram_num_drafts st) st)
     else raise ValueError).

Definition batch_propose_numba (valid_ngram_requests num_tokens_no_spec : list nat) (token_ids_cpu : list (list Z))
    : M NgramProposer unit :=
  foreach valid_ngram_requests (batch_propose_one num_tokens_no_spec token_ids_cpu).

Definition read_draft (valid_ngram_requests : list nat) (i : nat) : M NgramProposer (list Z) :=
  st ← get;
  if decide (i ∈ valid_ngram_requests) then
    num_drafts ← of_option IndexError (valid_ngram_num_drafts st !! i);
    if decide (0 < num_drafts) then
      draft ← of_option IndexError (valid_ngram_draft st !! i);
      mret (take num_drafts draft)
    else mret []
  else mret [].

Definition batch_propose (num_requests : nat) (valid_ngram_requests num_tokens_no_spec : list nat)
    (token_ids_cpu : list (list Z)) : M NgramProposer (list (list Z)) :=
  when (bool_decide (0 < length valid_ngram_requests))
    (batch_propose_numba valid_ngram_requests num_tokens_no_spec token_ids_cpu);;
  mapM_list (read_draft valid_ngram_requests) (seq 0 num_requests).

(** Whether request [i] needs a draft; the test on its length is evaluated only when a
    token was sampled. *)
Definition needs_draft (num_tokens_no_spec : list nat) (i : nat) (sampled_ids : list Z) : M NgramProposer bool :=
  if decide (length sampled_ids = 0) then mret false
  else
    num_tokens ← of_option IndexError (num_tokens_no_spec !! i);
    st ← get;
    mret (negb (max_model_len st <=? Z.of_nat num_tokens)%Z).

Definition propose (sampled_token_ids : list (list Z)) (num_tokens_no_spec : list nat) (token_ids_cpu : list (list Z))
    : M NgramProposer (list (list Z)) :=
  valid_ngram_requests ←
    foldM (λ (valid : list nat) (x : nat * list Z),
             b ← needs_draft num_tokens_no_spec x.1 x.2;
             mret (if b : bool then valid ++ [x.1] else valid))
      (imap pair sampled_token_ids) [];
  batch_propose (length sampled_token_ids) valid_ngram_requests num_tokens_no_spec token_ids_cpu.

(** ** The reference *)

(** The first earlier occurrence of the last [n] tokens. *)
Definition first_match (origin : list Z) (n : nat) : option nat :=
  head (filter (λ p, take n (drop p origin) = drop (length origin - n) origin) (seq 0 (length origin - n))).

(** The longest such suffix with a length in [min_ngram .. max_ngram]. *)
Definition best_match (origin : list Z) (min_ngram max_ngram : nat) : option (nat * nat) :=
  head (omap (λ n, pair n <$> first_match origin n) (reverse (seq min_ngram (S max_ngram - min_ngram)))).

Definition reference_draft (origin : list Z) (min_ngram max_ngram : nat) (max_model_len k : Z) : list Z :=
  match best_match origin min_ngram max_ngram with
  | None => []
  | Some (n, p) => take (Z.to_nat (Z.min k (max_model_len - Z.of_nat (length origin)))) (drop (p + n) origin)
  end.

(** ** Borders

    A border of the first [i] tokens is a proper prefix that is also their suffix. *)

Section borders.
Context (t : list Z).

Definition border (i v : nat) : Prop := v < i ∧ ∀ j, j < v → t !! j = t !! (i - v + j).

Definition longest_border (i v : nat) : Prop := border i v ∧ ∀ w, border i w → w <= v.

Lemma border_0 i : 0 < i → border i 0.
Proof. split; [done|]. intros j Hj. lia. Qed.

Lemma border_S i v : border (S i) (S v) ↔ border i v ∧ t !! v = t !! i.
Proof.
  split.
  - intros [H1 H2]. split; [split; [lia|]|].
    + intros j Hj. rewrite (H2 j) by lia. f_equal; lia.
    + rewrite (H2 v) by lia. f_equal; lia.
  - intros [[H1 H2] H3]. split; [lia|]. intros j Hj. destruct (decide (j = v)) as [->|Hne].
    + rewrite H3. f_equal; lia.
    + rewrite (H2 j) by lia. f_equal; lia.
Qed.

Lemma border_trans i v w : border i v → border v w → border i w.
Proof.
  intros [H1 H2] [H3 H4]. split; [lia|]. intros j Hj. rewrite (H4 j) by done. rewrite (H2 (v - w + j)) by lia. f_equal; lia.
Qed.

Lemma border_inner i v w : border i v → border i w → w < v → border v w.
Proof.
  intros [H1 H2] [H3 H4] Hlt. split; [done|]. intros j Hj. rewrite (H4 j) by done. rewrite (H2 (v - w + j)) by lia. f_equal; lia.
Qed.
End borders.

(** ** The loop *)

Section loop.
Context (t : list Z) (max_ngram : nat).
Hypothesis Hmax : 1 <= max_ngram.

(** [lps] holds the prefix function of the first positions, and is zero behind. *)
Definition lps_ok (i : nat) (lps : list nat) : Prop :=
  length lps = max_ngram ∧
  (∀ j, j < i → j < max_ngram → ∃ v, lps !! j = Some v ∧ longest_border t (S j) v) ∧
  (∀ j, i <= j → j < max_ngram → lps !! j = Some 0).

(** The longest match ending before [i], and the last place it ends. *)
Definition best_ok (i longest position : nat) : Prop :=
  longest <= max_ngram ∧ (∀ j v, j < i → border t (S j) v → v <= max_ngram → v <= longest) ∧
  (0 < longest → position < i ∧ border t (S position) longest ∧
     ∀ j, j < i → border t (S j) longest → j <= position).

(** [prev] is a border, and longer ones cannot be continued. *)
Record scanned (i prev longest position : nat) (lps : list nat) : Prop := {
  sc_border : border t i prev;
  sc_cap : prev < max_ngram;
  sc_tried : ∀ w, border t i w → w < max_ngram → prev < w → t !! w ≠ t !! i;
  sc_lps : lps_ok i lps;
  sc_best : best_ok i longest position;
}.

Lemma scanned_init : scanned 1 0 0 0 (replicate max_ngram 0).
Proof.
  assert (H1 : ∀ v, border t 1 v → v = 0) by (intros v [Hv _]; lia). split.
  - apply border_0; lia.
  - lia.
  - intros w Hw. rewrite (H1 w Hw). lia.
  - split; [by rewrite length_replicate|]. split.
    + intros j Hj _. exists 0. assert (j = 0) as -> by lia. split; [by apply lookup_replicate_2|].
      split; [apply border_0; lia|]. intros w Hw. by rewrite (H1 w Hw).
    + intros j _ Hj. by apply lookup_replicate_2.
  - split; [lia|]. split; [|lia]. intros j v Hj Hb _. assert (j = 0) as -> by lia. by rewrite (H1 v Hb).
Qed.

(** The longest border up to the cap after one more token. *)
Lemma continued i prev longest position lps w :
  scanned i prev longest position lps → border t (S i) w → w <= max_ngram →
  w <= S prev ∧ (t !! prev ≠ t !! i → prev = 0 → w = 0).
Proof.
  intros [H1 H2 H3 _ _] Hb Hw. destruct w as [|w]; [split; [lia|done]|]. apply border_S in Hb as [Hb Ht].
  destruct (decide (prev < w)) as [Hlt|Hge]; [by destruct (H3 w Hb ltac:(lia) Hlt)|]. split; [lia|].
  intros Hne ->. assert (w = 0) as -> by lia. done.
Qed.

Lemma lps_step i v lps :
  lps_ok i lps → longest_border t (S i) v ∨ max_ngram <= i →
  lps_ok (S i) (if decide (i < max_ngram) then <[i := v]> lps else lps).
Proof.
  intros (Hl & Hd & Hz) Hv. destruct (decide (i < max_ngram)) as [Hi|Hi].
  - destruct Hv as [Hv|]; [|lia]. split; [by rewrite length_insert|]. split.
    + intros j Hj Hjm. destruct (decide (j = i)) as [->|Hne].
      * exists v. split; [|done]. apply list_lookup_insert_eq. lia.
      * rewrite list_lookup_insert_ne by done. apply Hd; lia.
    + intros j Hj Hjm. rewrite list_lookup_insert_ne by lia. apply Hz; lia.
  - split; [done|]. split; [|intros j Hj Hjm; lia]. intros j Hj Hjm. apply Hd; lia.
Qed.

Lemma best_step i m longest position :
  best_ok i longest position → border t (S i) m → (∀ w, border t (S i) w → w <= max_ngram → w <= m) → m <= max_ngram → 0 < m →
  best_ok (S i) (if bool_decide (longest <= m) then m else longest) (if bool_decide (longest <= m) then i else position).
Proof.
  intros (H1 & H2 & H3) Hb Htop Hm Hpos. case_bool_decide as Hle.
  - split; [done|]. split.
    + intros j v Hj Hv Hvm. destruct (decide (j = i)) as [->|Hne]; [by apply Htop|]. specialize (H2 j v ltac:(lia) Hv Hvm). lia.
    + intros _. split; [lia|]. split; [done|]. intros j Hj _. lia.
  - split; [done|]. split.
    + intros j v Hj Hv Hvm. destruct (decide (j = i)) as [->|Hne]; [|by apply (H2 j v); [lia|..]]. specialize (Htop v Hv Hvm). lia.
    + intros Hl. destruct (H3 Hl) as (Hp & Hpb & Hlast). split; [lia|]. split; [done|]. intros j Hj Hjb.
      destruct (decide (j = i)) as [->|Hne]; [|apply Hlast; [lia|done]]. specialize (Htop _ Hjb H1). lia.
Qed.

(** A token that ends no match. *)
Lemma best_miss i longest position :
  best_ok i longest position → (∀ w, border t (S i) w → w <= max_ngram → w = 0) → best_ok (S i) longest position.
Proof.
  intros (H1 & H2 & H3) Hz. split; [done|]. split.
  - intros j v Hj Hv Hvm. destruct (decide (j = i)) as [->|Hne]; [rewrite (Hz v Hv Hvm); lia|]. apply (H2 j v); [lia|done..].
  - intros Hl. destruct (H3 Hl) as (Hp & Hpb & Hlast). split; [lia|]. split; [done|]. intros j Hj Hjb.
    destruct (decide (j = i)) as [->|Hne]; [|apply Hlast; [lia|done]]. rewrite (Hz _ Hjb H1) in Hl. lia.
Qed.

(** One matching token: the state before the cap is applied. *)
Lemma scanned_match i prev longest position lps :
  scanned i prev longest position lps → t !! prev = t !! i →
  let m := S prev in
  let lps' := if decide (i < max_ngram) then <[i := m]> lps else lps in
  border t (S i) m ∧ (∀ w, border t (S i) w → w <= max_ngram → w <= m) ∧ lps_ok (S i) lps' ∧
  best_ok (S i) (if bool_decide (longest <= m) then m else longest) (if bool_decide (longest <= m) then i else position).
Proof.
  intros Hs Ht m lps'. pose proof Hs as [H1 H2 H3 H4 H5]. assert (Hb : border t (S i) m) by by apply border_S.
  assert (Htop : ∀ w, border t (S i) w → w <= max_ngram → w <= m).
  { intros w Hw Hwm. by apply (continued _ _ _ _ _ _ Hs). }
  split; [done|]. split; [done|]. split; [|apply best_step; try done; unfold m; lia].
  apply lps_step; [done|]. destruct (decide (max_ngram <= i)) as [|Hi]; [by right|left]. split; [done|].
  intros w Hw. apply Htop; [done|]. destruct Hw as [Hw _]. lia.
Qed.

Lemma match_loop_correct fuel : ∀ i prev longest position lps,
  scanned i prev longest position lps → 1 <= i → 2 * (length t - i) + prev <= fuel →
  ∃ l p, match_loop fuel t max_ngram i prev longest position lps = Ret (l, p) ∧ best_ok (Nat.max i (length t)) l p.
Proof using Hmax.
  induction fuel as [|fuel IH]; intros i prev longest position lps Hs Hi Hfuel; pose proof Hs as [H1 H2 H3 H4 H5]; cbn [match_loop].
  { rewrite decide_True by lia. exists longest, position. split; [done|]. by replace (Nat.max i (length t)) with i by lia. }
  destruct (decide (length t <= i)) as [Hend|Hgo].
  { exists longest, position. split; [done|]. by replace (Nat.max i (length t)) with i by lia. }
  pose proof H1 as [Hpi _]. destruct (lookup_lt_is_Some_2 t prev ltac:(lia)) as [a Ea], (lookup_lt_is_Some_2 t i ltac:(lia)) as [b Eb].
  rewrite Ea, Eb. destruct (Z.eqb_spec a b) as [->|Hab].
  - destruct (scanned_match _ _ _ _ _ Hs ltac:(congruence)) as (Hb & Htop & Hl & Hbest). cbv zeta in *.
    set (lps' := if decide (i < max_ngram) then _ else lps) in *. set (L := if bool_decide _ then S prev else longest) in *.
    set (P := if bool_decide _ then i else position) in *. replace (Nat.max i (length t)) with (Nat.max (S i) (length t)) by lia.
    destruct (decide (S prev = max_ngram)) as [Ecap|Ecap].
    + destruct Hl as (Hlen & Hd & Hz). destruct (Hd (max_ngram - 1)) as (v & Ev & Hv & Hvl); [lia|lia|].
      replace (S (max_ngram - 1)) with max_ngram in * by lia. rewrite Ev. rewrite Ecap in Hb. pose proof Hv as [Hvm _].
      apply IH; [|lia|lia]. split; [by eapply border_trans|done| |by split|done].
      intros w Hw Hwm Hlt. exfalso. specialize (Hvl w (border_inner _ _ _ _ Hb Hw Hwm)). lia.
    + apply IH; [|lia|lia]. split; [done|lia| |done|done]. intros w Hw Hwm Hlt. specialize (Htop w Hw ltac:(lia)). lia.
  - assert (Hne : t !! prev ≠ t !! i) by congruence. destruct prev as [|p].
    + replace (Nat.max i (length t)) with (Nat.max (S i) (length t)) by lia. apply IH; [|lia|lia].
      assert (Hz : ∀ w, border t (S i) w → w <= max_ngram → w = 0).
      { intros w Hw Hwm. by apply (continued _ _ _ _ _ _ Hs). }
      split; [apply border_0; lia|lia| | |by apply best_miss].
      * intros w Hw Hwm Hlt. specialize (Hz w Hw ltac:(lia)). lia.
      * destruct H4 as (Hlen & Hd & Hzero). split; [done|]. split; [|intros j Hj Hjm; apply Hzero; lia].
        intros j Hj Hjm. destruct (decide (j = i)) as [->|Hji]; [|apply Hd; lia]. exists 0. split; [by apply Hzero|].
        split; [apply border_0; lia|]. intros w Hw. pose proof Hw as [Hw' _]. rewrite (Hz w Hw); lia.
    + pose proof H4 as (Hlen & Hd & Hzero). destruct (Hd p) as (v & Ev & Hv & Hvl); [lia|lia|]. rewrite Ev. pose proof Hv as [Hvp _].
      apply IH; [|done|lia]. split; [by eapply border_trans|lia| |done|done]. intros w Hw Hwm Hlt.
      destruct (decide (S p < w)) as [|Hle]; [by apply H3|]. destruct (decide (w = S p)) as [->|Hwp]; [done|].
      specialize (Hvl w (border_inner _ _ _ _ H1 Hw ltac:(lia))). lia.
Qed.
End loop.

(** ** Back to the order of the tokens *)

Section search.
Context {A : Type} (P : nat → Prop) `{!∀ p, Decision (P p)} (f : nat → option A).

Lemma head_filter_seq m : ∀ a p, a <= p < a + m → P p → (∀ q, a <= q < p → ¬ P q) → head (filter P (seq a m)) = Some p.
Proof using Type.
  induction m as [|m IH]; intros a p Hp HP Hbefore; [lia|]. cbn [seq]. destruct (decide (p = a)) as [->|Hne].
  - by rewrite filter_cons_True.
  - rewrite filter_cons_False by (apply Hbefore; lia). apply IH; [lia|done|]. intros q Hq. apply Hbefore. lia.
Qed.

Lemma head_filter_none m : ∀ a, (∀ q, a <= q < a + m → ¬ P q) → head (filter P (seq a m)) = None.
Proof using Type.
  induction m as [|m IH]; intros a Hno; [done|]. cbn [seq]. rewrite filter_cons_False by (apply Hno; lia).
  apply IH. intros q Hq. apply Hno. lia.
Qed.

Lemma reverse_seq_S a m : reverse (seq a (S m)) = (a + m) :: reverse (seq a m).
Proof. by rewrite seq_S, reverse_app. Qed.

Lemma head_omap_seq m a n y : a <= n < a + m → f n = Some y → (∀ q, n < q < a + m → f q = None) →
  head (omap f (reverse (seq a m))) = Some y.
Proof using Type.
  induction m as [|m IH]; intros Hn Hf Hafter; [lia|]. rewrite reverse_seq_S. csimpl. destruct (decide (n = a + m)) as [->|Hne].
  - by rewrite Hf.
  - rewrite Hafter by lia. apply IH; [lia|done|]. intros q Hq. apply Hafter. lia.
Qed.

Lemma head_omap_none m a : (∀ q, a <= q < a + m → f q = None) → head (omap f (reverse (seq a m))) = None.
Proof using Type.
  induction m as [|m IH]; intros Hno; [done|]. rewrite reverse_seq_S. csimpl. rewrite Hno by lia.
  apply IH. intros q Hq. apply Hno. lia.
Qed.
End search.

(** A border of the reversed tokens is an earlier occurrence of the last tokens. *)
Lemma border_occurs origin n p :
  p < length origin - n →
  border (reverse origin) (length origin - p) n ↔ take n (drop p origin) = drop (length origin - n) origin.
Proof.
  intros Hp. split.
  - intros [_ Hb]. apply list_eq. intros j. rewrite lookup_drop. destruct (decide (j < n)) as [Hj|Hj].
    + rewrite lookup_take_lt, lookup_drop by done. specialize (Hb (n - 1 - j) ltac:(lia)).
      rewrite !reverse_lookup in Hb by lia. symmetry. etrans; [|etrans; [exact Hb|]]; f_equal; lia.
    + rewrite lookup_take_ge by lia. symmetry. apply lookup_ge_None. lia.
  - intros E. split; [lia|]. intros j Hj. rewrite !reverse_lookup by lia.
    pose proof (f_equal (λ l : list Z, l !! (n - 1 - j)) E) as Ej. cbn beta in Ej.
    rewrite lookup_take_lt, !lookup_drop in Ej by lia. symmetry. etrans; [|etrans; [exact Ej|]]; f_equal; lia.
Qed.

Lemma first_match_none origin n :
  (∀ i, i < length origin → ¬ border (reverse origin) (S i) n) → first_match origin n = None.
Proof.
  intros Hno. apply head_filter_none. intros q Hq. rewrite <- border_occurs by lia.
  replace (length origin - q) with (S (length origin - 1 - q)) by lia. apply Hno. lia.
Qed.

Lemma first_match_some origin n i :
  i < length origin → border (reverse origin) (S i) n →
  (∀ j, j < length origin → border (reverse origin) (S j) n → j <= i) →
  first_match origin n = Some (length origin - 1 - i).
Proof.
  intros Hi Hb Hlast. pose proof Hb as [Hn _]. apply head_filter_seq; [lia| |].
  - rewrite <- border_occurs by lia. by replace (length origin - _) with (S i) by lia.
  - intros q Hq. rewrite <- border_occurs by lia. replace (length origin - q) with (S (length origin - 1 - q)) by lia.
    intros Hbq. specialize (Hlast (length origin - 1 - q) ltac:(lia) Hbq). lia.
Qed.

(** ** The two searches agree *)

Lemma best_match_agrees origin min_ngram max_ngram l p :
  1 <= length origin → 1 <= min_ngram → best_ok (reverse origin) max_ngram (length origin) l p →
  best_match origin min_ngram max_ngram
  = if decide (l < min_ngram) then None else Some (l, length origin - 1 - p).
Proof.
  intros Hlen Hmin (Hcap & Hlongest & Hplace). unfold best_match.
  assert (Hnone : ∀ n, l < n → n <= max_ngram → first_match origin n = None).
  { intros n Hn Hnm. apply first_match_none. intros i Hi Hb. specialize (Hlongest i n Hi Hb Hnm). lia. }
  destruct (decide (l < min_ngram)) as [Hl|Hl].
  - apply head_omap_none. intros q Hq. by rewrite (Hnone q) by lia.
  - destruct (Hplace ltac:(lia)) as (Hp & Hb & Hlast). eapply (head_omap_seq _ _ _ l); [lia| |].
    + by rewrite (first_match_some _ _ _ Hp Hb Hlast).
    + intros q Hq. by rewrite (Hnone q) by lia.
Qed.

(** C22: the one-pass search with the prefix function returns, for every context and all
    bounds on the length of the n-gram, exactly the tokens after the earliest occurrence
    of the longest suffix that occurs before, at most [k] of them and none beyond the
    maximum model length; it terminates and never reads outside its arrays. *)
Theorem ngram_search_agrees (origin : list Z) (min_ngram max_ngram : nat) (max_model_len k : Z) :
  1 <= min_ngram → min_ngram <= max_ngram →
  _find_longest_matched_ngram_and_propose_tokens origin min_ngram max_ngram max_model_len k
  = Ret (reference_draft origin min_ngram max_ngram max_model_len k).
Proof.
  intros Hmin Hmax. unfold _find_longest_matched_ngram_and_propose_tokens, reference_draft.
  destruct (decide (length origin < min_ngram)) as [Hshort|Hlong].
  { unfold best_match. by rewrite head_omap_none by (intros q Hq; apply fmap_None, first_match_none; intros i Hi [Hb _]; lia). }
  destruct (Z.leb_spec (k `min` (max_model_len - Z.of_nat (length origin))) 0) as [Hk|Hk].
  { rewrite Z2Nat.nonpos by done. by destruct (best_match _ _ _) as [[n p]|]. }
  destruct (match_loop_correct (reverse origin) max_ngram ltac:(lia) (2 * length origin) 1 0 0 0 (replicate max_ngram 0))
    as (l & p & -> & Hbest); [apply scanned_init; lia|lia|rewrite length_reverse; lia|].
  rewrite length_reverse, Nat.max_r in Hbest by lia. cbn [obind].
  rewrite (best_match_agrees origin _ _ _ _ ltac:(lia) Hmin Hbest). destruct (decide (l < min_ngram)) as [|Hl]; [done|].
  destruct Hbest as (_ & _ & Hplace). destruct (Hplace ltac:(lia)) as (Hp & [Hlp _] & _).
  f_equal. rewrite py_slice_nonneg by lia. rewrite Nat2Z.id.
  set (start := length origin - 1 - p + l). set (n := (k `min` _)%Z) in *.
  destruct (decide (Z.to_nat n <= length origin - start)) as [Hfit|Hcut].
  - f_equal. lia.
  - rewrite !take_ge; [done|rewrite length_drop; lia..].
Qed.

Lemma ngram_search_agrees_witness :
  _find_longest_matched_ngram_and_propose_tokens [1; 2; 3; 1; 2; 4; 1; 2]%Z 1 3 100 2 = Ret [3; 1]%Z ∧
  _find_longest_matched_ngram_and_propose_tokens [1; 2; 3; 1; 2; 4; 1; 2]%Z 1 3 100 2
  = Ret (reference_draft [1; 2; 3; 1; 2; 4; 1; 2]%Z 1 3 100 2).
Proof. split; [by vm_compute|]. apply ngram_search_agrees; lia. Defined.

(** ** The batch *)

(** The draft of one request. *)
Definition draft_for (st : NgramProposer) (sampled_ids : list Z) (num_tokens : nat) (row : list Z) : list Z :=
  if bool_decide (sampled_ids = []) || (max_model_len st <=? Z.of_nat num_tokens)%Z then []
  else reference_draft (take num_tokens row) (min_n st) (max_n st) (max_model_len st) (Z.of_nat (k st)).

Definition config (st : NgramProposer) : nat * nat * nat * Z := (min_n st, max_n st, k st, max_model_len st).

(** Buffers for [n] requests, and bounds the configuration has checked. *)
Record proposer_ok (n : nat) (st : NgramProposer) : Prop := {
  po_min : 1 <= min_n st;
  po_max : min_n st <= max_n st;
  po_nums : length (valid_ngram_num_drafts st) = n;
  po_drafts : length (valid_ngram_draft st) = n;
  po_rows : ∀ row, row ∈ valid_ngram_draft st → length row = k st;
}.

(** The buffers hold [out] for request [i]. *)
Definition holds_draft (st : NgramProposer) (i : nat) (out : list Z) : Prop :=
  valid_ngram_num_drafts st !! i = Some (length out) ∧
  ∃ row, valid_ngram_draft st !! i = Some row ∧ take (length out) row = out.

Lemma reference_draft_length origin min_ngram max_ngram len n :
  length (reference_draft origin min_ngram max_ngram len (Z.of_nat n)) <= n.
Proof. unfold reference_draft. destruct (best_match _ _ _) as [[m p]|]; simpl; [|lia]. rewrite length_take. lia. Qed.

Lemma NgramProposer_init_ok lo hi num_speculative_tokens max_num_seqs model_len st :
  1 <= lo → lo <= hi → NgramProposer_init (Some lo) (Some hi) num_speculative_tokens max_num_seqs model_len = Ret st →
  proposer_ok max_num_seqs st.
Proof.
  intros H1 H2 [= <-]. split; simpl; [done|done|by rewrite length_replicate..|].
  intros row [-> _]%elem_of_replicate. by rewrite length_replicate.
Qed.

Section batch.
Context (n : nat) (c : nat * nat * nat * Z) (nums : list nat) (rows : list (list Z)).

(** What request [idx] gets from the search. *)
Definition searched (st : NgramProposer) (idx : nat) (out : list Z) : Prop :=
  ∃ num_tokens row, nums !! idx = Some num_tokens ∧ rows !! idx = Some row ∧
    out = reference_draft (take num_tokens row) (min_n st) (max_n st) (max_model_len st) (Z.of_nat (k st)).

Lemma batch_propose_one_spec st idx :
  proposer_ok n st → config st = c → idx < n → is_Some (nums !! idx) → is_Some (rows !! idx) →
  wp (batch_propose_one nums rows idx) st (λ _ st', proposer_ok n st' ∧ config st' = c ∧
    (∀ out, searched st idx out → holds_draft st' idx out) ∧
    (∀ i out, i ≠ idx → holds_draft st i out → holds_draft st' i out)).
Proof.
  intros [Hmin Hmax Hnums Hdrafts Hrows] Hc Hidx [num Enum] [row Erow]. unfold batch_propose_one.
  wp_step. eapply wp_of_option; [done|]. wp_step. eapply wp_of_option; [done|]. wp_steps.
  rewrite ngram_search_agrees by done. set (out := reference_draft _ _ _ _ _). cbn [of_outcome]. wp_steps.
  destruct (lookup_lt_is_Some_2 (valid_ngram_num_drafts st) idx ltac:(lia)) as [old Eold].
  destruct (lookup_lt_is_Some_2 (valid_ngram_draft st) idx ltac:(lia)) as [draft Edraft].
  assert (Hlen : length draft = k st) by (apply Hrows; by eapply list_elem_of_lookup_2).
  assert (Hout : length out <= length draft) by (rewrite Hlen; apply reference_draft_length).
  assert (Hsearched : ∀ out', searched st idx out' → out' = out).
  { intros out' (num' & row' & En & Er & ->). rewrite Enum in En. rewrite Erow in Er. by simplify_eq. }
  eapply wp_of_option; [done|]. wp_steps. apply wp_when; intros Hne.
  - wp_step. eapply wp_of_option; [done|]. rewrite decide_True by done. wp_steps. split.
    { split; simpl; rewrite ?length_insert; try done. intros r Hr.
      apply list_elem_of_lookup_1 in Hr as [j Hj]. apply list_lookup_insert_Some in Hj as [(_ & <- & _)|[_ Hj]].
      - rewrite length_app, length_drop. lia.
      - apply Hrows. by eapply list_elem_of_lookup_2. }
    split; [done|]. split.
    + intros out' ->%Hsearched. split; simpl; [by apply list_lookup_insert_eq; lia|].
      eexists. split; [by apply list_lookup_insert_eq; lia|]. by rewrite take_app_length.
    + intros i out' Hi [H1 (r & H2 & H3)]. split; simpl; [by rewrite list_lookup_insert_ne|].
      exists r. by rewrite list_lookup_insert_ne.
  - apply bool_decide_eq_false in Hne. apply dec_stable in Hne. split; [split; simpl; rewrite ?length_insert; done|].
    split; [done|]. split.
    + intros out' ->%Hsearched. split; simpl; [by apply list_lookup_insert_eq; lia|]. exists draft. by rewrite Hne.
    + intros i out' Hi [H1 Hd]. split; simpl; [by rewrite list_lookup_insert_ne|done].
Qed.

Lemma searched_config st st' idx out : config st = config st' → searched st idx out → searched st' idx out.
Proof. intros [= E1 E2 E3 E4]. unfold searched. by rewrite E1, E2, E3, E4. Qed.

Definition covered (valid : list nat) : Prop :=
  ∀ i, i ∈ valid → i < n ∧ is_Some (nums !! i) ∧ is_Some (rows !! i).

Lemma batch_propose_numba_spec st valid :
  proposer_ok n st → config st = c → covered valid →
  wp (batch_propose_numba valid nums rows) st (λ _ st', (proposer_ok n st' ∧ config st' = c) ∧
    ∀ i out, i ∈ valid → searched st i out → holds_draft st' i out).
Proof.
  intros Hok Hc Hcov. apply (wp_foreach (λ seen st', (proposer_ok n st' ∧ config st' = c) ∧
    ∀ i out, i ∈ seen → searched st i out → holds_draft st' i out)); [set_solver|].
  intros pre x post st' -> [[Hok' Hc'] Hseen]. destruct (Hcov x ltac:(set_solver)) as (Hx & Hnum & Hrow).
  eapply wp_mono; [by apply batch_propose_one_spec|]. intros _ st2 (Hok2 & Hc2 & Hnew & Hold). split; [done|].
  intros i out Hi Hs. destruct (decide (i = x)) as [->|Hne].
  - apply Hnew. eapply searched_config; [|done]. congruence.
  - apply Hold; [done|]. apply Hseen; [set_solver|done].
Qed.

Lemma read_draft_spec st valid i out :
  (i ∈ valid → holds_draft st i out) → (i ∉ valid → out = []) → read_draft valid i st = (Ret out, st).
Proof.
  intros Hin Hout. unfold read_draft. run_method. destruct (decide (i ∈ valid)) as [Hi|Hi]; [|by rewrite Hout].
  destruct (Hin Hi) as [-> (row & -> & Htake)]. cbn. destruct (decide (0 < length out)) as [|Hz]; [by rewrite Htake|].
  destruct out; [done|simpl in Hz; lia].
Qed.

Lemma mapM_reads {S A B} (f : A → M S B) (s : S) l ys :
  Forall2 (λ x y, f x s = (Ret y, s)) l ys → mapM_list f l s = (Ret ys, s).
Proof.
  induction 1 as [|x y l ys Hx _ IH]; [done|]. cbn [mapM_list]. run_method. rewrite Hx.
  revert IH. run_method. by intros ->.
Qed.

(** What the batch returns, given what each request of it should get. *)
Lemma batch_propose_spec st valid outs :
  proposer_ok n st → config st = c → covered valid →
  (∀ i out, outs !! i = Some out → (i ∈ valid → searched st i out) ∧ (i ∉ valid → out = [])) →
  wp (batch_propose (length outs) valid nums rows) st (λ r st', r = outs ∧ proposer_ok n st' ∧ config st' = c).
Proof.
  intros Hok Hc Hcov Houts. unfold batch_propose. wp_step.
  apply (wp_mono _ _ (λ _ st', (proposer_ok n st' ∧ config st' = c) ∧
    ∀ i out, i ∈ valid → searched st i out → holds_draft st' i out)).
  - apply wp_when; intros Hv; [by apply batch_propose_numba_spec|]. split; [done|].
    apply bool_decide_eq_false in Hv. destruct valid; [set_solver|simpl in Hv; lia].
  - intros _ st' [[Hok' Hc'] Hholds]. eapply wp_intro; [|done]. apply mapM_reads, Forall2_same_length_lookup.
    split; [by rewrite length_seq|]. intros i x out Hx Hi. apply lookup_seq in Hx as [-> _].
    destruct (Houts i out Hi) as [H1 H2]. apply read_draft_spec; auto.
Qed.
End batch.

(** The requests selected for a draft. *)
Definition needs (st : NgramProposer) (s : list Z) (num : nat) : bool :=
  negb (bool_decide (s = []) || (max_model_len st <=? Z.of_nat num)%Z).

Lemma needs_draft_spec st nums i s num :
  nums !! i = Some num → needs_draft nums i s st = (Ret (needs st s num), st).
Proof. intros E. unfold needs_draft, needs. destruct s as [|z s]; [done|]. by rewrite E; run_method. Qed.

Lemma propose_select_spec st sampled nums :
  (∀ i, i < length sampled → is_Some (nums !! i)) →
  wp (foldM (λ (valid : list nat) (x : nat * list Z),
               b ← needs_draft nums x.1 x.2; mret (if b : bool then valid ++ [x.1] else valid))
        (imap pair sampled) []) st
    (λ valid st', st' = st ∧
       ∀ i, i ∈ valid ↔ ∃ s num, (i, s) ∈ imap pair sampled ∧ nums !! i = Some num ∧ needs st s num = true).
Proof.
  intros Hnums. apply (wp_foldM (λ pre valid st', st' = st ∧
    ∀ i, i ∈ valid ↔ ∃ s num, (i, s) ∈ pre ∧ nums !! i = Some num ∧ needs st s num = true)).
  { split; [done|]. intros i. split; [set_solver|]. intros (s & num & H & _). set_solver. }
  intros pre [i s] post valid st' E [-> Hv]. wp_step.
  assert (Hi : (i, s) ∈ imap pair sampled) by (rewrite E; set_solver).
  apply elem_of_lookup_imap_1 in Hi as (j & s' & [= -> ->] & Hj). apply lookup_lt_Some in Hj.
  destruct (Hnums j Hj) as [num Enum]. eapply wp_intro; [by apply needs_draft_spec|]. wp_steps. split; [done|].
  intros i. cbn [fst snd]. destruct (needs st s' num) eqn:Eneeds.
  - rewrite elem_of_app, Hv, list_elem_of_singleton. split.
    + intros [(s1 & num1 & H1 & H2)| ->]; [exists s1, num1; set_solver|]. exists s', num. set_solver.
    + intros (s1 & num1 & [H1|H1]%elem_of_app & H2); [left; eauto|]. right. set_solver.
  - rewrite Hv. split; intros (s1 & num1 & H1 & H2 & H3); exists s1, num1; [set_solver|].
    apply elem_of_app in H1 as [H1|H1]; [done|]. apply list_elem_of_singleton in H1. simplify_eq. congruence.
Qed.

(** C37: the batch returns, for every request, the reference draft of its context (nothing
    when no token was sampled or the context fills the model), whatever earlier steps left
    in the buffers; it never raises and leaves buffers of the same shape. *)
Theorem propose_returns_reference_drafts st n sampled nums rows outs :
  proposer_ok n st → length sampled <= n → length outs = length sampled →
  (∀ i s out, sampled !! i = Some s → outs !! i = Some out → ∃ num row,
     nums !! i = Some num ∧ rows !! i = Some row ∧ out = draft_for st s num row) →
  wp (propose sampled nums rows) st (λ r st', r = outs ∧ proposer_ok n st' ∧ config st' = config st).
Proof.
  intros Hok Hn Hlen Houts.
  assert (Hall : ∀ i s, sampled !! i = Some s → ∃ num row, nums !! i = Some num ∧ rows !! i = Some row ∧
    ∀ out, outs !! i = Some out → out = draft_for st s num row).
  { intros i s Hs. pose proof (lookup_lt_Some _ _ _ Hs). destruct (lookup_lt_is_Some_2 outs i ltac:(lia)) as [out Hout].
    destruct (Houts i s out Hs Hout) as (num & row & H1 & H2 & H3). exists num, row. split_and!; [done..|].
    intros out' Hout'. by simplify_eq. }
  unfold propose. wp_step. eapply wp_mono; [apply propose_select_spec|].
  { intros i [s Hs]%lookup_lt_is_Some_2. destruct (Hall i s Hs) as (num & row & -> & _). done. }
  intros valid st' [-> Hvalid]. rewrite <- Hlen. apply batch_propose_spec; [done|done|..].
  - intros i (s & num & Hi & Hnum & _)%Hvalid. apply elem_of_lookup_imap_1 in Hi as (j & s' & [= -> ->] & Hj).
    destruct (Hall j s' Hj) as (num' & row & -> & -> & _). apply lookup_lt_Some in Hj. split; [lia|done].
  - intros i out Hout. pose proof (lookup_lt_Some _ _ _ Hout). destruct (lookup_lt_is_Some_2 sampled i ltac:(lia)) as [s Hs].
    destruct (Hall i s Hs) as (num & row & Hnum & Hrow & Hdraft). specialize (Hdraft out Hout). unfold draft_for in Hdraft.
    split.
    + intros (s' & num' & Hi & Hnum' & Hneeds)%Hvalid. exists num, row. split_and!; [done..|].
      apply elem_of_lookup_imap_1 in Hi as (j & s1 & [= -> ->] & Hj). simplify_eq. unfold needs in Hneeds.
      apply negb_true_iff in Hneeds. by rewrite Hneeds.
    + intros Hno. destruct (bool_decide (s = []) || _) eqn:E; [done|]. exfalso. apply Hno, Hvalid. exists s, num.
      split_and!; [|done|]; [|by unfold needs; rewrite E]. by apply (elem_of_lookup_imap_2 pair).
Qed.

(** Two requests after a step that left other drafts in the buffers. *)
Definition used_proposer : NgramProposer :=
  {| min_n := 1; max_n := 3; k := 2; max_model_len := 8;
     valid_ngram_draft := [[7; 7]; [9; 9]; [9; 9]]%Z; valid_ngram_num_drafts := [2; 1; 2] |}.

Lemma propose_returns_reference_drafts_witness :
  wp (propose [[5]; []; [1]]%Z [4; 3; 6] [[1; 2; 3; 1; 0]; [1; 1; 1; 1; 1]; [1; 2; 3; 2; 1; 2]]%Z) used_proposer
    (λ r st', r = [[2; 3]; []; [3; 2]]%Z ∧ proposer_ok 3 st' ∧ config st' = config used_proposer).
Proof.
  apply (propose_returns_reference_drafts used_proposer 3).
  - split; simpl; try lia. intros row Hrow. repeat (apply elem_of_cons in Hrow as [->|Hrow]; [done|]). by apply elem_of_nil in Hrow.
  - simpl. lia.
  - done.
  - intros [|[|[|i]]] s out Hs Hout; cbn in Hs, Hout; simplify_eq; eexists _, _; (split_and!; [reflexivity..|by vm_compute]).
Defined.
