(* ===== verification/Detok.v ===== *)
(** * The incremental detokenizer

    [vllm/v1/engine/detokenizer.py] and the part of
    [vllm/tokenizers/detokenizer_utils.py] it uses: sampled tokens become text, which is
    searched for stop strings as it grows and handed out piece by piece.

    A Python string is the list of its code points.  The tokenizer libraries are
    parameters: [fast_stream] is the [DecodeStream] of the [tokenizers] package,
    [slow_tokenizer] the tokenizer of [transformers].  [decode_next] of the two
    subclasses is the only place that calls them. *)

From S2P Require Import Prelude.
From S2P Require Import Request.
From S2P Require Import BlockHash.
Local Open Scope Z_scope.

Abbreviation text := (list Z).

(** ** Python's string methods *)

Definition starts_with (sub l : text) : bool := bool_decide (take (length sub) l = sub).

(** [str.find]: the first position from [i] on. *)
Fixpoint find_loop (sub : text) (i : Z) (rest : text) : Z :=
  if starts_with sub rest then i
  else match rest with [] => -1 | _ :: rest => find_loop sub (i + 1) rest end.

Definition py_find (l sub : text) (start : Z) : Z :=
  if zlen l <? start then -1
  else
    let i := clip_index (zlen l) start in
    find_loop sub i (drop (Z.to_nat i) l).

(** U+FFFD, the replacement character *)
Definition replacement_char : Z := 65533.
Definition ends_with_replacement (l : text) : bool := bool_decide (last l = Some replacement_char).

(** ** check_stop_strings *)

(** The stop string and the length to cut the text to, -1 for no cut. *)
Fixpoint check_stop_loop (output_text : text) (new_char_count : Z) (include_in_output : bool)
    (stop : list text) : option (text * Z) :=
  match stop with
  | [] => None
  | stop_str :: rest =>
      let stop_string_len := zlen stop_str in
      let stop_index := py_find output_text stop_str (1 - new_char_count - stop_string_len) in
      if stop_index =? -1 then check_stop_loop output_text new_char_count include_in_output rest
      else if include_in_output then
        let stop_index := stop_index + stop_string_len in
        if zlen output_text <=? stop_index then Some (stop_str, -1) else Some (stop_str, stop_index)
      else Some (stop_str, stop_index)
  end.

Definition check_stop_strings (output_text : text) (new_char_count : Z) (stop : list text)
    (include_in_output : bool) : option (text * Z) :=
  if (new_char_count =? 0) || is_nil stop then None
  else check_stop_loop output_text new_char_count include_in_output stop.

(** ** The state

    [decoder] is the state of the subclass; [prompt_len] is 0 for the fast one, whose
    [token_ids] hold output tokens only. *)
Record Detokenizer (D : Type) : Type := mkDetok {
  d_stop : list text;
  d_min_tokens : Z;
  include_stop_str_in_output : bool;
  stop_buffer_length : Z;
  _last_output_text_offset : Z;
  output_text : text;
  token_ids : list Z;
  prompt_len : Z;
  decoder : D;
}.
Arguments mkDetok {D} _ _ _ _ _ _ _ _ _.
Arguments d_stop {D} _.
Arguments d_min_tokens {D} _.
Arguments include_stop_str_in_output {D} _.
Arguments stop_buffer_length {D} _.
Arguments _last_output_text_offset {D} _.
Arguments output_text {D} _.
Arguments token_ids {D} _.
Arguments prompt_len {D} _.
Arguments decoder {D} _.

Section writes.
Context {D : Type}.
Implicit Types d : Detokenizer D.
Definition set_offset v d : Detokenizer D :=
  mkDetok (d_stop d) (d_min_tokens d) (include_stop_str_in_output d) (stop_buffer_length d) v
    (output_text d) (token_ids d) (prompt_len d) (decoder d).
Definition set_text v d : Detokenizer D :=
  mkDetok (d_stop d) (d_min_tokens d) (include_stop_str_in_output d) (stop_buffer_length d)
    (_last_output_text_offset d) v (token_ids d) (prompt_len d) (decoder d).
Definition set_token_ids v d : Detokenizer D :=
  mkDetok (d_stop d) (d_min_tokens d) (include_stop_str_in_output d) (stop_buffer_length d)
    (_last_output_text_offset d) (output_text d) v (prompt_len d) (decoder d).
Definition set_decoder v d : Detokenizer D :=
  mkDetok (d_stop d) (d_min_tokens d) (include_stop_str_in_output d) (stop_buffer_length d)
    (_last_output_text_offset d) (output_text d) (token_ids d) (prompt_len d) v.
End writes.

(** The parameters of a request it reads; [params.stop] is nothing, one string or a
    list. *)
Inductive StopParam : Type :=
  | NoStop
  | OneStop (s : text)
  | StopList (l : list text).

Record DetokParams : Type := mkDetokParams {
  dp_stop : StopParam;
  dp_min_tokens : Z;
  dp_include_stop : bool;
  skip_special_tokens : bool;
  dp_spaces_between_special_tokens : bool;
}.

(** [max(len(s) for s in self.stop)], for a list that is not empty *)
Definition longest_stop (stop : list text) : Z := foldr (λ s acc, Z.max (zlen s) acc) 0 stop.

Definition BaseIncrementalDetokenizer_init {D} (params : DetokParams) (decoder : D) : Detokenizer D :=
  let stop := match dp_stop params with NoStop => [] | OneStop s => [s] | StopList l => l end in
  mkDetok stop (dp_min_tokens params) (dp_include_stop params)
    (if negb (is_nil stop) && negb (dp_include_stop params) then longest_stop stop - 1 else 0)
    0 [] [] 0 decoder.

Section detokenizer.
Context {D : Type}.
(** [self.decode_next(id)]; it may read [self.token_ids]. *)
Context (decode_next : list Z → Z → M D text).
Implicit Types d : Detokenizer D.

Definition output_token_ids d : list Z :=
  if negb (prompt_len d =? 0) then py_from (token_ids d) (prompt_len d) else token_ids d.

Definition num_output_tokens d : Z := zlen (token_ids d) - prompt_len d.

(** One round of the loop over the new tokens; the value is [stop_check_offset]. *)
Definition decode_token (stop_check_offset : Z) (new_token_id : Z) : M (Detokenizer D) Z :=
  modify (λ d, set_token_ids (token_ids d ++ [new_token_id]) d) ;;
  d ← get;
  piece ← zoom decoder set_decoder (decode_next (token_ids d) new_token_id);
  modify (λ d, set_text (output_text d ++ piece) d) ;;
  d ← get;
  mret (if negb (d_min_tokens d =? 0) && (num_output_tokens d <=? d_min_tokens d)
        then zlen (output_text d) else stop_check_offset).

(** [BaseIncrementalDetokenizer.update]: the stop string that matched. *)
Definition update (new_token_ids : list Z) (stop_terminated : bool) : M (Detokenizer D) (option text) :=
  if is_nil new_token_ids then mret None
  else
    d ← get;
    let skipped := stop_terminated && negb (include_stop_str_in_output d) in
    let skipped_stop_token_id := if skipped then last new_token_ids else None in
    let new_token_ids := if skipped then removelast new_token_ids else new_token_ids in
    stop_check_offset ← foldM decode_token new_token_ids (zlen (output_text d));
    match skipped_stop_token_id with
    | Some t => modify (λ d, set_token_ids (token_ids d ++ [t]) d)
    | None => mret tt
    end ;;
    d ← get;
    if negb (is_nil (d_stop d)) && (d_min_tokens d <? num_output_tokens d) then
      match check_stop_strings (output_text d) (zlen (output_text d) - stop_check_offset) (d_stop d)
              (include_stop_str_in_output d) with
      | None => mret None
      | Some (stop_string, truncate_to) =>
          when (negb (truncate_to =? -1))
            (modify (λ d, set_text (py_slice (output_text d) 0 truncate_to) d)) ;;
          mret (Some stop_string)
      end
    else mret None.

Definition get_next_output_text (finished delta : bool) : M (Detokenizer D) text :=
  d ← get;
  let buffer_length := if finished then 0 else stop_buffer_length d in
  if negb delta then
    mret (if buffer_length =? 0 then output_text d else py_slice (output_text d) 0 (- buffer_length))
  else
    let length := zlen (output_text d) - buffer_length in
    let last_offset := _last_output_text_offset d in
    if last_offset <? length then
      modify (set_offset length) ;;
      mret (py_slice (output_text d) last_offset length)
    else mret [].
End detokenizer.

(** ** What the subclasses of [IncrementalDetokenizer] offer *)
Class TextStream (D : Type) : Type := {
  ts_update : list Z → bool → M D (option text);
  ts_next_text : bool → bool → M D text;
  ts_output_token_ids : D → list Z;
  ts_num_output_tokens : D → Z;
}.

#[export] Instance detokenizer_stream {D} (decode_next : list Z → Z → M D text) : TextStream (Detokenizer D) :=
  { ts_update := update decode_next; ts_next_text := get_next_output_text;
    ts_output_token_ids := output_token_ids; ts_num_output_tokens := num_output_tokens }.

(** ** The detokenizer without a tokenizer

    [IncrementalDetokenizer]: the tokens are kept, there is no text. *)
Record PlainDetokenizer : Type := mkPlain { plain_token_ids : list Z }.

Definition plain_update (new_token_ids : list Z) (stop_terminated : bool) : M PlainDetokenizer (option text) :=
  modify (λ d, mkPlain (plain_token_ids d ++ new_token_ids)) ;;
  mret None.

Definition plain_get_next_output_text (finished delta : bool) : M PlainDetokenizer text := mret [].

Definition plain_output_token_ids (d : PlainDetokenizer) : list Z := plain_token_ids d.
Definition plain_num_output_tokens (d : PlainDetokenizer) : Z := zlen (plain_token_ids d).

#[export] Instance plain_stream : TextStream PlainDetokenizer :=
  { ts_update := plain_update; ts_next_text := plain_get_next_output_text;
    ts_output_token_ids := plain_output_token_ids; ts_num_output_tokens := plain_num_output_tokens }.

(** ** The fast decoder

    What [DecodeStream.step] does with a token: some text or none, an id it cannot
    convert ([OverflowError], [TypeError]), the error "Invalid prefix encountered", or
    another exception. *)
Module Fast.

Inductive step_result : Type :=
  | Piece (t : option text)
  | BadTokenId (e : exn)
  | InvalidPrefix (e : exn)
  | OtherError (e : exn).

Record fast_stream (S : Type) : Type := mkStream {
  stream_step : S → Z → step_result * S;
  (** [DecodeStream(skip_special_tokens=..)], without and with prompt ids *)
  empty_stream : bool → S;
  primed_stream : list Z → bool → S;
}.
Arguments stream_step {S} _.
Arguments empty_stream {S} _.
Arguments primed_stream {S} _.

(** [added_token_ids] of the tokenizer: the contents of its added tokens by id.  The
    attribute [last_special] does not exist when spaces are kept. *)
Record FastDecoder (S : Type) : Type := mkFast {
  stream : S;
  fast_skip_special : bool;
  spaces_between_special_tokens : bool;
  last_special : bool;
  added_token_ids : gmap Z text;
}.
Arguments mkFast {S} _ _ _ _ _.
Arguments stream {S} _.
Arguments fast_skip_special {S} _.
Arguments spaces_between_special_tokens {S} _.
Arguments last_special {S} _.
Arguments added_token_ids {S} _.

Section decoder.
Context {S : Type} (api : fast_stream S).

Definition set_stream v (f : FastDecoder S) : FastDecoder S :=
  mkFast v (fast_skip_special f) (spaces_between_special_tokens f) (last_special f) (added_token_ids f).
Definition set_last_special v (f : FastDecoder S) : FastDecoder S :=
  mkFast (stream f) (fast_skip_special f) (spaces_between_special_tokens f) v (added_token_ids f).

Definition FastIncrementalDetokenizer_init (params : DetokParams) (prompt_token_ids : list Z)
    (added : gmap Z text) : Detokenizer (FastDecoder S) :=
  let keep := skip_special_tokens params || dp_spaces_between_special_tokens params in
  BaseIncrementalDetokenizer_init params
    (mkFast (primed_stream api prompt_token_ids (skip_special_tokens params)) (skip_special_tokens params)
       (keep || bool_decide (added = ∅)) false added).

Definition step (next_token_id : Z) : M (FastDecoder S) step_result := λ f,
  let '(r, s) := stream_step api (stream f) next_token_id in (Ret r, set_stream s f).

Definition _protected_step (next_token_id : Z) : M (FastDecoder S) (option text) :=
  r ← step next_token_id;
  match r with
  | Piece t => mret t
  | BadTokenId _ => mret None
  | OtherError e => raise e
  | InvalidPrefix _ =>
      modify (λ f, set_stream (empty_stream api (fast_skip_special f)) f) ;;
      r ← step next_token_id;
      match r with
      | Piece t => mret t
      | BadTokenId e | InvalidPrefix e | OtherError e => raise e
      end
  end.

Definition decode_next (_ : list Z) (next_token_id : Z) : M (FastDecoder S) text :=
  token ← _protected_step next_token_id;
  f ← get;
  if spaces_between_special_tokens f then mret (default [] token)
  else
    let special_token := added_token_ids f !! next_token_id in
    let is_special := bool_decide (is_Some special_token) in
    modify (set_last_special is_special) ;;
    mret (default [] (if is_special && last_special f then special_token else token)).
End decoder.
End Fast.

(** ** The slow decoder *)
Module Slow.

(** A tokenizer of [transformers]; a token without a string is [None]. *)
Record slow_tokenizer : Type := mkTokenizer {
  vocab_len : Z;
  is_fast : bool;
  added_vocab : list text;
  all_special_tokens : list text;
  convert_ids_to_tokens : list Z → bool → list (option text);
  convert_tokens_to_string : list text → text;
}.

Record SlowDecoder : Type := mkSlow {
  tokens : list text;
  prefix_offset : Z;
  read_offset : Z;
  slow_skip_special : bool;
  slow_spaces_between : bool;
}.

Section decoder.
Context (tokenizer : slow_tokenizer).

Definition _replace_none_with_empty (l : list (option text)) : list text := default [] <$> l.

(** The loop: the finished pieces and the tokens of the current one. *)
Fixpoint sub_texts_loop (skip_special_tokens : bool) (sub_texts : list text) (current_sub_text : list text)
    (output_tokens : list text) : list text :=
  match output_tokens with
  | [] => if is_nil current_sub_text then sub_texts
          else sub_texts ++ [convert_tokens_to_string tokenizer current_sub_text]
  | token :: rest =>
      if skip_special_tokens && bool_decide (token ∈ all_special_tokens tokenizer)
      then sub_texts_loop skip_special_tokens sub_texts current_sub_text rest
      else if bool_decide (token ∈ added_vocab tokenizer) then
        let sub_texts := if is_nil current_sub_text then sub_texts
                         else sub_texts ++ [convert_tokens_to_string tokenizer current_sub_text] in
        sub_texts_loop skip_special_tokens (sub_texts ++ [token]) [] rest
      else sub_texts_loop skip_special_tokens sub_texts (current_sub_text ++ [token]) rest
  end.

(** [sep.join(l)] *)
Fixpoint join (sep : text) (l : list text) : text :=
  match l with [] => [] | [x] => x | x :: rest => x ++ sep ++ join sep rest end.

Definition _convert_tokens_to_string_with_added_encoders (output_tokens : list text)
    (skip_special_tokens spaces_between_special_tokens : bool) : text :=
  let sub_texts := sub_texts_loop skip_special_tokens [] [] output_tokens in
  join (if spaces_between_special_tokens then [32] else []) sub_texts.

Definition INITIAL_INCREMENTAL_DETOKENIZATION_OFFSET : Z := 5.

(** The tokens of the end of the prompt, the prefix offset and the read offset. *)
Definition convert_prompt_ids_to_tokens (prompt_ids : list Z) (skip_special_tokens : bool)
    : list text * Z * Z :=
  let new_tokens := convert_ids_to_tokens tokenizer
    (py_from prompt_ids (- INITIAL_INCREMENTAL_DETOKENIZATION_OFFSET - 2)) skip_special_tokens in
  let read_offset := zlen new_tokens in
  (_replace_none_with_empty new_tokens, Z.max (read_offset - INITIAL_INCREMENTAL_DETOKENIZATION_OFFSET) 0,
   read_offset).

Definition detokenize_incrementally (all_input_ids : list Z) (prev_tokens : option (list text))
    (prefix_offset read_offset : Z) (skip_special_tokens spaces_between_special_tokens : bool)
    : outcome (list text * text * Z * Z) :=
  match last all_input_ids with
  | None => Raise IndexError
  | Some new_token_id =>
      let is_first_iter := bool_decide (prev_tokens = None) in
      let '(prev_tokens, prefix_offset, read_offset) :=
        match prev_tokens with
        | None => convert_prompt_ids_to_tokens (removelast all_input_ids) skip_special_tokens
        | Some prev_tokens => (prev_tokens, prefix_offset, read_offset)
        end in
      let new_tokens :=
        if (0 <=? new_token_id) && (new_token_id <? vocab_len tokenizer)
        then _replace_none_with_empty (convert_ids_to_tokens tokenizer [new_token_id] skip_special_tokens)
        else [[]] in
      let output_tokens := prev_tokens ++ new_tokens in
      let new_tokens := if is_first_iter then output_tokens else new_tokens in
      let to_string l :=
        if is_fast tokenizer || is_nil (added_vocab tokenizer) then convert_tokens_to_string tokenizer l
        else _convert_tokens_to_string_with_added_encoders l skip_special_tokens spaces_between_special_tokens in
      let prefix_text := to_string (py_slice output_tokens prefix_offset read_offset) in
      let new_text := to_string (py_from output_tokens prefix_offset) in
      if (zlen new_text <=? zlen prefix_text) || ends_with_replacement new_text
      then Ret (new_tokens, [], prefix_offset, read_offset)
      else Ret (new_tokens, py_from new_text (zlen prefix_text), read_offset, zlen output_tokens)
  end.

(** A prompt of embeddings has no token ids. *)
Definition SlowIncrementalDetokenizer_init (params : DetokParams) (prompt_token_ids : option (list Z))
    (prompt_embeds : option Tensor) : outcome (Detokenizer SlowDecoder) :=
  match length_from_prompt_token_ids_or_embeds prompt_token_ids prompt_embeds with
  | None => Raise ValueError
  | Some len =>
      let '(toks, prefix, read) :=
        match prompt_token_ids with
        | Some ids => convert_prompt_ids_to_tokens ids (skip_special_tokens params)
        | None => (replicate (Z.to_nat len) [], 0, 0)
        end in
      let d := BaseIncrementalDetokenizer_init params
        (mkSlow toks prefix read (skip_special_tokens params) (dp_spaces_between_special_tokens params)) in
      let ids := match prompt_token_ids with
                 | Some ((_ :: _) as ids) => ids
                 | _ => replicate (Z.to_nat len) 0
                 end in
      Ret (mkDetok (d_stop d) (d_min_tokens d) (include_stop_str_in_output d) (stop_buffer_length d)
             (_last_output_text_offset d) (output_text d) (token_ids d ++ ids) len (decoder d))
  end.

Definition decode_next (token_ids : list Z) (next_token_id : Z) : M SlowDecoder text :=
  s ← get;
  r ← of_outcome (detokenize_incrementally token_ids (Some (tokens s)) (prefix_offset s) (read_offset s)
                    (slow_skip_special s) (slow_spaces_between s));
  let '(new_tokens, decoded_text, prefix, read) := r in
  put (mkSlow (tokens s ++ new_tokens) prefix read (slow_skip_special s) (slow_spaces_between s)) ;;
  mret decoded_text.
End decoder.
End Slow.

(** ** The choice of the detokenizer *)

(** [isinstance(tokenizer, PreTrainedTokenizerFast)], with a [tokenizers] package that has
    [DecodeStream] with prompt ids. *)
Inductive TokenizerLike : Type :=
  | FastTokenizer (added_token_ids : gmap Z text)
  | SlowTokenizer (tokenizer : Slow.slow_tokenizer).

Inductive IncrementalDetokenizer (S : Type) : Type :=
  | PlainD (d : PlainDetokenizer)
  | FastD (d : Detokenizer (Fast.FastDecoder S))
  | SlowD (tokenizer : Slow.slow_tokenizer) (d : Detokenizer Slow.SlowDecoder).
Arguments PlainD {S} _.
Arguments FastD {S} _.
Arguments SlowD {S} _ _.

Definition from_new_request {S} (api : Fast.fast_stream S) (tokenizer : option TokenizerLike)
    (params : DetokParams) (prompt_token_ids : option (list Z)) (prompt_embeds : option Tensor)
    : outcome (IncrementalDetokenizer S) :=
  match tokenizer with
  | None => Ret (PlainD (mkPlain []))
  | Some (FastTokenizer added) => Ret (FastD (Fast.FastIncrementalDetokenizer_init api params (default [] prompt_token_ids) added))
  | Some (SlowTokenizer t) =>
      match Slow.SlowIncrementalDetokenizer_init t params prompt_token_ids prompt_embeds with
      | Ret d => Ret (SlowD t d)
      | Raise e => Raise e
      end
  end.

(** A method of the object, whichever class it has. *)
Definition dispatch {S A} (plain : M PlainDetokenizer A) (fast : M (Detokenizer (Fast.FastDecoder S)) A)
    (slow : Slow.slow_tokenizer → M (Detokenizer Slow.SlowDecoder) A) : M (IncrementalDetokenizer S) A := λ d,
  match d with
  | PlainD d => let '(r, d) := plain d in (r, PlainD d)
  | FastD d => let '(r, d) := fast d in (r, FastD d)
  | SlowD t d => let '(r, d) := slow t d in (r, SlowD t d)
  end.

#[export] Instance any_stream {S} (api : Fast.fast_stream S) : TextStream (IncrementalDetokenizer S) :=
  { ts_update := λ toks stop, dispatch (plain_update toks stop) (update (Fast.decode_next api) toks stop)
                                (λ t, update (Slow.decode_next t) toks stop);
    ts_next_text := λ finished delta, dispatch (plain_get_next_output_text finished delta)
                      (get_next_output_text finished delta) (λ _, get_next_output_text finished delta);
    ts_output_token_ids := λ d, match d with PlainD d => plain_output_token_ids d | FastD d => output_token_ids d
                                          | SlowD _ d => output_token_ids d end;
    ts_num_output_tokens := λ d, match d with PlainD d => plain_num_output_tokens d | FastD d => num_output_tokens d
                                           | SlowD _ d => num_output_tokens d end }.
