(* ===== verification/DetokSpec.v ===== *)
(** * The detokenizer: stop strings and streaming

    Searching only the end of the growing text for stop strings finds what a search of
    the whole text finds ([first_hit]), and the pieces handed out while the text may
    still be cut add up to the final text. *)

From S2P Require Import Prelude.
From S2P Require Import BlockHash.
From S2P Require Import Detok.
Local Open Scope Z_scope.

(** ** Occurrences *)

Definition occurs (s l : text) (k : nat) : Prop := take (length s) (drop k l) = s.

#[export] Instance occurs_dec s l k : Decision (occurs s l k).
Proof. unfold occurs. apply _. Defined.

Lemma text_pos (s : text) : s ≠ [] → (0 < length s)%nat.
Proof. destruct s; simpl; [done|lia]. Qed.

Lemma occurs_le s l k : s ≠ [] → occurs s l k → (k + length s ≤ length l)%nat.
Proof.
  intros Hs Ho. apply (f_equal length) in Ho. rewrite length_take, length_drop in Ho.
  pose proof (text_pos s Hs). lia.
Qed.

Lemma occurs_app s l l' k : (k + length s ≤ length l)%nat → occurs s (l ++ l') k ↔ occurs s l k.
Proof.
  intros H. unfold occurs. rewrite drop_app_le by lia. rewrite take_app_le by (rewrite length_drop; lia). done.
Qed.

Lemma occurs_take s l n k : (k + length s ≤ n)%nat → (n ≤ length l)%nat → occurs s (take n l) k ↔ occurs s l k.
Proof.
  intros H Hn. rewrite <-(take_drop n l) at 2. symmetry. apply occurs_app. rewrite length_take. lia.
Qed.

(** ** find *)

Lemma find_loop_spec s : s ≠ [] → ∀ l i, 0 ≤ i →
  (find_loop s i l = -1 ∧ ∀ k, ¬ occurs s l k) ∨
  ∃ k : nat, find_loop s i l = i + Z.of_nat k ∧ occurs s l k ∧ ∀ k', (k' < k)%nat → ¬ occurs s l k'.
Proof.
  intros Hs. induction l as [|x l IH]; intros i Hi; simpl; unfold starts_with.
  - left. rewrite take_nil, bool_decide_eq_false_2 by congruence. split; [done|]. intros k Ho.
    apply occurs_le in Ho; [|done]. pose proof (text_pos s Hs). simpl in Ho. lia.
  - destruct (bool_decide_reflect (take (length s) (x :: l) = s)) as [He|Hne].
    { right. exists 0%nat. split; [lia|]. split; [done|]. intros k'. lia. }
    destruct (IH (i + 1) ltac:(lia)) as [[-> H]|(k & -> & Ho & Hmin)].
    + left. split; [done|]. intros [|k]; [done|]. apply H.
    + right. exists (S k). split; [lia|]. split; [done|]. intros [|k'] Hk'; [done|]. apply (Hmin k'). lia.
Qed.

(** [find] from a negative position *)
Lemma py_find_spec l s start : s ≠ [] → start < 0 →
  let j := Z.to_nat (start + zlen l) in
  (py_find l s start = -1 ∧ ∀ k, (j ≤ k)%nat → ¬ occurs s l k) ∨
  ∃ k, py_find l s start = Z.of_nat k ∧ (j ≤ k)%nat ∧ occurs s l k ∧ ∀ k', (j ≤ k' < k)%nat → ¬ occurs s l k'.
Proof.
  intros Hs Hneg j. pose proof (zlen_nonneg l). unfold py_find, clip_index.
  rewrite (proj2 (Z.ltb_ge (zlen l) start)) by lia. rewrite (proj2 (Z.ltb_lt start 0)) by lia.
  assert (Ej : Z.max 0 (start + zlen l) = Z.of_nat j) by lia. rewrite Ej, Nat2Z.id.
  assert (Hd : ∀ k, occurs s (drop j l) k ↔ occurs s l (j + k)) by (intros k; unfold occurs; by rewrite drop_drop).
  destruct (find_loop_spec s Hs (drop j l) (Z.of_nat j) ltac:(lia)) as [[-> Hno]|(k & -> & Ho & Hmin)].
  - left. split; [done|]. intros k Hk Hocc. apply (Hno (k - j)%nat). rewrite Hd. by replace (j + (k - j))%nat with k by lia.
  - right. exists (j + k)%nat. split; [lia|]. split; [lia|]. split; [by apply Hd|]. intros k' Hk' Hocc.
    apply (Hmin (k' - j)%nat); [lia|]. rewrite Hd. by replace (j + (k' - j))%nat with k' by lia.
Qed.

(** ** The search of the whole text *)

(** The leftmost occurrence of [s] that ends behind position [from]. *)
Definition leftmost (from : Z) (l s : text) : option nat :=
  head (filter (λ k, occurs s l k ∧ from < Z.of_nat (k + length s)) (seq 0 (length l))).

(** The first stop string in the order of the list that occurs, and where. *)
Fixpoint first_hit (from : Z) (l : text) (stop : list text) : option (text * nat) :=
  match stop with
  | [] => None
  | s :: rest => match leftmost from l s with Some k => Some (s, k) | None => first_hit from l rest end
  end.

Lemma head_filter_seq_spec (P : nat → Prop) `{∀ k, Decision (P k)} a n :
  match head (filter P (seq a n)) with
  | Some k => (a ≤ k < a + n)%nat ∧ P k ∧ ∀ k', (a ≤ k' < k)%nat → ¬ P k'
  | None => ∀ k, (a ≤ k < a + n)%nat → ¬ P k
  end.
Proof.
  revert a. induction n as [|n IH]; intros a; simpl; [intros k; lia|]. rewrite filter_cons. destruct (decide (P a)) as [Ha|Ha].
  - simpl. split; [lia|]. split; [done|]. intros k'. lia.
  - specialize (IH (S a)). destruct (head _) as [k|].
    + destruct IH as (H1 & H2 & H3). split; [lia|]. split; [done|]. intros k' Hk' HP.
      destruct (decide (k' = a)) as [->|]; [done|]. apply (H3 k'); [lia|done].
    + intros k Hk HP. destruct (decide (k = a)) as [->|]; [done|]. apply (IH k); [lia|done].
Qed.

Lemma leftmost_spec from l s : s ≠ [] →
  match leftmost from l s with
  | Some k => occurs s l k ∧ from < Z.of_nat (k + length s) ∧
      ∀ k', (k' < k)%nat → occurs s l k' → Z.of_nat (k' + length s) ≤ from
  | None => ∀ k, occurs s l k → Z.of_nat (k + length s) ≤ from
  end.
Proof.
  intros Hs. unfold leftmost. pose proof (head_filter_seq_spec (λ k, occurs s l k ∧ from < Z.of_nat (k + length s)) 0 (length l)) as H.
  destruct (head _) as [k|].
  - destruct H as (_ & [H1 H2] & H3). split; [done|]. split; [done|]. intros k' Hk' Ho. specialize (H3 k' ltac:(lia)).
    apply Z.nlt_ge. intros ?. by apply H3.
  - intros k Ho. apply Z.nlt_ge. intros Hlt. pose proof (occurs_le s l k Hs Ho). pose proof (text_pos s Hs).
    by apply (H k ltac:(lia)).
Qed.

(** Nothing behind [from] means nothing to find. *)
Definition no_hit (from : Z) (l : text) (stop : list text) : Prop :=
  ∀ s k, s ∈ stop → occurs s l k → Z.of_nat (k + length s) ≤ from.

Lemma first_hit_none from l stop : Forall (.≠ []) stop → first_hit from l stop = None ↔ no_hit from l stop.
Proof.
  induction 1 as [|s stop Hs Hstop IH]; simpl.
  { split; [|done]. by intros _ s k ?%not_elem_of_nil. }
  pose proof (leftmost_spec from l s Hs) as Hl. destruct (leftmost from l s) as [k|].
  - split; [done|]. intros Hno. destruct Hl as (H1 & H2 & _). specialize (Hno s k ltac:(by left) H1). lia.
  - rewrite IH. split; intros Hno s' k Hin Ho; [|by apply Hno; [right|]].
    apply elem_of_cons in Hin as [->|Hin]; [by apply Hl|by apply Hno].
Qed.

Lemma first_hit_elem from l stop s k : Forall (.≠ []) stop → first_hit from l stop = Some (s, k) →
  s ∈ stop ∧ occurs s l k ∧ from < Z.of_nat (k + length s) ∧ (k + length s ≤ length l)%nat.
Proof.
  intros Hs. induction Hs as [|s' stop Hne Hstop IH]; simpl; [done|].
  pose proof (leftmost_spec from l s' Hne) as Hl. destruct (leftmost from l s') as [k'|].
  - intros [= -> ->]. destruct Hl as (H1 & H2 & _). split; [by left|]. split; [done|]. split; [done|]. by apply occurs_le.
  - intros H. destruct (IH H) as (? & ? & ? & ?). by split; [right|].
Qed.
(** The search may start later where nothing can be missed. *)
Lemma leftmost_later from from' l s : s ≠ [] → from ≤ from' →
  (∀ k, occurs s l k → from < Z.of_nat (k + length s) → from' < Z.of_nat (k + length s)) →
  leftmost from' l s = leftmost from l s.
Proof.
  intros Hs Hle Hsame. unfold leftmost. f_equal. apply list_filter_iff. intros k.
  split; intros [H1 H2]; (split; [done|]); [lia|by apply Hsame].
Qed.

(** ** check_stop_strings *)

(** Where the text is cut, -1 for no cut. *)
Definition cut_at (include : bool) (l : text) (hit : text * nat) : Z :=
  if include then
    let end_ := Z.of_nat hit.2 + zlen hit.1 in
    if zlen l <=? end_ then -1 else end_
  else Z.of_nat hit.2.

Lemma check_stop_loop_spec l n include stop :
  0 < n → n ≤ zlen l → Forall (.≠ []) stop →
  check_stop_loop l n include stop =
    (λ hit, (hit.1, cut_at include l hit)) <$> first_hit (zlen l - n) l stop.
Proof.
  intros Hn Hle. induction 1 as [|s stop Hs Hstop IH]; [done|]. cbn [check_stop_loop first_hit].
  pose proof (text_pos s Hs) as Hpos. pose proof (leftmost_spec (zlen l - n) l s Hs) as Hl. unfold zlen in *.
  destruct (py_find_spec l s (1 - n - Z.of_nat (length s)) Hs ltac:(lia)) as [[-> Hno]|(k & -> & Hj & Ho & Hmin)].
  - change (-1 =? -1) with true. cbv iota. rewrite IH. destruct (leftmost _ l s) as [k|]; [|done].
    destruct Hl as (H1 & H2 & _). destruct (Hno k); [unfold zlen in *; lia|done].
  - rewrite (proj2 (Z.eqb_neq _ (-1))) by lia. unfold zlen in *.
    assert (leftmost (Z.of_nat (length l) - n) l s = Some k) as ->.
    { destruct (leftmost _ l s) as [k0|].
      - destruct Hl as (H1 & H2 & H3). f_equal. destruct (Nat.lt_trichotomy k0 k) as [Hlt|[->|Hlt]]; [|done|].
        + by destruct (Hmin k0 ltac:(lia)).
        + specialize (H3 k Hlt Ho). lia.
      - specialize (Hl k Ho). lia. }
    simpl. unfold cut_at, zlen. simpl. destruct include; [|done]. by destruct (_ <=? _).
Qed.

(** ** update *)

Section update.
Context {D : Type} (decode_next : list Z → Z → M D text).
Implicit Types d : Detokenizer D.

(** What [update] never changes, but the text, the tokens and the decoder. *)
Definition same_params d d' : Prop :=
  d_stop d' = d_stop d ∧ d_min_tokens d' = d_min_tokens d ∧
  include_stop_str_in_output d' = include_stop_str_in_output d ∧ stop_buffer_length d' = stop_buffer_length d ∧
  _last_output_text_offset d' = _last_output_text_offset d ∧ prompt_len d' = prompt_len d.

(** The text up to position [exempt] is that of the first [min_tokens] tokens, which
    is not searched; behind it no stop string ends. *)
Record watching (exempt : Z) d : Prop := {
  wa_stop : Forall (.≠ []) (d_stop d);
  wa_min : 0 ≤ d_min_tokens d;
  wa_num : 0 ≤ num_output_tokens d;
  wa_exempt : 0 ≤ exempt ≤ zlen (output_text d);
  wa_none : no_hit exempt (output_text d) (d_stop d);
}.

Lemma same_params_trans d1 d2 d3 : same_params d1 d2 → same_params d2 d3 → same_params d1 d3.
Proof. unfold same_params. intuition congruence. Qed.

(** One token: its text is appended, and the offset moves to the end of the text as long
    as [min_tokens] has not been exceeded. *)
Lemma decode_token_spec o t d :
  wpe (decode_token decode_next o t) d (λ o' d',
    same_params d d' ∧ (∃ more, output_text d' = output_text d ++ more) ∧ token_ids d' = token_ids d ++ [t] ∧
    ∀ p, decode_token decode_next p t d =
      (Ret (if negb (d_min_tokens d =? 0) && (num_output_tokens d' <=? d_min_tokens d) then zlen (output_text d') else p), d') ∧
    o' = (if negb (d_min_tokens d =? 0) && (num_output_tokens d' <=? d_min_tokens d) then zlen (output_text d') else o))
    (λ e d', ∀ p, decode_token decode_next p t d = (Raise e, d')).
Proof.
  unfold decode_token, wpe, mbind, M_bind, modify, get, zoom, mret, M_ret. cbn.
  destruct (decode_next _ t _) as [[piece|e] dec]; [|done]. cbn. split; [done|]. split; [by eexists|]. split; [done|].
  intros p. split; [done|]. done.
Qed.

(** [o] is the offset the code computes from the length [old] of the text before the
    update, [p] what the same loop makes of the exempt length [e]. *)
Definition offsets (old e o p : Z) : Prop := (o = p ∧ old ≤ p) ∨ (o = old ∧ p = e).

Lemma decode_tokens old e toks : ∀ o p d, offsets old e o p → 0 ≤ p ≤ zlen (output_text d) → old ≤ zlen (output_text d) →
  wpe (foldM (decode_token decode_next) toks o) d (λ o' d',
    same_params d d' ∧ (∃ more, output_text d' = output_text d ++ more) ∧ token_ids d' = token_ids d ++ toks ∧
    ∃ p', foldM (decode_token decode_next) toks p d = (Ret p', d') ∧ offsets old e o' p' ∧
      0 ≤ p' ≤ zlen (output_text d') ∧ (d_min_tokens d = 0 → p' = p) ∧
      (toks = [] → p' = p ∧ d' = d) ∧
      (toks ≠ [] → d_min_tokens d ≠ 0 → num_output_tokens d' ≤ d_min_tokens d → p' = zlen (output_text d')))
    (λ x d', foldM (decode_token decode_next) toks p d = (Raise x, d')).
Proof.
  induction toks as [|t toks IH]; intros o p d Hop Hp Hold; cbn [foldM].
  { apply wpe_ret. split; [done|]. split; [exists []; by rewrite app_nil_r|]. split; [by rewrite app_nil_r|]. by exists p. }
  wpe_step. eapply wpe_mono; [apply decode_token_spec| |by intros x d' H; unfold mbind, M_bind; rewrite H].
  intros o1 d1 (Hs1 & (more & E1) & Et1 & Hrun). destruct (Hrun p) as [Hp1 ->].
  pose proof Hs1 as (_ & Emin & _ & _ & _ & Epl). assert (Hlen : zlen (output_text d) ≤ zlen (output_text d1)).
  { rewrite E1, zlen_app. pose proof (zlen_nonneg more). lia. }
  set (c := negb (d_min_tokens d =? 0) && _) in *.
  set (p1 := if c then zlen (output_text d1) else p) in *. set (o1 := if c then zlen (output_text d1) else o).
  eapply wpe_mono; [apply (IH o1 p1 d1)| |by intros x d' H; unfold mbind, M_bind; rewrite Hp1].
  - unfold o1, p1. destruct c; [left; split; [done|lia]|done].
  - unfold p1. destruct c; lia.
  - lia.
  - intros o' d' (Hs' & (more' & E') & Et' & p' & Hrun' & Hop' & Hp' & H0 & Hnil & Hall).
    split; [by eapply same_params_trans|]. split; [exists (more ++ more'); by rewrite E', E1, (assoc_L (++))|].
    split; [by rewrite Et', Et1, <-(assoc_L (++))|]. exists p'. split.
    { unfold mbind, M_bind. by rewrite Hp1. }
    split; [done|]. split; [done|]. split; [|split; [done|]].
    + intros Hm. rewrite (H0 ltac:(congruence)). unfold p1, c. by rewrite Hm.
    + intros _ Hm Hnum. destruct toks as [|t' toks]; [|apply Hall; congruence].
      destruct (Hnil eq_refl) as [-> ->]. unfold p1, c.
      rewrite (proj2 (Z.eqb_neq _ _) Hm). simpl. by rewrite (proj2 (Z.leb_le _ _) Hnum).
Qed.

Lemma first_hit_later from from' l stop : Forall (.≠ []) stop → from ≤ from' →
  (∀ s k, s ∈ stop → occurs s l k → from < Z.of_nat (k + length s) → from' < Z.of_nat (k + length s)) →
  first_hit from' l stop = first_hit from l stop.
Proof.
  intros Hs Hle. induction Hs as [|s stop Hne Hstop IH]; intros Hsame; simpl; [done|].
  rewrite (leftmost_later from from') by (try done; intros k; apply Hsame; by left).
  rewrite IH; [done|]. intros s' k Hin. apply Hsame. by right.
Qed.

Lemma no_hit_end l stop : Forall (.≠ []) stop → no_hit (zlen l) l stop.
Proof.
  intros Hs s k Hin Ho. rewrite Forall_forall in Hs. apply occurs_le in Ho; [|by apply Hs]. unfold zlen. lia.
Qed.

(** The text that grew by [more]: searching behind the offset the code computes finds
    what searching behind the exempt text finds. *)
Lemma offsets_hit e o p old_text more full stop :
  Forall (.≠ []) stop → no_hit e old_text stop → offsets (zlen old_text) e o p → e ≤ zlen old_text → full = old_text ++ more →
  first_hit o full stop = first_hit p full stop.
Proof.
  intros Hs Hno [[-> _]|[-> ->]] He ->; [done|]. apply first_hit_later; [done|lia|].
  intros s k Hin Ho Hlt. apply Z.nle_gt. intros Hle. unfold zlen in *.
  rewrite occurs_app in Ho by lia. specialize (Hno s k Hin Ho). lia.
Qed.

(** The tokens that are decoded: the stop token is skipped unless it is to be shown. *)
Definition decoded_tokens (toks : list Z) (stop_terminated : bool) d : list Z :=
  if stop_terminated && negb (include_stop_str_in_output d) then removelast toks else toks.

(** The text up to the hit, or up to its end. *)
Definition text_until (include : bool) (l : text) (hit : text * nat) : text :=
  take (hit.2 + (if include then length hit.1 else 0)) l.

Lemma cut_text include l from stop hit : Forall (.≠ []) stop → first_hit from l stop = Some hit →
  (if cut_at include l hit =? -1 then l else py_slice l 0 (cut_at include l hit)) = text_until include l hit.
Proof.
  intros Hs Hf. destruct hit as [s k]. destruct (first_hit_elem _ _ _ _ _ Hs Hf) as (_ & _ & _ & Hle).
  unfold cut_at, text_until. simpl. destruct include.
  - destruct (Z.leb_spec (zlen l) (Z.of_nat k + zlen s)) as [H|H]; unfold zlen in *.
    + simpl. by rewrite take_ge by lia.
    + rewrite (proj2 (Z.eqb_neq _ (-1))) by lia. rewrite py_slice_nonneg by lia. simpl. rewrite drop_0. f_equal. lia.
  - rewrite (proj2 (Z.eqb_neq _ (-1))) by lia. rewrite py_slice_nonneg by lia. simpl. rewrite drop_0. f_equal. lia.
Qed.

(** The check of [update], from the tokens decoded on. *)
Definition check_and_cut (o : Z) : M (Detokenizer D) (option text) :=
  d ← get;
  if negb (is_nil (d_stop d)) && (d_min_tokens d <? num_output_tokens d) then
    match check_stop_strings (output_text d) (zlen (output_text d) - o) (d_stop d) (include_stop_str_in_output d) with
    | None => mret None
    | Some (stop_string, truncate_to) =>
        when (negb (truncate_to =? -1)) (modify (λ d, set_text (py_slice (output_text d) 0 truncate_to) d)) ;;
        mret (Some stop_string)
    end
  else mret None.

Lemma check_and_cut_spec o p d :
  Forall (.≠ []) (d_stop d) → 0 ≤ d_min_tokens d → 0 ≤ num_output_tokens d → 0 ≤ o ≤ zlen (output_text d) →
  0 ≤ p ≤ zlen (output_text d) →
  first_hit o (output_text d) (d_stop d) = first_hit p (output_text d) (d_stop d) →
  (num_output_tokens d ≤ d_min_tokens d → first_hit p (output_text d) (d_stop d) = None) →
  wp (check_and_cut o) d (λ r d', same_params d d' ∧ token_ids d' = token_ids d ∧
    match first_hit p (output_text d) (d_stop d) with
    | None => r = None ∧ d' = d ∧ watching p d
    | Some hit => r = Some hit.1 ∧ output_text d' = text_until (include_stop_str_in_output d) (output_text d) hit
    end).
Proof.
  intros Hs Hm Hnum Ho Hp Heq Hmin.
  assert (Hnone : first_hit p (output_text d) (d_stop d) = None → wp (mret None : M (Detokenizer D) (option text)) d
    (λ r d', same_params d d' ∧ token_ids d' = token_ids d ∧
      match first_hit p (output_text d) (d_stop d) with
      | None => r = None ∧ d' = d ∧ watching p d
      | Some hit => r = Some hit.1 ∧ output_text d' = text_until (include_stop_str_in_output d) (output_text d) hit
      end)).
  { intros H. rewrite H. wp_step. do 2 (split; [done|]). do 2 (split; [done|]). split; try done. by apply first_hit_none. }
  unfold check_and_cut. wp_step. wp_step. destruct (negb (is_nil (d_stop d)) && _) eqn:Ec.
  - unfold check_stop_strings. apply andb_true_iff in Ec as [Ec _]. apply negb_true_iff in Ec. rewrite Ec, orb_false_r.
    destruct (Z.eqb_spec (zlen (output_text d) - o) 0) as [E0|E0].
    { apply Hnone. rewrite <-Heq. apply first_hit_none; [done|]. replace o with (zlen (output_text d)) by lia. by apply no_hit_end. }
    rewrite check_stop_loop_spec by (try done; lia). replace (zlen (output_text d) - (zlen (output_text d) - o)) with o by lia.
    rewrite Heq. destruct (first_hit p (output_text d) (d_stop d)) as [hit|] eqn:Eh; [|by apply Hnone].
    simpl. pose proof (cut_text (include_stop_str_in_output d) _ _ _ _ Hs Eh) as Hcut.
    destruct (cut_at _ _ hit =? -1); simpl; repeat wp_step; split_and!; done.
  - apply Hnone. apply andb_false_iff in Ec as [Ec|Ec]; [|apply Hmin; by apply Z.ltb_ge].
    apply negb_false_iff in Ec. by destruct (d_stop d).
Qed.

(** The whole of [update], with what it needs to go on. *)
Lemma update_run exempt toks term d :
  watching exempt d →
  wpe (update decode_next toks term) d
    (λ r d', ∃ exempt' d1 more,
       foldM (decode_token decode_next) (decoded_tokens toks term d) exempt d = (Ret exempt', d1) ∧
       output_text d1 = output_text d ++ more ∧ (exempt' = exempt ∨ zlen (output_text d) ≤ exempt') ∧
       same_params d d' ∧ token_ids d' = token_ids d ++ toks ∧
       match first_hit exempt' (output_text d1) (d_stop d) with
       | None => r = None ∧ output_text d' = output_text d1 ∧ watching exempt' d'
       | Some hit => r = Some hit.1 ∧
           output_text d' = text_until (include_stop_str_in_output d) (output_text d1) hit
       end)
    (λ e d', foldM (decode_token decode_next) (decoded_tokens toks term d) exempt d = (Raise e, d')).
Proof.
  intros [Hs Hm Hnum He Hno]. unfold update. destruct toks as [|t toks]; cbn [is_nil].
  { apply wpe_ret. exists exempt, d, []. unfold decoded_tokens. rewrite !app_nil_r. split; [by destruct (_ && _)|].
    split; [done|]. split; [by left|]. split; [done|]. split; [done|]. by rewrite (proj2 (first_hit_none _ _ _ Hs) Hno). }
  wpe_step. wpe_step. cbv zeta. fold (decoded_tokens (t :: toks) term d). wpe_step.
  eapply wpe_mono; [apply (decode_tokens (zlen (output_text d)) exempt _ _ exempt)|..].
  { by right. } { done. } { done. } 2:{ done. }
  intros o d1 (Hp & (more & E1) & Et1 & p & Hrun & Hop & Hpb & H0 & Hnil & Hall).
  set (skip := if term && _ then last (t :: toks) else None).
  set (d2 := match skip with Some t0 => set_token_ids (token_ids d1 ++ [t0]) d1 | None => d1 end).
  assert (Hd2 : output_text d2 = output_text d1 ∧ same_params d1 d2 ∧ decoder d2 = decoder d1) by by unfold d2; destruct skip.
  assert (Ht2 : token_ids d2 = token_ids d ++ t :: toks).
  { unfold d2, skip. unfold decoded_tokens in Et1. destruct (term && _); [|done].
    destruct (last (t :: toks)) as [t0|] eqn:El; [|by apply last_None in El]. simpl. rewrite Et1, <-(assoc_L (++)). f_equal.
    symmetry. by apply last_split. }
  assert (Hskip : ∀ (f : unit → M (Detokenizer D) (option text)) Q E, wpe (f tt) d2 Q E →
    wpe (match skip with Some t => modify (λ d, set_token_ids (token_ids d ++ [t]) d) | None => mret tt end ≫= f) d1 Q E).
  { intros f Q E H. unfold d2 in H. by destruct skip; wpe_step; wpe_step. }
  apply Hskip. clear Hskip. destruct Hd2 as (Et & Hp2 & _). pose proof (same_params_trans _ _ _ Hp Hp2) as Hpar.
  pose proof Hpar as (Estop & Emin & Einc & _ & _ & Epl).
  apply wp_wpe. eapply wp_mono; [apply (check_and_cut_spec o p d2)|]; rewrite ?Estop, ?Emin, ?Et; try done.
  - unfold num_output_tokens in *. rewrite Ht2, Epl, zlen_app. pose proof (zlen_nonneg (t :: toks)). lia.
  - unfold offsets in Hop. rewrite E1, zlen_app in Hpb |- *. pose proof (zlen_nonneg more). pose proof (zlen_nonneg (output_text d)). lia.
  - eapply (offsets_hit exempt); [done|exact Hno|exact Hop|lia|exact E1].
  - intros Hle. apply first_hit_none; [done|]. destruct (decoded_tokens (t :: toks) term d) as [|t1 l1] eqn:Ed.
    + destruct (Hnil eq_refl) as [-> ->]. done.
    + rewrite Hall; [by apply no_hit_end|done| |].
      * intros Hz. unfold num_output_tokens in *. rewrite Ht2, Epl, zlen_app, zlen_cons in Hle. pose proof (zlen_nonneg toks). lia.
      * etrans; [|exact Hle]. unfold num_output_tokens. destruct Hp as (_ & _ & _ & _ & _ & Epl1).
        assert (zlen (token_ids d1) ≤ zlen (token_ids d2)).
        { unfold d2. destruct skip; [|done]. simpl. rewrite zlen_app. pose proof (zlen_nonneg [z]). lia. }
        destruct Hp2 as (_ & _ & _ & _ & _ & ->). lia.
  - intros r d' (Hp' & Et' & Hres). exists p, d1, more. split; [exact Hrun|]. split; [done|].
    split; [by destruct Hop as [[_ H]|[_ ->]]; [right|left]|]. split; [by eapply same_params_trans|]. split; [by rewrite Et'|]. rewrite Einc in Hres. destruct (first_hit p (output_text d1) (d_stop d)) as [hit|]; [done|].
    destruct Hres as (-> & -> & Hw). done.
Qed.
(** C19: The incremental search for stop strings is a search of the whole text.  [d1]
    has the new tokens decoded, [exempt'] is the end of the text of the first
    [min_tokens] tokens, computed by the decoding loop itself.  [update] returns the
    first stop string of the list that ends behind it and cuts the text at its leftmost
    such place, at its end if it is to be shown; without one it returns nothing, keeps
    the text, and leaves nothing to be found later.  It raises only what decoding raises. *)
Theorem update_finds_stops exempt toks term d :
  watching exempt d →
  wpe (update decode_next toks term) d
    (λ r d', ∃ exempt' d1,
       foldM (decode_token decode_next) (decoded_tokens toks term d) exempt d = (Ret exempt', d1) ∧
       same_params d d' ∧ token_ids d' = token_ids d ++ toks ∧
       match first_hit exempt' (output_text d1) (d_stop d) with
       | None => r = None ∧ output_text d' = output_text d1 ∧ watching exempt' d'
       | Some hit => r = Some hit.1 ∧
           output_text d' = text_until (include_stop_str_in_output d) (output_text d1) hit
       end)
    (λ e d', foldM (decode_token decode_next) (decoded_tokens toks term d) exempt d = (Raise e, d')).
Proof.
  intros H. eapply wpe_mono; [by apply update_run| |done]. naive_solver.
Qed.
End update.

(** "ab" has been decoded, "c" arrives, and "bc" is a stop string. *)
Definition letter_decode : list Z → Z → M unit text := λ _ t, mret [t].
Definition letters_ab : Detokenizer unit := mkDetok [[98; 99]] 0 false 1 0 [97; 98] [97; 98] 0 tt.

Lemma update_finds_stops_witness : watching 0 letters_ab ∧
  wpe (update letter_decode [99] false) letters_ab
    (λ r d', ∃ exempt' d1,
       foldM (decode_token letter_decode) [99] 0 letters_ab = (Ret exempt', d1) ∧
       same_params letters_ab d' ∧ token_ids d' = [97; 98] ++ [99] ∧
       match first_hit exempt' (output_text d1) [[98; 99]] with
       | None => r = None ∧ output_text d' = output_text d1 ∧ watching exempt' d'
       | Some hit => r = Some hit.1 ∧ output_text d' = text_until false (output_text d1) hit
       end)
    (λ e d', foldM (decode_token letter_decode) [99] 0 letters_ab = (Raise e, d')).
Proof.
  assert (Hw : watching 0 letters_ab).
  { split; [constructor; [done|constructor]|done|by vm_compute|by vm_compute|]. intros s k ->%list_elem_of_singleton Ho.
    exfalso. pose proof (occurs_le [98; 99] [97; 98] k ltac:(done) Ho) as Hk. simpl in Hk. assert (k = 0%nat) as -> by lia. by vm_compute in Ho. }
  split; [exact Hw|]. exact (update_finds_stops letter_decode 0 [99] false letters_ab Hw).
Defined.

(** ** Streaming: what the client of a detokenizer relies on

    [ts_text] is the text of the request, [ts_sent] the pieces handed out so far.  While
    it is [ts_live] tokens may be added; after a stop string it can only be flushed. *)
Class StreamLaws (D : Type) `{!TextStream D} : Type := {
  ts_ok : D → Prop;
  ts_live : D → Prop;
  ts_text : D → text;
  ts_sent : D → text;
  ts_live_ok : ∀ d, ts_live d → ts_ok d;
  ts_num_tokens : ∀ d, ts_ok d → ts_num_output_tokens d = zlen (ts_output_token_ids d);
  ts_sent_prefix : ∀ d, ts_ok d → ts_sent d `prefix_of` ts_text d;
  ts_update_law : ∀ d toks stop, ts_live d →
    wpe (ts_update toks stop) d (λ r d',
      ts_output_token_ids d' = ts_output_token_ids d ++ toks ∧ ts_sent d' = ts_sent d ∧ ts_ok d' ∧
      (r = None → ts_live d') ∧ r ≠ Some []) (λ _ _, True);
  ts_flush_law : ∀ d delta, ts_ok d →
    wp (ts_next_text true delta) d (λ piece d',
      ts_output_token_ids d' = ts_output_token_ids d ∧ ts_text d' = ts_text d ∧ ts_ok d' ∧
      if delta then ts_sent d' = ts_sent d ++ piece ∧ ts_sent d' = ts_text d
      else d' = d ∧ piece = ts_text d);
  ts_next_law : ∀ d delta, ts_live d →
    wp (ts_next_text false delta) d (λ piece d',
      ts_output_token_ids d' = ts_output_token_ids d ∧ ts_text d' = ts_text d ∧ ts_live d' ∧
      if delta then ts_sent d' = ts_sent d ++ piece else d' = d ∧ piece `prefix_of` ts_text d);
}.

Section streaming.
Context {D : Type} (decode_next : list Z → Z → M D text).
Implicit Types d : Detokenizer D.

(** What is held back is what a stop string may still cut. *)
Definition hold_back d : Z :=
  if negb (is_nil (d_stop d)) && negb (include_stop_str_in_output d) then longest_stop (d_stop d) - 1 else 0.

Record detok_ok d : Prop := {
  do_prompt : 0 ≤ prompt_len d ≤ zlen (token_ids d);
  do_buffer : 0 ≤ stop_buffer_length d;
  do_offset : 0 ≤ _last_output_text_offset d ≤ zlen (output_text d);
}.

Record detok_live d : Prop := {
  dl_watching : ∃ exempt, watching exempt d;
  dl_prompt : 0 ≤ prompt_len d ≤ zlen (token_ids d);
  dl_buffer : stop_buffer_length d = hold_back d;
  dl_offset : 0 ≤ _last_output_text_offset d ≤ Z.max 0 (zlen (output_text d) - hold_back d);
}.

Lemma longest_stop_ge stop s : s ∈ stop → zlen s ≤ longest_stop stop.
Proof. induction 1; simpl; lia. Qed.

Lemma hold_back_nonneg d : Forall (.≠ []) (d_stop d) → 0 ≤ hold_back d.
Proof.
  unfold hold_back. intros Hs. destruct (d_stop d) as [|s l]; [done|]. destruct (include_stop_str_in_output d); cbn [is_nil negb andb]; [done|].
  apply Forall_cons in Hs as [Hs _]. pose proof (text_pos s Hs). pose proof (longest_stop_ge (s :: l) s ltac:(by left)).
  unfold zlen in *. lia.
Qed.

Lemma detok_live_ok d : detok_live d → detok_ok d.
Proof.
  intros [[e Hw] Hp Hb Ho]. pose proof (hold_back_nonneg d (wa_stop _ _ Hw)).
  pose proof (zlen_nonneg (output_text d)). split; [done|lia|lia].
Qed.

Lemma output_token_ids_drop d : detok_ok d → output_token_ids d = drop (Z.to_nat (prompt_len d)) (token_ids d).
Proof.
  intros [Hp _ _]. unfold output_token_ids. destruct (Z.eqb_spec (prompt_len d) 0) as [->|H]; simpl; [done|].
  apply py_from_nonneg; lia.
Qed.


(** A stop string that is excluded is cut where nothing has been handed out yet. *)
Lemma cut_behind_sent exempt e' d d1 more s k :
  watching exempt d → output_text d1 = output_text d ++ more → (e' = exempt ∨ zlen (output_text d) ≤ e') →
  first_hit e' (output_text d1) (d_stop d) = Some (s, k) →
  zlen (output_text d) < Z.of_nat (k + length s) ∧ (k + length s ≤ length (output_text d1))%nat ∧
  zlen (output_text d) - longest_stop (d_stop d) + 1 ≤ Z.of_nat k.
Proof.
  intros [Hs _ _ _ Hno] E1 He Hf. destruct (first_hit_elem _ _ _ _ _ Hs Hf) as (Hin & Ho & Hlt & Hle).
  assert (zlen (output_text d) < Z.of_nat (k + length s)).
  { destruct He as [->|He]; [|lia]. apply Z.nle_gt. intros H. rewrite E1 in Ho. unfold zlen in H.
    apply occurs_app in Ho; [|lia]. specialize (Hno s k Hin Ho). lia. }
  pose proof (longest_stop_ge _ _ Hin). unfold zlen in *. lia.
Qed.

Lemma update_stream d toks stop : detok_live d →
  wpe (update decode_next toks stop) d (λ r d',
    output_token_ids d' = output_token_ids d ++ toks ∧
    take (Z.to_nat (_last_output_text_offset d')) (output_text d') =
      take (Z.to_nat (_last_output_text_offset d)) (output_text d) ∧
    detok_ok d' ∧ (r = None → detok_live d') ∧ r ≠ Some []) (λ _ _, True).
Proof.
  intros Hd. pose proof (detok_live_ok d Hd) as Hok. destruct Hd as [[e Hw] Hp Hb Ho].
  eapply wpe_mono; [by apply (update_run decode_next e)| |done].
  intros r d' (e' & d1 & more & _ & E1 & He & (Est & _ & Einc & Ebuf & Eoff & Epl) & Et & Hres).
  pose proof (hold_back_nonneg d (wa_stop _ _ Hw)) as Hh. pose proof (zlen_nonneg (output_text d)) as Hz.
  assert (Hoff : _last_output_text_offset d ≤ zlen (output_text d)) by lia.
  assert (Hp' : 0 ≤ prompt_len d' ≤ zlen (token_ids d')).
  { rewrite Epl, Et, zlen_app. pose proof (zlen_nonneg toks). lia. }
  assert (Htake : ∀ n, (Z.to_nat (_last_output_text_offset d) ≤ n)%nat →
    take (Z.to_nat (_last_output_text_offset d)) (take n (output_text d1)) =
    take (Z.to_nat (_last_output_text_offset d)) (output_text d)).
  { intros n Hn. rewrite take_take, Nat.min_l by done. rewrite E1. unfold zlen in Hoff. by rewrite take_app_le by lia. }
  assert (Hids : detok_ok d' → output_token_ids d' = output_token_ids d ++ toks).
  { intros Hok'. rewrite !output_token_ids_drop by done. rewrite Epl, Et. destruct Hok as [Hok _ _]. unfold zlen in Hok.
    by rewrite drop_app_le by lia. }
  destruct (first_hit e' (output_text d1) (d_stop d)) as [[s k]|] eqn:Ef.
  - destruct Hres as [-> Etext]. destruct (cut_behind_sent e e' d d1 more s k Hw E1 He Ef) as (H1 & H2 & H3).
    destruct (first_hit_elem _ _ _ _ _ (wa_stop _ _ Hw) Ef) as (Hin & _).
    assert (Hcut : _last_output_text_offset d ≤ Z.of_nat (k + (if include_stop_str_in_output d then length s else 0))).
    { unfold hold_back in *. destruct (d_stop d) as [|s0 l]; [by apply not_elem_of_nil in Hin|].
      destruct (include_stop_str_in_output d); simpl in *; lia. }
    assert (Hok' : detok_ok d').
    { split; [done|lia|]. rewrite Eoff, Etext. unfold text_until, zlen. simpl. rewrite length_take.
      destruct (include_stop_str_in_output d); lia. }
    split; [by apply Hids|]. split; [rewrite Eoff, Etext; apply Htake; simpl; lia|]. split; [done|]. split; [done|].
    intros [= ->]. pose proof (wa_stop _ _ Hw) as Hs. rewrite Forall_forall in Hs. by apply (Hs []).
  - destruct Hres as (-> & Etext & Hw').
    assert (Hlive : detok_live d').
    { split; [by exists e'|done| |].
      - rewrite Ebuf, Hb. unfold hold_back. by rewrite Est, Einc.
      - rewrite Eoff, Etext, E1, zlen_app. unfold hold_back in *. rewrite Est, Einc. pose proof (zlen_nonneg more). lia. }
    split; [apply Hids; by apply detok_live_ok|]. split; [|by split; [apply detok_live_ok|]].
    rewrite Eoff, Etext. rewrite <-(take_ge (output_text d1) (length (output_text d1))) by done. apply Htake.
    rewrite E1, length_app. unfold zlen in Hoff. lia.
Qed.

Lemma next_text_delta finished d : detok_ok d →
  (finished = false → _last_output_text_offset d ≤ Z.max 0 (zlen (output_text d) - stop_buffer_length d)) →
  let cut := if finished then zlen (output_text d) else Z.max 0 (zlen (output_text d) - stop_buffer_length d) in
  wp (get_next_output_text finished true) d (λ piece d',
    d' = set_offset cut d ∧
    take (Z.to_nat cut) (output_text d) = take (Z.to_nat (_last_output_text_offset d)) (output_text d) ++ piece).
Proof.
  intros [Hp Hb Ho] Hlive cut. unfold get_next_output_text. wp_step. wp_step. cbn [negb]. cbv iota zeta.
  set (len := zlen (output_text d) - (if finished then 0 else stop_buffer_length d)).
  assert (Hcut : cut = Z.max 0 len) by (unfold cut, len; destruct finished; lia).
  destruct (Z.ltb_spec (_last_output_text_offset d) len) as [H|H].
  - wp_step. wp_step. wp_step. replace cut with len by lia. split; [done|]. rewrite py_slice_nonneg by lia.
    rewrite take_take_drop. f_equal. lia.
  - wp_step. assert (cut = _last_output_text_offset d) as ->.
    { unfold len, cut in *. destruct finished; [lia|]. specialize (Hlive eq_refl). lia. }
    split; [by destruct d|]. by rewrite app_nil_r.
Qed.
End streaming.

Lemma next_text_cumulative {D} (finished : bool) (d : Detokenizer D) : 0 ≤ stop_buffer_length d →
  wp (get_next_output_text finished false) d (λ piece d',
    d' = d ∧ if finished then piece = output_text d else piece `prefix_of` output_text d).
Proof.
  intros Hb. unfold get_next_output_text. wp_step. wp_step. cbn [negb]. wp_step. split; [done|].
  destruct finished; [done|]. destruct (stop_buffer_length d =? 0); [done|]. unfold py_slice.
  replace (clip_index (zlen (output_text d)) 0) with 0 by (unfold clip_index; pose proof (zlen_nonneg (output_text d)); simpl; lia).
  simpl. rewrite drop_0. apply prefix_take.
Qed.

Section base.
Context {D : Type} (decode_next : list Z → Z → M D text).
Existing Instance detokenizer_stream.

(** What has been handed out is the text up to the offset. *)
Definition sent_text (d : Detokenizer D) : text := take (Z.to_nat (_last_output_text_offset d)) (output_text d).

Lemma base_next_live (d : Detokenizer D) delta : detok_live d →
  wp (get_next_output_text false delta) d (λ piece d',
    output_token_ids d' = output_token_ids d ∧ output_text d' = output_text d ∧ detok_live d' ∧
    if delta then sent_text d' = sent_text d ++ piece else d' = d ∧ piece `prefix_of` output_text d).
Proof.
  intros Hd. pose proof (detok_live_ok d Hd) as Hok. pose proof Hd as [[e Hw] Hp Hb Ho].
  pose proof (hold_back_nonneg d (wa_stop _ _ Hw)) as Hh. destruct delta.
  - eapply wp_mono; [apply next_text_delta; [done|lia]|]. intros piece d' [-> Ht]. rewrite Hb in *.
    split; [done|]. split; [done|]. split; [|exact Ht]. split; [exists e; by destruct Hw|exact Hp|exact Hb|].
    simpl. unfold hold_back in *. simpl in *. lia.
  - eapply wp_mono; [apply next_text_cumulative; lia|]. intros piece d' [-> H]. done.
Qed.

Lemma base_next_flush (d : Detokenizer D) delta : detok_ok d →
  wp (get_next_output_text true delta) d (λ piece d',
    output_token_ids d' = output_token_ids d ∧ output_text d' = output_text d ∧ detok_ok d' ∧
    if delta then sent_text d' = sent_text d ++ piece ∧ sent_text d' = output_text d
    else d' = d ∧ piece = output_text d).
Proof.
  intros Hok. destruct delta.
  - eapply wp_mono; [by apply next_text_delta|]. intros piece d' [-> Ht].
    assert (Hall : take (Z.to_nat (zlen (output_text d))) (output_text d) = output_text d).
    { apply take_ge. unfold zlen. lia. }
    split; [done|]. split; [done|]. split; [|split; [exact Ht|exact Hall]].
    destruct Hok as [Hp Hb Ho]. split; [done|done|]. simpl. pose proof (zlen_nonneg (output_text d)). lia.
  - eapply wp_mono; [apply next_text_cumulative; apply Hok|]. intros piece d' [-> ->]. done.
Qed.

#[export] Program Instance detokenizer_laws : @StreamLaws _ (detokenizer_stream decode_next) :=
  { ts_ok := detok_ok; ts_live := detok_live; ts_text := output_text; ts_sent := sent_text }.
Next Obligation. intros d. apply detok_live_ok. Qed.
Next Obligation.
  intros d Hok. simpl. rewrite output_token_ids_drop by done. destruct Hok as [Hp _ _].
  unfold num_output_tokens, zlen in *. rewrite length_drop. lia.
Qed.
Next Obligation. intros d _. apply prefix_take. Qed.
Next Obligation. intros d toks stop Hd. by apply update_stream. Qed.
Next Obligation. intros d delta Hd. by apply base_next_flush. Qed.
Next Obligation. intros d delta Hd. by apply base_next_live. Qed.
End base.

(** Without a tokenizer there is never any text. *)
#[export] Program Instance plain_laws : StreamLaws PlainDetokenizer :=
  { ts_ok := λ _, True; ts_live := λ _, True; ts_text := λ _, []; ts_sent := λ _, [] }.
Next Obligation. done. Qed.
Next Obligation. done. Qed.
Next Obligation. done. Qed.
Next Obligation. intros d toks stop _. simpl. unfold plain_update. do 3 wpe_step. done. Qed.
Next Obligation. intros d delta _. simpl. apply wp_ret. by destruct delta. Qed.
Next Obligation. intros d delta _. simpl. apply wp_ret. by destruct delta. Qed.

(** *** Whichever class the detokenizer has *)
Section any.
Context {S : Type} (api : Fast.fast_stream S).
Existing Instance detokenizer_stream.

Definition any_ok (d : IncrementalDetokenizer S) : Prop :=
  match d with PlainD _ => True | FastD d => detok_ok d | SlowD _ d => detok_ok d end.
Definition any_live (d : IncrementalDetokenizer S) : Prop :=
  match d with PlainD _ => True | FastD d => detok_live d | SlowD _ d => detok_live d end.
Definition any_text (d : IncrementalDetokenizer S) : text :=
  match d with PlainD _ => [] | FastD d => output_text d | SlowD _ d => output_text d end.
Definition any_sent (d : IncrementalDetokenizer S) : text :=
  match d with PlainD _ => [] | FastD d => sent_text d | SlowD _ d => sent_text d end.

Lemma wpe_plain {A} (m : M PlainDetokenizer A) mf ms d Q E : wpe m d (λ a d, Q a (PlainD d)) (λ e d, E e (PlainD d)) →
  wpe (dispatch m mf ms : M (IncrementalDetokenizer S) A) (PlainD d) Q E.
Proof. unfold wpe, dispatch. by destruct (m d) as [[?|?] ?]. Qed.
Lemma wpe_fast {A} m (mf : M _ A) ms d Q E : wpe mf d (λ a d, Q a (FastD d)) (λ e d, E e (FastD d)) →
  wpe (dispatch m mf ms : M (IncrementalDetokenizer S) A) (FastD d) Q E.
Proof. unfold wpe, dispatch. by destruct (mf d) as [[?|?] ?]. Qed.
Lemma wpe_slow {A} m mf (ms : _ → M _ A) t d Q E : wpe (ms t) d (λ a d, Q a (SlowD t d)) (λ e d, E e (SlowD t d)) →
  wpe (dispatch m mf ms : M (IncrementalDetokenizer S) A) (SlowD t d) Q E.
Proof. unfold wpe, dispatch. by destruct (ms t d) as [[?|?] ?]. Qed.

Lemma wp_fast {A} m (mf : M _ A) ms d Q : wp mf d (λ a d, Q a (FastD d)) →
  wp (dispatch m mf ms : M (IncrementalDetokenizer S) A) (FastD d) Q.
Proof. unfold wp, dispatch. by destruct (mf d) as [[?|?] ?]. Qed.
Lemma wp_slow {A} m mf (ms : _ → M _ A) t d Q : wp (ms t) d (λ a d, Q a (SlowD t d)) →
  wp (dispatch m mf ms : M (IncrementalDetokenizer S) A) (SlowD t d) Q.
Proof. unfold wp, dispatch. by destruct (ms t d) as [[?|?] ?]. Qed.

#[export] Program Instance any_laws : @StreamLaws _ (any_stream api) :=
  { ts_ok := any_ok; ts_live := any_live; ts_text := any_text; ts_sent := any_sent }.
Next Obligation. intros [d|d|t d]; [done| |]; apply detok_live_ok. Qed.
Next Obligation.
  intros [d|d|t d]; [done| |]; intros Hd; [apply (ts_num_tokens (StreamLaws := detokenizer_laws (Fast.decode_next api)) d Hd)
    |apply (ts_num_tokens (StreamLaws := detokenizer_laws (Slow.decode_next t)) d Hd)].
Qed.
Next Obligation. intros [d|d|t d] _; [done| |]; apply prefix_take. Qed.
Next Obligation.
  intros [d|d|t d] toks stop Hd; simpl; [apply wpe_plain|apply wpe_fast|apply wpe_slow];
    [by apply (ts_update_law (StreamLaws := plain_laws))|by apply update_stream|by apply update_stream].
Qed.
Next Obligation.
  intros [d|d|t d] delta Hd; simpl.
  - by destruct delta.
  - apply wp_fast. eapply wp_mono; [by apply base_next_flush|]. destruct delta; naive_solver.
  - apply wp_slow. eapply wp_mono; [by apply base_next_flush|]. destruct delta; naive_solver.
Qed.
Next Obligation.
  intros [d|d|t d] delta Hd; simpl.
  - by destruct delta.
  - apply wp_fast. eapply wp_mono; [by apply base_next_live|]. destruct delta; naive_solver.
  - apply wp_slow. eapply wp_mono; [by apply base_next_live|]. destruct delta; naive_solver.
Qed.
End any.

(** A new detokenizer: nothing has been sent, and the stop strings, which are not empty
    ([SamplingParams] rejects others), are looked for from the start. *)
Lemma init_live {D} (params : DetokParams) (dec : D) :
  (match dp_stop params with NoStop => True | OneStop s => s ≠ [] | StopList l => Forall (.≠ []) l end) →
  0 ≤ dp_min_tokens params →
  detok_live (BaseIncrementalDetokenizer_init params dec) ∧ sent_text (BaseIncrementalDetokenizer_init params dec) = [].
Proof.
  intros Hs Hm. split; [|done]. split; [|done|done|simpl; lia]. exists 0.
  assert (Hf : Forall (.≠ []) (d_stop (BaseIncrementalDetokenizer_init params dec))).
  { simpl. destruct (dp_stop params); [constructor|by repeat constructor|done]. }
  split; [done|done|done|done|]. by apply (no_hit_end []).
Qed.

(** With several stop strings the output may contain one of them: "b" comes first in the
    list, so "ab" is cut to "a". *)
Theorem stop_string_left_in_output :
  let d := BaseIncrementalDetokenizer_init (mkDetokParams (StopList [[98]; [97]]) 0 false true true) tt in
  (λ r : outcome (option text) * Detokenizer unit, (r.1, output_text r.2)) (update (λ _ t, mret [t]) [97; 98] false d) =
    (Ret (Some [98]), [97]).
Proof. vm_compute. reflexivity. Qed.
