(* ===== verification/OutputProc.v ===== *)
(** * The output processor

    [vllm/v1/engine/output_processor.py], [vllm/v1/engine/parallel_sampling.py] and
    [RequestOutput.add] of [vllm/outputs.py]: what the engine core produces becomes the
    outputs of the clients' requests, those of the [n] children of one request are put
    together, and what a client has not fetched yet is merged.

    [ParentRequest] objects are shared by the states of the children, [parents] holds
    them by their request id; [parent_requests] is the dictionary that registers them.
    The collectors are shared by children too, [queues] holds them by address.  Log
    probabilities, routed experts, KV-transfer parameters, LoRA and timing statistics
    and tracing are left out, and [prompt] is not part of an output. *)

From stdpp Require Import pretty.
From S2P Require Import Prelude.
From S2P Require Import Request.
From S2P Require Import BlockHash.
From S2P Require Import EncoderCache.
From S2P Require Import SingleType.
From S2P Require Import SchedUpdate.
From S2P Require Import Detok.
Local Open Scope Z_scope.

(** ** Outputs *)

Inductive RequestOutputKind : Set := CUMULATIVE | DELTA | FINAL_ONLY.
#[export] Instance RequestOutputKind_eq_dec : EqDecision RequestOutputKind.
Proof. solve_decision. Defined.

(** A token id, or the stop string that the detokenizer found. *)
Inductive FinalReason : Type :=
  | EngineReason (r : StopReason)
  | StopText (s : text).

Record CompletionOutput : Type := mkCompletion {
  co_index : Z;
  co_text : text;
  co_token_ids : list Z;
  co_finish_reason : option FinishReason;
  co_stop_reason : option FinalReason;
}.

(** [CompletionOutput.finished] *)
Definition completion_finished (c : CompletionOutput) : bool := bool_decide (is_Some (co_finish_reason c)).

(** A completion that is [None] is a place of the aggregated list that is still empty. *)
Record RequestOutput : Type := mkOutput {
  ro_request_id : string;
  ro_prompt_token_ids : option (list Z);
  ro_outputs : list (option CompletionOutput);
  ro_finished : bool;
}.

Definition STREAM_FINISHED : RequestOutput := mkOutput "" None [] true.

(** [RequestOutput | PoolingRequestOutput] *)
Inductive Output : Type :=
  | Completions (o : RequestOutput)
  | Pooled (request_id : string) (data : Tensor) (prompt_token_ids : list Z) (finished : bool).

Definition set_finished (b : bool) (o : Output) : Output :=
  match o with
  | Completions o => Completions (mkOutput (ro_request_id o) (ro_prompt_token_ids o) (ro_outputs o) b)
  | Pooled i d p _ => Pooled i d p b
  end.

(** ** RequestOutput.add *)

Definition merge_completion (aggregate : bool) (completion next : CompletionOutput) : CompletionOutput :=
  if aggregate
  then mkCompletion (co_index completion) (co_text completion ++ co_text next)
         (co_token_ids completion ++ co_token_ids next) (co_finish_reason next) (co_stop_reason next)
  else next.

(** The inner loop with its [else]. *)
Fixpoint add_completion (aggregate : bool) (next : CompletionOutput) (outputs : list (option CompletionOutput))
    : outcome (list (option CompletionOutput)) :=
  match outputs with
  | [] => Ret [Some next]
  | None :: _ => Raise AttributeError
  | Some completion :: rest =>
      if co_index completion =? co_index next then Ret (Some (merge_completion aggregate completion next) :: rest)
      else match add_completion aggregate next rest with
           | Ret rest => Ret (Some completion :: rest)
           | Raise e => Raise e
           end
  end.

Fixpoint add_completions (aggregate : bool) (nexts outputs : list (option CompletionOutput))
    : outcome (list (option CompletionOutput)) :=
  match nexts with
  | [] => Ret outputs
  | None :: nexts => if is_nil outputs then add_completions aggregate nexts [None] else Raise AttributeError
  | Some next :: nexts =>
      match add_completion aggregate next outputs with
      | Ret outputs => add_completions aggregate nexts outputs
      | Raise e => Raise e
      end
  end.

Definition output_add (self next_output : RequestOutput) (aggregate : bool) : outcome RequestOutput :=
  match add_completions aggregate (ro_outputs next_output) (ro_outputs self) with
  | Ret outputs => Ret (mkOutput (ro_request_id self) (ro_prompt_token_ids self) outputs
                          (ro_finished self || ro_finished next_output))
  | Raise e => Raise e
  end.

(** ** RequestOutputCollector *)

Inductive Pending : Type :=
  | Nothing
  | Ready (o : Output)
  | Failed (e : exn).

Record RequestOutputCollector : Type := mkCollector {
  aggregate : bool;
  output : Pending;
}.

Definition RequestOutputCollector_init (kind : RequestOutputKind) : RequestOutputCollector :=
  mkCollector (bool_decide (kind = DELTA)) Nothing.

Definition collector_put (o : Pending) : M RequestOutputCollector unit :=
  c ← get;
  match output c, o with
  | Nothing, _ | _, Failed _ => put (mkCollector (aggregate c) o)
  | Ready (Completions o1), Ready (Completions o2) =>
      o ← of_outcome (output_add o1 o2 (aggregate c));
      put (mkCollector (aggregate c) (Ready (Completions o)))
  | Ready (Pooled _ _ _ _), Ready (Pooled _ _ _ _) => put (mkCollector (aggregate c) o)
  | _, _ => mret tt
  end.

Definition get_nowait : M RequestOutputCollector (option Output) :=
  c ← get;
  put (mkCollector (aggregate c) Nothing) ;;
  match output c with
  | Nothing => mret None
  | Ready o => mret (Some o)
  | Failed e => raise e
  end.

(** ** Requests *)

Record SamplingParams : Type := mkSampling {
  sp_n : Z;
  sp_seed : option Z;
  sp_detokenize : bool;
  sp_output_kind : RequestOutputKind;
  sp_detok : DetokParams;
}.

Inductive Params : Type :=
  | Sampling (p : SamplingParams)
  | Pooling (kind : RequestOutputKind).

Record EngineCoreRequest : Type := mkCoreRequest {
  er_request_id : string;
  er_external_req_id : option string;
  er_prompt_token_ids : option (list Z);
  er_prompt_embeds : option Tensor;
  er_params : Params;
  er_resumable : bool;
}.

(** ** ParentRequest *)

Record ParentRequest : Type := mkParent {
  pr_request_id : string;
  pr_external_req_id : string;
  pr_sampling_params : SamplingParams;
  child_requests : gset string;
  output_aggregator : list (option CompletionOutput);
  cached_child_sampling_params : option SamplingParams;
}.

Definition ParentRequest_init (request : EngineCoreRequest) (sampling_params : SamplingParams)
    : outcome ParentRequest :=
  match er_external_req_id request with
  | None => Raise AssertionError
  | Some ext =>
      Ret (mkParent (er_request_id request) ext sampling_params ∅
             (if bool_decide (sp_output_kind sampling_params = FINAL_ONLY)
              then replicate (Z.to_nat (sp_n sampling_params)) None else []) None)
  end.

Definition set_children v (p : ParentRequest) : ParentRequest :=
  mkParent (pr_request_id p) (pr_external_req_id p) (pr_sampling_params p) v (output_aggregator p)
    (cached_child_sampling_params p).
Definition set_aggregator v (p : ParentRequest) : ParentRequest :=
  mkParent (pr_request_id p) (pr_external_req_id p) (pr_sampling_params p) (child_requests p) v
    (cached_child_sampling_params p).
Definition set_cached v (p : ParentRequest) : ParentRequest :=
  mkParent (pr_request_id p) (pr_external_req_id p) (pr_sampling_params p) (child_requests p)
    (output_aggregator p) v.

Definition _get_child_sampling_params (index : Z) : M ParentRequest SamplingParams :=
  p ← get;
  match cached_child_sampling_params p with
  | Some c => mret c
  | None =>
      let sp := pr_sampling_params p in
      match sp_seed sp with
      | None =>
          let child := mkSampling 1 None (sp_detokenize sp) (sp_output_kind sp) (sp_detok sp) in
          modify (set_cached (Some child)) ;; mret child
      | Some seed =>
          mret (mkSampling 1 (Some (seed + index)) (sp_detokenize sp) (sp_output_kind sp) (sp_detok sp))
      end
  end.

(** [f"{index}_{self.request_id}"] *)
Definition child_id (index : Z) (request_id : string) : string := (pretty index +:+ "_" +:+ request_id)%string.

Definition get_child_info (index : Z) : M ParentRequest (string * SamplingParams) :=
  p ← get;
  let child_req_id := child_id index (pr_request_id p) in
  modify (set_children ({[child_req_id]} ∪ child_requests p)) ;;
  sp ← _get_child_sampling_params index;
  mret (child_req_id, sp).

(** The completions to hand out and whether the request is finished. *)
Definition get_outputs (child_request_id : string) (completion_output : CompletionOutput)
    : M ParentRequest (list (option CompletionOutput) * bool) :=
  p ← get;
  already_finished_and_returned ←
    (if completion_finished completion_output then
       if bool_decide (child_request_id ∈ child_requests p)
       then modify (set_children (child_requests p ∖ {[child_request_id]})) ;; mret false
       else mret true
     else mret false);
  p ← get;
  outputs ←
    (if negb (bool_decide (sp_output_kind (pr_sampling_params p) = FINAL_ONLY))
     then mret (if already_finished_and_returned : bool then [] else [Some completion_output])
     else
       agg ← of_option IndexError (py_set (output_aggregator p) (co_index completion_output) (Some completion_output));
       modify (set_aggregator agg) ;;
       mret (if bool_decide (child_requests p = ∅) then agg else []));
  p ← get;
  mret (outputs, bool_decide (child_requests p = ∅)).

(** ** RequestState *)

Record StreamingUpdate : Type := mkUpdate {
  su_prompt_token_ids : option (list Z);
  su_final : bool;
}.

Record RequestState (D : Type) : Type := mkState {
  rs_request_id : string;
  external_req_id : string;
  parent_req : option string;
  request_index : Z;
  output_kind : RequestOutputKind;
  rs_prompt_token_ids : option (list Z);
  rs_prompt_embeds : option Tensor;
  detokenizer : option D;
  queue : option Z;
  stream_interval : Z;
  sent_tokens_offset : Z;
  streaming_input : bool;
  input_chunk_queue : option (list StreamingUpdate);
}.
Arguments mkState {D} _ _ _ _ _ _ _ _ _ _ _ _ _.
Arguments rs_request_id {D} _.
Arguments external_req_id {D} _.
Arguments parent_req {D} _.
Arguments request_index {D} _.
Arguments output_kind {D} _.
Arguments rs_prompt_token_ids {D} _.
Arguments rs_prompt_embeds {D} _.
Arguments detokenizer {D} _.
Arguments queue {D} _.
Arguments stream_interval {D} _.
Arguments sent_tokens_offset {D} _.
Arguments streaming_input {D} _.
Arguments input_chunk_queue {D} _.

Section processor.
Context {D : Type} `{!TextStream D}.
(** [IncrementalDetokenizer.from_new_request] with the tokenizer of the processor *)
Context (new_detokenizer : bool → DetokParams → option (list Z) → option Tensor → outcome D).
(** The order in which a set is iterated. *)
Context (set_order : list string → list string).
Implicit Types st : RequestState D.

Definition set_detokenizer v st : RequestState D :=
  mkState (rs_request_id st) (external_req_id st) (parent_req st) (request_index st) (output_kind st)
    (rs_prompt_token_ids st) (rs_prompt_embeds st) v (queue st) (stream_interval st) (sent_tokens_offset st)
    (streaming_input st) (input_chunk_queue st).
Definition set_sent v st : RequestState D :=
  mkState (rs_request_id st) (external_req_id st) (parent_req st) (request_index st) (output_kind st)
    (rs_prompt_token_ids st) (rs_prompt_embeds st) (detokenizer st) (queue st) (stream_interval st) v
    (streaming_input st) (input_chunk_queue st).
Definition set_streaming v st : RequestState D :=
  mkState (rs_request_id st) (external_req_id st) (parent_req st) (request_index st) (output_kind st)
    (rs_prompt_token_ids st) (rs_prompt_embeds st) (detokenizer st) (queue st) (stream_interval st)
    (sent_tokens_offset st) v (input_chunk_queue st).
Definition set_chunks v st : RequestState D :=
  mkState (rs_request_id st) (external_req_id st) (parent_req st) (request_index st) (output_kind st)
    (rs_prompt_token_ids st) (rs_prompt_embeds st) (detokenizer st) (queue st) (stream_interval st)
    (sent_tokens_offset st) (streaming_input st) v.
Definition set_prompt v st : RequestState D :=
  mkState (rs_request_id st) (external_req_id st) (parent_req st) (request_index st) (output_kind st)
    v (rs_prompt_embeds st) (detokenizer st) (queue st) (stream_interval st)
    (sent_tokens_offset st) (streaming_input st) (input_chunk_queue st).

Definition apply_streaming_update (u : StreamingUpdate) st : RequestState D :=
  let st := set_streaming (negb (su_final u)) st in
  match rs_prompt_token_ids st with
  | Some ((_ :: _) as ids) => set_prompt (Some (ids ++ default [] (su_prompt_token_ids u))) st
  | _ => set_prompt (Some (default [] (su_prompt_token_ids u))) st
  end.

(** [RequestState.from_new_request] *)
Definition state_from_new_request (request : EngineCoreRequest) (parent : option string) (index : Z)
    (queue : option Z) (stream_interval : Z) : outcome (RequestState D) :=
  let state ext kind detok :=
    match length_from_prompt_token_ids_or_embeds (er_prompt_token_ids request) (er_prompt_embeds request) with
    | None => Raise ValueError
    | Some _ =>
        Ret (mkState (er_request_id request) ext parent index kind (er_prompt_token_ids request)
          (er_prompt_embeds request) detok queue stream_interval 0 (er_resumable request)
          (if er_resumable request then Some [] else None))
    end in
  match er_params request with
  | Sampling sp =>
      match new_detokenizer (sp_detokenize sp) (sp_detok sp) (er_prompt_token_ids request) (er_prompt_embeds request),
            er_external_req_id request with
      | Raise e, _ => Raise e
      | _, None => Raise AssertionError
      | Ret d, Some ext => state ext (sp_output_kind sp) (Some d)
      end
  | Pooling kind =>
      match er_external_req_id request with
      | None => Raise AssertionError
      | Some ext => state ext kind None
      end
  end.

(** *** Outputs of one request

    Its state, and the parents, which the children share. *)
Abbreviation Req := (M (RequestState D * gmap string ParentRequest)).

(** A method of [self.detokenizer]; [AttributeError] without one. *)
Definition on_detok {A} (m : M D A) : Req A := λ s,
  match detokenizer s.1 with
  | None => (Raise AttributeError, s)
  | Some d => let '(r, d) := m d in (r, (set_detokenizer (Some d) s.1, s.2))
  end.

(** A method of [self.parent_req] *)
Definition on_parent {A} (p : string) (m : M ParentRequest A) : Req A := λ s,
  match s.2 !! p with
  | None => (Raise AttributeError, s)
  | Some pr => let '(r, pr) := m pr in (r, (s.1, <[p := pr]> s.2))
  end.

Definition _new_completion_output (token_ids : list Z) (finish_reason : option FinishReason)
    (stop_reason : option FinalReason) : Req CompletionOutput :=
  s ← get;
  py_assert (bool_decide (is_Some (detokenizer s.1))) ;;
  let finished := bool_decide (is_Some finish_reason) in
  let delta := bool_decide (output_kind s.1 = DELTA) in
  txt ← on_detok (ts_next_text finished delta);
  token_ids ← (if delta then mret token_ids else on_detok (gets ts_output_token_ids));
  mret (mkCompletion (request_index s.1) txt token_ids (if finished then finish_reason else None)
          (if finished then stop_reason else None)).

(** The prompt in the output: a prompt of embeddings has placeholders. *)
Definition prompt_of st : option (list Z) :=
  match rs_prompt_token_ids st, rs_prompt_embeds st with
  | Some ids, _ => Some ids
  | None, Some e => Some (replicate (Z.to_nat (tensor_len e)) 0)
  | None, None => None
  end.

Definition _new_request_output (external_req_id : string) (outputs : list (option CompletionOutput))
    (finished : bool) : Req Output :=
  s ← get;
  ids ← of_option AssertionError (prompt_of s.1);
  of_option IndexError (head outputs) ;;
  mret (Completions (mkOutput external_req_id (Some ids) outputs finished)).

Definition _new_pooling_request_output (external_req_id : string) (data : Tensor) (finished : bool) : Req Output :=
  s ← get;
  ids ← of_option AssertionError (prompt_of s.1);
  mret (Pooled external_req_id data ids finished).

(** The check of the stream interval: nothing is sent now, or the tokens to send. *)
Definition stream_tokens (new_token_ids : list Z) (finished : bool) : Req (option (list Z)) :=
  s ← get;
  if 1 <? stream_interval s.1 then
    py_assert (bool_decide (is_Some (detokenizer s.1))) ;;
    num ← on_detok (gets ts_num_output_tokens);
    if negb (finished || (sent_tokens_offset s.1 =? 0) || (stream_interval s.1 <=? num - sent_tokens_offset s.1))
    then mret None
    else if bool_decide (output_kind s.1 = DELTA) then
      all_tokens ← on_detok (gets ts_output_token_ids);
      modify (λ s, (set_sent num s.1, s.2)) ;;
      mret (Some (py_from all_tokens (sent_tokens_offset s.1)))
    else mret (Some new_token_ids)
  else mret (Some new_token_ids).

Definition make_request_output (new_token_ids : list Z) (pooling_output : option Tensor)
    (finish_reason : option FinishReason) (stop_reason : option FinalReason) : Req (option Output) :=
  let finished := bool_decide (is_Some finish_reason) in
  s ← get;
  if negb finished && bool_decide (output_kind s.1 = FINAL_ONLY) then mret None
  else
    tokens ← stream_tokens new_token_ids finished;
    match tokens with
    | None => mret None
    | Some new_token_ids =>
        match pooling_output with
        | Some data => o ← _new_pooling_request_output (external_req_id s.1) data finished; mret (Some o)
        | None =>
            out ← _new_completion_output new_token_ids finish_reason stop_reason;
            match parent_req s.1 with
            | None => o ← _new_request_output (external_req_id s.1) [Some out] finished; mret (Some o)
            | Some p =>
                r ← on_parent p (get_outputs (rs_request_id s.1) out);
                if is_nil r.1 then mret None
                else
                  ext ← on_parent p (gets pr_external_req_id);
                  o ← _new_request_output ext r.1 r.2; mret (Some o)
            end
        end
    end.

(** *** The processor *)
Record OutputProcessor : Type := mkProcessor {
  op_stream_interval : Z;
  request_states : gmap string (RequestState D);
  parent_requests : gset string;
  external_req_ids : gmap string (list string);
  parents : gmap string ParentRequest;
  queues : gmap Z RequestOutputCollector;
}.

Definition OutputProcessor_init (stream_interval : Z) : OutputProcessor :=
  mkProcessor stream_interval ∅ ∅ ∅ ∅ ∅.

Implicit Types s : OutputProcessor.
Definition set_states v s :=
  mkProcessor (op_stream_interval s) v (parent_requests s) (external_req_ids s) (parents s) (queues s).
Definition set_parent_requests v s :=
  mkProcessor (op_stream_interval s) (request_states s) v (external_req_ids s) (parents s) (queues s).
Definition set_external v s :=
  mkProcessor (op_stream_interval s) (request_states s) (parent_requests s) v (parents s) (queues s).
Definition set_parents v s :=
  mkProcessor (op_stream_interval s) (request_states s) (parent_requests s) (external_req_ids s) v (queues s).
Definition set_queues v s :=
  mkProcessor (op_stream_interval s) (request_states s) (parent_requests s) (external_req_ids s) (parents s) v.

Abbreviation Proc := (M OutputProcessor).

Definition get_num_unfinished_requests s : Z := Z.of_nat (size (request_states s)).
Definition has_unfinished_requests s : bool := 0 <? Z.of_nat (size (request_states s)).

(** A method of the state of request [id], which is in the table. *)
Definition on_state {A} (id : string) (m : Req A) : Proc A := λ s,
  match request_states s !! id with
  | None => (Raise KeyError, s)
  | Some st =>
      let '(r, (st, ps)) := m (st, parents s) in
      (r, set_parents ps (set_states (<[id := st]> (request_states s)) s))
  end.

(** A method of a state that has left the table; it is dropped afterwards. *)
Definition on_popped {A} (st : RequestState D) (m : Req A) : Proc A := λ s,
  let '(r, (_, ps)) := m (st, parents s) in (r, set_parents ps s).

(** A method of a collector *)
Definition on_queue {A} (q : Z) (m : M RequestOutputCollector A) : Proc A := λ s,
  match queues s !! q with
  | None => (Raise AttributeError, s)
  | Some c => let '(r, c) := m c in (r, set_queues (<[q := c]> (queues s)) s)
  end.

(** [l.remove(x)] *)
Fixpoint remove_id (x : string) (l : list string) : option (list string) :=
  match l with
  | [] => None
  | y :: l => if bool_decide (x = y) then Some l else cons y <$> remove_id x l
  end.

(** [self.external_req_ids[ext].remove(req_id)], and the entry goes with its last id;
    reading a [defaultdict] adds a missing entry. *)
Definition remove_external (ext req_id : string) : Proc unit :=
  modify (λ s, if external_req_ids s !! ext is None then set_external (<[ext := []]> (external_req_ids s)) s else s) ;;
  s ← get;
  ids ← of_option ValueError (remove_id req_id (default [] (external_req_ids s !! ext)));
  modify (λ s, set_external (if is_nil ids then delete ext (external_req_ids s)
                             else <[ext := ids]> (external_req_ids s)) s).

Definition propagate_error (e : exn) : Proc unit :=
  s ← get;
  foreach (map_to_list (request_states s)) (λ '(_, st),
    match queue st with None => raise AssertionError | Some q => on_queue q (collector_put (Failed e)) end).

Definition _finish_request (st : RequestState D) : Proc unit :=
  s ← get;
  of_option KeyError (request_states s !! rs_request_id st) ;;
  modify (λ s, set_states (delete (rs_request_id st) (request_states s)) s) ;;
  remove_external (external_req_id st) (rs_request_id st) ;;
  match parent_req st with
  | None => mret tt
  | Some p =>
      s ← get;
      pr ← of_option AttributeError (parents s !! p);
      when (bool_decide (child_requests pr = ∅))
        (modify (λ s, set_parent_requests (parent_requests s ∖ {[p]}) s))
  end.

(** The first loop of [abort_requests]: the ids, external or not, become internal. *)
Definition internal_ids_of (internal : bool) (internal_req_ids : list string) (request_id : string)
    : Proc (list string) :=
  s ← get;
  if internal then
    match request_states s !! request_id with
    | Some st => remove_external (external_req_id st) request_id
    | None => mret tt
    end ;;
    mret (internal_req_ids ++ [request_id])
  else
    modify (λ s, set_external (delete request_id (external_req_ids s)) s) ;;
    mret (internal_req_ids ++ default [] (external_req_ids s !! request_id)).

(** The tensor that stands for the pooled output of an aborted request *)
Definition EMPTY_CPU_TENSOR : Tensor := mkTensor 0 (λ _ _, []).

(** One round of the second loop of [abort_requests]; [abort_children] is the recursive
    call. *)
Definition abort_one (abort_children : list string → Proc (list string)) (request_ids_to_abort : list string)
    (request_id : string) : Proc (list string) :=
  s ← get;
  match request_states s !! request_id with
  | Some st =>
      modify (λ s, set_states (delete request_id (request_states s)) s) ;;
      match queue st with
      | None => mret tt
      | Some q =>
          o ← on_popped st (make_request_output []
                (if bool_decide (is_Some (detokenizer st)) then None else Some EMPTY_CPU_TENSOR)
                (Some ABORT) None);
          match o with Some o => on_queue q (collector_put (Ready o)) | None => mret tt end
      end ;;
      mret (request_ids_to_abort ++ [request_id])
  | None =>
      if bool_decide (request_id ∈ parent_requests s) then
        pr ← of_option AttributeError (parents s !! request_id);
        child_reqs ←
          (if bool_decide (child_requests pr = ∅) then mret []
           else abort_children (set_order (elements (child_requests pr))));
        modify (λ s, set_parent_requests (parent_requests s ∖ {[request_id]}) s) ;;
        mret (request_ids_to_abort ++ child_reqs)
      else mret request_ids_to_abort
  end.

(** [fuel] bounds the depth of the calls for children. *)
Fixpoint abort_requests (fuel : nat) (request_ids : list string) (internal : bool) : Proc (list string) :=
  match fuel with
  | O => raise OutOfFuel
  | S fuel =>
      internal_req_ids ← foldM (internal_ids_of internal) request_ids [];
      foldM (abort_one (λ child_reqs, abort_requests fuel child_reqs true)) internal_req_ids []
  end.

Definition _update_streaming_request_state (st : RequestState D) (request : EngineCoreRequest) : Proc unit :=
  let id := rs_request_id st in
  let write f := on_state id (modify (λ r, (f r.1, r.2))) in
  if negb (er_resumable request) then
    match input_chunk_queue st with
    | None =>
        _finish_request st ;;
        match queue st with
        | Some q => on_queue q (collector_put (Ready (Completions STREAM_FINISHED)))
        | None => mret tt
        end
    | Some chunks =>
        match last chunks with
        | Some u => write (set_chunks (Some (removelast chunks ++ [mkUpdate (su_prompt_token_ids u) true])))
        | None => write (set_streaming false)
        end
    end
  else
    let u := mkUpdate (er_prompt_token_ids request) false in
    match input_chunk_queue st with
    | None => write (λ st, set_chunks (Some []) (apply_streaming_update u st))
    | Some chunks => write (set_chunks (Some (chunks ++ [u])))
    end.

Definition add_request (request : EngineCoreRequest) (parent : option string) (index : Z) (queue : option Z)
    : Proc unit :=
  let request_id := er_request_id request in
  s ← get;
  match request_states s !! request_id with
  | Some st => _update_streaming_request_state st request
  | None =>
      st ← of_outcome (state_from_new_request request parent index queue (op_stream_interval s));
      modify (λ s, set_states (<[request_id := st]> (request_states s)) s) ;;
      match parent with
      | Some p => modify (λ s, set_parent_requests (parent_requests s ∪ {[p]}) s)
      | None => mret tt
      end ;;
      modify (λ s, set_external (<[external_req_id st :=
        default [] (external_req_ids s !! external_req_id st) ++ [request_id]]> (external_req_ids s)) s)
  end.

(** [request_outputs] and [reqs_to_abort] *)
Abbreviation Results := (list Output * list string)%type.

(** What happens to the state of a request that has finished *)
Definition free_completed (id : string) (engine_finished : bool) (acc : Results) : Proc Results :=
  s ← get;
  st ← of_option KeyError (request_states s !! id);
  if streaming_input st then
    match input_chunk_queue st with
    | Some (u :: rest) =>
        on_state id (modify (λ r, (apply_streaming_update u (set_chunks (Some rest) r.1), r.2)))
    | _ => on_state id (modify (λ r, (set_chunks None r.1, r.2)))
    end ;;
    mret acc
  else
    _finish_request st ;;
    mret (acc.1, if engine_finished then acc.2 else acc.2 ++ [id]).

Definition is_stop (finish_reason : option FinishReason) : bool :=
  match finish_reason with Some STOP => true | _ => false end.

(** One round of the loop of [process_outputs] *)
Definition process_output (acc : Results) (engine_core_output : EngineCoreOutput) : Proc Results :=
  let id := eo_request_id engine_core_output in
  let new_token_ids := eo_new_token_ids engine_core_output in
  let finish_reason := eo_finish_reason engine_core_output in
  let stop_reason := EngineReason <$> eo_stop_reason engine_core_output in
  s ← get;
  match request_states s !! id with
  | None => mret acc
  | Some st =>
      stop_string ←
        (match eo_pooling_output engine_core_output return Proc (option text) with
         | Some _ => mret None
         | None =>
             py_assert (bool_decide (is_Some (detokenizer st))) ;;
             on_state id (on_detok (ts_update new_token_ids (is_stop finish_reason)))
         end);
      let found := match stop_string with Some (_ :: _) => true | _ => false end in
      let '(finish_reason, stop_reason) :=
        if found then (Some STOP, StopText <$> stop_string) else (finish_reason, stop_reason) in
      o ← on_state id (make_request_output new_token_ids (eo_pooling_output engine_core_output) finish_reason stop_reason);
      acc ←
        (match o with
         | None => mret acc
         | Some o =>
             let o := if streaming_input st then set_finished false o else o in
             match queue st with
             | Some q => on_queue q (collector_put (Ready o)) ;; mret acc
             | None => mret (acc.1 ++ [o], acc.2)
             end
         end);
      if bool_decide (is_Some finish_reason)
      then free_completed id (bool_decide (is_Some (eo_finish_reason engine_core_output))) acc
      else mret acc
  end.

Definition process_outputs (engine_core_outputs : list EngineCoreOutput) : Proc Results :=
  foldM process_output engine_core_outputs ([], []).

(** *** The caller's side

    [LLMEngine.add_request] and [AsyncLLM.add_request] once the request is checked: [n]
    children for [n] > 1, which share the collector. *)
Definition new_queue (q : Z) (kind : RequestOutputKind) : Proc unit :=
  modify (λ s, set_queues (<[q := RequestOutputCollector_init kind]> (queues s)) s).

Definition child_request (request : EngineCoreRequest) (id : string) (sp : SamplingParams) : EngineCoreRequest :=
  mkCoreRequest id (er_external_req_id request) (er_prompt_token_ids request) (er_prompt_embeds request)
    (Sampling sp) (er_resumable request).

(** A method of a [ParentRequest] on the heap *)
Definition on_parent_object {A} (p : string) (m : M ParentRequest A) : Proc A := λ s,
  match parents s !! p with
  | None => (Raise AttributeError, s)
  | Some pr => let '(r, pr) := m pr in (r, set_parents (<[p := pr]> (parents s)) s)
  end.

(** One round of the loop over the children *)
Definition add_child (request : EngineCoreRequest) (queue : option Z) (idx : Z) : Proc unit :=
  let p := er_request_id request in
  info ← on_parent_object p (get_child_info idx);
  add_request (child_request request info.1 info.2) (Some p) idx queue.

Definition engine_add_request (request : EngineCoreRequest) (queue : option Z) : Proc unit :=
  match er_params request with
  | Sampling sp =>
      if sp_n sp =? 1 then add_request request None 0 queue
      else
        pr ← of_outcome (ParentRequest_init request sp);
        modify (λ s, set_parents (<[er_request_id request := pr]> (parents s)) s) ;;
        foreach (EncoderCache.py_range (sp_n sp)) (add_child request queue)
  | Pooling _ => add_request request None 0 queue
  end.

Definition params_kind (p : Params) : RequestOutputKind :=
  match p with Sampling sp => sp_output_kind sp | Pooling kind => kind end.

(** [AsyncLLM] makes a collector for the request first, [LLMEngine] has none. *)
Definition add_new (request : EngineCoreRequest) (queue : option Z) : Proc unit :=
  match queue with
  | Some q => new_queue q (params_kind (er_params request))
  | None => mret tt
  end ;;
  engine_add_request request queue.
End processor.

(** The detokenizer of a request: the tokenizer of the processor, unless the request wants
    no text. *)
Definition processor_detokenizer {S} (api : Fast.fast_stream S) (tokenizer : option TokenizerLike) (detokenize : bool)
    (params : DetokParams) (prompt_token_ids : option (list Z)) (prompt_embeds : option Tensor)
    : outcome (IncrementalDetokenizer S) :=
  from_new_request api (if detokenize then tokenizer else None) params prompt_token_ids prompt_embeds.
