(* ===== verification/OutputSpec.v ===== *)
(** * The output processor: collectors, parents and the outputs of one request

    Merged outputs hold what was put into them; a parent that is not streamed gives its
    completions once, all of them and in order; [make_request_output] hands out the next
    piece of the text and the tokens that were not sent yet. *)

From stdpp Require Import pretty.
From S2P Require Import Prelude.
From S2P Require Import Request.
From S2P Require Import BlockHash.
From S2P Require Import SingleType.
From S2P Require Import EncoderCache.
From S2P Require Import SchedUpdate.
From S2P Require Import Detok.
From S2P Require Import DetokSpec.
From S2P Require Import OutputProc.
Local Open Scope Z_scope.

(** ** What outputs hold

    [field] is the text or the tokens of a completion; [gather] collects what belongs to
    the completion [i]. *)
Definition field_of (i : Z) (field : CompletionOutput → list Z) (c : option CompletionOutput) : list Z :=
  match c with Some c => if co_index c =? i then field c else [] | None => [] end.

Definition gather_list (i : Z) (field : CompletionOutput → list Z) (l : list (option CompletionOutput)) : list Z :=
  mjoin (field_of i field <$> l).

Definition gather (i : Z) (field : CompletionOutput → list Z) (o : Output) : list Z :=
  match o with Completions o => gather_list i field (ro_outputs o) | Pooled _ _ _ _ => [] end.

Definition gather_pending (i : Z) (field : CompletionOutput → list Z) (p : Pending) : list Z :=
  match p with Ready o => gather i field o | _ => [] end.

(** Merging concatenates it. *)
Definition merges (field : CompletionOutput → list Z) : Prop :=
  ∀ c c', field (merge_completion true c c') = field c ++ field c'.

Lemma text_merges : merges co_text.
Proof. done. Qed.
Lemma tokens_merges : merges co_token_ids.
Proof. done. Qed.

Definition indices (l : list (option CompletionOutput)) : list Z := co_index <$> omap id l.

Lemma gather_list_absent i field l : i ∉ indices l → gather_list i field l = [].
Proof.
  unfold gather_list, indices. induction l as [|[c|] l IH]; csimpl; [done| |done].
  rewrite not_elem_of_cons. intros [Hne Hn]. rewrite (proj2 (Z.eqb_neq _ _)) by congruence. by apply IH.
Qed.

(** One completion added to outputs that are all there *)
Lemma add_completion_spec field next l : merges field → Forall is_Some l → NoDup (indices l) →
  ∃ l', add_completion true next l = Ret l' ∧ Forall is_Some l' ∧ NoDup (indices l') ∧
    (∀ i, i ∈ indices l' ↔ i = co_index next ∨ i ∈ indices l) ∧
    ∀ i, gather_list i field l' = gather_list i field l ++ field_of i field (Some next).
Proof.
  intros Hm. induction l as [|c l IH]; intros Hs Hnd; cbn [add_completion].
  { exists [Some next]. split; [done|]. split; [by repeat constructor|]. split; [apply NoDup_singleton|].
    split; [intros i; unfold indices; csimpl; set_solver|]. intros i. by unfold gather_list; csimpl; rewrite app_nil_r. }
  apply Forall_cons in Hs as [[c' ->] Hs]. unfold indices in Hnd. csimpl in *. apply NoDup_cons in Hnd as [Hni Hnd].
  destruct (Z.eqb_spec (co_index c') (co_index next)) as [He|Hne].
  - eexists. split; [done|]. split; [by constructor|]. split; [by constructor|]. split.
    { intros i. unfold indices. csimpl. rewrite elem_of_cons. intuition congruence. }
    intros i. unfold gather_list. csimpl. fold (gather_list i field l). rewrite <-He.
    destruct (Z.eqb_spec (co_index c') i) as [Hi|Hi]; [|by rewrite app_nil_r].
    pose proof (Hm c' next) as Hm'. simpl in Hm'. rewrite Hm', <-(assoc_L (++)), (gather_list_absent i field l) by (unfold indices; congruence). by rewrite !app_nil_r.
  - destruct (IH Hs Hnd) as (l' & -> & Hs' & Hnd' & Hin & Hg). eexists. split; [done|]. split; [by constructor|]. split.
    { unfold indices. csimpl. apply NoDup_cons. split; [|done]. fold (indices l'). rewrite Hin. intros [?|?]; [done|]. by apply Hni. }
    split.
    { intros i. unfold indices. csimpl. fold (indices l'). rewrite !elem_of_cons, Hin. tauto. }
    intros i. unfold gather_list. csimpl. fold (gather_list i field l') (gather_list i field l).
    by rewrite Hg, (assoc_L (++)).
Qed.

(** ** The collector *)

(** What waits: completions that are all there, one for each index when they are merged. *)
Definition pending_ok (c : RequestOutputCollector) : Prop :=
  match output c with
  | Nothing => True
  | Failed _ => False
  | Ready (Completions o) => Forall is_Some (ro_outputs o) ∧ (aggregate c = true → NoDup (indices (ro_outputs o)))
  | Ready (Pooled _ _ _ _) => True
  end.

Definition holds_pooled (c : RequestOutputCollector) : bool :=
  match output c with Ready (Pooled _ _ _ _) => true | _ => false end.

Lemma add_completions_ok l2 : ∀ l1, Forall is_Some l1 → Forall is_Some l2 →
  ∃ l, add_completions false l2 l1 = Ret l ∧ Forall is_Some l.
Proof.
  assert (Hone : ∀ next l, Forall is_Some l → ∃ l', add_completion false next l = Ret l' ∧ Forall is_Some l').
  { intros next l. induction 1 as [|c l [c' ->] Hs (l' & E & Hl)]; cbn [add_completion].
    - eexists. split; [done|]. by repeat constructor.
    - rewrite E. destruct (_ =? _); eexists; (split; [done|]); by constructor. }
  induction l2 as [|c l2 IH]; intros l1 H1 H2; simpl; [by exists l1|].
  apply Forall_cons in H2 as [[c' ->] H2]. destruct (Hone c' l1 H1) as (l' & -> & Hl). by apply IH.
Qed.

Lemma put_merged c o co : pending_ok c → holds_pooled c = false → aggregate c = true → ro_outputs o = [Some co] →
  wp (collector_put (Ready (Completions o))) c (λ _ c', pending_ok c' ∧ holds_pooled c' = false ∧ aggregate c' = true ∧
    ∀ i field, merges field →
      gather_pending i field (output c') = gather_pending i field (output c) ++ field_of i field (Some co)).
Proof.
  unfold pending_ok, holds_pooled, collector_put. intros Hp Hh Ha Eo. wp_step. wp_step.
  destruct (output c) as [|[o1|]|e]; try done.
  - apply wp_put. simpl. rewrite Eo. split; [split; [by repeat constructor|intros _; apply NoDup_singleton]|].
    split; [done|]. split; [done|]. intros i field _. unfold gather_list. by csimpl; rewrite app_nil_r.
  - destruct Hp as [Hs Hnd]. unfold output_add. rewrite Eo, Ha. cbn [add_completions].
    destruct (add_completion_spec co_text co (ro_outputs o1) text_merges Hs (Hnd Ha)) as (l & E & Hl & Hnd' & _).
    rewrite E. cbn [of_outcome]. wp_step. wp_step. apply wp_put. simpl. split; [done|]. split; [done|]. split; [done|].
    intros i field Hm. destruct (add_completion_spec field co (ro_outputs o1) Hm Hs (Hnd Ha)) as (l' & E' & _ & _ & _ & Hg).
    rewrite E in E'. injection E' as <-. apply Hg.
Qed.

Lemma put_replaced c o : pending_ok c → holds_pooled c = false → aggregate c = false → Forall is_Some (ro_outputs o) →
  wp (collector_put (Ready (Completions o))) c (λ _ c', pending_ok c' ∧ holds_pooled c' = false ∧ aggregate c' = false).
Proof.
  unfold pending_ok, holds_pooled, collector_put. intros Hp Hh Ha Eo. wp_step. wp_step.
  destruct (output c) as [|[o1|]|e]; try done.
  - apply wp_put. by rewrite Ha.
  - destruct Hp as [Hs _]. unfold output_add. rewrite Ha.
    destruct (add_completions_ok (ro_outputs o) (ro_outputs o1) Hs Eo) as (l & -> & Hl). cbn [of_outcome].
    wp_step. wp_step. apply wp_put. done.
Qed.

Lemma put_pooled c i data p fin : pending_ok c →
  wp (collector_put (Ready (Pooled i data p fin))) c (λ _ c', pending_ok c' ∧ aggregate c' = aggregate c).
Proof.
  unfold pending_ok, collector_put. intros Hp. wp_step. wp_step.
  destruct (output c) as [|[o1|]|e] eqn:E; try done. apply wp_ret. by rewrite E.
Qed.

(** ** Parents *)

Lemma string_app_inj_r (a b t : string) : (a +:+ t = b +:+ t → a = b)%string.
Proof.
  assert (Hlen : ∀ a b : string, String.length (a +:+ b) = (String.length a + String.length b)%nat).
  { intros a' b'. induction a' as [|x a' IH]; [done|]. simpl. by f_equal. }
  revert b. induction a as [|x a IH]; intros [|y b] H; [done| | |].
  - apply (f_equal String.length) in H. rewrite !Hlen in H. simpl in H. lia.
  - apply (f_equal String.length) in H. rewrite !Hlen in H. simpl in H. lia.
  - simpl in H. injection H as -> H. by rewrite (IH b H).
Qed.

Lemma child_id_inj p i j : child_id i p = child_id j p → i = j.
Proof. unfold child_id. intros H. apply string_app_inj_r in H. by apply (inj pretty). Qed.

(** A parent whose children up to [bound] exist.  What is aggregated belongs to its
    place, and an empty place has a child that is still to finish. *)
Record parent_ok (p : string) (bound : Z) (pr : ParentRequest) : Prop := {
  po_id : pr_request_id pr = p;
  po_agg : sp_output_kind (pr_sampling_params pr) = FINAL_ONLY →
    zlen (output_aggregator pr) = sp_n (pr_sampling_params pr) ∧
    ∀ i x, output_aggregator pr !! i = Some x →
      match x with
      | None => Z.of_nat i < bound → child_id (Z.of_nat i) p ∈ child_requests pr
      | Some co => co_index co = Z.of_nat i ∧ is_Some (co_finish_reason co)
      end;
}.

(** The completions of all the children, in order *)
Definition all_completions (n : Z) (l : list (option CompletionOutput)) : Prop :=
  zlen l = n ∧ ∀ i : nat, Z.of_nat i < n →
    ∃ co, l !! i = Some (Some co) ∧ co_index co = Z.of_nat i ∧ is_Some (co_finish_reason co).

Lemma all_completions_Some n l : all_completions n l → Forall is_Some l.
Proof.
  intros [Hl H]. apply Forall_lookup. intros i x Hx. pose proof (lookup_lt_Some _ _ _ Hx).
  destruct (H i) as (co & E & _); [unfold zlen in Hl; lia|]. rewrite E in Hx. injection Hx as <-. done.
Qed.

Definition same_parent (pr pr' : ParentRequest) : Prop :=
  pr_external_req_id pr' = pr_external_req_id pr ∧ pr_sampling_params pr' = pr_sampling_params pr.

Lemma get_outputs_spec id co p pr :
  parent_ok p (sp_n (pr_sampling_params pr)) pr → id ∈ child_requests pr →
  0 ≤ co_index co < sp_n (pr_sampling_params pr) → id = child_id (co_index co) p →
  (sp_output_kind (pr_sampling_params pr) = FINAL_ONLY → is_Some (co_finish_reason co)) →
  wp (get_outputs id co) pr (λ r pr',
    parent_ok p (sp_n (pr_sampling_params pr)) pr' ∧ same_parent pr pr' ∧
    child_requests pr' = (if completion_finished co then child_requests pr ∖ {[id]} else child_requests pr) ∧
    r.2 = bool_decide (child_requests pr' = ∅) ∧
    (sp_output_kind (pr_sampling_params pr) ≠ FINAL_ONLY → r.1 = [Some co]) ∧
    (sp_output_kind (pr_sampling_params pr) = FINAL_ONLY →
       (child_requests pr' ≠ ∅ ∧ r.1 = []) ∨
       (child_requests pr' = ∅ ∧ all_completions (sp_n (pr_sampling_params pr)) r.1))).
Proof.
  intros [Hid Hagg] Hin Hidx Ei Hfin. unfold get_outputs. wp_step. wp_step.
  set (pr1 := if completion_finished co then set_children (child_requests pr ∖ {[id]}) pr else pr).
  assert (H1 : ∀ (f : bool → M ParentRequest (list (option CompletionOutput) * bool)) Q, wp (f false) pr1 Q →
    wp ((if completion_finished co then
          if bool_decide (id ∈ child_requests pr) then modify (set_children (child_requests pr ∖ {[id]})) ;; mret false
          else mret true
        else mret false) ≫= f) pr Q).
  { intros f Q H. unfold pr1 in H. rewrite bool_decide_eq_true_2 by done. destruct (completion_finished co); repeat wp_step; done. }
  apply H1. clear H1. wp_step. wp_step.
  assert (E1 : pr_sampling_params pr1 = pr_sampling_params pr ∧ output_aggregator pr1 = output_aggregator pr ∧
    pr_request_id pr1 = p ∧ pr_external_req_id pr1 = pr_external_req_id pr ∧
    child_requests pr1 = (if completion_finished co then child_requests pr ∖ {[id]} else child_requests pr)).
  { unfold pr1. by destruct (completion_finished co). }
  destruct E1 as (Esp & Eagg & Epid & Eext & Ech). rewrite Esp, Eagg. wp_step.
  destruct (decide (sp_output_kind (pr_sampling_params pr) = FINAL_ONLY)) as [Hk|Hk].
  - rewrite bool_decide_eq_true_2 by done. cbn [negb]. destruct (Hagg Hk) as [Hlen Hat].
    assert (Hf : completion_finished co = true) by by apply bool_decide_eq_true, Hfin. rewrite Hf in Ech.
    wp_step. eapply wp_of_option.
    { unfold py_set. rewrite (proj2 (Z.ltb_ge _ _)), (proj2 (Z.leb_le _ _)), (proj2 (Z.ltb_lt _ _)) by lia. reflexivity. }
    wp_step. wp_step. wp_step. wp_step. wp_step. wp_step. cbn [child_requests set_aggregator].
    set (agg := <[_ := _]> (output_aggregator pr)).
    assert (Hat' : ∀ i x, agg !! i = Some x → match x with
        | None => Z.of_nat i < sp_n (pr_sampling_params pr) → child_id (Z.of_nat i) p ∈ child_requests pr1
        | Some co => co_index co = Z.of_nat i ∧ is_Some (co_finish_reason co) end).
    { intros i x Hx. unfold agg in Hx. destruct (decide (i = Z.to_nat (co_index co))) as [->|Hne].
      - rewrite list_lookup_insert_eq in Hx by (unfold zlen in Hlen; lia). injection Hx as <-. split; [lia|by apply Hfin].
      - rewrite list_lookup_insert_ne in Hx by done. specialize (Hat i x Hx). destruct x as [c|]; [done|].
        intros Hi. rewrite Ech. apply elem_of_difference. split; [by apply Hat|]. rewrite elem_of_singleton, Ei.
        intros H%child_id_inj. lia. }
    assert (Hal : zlen agg = sp_n (pr_sampling_params pr)) by (unfold agg, zlen; rewrite length_insert; exact Hlen).
    split; [split; [done|]; simpl; rewrite Esp; intros _; by split|]. split; [done|]. split; [by rewrite Hf|]. split; [done|].
    split; [done|]. intros _. destruct (decide (child_requests pr1 = ∅)) as [He|He].
    + right. rewrite bool_decide_eq_true_2 by done. split; [done|]. split; [done|]. intros i Hi.
      destruct (agg !! i) as [[c|]|] eqn:Ec.
      * exists c. split; [done|]. apply (Hat' i _ Ec).
      * pose proof (Hat' i _ Ec Hi) as H. rewrite He in H. by apply not_elem_of_empty in H.
      * apply lookup_ge_None in Ec. unfold zlen in Hal. lia.
    + left. by rewrite bool_decide_eq_false_2.
  - rewrite bool_decide_eq_false_2 by done. cbn [negb]. wp_step. wp_step. wp_step. wp_step.
    split; [split; [done|]; rewrite Esp; intros H; by destruct Hk|]. split; [done|]. split; [done|]. split; [done|].
    split; [done|]. intros H. by destruct Hk.
Qed.

(** ** The outputs of one request *)
Section request.
Context {D : Type} `{!TextStream D} `{!StreamLaws D}.
Implicit Types st : RequestState D.

Lemma wp_on_detok {A} (m : M D A) st ps d Q : detokenizer st = Some d →
  wp m d (λ a d', Q a (set_detokenizer (Some d') st, ps)) → wp (on_detok m) (st, ps) Q.
Proof. unfold wp, on_detok. intros E. simpl. rewrite E. by destruct (m d) as [[a|e] d']. Qed.

Lemma wp_on_parent {A} p (m : M ParentRequest A) st (ps : gmap string ParentRequest) pr Q : ps !! p = Some pr →
  wp m pr (λ a pr', Q a (st, <[p := pr']> ps)) → wp (on_parent p m) (st, ps) Q.
Proof. unfold wp, on_parent. intros E. simpl. rewrite E. by destruct (m pr) as [[a|e] pr']. Qed.

Lemma set_detokenizer_same st d : detokenizer st = Some d → set_detokenizer (Some d) st = st.
Proof. destruct st; simpl. by intros ->. Qed.

(** The tokens to send: all of them, or those not sent yet when the interval is over *)
Definition fresh_tokens (toks : list Z) st (d : D) : list Z :=
  if 1 <? stream_interval st then drop (Z.to_nat (sent_tokens_offset st)) (ts_output_token_ids d) else toks.

Definition sent_after st (d : D) : Z :=
  if 1 <? stream_interval st then ts_num_output_tokens d else sent_tokens_offset st.

Lemma stream_tokens_spec toks finished st ps d : detokenizer st = Some d → 0 ≤ sent_tokens_offset st →
  wp (stream_tokens toks finished) (st, ps) (λ r s', s'.2 = ps ∧
    match r with
    | None => finished = false ∧ s'.1 = st ∧ 1 < stream_interval st
    | Some l => if bool_decide (output_kind st = DELTA)
                then l = fresh_tokens toks st d ∧ s'.1 = set_sent (sent_after st d) st
                else s'.1 = st
    end).
Proof.
  intros Ed Hs. unfold stream_tokens, fresh_tokens, sent_after. wp_step. wp_step. cbn [fst].
  destruct (Z.ltb_spec 1 (stream_interval st)) as [Hi|Hi].
  - wp_step. apply wp_assert; [rewrite Ed; by apply bool_decide_eq_true|]. wp_step.
    eapply wp_on_detok; [exact Ed|]. wp_step. rewrite (set_detokenizer_same st d Ed).
    destruct (negb _) eqn:Ec.
    + wp_step. split; [done|]. apply negb_true_iff, orb_false_iff in Ec as [Ec _]. by apply orb_false_iff in Ec as [-> _].
    + destruct (bool_decide (output_kind st = DELTA)); [|by wp_step].
      wp_step. eapply wp_on_detok; [exact Ed|]. wp_step. rewrite (set_detokenizer_same st d Ed).
      wp_step. wp_step. wp_step. split; [done|]. split; [by apply py_from_nonneg|]. done.
  - wp_step. split; [done|]. destruct (bool_decide (output_kind st = DELTA)); [|done]. split; [done|]. by destruct st.
Qed.

(** The completion of a step, with the detokenizer it leaves *)
Definition completion_spec (toks : list Z) (fin : option FinishReason) st (d : D) (co : CompletionOutput) (d' : D) : Prop :=
  co_index co = request_index st ∧ co_finish_reason co = fin ∧
  ts_output_token_ids d' = ts_output_token_ids d ∧ ts_text d' = ts_text d ∧ ts_ok d' ∧ (fin = None → ts_live d') ∧
  if bool_decide (output_kind st = DELTA) then
    co_token_ids co = toks ∧ ts_sent d' = ts_sent d ++ co_text co ∧ (fin ≠ None → ts_sent d' = ts_text d)
  else d' = d ∧ co_token_ids co = ts_output_token_ids d ∧ (fin ≠ None → co_text co = ts_text d).

Lemma new_completion_output_spec toks fin reason st ps d : detokenizer st = Some d →
  ts_ok d → (fin = None → ts_live d) →
  wp (_new_completion_output toks fin reason) (st, ps) (λ co s', ∃ d',
    s' = (set_detokenizer (Some d') st, ps) ∧ completion_spec toks fin st d co d').
Proof.
  intros Ed Hok Hlive. unfold _new_completion_output, completion_spec. wp_step. wp_step. cbn [fst].
  wp_step. apply wp_assert; [rewrite Ed; by apply bool_decide_eq_true|]. wp_step.
  set (delta := bool_decide (output_kind st = DELTA)). eapply wp_on_detok; [exact Ed|].
  assert (Hnext : wp (ts_next_text (bool_decide (is_Some fin)) delta) d (λ piece d',
      ts_output_token_ids d' = ts_output_token_ids d ∧ ts_text d' = ts_text d ∧ ts_ok d' ∧ (fin = None → ts_live d') ∧
      if delta then ts_sent d' = ts_sent d ++ piece ∧ (fin ≠ None → ts_sent d' = ts_text d)
      else d' = d ∧ (fin ≠ None → piece = ts_text d))).
  { destruct fin as [f|]; eapply wp_mono; try by apply (ts_flush_law d delta).
    - intros piece d' (H1 & H2 & H3 & H4). destruct delta; naive_solver.
    - apply (ts_next_law d delta). by apply Hlive.
    - intros piece d' (H1 & H2 & H3 & H4). pose proof (ts_live_ok _ H3). destruct delta; naive_solver. }
  eapply wp_mono; [exact Hnext|]. intros piece d' (H1 & H2 & H3 & H4 & H5). wp_step.
  assert (Efin : (if bool_decide (is_Some fin) then fin else None) = fin) by by destruct fin.
  rewrite Efin. destruct delta.
  - wp_step. wp_step. exists d'. destruct H5 as [H5 H6]. by split_and!.
  - destruct H5 as [-> H5]. eapply (wp_on_detok _ (set_detokenizer (Some d) st)); [done|]. wp_step. wp_step. exists d.
    split; [by destruct st|]. by split_and!.
Qed.

(** What holds of a request with a detokenizer before its output is made *)
Record req_ok (ps : gmap string ParentRequest) st : Prop := {
  rq_prompt : is_Some (prompt_of st);
  rq_sent : 0 ≤ sent_tokens_offset st;
  rq_parent : ∀ p, parent_req st = Some p → ∃ pr, ps !! p = Some pr ∧
    parent_ok p (sp_n (pr_sampling_params pr)) pr ∧ sp_output_kind (pr_sampling_params pr) = output_kind st ∧
    rs_request_id st ∈ child_requests pr ∧ rs_request_id st = child_id (request_index st) p ∧
    0 ≤ request_index st < sp_n (pr_sampling_params pr);
}.

(** A child that finishes leaves its parent. *)
Definition parents_after (fin : option FinishReason) st (ps ps' : gmap string ParentRequest) : Prop :=
  match parent_req st with
  | None => ps' = ps
  | Some p => ∃ pr pr', ps !! p = Some pr ∧ ps' = <[p := pr']> ps ∧
      parent_ok p (sp_n (pr_sampling_params pr')) pr' ∧ same_parent pr pr' ∧
      child_requests pr' = (if fin is Some _ then child_requests pr ∖ {[rs_request_id st]} else child_requests pr)
  end.

(** The output for a completion: with a parent that is not streamed, all the completions
    once the last child has finished. *)
Definition output_spec st (fin : option FinishReason) (co : CompletionOutput) (ps' : gmap string ParentRequest)
    (o : option Output) : Prop :=
  match parent_req st with
  | None => ∃ ro, o = Some (Completions ro) ∧ ro_outputs ro = [Some co] ∧ ro_finished ro = bool_decide (is_Some fin)
  | Some p => ∃ pr', ps' !! p = Some pr' ∧
      if bool_decide (output_kind st = FINAL_ONLY)
      then (o = None ∧ child_requests pr' ≠ ∅) ∨
           ∃ ro, o = Some (Completions ro) ∧ child_requests pr' = ∅ ∧ ro_finished ro = true ∧
             ro_request_id ro = pr_external_req_id pr' ∧ all_completions (sp_n (pr_sampling_params pr')) (ro_outputs ro)
      else ∃ ro, o = Some (Completions ro) ∧ ro_outputs ro = [Some co] ∧
             ro_finished ro = bool_decide (child_requests pr' = ∅)
  end.

Lemma new_request_output_spec ext outputs finished st ps : is_Some (prompt_of st) → outputs ≠ [] →
  wp (_new_request_output ext outputs finished) (st, ps) (λ o s', s' = (st, ps) ∧
    ∃ ro, o = Completions ro ∧ ro_outputs ro = outputs ∧ ro_finished ro = finished ∧ ro_request_id ro = ext).
Proof.
  intros [ids Eids] Ho. unfold _new_request_output. wp_step. wp_step. wp_step. eapply wp_of_option; [exact Eids|].
  destruct outputs as [|x l]; [done|]. wp_step. eapply wp_of_option; [reflexivity|]. wp_step. split; [done|]. by eexists.
Qed.

Lemma finish_output_spec toks fin st ps d co d' : completion_spec toks fin st d co d' → req_ok ps st →
  (output_kind st = FINAL_ONLY → fin ≠ None) → ∀ sent',
  wp (match parent_req st with
      | None => o ← _new_request_output (external_req_id st) [Some co] (bool_decide (is_Some fin)); mret (Some o)
      | Some p =>
          r ← on_parent p (get_outputs (rs_request_id st) co);
          if is_nil r.1 then mret None
          else ext ← on_parent p (gets pr_external_req_id); o ← _new_request_output ext r.1 r.2; mret (Some o)
      end) (set_sent sent' (set_detokenizer (Some d') st), ps)
    (λ o s', s'.1 = set_sent sent' (set_detokenizer (Some d') st) ∧ parents_after fin st ps s'.2 ∧
       output_spec st fin co s'.2 o).
Proof.
  intros (Hidx & Hfin & _) [Hp _ Hpar] Hfo sent'. set (st' := set_sent sent' (set_detokenizer (Some d') st)).
  assert (Hp' : is_Some (prompt_of st')) by done. unfold output_spec, parents_after.
  destruct (parent_req st) as [p|].
  - destruct (Hpar p eq_refl) as (pr & Epr & Hpo & Hk & Hin & Ei & Hb). wp_step. eapply wp_on_parent; [exact Epr|].
    eapply wp_mono; [apply (get_outputs_spec _ _ p); rewrite ?Hidx; try done|].
    { rewrite Hk, Hfin. intros H. specialize (Hfo H). by destruct fin. }
    intros [outs f] pr' (Hpo' & [Hext Hsp] & Hch & Hf & Hns & Hfin_only). cbn [fst snd] in *.
    assert (Hch' : child_requests pr' = (if fin is Some _ then child_requests pr ∖ {[rs_request_id st]} else child_requests pr)).
    { rewrite Hch. unfold completion_finished. rewrite Hfin. by destruct fin. }
    assert (Hafter : ∃ pr0 pr1, ps !! p = Some pr0 ∧ <[p := pr']> ps = <[p := pr1]> ps ∧
      parent_ok p (sp_n (pr_sampling_params pr1)) pr1 ∧ same_parent pr0 pr1 ∧
      child_requests pr1 = (if fin is Some _ then child_requests pr0 ∖ {[rs_request_id st]} else child_requests pr0)).
    { exists pr, pr'. rewrite Hsp. by split_and!. }
    assert (Hcase : (outs = [] ∧ output_kind st = FINAL_ONLY ∧ child_requests pr' ≠ ∅) ∨
      (outs ≠ [] ∧ if bool_decide (output_kind st = FINAL_ONLY)
        then child_requests pr' = ∅ ∧ all_completions (sp_n (pr_sampling_params pr')) outs else outs = [Some co])).
    { rewrite <-Hk, Hsp. destruct (decide (sp_output_kind (pr_sampling_params pr) = FINAL_ONLY)) as [E|E].
      - rewrite bool_decide_eq_true_2 by done. destruct (Hfin_only E) as [[H1 ->]|[H1 H2]]; [by left|right].
        split; [|done]. intros ->. destruct H2 as [H2 _]. unfold zlen in H2. simpl in H2. lia.
      - rewrite bool_decide_eq_false_2 by done. rewrite (Hns E). by right. }
    destruct Hcase as [(-> & Ek & Hne)|[Hne Hout]].
    + cbn [is_nil]. wp_step. split; [done|]. split; [done|]. exists pr'. split; [apply lookup_insert_eq|].
      rewrite bool_decide_eq_true_2 by done. by left.
    + destruct outs as [|x outs]; [done|]. cbn [is_nil]. wp_step. eapply wp_on_parent; [apply lookup_insert_eq|]. wp_step.
      rewrite insert_insert_eq. wp_step. eapply wp_mono; [by apply new_request_output_spec|].
      intros o s' [-> (ro & -> & Eo & Ef & Ee)]. wp_step. split; [done|]. split; [done|]. exists pr'.
      split; [apply lookup_insert_eq|]. destruct (bool_decide (output_kind st = FINAL_ONLY)).
      * right. exists ro. destruct Hout as [He Hall]. split; [done|]. split; [done|].
        split; [rewrite Ef, Hf; by apply bool_decide_eq_true|]. split; [done|]. by rewrite Eo.
      * exists ro. split; [done|]. rewrite Eo, Ef, Hf. done.
  - wp_step. eapply wp_mono; [by apply new_request_output_spec|]. intros o s' [-> (ro & -> & Eo & Ef & _)]. wp_step.
    split; [done|]. split; [done|]. by exists ro.
Qed.

(** [make_request_output] of a generation request: nothing now, or the next completion *)
Lemma make_request_output_spec toks fin reason st ps d : detokenizer st = Some d → ts_ok d →
  (fin = None → ts_live d) → req_ok ps st →
  wp (make_request_output toks None fin reason) (st, ps) (λ o s', ∃ d' sent',
    s'.1 = set_sent sent' (set_detokenizer (Some d') st) ∧ parents_after fin st ps s'.2 ∧
    ((o = None ∧ fin = None ∧ d' = d ∧ sent' = sent_tokens_offset st ∧
        (output_kind st = FINAL_ONLY ∨ 1 < stream_interval st)) ∨
     ∃ l co, completion_spec l fin st d co d' ∧ output_spec st fin co s'.2 o ∧
       if bool_decide (output_kind st = DELTA) then l = fresh_tokens toks st d ∧ sent' = sent_after st d
       else sent' = sent_tokens_offset st)).
Proof.
  intros Ed Hok Hlive Hreq. pose proof Hreq as [_ Hsent Hpar]. unfold make_request_output. wp_step. wp_step. cbn [fst].
  assert (Est : set_sent (sent_tokens_offset st) (set_detokenizer (Some d) st) = st) by (rewrite set_detokenizer_same by done; by destruct st).
  assert (Hnone : fin = None → ∃ d' sent', st = set_sent sent' (set_detokenizer (Some d') st) ∧ parents_after fin st ps ps ∧
    d' = d ∧ sent' = sent_tokens_offset st).
  { intros ->. exists d, (sent_tokens_offset st). split; [by rewrite Est|]. split; [|done]. unfold parents_after.
    destruct (parent_req st) as [p|]; [|done]. destruct (Hpar p eq_refl) as (pr & Epr & Hpo & _). exists pr, pr.
    by rewrite insert_id by done. }
  destruct (negb _ && _) eqn:Ec.
  { wp_step. apply andb_true_iff in Ec as [Ec Ek]. apply negb_true_iff, bool_decide_eq_false in Ec.
    apply bool_decide_eq_true in Ek. assert (fin = None) as Efin by (destruct fin; [by destruct Ec|done]).
    destruct (Hnone Efin) as (d' & sent' & H1 & H2 & H3 & H4). exists d', sent'. split; [done|]. split; [done|]. left. by split_and!; [| | | |left]. }
  assert (Hfo : output_kind st = FINAL_ONLY → fin ≠ None).
  { intros Hk ->. rewrite Hk in Ec. done. }
  wp_step. eapply wp_mono; [by apply (stream_tokens_spec toks _ st ps d)|]. intros r [st1 ps1] [E1 Hr]. simpl in E1. subst ps1.
  destruct r as [l|].
  - cbn iota. set (sent' := if bool_decide (output_kind st = DELTA) then sent_after st d else sent_tokens_offset st).
    assert (Est1 : st1 = set_sent sent' st).
    { unfold sent'. destruct (bool_decide (output_kind st = DELTA)); [by destruct Hr|]. simpl in Hr. subst st1. by destruct st. }
    subst st1. wp_step. eapply wp_mono.
    { apply (new_completion_output_spec l fin reason (set_sent sent' st) ps d); [done|done|done]. }
    intros co s' (d' & -> & Hco). change (completion_spec l fin st d co d') in Hco.
    change (set_detokenizer (Some d') (set_sent sent' st)) with (set_sent sent' (set_detokenizer (Some d') st)).
    eapply wp_mono; [by eapply finish_output_spec|]. intros o s' (H1 & H2 & H3). exists d', sent'. split; [done|]. split; [done|].
    right. exists l, co. split; [done|]. split; [done|]. unfold sent'. destruct (bool_decide (output_kind st = DELTA)); [|done].
    by destruct Hr.
  - destruct Hr as (Efin & Est1 & Hi). simpl in Est1. subst st1. wp_step.
    assert (fin = None) as Hf by (destruct fin; [by rewrite bool_decide_eq_true_2 in Efin|done]).
    destruct (Hnone Hf) as (d' & sent' & H1 & H2 & H3 & H4). exists d', sent'. split; [done|]. split; [done|].
    left. by split_and!; [| | | |right].
Qed.

(** [make_request_output] of a pooling request *)
Lemma make_pooling_output_spec toks data fin reason st ps : stream_interval st ≤ 1 → is_Some (prompt_of st) →
  wp (make_request_output toks (Some data) fin reason) (st, ps) (λ o s', s' = (st, ps) ∧
    (o = None ∨ ∃ i ids f, o = Some (Pooled i data ids f))).
Proof.
  intros Hi [ids Eids]. unfold make_request_output. wp_step. wp_step. cbn [fst]. destruct (negb _ && _).
  { wp_step. split; [done|]. by left. }
  wp_step. unfold stream_tokens. wp_step. wp_step. cbn [fst]. rewrite (proj2 (Z.ltb_ge _ _)) by lia. wp_step. wp_step.
  unfold _new_pooling_request_output. wp_step. wp_step. wp_step. eapply wp_of_option; [exact Eids|]. wp_step. wp_step.
  split; [done|]. right. by do 3 eexists.
Qed.
End request.

(** * The output processor: its tables, and what the clients get

    The invariant of [OutputProcessor] under requests that are added, served, aborted
    and whose outputs are fetched.  [history] holds what has been fetched from each
    collector: with what still waits it is, for a request that is streamed, the text
    handed out so far and the tokens sent so far. *)

Abbreviation History := (gmap Z (list Output)).

(** What the client of completion [i] has been given, fetched or not *)
Definition delivered (h : History) (q : Z) (c : RequestOutputCollector) (i : Z)
    (field : CompletionOutput → list Z) : list Z :=
  mjoin (gather i field <$> default [] (h !! q)) ++ gather_pending i field (output c).

Section inv.
Context {D : Type} `{!TextStream D} `{!StreamLaws D}.
Abbreviation State := (RequestState D).
Abbreviation Processor := (OutputProcessor (D := D)).
Implicit Types st : State.
Implicit Types s : Processor.
Implicit Types ps : gmap string ParentRequest.
Implicit Types qs : gmap Z RequestOutputCollector.

(** The tokens sent of those sampled *)
Definition num_sent st (d : D) : Z :=
  if 1 <? stream_interval st then sent_tokens_offset st else zlen (ts_output_token_ids d).

(** The text and the tokens of a streamed request *)
Definition streamed (h : History) (q : Z) (c : RequestOutputCollector) st (txt toks : list Z) : Prop :=
  delivered h q c (request_index st) co_text = txt ∧ delivered h q c (request_index st) co_token_ids = toks.

Record entry_ok ps qs (h : History) (id : string) st : Prop := {
  en_id : rs_request_id st = id;
  en_plain : streaming_input st = false;
  en_req : req_ok ps st;
  en_pooling : detokenizer st = None → stream_interval st ≤ 1 ∧ parent_req st = None;
  en_live : ∀ d, detokenizer st = Some d → ts_live d ∧ sent_tokens_offset st ≤ zlen (ts_output_token_ids d);
  en_queue : ∀ q, queue st = Some q → ∃ c, qs !! q = Some c ∧ aggregate c = bool_decide (output_kind st = DELTA) ∧
    ∀ d, detokenizer st = Some d → holds_pooled c = false ∧
      (output_kind st = DELTA →
       streamed h q c st (ts_sent d) (take (Z.to_nat (num_sent st d)) (ts_output_token_ids d)));
}.

(** The invariant; the ids in [leaving] have lost their external id already. *)
Record inv (leaving : gset string) s (h : History) : Prop := {
  iv_entries : ∀ id st, request_states s !! id = Some st → entry_ok (parents s) (queues s) h id st;
  iv_known : ∀ id st, request_states s !! id = Some st → id ∉ leaving →
    ∃ l, external_req_ids s !! external_req_id st = Some l ∧ id ∈ l;
  iv_external : ∀ ext l, external_req_ids s !! ext = Some l → l ≠ [] ∧ NoDup l ∧
    ∀ id, id ∈ l → (id ∉ leaving) ∧ ∃ st, request_states s !! id = Some st ∧ external_req_id st = ext;
  iv_queues : ∀ q c, queues s !! q = Some c → pending_ok c;
  iv_history : ∀ q, is_Some (h !! q) → is_Some (queues s !! q);
  iv_unique : ∀ id1 id2 st1 st2 q, request_states s !! id1 = Some st1 → request_states s !! id2 = Some st2 → id1 ≠ id2 →
    queue st1 = Some q → queue st2 = Some q → request_index st1 ≠ request_index st2 ∧ is_Some (detokenizer st1);
  iv_registered : ∀ p, p ∈ parent_requests s → is_Some (parents s !! p);
  iv_children : ∀ p pr c, parents s !! p = Some pr → c ∈ child_requests pr →
    (∃ i, c = child_id i p) ∧ parents s !! c = None;
}.

(** ** A request is served

    What an output changes outside the state of its request: its parent and its
    collector. *)
Definition queue_after st qs qs' : Prop :=
  match queue st with
  | None => qs' = qs
  | Some q => ∃ c c', qs !! q = Some c ∧ qs' = <[q := c']> qs ∧ pending_ok c' ∧ aggregate c' = aggregate c ∧
      (is_Some (detokenizer st) → holds_pooled c' = false ∧
        ∀ i field, merges field → i ≠ request_index st → aggregate c = true →
          gather_pending i field (output c') = gather_pending i field (output c))
  end.

Definition served (fin : option FinishReason) st ps qs ps' qs' : Prop :=
  parents_after fin st ps ps' ∧ queue_after st qs qs'.

Lemma req_ok_other fin st st2 ps ps' : rs_request_id st2 ≠ rs_request_id st → parents_after fin st ps ps' →
  req_ok ps st2 → req_ok ps' st2.
Proof.
  intros Hne Ha [H1 H2 H3]. split; [done|done|]. intros p2 Ep2. destruct (H3 p2 Ep2) as (pr2 & Epr2 & Hpo & Hk & Hin & Hid & Hb).
  unfold parents_after in Ha. destruct (parent_req st) as [p|]; [|by subst ps'; exists pr2].
  destruct Ha as (pr & pr' & Epr & -> & Hpo' & [Hext Hsp] & Hch). destruct (decide (p = p2)) as [->|Hp].
  - assert (pr = pr2) as -> by congruence. exists pr'. rewrite lookup_insert_eq, Hsp in *. split_and!; try done; try lia.
    rewrite Hch. destruct fin; [|done]. apply elem_of_difference. split; [done|]. by rewrite elem_of_singleton.
  - exists pr2. by rewrite lookup_insert_ne.
Qed.

Lemma entry_other fin st st2 id2 ps qs ps' qs' h : rs_request_id st2 ≠ rs_request_id st →
  (∀ q, queue st = Some q → queue st2 = Some q → request_index st2 ≠ request_index st ∧ is_Some (detokenizer st)) →
  served fin st ps qs ps' qs' → entry_ok ps qs h id2 st2 → entry_ok ps' qs' h id2 st2.
Proof.
  intros Hne Huniq [Hp Hq] [H1 H2 H3 H4 H5 H6]. split; [done|done|by eapply req_ok_other|done|done|].
  intros q2 Eq2. destruct (H6 q2 Eq2) as (c2 & Ec2 & Ha2 & Hs2). unfold queue_after in Hq.
  destruct (queue st) as [q|]; [|by subst qs'; exists c2].
  destruct Hq as (c & c' & Ec & -> & Hpo & Ha & Hrest). destruct (decide (q = q2)) as [->|Hqne].
  - assert (c = c2) as -> by congruence. exists c'. rewrite lookup_insert_eq. split; [done|]. split; [congruence|].
    intros d2 Ed2. destruct (Huniq q2 eq_refl Eq2) as [Hi Hd]. destruct (Hrest Hd) as [Hpool Hg]. split; [done|].
    intros Hk. destruct (Hs2 d2 Ed2) as [_ Hs]. specialize (Hs Hk). unfold streamed, delivered in *.
    assert (Hag : aggregate c2 = true) by (rewrite Ha2; by apply bool_decide_eq_true).
    by rewrite !Hg by done.
  - exists c2. rewrite lookup_insert_ne by done. done.
Qed.

Lemma children_after fin st ps ps' : parents_after fin st ps ps' →
  (∀ p pr c, ps !! p = Some pr → c ∈ child_requests pr → (∃ i, c = child_id i p) ∧ ps !! c = None) →
  (∀ p pr c, ps' !! p = Some pr → c ∈ child_requests pr → (∃ i, c = child_id i p) ∧ ps' !! c = None) ∧
  (∀ p, is_Some (ps !! p) ↔ is_Some (ps' !! p)).
Proof.
  unfold parents_after. intros Ha Hc. destruct (parent_req st) as [p0|]; [|by subst].
  destruct Ha as (pr0 & pr1 & E0 & -> & _ & _ & Hch). split.
  - intros p pr c. rewrite lookup_insert_Some. intros Hp Hin.
    assert (H : ∃ pr, ps !! p = Some pr ∧ c ∈ child_requests pr).
    { destruct Hp as [[<- <-]|[_ Hp]]; [|by exists pr]. exists pr0. split; [done|]. rewrite Hch in Hin.
      destruct fin; [set_solver|done]. }
    destruct H as (pr' & Hp' & Hin'). destruct (Hc p pr' c Hp' Hin') as [Hi Hn]. split; [done|].
    apply lookup_insert_None. split; [done|]. intros ->. congruence.
  - intros p. destruct (decide (p0 = p)) as [->|Hne]; [|by rewrite lookup_insert_ne].
    rewrite lookup_insert_eq, E0. by split; intros _.
Qed.

(** ** An id is unlisted, a request leaves the table *)

Lemma remove_id_spec x l : NoDup l → x ∈ l → ∃ l', remove_id x l = Some l' ∧ NoDup l' ∧ ∀ y, y ∈ l' ↔ y ∈ l ∧ y ≠ x.
Proof.
  induction 1 as [|y l Hy Hnd IH]; [by intros ?%not_elem_of_nil|]. intros Hin. simpl.
  destruct (bool_decide_reflect (x = y)) as [->|Hne].
  - exists l. split; [done|]. split; [done|]. intros z. rewrite elem_of_cons. split; [|by intros [[?|?] ?]].
    intros Hz. split; [by right|]. by intros ->.
  - apply elem_of_cons in Hin as [?|Hin]; [done|]. destruct (IH Hin) as (l' & -> & Hnd' & Hl'). exists (y :: l').
    split; [done|]. split; [apply NoDup_cons; split; [|done]; rewrite Hl'; by intros [? _]|]. intros z. rewrite !elem_of_cons, Hl'.
    split; [|tauto]. intros [->|[? ?]]; [by split; [left|]|by split; [right|]].
Qed.

Definition unlist (ext id : string) s : Processor :=
  let l := default [] (remove_id id (default [] (external_req_ids s !! ext))) in
  set_external (if is_nil l then delete ext (external_req_ids s) else <[ext := l]> (external_req_ids s)) s.

Lemma remove_external_spec ext id l s : external_req_ids s !! ext = Some l → NoDup l → id ∈ l →
  wp (remove_external ext id) s (λ _ s', s' = unlist ext id s).
Proof.
  intros El Hnd Hin. unfold remove_external, unlist. destruct (remove_id_spec id l Hnd Hin) as (l' & E & _).
  wp_step. wp_step. rewrite El. wp_step. wp_step. wp_step. rewrite El. simpl. rewrite E.
  eapply wp_of_option; [done|]. by wp_step.
Qed.

Lemma inv_unlist R s h id st : inv R s h → request_states s !! id = Some st → id ∉ R →
  inv ({[id]} ∪ R) (unlist (external_req_id st) id s) h ∧
  ∃ l, external_req_ids s !! external_req_id st = Some l ∧ NoDup l ∧ id ∈ l.
Proof.
  intros [I1 I2 I3 I4 I5 I6 I7 I8] Est Hid. destruct (I2 id st Est Hid) as (l & El & Hin).
  destruct (I3 _ _ El) as (Hne & Hnd & Hall). split; [|by exists l].
  destruct (remove_id_spec id l Hnd Hin) as (l' & E & Hnd' & Hl').
  unfold unlist. rewrite El. simpl. rewrite E. simpl.
  assert (Hlook : ∀ ext l0, (if is_nil l' then delete (external_req_id st) (external_req_ids s)
      else <[external_req_id st := l']> (external_req_ids s)) !! ext = Some l0 ↔
      (ext = external_req_id st ∧ l0 = l' ∧ l' ≠ []) ∨ (ext ≠ external_req_id st ∧ external_req_ids s !! ext = Some l0)).
  { intros ext l0. destruct l' as [|x l']; cbn [is_nil].
    - rewrite lookup_delete_Some. naive_solver.
    - rewrite lookup_insert_Some. naive_solver. }
  split; try done.
  - intros id2 st2 Est2 Hid2. simpl. apply not_elem_of_union in Hid2 as [Hid2 HR]. rewrite elem_of_singleton in Hid2.
    destruct (I2 id2 st2 Est2 HR) as (l2 & El2 & Hin2). destruct (decide (external_req_id st2 = external_req_id st)) as [Ee|Ee].
    + rewrite Ee in *. assert (l2 = l) as -> by congruence. exists l'. assert (id2 ∈ l') by by apply Hl'.
      split; [|done]. apply Hlook. left. split; [done|]. split; [done|]. by intros ->; apply not_elem_of_nil in H.
    + exists l2. split; [|done]. apply Hlook. by right.
  - simpl. intros ext l0 [(-> & -> & Hn)|[He El0]]%Hlook.
    + split; [done|]. split; [done|]. intros id2 [Hin2 Hne2]%Hl'. destruct (Hall id2 Hin2) as [HR Hst]. split; [set_solver|done].
    + destruct (I3 ext l0 El0) as (Hn0 & Hnd0 & Hall0). split; [done|]. split; [done|]. intros id2 Hin2.
      destruct (Hall0 id2 Hin2) as [HR (st2 & Est2 & Eext2)]. split; [|by exists st2].
      apply not_elem_of_union. split; [|done]. rewrite elem_of_singleton. intros ->. congruence.
Qed.

(** Serving a request keeps what the invariant says of the others. *)
Lemma others_ok R s h id st fin ps' qs' id2 st2 : inv R s h → request_states s !! id = Some st →
  served fin st (parents s) (queues s) ps' qs' → request_states s !! id2 = Some st2 → id2 ≠ id → entry_ok ps' qs' h id2 st2.
Proof.
  intros I Est Hs Est2 Hne. pose proof (iv_entries _ _ _ I id st Est) as He. pose proof (iv_entries _ _ _ I id2 st2 Est2) as He2.
  eapply entry_other; [..|exact Hs|exact He2].
  - rewrite (en_id _ _ _ _ _ He), (en_id _ _ _ _ _ He2). done.
  - intros q Eq Eq2. destruct (iv_unique _ _ _ I id id2 st st2 q Est Est2 ltac:(congruence) Eq Eq2). by split; [congruence|].
Qed.

Lemma queues_after st qs qs' : queue_after st qs qs' → (∀ q c, qs !! q = Some c → pending_ok c) →
  (∀ q c, qs' !! q = Some c → pending_ok c) ∧ ∀ q, is_Some (qs !! q) → is_Some (qs' !! q).
Proof.
  unfold queue_after. intros Hq Hp. destruct (queue st) as [q0|]; [|by subst].
  destruct Hq as (c & c' & Ec & -> & Hpo & _). split.
  - intros q c2 [[_ <-]|[_ H]]%lookup_insert_Some; [done|by eapply Hp].
  - intros q H. destruct (decide (q0 = q)) as [->|?]; [by rewrite lookup_insert_eq|by rewrite lookup_insert_ne].
Qed.

Definition update_tables sts ps qs s : Processor := set_queues qs (set_parents ps (set_states sts s)).

Lemma inv_kept R s h id st st' fin ps' qs' : inv R s h → request_states s !! id = Some st →
  served fin st (parents s) (queues s) ps' qs' → entry_ok ps' qs' h id st' →
  external_req_id st' = external_req_id st → queue st' = queue st → request_index st' = request_index st →
  (is_Some (detokenizer st) → is_Some (detokenizer st')) →
  inv R (update_tables (<[id := st']> (request_states s)) ps' qs' s) h.
Proof.
  intros I Est Hs He Eext Eq Eidx Hd. pose proof I as [I1 I2 I3 I4 I5 I6 I7 I8]. pose proof Hs as [Hp Hq].
  destruct (children_after _ _ _ _ Hp I8) as [Hc Hdom]. destruct (queues_after _ _ _ Hq I4) as [Hpo Hqd].
  assert (Hlook : ∀ id2 st2, <[id := st']> (request_states s) !! id2 = Some st2 →
    ∃ st0, request_states s !! id2 = Some st0 ∧ external_req_id st2 = external_req_id st0 ∧ queue st2 = queue st0 ∧
      request_index st2 = request_index st0 ∧ (is_Some (detokenizer st0) → is_Some (detokenizer st2))).
  { intros id2 st2 [[<- <-]|[_ H]]%lookup_insert_Some; [by exists st|by exists st2]. }
  split; simpl; try done.
  - intros id2 st2 [[<- <-]|[Hne H]]%lookup_insert_Some; [done|]. eapply (others_ok R s h id st fin); try done; congruence.
  - intros id2 st2 (st0 & E0 & Ee & _)%Hlook HR. rewrite Ee. by eapply I2.
  - intros ext l El. destruct (I3 ext l El) as (H1 & H2 & H3). split; [done|]. split; [done|]. intros id2 Hin.
    destruct (H3 id2 Hin) as [HR (st0 & E0 & Ee)]. split; [done|]. destruct (decide (id = id2)) as [->|Hne].
    + exists st'. rewrite lookup_insert_eq. split; [done|]. congruence.
    + exists st0. by rewrite lookup_insert_ne.
  - intros q H. by apply Hqd, I5.
  - intros id1 id2 st1 st2 q (st3 & E3 & _ & Eq3 & Ei3 & Hd3)%Hlook (st4 & E4 & _ & Eq4 & Ei4 & _)%Hlook Hne H1 H2.
    rewrite Ei3, Ei4. destruct (I6 id1 id2 st3 st4 q) as [? ?]; [done|done|done|congruence|congruence|]. by split; [|apply Hd3].
  - intros p H. by apply Hdom, I7.
Qed.

Lemma inv_popped R s h id st fin ps' qs' : inv ({[id]} ∪ R) s h → request_states s !! id = Some st → id ∉ R →
  served fin st (parents s) (queues s) ps' qs' →
  inv R (update_tables (delete id (request_states s)) ps' qs' s) h.
Proof.
  intros I Est HR Hs. pose proof I as [I1 I2 I3 I4 I5 I6 I7 I8]. pose proof Hs as [Hp Hq].
  destruct (children_after _ _ _ _ Hp I8) as [Hc Hdom]. destruct (queues_after _ _ _ Hq I4) as [Hpo Hqd].
  split; simpl; try done.
  - intros id2 st2 [Hne H]%lookup_delete_Some. eapply (others_ok _ s h id st fin); try done; congruence.
  - intros id2 st2 [Hne H]%lookup_delete_Some HR2. eapply I2; [done|]. set_solver.
  - intros ext l El. destruct (I3 ext l El) as (H1 & H2 & H3). split; [done|]. split; [done|]. intros id2 Hin.
    destruct (H3 id2 Hin) as [HR2 (st0 & E0 & Ee)]. apply not_elem_of_union in HR2 as [Hne HR2].
    rewrite elem_of_singleton in Hne. split; [done|]. exists st0. by rewrite lookup_delete_ne.
  - intros q H. by apply Hqd, I5.
  - intros id1 id2 st1 st2 q [_ E1]%lookup_delete_Some [_ E2]%lookup_delete_Some. by apply I6.
  - intros p H. by apply Hdom, I7.
Qed.

(** ** The output of a request, made and put

    [d1] is the detokenizer after the step's tokens [toks]. *)
Definition updated (fin : option FinishReason) (toks : list Z) (d d1 : D) : Prop :=
  ts_output_token_ids d1 = ts_output_token_ids d ++ toks ∧ ts_sent d1 = ts_sent d ∧ ts_ok d1 ∧ (fin = None → ts_live d1).

(** The state of the request afterwards *)
Definition state_after (fin : option FinishReason) st (d1 : D) st2 (d2 : D) : Prop :=
  st2 = set_sent (sent_tokens_offset st2) (set_detokenizer (Some d2) st) ∧
  ts_output_token_ids d2 = ts_output_token_ids d1 ∧ ts_text d2 = ts_text d1 ∧ ts_ok d2 ∧ (fin = None → ts_live d2) ∧
  0 ≤ sent_tokens_offset st2 ≤ zlen (ts_output_token_ids d2).

(** Its collector afterwards: what was waiting and the new output, and when the request
    is finished the whole text and all the tokens. *)
Definition collector_after (h : History) (fin : option FinishReason) (q : Z) c st2 (d2 : D) c' : Prop :=
  pending_ok c' ∧ aggregate c' = aggregate c ∧ holds_pooled c' = false ∧
  (∀ i field, merges field → i ≠ request_index st2 → aggregate c = true →
     gather_pending i field (output c') = gather_pending i field (output c)) ∧
  (output_kind st2 = DELTA →
     streamed h q c' st2 (ts_sent d2) (take (Z.to_nat (num_sent st2 d2)) (ts_output_token_ids d2)) ∧
     (fin ≠ None → streamed h q c' st2 (ts_text d2) (ts_output_token_ids d2))).

(** The output of a streamed request goes to the collector as it is; others replace. *)
Lemma put_output fin st co ps' o c : output_spec st fin co ps' (Some o) → pending_ok c → holds_pooled c = false →
  aggregate c = bool_decide (output_kind st = DELTA) →
  wp (collector_put (Ready o)) c (λ _ c', pending_ok c' ∧ aggregate c' = aggregate c ∧ holds_pooled c' = false ∧
    (∀ i field, merges field → aggregate c = true →
       gather_pending i field (output c') = gather_pending i field (output c) ++ field_of i field (Some co))).
Proof.
  unfold output_spec. intros Ho Hp Hh Ha.
  assert (Hro : ∃ ro, o = Completions ro ∧ Forall is_Some (ro_outputs ro) ∧ (output_kind st = DELTA → ro_outputs ro = [Some co])).
  { assert (Hsome : Forall is_Some [Some co]) by by repeat constructor. destruct (parent_req st) as [p|].
    - destruct Ho as (pr' & _ & Ho). destruct (bool_decide_reflect (output_kind st = FINAL_ONLY)) as [Hk|Hk].
      + destruct Ho as [[? _]|(ro & [= ->] & _ & _ & _ & Hall)]; [done|]. exists ro. split; [done|].
        split; [by eapply all_completions_Some|]. by rewrite Hk.
      + destruct Ho as (ro & [= ->] & Eo & _). exists ro. by rewrite Eo.
    - destruct Ho as (ro & [= ->] & Eo & _). exists ro. by rewrite Eo. }
  destruct Hro as (ro & -> & Hall & Hd). destruct (aggregate c) eqn:Eagg.
  - symmetry in Ha. apply bool_decide_eq_true in Ha. eapply wp_mono; [by apply (put_merged c ro co), Hd|].
    intros _ c' (H1 & H2 & H3 & H4). split_and!; [done..|]. intros i field Hm _. by apply H4.
  - eapply wp_mono; [by apply put_replaced|]. intros _ c' (H1 & H2 & H3). by split_and!.
Qed.

(** What is streamed grows by the new completion. *)
Lemma streamed_after h fin q c c' st st2 toks d d1 d2 l co : 
  output_kind st = DELTA → updated fin toks d d1 → state_after fin st d1 st2 d2 → completion_spec l fin st d1 co d2 →
  l = fresh_tokens toks st d1 → sent_tokens_offset st2 = sent_after st d1 → 0 ≤ sent_tokens_offset st ≤ zlen (ts_output_token_ids d) →
  streamed h q c st (ts_sent d) (take (Z.to_nat (num_sent st d)) (ts_output_token_ids d)) →
  (∀ i field, merges field → gather_pending i field (output c') = gather_pending i field (output c) ++ field_of i field (Some co)) →
  streamed h q c' st2 (ts_sent d2) (take (Z.to_nat (num_sent st2 d2)) (ts_output_token_ids d2)) ∧
  (fin ≠ None → streamed h q c' st2 (ts_text d2) (ts_output_token_ids d2)).
Proof.
  intros Hk (Htok1 & Hsent1 & Hok1 & _) (Est2 & Htok2 & Htext2 & _) Hco El Esent Hs [Ht Htk] Hg.
  destruct Hco as (Hidx & _ & _ & _ & _ & _ & Hdelta). rewrite bool_decide_eq_true_2 in Hdelta by done.
  destruct Hdelta as (Eco & Hsent2 & Hfull).
  assert (Eidx : request_index st2 = request_index st ∧ stream_interval st2 = stream_interval st) by by rewrite Est2.
  destruct Eidx as [Eidx Eint].
  assert (Hfield : ∀ field, merges field →
    delivered h q c' (request_index st2) field = delivered h q c (request_index st) field ++ field co).
  { intros field Hm. unfold delivered. rewrite Hg by done. simpl. by rewrite Eidx, Hidx, Z.eqb_refl, (assoc_L (++)). }
  assert (Hall : delivered h q c' (request_index st2) co_token_ids = ts_output_token_ids d2).
  { rewrite Hfield by done. rewrite Htk, Eco, El, Htok2. unfold fresh_tokens, num_sent. rewrite Htok1.
    destruct (1 <? stream_interval st).
    - unfold zlen in Hs. rewrite <-(take_app_le (ts_output_token_ids d) toks) by lia. apply take_drop.
    - unfold zlen. by rewrite take_ge by lia. }
  assert (Htxt : delivered h q c' (request_index st2) co_text = ts_sent d2) by (rewrite Hfield by done; by rewrite Ht, Hsent2, Hsent1).
  split.
  - split; [done|]. rewrite Hall. symmetry. apply take_ge. unfold num_sent. rewrite Eint, Esent. unfold sent_after.
    rewrite (ts_num_tokens d1 Hok1), Htok2. destruct (1 <? stream_interval st); unfold zlen; lia.
  - intros Hf. split; [|done]. by rewrite Htxt, Hfull, Htext2.
Qed.

(** [make_request_output] after the detokenizer was updated, and the collector when its
    result is put *)
Lemma make_served h ps qs id st d d1 toks fin reason : entry_ok ps qs h id st → (∀ q c, qs !! q = Some c → pending_ok c) →
  detokenizer st = Some d → updated fin toks d d1 →
  wp (make_request_output toks None fin reason) (set_detokenizer (Some d1) st, ps) (λ o r, ∃ d2,
    state_after fin st d1 r.1 d2 ∧ parents_after fin st ps r.2 ∧
    ((o = None ∧ fin = None) ∨ ∃ co, output_spec st fin co r.2 o ∧ co_finish_reason co = fin ∧ co_index co = request_index st) ∧
    ∀ q c, queue st = Some q → qs !! q = Some c →
      match o with
      | None => collector_after h fin q c r.1 d2 c
      | Some o => wp (collector_put (Ready o)) c (λ _ c', collector_after h fin q c r.1 d2 c')
      end).
Proof.
  intros He Hpend Ed Hup. pose proof He as [Hid Hplain Hreq Hpool Hlive Hq]. destruct (Hlive d Ed) as [Hl Hsent].
  pose proof Hup as (Htok1 & Hsent1 & Hok1 & Hlive1). pose proof (rq_sent _ _ Hreq) as Hs0.
  eapply wp_mono; [apply (make_request_output_spec toks fin reason (set_detokenizer (Some d1) st) ps d1)|]; [done|done|done| |].
  { destruct Hreq as [R1 R2 R3]. by split. }
  intros o [st2 ps'] (d2 & sent' & Est2 & Hpar & Hcase). cbn [fst snd] in *.
  change (set_detokenizer (Some d2) (set_detokenizer (Some d1) st)) with (set_detokenizer (Some d2) st) in Est2.
  change (parents_after fin st ps ps') in Hpar.
  assert (Hcol : ∀ q c, queue st = Some q → qs !! q = Some c → pending_ok c ∧ aggregate c = bool_decide (output_kind st = DELTA) ∧
    holds_pooled c = false ∧
    (output_kind st = DELTA → streamed h q c st (ts_sent d) (take (Z.to_nat (num_sent st d)) (ts_output_token_ids d)))).
  { intros q c Eq Ec. destruct (Hq q Eq) as (c0 & Ec0 & Ha & Hrest). assert (c0 = c) as -> by congruence.
    destruct (Hrest d Ed) as [H1 H2]. split; [by eapply Hpend|done]. }
  assert (Hlen1 : sent_tokens_offset st ≤ zlen (ts_output_token_ids d1)).
  { rewrite Htok1, zlen_app. pose proof (zlen_nonneg toks). lia. }
  exists d2. destruct Hcase as [(-> & -> & -> & -> & Hint)|(l & co & Hco & Hout & Hd)].
  - assert (Hst : state_after None st d1 st2 d1) by by rewrite Est2; split_and!.
    split; [done|]. split; [done|]. split; [by left|]. intros q c Eq Ec. destruct (Hcol q c Eq Ec) as (Hp & Ha & Hh & Hst0).
    split; [done|]. split; [done|]. split; [done|]. split; [done|]. rewrite Est2. simpl. intros Hk. destruct (Hst0 Hk) as [Ht Htk].
    split; [|done]. split; [by rewrite Hsent1|]. destruct Hint as [Hint|Hint]; [simpl in Hint; congruence|]. simpl in Hint.
    unfold num_sent in *. simpl. apply Z.ltb_lt in Hint. rewrite Hint in *. unfold delivered in *. simpl. rewrite Htk, Htok1.
    unfold zlen in Hsent. by rewrite take_app_le by lia.
  - change (output_kind (set_detokenizer (Some d1) st)) with (output_kind st) in Hd.
    change (sent_tokens_offset (set_detokenizer (Some d1) st)) with (sent_tokens_offset st) in Hd.
    assert (Hst : state_after fin st d1 st2 d2).
    { destruct Hco as (_ & _ & H1 & H2 & H3 & H4 & _). rewrite Est2. split_and!; try done; simpl.
      - destruct (bool_decide (output_kind st = DELTA)); [|lia]. destruct Hd as [_ ->]. unfold sent_after. simpl.
        rewrite (ts_num_tokens d1 Hok1). destruct (1 <? _); [apply zlen_nonneg|done].
      - rewrite H1. destruct (bool_decide (output_kind st = DELTA)); [|lia]. destruct Hd as [_ ->]. unfold sent_after. simpl.
        rewrite (ts_num_tokens d1 Hok1). destruct (1 <? _); [lia|done]. }
    split; [done|]. split; [done|]. split; [right; exists co; destruct Hco as (? & ? & _); by split_and!|].
    intros q c Eq Ec. destruct (Hcol q c Eq Ec) as (Hp & Ha & Hh & Hst0). pose proof Hco as (Hidx & _).
    assert (Hi2 : request_index st2 = request_index st ∧ output_kind st2 = output_kind st) by by rewrite Est2.
    destruct Hi2 as [Hi2 Hk2]. destruct o as [o|].
    + eapply wp_mono; [eapply (put_output fin st co ps' o c); done|]. intros _ c' (H1 & H2 & H3 & H4).
      split; [done|]. split; [done|]. split; [done|]. split.
      { intros i field Hm Hne Hagg. rewrite H4 by done. simpl. rewrite Hidx. simpl.
        rewrite (proj2 (Z.eqb_neq _ _)) by congruence. apply app_nil_r. }
      rewrite Hk2. intros Hk. rewrite bool_decide_eq_true_2 in Hd by done. destruct Hd as [El Esent].
      eapply (streamed_after h fin q c c' st st2 toks d d1 d2 l co); try done.
      * by rewrite Est2.
      * by apply Hst0.
      * intros i field Hm. apply H4; [done|]. rewrite Ha. by apply bool_decide_eq_true.
    + assert (Hno : output_kind st ≠ DELTA).
      { intros Hk. unfold output_spec in Hout. simpl in Hout. destruct (parent_req st); rewrite ?Hk in Hout; simpl in Hout; naive_solver. }
      split; [done|]. split; [done|]. split; [done|]. split; [done|]. by rewrite Hk2.
Qed.
End inv.
