(* ===== verification/OutputSteps.v ===== *)
(** * The output processor: its operations keep the invariant

    Serving a request; pooling requests, fetching, aborting by external and internal ids,
    and new requests with their children. *)

From stdpp Require Import pretty.
From S2P Require Import Prelude.
From S2P Require Import Request.
From S2P Require Import BlockHash.
From S2P Require Import SingleType.
From S2P Require Import EncoderCache.
From S2P Require Import SchedUpdate.
From S2P Require Import Detok.
From S2P Require Import DetokSpec.
From S2P Require Import OutputProc.
From S2P Require Import OutputSpec.
Local Open Scope Z_scope.

Section steps.
Context {D : Type} `{!TextStream D} `{!StreamLaws D}.
Abbreviation State := (RequestState D).
Abbreviation Processor := (OutputProcessor (D := D)).
Implicit Types st : State.
Implicit Types s : Processor.

Lemma wp_on_entry {A} id (m : M (State * gmap string ParentRequest) A) s st Q : request_states s !! id = Some st →
  wp m (st, parents s) (λ a r, Q a (set_parents r.2 (set_states (<[id := r.1]> (request_states s)) s))) →
  wp (on_state id m) s Q.
Proof. unfold wp, on_state. intros ->. by destruct (m _) as [[a|e] [st' ps']]. Qed.

Lemma wpe_on_entry {A} id (m : M (State * gmap string ParentRequest) A) s st Q E : request_states s !! id = Some st →
  wpe m (st, parents s) (λ a r, Q a (set_parents r.2 (set_states (<[id := r.1]> (request_states s)) s)))
    (λ e r, E e (set_parents r.2 (set_states (<[id := r.1]> (request_states s)) s))) →
  wpe (on_state id m) s Q E.
Proof. unfold wpe, on_state. intros ->. by destruct (m _) as [[a|e] [st' ps']]. Qed.

Lemma wp_on_queue {A} q (m : M RequestOutputCollector A) s c Q : queues s !! q = Some c →
  wp m c (λ a c', Q a (set_queues (<[q := c']> (queues s)) s)) → wp (on_queue q m) s Q.
Proof. unfold wp, on_queue. intros ->. by destruct (m c) as [[a|e] c']. Qed.

Lemma wp_on_popped {A} st (m : M (State * gmap string ParentRequest) A) s Q :
  wp m (st, parents s) (λ a r, Q a (set_parents r.2 s)) → wp (on_popped st m) s Q.
Proof. unfold wp, on_popped. by destruct (m _) as [[a|e] [st' ps']]. Qed.

Lemma inv_fewer_parents R s h X : inv R s h → X ⊆ parent_requests s → inv R (set_parent_requests X s) h.
Proof. intros [I1 I2 I3 I4 I5 I6 I7 I8] HX. split; try done. intros p Hp. by apply I7, HX. Qed.

(** A request that has been served leaves. *)
Lemma finish_request_spec s h id st fin st2 ps' qs' : inv ∅ s h → request_states s !! id = Some st →
  served fin st (parents s) (queues s) ps' qs' →
  rs_request_id st2 = id → external_req_id st2 = external_req_id st → parent_req st2 = parent_req st →
  wp (_finish_request st2) (update_tables (<[id := st2]> (request_states s)) ps' qs' s) (λ _ s',
    inv ∅ s' h ∧ request_states s' = delete id (request_states s) ∧ parents s' = ps' ∧ queues s' = qs').
Proof.
  intros I Est Hs Eid Eext Epar. destruct (inv_unlist ∅ s h id st I Est) as (I1 & l & El & Hnd & Hin); [set_solver|].
  assert (I2 : inv ∅ (update_tables (delete id (request_states s)) ps' qs' (unlist (external_req_id st) id s)) h).
  { apply (inv_popped ∅ (unlist (external_req_id st) id s) h id st fin); [exact I1|done|set_solver|done]. }
  unfold _finish_request. wp_step. wp_step. wp_step. rewrite Eid. eapply wp_of_option; [apply lookup_insert_eq|].
  wp_step. wp_step. wp_step. rewrite Eext.
  eapply wp_mono; [by apply (remove_external_spec (external_req_id st) id l)|]. intros _ s1 ->.
  match goal with |- wp _ ?x _ => set (s1 := x) end.
  assert (E1 : s1 = update_tables (delete id (request_states s)) ps' qs' (unlist (external_req_id st) id s)).
  { unfold s1, unlist, update_tables, set_states, set_external, set_parents, set_queues. simpl. by rewrite delete_insert_eq. }
  rewrite E1, Epar. destruct Hs as [Hp _]. unfold parents_after in Hp. destruct (parent_req st) as [p|].
  - destruct Hp as (pr & pr' & _ & -> & _). wp_step. wp_step. wp_step. eapply wp_of_option; [apply lookup_insert_eq|].
    apply wp_when; intros _; [|done]. wp_step. split; [|done]. apply inv_fewer_parents; [done|]. simpl. set_solver.
  - by wp_step.
Qed.

Lemma wpe_on_detok {A} (m : M D A) st (ps : gmap string ParentRequest) d Q E : detokenizer st = Some d →
  wpe m d (λ a d', Q a (set_detokenizer (Some d') st, ps)) (λ e d', E e (set_detokenizer (Some d') st, ps)) →
  wpe (on_detok m) (st, ps) Q E.
Proof. unfold wpe, on_detok. intros E0. simpl. rewrite E0. by destruct (m d) as [[a|e] d']. Qed.

(** The finish reason: a stop string ends the request. *)
Definition final_reason (engine : option FinishReason) (stop_string : option text) : option FinishReason :=
  match stop_string with Some (_ :: _) => Some STOP | _ => engine end.

(** What the output of a request does to the processor: its state [st2], with the
    detokenizer [d2], its parent and its collector. *)
Record output_made (s : Processor) (h : History) (st : State) (fin : option FinishReason) (d1 : D) (o : option Output)
    (st2 : State) (d2 : D) (ps' : gmap string ParentRequest) (qs' : gmap Z RequestOutputCollector) : Prop := {
  om_state : state_after fin st d1 st2 d2;
  om_served : served fin st (parents s) (queues s) ps' qs';
  om_output : (o = None ∧ fin = None) ∨
    ∃ co, output_spec st fin co ps' o ∧ co_finish_reason co = fin ∧ co_index co = request_index st;
  om_collector : ∀ q c, queue st = Some q → queues s !! q = Some c →
    ∃ c', qs' !! q = Some c' ∧ collector_after h fin q c st2 d2 c';
}.

(** The request is still there and as the invariant wants it. *)
Lemma output_made_kept s h id st d toks d1 o st2 d2 ps' qs' : inv ∅ s h → request_states s !! id = Some st →
  detokenizer st = Some d → updated None toks d d1 → output_made s h st None d1 o st2 d2 ps' qs' →
  inv ∅ (update_tables (<[id := st2]> (request_states s)) ps' qs' s) h.
Proof.
  intros I Est Ed Hup [(Est2 & Htok & Htxt & Hok & Hlive & Hsent) Hs Ho Hc].
  pose proof (iv_entries _ _ _ I id st Est) as He. pose proof He as [E1 E2 E3 E4 E5 E6].
  assert (Ed2 : detokenizer st2 = Some d2) by by rewrite Est2.
  eapply (inv_kept ∅ s h id st st2 None); try done; [|by rewrite Est2..].
  destruct Hs as [Hp Hq]. split; [by rewrite Est2|by rewrite Est2| | | |].
  - rewrite Est2. destruct E3 as [R1 R2 R3]. split; [done|simpl; lia|]. simpl. intros p Ep. destruct (R3 p Ep) as (pr & Epr & H1 & H2 & H3 & H4 & H5).
    unfold parents_after in Hp. rewrite Ep in Hp. destruct Hp as (pr0 & pr' & Epr0 & -> & Hpo & [Hx Hsp] & Hch).
    assert (pr0 = pr) as -> by congruence. exists pr'. rewrite lookup_insert_eq, Hsp in *. split_and!; try done; try lia. by rewrite Hch.
  - rewrite Ed2. done.
  - rewrite Ed2. intros d' [= <-]. split; [by apply Hlive|lia].
  - assert (Eq2 : queue st2 = queue st ∧ output_kind st2 = output_kind st) by by rewrite Est2. destruct Eq2 as [-> Hk2].
    intros q Eq. destruct (E6 q Eq) as (c & Ec & Ha & _). destruct (Hc q c Eq Ec) as (c' & Ec' & H1 & H2 & H3 & H4 & H5).
    exists c'. split; [done|]. split; [by rewrite H2, Ha, Hk2|]. intros d' Ed'. rewrite Ed2 in Ed'. injection Ed' as <-.
    split; [done|]. intros Hk. by apply H5.
Qed.

(** The part of [process_output] after the detokenizer *)
Lemma serve_spec {B} s h id st d toks d1 fin reason (f : option Output → M Processor B) Q : inv ∅ s h →
  request_states s !! id = Some st → detokenizer st = Some d → updated fin toks d d1 →
  (∀ o st2 d2 ps', state_after fin st d1 st2 d2 → parents_after fin st (parents s) ps' →
     ((o = None ∧ fin = None) ∨
       ∃ co, output_spec st fin co ps' o ∧ co_finish_reason co = fin ∧ co_index co = request_index st) →
     (∀ q c, queue st = Some q → queues s !! q = Some c →
      match o with
      | None => collector_after h fin q c st2 d2 c
      | Some o => wp (collector_put (Ready o)) c (λ _ c', collector_after h fin q c st2 d2 c')
      end) →
     wp (f o) (update_tables (<[id := st2]> (request_states s)) ps' (queues s) s) Q) →
  wp (on_state id (make_request_output toks None fin reason) ≫= f)
    (set_states (<[id := set_detokenizer (Some d1) st]> (request_states s)) s) Q.
Proof.
  intros I Est Ed Hup Hf. wp_step. eapply wp_on_entry; [apply lookup_insert_eq|].
  eapply wp_mono; [eapply (make_served h (parents s) (queues s) id st d d1 toks fin reason); [|exact (iv_queues _ _ _ I)|done|done]|].
  { by apply (iv_entries _ _ _ I). }
  intros o [st2 ps'] (d2 & H1 & H2 & H3 & H4). simpl. rewrite insert_insert_eq. by apply (Hf o st2 d2 ps').
Qed.

(** What [process_output] does for a generation request *)
Definition processed (s : Processor) (h : History) (acc : list Output * list string) (eco : EngineCoreOutput) (st : State) (d : D)
    (acc' : list Output * list string) (s' : Processor) : Prop :=
  ∃ r d1 o st2 d2,
    let fin := final_reason (eo_finish_reason eco) r in
    ts_update (eo_new_token_ids eco) (is_stop (eo_finish_reason eco)) d = (Ret r, d1) ∧
    updated fin (eo_new_token_ids eco) d d1 ∧
    output_made s h st fin d1 o st2 d2 (parents s') (queues s') ∧
    acc'.1 = acc.1 ++ (if queue st is None then option_list o else []) ∧
    match fin with
    | None => request_states s' = <[eo_request_id eco := st2]> (request_states s) ∧ acc'.2 = acc.2
    | Some _ => request_states s' = delete (eo_request_id eco) (request_states s) ∧
        acc'.2 = (if eo_finish_reason eco is Some _ then acc.2 else acc.2 ++ [eo_request_id eco])
    end.

(** The end of the round, once the output has been put *)
Lemma free_spec s h acc eco st d toks r d1 o st2 d2 ps' qs' : inv ∅ s h →
  let id := eo_request_id eco in
  let fin := final_reason (eo_finish_reason eco) r in
  request_states s !! id = Some st → detokenizer st = Some d → updated fin toks d d1 →
  output_made s h st fin d1 o st2 d2 ps' qs' →
  wp (if bool_decide (is_Some fin)
      then free_completed id (bool_decide (is_Some (eo_finish_reason eco))) acc else mret acc)
    (update_tables (<[id := st2]> (request_states s)) ps' qs' s) (λ acc' s',
    inv ∅ s' h ∧ parents s' = ps' ∧ queues s' = qs' ∧ acc'.1 = acc.1 ∧
    match fin with
    | None => request_states s' = <[id := st2]> (request_states s) ∧ acc'.2 = acc.2
    | Some _ => request_states s' = delete id (request_states s) ∧
        acc'.2 = (if eo_finish_reason eco is Some _ then acc.2 else acc.2 ++ [id])
    end).
Proof.
  intros I id fin Est Ed Hup Hom. pose proof (iv_entries _ _ _ I id st Est) as He.
  assert (Est2 : rs_request_id st2 = id ∧ external_req_id st2 = external_req_id st ∧ parent_req st2 = parent_req st ∧
    streaming_input st2 = false).
  { destruct (om_state _ _ _ _ _ _ _ _ _ _ Hom) as [-> _]. simpl. split; [apply (en_id _ _ _ _ _ He)|].
    split; [done|]. split; [done|]. apply (en_plain _ _ _ _ _ He). }
  destruct Est2 as (Eid & Eext & Epar & Estr). destruct fin as [f|] eqn:Ef.
  - rewrite bool_decide_eq_true_2 by done. unfold free_completed. wp_step. wp_step. wp_step.
    eapply wp_of_option; [apply lookup_insert_eq|]. rewrite Estr. wp_step.
    eapply wp_mono; [eapply (finish_request_spec s h id st (Some f)); try done; apply Hom|].
    intros _ s' (H1 & H2 & H3 & H4). wp_step. split_and!; try done. simpl. by destruct (eo_finish_reason eco).
  - rewrite bool_decide_eq_false_2 by (intros [? ?]; done). wp_step. split; [|done]. by eapply output_made_kept.
Qed.

Lemma process_spec s h acc eco st d : inv ∅ s h → request_states s !! eo_request_id eco = Some st →
  detokenizer st = Some d → eo_pooling_output eco = None →
  wpe (process_output acc eco) s
    (λ acc' s', inv ∅ s' h ∧ processed s h acc eco st d acc' s')
    (λ e _, ∃ d', ts_update (eo_new_token_ids eco) (is_stop (eo_finish_reason eco)) d = (Raise e, d')).
Proof.
  intros I Est Ed Epool. pose proof (iv_entries _ _ _ I _ st Est) as He.
  destruct (en_live _ _ _ _ _ He d Ed) as [Hlive _].
  unfold process_output. cbv zeta. wpe_step. wpe_step. rewrite Est, Epool. wpe_step. wpe_step.
  apply wpe_assert; [intros _|by rewrite Ed, bool_decide_eq_true_2 by done].
  eapply wpe_on_entry; [exact Est|]. eapply wpe_on_detok; [exact Ed|].
  pose proof (ts_update_law d (eo_new_token_ids eco) (is_stop (eo_finish_reason eco)) Hlive) as Hlaw.
  unfold wpe at 1. unfold wpe in Hlaw. destruct (ts_update _ _ d) as [[r|e] d1] eqn:Eup; [|by exists d1].
  destruct Hlaw as (Htok & Hsent & Hok & Hr & Hne).
  set (fin := final_reason (eo_finish_reason eco) r).
  assert (Hup : updated fin (eo_new_token_ids eco) d d1).
  { split; [done|]. split; [done|]. split; [done|]. intros Hf. unfold fin, final_reason in Hf. destruct r as [[|]|]; try done. by apply Hr. }
  cbn [fst snd]. set (fr := if match r with Some (_ :: _) => true | _ => false end then _ else _).
  assert (Efr : fr = (fin, snd fr)) by by unfold fr, fin, final_reason; destruct r as [[|]|].
  rewrite Efr. generalize (snd fr). intros reason. clearbody fr. clear fr Efr.
  apply wp_wpe. eapply (serve_spec s h _ st d); [done|done|done|exact Hup|]. intros o st2 d2 ps' Hst Hpar Ho Hcol.
  assert (Ei : request_index st2 = request_index st) by by destruct Hst as [-> _].
  rewrite (en_plain _ _ _ _ _ He).
  assert (Hend : ∀ qs' acc1, output_made s h st fin d1 o st2 d2 ps' qs' →
    acc1.1 = acc.1 ++ (if queue st is None then option_list o else []) → acc1.2 = acc.2 →
    wp (if bool_decide (is_Some fin) then free_completed (eo_request_id eco) (bool_decide (is_Some (eo_finish_reason eco))) acc1
        else mret acc1) (update_tables (<[eo_request_id eco := st2]> (request_states s)) ps' qs' s)
      (λ acc' s', inv ∅ s' h ∧ processed s h acc eco st d acc' s')).
  { intros qs' acc1 Hom E1 E2. eapply wp_mono; [by eapply (free_spec s h acc1 eco st d _ r d1 o)|].
    intros acc' s' (H1 & H2 & H3 & H4 & H5). split; [done|]. exists r, d1, o, st2, d2. cbv zeta. fold fin.
    split; [done|]. split; [done|]. split; [by rewrite H2, H3|]. split; [by rewrite H4|]. rewrite <-E2. exact H5. }
  destruct (queue st) as [q|] eqn:Eq.
  - destruct (en_queue _ _ _ _ _ He q Eq) as (c & Ec & _). specialize (Hcol q c eq_refl Ec). wp_step. destruct o as [o|].
    + wp_step. eapply wp_on_queue; [exact Ec|]. eapply wp_mono; [exact Hcol|]. intros u c' Hc'. wp_step.
      apply (Hend (<[q := c']> (queues s)) acc); [|by rewrite app_nil_r|done]. split; [done| |done|].
      * split; [done|]. unfold queue_after. rewrite Eq. exists c, c'. destruct Hc' as (H1 & H2 & H3 & H4 & _).
        split_and!; try done. intros _. rewrite <-Ei. done.
      * intros q' c0 Eq' Ec0. rewrite Eq in Eq'. injection Eq' as <-. exists c'. rewrite lookup_insert_eq. split; [done|].
        rewrite Ec in Ec0. by injection Ec0 as <-.
    + wp_step. apply (Hend (queues s) acc); [|by rewrite app_nil_r|done]. split; [done| |done|].
      * split; [done|]. unfold queue_after. rewrite Eq. exists c, c. destruct Hcol as (H1 & H2 & H3 & H4 & _).
        rewrite insert_id by done. by split_and!.
      * intros q' c0 Eq' Ec0. rewrite Eq in Eq'. injection Eq' as <-. exists c. split; [done|].
        rewrite Ec in Ec0. by injection Ec0 as <-.
  - wp_step. assert (Hom : output_made s h st fin d1 o st2 d2 ps' (queues s)).
    { split; [done| |done|by intros q c; rewrite Eq]. split; [done|]. unfold queue_after. by rewrite Eq. }
    destruct o as [o|]; wp_step; (eapply Hend; [exact Hom| |done]); [done|]. simpl. by rewrite app_nil_r.
Qed.
End steps.

(** * The output processor: pooling, fetched outputs, aborted and new requests *)

Section life.
Context {D : Type} `{!TextStream D} `{!StreamLaws D}.
Abbreviation State := (RequestState D).
Abbreviation Processor := (OutputProcessor (D := D)).
Implicit Types st : State.
Implicit Types s : Processor.

(** ** Pooling requests *)

Lemma pooled_served R s h id st fin qs' : inv R s h → request_states s !! id = Some st → detokenizer st = None →
  queue_after st (queues s) qs' → served fin st (parents s) (queues s) (parents s) qs' ∧ entry_ok (parents s) qs' h id st.
Proof.
  intros I Est Ed Hq. pose proof (iv_entries _ _ _ I id st Est) as He. pose proof He as [E1 E2 E3 E4 E5 E6].
  destruct (E4 Ed) as [_ Ep]. split.
  - split; [|done]. unfold parents_after. by rewrite Ep.
  - split; try done. intros q Eq. unfold queue_after in Hq. rewrite Eq in Hq. destruct Hq as (c & c' & Ec & -> & _ & Ha & _).
    destruct (E6 q Eq) as (c0 & Ec0 & Ha0 & _). rewrite Ec in Ec0. injection Ec0 as <-. exists c'. rewrite lookup_insert_eq.
    split; [done|]. split; [by rewrite Ha|]. by rewrite Ed.
Qed.

Lemma put_pooled_after R s h id st o i data ids f : inv R s h → request_states s !! id = Some st → detokenizer st = None →
  o = Pooled i data ids f → ∀ q, queue st = Some q → ∃ c, queues s !! q = Some c ∧
  wp (collector_put (Ready o)) c (λ _ c', queue_after st (queues s) (<[q := c']> (queues s))).
Proof.
  intros I Est Ed -> q Eq. destruct (en_queue _ _ _ _ _ (iv_entries _ _ _ I id st Est) q Eq) as (c & Ec & _).
  exists c. split; [done|]. eapply wp_mono; [apply put_pooled, (iv_queues _ _ _ I q c Ec)|]. intros u c' [H1 H2].
  unfold queue_after. rewrite Eq. exists c, c'. split_and!; try done. rewrite Ed. by intros [? ?].
Qed.

Lemma process_pooled_spec s h acc eco st data : inv ∅ s h → request_states s !! eo_request_id eco = Some st →
  detokenizer st = None → eo_pooling_output eco = Some data →
  wp (process_output acc eco) s (λ _ s', inv ∅ s' h).
Proof.
  intros I Est Ed Epool. pose proof (iv_entries _ _ _ I _ st Est) as He. pose proof He as [E1 E2 E3 E4 E5 E6].
  destruct (E4 Ed) as [Hint Epar]. unfold process_output. cbv zeta. wp_step. wp_step. rewrite Est, Epool. wp_step. wp_step.
  wp_step. eapply wp_on_entry; [exact Est|].
  eapply wp_mono; [apply make_pooling_output_spec; [done|apply E3]|]. intros o r [-> Ho]. cbn [fst snd].
  rewrite insert_id by done. fold (update_tables (request_states s) (parents s) (queues s) s). rewrite E2.
  assert (Hend : ∀ acc1 qs', queue_after st (queues s) qs' →
    wp (if bool_decide (is_Some (eo_finish_reason eco))
        then free_completed (eo_request_id eco) (bool_decide (is_Some (eo_finish_reason eco))) acc1 else mret acc1)
      (update_tables (<[eo_request_id eco := st]> (request_states s)) (parents s) qs' s) (λ _ s', inv ∅ s' h)).
  { intros acc1 qs' Hq. destruct (eo_finish_reason eco) as [f|].
    - destruct (pooled_served _ _ _ _ _ (Some f) qs' I Est Ed Hq) as [Hs _]. rewrite bool_decide_eq_true_2 by done.
      unfold free_completed. wp_step. wp_step. wp_step. eapply wp_of_option; [apply lookup_insert_eq|]. rewrite E2. wp_step.
      eapply wp_mono; [eapply (finish_request_spec s h _ st (Some f)); done|]. intros u s' (H & _). by wp_step.
    - destruct (pooled_served _ _ _ _ _ None qs' I Est Ed Hq) as [Hs Hok]. rewrite bool_decide_eq_false_2 by (by intros [? ?]).
      wp_step. by eapply (inv_kept ∅ s h _ st st None). }
  rewrite insert_id in Hend by done.
  assert (Hsame : (∀ q c, queue st = Some q → queues s !! q = Some c → True) → queue_after st (queues s) (queues s)).
  { intros _. unfold queue_after. destruct (queue st) as [q|] eqn:Eq; [|done]. destruct (E6 q eq_refl) as (c & Ec & _).
    exists c, c. rewrite insert_id by done. split_and!; try done; [by eapply (iv_queues _ _ _ I)|]. rewrite Ed. by intros [? ?]. }
  wp_step. destruct Ho as [->|(i & ids & f & ->)].
  - wp_step. apply Hend. by apply Hsame.
  - destruct (queue st) as [q|] eqn:Eq; [|wp_step; apply Hend, Hsame; done].
    destruct (put_pooled_after _ _ _ _ _ _ i data ids f I Est Ed eq_refl q Eq) as (c & Ec & Hput).
    wp_step. eapply wp_on_queue; [exact Ec|]. eapply wp_mono; [exact Hput|]. intros u c' Hq. wp_step. by apply (Hend acc).
Qed.

(** ** Fetching *)

(** The history after an output has been fetched *)
Definition fetched (h : History) (q : Z) (o : option Output) : History :=
  match o with Some o => <[q := default [] (h !! q) ++ [o]]> h | None => h end.

Lemma delivered_fetched h q c o q' c' i field : output c = Ready o →
  (q' = q → c' = mkCollector (aggregate c) Nothing) →
  delivered (fetched h q (Some o)) q' c' i field = delivered h q' (if decide (q' = q) then c else c') i field.
Proof.
  intros Ec Hq. unfold delivered, fetched. destruct (decide (q' = q)) as [->|Hne].
  - rewrite (Hq eq_refl), Ec, lookup_insert_eq. simpl. rewrite fmap_app, join_app. simpl. by rewrite !app_nil_r.
  - by rewrite lookup_insert_ne.
Qed.

Lemma get_nowait_spec s h q c : inv ∅ s h → queues s !! q = Some c →
  wp (on_queue q get_nowait) s (λ o s', inv ∅ s' (fetched h q o) ∧ request_states s' = request_states s).
Proof.
  intros I Ec. pose proof I as [I1 I2 I3 I4 I5 I6 I7 I8]. eapply wp_on_queue; [exact Ec|]. unfold get_nowait.
  wp_step. wp_step. wp_step. wp_step. pose proof (I4 q c Ec) as Hp. unfold pending_ok in Hp.
  assert (Hnew : ∀ o, (match output c with Nothing => o = None | Ready x => o = Some x | Failed _ => False end) →
    inv ∅ (set_queues (<[q := mkCollector (aggregate c) Nothing]> (queues s)) s) (fetched h q o)).
  { intros o Ho. split; simpl; try done.
    - intros id st Est. pose proof (I1 id st Est) as [E1 E2 E3 E4 E5 E6]. split; try done.
      intros q' Eq'. destruct (E6 q' Eq') as (c0 & Ec0 & Ha0 & H0). destruct (decide (q' = q)) as [->|Hne].
      + assert (c0 = c) as -> by congruence. exists (mkCollector (aggregate c) Nothing). rewrite lookup_insert_eq. split; [done|].
        split; [done|]. intros d Ed. destruct (H0 d Ed) as [Hh Hs]. split; [done|]. intros Hk. specialize (Hs Hk).
        unfold streamed in *. destruct (output c) as [|x|] eqn:Eo; [|subst o|done].
        * subst o. unfold delivered in *. by rewrite Eo in Hs.
        * rewrite !(delivered_fetched h q c x) by done. by rewrite decide_True.
      + exists c0. rewrite lookup_insert_ne by done. split; [done|]. split; [done|]. intros d Ed. destruct (H0 d Ed) as [Hh Hs].
        split; [done|]. intros Hk. specialize (Hs Hk). unfold streamed in *. destruct o as [x|]; [|done].
        destruct (output c) as [|y|] eqn:Eo; try done. injection Ho as ->.
        rewrite !(delivered_fetched h q c y) by done. by rewrite !decide_False.
    - intros q' c' [[_ <-]|[_ H]]%lookup_insert_Some; [done|by eapply I4].
    - intros q' Hq'. destruct (decide (q = q')) as [->|Hne]; [by rewrite lookup_insert_eq|]. rewrite lookup_insert_ne by done.
      apply I5. destruct o as [x|]; [|done]. simpl in Hq'. by rewrite lookup_insert_ne in Hq'. }
  destruct (output c) as [|o|e]; [| |done]; wp_step; (split; [by apply Hnew|done]).
Qed.

(** ** Aborted requests *)
Section abort.
Context (set_order : list string → list string).
Hypothesis set_order_perm : ∀ l, set_order l ≡ₚ l.

(** A request that leaves without an output *)
Lemma inv_dropped R s h id : inv ({[id]} ∪ R) s h → id ∉ R → inv R (set_states (delete id (request_states s)) s) h.
Proof.
  intros [I1 I2 I3 I4 I5 I6 I7 I8] HR. split; simpl; try done.
  - intros id2 st2 [_ H]%lookup_delete_Some. by apply I1.
  - intros id2 st2 [Hne H]%lookup_delete_Some HR2. eapply I2; [done|]. set_solver.
  - intros ext l El. destruct (I3 ext l El) as (H1 & H2 & H3). split; [done|]. split; [done|]. intros id2 Hin.
    destruct (H3 id2 Hin) as [HR2 (st0 & E0 & Ee)]. apply not_elem_of_union in HR2 as [Hne HR2].
    rewrite elem_of_singleton in Hne. split; [done|]. exists st0. by rewrite lookup_delete_ne.
  - intros id1 id2 st1 st2 q [_ E1]%lookup_delete_Some [_ E2]%lookup_delete_Some. by apply I6.
Qed.

Lemma abort_live_spec k R s h id st acc : inv ({[id]} ∪ R) s h → request_states s !! id = Some st → id ∉ R →
  wp (abort_one set_order k acc id) s (λ acc' s', acc' = acc ++ [id] ∧ inv R s' h ∧
    request_states s' = delete id (request_states s) ∧ parent_requests s' = parent_requests s).
Proof.
  intros I Est HR. pose proof (iv_entries _ _ _ I id st Est) as He. pose proof He as [E1 E2 E3 E4 E5 E6].
  unfold abort_one. wp_step. wp_step. rewrite Est. wp_step. wp_step. wp_step.
  destruct (queue st) as [q|] eqn:Eq; [|wp_step; wp_step; split; [done|]; split; [by apply inv_dropped|done]].
  set (s1 := set_states (delete id (request_states s)) s).
  assert (Hpop : ∀ ps' qs', served (Some ABORT) st (parents s) (queues s) ps' qs' →
    acc ++ [id] = acc ++ [id] ∧ inv R (set_queues qs' (set_parents ps' s1)) h ∧
    request_states (set_queues qs' (set_parents ps' s1)) = delete id (request_states s) ∧
    parent_requests (set_queues qs' (set_parents ps' s1)) = parent_requests s).
  { intros ps' qs' Hs. split; [done|]. split; [by apply (inv_popped R s h id st (Some ABORT))|done]. }
  destruct (E6 q eq_refl) as (c & Ec & Ha & Hd). wp_step. apply wp_on_popped. simpl. destruct (detokenizer st) as [d|] eqn:Ed.
  - rewrite bool_decide_eq_true_2 by done. destruct (E5 d eq_refl) as [Hlive _].
    rewrite <-(set_detokenizer_same st d Ed).
    eapply wp_mono; [eapply (make_served h (parents s) (queues s) id st d d []); [done|apply (iv_queues _ _ _ I)|done|]|].
    { split; [by rewrite app_nil_r|]. split; [done|]. split; [by apply ts_live_ok|done]. }
    intros o [st2 ps'] (d2 & Hst & Hpar & _ & Hcol). cbn [fst snd] in *. specialize (Hcol q c Eq Ec).
    assert (Ei : request_index st2 = request_index st) by by destruct Hst as [-> _].
    destruct o as [o|].
    + eapply wp_on_queue; [exact Ec|]. eapply wp_mono; [exact Hcol|]. intros u c' (H1 & H2 & H3 & H4 & _). wp_step.
      apply Hpop. split; [done|]. unfold queue_after. rewrite Eq. exists c, c'. split_and!; try done. intros _. by rewrite <-Ei.
    + wp_step. wp_step. destruct Hcol as (H1 & H2 & H3 & H4 & _). apply (Hpop ps' (queues s)). split; [done|]. unfold queue_after.
      rewrite Eq. exists c, c. rewrite insert_id by done. by split_and!.
  - rewrite bool_decide_eq_false_2 by (by intros [? ?]). destruct (E4 eq_refl) as [Hint Ep].
    eapply wp_mono; [apply make_pooling_output_spec; [done|apply E3]|]. intros o r [-> Ho]. cbn [fst snd].
    assert (Hp : parents_after (Some ABORT) st (parents s) (parents s)) by (unfold parents_after; by rewrite Ep).
    destruct Ho as [->|(i & ids & f & ->)].
    + wp_step. wp_step. apply (Hpop (parents s) (queues s)). split; [done|]. unfold queue_after. rewrite Eq. exists c, c.
      rewrite insert_id by done. split_and!; try done; [by eapply (iv_queues _ _ _ I)|]. rewrite Ed. by intros [? ?].
    + destruct (put_pooled_after _ _ _ _ _ _ i EMPTY_CPU_TENSOR ids f I Est Ed eq_refl q Eq) as (c0 & Ec0 & Hput).
      eapply wp_on_queue; [exact Ec0|]. eapply wp_mono; [exact Hput|]. intros u c' Hq. wp_step. by apply (Hpop (parents s)).
Qed.

(** Ids taken out of a table *)
Lemma filter_delete_id {A} (m : gmap string A) id L :
  filter (λ '(x, _), x ∉ L) (delete id m) = filter (λ '(x, _), x ∉ id :: L) m.
Proof.
  apply map_eq. intros x. apply option_eq. intros y. rewrite !map_lookup_filter_Some, lookup_delete_Some, not_elem_of_cons. naive_solver.
Qed.

Lemma filter_absent_id {A} (m : gmap string A) id L : m !! id = None →
  filter (λ '(x, _), x ∉ L) m = filter (λ '(x, _), x ∉ id :: L) m.
Proof. intros Hn. rewrite <-filter_delete_id. by rewrite delete_id. Qed.

Lemma elem_of_leaving {A} (m : gmap string A) id (acc L : list string) x : is_Some (m !! id) →
  (x ∈ acc ++ [id] ∨ (x ∈ L ∧ is_Some (delete id m !! x))) ↔ (x ∈ acc ∨ (x ∈ id :: L ∧ is_Some (m !! x))).
Proof.
  intros Hs. rewrite elem_of_app, list_elem_of_singleton, elem_of_cons.
  destruct (decide (x = id)) as [->|Hne]; [tauto|]. rewrite lookup_delete_ne by done. tauto.
Qed.

(** The second loop: live requests leave, ids that are unknown and no parents' are
    skipped. *)
Lemma abort_loop_spec k h L : ∀ acc s, NoDup L → (∀ id, id ∈ L → is_Some (request_states s !! id) ∨ id ∉ parent_requests s) →
  inv (list_to_set L ∩ dom (request_states s)) s h →
  wp (foldM (abort_one set_order k) L acc) s (λ acc' s', inv ∅ s' h ∧
    request_states s' = filter (λ '(id, _), id ∉ L) (request_states s) ∧ parent_requests s' = parent_requests s ∧
    ∀ x, x ∈ acc' ↔ x ∈ acc ∨ (x ∈ L ∧ is_Some (request_states s !! x))).
Proof.
  induction L as [|id L IH]; intros acc s Hnd Hall I; cbn [foldM].
  { wp_step. split.
    - assert (list_to_set [] ∩ dom (request_states s) = (∅ : gset string)) as E by set_solver. by rewrite E in I.
    - split; [symmetry; apply map_filter_id; intros i x _; apply not_elem_of_nil|]. split; [done|]. intros x. set_solver. }
  apply NoDup_cons in Hnd as [Hni Hnd]. assert (Hall' : ∀ x, x ∈ L → is_Some (request_states s !! x) ∨ x ∉ parent_requests s).
  { intros x Hx. apply Hall. by right. }
  wp_step. destruct (request_states s !! id) as [st|] eqn:Est.
  - assert (Hin : id ∈ dom (request_states s)) by by apply elem_of_dom.
    assert (Hni' : id ∉ (list_to_set L : gset string)) by by rewrite elem_of_list_to_set.
    assert (E : list_to_set (id :: L) ∩ dom (request_states s) = {[id]} ∪ (list_to_set L ∩ dom (request_states s)) :> gset string).
    { simpl. clear -Hin. set_solver. }
    rewrite E in I. eapply wp_mono.
    { eapply abort_live_spec; [exact I|exact Est|]. by intros [? _]%elem_of_intersection. }
    intros acc1 s1 (-> & I1 & Es1 & Ep1). eapply wp_mono; [apply (IH (acc ++ [id]) s1 Hnd)|].
    + intros x Hx. rewrite Es1, Ep1. rewrite lookup_delete_ne by (intros ->; done). by apply Hall'.
    + rewrite Es1. assert (list_to_set L ∩ dom (delete id (request_states s)) = list_to_set L ∩ dom (request_states s) :> gset string) as ->; [|done].
      rewrite dom_delete_L. clear -Hni'. set_solver.
    + intros acc' s' (H1 & H2 & H3 & H4). split; [done|]. split; [|split; [by rewrite H3|]].
      * by rewrite H2, Es1, filter_delete_id.
      * intros x. rewrite H4, Es1. apply elem_of_leaving. by rewrite Est.
  - destruct (Hall id ltac:(by left)) as [[? ?]|Hnp]; [congruence|].
    assert (Hskip : wp (abort_one set_order k acc id) s (λ acc' s', acc' = acc ∧ s' = s)).
    { unfold abort_one. wp_step. wp_step. rewrite Est, bool_decide_eq_false_2 by done. by wp_step. }
    eapply wp_mono; [exact Hskip|]. intros acc1 s1 [-> ->].
    assert (Hid : id ∉ dom (request_states s)) by by apply not_elem_of_dom.
    assert (E : list_to_set (id :: L) ∩ dom (request_states s) = list_to_set L ∩ dom (request_states s) :> gset string).
    { simpl. clear -Hid. set_solver. }
    rewrite E in I. eapply wp_mono; [by apply (IH acc s Hnd)|]. intros acc' s' (H1 & H2 & H3 & H4). split; [done|].
    split; [|split; [done|]].
    + rewrite H2. by apply filter_absent_id.
    + intros x. rewrite H4, elem_of_cons. split; [intros [?|[? ?]]; [by left|right; by split; [right|]]|].
      intros [?|[[->|?] Hs]]; [by left| |by right]. rewrite Est in Hs. by destruct Hs.
Qed.

(** The first loop, with internal ids: those of live requests are unlisted. *)
Lemma internal_loop_spec h L : ∀ acc R s, NoDup L → (∀ id, id ∈ L → id ∉ R) → inv R s h →
  wp (foldM (internal_ids_of true) L acc) s (λ acc' s', acc' = acc ++ L ∧
    inv (R ∪ (list_to_set L ∩ dom (request_states s))) s' h ∧ request_states s' = request_states s ∧
    parent_requests s' = parent_requests s ∧ parents s' = parents s).
Proof.
  induction L as [|id L IH]; intros acc R s Hnd HR I; cbn [foldM].
  { wp_step. rewrite app_nil_r. split; [done|]. split; [|done].
    assert (R ∪ (list_to_set [] ∩ dom (request_states s)) = R) as -> by set_solver. done. }
  apply NoDup_cons in Hnd as [Hni Hnd]. wp_step. unfold internal_ids_of at 1. wp_step. wp_step.
  assert (Hid : id ∉ R) by (apply HR; by left). assert (HR' : ∀ x, x ∈ L → x ∉ R) by (intros x Hx; apply HR; by right).
  destruct (request_states s !! id) as [st|] eqn:Est.
  - assert (Hin : id ∈ dom (request_states s)) by by apply elem_of_dom.
    destruct (inv_unlist R s h id st I Est Hid) as (I1 & l & El & Hl & Hidl). wp_step.
    eapply wp_mono; [by apply (remove_external_spec _ _ l)|]. intros u s1 ->. wp_step.
    eapply wp_mono; [eapply (IH (acc ++ [id]) ({[id]} ∪ R)); [done| |exact I1]|].
    { intros x Hx. apply not_elem_of_union. split; [|by apply HR']. rewrite elem_of_singleton. by intros ->. }
    intros acc' s' (-> & I2 & E1 & E2 & E3). rewrite <-(assoc_L (++)). split; [done|]. split; [|done].
    assert (R ∪ (list_to_set (id :: L) ∩ dom (request_states s)) =
      {[id]} ∪ R ∪ (list_to_set L ∩ dom (request_states s))) as ->; [|done].
    simpl. clear -Hin. set_solver.
  - assert (Hin : id ∉ dom (request_states s)) by by apply not_elem_of_dom. wp_step. wp_step. wp_step.
    eapply wp_mono; [by apply (IH (acc ++ [id]) R)|]. intros acc' s' (-> & I2 & E1 & E2 & E3). rewrite <-(assoc_L (++)).
    split; [done|]. split; [|done].
    assert (R ∪ (list_to_set (id :: L) ∩ dom (request_states s)) = R ∪ (list_to_set L ∩ dom (request_states s))) as ->; [|done].
    simpl. clear -Hin. set_solver.
Qed.

(** The first loop, with external ids: their lists are taken out. *)
Lemma external_loop_spec h L : ∀ acc s, NoDup acc → (∀ id, id ∈ acc → is_Some (request_states s !! id)) →
  inv (list_to_set acc) s h →
  wp (foldM (internal_ids_of false) L acc) s (λ acc' s', NoDup acc' ∧ inv (list_to_set acc') s' h ∧
    request_states s' = request_states s ∧ parent_requests s' = parent_requests s ∧
    ∀ id, id ∈ acc' ↔ id ∈ acc ∨ ∃ ext l, ext ∈ L ∧ external_req_ids s !! ext = Some l ∧ id ∈ l).
Proof.
  induction L as [|ext L IH]; intros acc s Hnd Hlive I; cbn [foldM].
  { wp_step. do 4 (split; [done|]). intros id. split; [by left|]. intros [?|(ext & l & []%not_elem_of_nil & _)]. done. }
  wp_step. unfold internal_ids_of at 1. wp_step. wp_step. wp_step. wp_step. wp_step.
  set (l := default [] (external_req_ids s !! ext)). set (s1 := set_external _ s).
  assert (Hl : NoDup l ∧ ∀ id, id ∈ l → (id ∉ (list_to_set acc : gset string)) ∧ is_Some (request_states s !! id)).
  { unfold l. destruct (external_req_ids s !! ext) as [l0|] eqn:El; simpl; [|split; [constructor|by intros id ?%not_elem_of_nil]].
    destruct (iv_external _ _ _ I ext l0 El) as (_ & H2 & H3). split; [done|]. intros id Hin.
    destruct (H3 id Hin) as [H4 (st & Est & _)]. split; [done|]. by exists st. }
  destruct Hl as [Hndl Hl].
  assert (I1 : inv (list_to_set (acc ++ l)) s1 h).
  { rewrite list_to_set_app_L. destruct I as [I1 I2 I3 I4 I5 I6 I7 I8]. split; try done.
    - intros id st Est Hid. simpl in *. apply not_elem_of_union in Hid as [Hid Hidl]. destruct (I2 id st Est Hid) as (l2 & El2 & Hin).
      exists l2. split; [|done]. rewrite lookup_delete_ne; [done|]. intros Ee. apply Hidl. apply elem_of_list_to_set.
      unfold l. by rewrite Ee, El2.
    - simpl. intros ext2 l2 [Hne El2]%lookup_delete_Some. destruct (I3 ext2 l2 El2) as (H1 & H2 & H3). split; [done|]. split; [done|].
      intros id Hin. destruct (H3 id Hin) as [H4 (st & Est & Ee)]. split; [|by exists st]. apply not_elem_of_union. split; [done|].
      rewrite elem_of_list_to_set. intros Hin2. unfold l in Hin2.
      destruct (external_req_ids s !! ext) as [l0|] eqn:El; [|by apply not_elem_of_nil in Hin2].
      destruct (I3 ext l0 El) as (_ & _ & H5). destruct (H5 id Hin2) as [_ (st' & Est' & Ee')]. simpl in *. congruence. }
  eapply wp_mono; [eapply (IH (acc ++ l) s1); [| |exact I1]|].
  - apply NoDup_app. split; [done|]. split; [|done]. intros x Hx Hxl. destruct (Hl x Hxl) as [Hn _]. apply Hn. by apply elem_of_list_to_set.
  - intros id [Hin|Hin]%elem_of_app; simpl; [by apply Hlive|by apply Hl].
  - intros acc' s' (H1 & H2 & H3 & H4 & H5). do 4 (split; [done|]). intros id. rewrite H5, elem_of_app. simpl. unfold l.
    split.
    + intros [[Hin|Hin]|(ext2 & l2 & Hin2 & [Hne El2]%lookup_delete_Some & Hin)]; [by left| |].
      * right. destruct (external_req_ids s !! ext) as [l0|] eqn:El; [|by apply not_elem_of_nil in Hin]. exists ext, l0. split; [by left|done].
      * right. exists ext2, l2. split; [by right|done].
    + intros [Hin|(ext2 & l2 & Hin2 & El2 & Hin)]; [by do 2 left|]. destruct (decide (ext = ext2)) as [->|Hne].
      * left. right. by rewrite El2.
      * right. exists ext2, l2. apply elem_of_cons in Hin2 as [?|Hin2]; [congruence|]. split; [done|]. split; [|done]. by rewrite lookup_delete_ne.
Qed.

Lemma abort_requests_S fuel ids internal : abort_requests (D := D) set_order (S fuel) ids internal =
  (internal_req_ids ← foldM (internal_ids_of internal) ids [];
   foldM (abort_one set_order (λ l, abort_requests set_order fuel l true)) internal_req_ids []).
Proof. done. Qed.

(** Aborting by external ids: exactly the requests with these ids leave. *)
Lemma abort_external_spec fuel s h ids : inv ∅ s h →
  wp (abort_requests set_order (S fuel) ids false) s (λ r s', inv ∅ s' h ∧
    (∀ id, id ∈ r ↔ ∃ st, request_states s !! id = Some st ∧ external_req_id st ∈ ids) ∧
    request_states s' = filter (λ '(_, st), external_req_id st ∉ ids) (request_states s) ∧
    parent_requests s' = parent_requests s).
Proof.
  intros I. cbn [abort_requests]. wp_step.
  eapply wp_mono; [apply (external_loop_spec h ids [] s); [constructor|by intros id ?%not_elem_of_nil|exact I]|].
  intros L s1 (Hnd & I1 & E1 & E2 & HL).
  assert (HL' : ∀ id, id ∈ L ↔ ∃ st, request_states s !! id = Some st ∧ external_req_id st ∈ ids).
  { intros id. rewrite HL. split.
    - intros [?%not_elem_of_nil|(ext & l & Hin & El & Hid)]; [done|]. destruct (iv_external _ _ _ I ext l El) as (_ & _ & H).
      destruct (H id Hid) as [_ (st & Est & <-)]. by exists st.
    - intros (st & Est & Hin). right. destruct (iv_known _ _ _ I id st Est ltac:(set_solver)) as (l & El & Hid). by exists (external_req_id st), l. }
  assert (Hlive : ∀ id, id ∈ L → is_Some (request_states s1 !! id)).
  { intros id (st & Est & _)%HL'. rewrite E1. by exists st. }
  eapply wp_mono; [apply (abort_loop_spec _ h L [] s1 Hnd)|].
  - intros id Hid. left. by apply Hlive.
  - assert (list_to_set L ∩ dom (request_states s1) = list_to_set L :> gset string) as ->; [|done].
    apply set_eq. intros x. rewrite elem_of_intersection, elem_of_list_to_set, elem_of_dom. split; [by intros [? _]|]. intros Hx. split; [done|by apply Hlive].
  - intros r s' (I2 & H1 & H2 & H3). split; [done|]. split; [|split; [|by rewrite H2]].
    + intros id. rewrite H3, <-HL'. split; [|intros Hid; right; split; [done|by apply Hlive]]. by intros [?%not_elem_of_nil|[? _]].
    + rewrite H1, E1. apply map_eq. intros x. apply option_eq. intros y. rewrite !map_lookup_filter_Some.
      split; intros [Hx Hn]; (split; [done|]).
      * intros Hin. apply Hn, HL'. by exists y.
      * intros (st & Est & Hin)%HL'. congruence.
Qed.

(** A list of internal ids none of which is a registered parent *)
Lemma abort_flat_spec fuel s h ids : inv ∅ s h → NoDup ids →
  (∀ id, id ∈ ids → is_Some (request_states s !! id) ∨ id ∉ parent_requests s) →
  wp (abort_requests set_order (S fuel) ids true) s (λ r s', inv ∅ s' h ∧
    (∀ id, id ∈ r ↔ id ∈ ids ∧ is_Some (request_states s !! id)) ∧
    request_states s' = filter (λ '(id, _), id ∉ ids) (request_states s) ∧ parent_requests s' = parent_requests s).
Proof.
  intros I Hnd Hids. cbn [abort_requests]. wp_step.
  eapply wp_mono; [apply (internal_loop_spec h ids [] ∅ s Hnd); [set_solver|exact I]|].
  intros L s1 (-> & I1 & E1 & E2 & E3). simpl. rewrite (left_id_L ∅ (∪)) in I1.
  eapply wp_mono; [apply (abort_loop_spec _ h ids [] s1 Hnd); rewrite ?E1, ?E2; done|].
  intros r s' (I2 & H1 & H2 & H3). split; [done|]. rewrite E1 in *. split; [|split; [done|by rewrite H2]].
  intros id. rewrite H3. split; [|by right]. by intros [?%not_elem_of_nil|?].
Qed.

(** Aborting one request by its internal id, or all the children of a parent *)
Lemma abort_internal_spec fuel s h id : inv ∅ s h →
  wp (abort_requests set_order (S (S fuel)) [id] true) s (λ r s', inv ∅ s' h ∧
    request_states s' = filter (λ '(x, _), x ∉ r) (request_states s) ∧
    (is_Some (request_states s !! id) → r = [id]) ∧
    (∀ pr, request_states s !! id = None → id ∈ parent_requests s → parents s !! id = Some pr →
       (id ∉ parent_requests s') ∧ ∀ x, x ∈ r ↔ x ∈ child_requests pr ∧ is_Some (request_states s !! x))).
Proof.
  intros I. destruct (request_states s !! id) as [st|] eqn:Est.
  - cbn [abort_requests]. wp_step. eapply wp_mono; [apply (internal_loop_spec h [id] [] ∅ s); [apply NoDup_singleton|set_solver|exact I]|].
    intros L s1 (-> & I1 & E1 & E2 & E3). cbn [app foldM]. wp_step.
    assert (Hin : id ∈ dom (request_states s)) by by apply elem_of_dom.
    assert (E : ∅ ∪ (list_to_set [id] ∩ dom (request_states s)) = {[id]} ∪ ∅ :> gset string) by (clear -Hin; set_solver).
    rewrite E in I1. eapply wp_mono; [eapply (abort_live_spec _ ∅ s1 h id st []); [done|by rewrite E1|set_solver]|].
    intros acc' s' (-> & I2 & H1 & H2). wp_step. split; [done|]. split; [|done].
    rewrite H1, E1. apply map_eq. intros x. apply option_eq. intros y. rewrite lookup_delete_Some, map_lookup_filter_Some. simpl.
    rewrite list_elem_of_singleton. naive_solver.
  - rewrite abort_requests_S. wp_step.
    eapply wp_mono; [apply (internal_loop_spec h [id] [] ∅ s); [apply NoDup_singleton|set_solver|exact I]|].
    intros L s1 (-> & I1 & E1 & E2 & E3). cbn [app foldM]. wp_step.
    assert (Hin : id ∉ dom (request_states s)) by by apply not_elem_of_dom.
    assert (E : ∅ ∪ (list_to_set [id] ∩ dom (request_states s)) = ∅ :> gset string) by (clear -Hin; set_solver).
    rewrite E in I1. unfold abort_one. wp_step. wp_step. rewrite E1, Est.
    destruct (decide (id ∈ parent_requests s1)) as [Hp|Hp].
    + rewrite bool_decide_eq_true_2 by done. destruct (iv_registered _ _ _ I1 id Hp) as [pr Epr]. wp_step.
      eapply wp_of_option; [exact Epr|]. wp_step. set (L := set_order (elements (child_requests pr))).
      assert (HL : NoDup L ∧ ∀ x, x ∈ L ↔ x ∈ child_requests pr).
      { unfold L. split; [rewrite set_order_perm; apply NoDup_elements|]. intros x. by rewrite set_order_perm, elem_of_elements. }
      destruct HL as [Hnd HL].
      assert (Hkids : wp (if bool_decide (child_requests pr = ∅) then mret [] else abort_requests set_order (S fuel) L true) s1
        (λ r s', inv ∅ s' h ∧ (∀ x, x ∈ r ↔ x ∈ L ∧ is_Some (request_states s !! x)) ∧
           request_states s' = filter (λ '(x, _), x ∉ L) (request_states s) ∧ parent_requests s' = parent_requests s1)).
      { destruct (bool_decide_reflect (child_requests pr = ∅)) as [He|He].
        - assert (HL0 : ∀ x, x ∉ L) by (intros x; rewrite HL, He; apply not_elem_of_empty). wp_step. split; [done|]. split.
          { intros x. split; [by intros ?%not_elem_of_nil|]. intros [Hx _]. by apply HL0 in Hx. }
          split; [|done]. rewrite E1. symmetry. apply map_filter_id. intros x y _. apply HL0.
        - rewrite <-E1. apply abort_flat_spec; [done|done|]. intros x Hx%HL. right. intros Hreg.
          destruct (iv_children _ _ _ I1 id pr x Epr Hx) as [_ Hn]. apply (iv_registered _ _ _ I1) in Hreg. rewrite Hn in Hreg. by destruct Hreg. }
      eapply wp_mono; [exact Hkids|]. intros r s2 (I2 & Hr & H2 & H3). wp_step. wp_step. wp_step. wp_step.
      split; [apply inv_fewer_parents; [done|apply subseteq_difference_l; done]|]. split.
      { simpl. rewrite H2. clear -Hr. apply map_eq. intros x. apply option_eq. intros y. rewrite !map_lookup_filter_Some, Hr. naive_solver. }
      split; [by intros [? ?]|]. intros pr' _ _ Epr'. rewrite <-E3, Epr in Epr'. injection Epr' as <-. split.
      { simpl. rewrite elem_of_difference, elem_of_singleton. by intros [_ []]. }
      intros x. by rewrite Hr, HL.
    + rewrite bool_decide_eq_false_2 by done. wp_step. wp_step. split; [done|]. split.
      { rewrite E1. symmetry. apply map_filter_id. intros x y _. apply not_elem_of_nil. }
      split; [by intros [? ?]|]. intros pr' _ Hreg. by rewrite E2 in Hp.
Qed.
End abort.

(** ** New requests *)
Section add.
Context (new_detokenizer : bool → DetokParams → option (list Z) → option Tensor → outcome D).

(** A new detokenizer, with nothing decoded and nothing sent *)
Definition fresh_detokenizer (d : D) : Prop := ts_live d ∧ ts_sent d = [] ∧ ts_output_token_ids d = [].

(** What the front end has checked: a prompt, an external id, parameters a detokenizer
    can be made for; a pooling request is not streamed in intervals. *)
Record checked s (request : EngineCoreRequest) : Prop := {
  ck_external : is_Some (er_external_req_id request);
  ck_prompt : is_Some (length_from_prompt_token_ids_or_embeds (er_prompt_token_ids request) (er_prompt_embeds request));
  ck_plain : er_resumable request = false;
  ck_params : match er_params request with
    | Sampling sp => 1 ≤ sp_n sp ∧ ∃ d, fresh_detokenizer d ∧
        new_detokenizer (sp_detokenize sp) (sp_detok sp) (er_prompt_token_ids request) (er_prompt_embeds request) = Ret d
    | Pooling _ => op_stream_interval s ≤ 1
    end;
}.

(** The internal ids are new, of the request and of the children it may get. *)
Record new_ids s (id : string) : Prop := {
  ni_state : request_states s !! id = None;
  ni_parent : parents s !! id = None;
  ni_children : ∀ i, request_states s !! child_id i id = None ∧ parents s !! child_id i id = None;
  ni_not_child : ∀ p pr, parents s !! p = Some pr → id ∉ child_requests pr;
}.

Lemma prompt_checked (ids : option (list Z)) (embeds : option Tensor) st : is_Some (length_from_prompt_token_ids_or_embeds ids embeds) →
  rs_prompt_token_ids st = ids → rs_prompt_embeds st = embeds → is_Some (prompt_of st).
Proof. unfold prompt_of. intros H -> ->. destruct ids; [done|]. destruct embeds; [done|]. by destruct H. Qed.

Lemma inv_insert s h id st X : inv ∅ s h → request_states s !! id = None → entry_ok (parents s) (queues s) h id st →
  (∀ id2 st2 q, request_states s !! id2 = Some st2 → queue st = Some q → queue st2 = Some q →
     request_index st2 ≠ request_index st ∧ is_Some (detokenizer st2) ∧ is_Some (detokenizer st)) →
  (∀ p, p ∈ X → is_Some (parents s !! p)) →
  inv ∅ (set_external (<[external_req_id st := default [] (external_req_ids s !! external_req_id st) ++ [id]]> (external_req_ids s))
    (set_parent_requests X (set_states (<[id := st]> (request_states s)) s))) h.
Proof.
  intros [I1 I2 I3 I4 I5 I6 I7 I8] Hnone He Huniq HX. split; simpl; try done.
  - intros id2 st2 [[<- <-]|[_ H]]%lookup_insert_Some; [done|by apply I1].
  - intros id2 st2 [[<- <-]|[Hne H]]%lookup_insert_Some _.
    + eexists. split; [apply lookup_insert_eq|]. apply elem_of_app. right. by left.
    + destruct (I2 id2 st2 H ltac:(set_solver)) as (l & El & Hin). destruct (decide (external_req_id st2 = external_req_id st)) as [Ee|Ee].
      * exists (l ++ [id]). rewrite Ee, lookup_insert_eq. rewrite Ee in El. rewrite El. split; [done|]. apply elem_of_app. by left.
      * exists l. by rewrite lookup_insert_ne.
  - assert (Hold : ∀ ext l, external_req_ids s !! ext = Some l → NoDup l ∧ (id ∉ l) ∧
      ∀ id2, id2 ∈ l → (id2 ≠ id) ∧ ∃ st2, request_states s !! id2 = Some st2 ∧ external_req_id st2 = ext).
    { intros ext l El. destruct (I3 ext l El) as (_ & Hnd & Hall). split; [done|].
      assert (Hne : ∀ id2, id2 ∈ l → id2 ≠ id) by (intros id2 Hin ->; destruct (Hall id Hin) as [_ (st2 & E2 & _)]; congruence).
      split; [by intros Hin; destruct (Hne id Hin)|]. intros id2 Hin. split; [by apply Hne|by apply Hall]. }
    intros ext l [[<- <-]|[Hne El]]%lookup_insert_Some.
    + split; [by destruct (default [] _)|]. set (l0 := default [] _).
      assert (H0 : NoDup l0 ∧ (id ∉ l0) ∧ ∀ id2, id2 ∈ l0 → (id2 ≠ id) ∧ ∃ st2, request_states s !! id2 = Some st2 ∧ external_req_id st2 = external_req_id st).
      { unfold l0. destruct (external_req_ids s !! external_req_id st) as [l1|] eqn:E; simpl; [by apply Hold|].
        split; [constructor|]. split; [apply not_elem_of_nil|]. by intros id2 ?%not_elem_of_nil. }
      destruct H0 as (Hnd & Hni & Hall). split.
      { apply NoDup_app. split; [done|]. split; [|apply NoDup_singleton]. intros x Hx ->%list_elem_of_singleton. done. }
      intros id2 [Hin| ->%list_elem_of_singleton]%elem_of_app; (split; [set_solver|]).
      * destruct (Hall id2 Hin) as [Hne (st2 & E2 & Ee)]. exists st2. by rewrite lookup_insert_ne.
      * exists st. by rewrite lookup_insert_eq.
    + destruct (I3 ext l El) as (H1 & H2 & _). destruct (Hold ext l El) as (_ & _ & Hall). split; [done|]. split; [done|].
      intros id2 Hin. split; [set_solver|]. destruct (Hall id2 Hin) as [Hne2 (st2 & E2 & Ee)]. exists st2. by rewrite lookup_insert_ne.
  - intros id1 id2 st1 st2 q H1 H2 Hne Hq1 Hq2. apply lookup_insert_Some in H1 as [[<- <-]|[Hne1 H1]];
      apply lookup_insert_Some in H2 as [[<- <-]|[Hne2 H2]].
    + done.
    + destruct (Huniq id2 st2 q H2 Hq1 Hq2) as (? & ? & ?). by split; [congruence|].
    + by destruct (Huniq id1 st1 q H1 Hq2 Hq1) as (? & ? & ?).
    + by eapply I6.
Qed.

Definition sampling_of (p : Params) : option SamplingParams := match p with Sampling sp => Some sp | Pooling _ => None end.

(** A parent that has this child *)
Definition has_child (ps : gmap string ParentRequest) (request : EngineCoreRequest) (parent : option string) (index : Z) : Prop :=
  ∀ p, parent = Some p → ∃ pr sp, sampling_of (er_params request) = Some sp ∧ ps !! p = Some pr ∧
    parent_ok p (sp_n (pr_sampling_params pr)) pr ∧ sp_output_kind (pr_sampling_params pr) = sp_output_kind sp ∧
    er_request_id request ∈ child_requests pr ∧ er_request_id request = child_id index p ∧
    0 ≤ index < sp_n (pr_sampling_params pr).

(** A collector nothing came from *)
Definition unused_queue s (h : History) (request : EngineCoreRequest) (queue : option Z) : Prop :=
  ∀ q, queue = Some q → h !! q = None ∧
    queues s !! q = Some (RequestOutputCollector_init (params_kind (er_params request))).

Lemma new_state_spec s (h : History) ps request parent index q : checked s request → has_child ps request parent index →
  unused_queue s h request q →
  ∃ st, state_from_new_request new_detokenizer request parent index q (op_stream_interval s) = Ret st ∧
    entry_ok ps (queues s) h (er_request_id request) st ∧ request_index st = index ∧ queue st = q ∧
    (is_Some (detokenizer st) ↔ is_Some (sampling_of (er_params request))).
Proof.
  intros [[ext Hext] [len Hlen] Hplain Hpar] Hchild Hqueue.
  set (mk kind (detok : option D) := mkState (er_request_id request) ext parent index kind (er_prompt_token_ids request)
      (er_prompt_embeds request) detok q (op_stream_interval s) 0 false None).
  assert (Hok : ∀ kind detok, kind = params_kind (er_params request) →
    match sampling_of (er_params request) with
    | Some _ => ∃ d, detok = Some d ∧ fresh_detokenizer d
    | None => detok = None ∧ op_stream_interval s ≤ 1
    end → entry_ok ps (queues s) h (er_request_id request) (mk kind detok)).
  { intros kind detok Hkind Hd. split; try done.
    - split; [by eapply prompt_checked|done|]. simpl. intros p Ep. destruct (Hchild p Ep) as (pr & sp & Esp & Epr & H1 & H2 & H3).
      exists pr. split; [done|]. split; [done|]. split; [|done]. rewrite H2, Hkind. unfold sampling_of, params_kind in *.
      destruct (er_params request); [by injection Esp as ->|done].
    - simpl. intros Hnone. destruct (sampling_of (er_params request)) eqn:Es; [by destruct Hd as (d & -> & _)|].
      split; [by destruct Hd|]. destruct parent as [p|]; [|done]. destruct (Hchild p eq_refl) as (pr & sp & Esp & _). congruence.
    - simpl. intros d ->. destruct (sampling_of (er_params request)); [|by destruct Hd]. destruct Hd as (d0 & [= ->] & Hl & _ & ->). done.
    - simpl. intros q0 Eq. destruct (Hqueue q0 Eq) as [Eh Eq0]. eexists. split; [exact Eq0|]. split; [by rewrite Hkind|].
      intros d ->. split; [done|]. intros _. destruct (sampling_of (er_params request)); [|by destruct Hd].
      destruct Hd as (d0 & [= ->] & _ & Hs & Ht). unfold streamed, delivered. by rewrite Eh, Hs, Ht, take_nil. }
  unfold state_from_new_request. rewrite Hext, Hplain, Hlen. destruct (er_params request) as [sp|kind]; simpl in *.
  - destruct Hpar as (_ & d & Hd & ->). eexists. split; [done|]. split; [apply (Hok (sp_output_kind sp) (Some d)); [done|by exists d]|]. done.
  - eexists. split; [done|]. split; [by apply (Hok kind None)|]. by split; [|split; [|split; intros [? ?]]].
Qed.

(** [add_request] of a request that is new, in the light of the parents [ps] there will be *)
Lemma processor_add_spec s h ps request parent index q : let id := er_request_id request in
  inv ∅ (set_parents ps s) h → request_states s !! id = None → checked s request → has_child ps request parent index →
  unused_queue s h request q →
  (∀ id2 st2 q0, request_states s !! id2 = Some st2 → q = Some q0 → queue st2 = Some q0 →
     request_index st2 ≠ index ∧ is_Some (detokenizer st2) ∧ is_Some (sampling_of (er_params request))) →
  wp (add_request new_detokenizer request parent index q) s (λ _ s', inv ∅ (set_parents ps s') h ∧
    parents s' = parents s ∧ queues s' = queues s ∧ op_stream_interval s' = op_stream_interval s ∧
    ∃ st, request_states s' = <[id := st]> (request_states s) ∧ request_index st = index ∧ queue st = q ∧
      (is_Some (detokenizer st) ↔ is_Some (sampling_of (er_params request)))).
Proof.
  intros id I Hnone Hck Hchild Hq Huniq. destruct (new_state_spec s h ps request parent index q Hck Hchild Hq) as (st & Est & He & Hi & Hqu & Hd).
  unfold add_request. wp_step. wp_step. fold id. rewrite Hnone, Est. wp_step. simpl. wp_step. wp_step. wp_step. wp_step.
  assert (Hins : ∀ X, (∀ p, p ∈ X → is_Some (ps !! p)) →
    inv ∅ (set_parents ps (set_external (<[external_req_id st := default [] (external_req_ids s !! external_req_id st) ++ [id]]> (external_req_ids s))
      (set_parent_requests X (set_states (<[id := st]> (request_states s)) s)))) h).
  { intros X HX. apply (inv_insert (set_parents ps s) h id st X I); try done.
    intros id2 st2 q0 E2 Eq Eq2. rewrite Hqu in Eq. destruct (Huniq id2 st2 q0 E2 Eq Eq2) as (H1 & H2 & H3). rewrite Hi. split; [done|]. split; [done|].
    by apply Hd. }
  assert (Hreg : ∀ p, p ∈ parent_requests s → is_Some (ps !! p)) by apply (iv_registered _ _ _ I).
  destruct parent as [p|]; wp_step; wp_step.
  - split; [|split_and!; try done; by exists st]. apply (Hins (parent_requests s ∪ {[p]})). intros x [Hx| ->%elem_of_singleton]%elem_of_union; [by apply Hreg|].
    destruct (Hchild p eq_refl) as (pr & sp & _ & -> & _). done.
  - split; [|split_and!; try done; by exists st]. by apply (Hins (parent_requests s)).
Qed.

(** *** The children of a request *)

Definition child_ids (p : string) (l : list Z) : gset string := list_to_set ((λ i, child_id i p) <$> l).

Lemma child_ids_elem p l x : x ∈ child_ids p l ↔ ∃ i, i ∈ l ∧ x = child_id i p.
Proof. unfold child_ids. rewrite elem_of_list_to_set, list_elem_of_fmap. naive_solver. Qed.

(** The parameters all children share, unless each has a seed *)
Definition shared_params (sp : SamplingParams) : option SamplingParams :=
  if sp_seed sp is Some _ then None else Some (mkSampling 1 None (sp_detokenize sp) (sp_output_kind sp) (sp_detok sp)).

(** The parent when the children [l] exist *)
Definition parent_with (request : EngineCoreRequest) (ext : string) (sp : SamplingParams) (l : list Z) : ParentRequest :=
  mkParent (er_request_id request) ext sp (child_ids (er_request_id request) l)
    (if bool_decide (sp_output_kind sp = FINAL_ONLY) then replicate (Z.to_nat (sp_n sp)) None else [])
    (if is_nil l then None else shared_params sp).

Lemma get_child_info_spec request ext sp l i :
  wp (get_child_info i) (parent_with request ext sp l) (λ r pr, pr = parent_with request ext sp (l ++ [i]) ∧
    r.1 = child_id i (er_request_id request) ∧ sp_detokenize r.2 = sp_detokenize sp ∧
    sp_output_kind r.2 = sp_output_kind sp ∧ sp_detok r.2 = sp_detok sp ∧ sp_n r.2 = 1).
Proof.
  assert (Hids : {[child_id i (er_request_id request)]} ∪ child_ids (er_request_id request) l = child_ids (er_request_id request) (l ++ [i])).
  { apply set_eq. intros x. rewrite elem_of_union, elem_of_singleton, !child_ids_elem. setoid_rewrite elem_of_app.
    setoid_rewrite list_elem_of_singleton. naive_solver. }
  unfold get_child_info. wp_step. wp_step. wp_step. wp_step. wp_step. unfold _get_child_sampling_params. wp_step. wp_step.
  unfold parent_with, shared_params, set_children, set_cached. simpl. rewrite Hids.
  assert (Hn : is_nil (l ++ [i]) = false) by by destruct l. rewrite Hn.
  destruct l as [|x l]; simpl; destruct (sp_seed sp) eqn:Es; simpl; repeat wp_step; split_and!; done.
Qed.

(** The parent with all its children is as the children want it. *)
Lemma parent_with_ok request ext sp : 1 ≤ sp_n sp →
  parent_ok (er_request_id request) (sp_n sp) (parent_with request ext sp (EncoderCache.py_range (sp_n sp))).
Proof.
  intros Hn. split; [done|]. unfold parent_with. simpl. intros ->. rewrite bool_decide_eq_true_2 by done. split.
  { unfold zlen. rewrite length_replicate. lia. }
  intros i x Hx. apply lookup_replicate in Hx as [-> Hi]. intros Hb. apply child_ids_elem. exists (Z.of_nat i).
  split; [|done]. unfold EncoderCache.py_range. apply list_elem_of_fmap. exists i. split; [done|]. apply elem_of_seq. lia.
Qed.

Lemma child_index_elem n i : i ∈ EncoderCache.py_range n ↔ 0 ≤ i < n.
Proof.
  unfold EncoderCache.py_range. rewrite list_elem_of_fmap. setoid_rewrite elem_of_seq. split; [intros (k & -> & ?); lia|].
  intros H. exists (Z.to_nat i). lia.
Qed.

(** A parent nobody knows yet does not disturb. *)
Lemma inv_parent s h p pr : inv ∅ s h → parents s !! p = None →
  (∀ q pr2, parents s !! q = Some pr2 → p ∉ child_requests pr2) →
  (∀ c, c ∈ child_requests pr → (∃ i, c = child_id i p) ∧ c ≠ p ∧ parents s !! c = None) →
  inv ∅ (set_parents (<[p := pr]> (parents s)) s) h.
Proof.
  intros [I1 I2 I3 I4 I5 I6 I7 I8] Hp Hnc Hc. split; simpl; try done.
  - intros id st Est. destruct (I1 id st Est) as [E1 E2 [R1 R2 R3] E4 E5 E6]. split; try done. split; try done.
    intros q Eq. destruct (R3 q Eq) as (pr2 & Epr2 & H). exists pr2. split; [|done]. rewrite lookup_insert_ne; [done|]. intros ->. congruence.
  - intros q Hq. destruct (decide (p = q)) as [->|Hne]; [by rewrite lookup_insert_eq|]. rewrite lookup_insert_ne by done. by apply I7.
  - intros q pr2 c [[<- <-]|[Hne Hq]]%lookup_insert_Some Hin.
    + destruct (Hc c Hin) as (Hi & Hcp & Hn). split; [done|]. by rewrite lookup_insert_ne.
    + destruct (I8 q pr2 c Hq Hin) as [Hi Hn]. split; [done|]. rewrite lookup_insert_ne; [done|]. intros <-. by apply (Hnc q pr2 Hq).
Qed.

(** The queue is used by no request. *)
Definition no_user s (queue : option Z) : Prop :=
  ∀ id st q, request_states s !! id = Some st → queue = Some q → OutputProc.queue st ≠ Some q.

(** [length id] cannot be that of a child. *)
Lemma child_id_ne p i : child_id i p ≠ p.
Proof.
  assert (Hlen : ∀ a b : string, String.length (a +:+ b) = (String.length a + String.length b)%nat).
  { intros a b. induction a as [|x a IH]; [done|]. simpl. by f_equal. }
  intros H. apply (f_equal String.length) in H. unfold child_id in H. rewrite !Hlen in H. simpl in H. lia.
Qed.

Lemma add_children_spec s h request q sp ext : let p := er_request_id request in
  inv ∅ s h → checked s request → new_ids s p → unused_queue s h request q → no_user s q →
  er_params request = Sampling sp → er_external_req_id request = Some ext →
  wp (foreach (EncoderCache.py_range (sp_n sp)) (add_child new_detokenizer request q))
    (set_parents (<[p := parent_with request ext sp []]> (parents s)) s) (λ _ s', inv ∅ s' h).
Proof.
  intros p I Hck Hnew Hq Huser Epar Eext. pose proof Hck as [_ Hprompt Hplain Hpar]. rewrite Epar in Hpar. destruct Hpar as [Hn (d & Hd & Ed)].
  set (range := EncoderCache.py_range (sp_n sp)). set (psF := <[p := parent_with request ext sp range]> (parents s)).
  assert (Hnd : NoDup range) by (unfold range, EncoderCache.py_range; apply NoDup_fmap_2; [apply _|apply NoDup_seq]).
  assert (IF : inv ∅ (set_parents psF s) h).
  { apply inv_parent; [done|apply Hnew|apply Hnew|]. simpl. intros c (i & _ & ->)%child_ids_elem.
    split; [by exists i|]. split; [apply child_id_ne|apply Hnew]. }
  eapply wp_mono.
  - apply (wp_foreach (λ pre s', inv ∅ (set_parents psF s') h ∧ parents s' = <[p := parent_with request ext sp pre]> (parents s) ∧
      queues s' = queues s ∧ op_stream_interval s' = op_stream_interval s ∧
      (∀ id, is_Some (request_states s' !! id) → is_Some (request_states s !! id) ∨ ∃ j, j ∈ pre ∧ id = child_id j p) ∧
      (∀ id st q0, request_states s' !! id = Some st → q = Some q0 → queue st = Some q0 → request_index st ∈ pre ∧ is_Some (detokenizer st)))).
    + split; [done|]. split; [done|]. split; [done|]. split; [done|]. split; [by left|]. intros id st q0 Est Eq Hqst. by destruct (Huser id st q0 Est Eq).
    + intros pre i post s1 El (I1 & Eps & Eqs & Esi & Hst & Hqu). unfold add_child. fold p. wp_step.
      assert (Hi : i ∈ range) by (rewrite El; apply elem_of_app; right; by left).
      assert (Hni : i ∉ pre) by (intros Hin; rewrite El in Hnd; apply NoDup_app in Hnd as (_ & Hd2 & _); by apply (Hd2 i Hin); left).
      unfold wp at 1, on_parent_object. rewrite Eps, lookup_insert_eq.
      pose proof (get_child_info_spec request ext sp pre i) as Hgc. unfold wp in Hgc.
      destruct (get_child_info i _) as [[info|e] pr1]; [|done]. destruct Hgc as (-> & Eid & Edet & Ekind & Edp & En).
      set (s2 := set_parents _ s1). set (creq := child_request request info.1 info.2).
      assert (Ecid : er_request_id creq = child_id i p) by exact Eid.
      eapply wp_mono; [apply (processor_add_spec s2 h psF creq (Some p) i q)|].
      * exact I1.
      * rewrite Ecid. simpl. destruct (request_states s1 !! child_id i p) as [st|] eqn:Est; [|done].
        destruct (Hst (child_id i p) ltac:(by exists st)) as [Hs|(j & Hj & Hij%child_id_inj)]; [|by subst].
        rewrite (proj1 (ni_children _ _ Hnew i)) in Hs. by destruct Hs.
      * split; simpl; [by rewrite Eext|done|done|]. rewrite En. split; [done|]. exists d. split; [done|]. by rewrite Edet, Edp.
      * intros p' [= <-]. exists (parent_with request ext sp range), info.2. split; [done|]. split; [apply lookup_insert_eq|]. rewrite Ecid.
        split; [by apply parent_with_ok|]. split; [by rewrite Ekind|]. split; [apply child_ids_elem; by exists i|]. split; [done|]. by apply child_index_elem.
      * intros q0 Eq. destruct (Hq q0 Eq) as [Eh Eq0]. split; [done|]. simpl. rewrite Eqs, Eq0, Epar. simpl. by rewrite Ekind.
      * intros id2 st2 q0 E2 Eq Eq2. destruct (Hqu id2 st2 q0 E2 Eq Eq2) as [Hin Hdet]. split; [by intros <-|]. split; [done|done].
      * intros u s3 (I3 & Ep3 & Eq3 & Esi3 & st & Est3 & Hidx & Hstq & Hdet). split; [done|]. split.
        { rewrite Ep3. apply insert_insert_eq. }
        split; [by rewrite Eq3|]. split; [by rewrite Esi3|]. rewrite Est3, Ecid. split.
        -- intros id Hs. destruct (decide (child_id i p = id)) as [<-|Hne].
           ++ right. exists i. split; [|done]. apply elem_of_app. right. by left.
           ++ rewrite lookup_insert_ne in Hs by done. destruct (Hst id Hs) as [?|(j & Hj & ->)]; [by left|]. right. exists j.
              split; [|done]. apply elem_of_app. by left.
        -- intros id st' q0 [[_ <-]|[_ Hs]]%lookup_insert_Some Eq Eqs'.
           ++ split; [rewrite Hidx; apply elem_of_app; right; by left|]. by apply Hdet.
           ++ destruct (Hqu id st' q0 Hs Eq Eqs') as [Hin ?]. split; [|done]. apply elem_of_app. by left.
  - intros u s' (I' & Eps & _). cbn in Eps. fold range in Eps. assert (set_parents psF s' = s') as E.
    { unfold psF. rewrite <-Eps. by destruct s'. }
    by rewrite E in I'.
Qed.

(** A request that the front end has checked, with new ids and a collector of its own, is
    added without an error. *)
Lemma add_new_spec s h request q : inv ∅ s h → checked s request → new_ids s (er_request_id request) →
  (∀ q0, q = Some q0 → queues s !! q0 = None) →
  wp (add_new new_detokenizer request q) s (λ _ s', inv ∅ s' h).
Proof.
  intros I Hck Hnew Hq. unfold add_new.
  assert (Hgo : ∀ s1, inv ∅ s1 h → checked s1 request → new_ids s1 (er_request_id request) → unused_queue s1 h request q → no_user s1 q →
    wp (engine_add_request new_detokenizer request q) s1 (λ _ s', inv ∅ s' h)).
  { intros s1 I1 Hck1 Hnew1 Hq1 Huser. unfold engine_add_request.
    assert (Hone : wp (add_request new_detokenizer request None 0 q) s1 (λ _ s', inv ∅ s' h)).
    { eapply wp_mono; [apply (processor_add_spec s1 h (parents s1)); try done|].
      - by destruct s1.
      - apply Hnew1.
      - intros id2 st2 q0 E2 Eq Eq2. by destruct (Huser id2 st2 q0 E2 Eq).
      - intros u s' (I' & Ep & _). rewrite <-Ep in I'. by destruct s'. }
    pose proof Hck1 as [[ext Eext] _ _ Hpar]. destruct (er_params request) as [sp|kind] eqn:Epar; [|done].
    destruct (sp_n sp =? 1); [done|]. wp_step. unfold ParentRequest_init. rewrite Eext. cbn [of_outcome]. wp_step. wp_step. wp_step.
    by apply (add_children_spec s1 h request q sp ext). }
  wp_step. destruct q as [q|].
  - specialize (Hq q eq_refl). unfold new_queue. wp_step. apply Hgo.
    + destruct I as [I1 I2 I3 I4 I5 I6 I7 I8]. split; simpl; try done.
      * intros id st Est. destruct (I1 id st Est) as [E1 E2 E3 E4 E5 E6]. split; try done. intros q0 Eq.
        destruct (E6 q0 Eq) as (c & Ec & H). exists c. split; [|done]. rewrite lookup_insert_ne; [done|]. intros ->. congruence.
      * intros q0 c [[_ <-]|[_ H]]%lookup_insert_Some; [done|by eapply I4].
      * intros q0 H. destruct (decide (q = q0)) as [->|Hne]; [by rewrite lookup_insert_eq|]. rewrite lookup_insert_ne by done. by apply I5.
    + by destruct Hck.
    + by destruct Hnew.
    + intros q0 [= <-]. split; [|apply lookup_insert_eq]. destruct (h !! q) eqn:E; [|done].
      destruct (iv_history _ _ _ I q) as [? ?]; [by rewrite E|congruence].
    + intros id st q0 Est [= <-] Eq. destruct (en_queue _ _ _ _ _ (iv_entries _ _ _ I id st Est) q Eq) as (c & Ec & _). congruence.
  - wp_step. by apply Hgo.
Qed.
End add.
End life.
