(* ===== verification/OutputTheorems.v ===== *)
(** * The output processor: what its callers rely on

    Runs of the processor: requests are added, served, aborted, and their outputs
    fetched, in any order. *)

From stdpp Require Import pretty relations.
From S2P Require Import Prelude.
From S2P Require Import Request.
From S2P Require Import BlockHash.
From S2P Require Import EncoderCache.
From S2P Require Import SingleType.
From S2P Require Import SchedUpdate.
From S2P Require Import Detok.
From S2P Require Import DetokSpec.
From S2P Require Import OutputProc.
From S2P Require Import OutputSpec.
From S2P Require Import OutputSteps.
Local Open Scope Z_scope.

Section runs.
Context {D : Type} `{!TextStream D} `{!StreamLaws D}.
Context (new_detokenizer : bool → DetokParams → option (list Z) → option Tensor → outcome D).
Context (set_order : list string → list string).
Hypothesis set_order_perm : ∀ l, set_order l ≡ₚ l.
Abbreviation Processor := (OutputProcessor (D := D)).
Implicit Types s : Processor.
Implicit Types h : History.

(** The engine pools for the requests without a detokenizer, and for no others. *)
Definition answers s (eco : EngineCoreOutput) : Prop :=
  ∀ st, request_states s !! eo_request_id eco = Some st → (eo_pooling_output eco = None ↔ is_Some (detokenizer st)).

(** One call, with what has been fetched so far; internal ids are aborted one by one. *)
Inductive step : Processor * History → Processor * History → Prop :=
  | step_add s h request q s' : checked new_detokenizer s request → new_ids s (er_request_id request) →
      (∀ q0, q = Some q0 → queues s !! q0 = None) →
      add_new new_detokenizer request q s = (Ret tt, s') → step (s, h) (s', h)
  | step_process s h acc eco acc' s' : answers s eco → process_output acc eco s = (Ret acc', s') → step (s, h) (s', h)
  | step_abort_external fuel s h ids r s' :
      abort_requests set_order (S fuel) ids false s = (Ret r, s') → step (s, h) (s', h)
  | step_abort_internal fuel s h id r s' :
      abort_requests set_order (S (S fuel)) [id] true s = (Ret r, s') → step (s, h) (s', h)
  | step_fetch s h q o s' : on_queue q get_nowait s = (Ret o, s') → step (s, h) (s', fetched h q o).

Definition reach (stream_interval : Z) : Processor * History → Prop :=
  rtc step (OutputProcessor_init stream_interval, ∅).

Lemma processor_init_inv si : inv ∅ (OutputProcessor_init (D := D) si) ∅.
Proof. split; simpl; try done; try (by intros *; rewrite ?lookup_empty); by intros q [? ?]. Qed.

Lemma process_inv s h acc eco : inv ∅ s h → answers s eco →
  wpe (process_output acc eco) s (λ _ s', inv ∅ s' h) (λ e _, ∃ st d d',
    request_states s !! eo_request_id eco = Some st ∧ detokenizer st = Some d ∧
    ts_update (eo_new_token_ids eco) (is_stop (eo_finish_reason eco)) d = (Raise e, d')).
Proof.
  intros I Ha. destruct (request_states s !! eo_request_id eco) as [st|] eqn:Est.
  - destruct (detokenizer st) as [d|] eqn:Ed.
    + assert (Hp : eo_pooling_output eco = None) by (apply (Ha st Est); by rewrite Ed).
      eapply wpe_mono; [by apply (process_spec s h acc eco st d)|by intros acc' s' [H _]|]. intros e s' [d' H]. by exists st, d, d'.
    + destruct (eo_pooling_output eco) as [data|] eqn:Ep.
      * apply wp_wpe. by eapply process_pooled_spec.
      * destruct (Ha st Est) as [H _]. rewrite Ed in H. by destruct (H Ep).
  - unfold process_output. cbv zeta. wpe_step. wpe_step. rewrite Est. by wpe_step.
Qed.

Lemma step_inv w w' : step w w' → inv ∅ w.1 w.2 → inv ∅ w'.1 w'.2.
Proof.
  destruct 1 as [s h request q s' Hck Hnew Hq E|s h acc eco acc' s' Ha E|fuel s h ids r s' E|fuel s h id r s' E|s h q o s' E];
    simpl; intros I.
  - exact (wp_returns _ _ _ _ _ (add_new_spec new_detokenizer s h request q I Hck Hnew Hq) E).
  - pose proof (process_inv s h acc eco I Ha) as H. unfold wpe in H. by rewrite E in H.
  - exact (proj1 (wp_returns _ _ _ _ _ (abort_external_spec set_order set_order_perm fuel s h ids I) E)).
  - exact (proj1 (wp_returns _ _ _ _ _ (abort_internal_spec set_order set_order_perm fuel s h id I) E)).
  - destruct (queues s !! q) as [c|] eqn:Ec; [|by unfold on_queue in E; rewrite Ec in E].
    exact (proj1 (wp_returns _ _ _ _ _ (get_nowait_spec s h q c I Ec) E)).
Qed.

Lemma reach_inv si s h : reach si (s, h) → inv ∅ s h.
Proof.
  unfold reach. intros Hr. assert (H : ∀ w w', rtc step w w' → inv ∅ w.1 w.2 → inv ∅ w'.1 w'.2).
  { induction 1 as [w|w1 w2 w3 Hs _ IH]; [done|]. intros I. by apply IH, (step_inv w1). }
  apply (H _ _ Hr). apply processor_init_inv.
Qed.

(** C10: The runs are those of [step].  Requests come checked from the front end: their
    ids are new, their collector is their own, they are not resumable, and pooling
    requests come only with a stream interval of at most 1; all children of a request
    are registered in one go.  The engine pools for exactly the pooling requests, and
    internal ids are aborted one at a time; [propagate_error] is not among the calls.
    In every such run no call raises: checked requests are added, a request is served
    or leaves, aborting by external ids takes exactly their requests out, aborting by
    an internal id that request or the children of that parent, and an output can be
    fetched at any time.  Only a detokenizer can raise, and its exception is passed
    on.  Outside these runs the processor can raise: [abort_twice_raises] and
    [pooling_interval_asserts]. *)
Theorem processor_never_raises si s h : reach si (s, h) →
  (∀ request q, checked new_detokenizer s request → new_ids s (er_request_id request) →
     (∀ q0, q = Some q0 → queues s !! q0 = None) → wp (add_new new_detokenizer request q) s (λ _ s', reach si (s', h))) ∧
  (∀ acc eco, answers s eco → wpe (process_output acc eco) s (λ _ s', reach si (s', h))
     (λ e _, ∃ st d d', request_states s !! eo_request_id eco = Some st ∧ detokenizer st = Some d ∧
        ts_update (eo_new_token_ids eco) (is_stop (eo_finish_reason eco)) d = (Raise e, d'))) ∧
  (∀ fuel ids, wp (abort_requests set_order (S fuel) ids false) s (λ r s', reach si (s', h) ∧
     (∀ id, id ∈ r ↔ ∃ st, request_states s !! id = Some st ∧ external_req_id st ∈ ids) ∧
     request_states s' = filter (λ '(_, st), external_req_id st ∉ ids) (request_states s))) ∧
  (∀ fuel id, wp (abort_requests set_order (S (S fuel)) [id] true) s (λ r s', reach si (s', h) ∧
     request_states s' = filter (λ '(x, _), x ∉ r) (request_states s) ∧
     (is_Some (request_states s !! id) → r = [id]) ∧
     (∀ pr, request_states s !! id = None → id ∈ parent_requests s → parents s !! id = Some pr →
        ∀ x, x ∈ r ↔ x ∈ child_requests pr ∧ is_Some (request_states s !! x)))) ∧
  (∀ q c, queues s !! q = Some c → wp (on_queue q get_nowait) s (λ o s', reach si (s', fetched h q o))).
Proof.
  intros Hr. pose proof (reach_inv si s h Hr) as I. split; [|split; [|split; [|split]]].
  - intros request q Hck Hnew Hq. pose proof (add_new_spec new_detokenizer s h request q I Hck Hnew Hq) as H.
    destruct (wp_elim _ _ _ H) as ([] & s' & E & _). apply (wp_intro _ _ _ _ _ E). eapply rtc_r; [exact Hr|]. by econstructor.
  - intros acc eco Ha. pose proof (process_inv s h acc eco I Ha) as H. unfold wpe in *.
    destruct (process_output acc eco s) as [[acc'|e] s'] eqn:E; [|done]. eapply rtc_r; [exact Hr|]. by econstructor.
  - intros fuel ids. pose proof (abort_external_spec set_order set_order_perm fuel s h ids I) as H.
    destruct (wp_elim _ _ _ H) as (r & s' & E & _ & H1 & H2 & _). apply (wp_intro _ _ _ _ _ E). split; [|done].
    eapply rtc_r; [exact Hr|]. by eapply step_abort_external.
  - intros fuel id. pose proof (abort_internal_spec set_order set_order_perm fuel s h id I) as H.
    destruct (wp_elim _ _ _ H) as (r & s' & E & _ & H1 & H2 & H3). apply (wp_intro _ _ _ _ _ E). split.
    { eapply rtc_r; [exact Hr|]. by eapply step_abort_internal. }
    split; [done|]. split; [done|]. intros pr Hn Hreg Epr. by apply H3.
  - intros q c Ec. pose proof (get_nowait_spec s h q c I Ec) as H.
    destruct (wp_elim _ _ _ H) as (o & s' & E & _). apply (wp_intro _ _ _ _ _ E). eapply rtc_r; [exact Hr|]. by econstructor.
Qed.

(** C7: Streaming is complete: whatever was fetched and merged in between, when a streamed
    request is served, its client has got a prefix of the text and of the tokens; when
    the engine finishes the request or the detokenizer finds a stop string, the request
    is gone and its client has got the whole text, cut at the stop string, and all the
    tokens, each once, for every stream interval. *)
Theorem streamed_output_complete si s h acc eco acc' s' st d q : reach si (s, h) →
  request_states s !! eo_request_id eco = Some st → detokenizer st = Some d → queue st = Some q → output_kind st = DELTA →
  eo_pooling_output eco = None → process_output acc eco s = (Ret acc', s') →
  ∃ r d1 c', ts_update (eo_new_token_ids eco) (is_stop (eo_finish_reason eco)) d = (Ret r, d1) ∧
    queues s' !! q = Some c' ∧
    let txt := delivered h q c' (request_index st) co_text in
    let toks := delivered h q c' (request_index st) co_token_ids in
    match final_reason (eo_finish_reason eco) r with
    | Some _ => request_states s' !! eo_request_id eco = None ∧ txt = ts_text d1 ∧
        toks = ts_output_token_ids d ++ eo_new_token_ids eco
    | None => is_Some (request_states s' !! eo_request_id eco) ∧ txt `prefix_of` ts_text d1 ∧
        toks `prefix_of` ts_output_token_ids d ++ eo_new_token_ids eco
    end.
Proof.
  intros Hr Est Ed Eq Hk Hp E. pose proof (reach_inv si s h Hr) as I.
  pose proof (process_spec s h acc eco st d I Est Ed Hp) as H. unfold wpe in H. rewrite E in H.
  destruct H as (_ & r & d1 & o & st2 & d2 & Eup & (Htok & _) & [Hst _ _ Hcol] & _ & Hfin).
  destruct (en_queue _ _ _ _ _ (iv_entries _ _ _ I _ st Est) q Eq) as (c & Ec & _).
  destruct (Hcol q c Eq Ec) as (c' & Ec' & _ & _ & _ & _ & Hs). destruct Hst as (Est2 & Htok2 & Htxt & Hok & _).
  assert (Hkeep : output_kind st2 = output_kind st ∧ request_index st2 = request_index st) by by rewrite Est2.
  destruct Hkeep as [Hk2 Hi2]. destruct Hs as [[Hs1 Hs2] Hall]; [by rewrite Hk2|]. rewrite Hi2 in *.
  exists r, d1, c'. split; [done|]. split; [done|]. cbv zeta. rewrite <-Htxt, <-Htok, <-Htok2.
  destruct (final_reason _ r).
  - destruct Hfin as [-> _]. destruct Hall as [H1 H2]; [done|]. rewrite Hi2 in *. split; [apply lookup_delete_eq|done].
  - destruct Hfin as [-> _]. split; [by rewrite lookup_insert_eq|]. rewrite Hs1, Hs2. split; [by apply ts_sent_prefix|apply prefix_take].
Qed.

(** C20: A request for [n] completions of the kind [FINAL_ONLY], from a client without a
    collector ([LLMEngine]), in the runs of C10, where its children are all registered
    before any is served, is answered once: as long as a
    child has not finished there is no output, then one with the [n] completions, each
    at its index and finished, under the request's external id, and no child is left.
    A child that is served while its siblings are still being registered, as [AsyncLLM]
    allows, is another matter: [early_child_finishes_parent]. *)
Theorem parallel_completions_together si s h acc eco acc' s' st d p pr : reach si (s, h) →
  request_states s !! eo_request_id eco = Some st → detokenizer st = Some d → queue st = None → output_kind st = FINAL_ONLY →
  parent_req st = Some p → parents s !! p = Some pr →
  eo_pooling_output eco = None → process_output acc eco s = (Ret acc', s') →
  ∃ pr', parents s' !! p = Some pr' ∧
    ((child_requests pr' ≠ ∅ ∧ acc'.1 = acc.1) ∨
     (child_requests pr' = ∅ ∧ (∀ id2 st2, request_states s' !! id2 = Some st2 → parent_req st2 ≠ Some p) ∧
      ∃ ro, acc'.1 = acc.1 ++ [Completions ro] ∧ ro_finished ro = true ∧ ro_request_id ro = pr_external_req_id pr ∧
        all_completions (sp_n (pr_sampling_params pr)) (ro_outputs ro))).
Proof.
  intros Hr Est Ed Eq Hk Ep Epr Hp E. pose proof (reach_inv si s h Hr) as I.
  pose proof (process_spec s h acc eco st d I Est Ed Hp) as H. unfold wpe in H. rewrite E in H.
  destruct H as (I' & r & d1 & o & st2 & d2 & _ & _ & [_ [Hpar _] Hout _] & Hacc & _). rewrite Eq in Hacc.
  unfold parents_after in Hpar. rewrite Ep in Hpar. destruct Hpar as (pr0 & pr' & Epr0 & Eps & _ & [Hext Hsp] & Hch).
  assert (pr0 = pr) as -> by congruence. exists pr'. split; [rewrite Eps; apply lookup_insert_eq|].
  pose proof (iv_entries _ _ _ I _ st Est) as He. destruct (rq_parent _ _ (en_req _ _ _ _ _ He) p Ep) as (pr0 & Epr1 & _ & _ & Hin & _).
  assert (pr0 = pr) as -> by congruence. destruct Hout as [[-> Hf]|(co & Hout & _)].
  - left. rewrite Hf in Hch. rewrite app_nil_r in Hacc. split; [|done]. rewrite Hch. set_solver.
  - unfold output_spec in Hout. rewrite Ep, Hk in Hout. destruct Hout as (pr1 & Epr' & Hout). rewrite bool_decide_eq_true_2 in Hout by done.
    rewrite Eps, lookup_insert_eq in Epr'. injection Epr' as <-. destruct Hout as [[-> Hne]|(ro & -> & He0 & Hfin & Hrid & Hall)].
    + left. by rewrite app_nil_r in Hacc.
    + right. split; [done|]. split; [|exists ro; rewrite <-Hext, <-Hsp; done].
      intros id2 st3 Est3 Ep3. destruct (rq_parent _ _ (en_req _ _ _ _ _ (iv_entries _ _ _ I' id2 st3 Est3)) p Ep3) as (pr2 & Epr2 & _ & _ & Hin2 & _).
      rewrite Eps, lookup_insert_eq in Epr2. injection Epr2 as <-. rewrite He0 in Hin2. by apply not_elem_of_empty in Hin2.
Qed.
End runs.

(** ** The detokenizers of the code

    Stop strings are not empty and [min_tokens] is not negative, as [SamplingParams]
    checks; a detokenizer made from such parameters is fresh. *)
Lemma processor_detokenizer_fresh {S} (api : Fast.fast_stream S) tokenizer detokenize params ids embeds len :
  (match dp_stop params with NoStop => True | OneStop s => s ≠ [] | StopList l => Forall (.≠ []) l end) →
  0 ≤ dp_min_tokens params → length_from_prompt_token_ids_or_embeds ids embeds = Some len → 0 ≤ len →
  ∃ d, @fresh_detokenizer _ (any_stream api) (any_laws api) d ∧
    processor_detokenizer api tokenizer detokenize params ids embeds = Ret d.
Proof.
  intros Hs Hm Hlen H0. unfold processor_detokenizer, from_new_request.
  destruct (if detokenize then tokenizer else None) as [[added|t]|].
  - eexists. split; [|done]. destruct (init_live params
      (Fast.mkFast (Fast.primed_stream api (default [] ids) (skip_special_tokens params)) (skip_special_tokens params)
         ((skip_special_tokens params || dp_spaces_between_special_tokens params) || bool_decide (added = ∅)) false added) Hs Hm) as [H1 H2].
    by split.
  - unfold Slow.SlowIncrementalDetokenizer_init. rewrite Hlen.
    destruct (match ids with Some ids0 => _ | None => _ end) as [[toks prefix] read]. eexists. split; [|done].
    set (dec := Slow.mkSlow toks prefix read _ _). destruct (init_live params dec Hs Hm) as [[[e [W1 W2 W3 W4 W5]] H2 H3 H4] _].
    set (all := match ids with Some ((_ :: _) as ids0) => ids0 | _ => replicate (Z.to_nat len) 0 end).
    assert (Hall : zlen all = len).
    { assert (Hrep : zlen (replicate (Z.to_nat len) 0) = len) by (unfold zlen; rewrite length_replicate; lia).
      unfold all. destruct ids as [[|x l]|]; [done| |done]. revert Hlen. unfold length_from_prompt_token_ids_or_embeds. simpl.
      destruct embeds as [x0|]; simpl; [|by intros [= <-]]. destruct (_ =? _); [by intros [= <-]|done]. }
    split; [|split; [done|]].
    + split; simpl; [|rewrite Hall; lia|done|lia]. exists e. split; simpl; try done.
      unfold num_output_tokens. simpl. rewrite Hall. lia.
    + simpl. unfold output_token_ids. simpl. destruct (Z.eqb_spec len 0) as [E|E]; simpl.
      * unfold zlen in Hall. by apply length_zero_iff_nil; lia.
      * rewrite py_from_nonneg by done. apply drop_ge. unfold zlen in Hall. lia.
  - eexists. split; [|done]. done.
Qed.

(** ** Runs *)

(** A [DecodeStream] whose tokens are the code points of their text *)
Definition letters : Fast.fast_stream unit :=
  Fast.mkStream _ (λ s t, (Fast.Piece (Some [t]), s)) (λ _, tt) (λ _ _, tt).
Definition letter_detokenizer := processor_detokenizer letters (Some (FastTokenizer ∅)).

#[local] Instance letter_stream : TextStream (IncrementalDetokenizer unit) := any_stream letters.
#[local] Instance letter_laws : StreamLaws (IncrementalDetokenizer unit) := any_laws letters.

Definition letter_params (n : Z) (kind : RequestOutputKind) (stop : list text) : Params :=
  Sampling (mkSampling n None true kind (mkDetokParams (StopList stop) 0 false true true)).
Definition letter_request (id ext : string) (params : Params) : EngineCoreRequest :=
  mkCoreRequest id (Some ext) (Some [1; 2]) None params false.

Lemma letter_checked s id ext n kind stop : 1 ≤ n → Forall (.≠ []) stop →
  checked letter_detokenizer s (letter_request id ext (letter_params n kind stop)).
Proof.
  intros Hn Hs. split; [done|done|done|]. split; [done|]. destruct (processor_detokenizer_fresh letters (Some (FastTokenizer ∅)) true
    (mkDetokParams (StopList stop) 0 false true true) (Some [1; 2]) None 2) as (d & Hd & E); [done|done|done|done|]. by exists d.
Qed.

Lemma init_new_ids si id : new_ids (OutputProcessor_init (D := IncrementalDetokenizer unit) si) id.
Proof. by split. Qed.

(** "ab" and "cd" with the stop string "bc", sent every two tokens: the text is "a". *)
Definition stop_request : EngineCoreRequest := letter_request "a-1" "a" (letter_params 1 DELTA [[98; 99]]).
Definition first_letters : EngineCoreOutput := mkEngineOutput "a-1" [97; 98] None None None.
Definition last_letters : EngineCoreOutput := mkEngineOutput "a-1" [99; 100] None None None.

Definition init2 : OutputProcessor := OutputProcessor_init (D := IncrementalDetokenizer unit) 2.
Definition added : OutputProcessor := (add_new letter_detokenizer stop_request (Some 7) init2).2.
Definition served_once : OutputProcessor := (process_output ([], []) first_letters added).2.
Definition fetched_once : OutputProcessor := (on_queue 7 get_nowait served_once).2.
Definition fetched_output : option Output := match (on_queue 7 get_nowait served_once).1 with Ret o => o | Raise _ => None end.

Abbreviation letter_reach := (reach letter_detokenizer id 2).

Abbreviation letter_step := (step letter_detokenizer id).

Lemma added_step : letter_step (init2, ∅) (added, ∅).
Proof.
  apply (step_add _ _ _ _ stop_request (Some 7)); [apply letter_checked; [lia|by repeat constructor]|apply init_new_ids|done|].
  apply (run_eq (add_new letter_detokenizer stop_request (Some 7)) init2). vm_compute. reflexivity.
Qed.

Lemma served_step : letter_step (added, ∅) (served_once, ∅).
Proof.
  apply (step_process _ _ _ _ ([], []) first_letters ([], [])).
  - intros st Est. vm_compute in Est. injection Est as <-. split; [by eexists|done].
  - apply (run_eq (process_output ([], []) first_letters) added). vm_compute. reflexivity.
Qed.

Lemma fetched_step : letter_step (served_once, ∅) (fetched_once, fetched ∅ 7 fetched_output).
Proof. apply (step_fetch _ _ _ _ 7). apply (run_eq (on_queue 7 get_nowait) served_once). vm_compute. reflexivity. Qed.

Lemma fetched_once_reach : letter_reach (fetched_once, fetched ∅ 7 fetched_output).
Proof. eapply rtc_l; [apply added_step|]. eapply rtc_l; [apply served_step|]. apply rtc_once, fetched_step. Qed.

Lemma processor_never_raises_witness : letter_reach (fetched_once, fetched ∅ 7 fetched_output) ∧
  ∀ fuel, wp (abort_requests id (S fuel) ["a"%string] false) fetched_once (λ r s', letter_reach (s', fetched ∅ 7 fetched_output) ∧
    (∀ x, x ∈ r ↔ ∃ st, request_states fetched_once !! x = Some st ∧ external_req_id st ∈ ["a"%string]) ∧
    request_states s' = filter (λ '(_, st), external_req_id st ∉ ["a"%string]) (request_states fetched_once)).
Proof.
  split; [apply fetched_once_reach|]. intros fuel.
  exact (proj1 (proj2 (proj2 (processor_never_raises letter_detokenizer id (λ l, Permutation_refl l) 2 fetched_once (fetched ∅ 7 fetched_output) fetched_once_reach))) fuel ["a"%string]).
Defined.

Lemma streamed_output_complete_witness : letter_reach (fetched_once, fetched ∅ 7 fetched_output) ∧
  let h := fetched ∅ 7 fetched_output in
  let s' := (process_output ([], []) last_letters fetched_once).2 in
  ∃ st d r d1 c', request_states fetched_once !! "a-1"%string = Some st ∧
    ts_update [99; 100] false d = (Ret r, d1) ∧ queues s' !! 7 = Some c' ∧
    match final_reason None r with
    | Some _ => request_states s' !! "a-1"%string = None ∧ delivered h 7 c' (request_index st) co_text = ts_text d1 ∧
        delivered h 7 c' (request_index st) co_token_ids = ts_output_token_ids d ++ [99; 100]
    | None => is_Some (request_states s' !! "a-1"%string) ∧
        delivered h 7 c' (request_index st) co_text `prefix_of` ts_text d1 ∧
        delivered h 7 c' (request_index st) co_token_ids `prefix_of` ts_output_token_ids d ++ [99; 100]
    end.
Proof.
  split; [apply fetched_once_reach|]. cbv zeta. do 2 eexists.
  edestruct (streamed_output_complete letter_detokenizer id (λ l, Permutation_refl l) 2 fetched_once (fetched ∅ 7 fetched_output) ([], []) last_letters)
    as (r & d1 & c' & H); [apply fetched_once_reach|vm_compute; reflexivity|vm_compute; reflexivity|vm_compute; reflexivity|
      reflexivity|reflexivity|apply run_eq; vm_compute; reflexivity|].
  exists r, d1, c'. split; [vm_compute; reflexivity|]. exact H.
Defined.

(** The text that the client has got is "a", the tokens are all four. *)
Example stopped_text : (λ c, (delivered (fetched ∅ 7 fetched_output) 7 c 0 co_text, delivered (fetched ∅ 7 fetched_output) 7 c 0 co_token_ids)) <$>
  queues (process_output ([], []) last_letters fetched_once).2 !! 7 = Some ([97], [97; 98; 99; 100]).
Proof. vm_compute. reflexivity. Qed.

(** Two completions that are not streamed: the second child that finishes answers. *)
Definition pair_request (kind : RequestOutputKind) : EngineCoreRequest := letter_request "p-1" "p" (letter_params 2 kind []).
Definition done_letter (id : string) : EngineCoreOutput := mkEngineOutput id [120] (Some LENGTH) None None.

Definition both_added : OutputProcessor := (add_new letter_detokenizer (pair_request FINAL_ONLY) None init2).2.
Definition one_done : OutputProcessor := (process_output ([], []) (done_letter "1_p-1") both_added).2.

Lemma one_done_reach : letter_reach (one_done, ∅).
Proof.
  apply (rtc_l _ _ (both_added, ∅)); [|apply rtc_once].
  - apply (step_add _ _ _ _ (pair_request FINAL_ONLY) None); [by apply letter_checked; [lia|constructor]|apply init_new_ids|done|].
    apply (run_eq (add_new letter_detokenizer (pair_request FINAL_ONLY) None) init2). vm_compute. reflexivity.
  - apply (step_process _ _ _ _ ([], []) (done_letter "1_p-1") ([], [])).
    + intros st Est. vm_compute in Est. injection Est as <-. split; [by eexists|done].
    + apply (run_eq (process_output ([], []) (done_letter "1_p-1")) both_added). vm_compute. reflexivity.
Qed.

Lemma parallel_completions_together_witness : letter_reach (one_done, ∅) ∧
  let s' := (process_output ([], []) (done_letter "0_p-1") one_done).2 in
  ∃ acc' pr pr', (process_output ([], []) (done_letter "0_p-1") one_done).1 = Ret acc' ∧
    parents one_done !! "p-1"%string = Some pr ∧ parents s' !! "p-1"%string = Some pr' ∧
    ((child_requests pr' ≠ ∅ ∧ acc'.1 = []) ∨
     (child_requests pr' = ∅ ∧ (∀ id2 st2, request_states s' !! id2 = Some st2 → parent_req st2 ≠ Some "p-1"%string) ∧
      ∃ ro, acc'.1 = [] ++ [Completions ro] ∧ ro_finished ro = true ∧ ro_request_id ro = pr_external_req_id pr ∧
        all_completions (sp_n (pr_sampling_params pr)) (ro_outputs ro))).
Proof.
  split; [apply one_done_reach|]. cbv zeta. do 2 eexists.
  edestruct (parallel_completions_together letter_detokenizer id (λ l, Permutation_refl l) 2 one_done ∅ ([], []) (done_letter "0_p-1"))
    as (pr' & H1 & H2); [apply one_done_reach|vm_compute; reflexivity|vm_compute; reflexivity|vm_compute; reflexivity|
      reflexivity|vm_compute; reflexivity|vm_compute; reflexivity|reflexivity|apply run_eq; vm_compute; reflexivity|].
  exists pr'. split; [vm_compute; reflexivity|]. split; [vm_compute; reflexivity|]. split; [exact H1|]. exact H2.
Defined.

(** ** What goes wrong *)

(** Aborting the same internal id twice in one call, or a parent before its child: the
    second [remove] does not find the id. *)
Theorem abort_twice_raises :
  (abort_requests id 2 ["a-1"; "a-1"]%string true added).1 = Raise ValueError ∧
  (abort_requests id 3 ["p-1"; "0_p-1"]%string true both_added).1 = Raise ValueError.
Proof. split; vm_compute; reflexivity. Qed.

(** Aborting a parallel request by its external id leaves its entry in
    [parent_requests]. *)
Theorem abort_keeps_parent :
  let s' := (abort_requests id 2 ["p"]%string false both_added).2 in
  request_states s' = ∅ ∧ external_req_ids s' = ∅ ∧ parent_requests s' = {["p-1"%string]}.
Proof. vm_compute. split_and!; reflexivity. Qed.

(** The stream interval does not apply to cumulative outputs: with an interval of ten,
    every single token is sent. *)
Theorem cumulative_ignores_interval :
  let s0 := (add_new letter_detokenizer (letter_request "a-1" "a" (letter_params 1 CUMULATIVE [])) None
               (OutputProcessor_init (D := IncrementalDetokenizer unit) 10)).2 in
  let out t := mkEngineOutput "a-1" [t] None None None in
  length <$> (fst <$> match (process_outputs [out 97; out 98; out 99] s0).1 with Ret r => Some r | Raise _ => None end) = Some 3%nat.
Proof. vm_compute. reflexivity. Qed.

(** A pooling request with a stream interval above one fails an assertion. *)
Theorem pooling_interval_asserts :
  let s0 := (add_new letter_detokenizer (letter_request "e-1" "e" (Pooling FINAL_ONLY)) None init2).2 in
  (process_output ([], []) (mkEngineOutput "e-1" [] (Some STOP) None (Some (mkTensor 1 (λ _ _, [])))) s0).1 = Raise AssertionError.
Proof. vm_compute. reflexivity. Qed.

(** A child that finishes before the next one is registered, which [AsyncLLM.add_request]
    lets happen by awaiting in between, ends the request of its parent: of two
    completions one is handed out as the finished output. *)
Theorem early_child_finishes_parent :
  let sp := mkSampling 2 None true DELTA (mkDetokParams (StopList []) 0 false true true) in
  let s0 := (pr ← of_outcome (ParentRequest_init (pair_request DELTA) sp);
             modify (λ s, set_parents (<["p-1"%string := pr]> (parents s)) s) ;;
             add_child letter_detokenizer (pair_request DELTA) None 0) init2 in
  (λ r : list Output * list string, (λ o, match o with Completions ro => (ro_finished ro, length (ro_outputs ro)) | _ => (false, 0%nat) end) <$> r.1) <$>
    match (process_outputs [done_letter "0_p-1"] s0.2).1 with Ret r => Some r | Raise _ => None end = Some [(true, 1%nat)].
Proof. vm_compute. reflexivity. Qed.
